(* ===== verification/_CoqProject ===== *)
-Q . S2P
Prelude.v
Errors.v
Shbuf.v
Descriptor.v
Vfs.v
BcState.v
Fmap.v
FmapInv.v
Crc.v
Db.v
Table.v
Index.v
IndexInv.v
Arch.v
Block.v
BlockSpec.v
Store.v
Lifecycle.v
PeerDb.v
PeerDbSpec.v
Net.v
Unet.v
UnetCycle.v
UnetInv.v
Links.v
Shmap.v
ShmapInv.v
ShmapOps.v
ShmapSpec.v
ShmapFree.v
Sha.v
ShaSpec.v
Hmac.v
HmacSpec.v
Key.v
KeyThm.v
Opt.v
OptSpec.v
Clients.v
Services.v
ClientsSpec.v
ClientsServe.v
ServSpec.v
Json.v
JsonTree.v
JsonSafe.v
JsonSpec.v
JsonPrint.v
JsonMap.v
Codec.v
CodecSpec.v
Stratum.v
StratumSpec.v
StratumReply.v
Scrypt.v
ScryptSpec.v
Ossl.v
OsslSpec.v
Work.v
WorkSpec.v
Color.v
Task.v
TaskSpec.v
Model.v
BufThm.v
MapThm.v
ChainThm.v
PeerThm.v
UnetThm.v
ShmapThm.v
ShaThm.v
OptThm.v
ServThm.v
JsonThm.v
StratumThm.v
CodecThm.v
WorkThm.v
ColorThm.v
TaskThm.v
Spring.v
