(* ===== verification/Prelude.v ===== *)
(** * A verification development for shioncoin

    shioncoin (shcoind) is a coin daemon.  Its C core, below the C++ server,
    keeps blocks, transactions and peers in memory-mapped record files
    ([src/src/shioncoin/blockchain]), tracks every open descriptor and its I/O
    queues ([shcoind_descriptor.c]), and drives the network
    ([src/src/shioncoin/unet]).  Its options ([shcoind_opt.c]) live in a hash map
    of the bundled libshare ([src/depend/share/src/share-lib]), under keys that
    are SHA-256 digests of their names, and its RPC clients authenticate with
    one-time pins.  Three services, for miners ([stratum]), API clients ([shapi])
    and RPC clients, keep lists of connections and take requests from the queues
    of their descriptors.  The server calls the record store; the store maps files and
    claims descriptors; the network layer reads and writes the queues of the
    descriptors and keeps its peers in a record store; start-up fills the
    options from the defaults, the preferences, two configuration files, the
    environment and the command line.  This library models that core as
    executable definitions and proves what each part promises to the next.

    ** Parts and files

    The definitions keep the names of the C functions; [f_] models the static
    function [_f] that runs under the lock taken by [f].

    - Prelude: machine integers ([u32], [i32], ... write the wrap-around out),
      bytes and little-endian encoding, the hint base [bc].
    - Errors: [shcoind_error.c] and the conversion between [errno] and share
      error codes.
    - Shbuf: libshare's byte buffers ([shmem_buf.c]) and their invariant.
    - Descriptor: the descriptor table of [shcoind_descriptor.c]; the code tests
      only the upper bound, so an access with a negative descriptor, before the
      table, is a fault of the model.
    - Vfs: files, descriptors and system calls; the class [Env] answers which
      calls fail, depending on the whole state.
    - BcState: [bc_t], [bc_map_t], and the monad of the database code: a state,
      a result that is a value or an error code, and a fault for an access
      outside a mapping or through a null pointer; weakest preconditions.
    - Fmap, FmapInv: [bc_fmap.c] and [bc_mutex.c]; the invariant of a mapped
      file and the specification of each map operation on every branch, failing
      system calls included.
    - Crc: [shcrc] and [shcrc32].
    - Db: the invariant of a database and of its capacity; [succeeds], the
      specifications when system calls do not fail.
    - Table, Index and IndexInv, Arch, Block: [bc_table.c], [bc_index.c],
      [bc_arch.c], [bc_block.c]; BlockSpec holds the invariant of
      the records (each inside its journal, disjoint, matching its checksum) and
      the specification of each call.
    - Store: the abstract record store (a list of optional records and an
      archive), the requests, and the refinement: every request is answered as
      the abstract store answers it.  The class [RecordDb] is the interface of
      the store, with this store as its instance.  Lifecycle adds opening and
      closing.
    - PeerDb, PeerDbSpec: service modes and [unet_peerdb.c]; the peer
      database is verified against [RecordDb] only, as a finite map.
    - Net, Unet, UnetCycle, UnetInv: the state of the network layer and
      [unet_event.c], [unet_accept.c], [unet_connect.c], [unet_close.c],
      [unet_bind.c], [unet_timer.c], [unet_io.c], [unet_thread.c], [unet.c].
      The class [Net] answers every call that leaves these files as a function
      of the history of calls.
    - Links: a monad of heap programs (a state and a fault) with its weakest
      precondition, and linked lists in a heap.
    - Shmap, ShmapInv, ShmapOps, ShmapSpec, ShmapFree: libshare's hash
      map ([shmem_map.c]) on a heap of entries and value blocks: buckets of linked
      lists, recycled entries, growth, iteration, print and load.
    - Sha, ShaSpec: the digests of [shmem_alg_sha.c]; the
      definition of the Secure Hash Standard, the invariant of a context that
      has absorbed a message, and the equivalence.
    - Hmac, HmacSpec: HMAC, HKDF and one-time pins of the same file, and
      the RPC pins of [shcoind_rpc.c].
    - Key, KeyThm: [shmem_key.c]; keys, their text forms and signatures.
    - Opt, OptSpec: [shcoind_opt.c].  The class [OptStore] holds the accesses to
      the option map; [OptStoreOk] is what the options rely on, and the hash map
      provides it.  OptSpec gives the value of each option after each stage, the
      facts of the option table (its keys differ), the lines of the
      configuration file and what reading them does.
    - Clients: the loops that the three services share (search, accept, close,
      sweep, one line per connection); Services: [stratum.c], [stratum_user.c],
      [shapi.c], [shapi_user.c] and the connections of [shcoind_rpc.c] on them.
      ClientsSpec specifies the loops on the list of clients, ClientsServe the
      lines that a round takes from the read queues and a
      connection in any interleaving of arrivals and rounds.  ServSpec holds
      [Keeps], what a request handler promises to the timers, and the users.
    - Json, JsonTree: the parser, printer and item operations of
      [shmem_json.c], in which the services read and write their messages; a
      pointer is the rest of its memory, and reading or writing behind it is a
      fault.  JsonSafe is a weakest precondition of the parser; JsonSpec the
      texts of values and how they are read, JsonPrint how items are printed
      and texts minified, JsonMap objects as maps and copies.
    - Codec: the text forms of binary data of libshare, [shmem_base32.c],
      [shmem_base58.c], [shmem_base64.c], [shalg_encode] and [shalg_decode] of
      [shmem_alg.c], and two-factor secrets as text; CodecSpec reads base 64,
      base 32, base 58 (as a number), hexadecimal and six-letter words back.
    - Stratum: the protocols of the services, [stratum_message.c],
      [stratum_protocol.c], [stratum_command.c], the shares and speeds of
      [stratum_user.c], [shapi_protocol.c] and the keys of RPC users of
      [shcoind_rpc.c], as computations on the lists of Services.v and the
      messages of Json.v; the class [Server] is what they ask of the C++ server.
      StratumSpec shows that requests keep the service going, StratumReply what
      a reply writes.
    - Scrypt: proof of work, the scrypt of the built-in miner
      ([shmem_scrypt_gen.c]) and of the coin server ([libalgo/scrypt.c], on the
      class [SHA256lib]); ScryptSpec: PBKDF2, Salsa20/8 and scrypt of their RFCs,
      the block function, the specialised key derivation, the mixing and the
      miner's scrypt; Ossl, OsslSpec: SHA-256 of the bundled OpenSSL, the
      promise [SHA256ok], and the server's scrypt on it.
    - Work: the work unit and the nonce scan ([shmem_scrypt.c],
      [shmem_scrypt_gen.c]) and the console miner ([shcon_mine.c]); WorkSpec: the
      header, hash and target as numbers, the scan as a search, and the bytes
      of a work unit.
    - Task: rewards, tasks and their notices and the built-in miner
      ([stratum_task.c], [stratum_send_task] and the end of the timers), on the
      work units of Work.v, the templates of Json.v and the lists of Services.v;
      the class [Pool] is what they ask of the C++ server, and a log holds what they
      tell it.  TaskSpec: the loops as functions on the list of workers, the class
      [Exact] (the arithmetic read without rounding), the fields of a task and the
      scan of the built-in miner.
    - Color: [altchain_color.c], names to colors by edit distance; Spring:
      [spring.c], the matrix of locations that can be claimed, with its properties.
    - Model: concrete systems and states on which the properties are evaluated.
    - BufThm, MapThm, ChainThm, PeerThm, UnetThm, ShmapThm, ShaThm, OptThm,
      ServThm, JsonThm, StratumThm, CodecThm, WorkThm, ColorThm, TaskThm (and the
      ends of KeyThm and Spring): the properties, each with an instance at a
      concrete input.

    ** What the theorems show

    - The store: opening a database and running any admissible requests answers
      as the abstract store ([open_run_correct], [request_refines]); closing and
      opening keeps it ([close_open_keeps]); what is appended is found and read
      back; corrupted records are not returned; searches, clears and purges of
      the index, the position table and the archive behave as specified.
    - The maps: writing, appending, truncating, growing and closing change
      exactly the bytes they should, or report an error and change none.
    - The peers: sequences of updates are updates of a finite map; the list of
      peers is complete and sorted by trust.
    - The network: the I/O cycle is memory safe for any system replies and any
      callbacks that keep the tables, when the limit of descriptors is at most
      FD_SETSIZE ([unet_cycle_safe]; above it the bits of a descriptor set are
      written behind it, [fd_set_overflow]); its event loop ends; output queues lose
      and repeat nothing; a coin service accepts one connection per address;
      unbinding leaves no connection behind.
    - The hash map answers as a finite map ([shmap_refines]), survives printing
      and loading, and frees each block once.
    - The digests are those of the standard for any way of cutting a message
      into writes ([sha_stream]); the constants that the standard and the code
      share are the fractional parts of roots of primes ([sha_constants]), and
      the digests of the standard's examples are checked ([sha_vectors]); HMAC and HKDF-Expand are those of their RFCs; a
      pin is accepted in its own period and the two next to it; the texts of a
      key give the key back; only the signature of a key verifies.
    - Start-up gives every option the value of the last source that mentions it
      ([opt_precedence]); a generated RPC key is found again on the next start
      ([rpc_key_persists]).
    - The services: every line without a zero byte that arrives on a connection
      is handed over in order and once, when the handlers keep the list, the
      connections and the queues ([stratum_lines], [shapi_lines]); a connection lives from
      accept to the sweep after its close ([stratum_connection]); the API and
      RPC sweeps are exact; naming a worker moves the shares of its idle records
      without losing any ([stratum_user_merges]).
    - JSON: printing and parsing are inverse ([json_round_trip]), minifying
      gives the unformatted text ([json_minify]), objects are maps
      ([json_object_map]) and are copied ([json_append_copies]); the parser ends
      on every text and is memory safe on texts with complete escapes.
    - The protocols: well-formed requests do not fault and keep what the timers
      rely on ([stratum_request_safe]); replies are single lines with what the
      code makes of the identifier of their request ([stratum_replies] says which
      identifiers come back as they are; [shapi_unknown_method]);
      RPC access is granted to exactly those who know the key of their address
      and its pin ([stratum_elevate_exact], [rpc_dat_lookup]); the report of the
      rounds reads the slots that the round reset writes ([stratum_rounds]).
    - The text forms: every form gives back what was encoded
      ([codec_round_trip]); base 58 with a checksum gives out only bytes that
      carry it ([base58_check]); the pin of the text of a secret is that of the
      secret ([secret_text_pin]).
    - Proof of work: both scrypt functions compute RFC 7914 ([scrypt_both]) and
      both SHA-256 the standard ([sha256_agree]); a scan finds the first good
      nonce and the verification agrees ([mined_verifies], [console_miner]); the
      header of a work unit is the coin's ([work_header]).
    - The pool: the first block after the start is only noted; every later one is
      divided once and into no more than it is worth ([payout_divides]); payments
      neither make nor lose coins and stay below the balance of the pool
      ([rewards_conserved]), both with exact arithmetic; a task has the number, the
      version, the time and the other fields of its template, and the header that
      the built-in miner tries has them too, but always version 1 ([task_mined]);
      new blocks, whose heights the server may change at every call, are reported
      within a few calls unless a coin earlier in the table has new blocks at every
      call ([pending_reports]).
    - Colors and locations: the distance of two names is the least number of edits
      ([levenshtein_correct]), a color is made of the closest labels
      ([color_gen_closest]); a location that was set can be claimed once, and only
      its cell changes ([spring_claims]).
    - Buffers, descriptors, error codes: queues are first-in first-out, slots
      live from claim to release, the conversions are inverse.
    - Limits of the code, as theorems: 32-bit growth of a large map, reads that
      end at the end of the payload, a rewritten record that keeps its old hash,
      empty records, a purge from position 0, a leaked archive descriptor, a
      null header after a failed mapping, a write past the mapped index, the
      event loop's range from cursor 0, a hash map that uses 16 buckets, a key
      derivation with salt and key exchanged, keys of numbers that collide,
      clients that fall off the stratum list with another one, a line that
      blocks its connection, an elevated user that is not served, a round that
      ends at a malformed request, a JSON string that is written beyond its
      allocation, the requests that fault ([stratum_request_faults]), the texts
      that are written behind their buffers ([codec_overruns]), the coinbase
      and merkle texts that do not fit theirs ([work_fits]), and the locations
      outside the spring matrix ([spring_bounds]).

    ** Bounds

    [CAP] = 2^29 bounds the payload of a map, and record positions stay below
    2^22: below these the 32-bit size computations of [_bc_map_alloc] do not
    wrap ([map_alloc_wraps] shows that they do for larger files).  Loops with
    fuel: the purge (as many turns as records are enough,
    [purge_keeps_prefix]), the event loop (one turn of the event table is
    enough, [uevent_cycle_ends]), the walks along the lists of the hash map (as
    many steps as the heap has entries; the specifications show that a list
    never has more), those along the lists of clients (the same), the zero fill of a digest
    block (one block) and the JSON parser (twice the length of the text,
    [json_parse_ends]).  Running
    out of fuel is a fault, which the theorems exclude; every other loop is a
    structural recursion.  Digests are those of messages below 2^61 bytes,
    written in pieces below 2^32 bytes, which is where the code's length
    arguments are cut.  The loop over the blocks of a base 32 text has the length
    of the text as fuel; texts of up to 2047 bytes fit the buffer of 4096
    characters in every form.  The nonce scan has as fuel the nonces up to its
    last one, which is enough ([mined_verifies] gives its result for every work
    unit); scrypt itself is a composition of bounded iterations.  The loops over
    the workers have the number of records as fuel.  The search of the spring
    matrix has its turns as fuel ([search_lon_ends]).

    ** Not modelled

    The C++ server, wallet and consensus, which the protocols ask through
    [Server] and [Pool]; arithmetic on doubles (the classes [Double] and its
    extensions, with the laws of [Exact] where a property says so) and the format
    of numbers that are not 32-bit integers in JSON (the class [Real]); the
    synchronisation of stratum servers, whose loop is disabled in the source, and
    their web pages; log and status messages (except the line of a payout, whose
    array can overflow); floating-point time and frequencies
    (parameters of [Net]); [unet_peer_prune] and the export of peers; the
    discovery of local addresses; [bc_path_base] and the chain table of the coin
    interfaces; the body of the timer thread; the name of the local RPC user; base
    32 with line breaks, and the elliptic-curve keys and signatures of libshare;
    the initial contents of the spring matrix.  Preferences, environment, random
    numbers, the clock, uninitialised memory and the contents of files are
    arguments.  Concurrency is modelled by the recursive lock around each database
    call; interleavings inside a call are not. *)

From stdpp Require Export base tactics numbers list fin_maps gmap strings pretty.
From Stdlib Require Export Strings.Byte.
From Stdlib Require Export ZArith Lia.

Open Scope Z_scope.

(** The lemmas that close the common side conditions. *)
Create HintDb bc.

(** ** Machine integers

    A C integer of width [w] is a [Z]; conversions write the wrap-around out. *)
Definition u8 (z : Z) : Z := z mod 2 ^ 8.
Definition u16 (z : Z) : Z := z mod 2 ^ 16.
Definition u32 (z : Z) : Z := z mod 2 ^ 32.
Definition u64 (z : Z) : Z := z mod 2 ^ 64.
Definition i32 (z : Z) : Z := (z + 2 ^ 31) mod 2 ^ 32 - 2 ^ 31.
Definition i64 (z : Z) : Z := (z + 2 ^ 63) mod 2 ^ 64 - 2 ^ 63.

Abbreviation zlen l := (Z.of_nat (length l)).

Lemma u32_range z : 0 ≤ u32 z < 2 ^ 32.
Proof. apply Z.mod_pos_bound. lia. Qed.
Lemma u32_small z : 0 ≤ z < 2 ^ 32 → u32 z = z.
Proof. apply Z.mod_small. Qed.
Lemma u64_small z : 0 ≤ z < 2 ^ 64 → u64 z = z.
Proof. apply Z.mod_small. Qed.
Lemma i32_small z : - 2 ^ 31 ≤ z < 2 ^ 31 → i32 z = z.
Proof. intros. unfold i32. rewrite Z.mod_small; lia. Qed.

(** ** Bytes and little-endian integers *)
Definition byte_of_Z (z : Z) : byte := default x00 (Byte.of_N (Z.to_N (z mod 256))).
Definition Z_of_byte (b : byte) : Z := Z.of_N (Byte.to_N b).

Lemma Z_of_byte_range b : 0 ≤ Z_of_byte b < 256.
Proof. unfold Z_of_byte. pose proof (Byte.to_N_bounded b). lia. Qed.

Lemma Z_of_byte_of_Z z : Z_of_byte (byte_of_Z z) = z mod 256.
Proof.
  unfold Z_of_byte, byte_of_Z.
  pose proof (Z.mod_pos_bound z 256 ltac:(lia)).
  destruct (Byte.of_N _) as [b|] eqn:E; simpl.
  - apply Byte.to_of_N in E. rewrite E. lia.
  - apply Byte.of_N_None_iff in E. lia.
Qed.

Lemma byte_of_Z_of_byte b : byte_of_Z (Z_of_byte b) = b.
Proof.
  unfold byte_of_Z. rewrite Z.mod_small by apply Z_of_byte_range.
  unfold Z_of_byte. by rewrite N2Z.id, Byte.of_to_N.
Qed.

#[global] Instance byte_eq_dec : EqDecision byte.
Proof. intros a b. apply Byte.byte_eq_dec. Defined.

Fixpoint le_enc (n : nat) (z : Z) : list byte :=
  match n with
  | O => []
  | S n => byte_of_Z z :: le_enc n (z / 256)
  end.
Fixpoint le_dec (l : list byte) : Z :=
  match l with
  | [] => 0
  | b :: l => Z_of_byte b + 256 * le_dec l
  end.

Lemma length_le_enc n z : length (le_enc n z) = n.
Proof. revert z. induction n; intros; simpl; auto. Qed.

Lemma le_dec_enc n z : le_dec (le_enc n z) = z mod 256 ^ Z.of_nat n.
Proof.
  revert z. induction n as [|n IH]; intros z; cbn [le_enc le_dec].
  - by rewrite Z.mod_1_r.
  - rewrite IH, Z_of_byte_of_Z, Nat2Z.inj_succ, Z.pow_succ_r by lia.
    rewrite Z.rem_mul_r by lia. done.
Qed.

Lemma le_dec_range l : 0 ≤ le_dec l < 256 ^ zlen l.
Proof.
  induction l as [|b l IH]; cbn [le_dec length].
  - done.
  - rewrite Nat2Z.inj_succ, Z.pow_succ_r by lia. pose proof (Z_of_byte_range b). lia.
Qed.

Lemma le_enc_dec l : le_enc (length l) (le_dec l) = l.
Proof.
  induction l as [|b l IH]; cbn [le_enc le_dec length]; [done|].
  pose proof (Z_of_byte_range b). f_equal.
  - rewrite <-(byte_of_Z_of_byte b) at 2. unfold byte_of_Z.
    do 3 f_equal. rewrite (Z.mul_comm 256), Z.mod_add by lia. done.
  - rewrite (Z.mul_comm 256), Z.div_add, Z.div_small by lia. done.
Qed.

Lemma le_enc_mod n z : le_enc n (z mod 256 ^ Z.of_nat n) = le_enc n z.
Proof.
  rewrite <-(le_dec_enc n z). rewrite <-(length_le_enc n z) at 1. apply le_enc_dec.
Qed.
