(* ===== verification/Errors.v ===== *)
(** * Error codes

    libshare's error codes ([depend/share/src/share-lib/sherr.h]), their
    conversion from and to POSIX [errno] values ([share.c]) and the daemon's
    error labels ([src/shioncoin/shcoind_error.c]). *)

From S2P Require Import Prelude.

(** ** Codes ([sherr.h], [shcoind_error.h]) *)
Definition SHERR_UNKNOWN : Z := -1.
Definition ERR_NOENT : Z := -2.
Definition ERR_SRCH : Z := -3.
Definition ERR_IO : Z := -5.
Definition ERR_BADF : Z := -9.
Definition ERR_AGAIN : Z := -11.
Definition ERR_NOMEM : Z := -12.
Definition ERR_EXIST : Z := -17.
Definition ERR_ISDIR : Z := -21.
Definition ERR_INVAL : Z := -22.
Definition ERR_NOLCK : Z := -37.
Definition ERR_OVERFLOW : Z := -75.
Definition ERR_NOTUNIQ : Z := -76.
Definition ERR_ILSEQ : Z := -84.
Definition ERR_OPNOTSUPP : Z := -95.
Definition ERR_NOBUFS : Z := -105.
Definition ERR_TIMEDOUT : Z := -110.
Definition ERR_INPROGRESS : Z := -115.

(** [CUSTOM_ERROR(_code)] of [shcoind_error.h]. *)
Definition CUSTOM_ERROR (code : Z) : Z := -1000 - code.

(** ** [_share_stderr_table] of [sherr.h], with the Linux [errno] numbers. *)
Definition _share_stderr_table : list (Z * Z) :=
  [ (2, -2); (3, -3); (5, -5); (7, -7); (9, -9); (11, -11); (12, -12);
    (13, -13); (17, -17); (20, -20); (21, -21); (22, -22); (23, -23);
    (27, -27); (28, -28); (36, -36); (37, -37); (42, -42); (54, -54);
    (75, -75); (76, -76); (84, -84); (104, -104); (105, -105); (110, -110);
    (111, -111); (114, -114); (121, -121); (62, -62); (64, -64); (65, -65);
    (66, -66); (67, -67); (71, -71); (88, -88); (95, -95); (98, -98);
    (99, -99); (100, -100); (101, -101); (108, -108); (109, -109);
    (115, -115); (123, -123); (125, -125); (126, -126); (127, -127);
    (128, -128); (129, -129); (130, -130) ].

Fixpoint table_find (p : Z * Z → bool) (t : list (Z * Z)) : option (Z * Z) :=
  match t with
  | [] => None
  | e :: t => if p e then Some e else table_find p t
  end.

(** The table ends at the first entry whose code is 0: the loop
    [for (i = 0; _share_stderr_table[i].code != 0; i++)]. *)
Definition stderr2sherr (std_err : Z) : Z :=
  if std_err <=? 0 then std_err
  else match table_find (λ e, e.1 =? std_err) _share_stderr_table with
       | Some e => e.2
       | None => SHERR_UNKNOWN
       end.

Definition sherr2stderr (sh_err : Z) : Z :=
  if 0 <=? sh_err then sh_err
  else match table_find (λ e, e.2 =? sh_err) _share_stderr_table with
       | Some e => e.1
       | None => sh_err
       end.

(** [errno2sherr()] is [stderr2sherr(errno)]. *)
Definition errno2sherr (errno : Z) : Z := stderr2sherr errno.

(** ** The daemon's labels ([shcoind_error.c]) *)
Definition _error_code_table : list (Z * string) :=
  [ (-1, "Unknown error"); (0, "NONE"); (-2, "entity not found"); (-3, "SRCH");
    (-5, "IO"); (-7, "2BIG"); (-8, "executable format error"); (-9, "BADF");
    (-11, "resource temporarily unavailable"); (-12, "unable to allocate memory");
    (-13, "permission denied"); (-17, "entity already exists"); (-20, "NOTDIR");
    (-21, "ISDIR"); (-22, "invalid parameter"); (-23, "NFILE"); (-27, "FBIG");
    (-28, "NOSPC"); (-36, "NAMETOOLONG"); (-37, "NOLCK"); (-42, "NOMSG");
    (-54, "XFULL"); (-75, "OVERFLOW"); (-76, "key is not unique");
    (-84, "illegal byte sequence"); (-104, "CONNRESET"); (-105, "NOBUFS");
    (-110, "timeout"); (-111, "connection refused"); (-114, "ALREADY");
    (-121, "REMOTEIO"); (-62, "TIME"); (-64, "NONET"); (-65, "NOPKG");
    (-66, "remote resource"); (-67, "NOLINK"); (-71, "protocol error");
    (-88, "NOTSOCK"); (-95, "operation not supported"); (-98, "ADDRINUSE");
    (-99, "ADDRNOTAVAIL"); (-100, "NETDOWN"); (-101, "NETUNREACH");
    (-108, "SHUTDOWN"); (-109, "TOOMANYREFS"); (-115, "INPROGRESS");
    (-123, "NOMEDIUM"); (-125, "CANCELED"); (-126, "key not available");
    (-127, "expired key"); (-128, "revoked key"); (-129, "rejected key");
    (-130, "OWNERDEAD");
    (CUSTOM_ERROR 1, "Task has expired"); (CUSTOM_ERROR 2, "Serialization failure");
    (CUSTOM_ERROR 3, "Insufficient funds"); (CUSTOM_ERROR 4, "Record not commited");
    (CUSTOM_ERROR 5, "class not found"); (CUSTOM_ERROR 6, "method not found") ]%string.

Fixpoint label_find (code : Z) (t : list (Z * string)) : option string :=
  match t with
  | [] => None
  | (c, s) :: t => if c =? code then Some s else label_find code t
  end.

Definition error_str (code : Z) : string :=
  let code := if 0 <? code then i32 (code * -1) else code in
  default "Unknown error"%string (label_find code _error_code_table).

Definition error_code (sys_code : Z) : Z := stderr2sherr sys_code.

(** ** Lemmas *)
Lemma table_find_Some p t e : table_find p t = Some e → e ∈ t ∧ p e = true.
Proof.
  induction t as [|x t IH]; simpl; [done|].
  destruct (p x) eqn:E; intros; simplify_eq; set_solver.
Qed.

Lemma share_table_opposite e : e ∈ _share_stderr_table → e.2 = - e.1 ∧ 0 < e.1.
Proof. revert e. apply Forall_forall. repeat constructor; simpl; lia. Qed.

Lemma stderr2sherr_nonpos n : stderr2sherr n ≤ 0.
Proof.
  unfold stderr2sherr. destruct (Z.leb_spec n 0); [lia|].
  destruct (table_find _ _) as [e|] eqn:E; [|unfold SHERR_UNKNOWN; lia].
  apply table_find_Some in E as [E _]. apply share_table_opposite in E. lia.
Qed.

Lemma stderr2sherr_neg n : 0 < n → stderr2sherr n < 0.
Proof.
  intros Hn. unfold stderr2sherr. destruct (Z.leb_spec n 0); [lia|].
  destruct (table_find _ _) as [e|] eqn:E; [|unfold SHERR_UNKNOWN; lia].
  apply table_find_Some in E as [E _]. apply share_table_opposite in E. lia.
Qed.
