(* ===== verification/Shbuf.v ===== *)
(** * Growable byte buffers

    libshare's [shbuf_t] ([depend/share/src/share-lib/mem/shmem_buf.c]), the
    buffer under every descriptor's read and write queue.  A buffer is either
    unallocated ([data == NULL]) or holds the bytes [0 .. data_of) of its data
    segment; the bytes between [data_of] and [data_max] are indeterminate after
    a [realloc] and no operation below reads them, so they are not part of the
    state.  The recursive mutex of a buffer is held for the whole of each
    operation; the operations are modelled as the critical sections. *)

From S2P Require Import Prelude Errors.

Definition SHBUF_FMAP : Z := 2.
Definition MAX_SHBUF_SIZE : Z := 0xFFFFFFFFFFFF.

Record shbuf_t := Shbuf {
  data : option (list byte);
  data_max : Z;
  data_pos : Z;
  flags : Z;
}.

(** Whether the C heap can provide a block of the given size: [calloc] and
    [realloc] return [NULL] exactly when it cannot. *)
Class Heap := heap_ok : Z → bool.

Definition data_of (buf : shbuf_t) : Z := zlen (default [] (data buf)).

Definition shbuf_init : shbuf_t := Shbuf None 0 0 0.

Definition shbuf_size (buf : option shbuf_t) : Z :=
  match buf with None => 0 | Some b => data_of b end.
Definition shbuf_data (buf : option shbuf_t) : option (list byte) :=
  match buf with None => None | Some b => data b end.

Section ops.
Context `{Heap}.

(** [__shbuf_grow]: an error code and the buffer it leaves. *)
Definition shbuf_grow (buf : shbuf_t) (data_len : Z) : Z * shbuf_t :=
  let block_len := i32 (u64 (data_len + 1) / 16384 + 1) in
  let n := i32 (block_len * 16384) in
  if u64 n <=? data_max buf then (0, buf)
  else if Z.testbit (flags buf) 1 then (ERR_OPNOTSUPP, buf)
  else if heap_ok (u64 n)
  then (0, Shbuf (Some (default [] (data buf))) (u64 n) (data_pos buf) (flags buf))
  else (ERR_NOBUFS, Shbuf None 0 (data_pos buf) (flags buf)).

Definition shbuf_cat (buf : shbuf_t) (bs : list byte) : shbuf_t :=
  let '(err, buf) := shbuf_grow buf (data_of buf + zlen bs + 1) in
  if err =? 0
  then Shbuf (Some (default [] (data buf) ++ bs)) (data_max buf) (data_pos buf) (flags buf)
  else buf.

Definition shbuf_append (from_buff to_buff : option shbuf_t) : option shbuf_t :=
  match from_buff, to_buff with
  | Some f, Some t => Some (shbuf_cat t (default [] (data f)))
  | _, _ => to_buff
  end.

Definition shbuf_clone (buff : option shbuf_t) : option shbuf_t :=
  shbuf_append buff (Some shbuf_init).

(** The loop of [shbuf_padd] adds one zero byte per round. *)
Fixpoint shbuf_padd_loop (n : nat) (buff : shbuf_t) : shbuf_t :=
  match n with O => buff | S n => shbuf_padd_loop n (shbuf_cat buff [x00]) end.
Definition shbuf_padd (buff : shbuf_t) (len : Z) : shbuf_t :=
  shbuf_padd_loop (Z.to_nat (len - data_of buff)) buff.
End ops.

Definition set_data (buf : shbuf_t) (l : list byte) : shbuf_t :=
  Shbuf (Some l) (data_max buf) (data_pos buf) (flags buf).

(** [__shbuf_trim]: remove the first [len] bytes. *)
Definition shbuf_trim (buf : shbuf_t) (len : Z) : shbuf_t :=
  match data buf with
  | None => buf
  | Some l =>
     if MAX_SHBUF_SIZE <? len then buf
     else
       let len := if data_of buf <? len then data_of buf else len in
       if len =? 0 then buf
       else if data_of buf =? len then set_data buf []
       else set_data buf (drop (Z.to_nat len) l)
  end.

Definition shbuf_clear (buf : option shbuf_t) : option shbuf_t :=
  match buf with None => None | Some b => Some (shbuf_trim b (data_of b)) end.

(** [shbuf_truncate]: keep the first [len] bytes; a [len] of 0 keeps all. *)
Definition shbuf_truncate (buf : shbuf_t) (len : Z) : shbuf_t :=
  match data buf with
  | None => buf
  | Some l =>
     let len := Z.min len (data_of buf) in
     if len =? 0 then buf
     else if data_of buf =? len then buf
     else set_data buf (take (Z.to_nat len) l)
  end.

(** [shbuf_idx]: the first offset of a byte, or [(size_t)-1]. *)
Fixpoint shbuf_idx_from (i : Z) (l : list byte) (ch : byte) : Z :=
  match l with
  | [] => u64 (-1)
  | b :: l => if decide (b = ch) then i else shbuf_idx_from (i + 1) l ch
  end.
Definition shbuf_idx (buf : option shbuf_t) (ch : byte) : Z :=
  match buf with None => u64 (-1) | Some b => shbuf_idx_from 0 (default [] (data b)) ch end.

Definition shbuf_memcpy (buf : shbuf_t) (len : Z) : list byte :=
  take (Z.to_nat (Z.min len (data_of buf))) (default [] (data buf)).

Definition shbuf_pos_set (buff : shbuf_t) (pos : Z) : shbuf_t :=
  Shbuf (data buff) (data_max buff) (Z.min (data_of buff) pos) (flags buff).
Definition shbuf_pos_incr (buff : shbuf_t) (pos : Z) : shbuf_t :=
  shbuf_pos_set buff (u64 (data_pos buff + pos)).

Definition shbuf_cmp (buff cmp_buff : shbuf_t) : bool :=
  bool_decide (data_of buff = data_of cmp_buff)
  && bool_decide (default [] (data buff) = default [] (data cmp_buff)).

(** ** Invariant and lemmas *)

(** A heap buffer: allocated in blocks of 16384 bytes, its contents strictly
    inside the allocation (one byte is always left for a terminator), its seek
    position inside the contents' bound. *)
Definition shbuf_wf (b : shbuf_t) : Prop :=
  Z.testbit (flags b) 1 = false ∧
  match data b with
  | None => data_max b = 0
  | Some l => zlen l < data_max b ∧ data_max b < 2 ^ 31
  end.

Lemma shbuf_init_wf : shbuf_wf shbuf_init.
Proof. done. Qed.

Lemma u64_i32_nonneg z : 0 ≤ z < 2 ^ 31 → u64 (i32 z) = z.
Proof. intros. rewrite i32_small by lia. apply u64_small. lia. Qed.

Section lemmas.
Context `{Heap}.

Lemma shbuf_grow_spec buf n :
  shbuf_wf buf → 0 ≤ n < 2 ^ 31 - 32768 → data_of buf ≤ n →
  heap_ok ((((n + 1) / 16384) + 1) * 16384) = true →
  ∃ buf', shbuf_grow buf n = (0, buf') ∧ n < data_max buf' < 2 ^ 31 ∧
    data_of buf' = data_of buf ∧ default [] (data buf') = default [] (data buf) ∧
    is_Some (data buf') ∧ flags buf' = flags buf.
Proof.
  intros [Hfl Hwf] Hn Hof Hheap. unfold shbuf_grow.
  assert (0 ≤ (n + 1) / 16384 < 131071).
  { split; [apply Z.div_pos; lia|]. apply Z.div_lt_upper_bound; lia. }
  pose proof (Z.mul_succ_div_gt (n + 1) 16384 ltac:(lia)).
  rewrite (u64_small (n + 1)), (i32_small (_ + 1)) by lia.
  rewrite u64_i32_nonneg by lia.
  destruct (Z.leb_spec (((n + 1) / 16384 + 1) * 16384) (data_max buf)).
  - exists buf. destruct (data buf) as [l|] eqn:E; [|lia].
    unfold data_of in *. rewrite E in *. simpl in *. repeat split; eauto; lia.
  - rewrite Hfl, Hheap. eexists. split; [reflexivity|].
    unfold data_of; simpl. repeat split; eauto; lia.
Qed.

Lemma shbuf_cat_data buf bs :
  shbuf_wf buf → data_of buf + zlen bs + 1 < 2 ^ 31 - 32768 →
  (∀ n, heap_ok n = true) →
  data (shbuf_cat buf bs) = Some (default [] (data buf) ++ bs).
Proof.
  intros Hwf Hlen Hh. unfold shbuf_cat.
  destruct (shbuf_grow_spec buf (data_of buf + zlen bs + 1)) as (b' & -> & _ & _ & Hd & _);
    [done|unfold data_of in *; lia|lia|done|].
  simpl. by rewrite Hd.
Qed.

Lemma shbuf_cat_wf buf bs :
  shbuf_wf buf → data_of buf + zlen bs + 1 < 2 ^ 31 - 32768 → shbuf_wf (shbuf_cat buf bs).
Proof.
  intros Hwf Hlen. unfold shbuf_cat.
  destruct (heap_ok (((data_of buf + zlen bs + 1 + 1) / 16384 + 1) * 16384)) eqn:Hh.
  - destruct (shbuf_grow_spec buf (data_of buf + zlen bs + 1)) as (b' & -> & ? & Ho & Hd & _ & Hf);
      [done|unfold data_of in *; lia|lia|done|].
    destruct Hwf as [Hfl _]. split; simpl; [by rewrite Hf|].
    rewrite Hd, length_app. unfold data_of in *. lia.
  - unfold shbuf_grow. set (n := data_of buf + zlen bs + 1) in *.
    assert (0 ≤ n) by (unfold data_of in n; lia).
    assert (0 ≤ (n + 1) / 16384 < 131071).
    { split; [apply Z.div_pos; lia|]. apply Z.div_lt_upper_bound; lia. }
    pose proof (Z.mul_succ_div_gt (n + 1) 16384 ltac:(lia)).
    rewrite (u64_small (n + 1)), (i32_small (_ + 1)), u64_i32_nonneg by lia.
    destruct Hwf as [Hfl Hwf]. rewrite Hfl, Hh.
    destruct (Z.leb_spec (((n + 1) / 16384 + 1) * 16384) (data_max buf)); simpl.
    + split; [done|]. simpl. rewrite length_app. subst n.
      destruct (data buf) as [l|] eqn:E; unfold data_of in *; rewrite E in *; simpl in *; lia.
    + split; done.
Qed.

Lemma shbuf_trim_data buf n l :
  data buf = Some l → 0 ≤ n ≤ MAX_SHBUF_SIZE →
  data (shbuf_trim buf n) = Some (drop (Z.to_nat n) l).
Proof.
  intros Hd Hn. unfold shbuf_trim, data_of. rewrite Hd. simpl.
  destruct (Z.ltb_spec MAX_SHBUF_SIZE n); [lia|].
  destruct (Z.ltb_spec (zlen l) n).
  - rewrite (drop_ge l (Z.to_nat n)) by lia. destruct (Z.eqb_spec (zlen l) 0); simpl.
    + rewrite Hd. f_equal. apply nil_length_inv. lia.
    + by rewrite Z.eqb_refl.
  - destruct (Z.eqb_spec n 0) as [->|]; [by rewrite Hd|].
    destruct (Z.eqb_spec (zlen l) n); simpl; [by rewrite drop_ge by lia|done].
Qed.

Lemma shbuf_trim_wf buf n : shbuf_wf buf → shbuf_wf (shbuf_trim buf n).
Proof.
  intros [Hf Hd]. unfold shbuf_trim. destruct (data buf) as [l|] eqn:E; [|split; [done|by rewrite E]].
  repeat case_match; (split; [done|]); simpl; rewrite ?E; rewrite ?length_drop; simpl; lia.
Qed.
End lemmas.
