(* ===== verification/Descriptor.v ===== *)
(** * The descriptor table

    [src/shioncoin/shcoind_descriptor.c]: one slot per file descriptor with the
    service mode, the flags, the time stamps and the read and write queues.
    The table is allocated (zero filled) by the first claim, mark or release;
    the look-ups that read it without that check fault on the null table.  A
    descriptor is only tested against the maximum: one below zero lies before
    the table, and every function that goes to its slot faults on it. *)

From S2P Require Import Prelude Errors Shbuf.

Definition MAX_DESCRIPTORS : Z := 1024.
Definition DF_FILE : Z := 1.
Definition DF_SOCK : Z := 2.
Definition DF_SERVICE : Z := 4.
Definition DF_SHUTDOWN : Z := 8.
Definition DF_PEER_SCAN : Z := 16.
Definition DF_INBOUND : Z := 32.
Definition DF_LISTEN : Z := 64.
Definition DF_MAP : Z := 128.
Definition DF_SYNC : Z := 256.
Definition DF_ESL : Z := 512.
Definition SHTIME_UNDEFINED : Z := 0.

(** The raw bytes of a [struct sockaddr]. *)
Definition sockaddr : Type := list byte.
Definition null_addr : sockaddr := replicate 16 x00.

Record desc_t := Desc {
  d_mode : Z;
  d_flag : Z;
  d_total : Z;
  d_cstamp : Z;
  d_stamp : Z;
  d_rbuff : option shbuf_t;
  d_wbuff : option shbuf_t;
  d_net_addr : sockaddr;
}.

Definition null_desc : desc_t := Desc 0 0 0 0 0 None None null_addr.

(** The statics of the file: the table and the three counters. *)
Record dtab := DTab {
  dt_table : option (gmap Z desc_t);
  dt_claim : Z;
  dt_mark : Z;
  dt_release : Z;
}.

Definition dtab_init : dtab := DTab None 0 0 0.

(** What [fstat] and [getpeername] say of a descriptor. *)
Inductive fd_kind := KNone | KSock (addr : option sockaddr) | KReg | KOther.

Definition has_flag (f bit : Z) : bool := negb (Z.land f bit =? 0).

(** [get_max_descriptors]: the cached limit, at least [MAX_DESCRIPTORS]. *)
Definition get_max_descriptors (sc_open_max : Z) : Z :=
  if MAX_DESCRIPTORS <? sc_open_max then i32 sc_open_max else MAX_DESCRIPTORS.

Section ops.
(** The limit in force, as [get_max_descriptors()] returns it. *)
Context (max_fd : Z).

Definition dt_slot (t : gmap Z desc_t) (fd : Z) : desc_t := default null_desc (t !! fd).
Definition dt_alloc (dt : dtab) : gmap Z desc_t := default ∅ (dt_table dt).
Definition dt_put (dt : dtab) (fd : Z) (d : desc_t) : dtab :=
  DTab (Some (<[fd := d]> (dt_alloc dt))) (dt_claim dt) (dt_mark dt) (dt_release dt).

Definition descriptor_claim (now : Z) (kind : fd_kind) (fd mode flag : Z) (dt : dtab)
  : option (option desc_t * dtab) :=
  if max_fd <=? fd then Some (None, dt)
  else if fd <? 0 then None
  else
    let d := dt_slot (dt_alloc dt) fd in
    (* in use: reset the buffers for the new use *)
    let '(rb, wb) := if d_flag d =? 0 then (d_rbuff d, d_wbuff d) else (None, None) in
    let flag := match kind with
                | KSock _ => Z.lor flag DF_SOCK
                | KReg => Z.lor flag DF_FILE
                | KNone | KOther => flag
                end in
    (* [memset(d, 0, sizeof(d))] clears the size of a pointer: the mode and
       the flag, which are then assigned; the total is kept. *)
    let addr := if has_flag flag DF_SOCK
                then match kind with KSock (Some a) => a | _ => null_addr end
                else d_net_addr d in
    let d' := Desc mode flag (d_total d) now SHTIME_UNDEFINED rb wb addr in
    let dt' := dt_put dt fd d' in
    Some (Some d', DTab (dt_table dt') (u64 (dt_claim dt + 1)) (dt_mark dt) (dt_release dt)).

Definition descriptor_mark (now : Z) (fd : Z) (dt : dtab) : option (option desc_t * dtab) :=
  if max_fd <=? fd then Some (None, dt)
  else if fd <? 0 then None
  else
    let dt := DTab (Some (dt_alloc dt)) (dt_claim dt) (dt_mark dt) (dt_release dt) in
    let d := dt_slot (dt_alloc dt) fd in
    if d_flag d =? 0 then Some (None, dt)
    else
      let d' := Desc (d_mode d) (d_flag d) (i32 (d_total d + 1)) (d_cstamp d) now
                  (d_rbuff d) (d_wbuff d) (d_net_addr d) in
      let dt' := dt_put dt fd d' in
      Some (Some d', DTab (dt_table dt') (dt_claim dt) (u64 (dt_mark dt + 1)) (dt_release dt)).

(** The table afterwards and whether the descriptor was closed. *)
Definition descriptor_release (kind : fd_kind) (fd : Z) (dt : dtab) : option (dtab * bool) :=
  if max_fd <=? fd then Some (dt, false)
  else if fd <? 0 then None
  else
    let closed := match kind with KNone => false | _ => true end in
    let dt' := dt_put dt fd null_desc in
    Some (DTab (dt_table dt') (dt_claim dt) (dt_mark dt) (u64 (dt_release dt + 1)), closed).

(** [None] is the access through the null table or before it. *)
Definition descriptor_get (fd : Z) (dt : dtab) : option (option desc_t) :=
  if max_fd <=? fd then Some None
  else if fd <? 0 then None
  else match dt_table dt with
       | None => None
       | Some t => let d := dt_slot t fd in
                   Some (if d_flag d =? 0 then None else Some d)
       end.

Section buffers.
Context `{Heap}.

Definition descriptor_rbuff_add (fd : Z) (bs : list byte) (dt : dtab) : option dtab :=
  if max_fd <=? fd then Some dt
  else if zlen bs <=? 0 then Some dt
  else if fd <? 0 then None
  else match dt_table dt with
       | None => None
       | Some t =>
          let d := dt_slot t fd in
          if d_flag d =? 0 then Some dt
          else let rb := shbuf_cat (default shbuf_init (d_rbuff d)) bs in
               Some (dt_put dt fd (Desc (d_mode d) (d_flag d) (d_total d) (d_cstamp d)
                                     (d_stamp d) (Some rb) (d_wbuff d) (d_net_addr d)))
       end.

Definition descriptor_wbuff_add (fd : Z) (bs : list byte) (dt : dtab) : option dtab :=
  if max_fd <=? fd then Some dt
  else if zlen bs <=? 0 then Some dt
  else if fd <? 0 then None
  else match dt_table dt with
       | None => None
       | Some t =>
          let d := dt_slot t fd in
          if d_flag d =? 0 then Some dt
          else let wb := shbuf_cat (default shbuf_init (d_wbuff d)) bs in
               Some (dt_put dt fd (Desc (d_mode d) (d_flag d) (d_total d) (d_cstamp d)
                                     (d_stamp d) (d_rbuff d) (Some wb) (d_net_addr d)))
       end.
End buffers.

(** [descriptor_rbuff] and [descriptor_wbuff] create the buffer on first use. *)
Definition descriptor_rbuff (fd : Z) (dt : dtab) : option (option shbuf_t * dtab) :=
  if max_fd <=? fd then Some (None, dt)
  else if fd <? 0 then None
  else match dt_table dt with
       | None => None
       | Some t =>
          let d := dt_slot t fd in
          if d_flag d =? 0 then Some (None, dt)
          else let rb := default shbuf_init (d_rbuff d) in
               Some (Some rb, dt_put dt fd (Desc (d_mode d) (d_flag d) (d_total d) (d_cstamp d)
                                              (d_stamp d) (Some rb) (d_wbuff d) (d_net_addr d)))
       end.

Definition descriptor_wbuff (fd : Z) (dt : dtab) : option (option shbuf_t * dtab) :=
  if max_fd <=? fd then Some (None, dt)
  else if fd <? 0 then None
  else match dt_table dt with
       | None => None
       | Some t =>
          let d := dt_slot t fd in
          if d_flag d =? 0 then Some (None, dt)
          else let wb := default shbuf_init (d_wbuff d) in
               Some (Some wb, dt_put dt fd (Desc (d_mode d) (d_flag d) (d_total d) (d_cstamp d)
                                              (d_stamp d) (d_rbuff d) (Some wb) (d_net_addr d)))
       end.
End ops.

Definition get_total_descriptor_claimed (dt : dtab) : Z := i32 (dt_claim dt).

(** [descriptor_flag_str]: the labels of the set bits, joined by spaces; a bit
    past the ten labels reads past the end of the label array ([None]). *)
Definition _descriptor_flag_label : list string :=
  ["file"; "sock"; "service"; "shutdown"; "peer-scan"; "inbound"; "listen";
   "map"; "sync"; "esl"]%string.

Fixpoint flag_str_loop (n : nat) (i : nat) (flag : Z) (acc : string) : option string :=
  match n with
  | O => Some acc
  | S n =>
     if Z.testbit flag (Z.of_nat i)
     then match _descriptor_flag_label !! i with
          | None => None
          | Some l =>
             let acc := if String.eqb acc "" then acc else (acc +:+ " ")%string in
             flag_str_loop n (S i) flag (acc +:+ l)
          end
     else flag_str_loop n (S i) flag acc
  end.
Definition descriptor_flag_str (flag : Z) : option string := flag_str_loop 32 0 flag "".

(** ** Lemmas *)
Lemma dt_slot_insert t fd d fd' :
  dt_slot (<[fd := d]> t) fd' = if decide (fd = fd') then d else dt_slot t fd'.
Proof. unfold dt_slot. rewrite lookup_insert. by case_decide. Qed.

Lemma has_flag_lor f g bit : has_flag g bit = true → has_flag (Z.lor f g) bit = true.
Proof.
  unfold has_flag. rewrite !negb_true_iff, !Z.eqb_neq. intros Hg Hl. apply Hg.
  rewrite Z.land_lor_distr_l in Hl. by apply Z.lor_eq_0_iff in Hl as [_ ?].
Qed.

Lemma flag_str_loop_ok n i flag acc :
  (∀ k : nat, (10 ≤ k)%nat → Z.testbit flag (Z.of_nat k) = false) →
  is_Some (flag_str_loop n i flag acc).
Proof.
  intros Hf. revert i acc. induction n as [|n IH]; intros i acc; simpl; [done|].
  destruct (Z.testbit flag (Z.of_nat i)) eqn:E; [|done].
  destruct (decide (i < 10)%nat) as [Hi|Hi].
  - destruct (_descriptor_flag_label !! i) eqn:El; [done|].
    apply lookup_ge_None in El. simpl in El. lia.
  - rewrite Hf in E by lia. done.
Qed.
