(* ===== verification/Vfs.v ===== *)
(** * Files and the process state

    The part of POSIX that the block-chain database uses: regular files as
    sparse byte arrays with a size, the descriptor table of the process, and
    the calls [open], [fstat], [ftruncate], [read], [write], [close] and a
    shared [mmap].  A mapping is [MAP_SHARED], so the memory behind it and the
    file have the same bytes and the model keeps one copy. *)

From S2P Require Import Prelude Errors Descriptor.

(** ** Files *)
Record file := File {
  f_reg : bool;              (* S_ISREG *)
  f_size : Z;                (* st_size *)
  f_bytes : gmap Z byte;     (* absent bytes are 0 *)
}.

Definition f_get (f : file) (a : Z) : byte := default x00 (f_bytes f !! a).

Definition fread (f : file) (off : Z) (n : nat) : list byte :=
  (λ i, f_get f (off + Z.of_nat i)) <$> seq 0 n.

Fixpoint put_bytes (m : gmap Z byte) (off : Z) (bs : list byte) : gmap Z byte :=
  match bs with
  | [] => m
  | b :: bs => put_bytes (<[off := b]> m) (off + 1) bs
  end.
(** A store through a mapping: the size of the file does not change. *)
Definition fwrite (f : file) (off : Z) (bs : list byte) : file :=
  File (f_reg f) (f_size f) (put_bytes (f_bytes f) off bs).
(** [ftruncate]: bytes past the new size are dropped, new bytes are 0. *)
Definition ftrunc (f : file) (n : Z) : file :=
  File (f_reg f) n (filter (λ kv, kv.1 < n) (f_bytes f)).

Definition empty_file : file := File true 0 ∅.

(** No stored byte lies past the size. *)
Definition f_tight (f : file) : Prop := ∀ a, is_Some (f_bytes f !! a) → a < f_size f.

Lemma put_bytes_lookup m off bs a :
  put_bytes m off bs !! a =
    if decide (off ≤ a < off + zlen bs) then bs !! Z.to_nat (a - off) else m !! a.
Proof.
  revert m off. induction bs as [|b bs IH]; intros m off; simpl.
  - rewrite decide_False by lia. done.
  - rewrite IH. destruct (decide (a = off)) as [->|Hne].
    + rewrite decide_False by lia. rewrite decide_True by lia.
      rewrite lookup_insert_eq, Z.sub_diag. done.
    + destruct (decide (off + 1 ≤ a < off + 1 + zlen bs)).
      * rewrite decide_True by lia.
        replace (Z.to_nat (a - off)) with (S (Z.to_nat (a - (off + 1)))) by lia. done.
      * rewrite decide_False by lia. by rewrite lookup_insert_ne by lia.
Qed.

Lemma f_get_fwrite_out f off bs a :
  a < off ∨ off + zlen bs ≤ a → f_get (fwrite f off bs) a = f_get f a.
Proof.
  intros. unfold f_get; simpl. rewrite put_bytes_lookup. by rewrite decide_False by lia.
Qed.

Lemma length_fread f off n : length (fread f off n) = n.
Proof. unfold fread. by rewrite length_fmap, length_seq. Qed.

Lemma fread_lookup f off n i :
  (i < n)%nat → fread f off n !! i = Some (f_get f (off + Z.of_nat i)).
Proof.
  intros. unfold fread. rewrite list_lookup_fmap, lookup_seq_lt by done. done.
Qed.

Lemma fread_ext f g off n :
  (∀ a, off ≤ a < off + Z.of_nat n → f_get f a = f_get g a) → fread f off n = fread g off n.
Proof.
  intros Hx. unfold fread. apply list_fmap_ext. intros i k Hk.
  apply lookup_seq in Hk as [-> ?]. apply Hx. lia.
Qed.

Lemma fread_app f off n m :
  fread f off (n + m) = fread f off n ++ fread f (off + Z.of_nat n) m.
Proof.
  unfold fread. rewrite seq_app, fmap_app. f_equal. cbn [Nat.add].
  rewrite <-(Nat.add_0_r n) at 1. rewrite <-fmap_add_seq, <-list_fmap_compose.
  apply list_fmap_ext. intros ? k Hk. simpl. f_equal. lia.
Qed.

Lemma fread_fwrite_same f off bs : fread (fwrite f off bs) off (length bs) = bs.
Proof.
  apply list_eq. intros i. destruct (decide (i < length bs)%nat) as [Hi|Hi].
  - rewrite fread_lookup by done. unfold f_get; simpl. rewrite put_bytes_lookup.
    rewrite decide_True by lia.
    replace (Z.to_nat (off + Z.of_nat i - off)) with i by lia.
    destruct (bs !! i) eqn:E; [done|]. apply lookup_ge_None in E. lia.
  - rewrite !lookup_ge_None_2; [done|lia|]. rewrite length_fread. lia.
Qed.

Lemma fread_fwrite_out f off bs off' n :
  off' + Z.of_nat n ≤ off ∨ off + zlen bs ≤ off' → fread (fwrite f off bs) off' n = fread f off' n.
Proof. intros. apply fread_ext. intros. apply f_get_fwrite_out. lia. Qed.

Lemma fread_take f off n m : (m ≤ n)%nat → take m (fread f off n) = fread f off m.
Proof.
  intros. replace n with (m + (n - m))%nat by lia. rewrite fread_app.
  by rewrite take_app_length' by (by rewrite length_fread).
Qed.

Lemma fread_drop f off n m :
  (m ≤ n)%nat → drop m (fread f off n) = fread f (off + Z.of_nat m) (n - m).
Proof.
  intros. replace n with (m + (n - m))%nat at 1 by lia. rewrite fread_app.
  by rewrite drop_app_length' by (by rewrite length_fread).
Qed.

Lemma fread_fwrite_sub f off bs k n :
  (k + n ≤ length bs)%nat →
  fread (fwrite f off bs) (off + Z.of_nat k) n = take n (drop k bs).
Proof.
  intros. rewrite <-(fread_fwrite_same f off bs) at 2.
  rewrite fread_drop, fread_take by lia. done.
Qed.

(** Extending a tight file changes nothing but its size. *)
Lemma ftrunc_extend f n :
  f_tight f → f_size f ≤ n → ftrunc f n = File (f_reg f) n (f_bytes f).
Proof.
  intros Ht Hn. unfold ftrunc. f_equal. apply map_filter_id.
  intros i x Hi. simpl. specialize (Ht i). rewrite Hi in Ht.
  specialize (Ht ltac:(eauto)). lia.
Qed.

Lemma ftrunc_tight f n : f_tight (ftrunc f n).
Proof.
  intros a [b Hb]. simpl in *. by apply map_lookup_filter_Some in Hb as [_ ?].
Qed.

Lemma fwrite_tight f off bs :
  f_tight f → 0 ≤ off → off + zlen bs ≤ f_size f → f_tight (fwrite f off bs).
Proof.
  intros Ht Hof Hlen a. simpl. rewrite put_bytes_lookup. case_decide; [lia|]. apply Ht.
Qed.

(** ** The process *)

Record world := World {
  w_files : gmap string file;
  w_fds : gmap Z string;      (* open descriptors of regular files *)
  w_desc : dtab;              (* the descriptor table of Descriptor.v *)
  w_time : Z;                 (* time(NULL) *)
  w_shtime : Z;               (* shtime() *)
}.

(** System calls that can fail. *)
Inductive sysop :=
  | SysOpen (path : string)
  | SysFstat (path : string)
  | SysFtruncate (path : string) (size : Z)
  | SysMmap (path : string) (size : Z)
  | SysLock.

(** The operating system and the build: which calls fail, and with which
    (positive) [errno]; the directory of the database; [sysconf(_SC_OPEN_MAX)] after
    [get_max_descriptors]; and the names in the coin interface table, whose
    structures are C++ objects. *)
Class Env := {
  os_fail : sysop → world → option Z;
  os_errno op w e : os_fail op w = Some e → 0 < e;
  bc_path_base : string;
  max_fd : Z;
  coin_names : list (option string);
}.

(** No call fails. *)
Definition os_ok `{Env} : Prop := ∀ op w, os_fail op w = None.

(** The lowest free descriptor from 3 on. *)
Fixpoint first_free (n : nat) (fd : Z) (t : gmap Z string) : Z :=
  match n with
  | O => fd
  | S n => match t !! fd with None => fd | Some _ => first_free n (fd + 1) t end
  end.
Definition fresh_fd (t : gmap Z string) : Z := first_free (size t) 3 t.

Lemma first_free_ge n fd t : fd ≤ first_free n fd t.
Proof.
  revert fd. induction n as [|n IH]; intros fd; simpl; [lia|].
  destruct (t !! fd); [|lia]. specialize (IH (fd + 1)). lia.
Qed.

Lemma fresh_fd_ge t : 3 ≤ fresh_fd t.
Proof. apply first_free_ge. Qed.

Lemma first_free_fresh n fd t :
  t !! first_free n fd t = None ∨
  (∀ i, fd ≤ i < fd + Z.of_nat n → is_Some (t !! i)).
Proof.
  revert fd. induction n as [|n IH]; intros fd; cbn [first_free].
  - right. lia.
  - destruct (t !! fd) eqn:E; [|by left].
    destruct (IH (fd + 1)) as [?|Hall]; [by left|right]. intros i Hi.
    destruct (decide (i = fd)) as [->|]; [by eauto|]. apply Hall. lia.
Qed.

Lemma fresh_fd_fresh t : t !! fresh_fd t = None.
Proof.
  unfold fresh_fd. destruct (t !! first_free (size t) 3 t) eqn:E; [exfalso|done].
  assert (Hrec : ∀ n fd, (∀ i, fd ≤ i ≤ fd + Z.of_nat n → is_Some (t !! i)) →
    (n < size t)%nat).
  { clear. intros n fd Hall.
    assert (list_to_set ((λ i, fd + Z.of_nat i) <$> seq 0 (S n)) ⊆ dom t) as Hs.
    { intros i Hi. apply elem_of_list_to_set, list_elem_of_fmap in Hi as (k & -> & Hk).
      apply elem_of_seq in Hk. apply elem_of_dom, Hall. lia. }
    apply subseteq_size in Hs. rewrite size_dom in Hs.
    rewrite size_list_to_set in Hs.
    - rewrite length_fmap, length_seq in Hs. lia.
    - apply NoDup_fmap_2; [intros ???; lia|apply NoDup_seq]. }
  assert (Hend : ∀ n fd, (∀ i, fd ≤ i < fd + Z.of_nat n → is_Some (t !! i)) →
    first_free n fd t = fd + Z.of_nat n).
  { clear. intros n. induction n as [|n IH]; intros fd Hall; cbn [first_free]; [lia|].
    destruct (Hall fd) as [x ->]; [lia|]. rewrite IH; [lia|]. intros. apply Hall. lia. }
  destruct (first_free_fresh (size t) 3 t) as [?|Hall]; [congruence|].
  enough (size t < size t)%nat by lia. apply (Hrec _ 3). intros i Hi.
  destruct (decide (i = 3 + Z.of_nat (size t))) as [->|]; [|apply Hall; lia].
  rewrite <-(Hend _ _ Hall), E. eauto.
Qed.
