(* ===== verification/BcState.v ===== *)
(** * State and effects of a block-chain database

    The structures of [src/shioncoin/blockchain/bc.h] and the monad the
    operations on them are written in: state passing, the error returns of the
    C code as values, and a fault for an access outside a mapping or through a
    null or dangling pointer, which has no defined result. *)

From S2P Require Import Prelude Errors Descriptor Vfs.

(** ** [bc.h] *)

(** [bc_map_t].  [hdr] and [raw] are set and cleared together ([raw] is 16
    bytes past [hdr]); [map_hdr] says whether they are non-null, and then they
    point into a mapping of the first [map_size] bytes of the map's file. *)
Record bc_map_t := BcMap {
  map_fd : Z;
  map_size : Z;
  map_stamp : Z;
  map_ext : string;
  map_hdr : bool;
}.

Record bc_t := Bc {
  bc_name : string;
  idx_map : bc_map_t;
  tab_map : bc_map_t;
  arch_map : bc_map_t;
  data_map : list bc_map_t;
}.

(** What a [calloc] leaves. *)
Definition null_map : bc_map_t := BcMap 0 0 0 "" false.
Definition null_bc (name : string) : bc_t := Bc name null_map null_map null_map [].

(** A [bc_map_t *] into a [bc_t]. *)
Inductive mapid := MIdx | MTab | MArch | MData (jrnl : nat).

#[global] Instance mapid_eq_dec : EqDecision mapid.
Proof. solve_decision. Defined.

Definition bc_get_map (bc : bc_t) (m : mapid) : option bc_map_t :=
  match m with
  | MIdx => Some (idx_map bc)
  | MTab => Some (tab_map bc)
  | MArch => Some (arch_map bc)
  | MData j => data_map bc !! j
  end.

Definition bc_set_map (bc : bc_t) (m : mapid) (mp : bc_map_t) : bc_t :=
  match m with
  | MIdx => Bc (bc_name bc) mp (tab_map bc) (arch_map bc) (data_map bc)
  | MTab => Bc (bc_name bc) (idx_map bc) mp (arch_map bc) (data_map bc)
  | MArch => Bc (bc_name bc) (idx_map bc) (tab_map bc) mp (data_map bc)
  | MData j => Bc (bc_name bc) (idx_map bc) (tab_map bc) (arch_map bc)
                 (<[j := mp]> (data_map bc))
  end.

Definition map_set_ext (mp : bc_map_t) (e : string) : bc_map_t :=
  BcMap (map_fd mp) (map_size mp) (map_stamp mp) e (map_hdr mp).
Definition map_set_stamp (mp : bc_map_t) (t : Z) : bc_map_t :=
  BcMap (map_fd mp) (map_size mp) t (map_ext mp) (map_hdr mp).

(** The process, one database, and the depth at which the running thread holds
    the database's recursive mutex [lk]. *)
Record st := St { st_w : world; st_bc : bc_t; st_lk : Z }.

(** ** The monad *)
Inductive result (A : Type) := Done (a : A) | Error (e : Z).
Arguments Done {A} a.
Arguments Error {A} e.

Definition M (A : Type) : Type := st → option (result A * st).

Definition ret {A} (a : A) : M A := λ s, Some (Done a, s).
Definition throw {A} (e : Z) : M A := λ s, Some (Error e, s).
Definition fault {A} : M A := λ _, None.
Definition bind {A B} (m : M A) (k : A → M B) : M B := λ s,
  match m s with
  | None => None
  | Some (Done a, s') => k a s'
  | Some (Error e, s') => Some (Error e, s')
  end.
(** The caller looks at the error itself. *)
Definition try {A} (m : M A) : M (result A) := λ s,
  match m s with
  | None => None
  | Some (r, s') => Some (Done r, s')
  end.
Definition lift {A} (r : result A) : M A := λ s, Some (r, s).
Definition get : M st := λ s, Some (Done s, s).
Definition gets {A} (f : st → A) : M A := λ s, Some (Done (f s), s).
Definition modify (f : st → st) : M unit := λ s, Some (Done tt, f s).

Declare Scope bc_scope.
Delimit Scope bc_scope with bc.
Notation "x <- m ;; k" := (bind m (λ x, k))
  (at level 100, m at next level, right associativity) : bc_scope.
Notation "m ;;; k" := (bind m (λ _, k)) (at level 100, right associativity) : bc_scope.
Open Scope bc_scope.

(** ** Weakest preconditions

    [wp m s Q]: [m] started in [s] does not fault, and its result and final
    state satisfy [Q]. *)
Definition wp {A} (m : M A) (s : st) (Q : result A → st → Prop) : Prop :=
  match m s with None => False | Some (r, s') => Q r s' end.

Lemma wp_mono {A} (m : M A) s (Q R : result A → st → Prop) :
  wp m s Q → (∀ r s', Q r s' → R r s') → wp m s R.
Proof. unfold wp. destruct (m s) as [[??]|]; auto. Qed.

Lemma wp_bind {A B} (m : M A) (k : A → M B) s Q :
  wp m s (λ r s', match r with Done a => wp (k a) s' Q | Error e => Q (Error e) s' end) →
  wp (bind m k) s Q.
Proof. unfold wp, bind. by destruct (m s) as [[[?|?] ?]|]. Qed.

Lemma wp_bind_spec {A B} (m : M A) (k : A → M B) s P Q :
  wp m s P →
  (∀ a s', P (Done a) s' → wp (k a) s' Q) →
  (∀ e s', P (Error e) s' → Q (Error e) s') →
  wp (bind m k) s Q.
Proof.
  intros Hm Hd He. apply wp_bind. eapply wp_mono; [exact Hm|]. intros [a|e] s'; auto.
Qed.

Lemma wp_ret {A} (a : A) s (Q : result A → st → Prop) : Q (Done a) s → wp (ret a) s Q.
Proof. done. Qed.
Lemma wp_throw {A} e s (Q : result A → st → Prop) : Q (Error e) s → wp (throw e) s Q.
Proof. done. Qed.
Lemma wp_lift {A} (r : result A) s (Q : result A → st → Prop) : Q r s → wp (lift r) s Q.
Proof. done. Qed.
Lemma wp_get s (Q : result st → st → Prop) : Q (Done s) s → wp get s Q.
Proof. done. Qed.
Lemma wp_gets {A} (f : st → A) s (Q : result A → st → Prop) : Q (Done (f s)) s → wp (gets f) s Q.
Proof. done. Qed.
Lemma wp_modify f s (Q : result unit → st → Prop) : Q (Done tt) (f s) → wp (modify f) s Q.
Proof. done. Qed.

Lemma wp_try {A} (m : M A) s (Q : result (result A) → st → Prop) :
  wp m s (λ r s', Q (Done r) s') → wp (try m) s Q.
Proof. unfold wp, try. by destruct (m s) as [[??]|]. Qed.

Lemma wp_run {A} (m : M A) s Q : wp m s Q → ∃ r s', m s = Some (r, s') ∧ Q r s'.
Proof. unfold wp. destruct (m s) as [[r s']|]; [eauto|done]. Qed.

Lemma wp_and {A} (m : M A) s (Q R : result A → st → Prop) :
  wp m s Q → wp m s R → wp m s (λ r s', Q r s' ∧ R r s').
Proof. unfold wp. by destruct (m s) as [[??]|]. Qed.

(** Step through binds whose first command is elementary. *)
Ltac wp_step :=
  lazymatch goal with
  | |- wp (bind (ret _) _) _ _ => apply wp_bind, wp_ret
  | |- wp (bind (gets _) _) _ _ => apply wp_bind, wp_gets
  | |- wp (bind get _) _ _ => apply wp_bind, wp_get
  | |- wp (bind (modify _) _) _ _ => apply wp_bind, wp_modify
  | |- wp (bind (throw _) _) _ _ => apply wp_bind, wp_throw
  | |- wp (bind (lift _) _) _ _ => apply wp_bind, wp_lift
  | |- wp (bind (try _) _) _ _ => apply wp_bind, wp_try
  | |- wp (bind (bind _ _) _) _ _ => apply wp_bind
  | |- wp (ret _) _ _ => apply wp_ret
  | |- wp (throw _) _ _ => apply wp_throw
  | |- wp (lift _) _ _ => apply wp_lift
  | |- wp (gets _) _ _ => apply wp_gets
  | |- wp (modify _) _ _ => apply wp_modify
  end.
Ltac wp_steps := repeat (wp_step; cbn beta iota).

(** ** State access *)
Definition set_w (s : st) (w : world) : st := St w (st_bc s) (st_lk s).
Definition set_bc (s : st) (bc : bc_t) : st := St (st_w s) bc (st_lk s).

Definition get_map (m : mapid) : M bc_map_t := λ s,
  match bc_get_map (st_bc s) m with
  | None => None
  | Some mp => Some (Done mp, s)
  end.
Definition put_map (m : mapid) (mp : bc_map_t) : M unit :=
  modify (λ s, set_bc s (bc_set_map (st_bc s) m mp)).

Definition w_put_file (w : world) (p : string) (f : file) : world :=
  World (<[p := f]> (w_files w)) (w_fds w) (w_desc w) (w_time w) (w_shtime w).
Definition w_set_fds (w : world) (t : gmap Z string) : world :=
  World (w_files w) t (w_desc w) (w_time w) (w_shtime w).
Definition w_set_desc (w : world) (d : dtab) : world :=
  World (w_files w) (w_fds w) d (w_time w) (w_shtime w).

Lemma wp_get_map m s mp (Q : result bc_map_t → st → Prop) :
  bc_get_map (st_bc s) m = Some mp → Q (Done mp) s → wp (get_map m) s Q.
Proof. intros H ?. unfold wp, get_map. by rewrite H. Qed.

(** ** Map look-up algebra *)
Lemma bc_get_set_map bc m mp :
  is_Some (bc_get_map bc m) → bc_get_map (bc_set_map bc m mp) m = Some mp.
Proof.
  destruct m; simpl; try done. intros [? H]. apply lookup_lt_Some in H.
  by apply list_lookup_insert_eq.
Qed.
Lemma bc_get_set_map_ne bc m m' mp :
  m ≠ m' → bc_get_map (bc_set_map bc m mp) m' = bc_get_map bc m'.
Proof.
  destruct m, m'; simpl; try done. intros. apply list_lookup_insert_ne. congruence.
Qed.
Lemma bc_set_map_is_Some bc m mp m' :
  is_Some (bc_get_map (bc_set_map bc m mp) m') ↔ is_Some (bc_get_map bc m').
Proof.
  destruct m, m'; simpl; try done. by rewrite !lookup_lt_is_Some, length_insert.
Qed.
Lemma bc_set_map_name bc m mp : bc_name (bc_set_map bc m mp) = bc_name bc.
Proof. by destruct m. Qed.
