(* ===== verification/Fmap.v ===== *)
(** * File maps

    [src/shioncoin/blockchain/bc_fmap.c] and [bc_mutex.c]: a file with a
    16-byte header mapped into memory, grown in blocks. *)

From S2P Require Import Prelude Errors Descriptor Vfs BcState.

Definition BC_MAP_BLOCK_SIZE : Z := 16384.
Definition MAX_BC_MAP_SIZE : Z := 0xFFFFFFF0.
Definition SHMEM32_MAGIC : Z := 0x22888822.
(** [sizeof(bc_hdr_t)]: a 64-bit stamp, the magic number and the offset. *)
Definition HDR : Z := 16.

Definition hdr_magic (f : file) : Z := le_dec (fread f 8 4).
Definition hdr_of (f : file) : Z := le_dec (fread f 12 4).
Definition hdr_bytes (stamp magic off : Z) : list byte :=
  le_enc 8 stamp ++ le_enc 4 magic ++ le_enc 4 off.

Section fmap.
Context `{Env}.

Definition map_path (name ext : string) : string :=
  (bc_path_base +:+ "/" +:+ name +:+ "." +:+ ext)%string.
Definition path_of (m : mapid) : M string :=
  mp <- get_map m ;; gets (λ s, map_path (bc_name (st_bc s)) (map_ext mp)).

(** ** System calls *)
Definition sys (op : sysop) : M unit := λ s,
  match os_fail op (st_w s) with
  | Some e => Some (Error (errno2sherr e), s)
  | None => Some (Done tt, s)
  end.
Definition file_at (p : string) : M file := λ s,
  match w_files (st_w s) !! p with
  | None => None
  | Some f => Some (Done f, s)
  end.
Definition put_file (p : string) (f : file) : M unit :=
  modify (λ s, set_w s (w_put_file (st_w s) p f)).
(** [open(path, O_RDWR | O_CREAT)]. *)
Definition sys_open (p : string) : M Z :=
  sys (SysOpen p) ;;;
  s <- get ;;
  match w_files (st_w s) !! p with Some _ => ret tt | None => put_file p empty_file end ;;;
  let fd := fresh_fd (w_fds (st_w s)) in
  modify (λ s, set_w s (w_set_fds (st_w s) (<[fd := p]> (w_fds (st_w s))))) ;;;
  ret fd.
Definition sys_close (fd : Z) : M unit :=
  modify (λ s, set_w s (w_set_fds (st_w s) (delete fd (w_fds (st_w s))))).
Definition fd_kind_of (w : world) (fd : Z) : fd_kind :=
  match w_fds w !! fd with
  | None => KNone
  | Some p => match w_files w !! p with
              | Some f => if f_reg f then KReg else KOther
              | None => KNone
              end
  end.

(** ** Access through the mapping *)
Definition mapped_file (m : mapid) : M file :=
  mp <- get_map m ;;
  if map_hdr mp then p <- path_of m ;; file_at p else fault.
Definition hdr_get_of (m : mapid) : M Z := f <- mapped_file m ;; ret (hdr_of f).
(** [memcpy] from and to [map->raw + off]: inside the mapping or a fault. *)
Definition raw_read (m : mapid) (off : Z) (n : nat) : M (list byte) :=
  f <- mapped_file m ;;
  mp <- get_map m ;;
  if (0 <=? off) && (HDR + off + Z.of_nat n <=? map_size mp)
  then ret (fread f (HDR + off) n) else fault.
Definition raw_write (m : mapid) (off : Z) (bs : list byte) : M unit :=
  f <- mapped_file m ;;
  mp <- get_map m ;;
  p <- path_of m ;;
  if (0 <=? off) && (HDR + off + zlen bs <=? map_size mp)
  then put_file p (fwrite f (HDR + off) bs) else fault.
Definition hdr_set_of (m : mapid) (off : Z) : M unit :=
  f <- mapped_file m ;;
  p <- path_of m ;;
  put_file p (fwrite f 12 (le_enc 4 off)).

(** ** [bc_mutex.c] (the [USE_LIBPTHREAD] build) *)
Definition set_lk (s : st) (d : Z) : st := St (st_w s) (st_bc s) d.
Definition bc_lock : M bool := λ s,
  match os_fail SysLock (st_w s) with
  | Some _ => Some (Done false, s)
  | None => Some (Done true, set_lk s (st_lk s + 1))
  end.
(** The database is used by one thread here, which may hold the recursive
    mutex already: [pthread_mutex_trylock] fails when [pthread_mutex_lock]
    does. *)
Definition bc_trylock : M bool := bc_lock.
Definition bc_unlock : M unit :=
  modify (λ s, set_lk s (st_lk s - 1)).
(** The shape of every locking wrapper:
    [if (!bc_lock(bc)) return (ERR_NOLCK); err = _op(bc); bc_unlock(bc);]. *)
Definition locked {A} (op : M A) : M A :=
  l <- bc_lock ;;
  if l then r <- try op ;; bc_unlock ;;; lift r else throw ERR_NOLCK.

(** ** [bc_fmap.c] *)

(** [strncmp(iface->name, name, strlen(iface->name))] over the table from 1. *)
Fixpoint iface_index_from (idx : Z) (t : list (option string)) (name : string) : Z :=
  match t with
  | [] => 0
  | None :: t => iface_index_from (idx + 1) t name
  | Some n :: t => if String.prefix n name then idx else iface_index_from (idx + 1) t name
  end.
Definition bc_iface_index (name : string) : Z :=
  iface_index_from 1 (take 6 (drop 1 coin_names)) name.

Definition hdr_valid (f : file) : bool :=
  (16 <=? f_size f) && (hdr_magic f =? SHMEM32_MAGIC).
(** What the open does to a file without a valid header. *)
Definition init_file (stamp : Z) (f : file) : file :=
  fwrite (ftrunc f BC_MAP_BLOCK_SIZE) 0 (hdr_bytes stamp SHMEM32_MAGIC 0).

Definition bc_map_open_ (m : mapid) : M unit :=
  mp <- get_map m ;;
  if negb (map_fd mp =? 0) then
    s <- get ;;
    match descriptor_mark max_fd (w_shtime (st_w s)) (map_fd mp) (w_desc (st_w s)) with
    | None => fault
    | Some (_, dt) => modify (λ s, set_w s (w_set_desc (st_w s) dt))
    end
  else
    p <- path_of m ;;
    fd <- sys_open p ;;
    r <- try (sys (SysFstat p)) ;;
    match r with
    | Error e => sys_close fd ;;; throw e
    | Done _ =>
       f <- file_at p ;;
       if negb (f_reg f) then sys_close fd ;;; throw ERR_ISDIR
       else
         size <- (if hdr_valid f then ret (f_size f)
                  else
                    r <- try (sys (SysFtruncate p BC_MAP_BLOCK_SIZE)) ;;
                    match r with
                    | Error e => sys_close fd ;;; throw e
                    | Done _ =>
                       s <- get ;;
                       put_file p (init_file (w_shtime (st_w s)) f) ;;;
                       ret BC_MAP_BLOCK_SIZE
                    end) ;;
         mp <- get_map m ;;
         put_map m (BcMap fd size (map_stamp mp) (map_ext mp) false) ;;;
         s <- get ;;
         match descriptor_claim max_fd (w_shtime (st_w s)) (fd_kind_of (st_w s) fd) fd
                 (bc_iface_index (bc_name (st_bc s))) DF_MAP (w_desc (st_w s)) with
         | None => fault
         | Some (_, dt) => modify (λ s, set_w s (w_set_desc (st_w s) dt))
         end
    end.
Definition bc_map_open (m : mapid) : M unit := locked (bc_map_open_ m).

Definition bc_map_free (m : mapid) : M unit :=
  mp <- get_map m ;;
  if map_hdr mp then put_map m (BcMap (map_fd mp) 0 (map_stamp mp) (map_ext mp) false)
  else ret tt.

(** The new size of a file of [st_size] bytes that must take [len] more, in
    the 32-bit arithmetic of the code. *)
Definition grow_size (st_size len : Z) : Z :=
  let size := u32 (st_size + len) in
  let size := u32 (size + size / 10) in
  u32 ((size / BC_MAP_BLOCK_SIZE + 1) * BC_MAP_BLOCK_SIZE).

(** From the growth test on: [size] is the rounded size of the file. *)
Definition bc_map_remap (m : mapid) (size st_size map_of len : Z) : M unit :=
  p <- path_of m ;;
  size <- (if (size <? BC_MAP_BLOCK_SIZE) || (st_size <=? HDR + map_of + len)
           then
             let size := grow_size st_size len in
             sys (SysFtruncate p size) ;;;
             f <- file_at p ;;
             put_file p (ftrunc f size) ;;;
             ret size
           else ret size) ;;
  r <- try (sys (SysMmap p size)) ;;
  match r with
  | Error _ => throw ERR_NOMEM
  | Done _ =>
     if size =? 0 then throw ERR_NOMEM
     else mp <- get_map m ;;
          put_map m (BcMap (map_fd mp) size (map_stamp mp) (map_ext mp) true)
  end.

Definition bc_map_alloc_ (m : mapid) (len : Z) : M unit :=
  bc_map_open m ;;;
  p <- path_of m ;;
  sys (SysFstat p) ;;;
  f <- file_at p ;;
  let st_size := f_size f in
  let size := u32 (st_size / BC_MAP_BLOCK_SIZE * BC_MAP_BLOCK_SIZE) in
  if MAX_BC_MAP_SIZE <=? size then throw ERR_OVERFLOW
  else
    mp <- get_map m ;;
    if map_hdr mp then
      map_of <- hdr_get_of m ;;
      if HDR + map_of + len <? st_size then ret tt
      else bc_map_free m ;;; bc_map_remap m size st_size map_of len
    else
      (* [read(map->fd, &hdr, sizeof(bc_hdr_t))]; [hdr] was zeroed *)
      bc_map_remap m size st_size (hdr_of f) len.
Definition bc_map_alloc (m : mapid) (len : Z) : M unit := locked (bc_map_alloc_ m len).

Definition bc_map_trunc_ (m : mapid) (len : Z) : M unit :=
  bc_map_alloc m 0 ;;;
  off <- hdr_get_of m ;;
  if len <? off then hdr_set_of m len else ret tt.
Definition bc_map_trunc (m : mapid) (len : Z) : M unit := locked (bc_map_trunc_ m len).

Definition bc_map_close (m : mapid) : M unit :=
  bc_map_free m ;;;
  mp <- get_map m ;;
  if negb (map_fd mp =? 0) then
    s <- get ;;
    match descriptor_release max_fd (fd_kind_of (st_w s) (map_fd mp)) (map_fd mp) (w_desc (st_w s)) with
    | None => fault
    | Some (dt, closed) =>
       modify (λ s, set_w s (w_set_desc (st_w s) dt)) ;;;
       (if closed then sys_close (map_fd mp) else ret tt) ;;;
       put_map m (BcMap 0 (map_size mp) (map_stamp mp) (map_ext mp) (map_hdr mp))
    end
  else ret tt.

Definition bc_map_write_ (m : mapid) (off : Z) (bs : list byte) : M unit :=
  bc_map_alloc m (zlen bs) ;;;
  raw_write m off bs ;;;
  hof <- hdr_get_of m ;;
  hdr_set_of m (Z.max hof (u32 (off + zlen bs))) ;;;
  mp <- get_map m ;;
  s <- get ;;
  put_map m (map_set_stamp mp (w_time (st_w s))).
Definition bc_map_write (m : mapid) (off : Z) (bs : list byte) : M unit :=
  locked (bc_map_write_ m off bs).

Definition bc_map_append_ (m : mapid) (bs : list byte) : M unit :=
  bc_map_alloc m (zlen bs) ;;;
  hof <- hdr_get_of m ;;
  bc_map_write m hof bs.
Definition bc_map_append (m : mapid) (bs : list byte) : M unit :=
  locked (bc_map_append_ m bs).

Definition bc_map_read_ (m : mapid) (off len : Z) : M (list byte) :=
  hof <- hdr_get_of m ;;
  if hof <=? u32 (off + len) then throw ERR_INVAL
  else
    bs <- raw_read m off (Z.to_nat len) ;;
    mp <- get_map m ;;
    s <- get ;;
    put_map m (map_set_stamp mp (w_time (st_w s))) ;;;
    ret bs.
Definition bc_map_read (m : mapid) (off len : Z) : M (list byte) :=
  locked (bc_map_read_ m off len).
End fmap.

(** [bc_fmap_total]: the data maps that hold a descriptor. *)
Definition bc_fmap_total (bc : bc_t) : Z :=
  zlen (filter (λ mp, map_fd mp ≠ 0) (data_map bc)).
