(* ===== verification/FmapInv.v ===== *)
(** * File maps: invariant and specifications

    The invariant that ties a [bc_map_t] to its file, and for each operation
    of Fmap.v what it does to the payload of the map, on success and on every
    error, for an arbitrary pattern of failing system calls. *)

From S2P Require Import Prelude Errors Descriptor Vfs BcState Fmap.

(** ** Names *)
Definition cext (m : mapid) : string :=
  match m with
  | MIdx => "idx"
  | MTab => "tmp"
  | MArch => "arch"
  | MData j => pretty (N.of_nat j)
  end.

Fixpoint digits (s : string) : bool :=
  match s with
  | EmptyString => true
  | String c s => (48 <=? Z.of_N (Ascii.N_of_ascii c)) && (Z.of_N (Ascii.N_of_ascii c) <=? 57)
                  && digits s
  end.

Lemma digits_pretty_go x s : digits s = true → digits (pretty_N_go x s) = true.
Proof.
  revert s. induction (N.lt_wf_0 x) as [x _ IH]; intros s Hs.
  destruct (decide (0 < x)%N) as [Hx|Hx].
  - rewrite pretty_N_go_step by done. apply IH; [by apply N.div_lt|].
    cbn [digits]. rewrite Hs, andb_true_r. unfold pretty_N_char. by repeat case_match.
  - replace x with 0%N by lia. done.
Qed.

Lemma digits_pretty x : digits (pretty (x : N)) = true.
Proof.
  unfold pretty, pretty_N. case_decide; [done|]. by apply digits_pretty_go.
Qed.

#[global] Instance cext_inj : Inj (=) (=) cext.
Proof.
  intros m m'.
  assert (Hd : ∀ j s, pretty (N.of_nat j) = s → digits s = true).
  { intros j s <-. apply digits_pretty. }
  destruct m, m'; simpl; intros E; try done.
  all: try (by apply Hd in E). all: try (by symmetry in E; apply Hd in E).
  apply (inj pretty) in E. f_equal. lia.
Qed.

Lemma cext_ne_empty m : cext m ≠ ""%string.
Proof.
  destruct m as [| | |j]; try done. simpl. unfold pretty, pretty_N. case_decide; [done|].
  intros E. assert (0 < N.of_nat j)%N as Hj by lia.
  assert (Hne : ∀ x s, s ≠ ""%string → pretty_N_go x s ≠ ""%string).
  { clear. intros x. induction (N.lt_wf_0 x) as [x _ IH]; intros s Hs.
    destruct (decide (0 < x)%N); [|by replace x with 0%N by lia].
    rewrite pretty_N_go_step by done. apply IH; [by apply N.div_lt|done]. }
  rewrite pretty_N_go_step in E by done. by eapply Hne in E.
Qed.

(** ** Headers *)
Lemma length_hdr_bytes t m o : length (hdr_bytes t m o) = 16%nat.
Proof. unfold hdr_bytes. by rewrite !length_app, !length_le_enc. Qed.

Lemma hdr_of_range f : 0 ≤ hdr_of f < 2 ^ 32.
Proof.
  unfold hdr_of. pose proof (le_dec_range (fread f 12 4)) as Hr.
  rewrite length_fread in Hr. change (256 ^ Z.of_nat 4) with (2 ^ 32) in Hr. lia.
Qed.

Lemma hdr_of_write f off bs : 16 ≤ off → hdr_of (fwrite f off bs) = hdr_of f.
Proof. intros. unfold hdr_of. rewrite fread_fwrite_out by lia. done. Qed.
Lemma hdr_magic_write f off bs : 12 ≤ off → hdr_magic (fwrite f off bs) = hdr_magic f.
Proof. intros. unfold hdr_magic. rewrite fread_fwrite_out by lia. done. Qed.
Lemma hdr_of_set f v : hdr_of (fwrite f 12 (le_enc 4 v)) = u32 v.
Proof.
  unfold hdr_of. pose proof (fread_fwrite_same f 12 (le_enc 4 v)) as E.
  rewrite length_le_enc in E. rewrite E. apply le_dec_enc.
Qed.
Lemma hdr_of_ext f g : f_bytes f = f_bytes g → hdr_of f = hdr_of g.
Proof. intros E. unfold hdr_of. f_equal. apply fread_ext. intros. unfold f_get. by rewrite E. Qed.
Lemma hdr_magic_ext f g : f_bytes f = f_bytes g → hdr_magic f = hdr_magic g.
Proof. intros E. unfold hdr_magic. f_equal. apply fread_ext. intros. unfold f_get. by rewrite E. Qed.

Lemma hdr_of_init `{Env} t f : hdr_of (init_file t f) = 0.
Proof.
  unfold hdr_of, init_file. change 12 with (0 + Z.of_nat 12).
  rewrite fread_fwrite_sub by (rewrite length_hdr_bytes; lia). done.
Qed.
Lemma hdr_magic_init `{Env} t f : hdr_magic (init_file t f) = SHMEM32_MAGIC.
Proof.
  unfold hdr_magic, init_file. change 8 with (0 + Z.of_nat 8) at 1.
  rewrite fread_fwrite_sub by (rewrite length_hdr_bytes; lia). done.
Qed.

Section spec.
Context `{Env}.

Definition cpath (s : st) (m : mapid) : string := map_path (bc_name (st_bc s)) (cext m).

Lemma map_path_inj n e e' : map_path n e = map_path n e' → e = e'.
Proof. unfold map_path. intros E. by do 4 apply (inj (String.append _)) in E. Qed.

Lemma cpath_inj s m m' : cpath s m = cpath s m' → m = m'.
Proof. intros E%map_path_inj. by apply (inj cext). Qed.

(** ** The invariant *)
Definition file_ok (f : file) : Prop :=
  f_reg f = true ∧ hdr_valid f = true ∧ f_tight f ∧
  BC_MAP_BLOCK_SIZE ≤ f_size f < 2 ^ 32 ∧ (BC_MAP_BLOCK_SIZE | f_size f) ∧
  HDR + hdr_of f ≤ f_size f.

Lemma init_file_ok t f : f_reg f = true → file_ok (init_file t f).
Proof.
  intros Hr. split; [done|]. split; [unfold hdr_valid; by rewrite hdr_magic_init|].
  split. { apply fwrite_tight; [apply ftrunc_tight|done|by rewrite length_hdr_bytes]. }
  split; [done|]. split; [by exists 1|]. by rewrite hdr_of_init.
Qed.

(** The file of a map as its next open leaves it. *)
Definition mfile (s : st) (m : mapid) : file :=
  match w_files (st_w s) !! cpath s m with
  | Some f => if hdr_valid f then f else init_file (w_shtime (st_w s)) f
  | None => init_file (w_shtime (st_w s)) empty_file
  end.

Definition map_inv (s : st) (m : mapid) (mp : bc_map_t) : Prop :=
  (map_ext mp = cext m ∨ map_ext mp = ""%string ∧ map_fd mp = 0) ∧
  (map_fd mp = 0 → map_hdr mp = false) ∧
  (map_fd mp ≠ 0 →
    w_fds (st_w s) !! map_fd mp = Some (cpath s m) ∧
    w_files (st_w s) !! cpath s m = Some (mfile s m) ∧
    (map_hdr mp = true → map_size mp = f_size (mfile s m)) ∧ 0 < map_fd mp).

Definition local_inv (s : st) (m : mapid) : Prop :=
  (∀ f, w_files (st_w s) !! cpath s m = Some f →
    f_reg f = true ∧ (hdr_valid f = true → file_ok f)) ∧
  (∀ mp, bc_get_map (st_bc s) m = Some mp → map_inv s m mp).

Definition inv (s : st) : Prop := ∀ m, local_inv s m.

Lemma local_file_ok s m : local_inv s m → file_ok (mfile s m).
Proof.
  intros [Hf _]. unfold mfile. destruct (w_files _ !! _) as [f|] eqn:E.
  - destruct (Hf _ eq_refl) as [Hr Hv]. destruct (hdr_valid f) eqn:Ev; [by apply Hv|].
    by apply init_file_ok.
  - by apply init_file_ok.
Qed.

(** The bytes a map stores: the payload up to the header's offset. *)
Definition fpayload (f : file) : list byte := fread f HDR (Z.to_nat (hdr_of f)).
Definition payload (s : st) (m : mapid) : list byte := fpayload (mfile s m).

(** [s'] differs from [s] only in map [m], its file and its descriptor. *)
Record only (m : mapid) (s s' : st) : Prop := {
  only_name : bc_name (st_bc s') = bc_name (st_bc s);
  only_lk : st_lk s' = st_lk s;
  only_time : w_time (st_w s') = w_time (st_w s);
  only_shtime : w_shtime (st_w s') = w_shtime (st_w s);
  only_maps m' : m' ≠ m → bc_get_map (st_bc s') m' = bc_get_map (st_bc s) m';
  only_dom m' : is_Some (bc_get_map (st_bc s') m') ↔ is_Some (bc_get_map (st_bc s) m');
  only_files p : p ≠ cpath s m → w_files (st_w s') !! p = w_files (st_w s) !! p;
  only_fds fd p : p ≠ cpath s m →
    w_fds (st_w s) !! fd = Some p → w_fds (st_w s') !! fd = Some p;
}.

Lemma only_cpath m s s' m' : only m s s' → cpath s' m' = cpath s m'.
Proof. intros Ho. unfold cpath. by rewrite (only_name _ _ _ Ho). Qed.

#[global] Instance only_preorder m : PreOrder (only m).
Proof.
  split; [by split|].
  intros s1 s2 s3 H1 H2. pose proof (only_cpath _ _ _ m H1) as Hc. split.
  - by rewrite (only_name _ _ _ H2), (only_name _ _ _ H1).
  - by rewrite (only_lk _ _ _ H2), (only_lk _ _ _ H1).
  - by rewrite (only_time _ _ _ H2), (only_time _ _ _ H1).
  - by rewrite (only_shtime _ _ _ H2), (only_shtime _ _ _ H1).
  - intros. by rewrite (only_maps _ _ _ H2), (only_maps _ _ _ H1) by done.
  - intros. by rewrite (only_dom _ _ _ H2), (only_dom _ _ _ H1).
  - intros. rewrite (only_files _ _ _ H2), (only_files _ _ _ H1) by congruence. done.
  - intros. apply (only_fds _ _ _ H2); [congruence|]. by apply (only_fds _ _ _ H1).
Qed.

(** What [only] leaves alone. *)
Lemma only_mfile m s s' m' : only m s s' → m' ≠ m → mfile s' m' = mfile s m'.
Proof.
  intros Ho Hne. unfold mfile. rewrite (only_cpath _ _ _ _ Ho), (only_shtime _ _ _ Ho).
  rewrite (only_files _ _ _ Ho); [done|]. intros E. by apply cpath_inj in E.
Qed.

Lemma only_local m s s' m' : only m s s' → m' ≠ m → local_inv s m' → local_inv s' m'.
Proof.
  intros Ho Hne [Hf Hm].
  assert (Hp : cpath s m' ≠ cpath s m) by (intros E; by apply cpath_inj in E).
  split.
  - intros f. rewrite (only_cpath _ _ _ _ Ho), (only_files _ _ _ Ho) by done. apply Hf.
  - intros mp. rewrite (only_maps _ _ _ Ho) by done. intros Hg.
    destruct (Hm mp Hg) as (He & H0 & Hfd). split; [done|]. split; [done|].
    intros Hnz. destruct (Hfd Hnz) as (H1 & H2 & H3).
    rewrite (only_mfile _ _ _ _ Ho), (only_cpath _ _ _ _ Ho) by done.
    split; [by apply (only_fds _ _ _ Ho)|].
    split; [by rewrite (only_files _ _ _ Ho)|done].
Qed.

Lemma inv_only m s s' : inv s → only m s s' → local_inv s' m → inv s'.
Proof.
  intros Hi Ho Hl m'. destruct (decide (m' = m)) as [->|]; [done|].
  eapply only_local; eauto.
Qed.

(** ** Elementary changes *)
Definition s_file (s : st) (p : string) (f : file) : st := set_w s (w_put_file (st_w s) p f).
Definition s_fds (s : st) (t : gmap Z string) : st := set_w s (w_set_fds (st_w s) t).
Definition s_desc (s : st) (d : dtab) : st := set_w s (w_set_desc (st_w s) d).
Definition s_map (s : st) (m : mapid) (mp : bc_map_t) : st :=
  set_bc s (bc_set_map (st_bc s) m mp).

Lemma only_s_file m s f : only m s (s_file s (cpath s m) f).
Proof. split; try done. intros p Hp. simpl. by rewrite lookup_insert_ne. Qed.
Lemma only_s_desc m s d : only m s (s_desc s d).
Proof. by split. Qed.
Lemma only_s_map m s mp : only m s (s_map s m mp).
Proof.
  split; try done; simpl.
  - apply bc_set_map_name.
  - intros m' Hm. by apply bc_get_set_map_ne.
  - intros m'. apply bc_set_map_is_Some.
Qed.
Lemma only_s_fds_open m s fd :
  w_fds (st_w s) !! fd = None → only m s (s_fds s (<[fd := cpath s m]> (w_fds (st_w s)))).
Proof.
  intros Hf. split; try done; simpl. intros fd' p _ Hp. rewrite lookup_insert_ne; congruence.
Qed.
Lemma only_s_fds_close m s fd :
  w_fds (st_w s) !! fd = Some (cpath s m) → only m s (s_fds s (delete fd (w_fds (st_w s)))).
Proof.
  intros Hf. split; try done; simpl. intros fd' p Hp Hq. rewrite lookup_delete_ne; congruence.
Qed.

Lemma mfile_s_file s m f : hdr_valid f = true → mfile (s_file s (cpath s m) f) m = f.
Proof.
  intros Hv. unfold mfile, cpath; simpl. rewrite lookup_insert_eq. by rewrite Hv.
Qed.

(** A change that touches neither the files nor the maps keeps the files. *)
Lemma mfile_files s s' m :
  w_files (st_w s') = w_files (st_w s) → bc_name (st_bc s') = bc_name (st_bc s) →
  w_shtime (st_w s') = w_shtime (st_w s) → mfile s' m = mfile s m.
Proof. intros E1 E2 E3. unfold mfile, cpath. by rewrite E1, E2, E3. Qed.

(** ** System calls *)
Lemma wp_sys op s (Q : result unit → st → Prop) :
  Q (Done tt) s → (∀ e, e < 0 → ¬ os_ok → Q (Error e) s) → wp (sys op) s Q.
Proof.
  intros Hd He. unfold wp, sys. destruct (os_fail op (st_w s)) as [e|] eqn:E; [|done].
  apply He; [|intros Hok; by rewrite Hok in E].
  apply stderr2sherr_neg. by eapply os_errno.
Qed.

Lemma wp_put_file p f s (Q : result unit → st → Prop) :
  Q (Done tt) (s_file s p f) → wp (put_file p f) s Q.
Proof. done. Qed.
Lemma wp_put_map m mp s (Q : result unit → st → Prop) :
  Q (Done tt) (s_map s m mp) → wp (put_map m mp) s Q.
Proof. done. Qed.

Lemma wp_file_at p s f (Q : result file → st → Prop) :
  w_files (st_w s) !! p = Some f → Q (Done f) s → wp (file_at p) s Q.
Proof. intros E ?. unfold wp, file_at. by rewrite E. Qed.

Lemma wp_path_of m s mp (Q : result string → st → Prop) :
  bc_get_map (st_bc s) m = Some mp → map_ext mp = cext m →
  Q (Done (cpath s m)) s → wp (path_of m) s Q.
Proof.
  intros E He HQ. unfold path_of. apply wp_bind. eapply wp_get_map; [done|].
  apply wp_gets. by rewrite He.
Qed.

Lemma wp_locked {A} (op : M A) s (Q : result A → st → Prop) :
  (¬ os_ok → Q (Error ERR_NOLCK) s) →
  wp op (set_lk s (st_lk s + 1)) (λ r s', Q r (set_lk s' (st_lk s' - 1))) →
  wp (locked op) s Q.
Proof.
  intros He Hop. unfold locked. apply wp_bind. unfold wp at 1, bc_lock.
  destruct (os_fail SysLock (st_w s)) eqn:E.
  - apply wp_throw, He. intros Hok. by rewrite Hok in E.
  - apply wp_bind, wp_try. eapply wp_mono; [exact Hop|]. cbn beta iota.
    intros r s' HQ. unfold bc_unlock. by wp_steps.
Qed.

Lemma only_lock m s s' :
  only m (set_lk s (st_lk s + 1)) s' → only m s (set_lk s' (st_lk s' - 1)).
Proof.
  intros Ho. split; try apply Ho. simpl. rewrite (only_lk _ _ _ Ho). simpl. lia.
Qed.

(** ** [bc_map_open] *)

(** [m] may be opened: it exists and its extension is set. *)
Definition named (s : st) (m : mapid) (mp : bc_map_t) : Prop :=
  bc_get_map (st_bc s) m = Some mp ∧ map_ext mp = cext m.

Lemma named_only m m' s s' mp : only m s s' → m' ≠ m → named s m' mp → named s' m' mp.
Proof. intros Ho Hne [Hg He]. split; [|done]. by rewrite (only_maps _ _ _ Ho). Qed.

(** The descriptor table takes any descriptor that is not below zero. *)
Lemma claim_some max now k fd mode flag dt : 0 ≤ fd → is_Some (descriptor_claim max now k fd mode flag dt).
Proof.
  intros Hfd. unfold descriptor_claim. destruct (max <=? fd); [done|]. rewrite (proj2 (Z.ltb_ge fd 0) Hfd).
  by destruct (if d_flag _ =? 0 then _ else _).
Qed.
Lemma mark_some max now fd dt : 0 ≤ fd → is_Some (descriptor_mark max now fd dt).
Proof.
  intros Hfd. unfold descriptor_mark. destruct (max <=? fd); [done|]. rewrite (proj2 (Z.ltb_ge fd 0) Hfd).
  cbv zeta. by destruct (d_flag _ =? 0).
Qed.
Lemma release_some max k fd dt : 0 ≤ fd → is_Some (descriptor_release max k fd dt).
Proof. intros Hfd. unfold descriptor_release. destruct (max <=? fd); [done|]. by rewrite (proj2 (Z.ltb_ge fd 0) Hfd). Qed.

(** Closed map, file present or just created: still the same file to open. *)
Lemma local_closed s s' m mp :
  local_inv s m → named s m mp → map_fd mp = 0 →
  bc_get_map (st_bc s') m = Some mp → bc_name (st_bc s') = bc_name (st_bc s) →
  (∀ f, w_files (st_w s') !! cpath s m = Some f →
     w_files (st_w s) !! cpath s m = Some f ∨
     f_reg f = true ∧ (hdr_valid f = true → file_ok f)) →
  local_inv s' m.
Proof.
  intros [Hf Hm] [Hg He] H0 Hg' Hn Hfiles. unfold local_inv, cpath. rewrite Hn. split.
  - intros f E. destruct (Hfiles f E) as [E'|]; [by apply Hf|done].
  - intros mp' E. assert (mp' = mp) as -> by congruence.
    destruct (Hm _ Hg) as (H1 & H2 & H3). by split.
Qed.

Lemma hdr_valid_empty : hdr_valid empty_file = false.
Proof. done. Qed.

Lemma wp_sys_open s m mp (Q : result Z → st → Prop) :
  inv s → named s m mp → map_fd mp = 0 →
  (¬ os_ok → ∀ e, e < 0 → Q (Error e) s) →
  (∀ fd f s', 0 < fd → only m s s' → st_bc s' = st_bc s →
     w_fds (st_w s) !! fd = None →
     w_fds (st_w s') = <[fd := cpath s m]> (w_fds (st_w s)) →
     w_files (st_w s') !! cpath s m = Some f → mfile s' m = mfile s m → inv s' →
     mfile s m = (if hdr_valid f then f else init_file (w_shtime (st_w s)) f) →
     f_reg f = true →
     Q (Done fd) s') →
  wp (sys_open (cpath s m)) s Q.
Proof.
  intros Hi Hn H0 He Hd. unfold sys_open. apply wp_bind.
  apply wp_sys; [|by intros; apply He]. wp_steps.
  pose proof (fresh_fd_fresh (w_fds (st_w s))) as Hfr.
  pose proof (fresh_fd_ge (w_fds (st_w s))) as Hge.
  apply wp_bind. destruct (w_files (st_w s) !! cpath s m) as [f|] eqn:E; wp_steps.
  - apply (Hd _ f); try done; simpl; try lia.
    + by apply only_s_fds_open.
    + eapply inv_only; [done|by apply only_s_fds_open|].
      eapply (local_closed s); [apply Hi|done|done|apply Hn|done|by left].
    + unfold mfile. by rewrite E.
    + destruct (Hi m) as [Hf _]. by destruct (Hf _ E).
  - unfold put_file. wp_steps.
    assert (only m s (s_file s (cpath s m) empty_file)) as Ho1 by apply only_s_file.
    apply (Hd _ empty_file); try done; simpl; try lia.
    + etrans; [exact Ho1|]. by apply (only_s_fds_open m (s_file s (cpath s m) empty_file)).
    + by rewrite lookup_insert_eq.
    + unfold mfile. rewrite E. simpl. unfold cpath in *. simpl. rewrite lookup_insert_eq. done.
    + eapply (inv_only m s); [done| |].
      * etrans; [exact Ho1|]. by apply (only_s_fds_open m (s_file s (cpath s m) empty_file)).
      * eapply (local_closed s); [apply Hi|done|done|apply Hn|done|]. simpl. intros f.
        rewrite lookup_insert_eq. intros [= <-]. by right.
    + unfold mfile. by rewrite E.
Qed.

(** Post-condition shared by the operations on one map that keep its file:
    [P] on success; on an error some system call failed. *)
Definition keeps {A} (m : mapid) (s : st) (P : A → st → Prop) (r : result A) (s' : st) : Prop :=
  only m s s' ∧ inv s' ∧ mfile s' m = mfile s m ∧
  match r with
  | Done a => P a s'
  | Error e => ¬ os_ok ∧ e < 0
  end.

Definition opened (m : mapid) (mp : bc_map_t) (_ : unit) (s' : st) : Prop :=
  ∃ mp', named s' m mp' ∧ map_fd mp' ≠ 0 ∧
    (map_fd mp ≠ 0 → mp' = mp) ∧ (map_fd mp = 0 → map_hdr mp' = false).

(** The state after a successful [open(2)] of a closed map. *)
Record fd_open (m : mapid) (mp : bc_map_t) (fd : Z) (s s1 : st) : Prop := {
  fo_inv : inv s; fo_named : named s m mp; fo_closed : map_fd mp = 0; fo_fd : 0 < fd;
  fo_only : only m s s1; fo_bc : st_bc s1 = st_bc s; fo_inv1 : inv s1;
  fo_fds : w_fds (st_w s1) = <[fd := cpath s m]> (w_fds (st_w s));
  fo_mfile : mfile s1 m = mfile s m;
}.

Lemma wp_open_abort {A} m mp fd s s1 e (Q : result A → st → Prop) :
  fd_open m mp fd s s1 → ¬ os_ok → e < 0 →
  (∀ s', keeps m s (opened m mp) (Error e) s' → Q (Error e) s') →
  wp (sys_close fd ;;; throw e) s1 Q.
Proof.
  intros Hfo Hok He HQ. pose proof (fo_only _ _ _ _ _ Hfo) as Ho.
  unfold sys_close. wp_steps. apply HQ.
  assert (Ho2 : only m s1 (s_fds s1 (delete fd (w_fds (st_w s1))))).
  { apply only_s_fds_close. rewrite (fo_fds _ _ _ _ _ Hfo), (only_cpath _ _ _ _ Ho).
    apply lookup_insert_eq. }
  split; [by etrans|]. split; [|split; [apply (fo_mfile _ _ _ _ _ Hfo)|done]].
  assert (Hn1 : named s1 m mp).
  { destruct (fo_named _ _ _ _ _ Hfo). split; [by rewrite (fo_bc _ _ _ _ _ Hfo)|done]. }
  eapply (inv_only m s1); [apply Hfo|done|].
  eapply (local_closed s1); [apply (fo_inv1 _ _ _ _ _ Hfo)|done|apply Hfo|apply Hn1|done|by left].
Qed.

Lemma wp_open_finish m mp fd s s1 s2 size :
  fd_open m mp fd s s1 → only m s1 s2 → st_bc s2 = st_bc s →
  w_fds (st_w s2) = w_fds (st_w s1) → mfile s2 m = mfile s m →
  w_files (st_w s2) !! cpath s m = Some (mfile s m) →
  wp (mp0 <- get_map m ;;
      put_map m (BcMap fd size (map_stamp mp0) (map_ext mp0) false) ;;;
      s0 <- get ;;
      match descriptor_claim max_fd (w_shtime (st_w s0)) (fd_kind_of (st_w s0) fd) fd
              (bc_iface_index (bc_name (st_bc s0))) DF_MAP (w_desc (st_w s0)) with
      | None => fault
      | Some (_, dt) => modify (λ s, set_w s (w_set_desc (st_w s) dt))
      end) s2
    (keeps m s (opened m mp)).
Proof.
  intros Hfo Ho2 Hbc2 Hfds2 Hmf2 Hf2. destruct (fo_named _ _ _ _ _ Hfo) as [Hg He].
  apply wp_bind. eapply wp_get_map; [by rewrite Hbc2|].
  unfold put_map. wp_steps. set (mp' := BcMap fd size (map_stamp mp) (map_ext mp) false).
  pose proof (fo_fd _ _ _ _ _ Hfo) as Hpos.
  assert (Hoc : only m s (s_map s2 m mp')).
  { etrans; [apply Hfo|]. etrans; [exact Ho2|]. apply only_s_map. }
  assert (Hg' : bc_get_map (st_bc (s_map s2 m mp')) m = Some mp').
  { simpl. apply bc_get_set_map. rewrite Hbc2. eauto. }
  assert (Hmf3 : mfile (s_map s2 m mp') m = mfile s m).
  { rewrite <-Hmf2. apply mfile_files; simpl; try done. by rewrite bc_set_map_name. }
  assert (Hi3 : inv (s_map s2 m mp')).
  { eapply inv_only; [apply Hfo|exact Hoc|]. split.
    - intros g. rewrite (only_cpath _ _ _ _ Hoc). simpl. rewrite Hf2. intros [= <-].
      pose proof (local_file_ok _ _ (fo_inv _ _ _ _ _ Hfo m)) as Hok. split; [apply Hok|done].
    - intros mp2. rewrite Hg'. intros [= <-]. split; [by left|]. split; [done|].
      intros _. rewrite (only_cpath _ _ _ _ Hoc), Hmf3. simpl.
      rewrite Hfds2, (fo_fds _ _ _ _ _ Hfo). split; [apply lookup_insert_eq|done]. }
  match goal with |- context [descriptor_claim ?a ?b ?c ?d ?e ?f ?g] => destruct (claim_some a b c d e f g) as [[od dt] Ec]; [lia|] end.
  rewrite Ec. wp_steps.
  split; [etrans; [exact Hoc|apply only_s_desc]|]. split; [exact Hi3|]. split; [exact Hmf3|].
  exists mp'. assert (fd ≠ 0) by lia. pose proof (fo_closed _ _ _ _ _ Hfo).
  split; [by split|naive_solver].
Qed.

Lemma wp_map_open_ s m mp :
  inv s → named s m mp → wp (bc_map_open_ m) s (keeps m s (opened m mp)).
Proof.
  intros Hi Hn. unfold bc_map_open_. apply wp_bind.
  eapply wp_get_map; [apply Hn|]. destruct (Z.eqb_spec (map_fd mp) 0) as [H0|H0]; cbn [negb].
  2: { wp_steps. destruct (Hi m) as [_ Hm]. destruct (Hm _ (proj1 Hn)) as (_ & _ & Hopen). destruct (Hopen H0) as (_ & _ & _ & Hpos).
       destruct (mark_some max_fd (w_shtime (st_w s)) (map_fd mp) (w_desc (st_w s))) as [[d dt] Ec]; [lia|]. rewrite Ec. wp_steps.
       split; [apply only_s_desc|]. split; [done|]. split; [done|].
       exists mp. naive_solver. }
  apply wp_bind. eapply wp_path_of; [apply Hn|apply Hn|]. apply wp_bind.
  eapply wp_sys_open; [done|done|done| |].
  { intros ? e ?. by split. }
  intros fd f s1 Hfd Ho Hbc Hfree Hfds Hf Hmf Hi1 Hval Hreg.
  assert (Hfo : fd_open m mp fd s s1) by by split.
  wp_steps. apply wp_sys; [|intros e ??; by eapply wp_open_abort].
  apply wp_bind. eapply wp_file_at; [exact Hf|].
  rewrite Hreg. cbn [negb]. apply wp_bind.
  destruct (hdr_valid f) eqn:Ev; wp_steps.
  { eapply wp_open_finish; try done. by rewrite Hval. }
  apply wp_sys; [|intros e ??; by eapply wp_open_abort].
  unfold put_file. wp_steps. rewrite (only_shtime _ _ _ Ho), <-Hval.
  assert (only m s1 (s_file s1 (cpath s m) (mfile s m))).
  { rewrite <-(only_cpath _ _ _ _ Ho). apply only_s_file. }
  eapply wp_open_finish; try done; simpl.
  - rewrite <-(only_cpath _ _ _ m Ho). apply mfile_s_file, (local_file_ok _ _ (Hi m)).
  - apply lookup_insert_eq.
Qed.

Lemma wp_locked_keeps {A} m (op : M A) s (P : A → st → Prop) :
  (∀ a s' d, P a s' → P a (set_lk s' d)) → inv s →
  (∀ s1, inv s1 → st_w s1 = st_w s → st_bc s1 = st_bc s → wp op s1 (keeps m s1 P)) →
  wp (locked op) s (keeps m s P).
Proof.
  intros HP Hi Hop. apply wp_locked.
  - intros Hok. by split.
  - eapply wp_mono; [by apply Hop|]. intros r s' (Ho & Hi' & Hm & Hr).
    split; [by apply only_lock|]. split; [exact Hi'|]. split; [exact Hm|].
    destruct r; [by apply HP|done].
Qed.

Lemma wp_map_open s m mp :
  inv s → named s m mp → wp (bc_map_open m) s (keeps m s (opened m mp)).
Proof.
  intros Hi Hn. apply wp_locked_keeps; [done|done|].
  intros s1 Hi1 Hw Hb. apply wp_map_open_; [done|]. unfold named. by rewrite Hb.
Qed.

(** ** [bc_map_alloc] *)

(** The size after an operation that needs [len] more bytes: unchanged, or
    at most a tenth and one block more than the file that was too short. *)
Definition bounded (len : Z) (f f' : file) : Prop :=
  f_size f' = f_size f ∨
  f_size f ≤ HDR + hdr_of f + len ∧
  f_size f' ≤ f_size f + len + (f_size f + len) / 10 + BC_MAP_BLOCK_SIZE.

(** The file after a growth: more zero bytes at the end. *)
Definition grown (len : Z) (f f' : file) : Prop :=
  f_bytes f' = f_bytes f ∧ f_reg f' = f_reg f ∧ f_size f ≤ f_size f' ∧ bounded len f f'.

#[global] Instance grown_refl len : Reflexive (grown len).
Proof. intros f. do 3 (split; [done|]). by left. Qed.

Lemma grown_hdr len f f' : grown len f f' → hdr_of f' = hdr_of f.
Proof. intros (Hb & _). by apply hdr_of_ext. Qed.
Lemma grown_payload len f f' : grown len f f' → fpayload f' = fpayload f.
Proof.
  intros Hg. unfold fpayload. rewrite (grown_hdr _ _ _ Hg). apply fread_ext.
  intros. unfold f_get. by destruct Hg as (-> & _).
Qed.

(** [len] more bytes fit: in the mapped part, or the enlarged size computed by
    the code stays below 2^32. *)
Definition room (f : file) (len : Z) : Prop :=
  0 ≤ len ∧ (HDR + hdr_of f + len < f_size f ∨
    f_size f + len + (f_size f + len) / 10 + BC_MAP_BLOCK_SIZE < 2 ^ 32).

Lemma grow_size_spec sz len :
  0 ≤ sz → 0 ≤ len → sz + len + (sz + len) / 10 + BC_MAP_BLOCK_SIZE < 2 ^ 32 →
  sz + len < grow_size sz len < 2 ^ 32 ∧ (BC_MAP_BLOCK_SIZE | grow_size sz len) ∧
  grow_size sz len ≤ sz + len + (sz + len) / 10 + BC_MAP_BLOCK_SIZE.
Proof.
  intros H1 H2 H3. unfold grow_size, BC_MAP_BLOCK_SIZE in *.
  assert (0 ≤ (sz + len) / 10) by (apply Z.div_pos; lia).
  rewrite (u32_small (sz + len)) by lia. rewrite (u32_small (sz + len + _)) by lia.
  set (x := sz + len + (sz + len) / 10) in *.
  pose proof (Z.mul_div_le x 16384 ltac:(lia)).
  pose proof (Z.mul_succ_div_gt x 16384 ltac:(lia)).
  rewrite u32_small by lia. split; [lia|]. split; [by exists (x / 16384 + 1)|lia].
Qed.

(** Success of the operations that may grow a map. *)
Definition grows {A} (m : mapid) (len : Z) (s : st) (P : A → st → Prop) (r : result A) (s' : st) : Prop :=
  only m s s' ∧ inv s' ∧ grown len (mfile s m) (mfile s' m) ∧
  match r with
  | Done a => P a s'
  | Error e => ¬ os_ok ∧ e < 0
  end.

Lemma keeps_grows {A} m len s (P Q : A → st → Prop) r s' :
  (∀ a, P a s' → Q a s') → keeps m s P r s' → grows m len s Q r s'.
Proof.
  intros HPQ (Ho & Hi & Hm & Hr). split; [done|]. split; [done|].
  split; [by rewrite Hm|]. destruct r; auto.
Qed.

Lemma grows_after {B} m len s s1 (Q : B → st → Prop) r s' :
  only m s s1 → mfile s1 m = mfile s m → grows m len s1 Q r s' → grows m len s Q r s'.
Proof.
  intros Ho Hm (Ho' & Hi' & Hg' & Hr).
  split; [by etrans|]. split; [done|]. by rewrite <-Hm.
Qed.

(** Mapped, with [len] bytes free after the payload. *)
Definition ready (m : mapid) (len : Z) (_ : unit) (s' : st) : Prop :=
  ∃ mp, named s' m mp ∧ map_fd mp ≠ 0 ∧ map_hdr mp = true ∧
    map_size mp = f_size (mfile s' m) ∧
    HDR + hdr_of (mfile s' m) + len < f_size (mfile s' m).

Lemma inv_open_pos s m mp : inv s → named s m mp → map_fd mp ≠ 0 → 0 < map_fd mp.
Proof.
  intros Hi [Hg He] Hfd. destruct (Hi m) as [_ Hm]. destruct (Hm _ Hg) as (_ & _ & Hopen).
  by destruct (Hopen Hfd) as (_ & _ & _ & ?).
Qed.
Lemma inv_open_file s m mp :
  inv s → named s m mp → map_fd mp ≠ 0 →
  w_files (st_w s) !! cpath s m = Some (mfile s m) ∧
  w_fds (st_w s) !! map_fd mp = Some (cpath s m) ∧
  (map_hdr mp = true → map_size mp = f_size (mfile s m)).
Proof.
  intros Hi [Hg He] Hfd. destruct (Hi m) as [_ Hm]. destruct (Hm _ Hg) as (_ & _ & Hopen).
  destruct (Hopen Hfd) as (? & ? & ? & ?). done.
Qed.

Lemma wp_mapped_file s m mp (Q : result file → st → Prop) :
  inv s → named s m mp → map_fd mp ≠ 0 → map_hdr mp = true →
  Q (Done (mfile s m)) s → wp (mapped_file m) s Q.
Proof.
  intros Hi Hn Hfd Hh HQ. unfold mapped_file. apply wp_bind.
  eapply wp_get_map; [apply Hn|]. rewrite Hh. apply wp_bind.
  eapply wp_path_of; [apply Hn|apply Hn|]. eapply wp_file_at; [|done].
  by eapply inv_open_file.
Qed.

Lemma wp_hdr_get_of s m mp (Q : result Z → st → Prop) :
  inv s → named s m mp → map_fd mp ≠ 0 → map_hdr mp = true →
  Q (Done (hdr_of (mfile s m))) s → wp (hdr_get_of m) s Q.
Proof.
  intros. unfold hdr_get_of. apply wp_bind. by eapply wp_mapped_file.
Qed.

(** Replacing an open map's record by one with the same file. *)
Lemma inv_s_map s m mp mp' :
  inv s → named s m mp → map_fd mp ≠ 0 → map_fd mp' = map_fd mp → map_ext mp' = map_ext mp →
  (map_hdr mp' = true → map_size mp' = f_size (mfile s m)) →
  inv (s_map s m mp') ∧ named (s_map s m mp') m mp' ∧ mfile (s_map s m mp') m = mfile s m.
Proof.
  intros Hi Hn Hfd Efd Eext Hsz. pose proof (only_s_map m s mp') as Ho.
  assert (Hmf : mfile (s_map s m mp') m = mfile s m).
  { apply mfile_files; simpl; try done. by rewrite bc_set_map_name. }
  assert (Hg : bc_get_map (st_bc (s_map s m mp')) m = Some mp').
  { simpl. apply bc_get_set_map. destruct Hn as [-> _]. eauto. }
  destruct (inv_open_file _ _ _ Hi Hn Hfd) as (H1 & H2 & _).
  split; [|split; [split; [done|rewrite Eext; apply Hn]|done]].
  eapply inv_only; [exact Hi|exact Ho|]. split.
  - intros f. rewrite (only_cpath _ _ _ _ Ho). apply (Hi m).
  - intros mp2. rewrite Hg. intros [= <-]. split; [left; rewrite Eext; apply Hn|].
    split; [congruence|]. intros _. rewrite (only_cpath _ _ _ _ Ho), Hmf. simpl.
    split; [congruence|]. split; [done|]. split; [done|]. rewrite Efd. by eapply inv_open_pos.
Qed.

(** Replacing an open map's file. *)
Lemma inv_s_file s m mp f' :
  inv s → named s m mp → map_fd mp ≠ 0 → file_ok f' →
  (map_hdr mp = true → map_size mp = f_size f') →
  inv (s_file s (cpath s m) f') ∧ named (s_file s (cpath s m) f') m mp ∧
  mfile (s_file s (cpath s m) f') m = f'.
Proof.
  intros Hi Hn Hfd Hok Hsz.
  assert (Hmf : mfile (s_file s (cpath s m) f') m = f') by apply mfile_s_file, Hok.
  destruct (inv_open_file _ _ _ Hi Hn Hfd) as (H1 & H2 & _).
  split; [|by split]. eapply inv_only; [exact Hi|apply only_s_file|]. split.
  - intros f. simpl. unfold cpath. simpl. rewrite lookup_insert_eq. intros [= <-].
    split; [apply Hok|done].
  - intros mp2 Hg. assert (mp2 = mp) as -> by (destruct Hn; simpl in *; congruence).
    split; [left; apply Hn|]. split; [done|]. intros _.
    change (cpath (s_file s (cpath s m) f') m) with (cpath s m). rewrite Hmf. simpl.
    split; [done|]. rewrite lookup_insert_eq. split; [done|]. split; [done|]. by eapply inv_open_pos.
Qed.

Lemma file_ok_grown f len n :
  file_ok f → f_size f ≤ n < 2 ^ 32 → (BC_MAP_BLOCK_SIZE | n) →
  f_size f ≤ HDR + hdr_of f + len →
  n ≤ f_size f + len + (f_size f + len) / 10 + BC_MAP_BLOCK_SIZE →
  file_ok (ftrunc f n) ∧ grown len f (ftrunc f n) ∧ f_size (ftrunc f n) = n.
Proof.
  intros (Hr & Hv & Ht & Hs & Hd & Ho) Hn Hdn Hlow Hup. rewrite ftrunc_extend by (done || lia).
  set (f' := File _ _ _). assert (Hb : f_bytes f' = f_bytes f) by done.
  split; [|split; [split; [done|split; [done|split; [simpl; lia|by right]]]|done]].
  split; [done|]. split.
  { unfold hdr_valid in *. rewrite (hdr_magic_ext f' f Hb). simpl.
    apply andb_true_iff in Hv as [_ ->]. rewrite andb_true_r. apply Z.leb_le.
    unfold BC_MAP_BLOCK_SIZE in *. lia. }
  split. { intros a Ha. specialize (Ht a Ha). simpl. lia. }
  split; [simpl; lia|]. split; [done|]. rewrite (hdr_of_ext f' f Hb). simpl. lia.
Qed.

(** The tail of the allocation: map the [n] bytes of the file. *)
Lemma wp_map_mmap s s1 m mp n len :
  inv s1 → named s1 m mp → map_fd mp ≠ 0 → only m s s1 → grown len (mfile s m) (mfile s1 m) →
  n = f_size (mfile s1 m) → HDR + hdr_of (mfile s1 m) + len < n →
  wp (r <- try (sys (SysMmap (cpath s m) n)) ;;
      match r with
      | Error _ => throw ERR_NOMEM
      | Done _ => if n =? 0 then throw ERR_NOMEM
          else mp <- get_map m ;;
               put_map m (BcMap (map_fd mp) n (map_stamp mp) (map_ext mp) true)
      end) s1 (grows m len s (ready m len)).
Proof.
  intros Hi1 Hn1 Hfd Ho1 Hg1 -> Hfree. wp_steps. apply wp_sys; [|by intros; wp_steps].
  assert (BC_MAP_BLOCK_SIZE ≤ f_size (mfile s1 m)) by apply (local_file_ok _ _ (Hi1 m)).
  destruct (Z.eqb_spec (f_size (mfile s1 m)) 0); [unfold BC_MAP_BLOCK_SIZE in *; lia|].
  apply wp_bind. eapply wp_get_map; [apply Hn1|]. apply wp_put_map.
  set (mp' := BcMap _ _ _ _ _).
  destruct (inv_s_map s1 m mp mp') as (Hi2 & Hn2 & Hmf2); try done.
  split; [etrans; [exact Ho1|apply only_s_map]|]. split; [exact Hi2|].
  rewrite Hmf2. split; [done|]. exists mp'. by rewrite Hmf2.
Qed.

Lemma wp_map_remap s m mp len :
  inv s → named s m mp → map_fd mp ≠ 0 → map_hdr mp = false → room (mfile s m) len →
  wp (bc_map_remap m (f_size (mfile s m)) (f_size (mfile s m)) (hdr_of (mfile s m)) len) s
    (grows m len s (ready m len)).
Proof.
  intros Hi Hn Hfd Hh [Hl Hroom]. unfold bc_map_remap. apply wp_bind.
  eapply wp_path_of; [apply Hn|apply Hn|].
  pose proof (local_file_ok _ _ (Hi m)) as Hok.
  destruct (inv_open_file _ _ _ Hi Hn Hfd) as (Hf & _ & _).
  assert (Hsz : BC_MAP_BLOCK_SIZE ≤ f_size (mfile s m)) by apply Hok.
  apply wp_bind. destruct (Z.ltb_spec (f_size (mfile s m)) BC_MAP_BLOCK_SIZE); [lia|].
  cbn [orb]. destruct (Z.leb_spec (f_size (mfile s m)) (HDR + hdr_of (mfile s m) + len)).
  - destruct Hroom as [?|Hroom]; [lia|].
    destruct (grow_size_spec (f_size (mfile s m)) len) as (Hgs & Hgd & Hgu);
      [unfold BC_MAP_BLOCK_SIZE in *; lia|done|done|].
    destruct (file_ok_grown _ len (grow_size (f_size (mfile s m)) len) Hok) as (Hok' & Hg' & Hs'); [lia|done..|].
    apply wp_bind. apply wp_sys; [|intros; by split; [|split; [|split]]].
    apply wp_bind. eapply wp_file_at; [exact Hf|].
    apply wp_bind, wp_put_file, wp_ret.
    destruct (inv_s_file s m mp _ Hi Hn Hfd Hok') as (Hi1 & Hn1 & Hmf1); [congruence|].
    eapply wp_map_mmap; [exact Hi1|exact Hn1|done|apply only_s_file|by rewrite Hmf1|by rewrite Hmf1|].
    rewrite Hmf1, (grown_hdr _ _ _ Hg'). destruct Hok as (_&_&_&_&_&?). lia.
  - wp_step; cbn beta iota. by eapply wp_map_mmap.
Qed.

Lemma block_multiple_u32 f : file_ok f →
  u32 (f_size f / BC_MAP_BLOCK_SIZE * BC_MAP_BLOCK_SIZE) = f_size f ∧ f_size f < MAX_BC_MAP_SIZE.
Proof.
  intros (_ & _ & _ & Hs & [k Hk] & _). unfold BC_MAP_BLOCK_SIZE, MAX_BC_MAP_SIZE in *.
  rewrite Hk in *. rewrite Z.div_mul by lia. split; [apply u32_small; lia|lia].
Qed.

Lemma wp_map_alloc_ s m mp len :
  inv s → named s m mp → room (mfile s m) len →
  wp (bc_map_alloc_ m len) s (grows m len s (ready m len)).
Proof.
  intros Hi Hn Hroom. unfold bc_map_alloc_.
  eapply wp_bind_spec; [by eapply wp_map_open| |by intros; eapply keeps_grows].
  intros _ s1 (Ho1 & Hi1 & Hm1 & mp1 & Hn1 & Hfd1 & _).
  destruct (inv_open_file _ _ _ Hi1 Hn1 Hfd1) as (Hf1 & _ & Hsz).
  assert (Herr : ∀ e, ¬ os_ok → e < 0 → grows m len s (ready m len) (Error e) s1).
  { intros. split; [done|]. split; [done|]. split; [by rewrite Hm1|done]. }
  assert (Hback : ∀ r s', grows m len s1 (ready m len) r s' → grows m len s (ready m len) r s').
  { intros r s' (Ho & Hi' & Hg & Hr). split; [by etrans|]. split; [done|].
    split; [by rewrite <-Hm1|done]. }
  apply wp_bind. eapply wp_path_of; [apply Hn1|apply Hn1|].
  apply wp_bind. apply wp_sys; [|by auto].
  apply wp_bind. eapply wp_file_at; [exact Hf1|]. cbn beta zeta.
  destruct (block_multiple_u32 _ (local_file_ok _ _ (Hi1 m))) as [-> Hmax].
  destruct (Z.leb_spec MAX_BC_MAP_SIZE (f_size (mfile s1 m))); [lia|].
  apply wp_bind. eapply wp_get_map; [apply Hn1|].
  rewrite <-Hm1 in Hroom. destruct (map_hdr mp1) eqn:Eh.
  - apply wp_bind. eapply wp_hdr_get_of; [done..|].
    destruct (Z.ltb_spec (HDR + hdr_of (mfile s1 m) + len) (f_size (mfile s1 m))).
    + wp_steps. apply Hback. split; [done|]. split; [done|]. split; [done|].
      exists mp1. by rewrite Hsz.
    + unfold bc_map_free. apply wp_bind, wp_bind. eapply wp_get_map; [apply Hn1|].
      rewrite Eh. apply wp_put_map. set (mp2 := BcMap _ _ _ _ _).
      destruct (inv_s_map s1 m mp1 mp2) as (Hi2 & Hn2 & Hm2); try done.
      eapply wp_mono.
      { rewrite <-Hm2. apply (wp_map_remap (s_map s1 m mp2) m mp2); try done. by rewrite Hm2. }
      intros r s' Hr. apply Hback. eapply grows_after; [apply (only_s_map m)|exact Hm2|exact Hr].
  - eapply wp_mono; [by eapply wp_map_remap|done].
Qed.

Lemma wp_map_alloc s m mp len :
  inv s → named s m mp → room (mfile s m) len →
  wp (bc_map_alloc m len) s (grows m len s (ready m len)).
Proof.
  intros Hi Hn Hroom. apply wp_locked.
  - intros Hok. by split; [|split; [|split]].
  - eapply wp_mono; [by eapply (wp_map_alloc_ (set_lk s (st_lk s + 1)))|].
    intros r s' (Ho & Hi' & Hg & Hr). split; [by apply only_lock|]. by split.
Qed.

(** ** Stores *)

(** [off <= length p]: overwrite from [off] on, extending at the end. *)
Definition splice (p : list byte) (off : Z) (bs : list byte) : list byte :=
  take (Z.to_nat off) p ++ bs ++ drop (Z.to_nat (off + zlen bs)) p.

Lemma length_splice p off bs :
  0 ≤ off ≤ zlen p → zlen (splice p off bs) = Z.max (zlen p) (off + zlen bs).
Proof. intros. unfold splice. rewrite !length_app, length_take, length_drop. lia. Qed.

(** The file after [bc_map_write]: the bytes, then the header's offset. *)
Definition fput (f : file) (off : Z) (bs : list byte) : file :=
  fwrite (fwrite f (HDR + off) bs) 12 (le_enc 4 (Z.max (hdr_of f) (u32 (off + zlen bs)))).

Lemma length_fpayload f : zlen (fpayload f) = hdr_of f.
Proof. unfold fpayload. rewrite length_fread. pose proof (hdr_of_range f). lia. Qed.

Lemma fpayload_lookup f i :
  (i < length (fpayload f))%nat → fpayload f !! i = Some (f_get f (HDR + Z.of_nat i)).
Proof. unfold fpayload. rewrite length_fread. apply fread_lookup. Qed.

(** The elements of a spliced list. *)
Lemma splice_lookup p off bs i :
  0 ≤ off ≤ zlen p →
  splice p off bs !! i =
    if decide (off ≤ Z.of_nat i < off + zlen bs) then bs !! (i - Z.to_nat off)%nat else p !! i.
Proof.
  intros Hoff. unfold splice. case_decide as Hc.
  - rewrite lookup_app_r by (rewrite length_take; lia). rewrite length_take.
    rewrite lookup_app_l by lia. f_equal. lia.
  - destruct (decide (Z.of_nat i < off)).
    + rewrite lookup_app_l by (rewrite length_take; lia). by rewrite lookup_take_lt by lia.
    + rewrite lookup_app_r by (rewrite length_take; lia). rewrite length_take.
      rewrite lookup_app_r by lia. rewrite lookup_drop. f_equal. lia.
Qed.

Lemma file_ok_fwrite f off bs :
  file_ok f → 0 ≤ off → HDR + off + zlen bs ≤ f_size f → file_ok (fwrite f (HDR + off) bs).
Proof.
  unfold HDR. intros (Hr & Hv & Ht & Hs & Hd & Ho) Hoff Hlen.
  split; [done|]. split; [unfold hdr_valid in *; by rewrite hdr_magic_write by lia|].
  split; [apply fwrite_tight; [done|lia|lia]|]. split; [done|]. split; [done|].
  rewrite hdr_of_write by lia. done.
Qed.

Lemma file_ok_set_of f v :
  file_ok f → 0 ≤ v → HDR + v ≤ f_size f → file_ok (fwrite f 12 (le_enc 4 v)).
Proof.
  intros (Hr & Hv & Ht & Hs & Hd & Ho) Hv0 Hlen. unfold BC_MAP_BLOCK_SIZE, HDR in *.
  split; [done|]. split; [unfold hdr_valid in *; by rewrite hdr_magic_write by lia|].
  split; [apply fwrite_tight; [done|lia|rewrite length_le_enc; lia]|].
  split; [done|]. split; [done|]. rewrite hdr_of_set, u32_small by lia. done.
Qed.

Lemma fput_of f off bs :
  0 ≤ off → off + zlen bs < 2 ^ 32 → hdr_of (fput f off bs) = Z.max (hdr_of f) (off + zlen bs).
Proof.
  intros. unfold fput. rewrite hdr_of_set. pose proof (hdr_of_range f).
  rewrite (u32_small (off + _)), u32_small by lia. done.
Qed.

Lemma fput_payload f off bs :
  0 ≤ off ≤ hdr_of f → off + zlen bs < 2 ^ 32 →
  fpayload (fput f off bs) = splice (fpayload f) off bs.
Proof.
  intros Hoff Hlen. pose proof (length_fpayload f) as Hp.
  pose proof (length_fpayload (fput f off bs)) as Hq. rewrite fput_of in Hq by lia.
  pose proof (length_splice (fpayload f) off bs) as Hs. rewrite Hp in Hs.
  apply list_eq. intros i. destruct (decide (i < length (fpayload (fput f off bs)))%nat).
  2: { rewrite !lookup_ge_None_2; [done|lia|lia]. }
  rewrite fpayload_lookup, splice_lookup by lia. unfold fput.
  rewrite f_get_fwrite_out by (rewrite length_le_enc; unfold HDR; lia).
  unfold f_get; simpl. rewrite put_bytes_lookup. case_decide as Hc.
  - rewrite decide_True by lia.
    replace (Z.to_nat (HDR + Z.of_nat i - (HDR + off))) with (i - Z.to_nat off)%nat by lia.
    destruct (bs !! _) eqn:E; [done|]. apply lookup_ge_None in E. lia.
  - rewrite decide_False by lia. rewrite fpayload_lookup by lia. done.
Qed.

Lemma wp_raw_write s m mp off bs (Q : result unit → st → Prop) :
  inv s → named s m mp → map_fd mp ≠ 0 → map_hdr mp = true →
  0 ≤ off → HDR + off + zlen bs ≤ f_size (mfile s m) →
  Q (Done tt) (s_file s (cpath s m) (fwrite (mfile s m) (HDR + off) bs)) →
  wp (raw_write m off bs) s Q.
Proof.
  intros Hi Hn Hfd Hh H0 Hlen HQ. unfold raw_write. apply wp_bind.
  eapply wp_mapped_file; [done..|]. apply wp_bind. eapply wp_get_map; [apply Hn|].
  apply wp_bind. eapply wp_path_of; [apply Hn|apply Hn|].
  destruct (inv_open_file _ _ _ Hi Hn Hfd) as (_ & _ & ->); [|done].
  destruct (Z.leb_spec 0 off); [|lia]. destruct (Z.leb_spec (HDR + off + zlen bs) (f_size (mfile s m))); [|lia].
  by apply wp_put_file.
Qed.

Lemma wp_raw_read s m mp off n (Q : result (list byte) → st → Prop) :
  inv s → named s m mp → map_fd mp ≠ 0 → map_hdr mp = true →
  0 ≤ off → HDR + off + Z.of_nat n ≤ f_size (mfile s m) →
  Q (Done (fread (mfile s m) (HDR + off) n)) s →
  wp (raw_read m off n) s Q.
Proof.
  intros Hi Hn Hfd Hh H0 Hlen HQ. unfold raw_read. apply wp_bind.
  eapply wp_mapped_file; [done..|]. apply wp_bind. eapply wp_get_map; [apply Hn|].
  destruct (inv_open_file _ _ _ Hi Hn Hfd) as (_ & _ & ->); [|done].
  destruct (Z.leb_spec 0 off); [|lia].
  by destruct (Z.leb_spec (HDR + off + Z.of_nat n) (f_size (mfile s m))); [|lia].
Qed.

Lemma wp_hdr_set_of s m mp v (Q : result unit → st → Prop) :
  inv s → named s m mp → map_fd mp ≠ 0 → map_hdr mp = true →
  Q (Done tt) (s_file s (cpath s m) (fwrite (mfile s m) 12 (le_enc 4 v))) →
  wp (hdr_set_of m v) s Q.
Proof.
  intros Hi Hn Hfd Hh HQ. unfold hdr_set_of. apply wp_bind.
  eapply wp_mapped_file; [done..|]. apply wp_bind. eapply wp_path_of; [apply Hn|apply Hn|].
  by apply wp_put_file.
Qed.

(** ** [bc_map_write], [bc_map_append] *)

(** The post-condition of a store: on success the payload is spliced, on an
    error it is what it was. *)
Definition stored (m : mapid) (off : Z) (bs : list byte) (s : st) (r : result unit) (s' : st) : Prop :=
  only m s s' ∧ inv s' ∧ bounded (zlen bs) (mfile s m) (mfile s' m) ∧
  match r with
  | Done _ => payload s' m = splice (payload s m) off bs ∧ ready m 0 tt s'
  | Error e => payload s' m = payload s m ∧ ¬ os_ok ∧ e < 0
  end.

Lemma wp_map_write_ s m mp off bs :
  inv s → named s m mp → room (mfile s m) (zlen bs) → 0 ≤ off ≤ hdr_of (mfile s m) →
  wp (bc_map_write_ m off bs) s (stored m off bs s).
Proof.
  intros Hi Hn Hroom Hoff. unfold bc_map_write_.
  eapply wp_bind_spec; [by eapply wp_map_alloc| |].
  2: { intros e s' (Ho & Hi' & Hg & Hr). split; [done|]. split; [done|]. split; [apply Hg|].
       split; [by eapply grown_payload|done]. }
  intros [] s1 (Ho1 & Hi1 & Hg1 & mp1 & Hn1 & Hfd1 & Hh1 & Hsz1 & Hfree).
  pose proof (grown_hdr _ _ _ Hg1) as Hhdr. set (f1 := mfile s1 m) in *.
  pose proof (local_file_ok _ _ (Hi1 m)) as Hok1. fold f1 in Hok1.
  assert (Hlt : f_size f1 < 2 ^ 32) by apply Hok1. unfold HDR in Hfree.
  apply wp_bind. eapply wp_raw_write; [done..|lia|unfold HDR; fold f1; lia|]. fold f1.
  assert (Hok2 : file_ok (fwrite f1 (HDR + off) bs)) by (apply file_ok_fwrite; [done|lia|unfold HDR; lia]).
  destruct (inv_s_file s1 m mp1 _ Hi1 Hn1 Hfd1 Hok2) as (Hi2 & Hn2 & Hm2); [done|].
  apply wp_bind. eapply wp_hdr_get_of; [done..|]. rewrite Hm2, hdr_of_write by (unfold HDR; lia).
  set (s2 := s_file s1 _ _) in *.
  assert (Hok3 : file_ok (fput f1 off bs)).
  { apply file_ok_set_of; [done|lia|]. rewrite u32_small by lia. unfold HDR. simpl.
    pose proof (hdr_of_range f1). lia. }
  apply wp_bind. eapply wp_hdr_set_of; [done..|]. rewrite Hm2.
  change (cpath s2 m) with (cpath s1 m).
  destruct (inv_s_file s2 m mp1 _ Hi2 Hn2 Hfd1 Hok3) as (Hi3 & Hn3 & Hm3); [done|].
  change (cpath s2 m) with (cpath s1 m) in *. set (s3 := s_file s2 _ _) in *.
  apply wp_bind. eapply wp_get_map; [apply Hn3|]. apply wp_bind, wp_get, wp_put_map.
  set (mp4 := map_set_stamp _ _).
  destruct (inv_s_map s3 m mp1 mp4 Hi3 Hn3) as (Hi4 & Hn4 & Hm4); try done.
  { rewrite Hm3. done. }
  split.
  { etrans; [exact Ho1|]. etrans; [apply only_s_file|].
    etrans; [exact (only_s_file m s2 (fput f1 off bs))|apply only_s_map]. }
  split; [done|]. unfold payload. rewrite Hm4, Hm3. split; [apply Hg1|]. split.
  { rewrite fput_payload by lia. by rewrite (grown_payload _ _ _ Hg1). }
  exists mp4. rewrite Hm4, Hm3. do 4 (split; [done|]).
  rewrite fput_of by lia. unfold HDR. simpl. pose proof (hdr_of_range f1). lia.
Qed.

Lemma stored_lock m off bs s r s' :
  stored m off bs (set_lk s (st_lk s + 1)) r s' → stored m off bs s r (set_lk s' (st_lk s' - 1)).
Proof. intros (Ho & Hi & Hb & Hr). split; [by apply only_lock|]. split; [done|]. by split. Qed.

Lemma stored_nolck m off bs s : inv s → ¬ os_ok → stored m off bs s (Error ERR_NOLCK) s.
Proof. intros. split; [done|]. split; [done|]. split; [by left|done]. Qed.

Lemma wp_map_write s m mp off bs :
  inv s → named s m mp → room (mfile s m) (zlen bs) → 0 ≤ off ≤ hdr_of (mfile s m) →
  wp (bc_map_write m off bs) s (stored m off bs s).
Proof.
  intros. apply wp_locked; [by apply stored_nolck|].
  eapply wp_mono; [by eapply (wp_map_write_ (set_lk s (st_lk s + 1)))|].
  intros r s'. apply stored_lock.
Qed.

Lemma splice_end p bs : splice p (zlen p) bs = p ++ bs.
Proof.
  unfold splice. rewrite Nat2Z.id, take_ge, drop_ge by lia. by rewrite app_nil_r.
Qed.

Lemma wp_map_append s m mp bs :
  inv s → named s m mp → room (mfile s m) (zlen bs) →
  wp (bc_map_append m bs) s (stored m (zlen (payload s m)) bs s).
Proof.
  intros Hi Hn Hroom. apply wp_locked; [by apply stored_nolck|].
  set (s0 := set_lk s _). unfold bc_map_append_.
  eapply wp_bind_spec; [by eapply (wp_map_alloc s0)| |].
  2: { intros e s' (Ho & Hi' & Hg & Hr). apply stored_lock. split; [done|]. split; [done|].
       split; [apply Hg|]. split; [by eapply grown_payload|done]. }
  intros [] s1 (Ho1 & Hi1 & Hg1 & mp1 & Hn1 & Hfd1 & Hh1 & Hsz1 & Hfree).
  apply wp_bind. eapply wp_hdr_get_of; [done..|].
  eapply wp_mono.
  { eapply wp_map_write; [done|done| |]. { split; [lia|by left]. }
    split; [apply hdr_of_range|done]. }
  intros r s' (Ho & Hi' & Hb & Hr). apply stored_lock. split; [by etrans|]. split; [done|].
  split. { destruct Hb as [Hb|[? _]]; [|lia]. unfold bounded. rewrite Hb. apply Hg1. }
  rewrite <-(length_fpayload (mfile s1 m)) in Hr. fold (payload s1 m) in Hr.
  replace (payload s1 m) with (payload s m) in Hr; [done|].
  symmetry. by eapply grown_payload.
Qed.

(** ** [bc_map_trunc], [bc_map_read], [bc_map_close] *)
Lemma wp_map_trunc s m mp len :
  inv s → named s m mp → room (mfile s m) 0 → 0 ≤ len →
  wp (bc_map_trunc m len) s (λ r s', only m s s' ∧ inv s' ∧
    match r with
    | Done _ => payload s' m = take (Z.to_nat len) (payload s m)
    | Error e => payload s' m = payload s m ∧ ¬ os_ok ∧ e < 0
    end).
Proof.
  intros Hi Hn Hroom Hlen. apply wp_locked; [by intros|].
  set (s0 := set_lk s _). unfold bc_map_trunc_.
  eapply wp_bind_spec; [by eapply (wp_map_alloc s0)| |].
  2: { intros e s' (Ho & Hi' & Hg & Hr). split; [by apply only_lock|]. split; [done|].
       split; [by eapply grown_payload|done]. }
  intros [] s1 (Ho1 & Hi1 & Hg1 & mp1 & Hn1 & Hfd1 & Hh1 & Hsz1 & Hfree).
  assert (Hp : payload s1 m = payload s m) by by eapply grown_payload.
  apply wp_bind. eapply wp_hdr_get_of; [done..|].
  pose proof (length_fpayload (mfile s1 m)) as Hl. pose proof (hdr_of_range (mfile s1 m)).
  pose proof (local_file_ok _ _ (Hi1 m)) as Hok1.
  destruct (Z.ltb_spec len (hdr_of (mfile s1 m))).
  - eapply wp_hdr_set_of; [done..|].
    assert (Hok2 : file_ok (fwrite (mfile s1 m) 12 (le_enc 4 len))).
    { apply file_ok_set_of; [done|lia|]. destruct Hok1 as (_&_&_&_&_&?). lia. }
    destruct (inv_s_file s1 m mp1 _ Hi1 Hn1 Hfd1 Hok2) as (Hi2 & Hn2 & Hm2); [done|].
    split; [apply only_lock; etrans; [exact Ho1|apply only_s_file]|]. split; [exact Hi2|].
    rewrite <-Hp. unfold payload at 1. change (mfile (set_lk ?a ?b) m) with (mfile a m).
    rewrite Hm2. unfold payload, fpayload. rewrite hdr_of_set, u32_small by lia.
    rewrite fread_take by lia. rewrite fread_fwrite_out; [done|].
    rewrite length_le_enc. unfold HDR. lia.
  - wp_steps. split; [by apply only_lock|]. split; [done|].
    change (payload (set_lk ?a ?b) m) with (payload a m). rewrite Hp.
    rewrite take_ge; [done|]. rewrite <-Hp. unfold payload. lia.
Qed.

(** A read through [bc_map_read] succeeds exactly when it ends before the
    last payload byte. *)
Lemma wp_map_read s m mp off len :
  inv s → named s m mp → map_fd mp ≠ 0 → map_hdr mp = true → 0 ≤ off → 0 ≤ len →
  off + len < 2 ^ 32 →
  wp (bc_map_read m off len) s (λ r s', only m s s' ∧ inv s' ∧ mfile s' m = mfile s m ∧
    (∃ mp', named s' m mp' ∧ map_fd mp' ≠ 0 ∧ map_hdr mp' = true) ∧
    match r with
    | Done bs => off + len < zlen (payload s m) ∧
                 bs = take (Z.to_nat len) (drop (Z.to_nat off) (payload s m))
    | Error e => e = ERR_INVAL ∧ zlen (payload s m) ≤ off + len ∨ e = ERR_NOLCK ∧ ¬ os_ok
    end).
Proof.
  intros Hi Hn Hfd Hh Hoff Hlen Hb. apply wp_locked.
  { intros. split; [done|]. split; [done|]. split; [done|]. split; [by exists mp|by right]. }
  unfold bc_map_read_. set (s0 := set_lk s (st_lk s + 1)).
  apply wp_bind. eapply (wp_hdr_get_of s0); [done..|].
  rewrite u32_small by lia. unfold payload. rewrite length_fpayload.
  change (mfile s0 m) with (mfile s m).
  destruct (Z.leb_spec (hdr_of (mfile s m)) (off + len)).
  - wp_steps. split; [by apply only_lock|]. split; [done|]. split; [done|].
    split; [by exists mp|by left].
  - pose proof (local_file_ok _ _ (Hi m)) as Hok.
    apply wp_bind. eapply (wp_raw_read s0); [done..| |].
    { change (mfile s0 m) with (mfile s m). destruct Hok as (_&_&_&_&_&?). lia. }
    apply wp_bind. eapply wp_get_map; [apply Hn|]. apply wp_bind, wp_get.
    apply wp_bind, wp_put_map, wp_ret.
    destruct (inv_s_map s0 m mp (map_set_stamp mp (w_time (st_w s0)))) as (Hi1 & Hn1 & Hm1);
      try done. { by apply (inv_open_file _ _ _ Hi Hn Hfd). }
    split; [apply only_lock, only_s_map|]. split; [exact Hi1|]. split; [exact Hm1|].
    split; [eexists; split; [exact Hn1|done]|]. split; [done|]. unfold fpayload. rewrite fread_drop, fread_take by lia.
    change (mfile s0 m) with (mfile s m). f_equal. lia.
Qed.

Definition map_closed (m : mapid) (mp : bc_map_t) (s : st) (r : result unit) (s' : st) : Prop :=
  only m s s' ∧ inv s' ∧ mfile s' m = mfile s m ∧ r = Done tt ∧
  ∃ mp', bc_get_map (st_bc s') m = Some mp' ∧ map_fd mp' = 0 ∧ map_hdr mp' = false ∧
    map_ext mp' = map_ext mp.

Lemma wp_close_put s s1 s2 m mp mp1 :
  only m s s1 → inv s1 → mfile s1 m = mfile s m → named s1 m mp1 →
  map_hdr mp1 = false → map_ext mp1 = map_ext mp →
  only m s1 s2 → st_bc s2 = st_bc s1 → w_files (st_w s2) = w_files (st_w s1) →
  wp (put_map m (BcMap 0 (map_size mp1) (map_stamp mp1) (map_ext mp1) (map_hdr mp1))) s2
    (map_closed m mp s).
Proof.
  intros Ho1 Hi1 Hm1 Hn1 Eh Ee Ho2 Hb2 Hf2. apply wp_put_map. set (mp2 := BcMap _ _ _ _ _).
  assert (Ho3 : only m s1 (s_map s2 m mp2)) by (etrans; [exact Ho2|apply only_s_map]).
  assert (Hg3 : bc_get_map (st_bc (s_map s2 m mp2)) m = Some mp2).
  { apply bc_get_set_map. rewrite Hb2. eexists. apply Hn1. }
  split; [by etrans|]. split.
  - eapply inv_only; [exact Hi1|exact Ho3|]. split.
    + intros f. rewrite (only_cpath _ _ _ _ Ho3). simpl. rewrite Hf2. apply (Hi1 m).
    + intros mp3. rewrite Hg3. intros [= <-]. split; [left; apply Hn1|]. done.
  - split; [|split; [done|by exists mp2]]. rewrite <-Hm1.
    apply mfile_files; [done|apply (only_name _ _ _ Ho3)|apply (only_shtime _ _ _ Ho3)].
Qed.

Lemma wp_map_close s m mp :
  inv s → bc_get_map (st_bc s) m = Some mp → wp (bc_map_close m) s (map_closed m mp s).
Proof.
  intros Hi Hg. unfold bc_map_close, bc_map_free. destruct (Hi m) as [_ Hm].
  destruct (Hm _ Hg) as (He & H0 & Hopen). apply wp_bind, wp_bind.
  eapply wp_get_map; [done|]. destruct (decide (map_fd mp = 0)) as [Hz|Hz].
  { rewrite H0 by done. wp_steps. apply wp_bind. eapply wp_get_map; [done|].
    rewrite Hz. wp_steps. do 4 (split; [done|]). exists mp. auto. }
  assert (Hn : named s m mp) by (split; [done|]; by destruct He as [|[_ ?]]).
  (* the mapping is released first *)
  set (mp1 := BcMap (map_fd mp) 0 (map_stamp mp) (map_ext mp) false).
  assert (Hfree : ∃ s1 mp1, wp (if map_hdr mp then
      put_map m (BcMap (map_fd mp) 0 (map_stamp mp) (map_ext mp) false) else ret tt) s
      (λ r s', r = Done tt ∧ s' = s1) ∧ only m s s1 ∧ inv s1 ∧ mfile s1 m = mfile s m ∧
      named s1 m mp1 ∧ map_fd mp1 = map_fd mp ∧ map_hdr mp1 = false ∧ map_ext mp1 = map_ext mp).
  { destruct (map_hdr mp) eqn:Eh; [|exists s, mp; done].
    destruct (inv_s_map s m mp mp1 Hi Hn Hz) as (Hi1 & Hn1 & Hm1); try done.
    exists (s_map s m mp1), mp1. split; [done|]. split; [apply only_s_map|done]. }
  destruct Hfree as (s1 & mp1' & Hwp & Ho1 & Hi1 & Hm1 & Hn1 & Efd & Eh & Ee).
  eapply wp_mono; [exact Hwp|]. intros ? ? [-> ->]. cbn beta iota.
  apply wp_bind. eapply wp_get_map; [apply Hn1|].
  destruct (Z.eqb_spec (map_fd mp1') 0); [congruence|]. cbn [negb]. apply wp_bind, wp_get.
  assert (0 < map_fd mp) as Hpos by (by destruct (Hopen Hz) as (_ & _ & _ & ?)). rewrite <-Efd in Hpos.
  destruct (release_some max_fd (fd_kind_of (st_w s1) (map_fd mp1')) (map_fd mp1') (w_desc (st_w s1))) as [[dt closed] Ec]; [lia|].
  rewrite Ec. apply wp_bind, wp_modify.
  assert (Hfds1 : w_fds (st_w s1) !! map_fd mp1' = Some (cpath s1 m)) by by eapply inv_open_file.
  destruct closed; unfold sys_close; wp_steps; eapply wp_close_put; try done.
  etrans; [apply only_s_desc|]. by apply (only_s_fds_close m (s_desc s1 dt)).
Qed.
End spec.

#[global] Arguments payload : simpl never.
#[global] Arguments mfile : simpl never.
