(* ===== verification/Crc.v ===== *)
(** * Checksums

    [shcrc] of [depend/share/src/share-lib/share.c] and the [shcrc32] macro of
    [shcrc.h], on a little-endian host. *)

From S2P Require Import Prelude.

Definition MOD_SHCRC : Z := 65521.

(** [htonl] and the [htonll] macro of [shmem.h]. *)
Definition htonl (x : Z) : Z :=
  Z.lor (Z.shiftl (Z.land x 0xFF) 24)
    (Z.lor (Z.shiftl (Z.land (Z.shiftr x 8) 0xFF) 16)
       (Z.lor (Z.shiftl (Z.land (Z.shiftr x 16) 0xFF) 8) (Z.land (Z.shiftr x 24) 0xFF))).
Definition htonll (x : Z) : Z :=
  Z.lor (u64 (Z.shiftl (htonl (Z.land x 0xFFFFFFFF)) 32)) (htonl (u32 (Z.shiftr x 32))).

(** The four running sums of the loop. *)
Record crc_st := Crc { crc_a : Z; crc_b : Z; crc_c : Z; crc_d : Z }.

(** One round: up to four bytes, zero padded, read as a little-endian [int]. *)
Definition crc_round (c : crc_st) (w : list byte) : crc_st :=
  let a := u32 (crc_a c + i32 (le_dec w)) in
  let b := u64 (crc_b c + a) in
  let c' := u32 (crc_c c + match w with [] => 0 | x :: _ => Z_of_byte x end) mod MOD_SHCRC in
  let d := u64 (crc_d c + c') mod MOD_SHCRC in
  Crc a b c' d.

Fixpoint crc_loop (c : crc_st) (l : list byte) : crc_st :=
  match l with
  | [] => c
  | [x] => crc_round c [x]
  | [x; y] => crc_round c [x; y]
  | [x; y; z] => crc_round c [x; y; z]
  | x :: y :: z :: w :: l => crc_loop (crc_round c [x; y; z; w]) l
  end.

Definition shcrc (l : list byte) : Z :=
  let c := crc_loop (Crc 1 0 1 0) l in
  let ret_val := Z.lor (u64 (Z.shiftl (crc_d c) 16)) (crc_c c) in
  let ret_val := u64 (ret_val + Z.lor (u64 (Z.shiftl (crc_b c) 32)) (crc_a c)) in
  htonll ret_val.

Definition shcrc32 (l : list byte) : Z := Z.land (shcrc l) 0xFFFFFFFF.

(** The vectors of the library's own unit tests. *)
Example shcrc_test :
  shcrc (replicate 256 (byte_of_Z 97)) = 9399264675955488567 ∧
  shcrc (<[128%nat := byte_of_Z 98]> (replicate 256 (byte_of_Z 97))) = 9543133578258560823.
Proof. by vm_compute. Qed.
Example shcrc32_test :
  shcrc32 (replicate 256 (byte_of_Z 97)) = 1614034743 ∧
  shcrc32 (<[128%nat := byte_of_Z 98]> (replicate 256 (byte_of_Z 97))) = 2150905655.
Proof. by vm_compute. Qed.

Lemma shcrc32_range l : 0 ≤ shcrc32 l < 2 ^ 32.
Proof. unfold shcrc32. change 0xFFFFFFFF with (Z.ones 32). rewrite Z.land_ones by lia. apply Z.mod_pos_bound. lia. Qed.
