(* ===== verification/Db.v ===== *)
(** * The maps of one database

    The invariant of an open database over the file maps of Fmap.v, and the
    map operations specialised to it, for a process whose system calls
    succeed.  The components above (table, index, archive, journals) are
    verified against these rules. *)

From S2P Require Import Prelude Errors Descriptor Vfs BcState Fmap FmapInv.

(** The longest payload the proofs admit for one map.  It keeps every 32-bit
    computation of the growth code from wrapping. *)
Definition CAP : Z := 2 ^ 29.
(** [BC_TABLE_SIZE * sizeof(bcpos_t)]. *)
Definition TABLEN : Z := 4 * 1048576.

Section db.
Context `{Env}.

(** The size of a file is bounded by its payload. *)
Definition sized (f : file) : Prop := f_size f ≤ 4 * hdr_of f + 2 ^ 24.

Record db_inv (s : st) : Prop := {
  db_base : inv s;
  db_live m mp : bc_get_map (st_bc s) m = Some mp → map_fd mp ≠ 0 → map_hdr mp = true;
  db_sized m : sized (mfile s m);
  db_cap m : hdr_of (mfile s m) ≤ CAP;
  db_tab : map_fd (tab_map (st_bc s)) ≠ 0 → HDR + TABLEN ≤ f_size (mfile s MTab);
}.

(** The map can be accessed through its mapping. *)
Definition isopen (s : st) (m : mapid) : Prop :=
  ∃ mp, named s m mp ∧ map_fd mp ≠ 0 ∧ map_hdr mp = true.

Lemma isopen_only m m' s s' : only m s s' → m' ≠ m → isopen s m' → isopen s' m'.
Proof. intros Ho Hne (mp & Hn & ?). exists mp. split; [by eapply named_only|done]. Qed.

Lemma ready_isopen m len u s : ready m len u s → isopen s m.
Proof. intros (mp & ? & ? & ? & _). by exists mp. Qed.

Lemma hdr_len f : zlen (fpayload f) = hdr_of f.
Proof. apply length_fpayload. Qed.
Lemma payload_len s m : zlen (payload s m) = hdr_of (mfile s m).
Proof. apply length_fpayload. Qed.

Lemma payload_bytes s s' m :
  f_bytes (mfile s' m) = f_bytes (mfile s m) → payload s' m = payload s m.
Proof.
  intros E. unfold payload, fpayload. rewrite (hdr_of_ext _ _ E). apply fread_ext.
  intros. unfold f_get. by rewrite E.
Qed.

Lemma payload_only m m' s s' : only m s s' → m' ≠ m → payload s' m' = payload s m'.
Proof. intros Ho Hne. unfold payload. by rewrite (only_mfile _ _ _ _ Ho). Qed.

Lemma db_room s m len :
  db_inv s → 0 ≤ len ≤ CAP → room (mfile s m) len.
Proof.
  intros Hd Hl. split; [lia|]. right. pose proof (db_sized _ Hd m) as Hs.
  pose proof (db_cap _ Hd m) as Hc. unfold sized, CAP, BC_MAP_BLOCK_SIZE in *.
  pose proof (Z.mul_div_le (f_size (mfile s m) + len) 10 ltac:(lia)). lia.
Qed.

Lemma sized_bounded len f f' :
  sized f → bounded len f f' → hdr_of f ≤ hdr_of f' → 0 ≤ len → len ≤ Z.max (hdr_of f') TABLEN →
  sized f'.
Proof.
  unfold sized, bounded, TABLEN, HDR, BC_MAP_BLOCK_SIZE. intros Hs Hb Ho H0 Hl.
  pose proof (hdr_of_range f). destruct Hb as [->|[Hb1 Hb2]]; [lia|].
  pose proof (Z.mul_div_le (f_size f + len) 10 ltac:(lia)). lia.
Qed.

(** A step on one map that leaves it mapped keeps the invariant of all. *)
Lemma db_only m s s' :
  db_inv s → only m s s' → inv s' → isopen s' m → sized (mfile s' m) →
  hdr_of (mfile s' m) ≤ CAP →
  (m = MTab → HDR + TABLEN ≤ f_size (mfile s' m)) → db_inv s'.
Proof.
  intros Hd Ho Hi (mp & [Hg He] & Hfd & Hh) Hs Hc Ht. split; [done|..].
  - intros m' mp'. destruct (decide (m' = m)) as [->|Hne]; [congruence|].
    rewrite (only_maps _ _ _ Ho) by done. apply (db_live _ Hd).
  - intros m'. destruct (decide (m' = m)) as [->|Hne]; [done|].
    rewrite (only_mfile _ _ _ _ Ho) by done. apply (db_sized _ Hd).
  - intros m'. destruct (decide (m' = m)) as [->|Hne]; [done|].
    rewrite (only_mfile _ _ _ _ Ho) by done. apply (db_cap _ Hd).
  - destruct (decide (m = MTab)) as [->|Hne]; [by intros; apply Ht|].
    rewrite (only_mfile _ _ _ MTab Ho) by done.
    pose proof (only_maps _ _ _ Ho MTab ltac:(done)) as E. simpl in E. injection E as ->.
    apply (db_tab _ Hd).
Qed.

(** Closing a map. *)
Lemma db_only_closed m s s' mp :
  db_inv s → only m s s' → inv s' → mfile s' m = mfile s m →
  bc_get_map (st_bc s') m = Some mp → map_fd mp = 0 → db_inv s'.
Proof.
  intros Hd Ho Hi Hm Hg Hfd. split; [done|..].
  - intros m' mp'. destruct (decide (m' = m)) as [->|Hne]; [congruence|].
    rewrite (only_maps _ _ _ Ho) by done. apply (db_live _ Hd).
  - intros m'. destruct (decide (m' = m)) as [->|Hne]; [rewrite Hm|rewrite (only_mfile _ _ _ _ Ho) by done];
      apply (db_sized _ Hd).
  - intros m'. destruct (decide (m' = m)) as [->|Hne]; [rewrite Hm|rewrite (only_mfile _ _ _ _ Ho) by done];
      apply (db_cap _ Hd).
  - destruct (decide (m = MTab)) as [->|Hne]; [simpl in Hg; congruence|].
    rewrite (only_mfile _ _ _ MTab Ho) by done.
    pose proof (only_maps _ _ _ Ho MTab ltac:(done)) as E. simpl in E. injection E as ->.
    apply (db_tab _ Hd).
Qed.

Lemma db_inv_lk s d : db_inv s → db_inv (set_lk s d).
Proof. intros [? ? ? ? ?]. by split. Qed.

(** What every operation of the database keeps: its name, the lock depth, the
    clocks, and the maps that exist. *)
Record frame (s s' : st) : Prop := {
  fr_name : bc_name (st_bc s') = bc_name (st_bc s);
  fr_lk : st_lk s' = st_lk s;
  fr_time : w_time (st_w s') = w_time (st_w s);
  fr_shtime : w_shtime (st_w s') = w_shtime (st_w s);
}.

#[global] Instance frame_preorder : PreOrder frame.
Proof.
  split; [by split|]. intros s1 s2 s3 [] []. split; congruence.
Qed.

Lemma only_frame m s s' : only m s s' → frame s s'.
Proof. intros Ho. split; apply Ho. Qed.

Lemma frame_lock s s' :
  frame (set_lk s (st_lk s + 1)) s' → frame s (set_lk s' (st_lk s' - 1)).
Proof. intros [? Hlk ? ?]. split; try done. simpl in *. lia. Qed.

(** ** Operations on an open database whose system calls succeed *)
Section ok.
Context (Hok : os_ok).

(** Total correctness without error: the post-condition speaks of the
    returned value. *)
Definition succeeds {A} (op : M A) (s : st) (Q : A → st → Prop) : Prop :=
  wp op s (λ r s', match r with Done a => Q a s' | Error _ => False end).

Lemma su_bind {A B} (op : M A) (k : A → M B) s Q :
  succeeds op s (λ a s', succeeds (k a) s' Q) → succeeds (bind op k) s Q.
Proof. intros Hm. apply wp_bind. eapply wp_mono; [exact Hm|]. by intros [a|e] s'. Qed.

Lemma su_mono {A} (op : M A) s (Q R : A → st → Prop) :
  succeeds op s Q → (∀ a s', Q a s' → R a s') → succeeds op s R.
Proof. intros Hm HQ. eapply wp_mono; [exact Hm|]. intros [a|e] s'; [apply HQ|done]. Qed.

Lemma su_wp {A} (op : M A) s (Q : A → st → Prop) (R : result A → st → Prop) :
  succeeds op s Q → (∀ a s', Q a s' → R (Done a) s') → wp op s R.
Proof. intros Hm HQ. eapply wp_mono; [exact Hm|]. intros [a|e] s'; [apply HQ|done]. Qed.

Lemma wp_bind_su {A B} (op : M A) (k : A → M B) s Q :
  succeeds op s (λ a s', wp (k a) s' Q) → wp (bind op k) s Q.
Proof. intros Hm. apply wp_bind. eapply wp_mono; [exact Hm|]. by intros [a|e] s'. Qed.

(** The locking wrappers, for a precondition and post-condition that do
    not mention the lock depth. *)
Lemma wp_locked_ok {A} (op : M A) s (Q : result A → st → Prop) :
  wp op (set_lk s (st_lk s + 1)) (λ r s', Q r (set_lk s' (st_lk s' - 1))) →
  wp (locked op) s Q.
Proof. intros. by apply wp_locked. Qed.

Lemma su_locked_only {A} m (op : M A) s (P : A → st → Prop) :
  (∀ a s' d, P a s' → P a (set_lk s' d)) →
  succeeds op (set_lk s (st_lk s + 1)) (λ a s',
    only m (set_lk s (st_lk s + 1)) s' ∧ db_inv s' ∧ P a s') →
  succeeds (locked op) s (λ a s', only m s s' ∧ db_inv s' ∧ P a s').
Proof.
  intros HP Hop. apply wp_locked_ok. eapply wp_mono; [exact Hop|].
  intros [a|e] s' Hq; [|done]. destruct Hq as (Ho & Hd & Hp).
  split; [by apply only_lock|]. split; [by apply db_inv_lk|by apply HP].
Qed.

Lemma wp_locked_only {A} m (op : M A) s (P : result A → st → Prop) :
  (∀ r s' d, P r s' → P r (set_lk s' d)) →
  wp op (set_lk s (st_lk s + 1)) (λ r s',
    only m (set_lk s (st_lk s + 1)) s' ∧ db_inv s' ∧ P r s') →
  wp (locked op) s (λ r s', only m s s' ∧ db_inv s' ∧ P r s').
Proof.
  intros HP Hop. apply wp_locked_ok. eapply wp_mono; [exact Hop|].
  intros r s' (Ho & Hd & Hp).
  split; [by apply only_lock|]. split; [by apply db_inv_lk|by apply HP].
Qed.

Lemma wp_locked_frame {A} (op : M A) s (P : result A → st → Prop) :
  (∀ r s' d, P r s' → P r (set_lk s' d)) →
  wp op (set_lk s (st_lk s + 1)) (λ r s',
    frame (set_lk s (st_lk s + 1)) s' ∧ db_inv s' ∧ P r s') →
  wp (locked op) s (λ r s', frame s s' ∧ db_inv s' ∧ P r s').
Proof.
  intros HP Hop. apply wp_locked_ok. eapply wp_mono; [exact Hop|].
  intros r s' (Hf & Hd & Hp).
  split; [by apply frame_lock|]. split; [by apply db_inv_lk|by apply HP].
Qed.

Lemma su_alloc s m mp len :
  db_inv s → named s m mp → 0 ≤ len ≤ TABLEN →
  succeeds (bc_map_alloc m len) s (λ _ s', only m s s' ∧ inv s' ∧
    f_bytes (mfile s' m) = f_bytes (mfile s m) ∧ isopen s' m ∧ sized (mfile s' m) ∧
    hdr_of (mfile s' m) = hdr_of (mfile s m) ∧
    HDR + hdr_of (mfile s m) + len < f_size (mfile s' m)).
Proof.
  intros Hd Hn Hl. eapply wp_mono.
  { eapply wp_map_alloc; [apply Hd|exact Hn|]. apply db_room; [done|].
    unfold TABLEN, CAP in *. lia. }
  intros [a|e] s' (Ho & Hi & Hg & Hr); [|by destruct Hr].
  split; [done|]. split; [done|]. split; [apply Hg|]. split; [by eapply ready_isopen|].
  pose proof (grown_hdr _ _ _ Hg) as Eh. split.
  { eapply sized_bounded; [apply (db_sized _ Hd)|apply Hg|lia|lia|lia]. }
  split; [done|]. destruct Hr as (? & _ & _ & _ & _ & Hf). lia.
Qed.

(** Every alloc with length 0 on a map other than the table. *)
Lemma su_alloc0 s m mp :
  db_inv s → named s m mp → m ≠ MTab →
  succeeds (bc_map_alloc m 0) s (λ _ s', only m s s' ∧ db_inv s' ∧ isopen s' m ∧
    f_bytes (mfile s' m) = f_bytes (mfile s m)).
Proof.
  intros Hd Hn Hne. eapply su_mono; [eapply su_alloc; [done|done|unfold TABLEN; lia]|].
  intros _ s' (Ho & Hi & Hb & Hop & Hs & Eh & _).
  split; [done|]. split; [|done]. eapply db_only; try done. rewrite Eh. apply Hd.
Qed.

Lemma su_write s m mp off bs :
  db_inv s → named s m mp → m ≠ MTab → 0 ≤ off ≤ zlen (payload s m) →
  off + zlen bs ≤ CAP → zlen bs ≤ Z.max (Z.max (zlen (payload s m)) (off + zlen bs)) TABLEN →
  succeeds (bc_map_write m off bs) s (λ _ s', only m s s' ∧ db_inv s' ∧ isopen s' m ∧
    payload s' m = splice (payload s m) off bs).
Proof.
  intros Hd Hn Hne Hoff Hcap Hlen. rewrite payload_len in Hoff, Hlen.
  pose proof (hdr_of_range (mfile s m)) as Hr0. pose proof (db_cap _ Hd m) as Hc0.
  eapply wp_mono.
  { eapply wp_map_write; [apply Hd|exact Hn| |done]. apply db_room; [done|lia]. }
  intros [a|e] s' (Ho & Hi & Hb & Hr); [|by destruct Hr as (_ & ? & _)].
  destruct Hr as [Hp Hrd]. pose proof (length_splice (payload s m) off bs) as Hls.
  rewrite <-Hp, !payload_len in Hls. specialize (Hls ltac:(lia)).
  assert (Hop : isopen s' m) by by eapply ready_isopen.
  split; [done|]. split; [|done]. eapply db_only; try done.
  - eapply sized_bounded; [apply (db_sized _ Hd)|exact Hb|lia..].
  - lia.
Qed.

Lemma su_append s m mp bs :
  db_inv s → named s m mp → m ≠ MTab → zlen (payload s m) + zlen bs ≤ CAP →
  succeeds (bc_map_append m bs) s (λ _ s', only m s s' ∧ db_inv s' ∧ isopen s' m ∧
    payload s' m = payload s m ++ bs).
Proof.
  intros Hd Hn Hne Hcap. rewrite payload_len in Hcap.
  pose proof (hdr_of_range (mfile s m)) as Hr0. pose proof (db_cap _ Hd m) as Hc0.
  eapply wp_mono.
  { eapply wp_map_append; [apply Hd|exact Hn|]. apply db_room; [done|lia]. }
  intros [a|e] s' (Ho & Hi & Hb & Hr); [|by destruct Hr as (_ & ? & _)].
  destruct Hr as [Hp Hrd]. rewrite splice_end in Hp.
  assert (Hls : hdr_of (mfile s' m) = hdr_of (mfile s m) + zlen bs).
  { rewrite <-!payload_len, Hp, length_app. lia. }
  assert (Hop : isopen s' m) by by eapply ready_isopen.
  split; [done|]. split; [|done]. eapply db_only; try done.
  - eapply sized_bounded; [apply (db_sized _ Hd)|exact Hb|lia..].
  - lia.
Qed.

Lemma su_close s m mp :
  db_inv s → bc_get_map (st_bc s) m = Some mp →
  succeeds (bc_map_close m) s (λ _ s', only m s s' ∧ db_inv s' ∧ mfile s' m = mfile s m ∧
    ∃ mp', bc_get_map (st_bc s') m = Some mp' ∧ map_fd mp' = 0).
Proof.
  intros Hd Hg. eapply wp_mono; [by eapply wp_map_close; [apply Hd|]|].
  intros r s' (Ho & Hi & Hm & -> & mp' & Hg' & Hfd & _).
  split; [done|]. split; [by eapply db_only_closed|]. split; [done|by exists mp'].
Qed.
End ok.

(** ** Opening a map by its extension

    The body of [_bc_idx_open], [_bc_table_open] and [_bc_arch_open]. *)
Definition ext_open (m : mapid) (ext : string) (len : Z) : M unit :=
  mp <- get_map m ;;
  if negb (map_fd mp =? 0) then ret tt
  else
    put_map m (map_set_ext mp ext) ;;;
    bc_map_open m ;;;
    bc_map_alloc m len.

Lemma bc_get_fixed s m : (∀ j, m ≠ MData j) → ∃ mp, bc_get_map (st_bc s) m = Some mp.
Proof. intros Hm. destruct m; simpl; eauto. by destruct (Hm jrnl). Qed.

(** Setting the extension of a closed map keeps the invariant. *)
Lemma db_set_ext s m mp :
  db_inv s → bc_get_map (st_bc s) m = Some mp → map_fd mp = 0 →
  let s' := s_map s m (map_set_ext mp (cext m)) in
  db_inv s' ∧ only m s s' ∧ named s' m (map_set_ext mp (cext m)) ∧ mfile s' m = mfile s m.
Proof.
  intros Hd Hg Hfd s'. set (mp' := map_set_ext mp (cext m)).
  assert (Ho : only m s s') by apply only_s_map.
  assert (Hg' : bc_get_map (st_bc s') m = Some mp') by (apply bc_get_set_map; eauto).
  assert (Hm' : mfile s' m = mfile s m) by (apply mfile_files; [done|apply Ho|done]).
  assert (Hi' : inv s').
  { eapply inv_only; [apply Hd|exact Ho|]. destruct (db_base _ Hd m) as [Hf Hm]. split.
    - intros f. rewrite (only_cpath _ _ _ _ Ho). apply Hf.
    - intros mp2. rewrite Hg'. intros [= <-]. split; [by left|]. split; [|done].
      intros _. by apply (Hm _ Hg). }
  split; [by eapply db_only_closed|]. done.
Qed.

Lemma su_ext_open (Hok : os_ok) s m len :
  db_inv s → (∀ j, m ≠ MData j) → 0 ≤ len ≤ TABLEN → (m = MTab → len = TABLEN) →
  succeeds (ext_open m (cext m) len) s (λ _ s', only m s s' ∧ db_inv s' ∧ isopen s' m ∧
    f_bytes (mfile s' m) = f_bytes (mfile s m)).
Proof.
  intros Hd Hm Hl Ht. destruct (bc_get_fixed s m Hm) as [mp Hg].
  unfold ext_open. apply wp_bind. eapply wp_get_map; [done|].
  destruct (Z.eqb_spec (map_fd mp) 0) as [Hfd|Hfd]; cbn [negb].
  2: { apply wp_ret. split; [done|]. split; [done|]. split; [|done]. exists mp. split.
       - split; [done|]. destruct (db_base _ Hd m) as [_ Hi].
         destruct (Hi _ Hg) as ([?|[? ?]] & _); done.
       - split; [done|]. by apply (db_live _ Hd m). }
  apply wp_bind, wp_put_map. destruct (db_set_ext _ _ _ Hd Hg Hfd) as (Hd1 & Ho1 & Hn1 & Hm1).
  set (s1 := s_map s m _) in *. apply wp_bind.
  eapply wp_mono; [by eapply wp_map_open; [apply Hd1|]|].
  intros [a|e] s2 (Ho2 & Hi2 & Hm2 & Hr); [|by destruct Hr].
  destruct Hr as (mp2 & Hn2 & Hfd2 & _). eapply wp_mono.
  { eapply wp_map_alloc; [done|exact Hn2|]. rewrite Hm2. apply db_room; [done|].
    unfold TABLEN, CAP in *. lia. }
  intros [b|e] s3 (Ho3 & Hi3 & Hg3 & Hr3); [|by destruct Hr3].
  assert (Ho : only m s s3) by (etrans; [exact Ho1|]; by etrans).
  pose proof (grown_hdr _ _ _ Hg3) as Eh. rewrite Hm2, Hm1 in *.
  assert (Hop : isopen s3 m) by by eapply ready_isopen.
  split; [done|]. split; [|split; [done|apply Hg3]]. eapply (db_only m s); try done.
  - eapply sized_bounded; [apply (db_sized _ Hd)|apply Hg3|lia..].
  - rewrite Eh. apply Hd.
  - intros ->. destruct Hr3 as (? & _ & _ & _ & _ & Hf). rewrite Ht in Hf by done.
    pose proof (hdr_of_range (mfile s3 MTab)). unfold HDR in *. lia.
Qed.
End db.
