(* ===== verification/Table.v ===== *)
(** * The hash table of record positions

    [src/shioncoin/blockchain/bc_table.c]: a file of 2^20 32-bit positions that
    caches, for each value of a 20-bit digest of a record's hash, the highest
    index position that can hold it. *)

From S2P Require Import Prelude Errors Descriptor Vfs BcState Fmap FmapInv Db.

Definition BC_TABLE_SIZE : Z := 1048576.
Definition BC_TABLE_POS_MASK : Z := 0xFFFFFFF0.
Definition BC_TABLE_NULL_POS : Z := 0xFFFFFFF1.
Definition BC_TABLE_SEARCH_POS : Z := 0.
Definition BC_TABLE_EXTENSION : string := "tmp".

(** [bc_hash_t]: eight 32-bit words. *)
Definition bc_hash_t : Type := list Z.
Definition hash_wf (h : bc_hash_t) : Prop := length h = 8%nat ∧ Forall (λ w, 0 ≤ w < 2 ^ 32) h.

#[global] Instance hash_wf_dec h : Decision (hash_wf h).
Proof. unfold hash_wf. apply _. Defined.

(** [val += p[i]] over the eight words, in 32 bits. *)
Definition bc_table_hash (hash : bc_hash_t) : Z :=
  foldl (λ val p, u32 (val + p)) 0 (take 8 hash) mod BC_TABLE_SIZE.

Lemma bc_table_hash_range h : 0 ≤ bc_table_hash h < BC_TABLE_SIZE.
Proof. apply Z.mod_pos_bound. done. Qed.

(** [memset(raw, 0, size - sizeof(bc_hdr_t))]: the bytes from 16 on. *)
Definition fzero (f : file) (off : Z) : file :=
  File (f_reg f) (f_size f) (filter (λ kv, kv.1 < off) (f_bytes f)).

Lemma f_get_fzero f off a : f_get (fzero f off) a = if decide (a < off) then f_get f a else x00.
Proof.
  unfold f_get, fzero; simpl. rewrite map_lookup_filter.
  destruct (f_bytes f !! a) as [b|]; simpl; [|by case_decide].
  unfold guard. repeat case_decide; simpl in *; try done; lia.
Qed.

Lemma fread_fzero_below f off a n : a + Z.of_nat n ≤ off → fread (fzero f off) a n = fread f a n.
Proof. intros. apply fread_ext. intros. rewrite f_get_fzero. by rewrite decide_True by lia. Qed.

Lemma fread_fzero_above f off a n : off ≤ a → fread (fzero f off) a n = replicate n x00.
Proof.
  intros. unfold fread. apply list_eq. intros i. rewrite list_lookup_fmap.
  destruct (decide (i < n)%nat).
  - rewrite lookup_seq_lt, lookup_replicate_2 by done. simpl.
    rewrite f_get_fzero. by rewrite decide_False by lia.
  - rewrite lookup_seq_ge by lia. rewrite lookup_ge_None_2; [done|]. rewrite length_replicate. lia.
Qed.

Section table.
Context `{Env}.

Definition bc_table_open_ : M unit :=
  ext_open MTab BC_TABLE_EXTENSION (BC_TABLE_SIZE * 4).
Definition bc_table_open : M unit := locked bc_table_open_.

(** The address of the slot of [hash], as an offset into [raw]; null when
    the table is not mapped. *)
Definition bc_table_pos (hash : bc_hash_t) : M (option Z) :=
  mp <- get_map MTab ;;
  ret (if map_hdr mp then Some (4 * bc_table_hash hash) else None).
Definition tab_load (p : Z) : M Z := bs <- raw_read MTab p 4 ;; ret (le_dec bs).
Definition tab_store (p v : Z) : M unit := raw_write MTab p (le_enc 4 v).

(** The out-parameter is written on error paths too, so the error code and the
    value of [*ret_pos] (first [pos0]) are both results. *)
Definition bc_table_get_ (hash : bc_hash_t) (pos0 : Z) : M (Z * Z) :=
  r <- try bc_table_open ;;
  match r with
  | Error e => ret (e, pos0)
  | Done _ =>
     p <- bc_table_pos hash ;;
     match p with
     | None => ret (ERR_INVAL, BC_TABLE_NULL_POS)
     | Some p =>
        v <- tab_load p ;;
        if v =? BC_TABLE_SEARCH_POS then ret (ERR_SRCH, BC_TABLE_NULL_POS)
        else if v =? BC_TABLE_NULL_POS then ret (ERR_NOENT, BC_TABLE_NULL_POS)
        else ret (0, v)
     end
  end.
Definition bc_table_get (hash : bc_hash_t) (pos0 : Z) : M (Z * Z) :=
  l <- bc_lock ;;
  if l then r <- bc_table_get_ hash pos0 ;; bc_unlock ;;; ret r
  else ret (ERR_NOLCK, pos0).

(** The shape of the three writers: open, find the slot, store. *)
Definition bc_table_update (hash : bc_hash_t) (store : Z → M unit) : M unit :=
  bc_table_open ;;;
  p <- bc_table_pos hash ;;
  match p with
  | None => throw ERR_INVAL
  | Some p => store p
  end.

Definition bc_table_set_ (hash : bc_hash_t) (pos : Z) : M unit :=
  if BC_TABLE_POS_MASK <=? pos then throw ERR_INVAL
  else bc_table_update hash (λ p,
    v <- tab_load p ;;
    if (v <? pos) || (BC_TABLE_POS_MASK <=? v) then tab_store p pos else ret tt).
Definition bc_table_set (hash : bc_hash_t) (pos : Z) : M unit :=
  locked (bc_table_set_ hash pos).

Definition bc_table_unset_ (hash : bc_hash_t) : M unit :=
  bc_table_update hash (λ p, tab_store p BC_TABLE_NULL_POS).
Definition bc_table_unset (hash : bc_hash_t) : M unit := locked (bc_table_unset_ hash).

Definition bc_table_reset_ (hash : bc_hash_t) : M unit :=
  bc_table_update hash (λ p, tab_store p BC_TABLE_SEARCH_POS).
Definition bc_table_reset (hash : bc_hash_t) : M unit := locked (bc_table_reset_ hash).

Definition bc_table_close_ : M unit :=
  mp <- get_map MTab ;;
  if negb (map_fd mp =? 0) then bc_map_close MTab else ret tt.
(** [if (bc_lock(bc)) { _op(bc); bc_unlock(bc); }]. *)
Definition if_locked (op : M unit) : M unit :=
  l <- bc_lock ;;
  if l then r <- try op ;; bc_unlock ;;; lift r else ret tt.
Definition bc_table_close : M unit := if_locked bc_table_close_.

Definition bc_table_clear_ : M unit :=
  bc_table_open ;;;
  f <- mapped_file MTab ;;
  p <- path_of MTab ;;
  put_file p (fzero f HDR).
Definition bc_table_clear : M unit := locked bc_table_clear_.

(** ** Specifications *)

(** The entry of slot [k]. *)
Definition tabval (s : st) (k : Z) : Z := le_dec (fread (mfile s MTab) (HDR + 4 * k) 4).

Lemma tabval_range s k : 0 ≤ tabval s k < 2 ^ 32.
Proof.
  unfold tabval. pose proof (le_dec_range (fread (mfile s MTab) (HDR + 4 * k) 4)) as Hr.
  rewrite length_fread in Hr. exact Hr.
Qed.

Lemma tabval_bytes s s' k :
  f_bytes (mfile s' MTab) = f_bytes (mfile s MTab) → tabval s' k = tabval s k.
Proof. intros E. unfold tabval. f_equal. apply fread_ext. intros. unfold f_get. by rewrite E. Qed.

Lemma tabval_only m s s' k : only m s s' → m ≠ MTab → tabval s' k = tabval s k.
Proof. intros Ho Hne. apply tabval_bytes. by rewrite (only_mfile _ _ _ _ Ho). Qed.

Section ok.
Context (Hok : os_ok).

(** [P] holds of the table entries afterwards; nothing else changed. *)
Definition tab_step {A} (P : A → (Z → Z) → Prop) (s : st) (a : A) (s' : st) : Prop :=
  only MTab s s' ∧ db_inv s' ∧ isopen s' MTab ∧ P a (tabval s').

Lemma su_table_open s :
  db_inv s → succeeds bc_table_open s (λ _ s', only MTab s s' ∧ db_inv s' ∧
    isopen s' MTab ∧ ∀ k, tabval s' k = tabval s k).
Proof.
  intros Hd. apply su_locked_only; [done|done|].
  eapply su_mono; [eapply (su_ext_open Hok _ MTab); [by apply db_inv_lk|done|done|done]|].
  intros _ s' (Ho & Hd' & Hop & Hb). do 3 (split; [done|]). intros k. by apply tabval_bytes.
Qed.

Lemma tab_slot_bound s h :
  db_inv s → isopen s MTab →
  HDR + 4 * bc_table_hash h + 4 ≤ f_size (mfile s MTab).
Proof.
  intros Hd (mp & [Hg _] & Hfd & _). simpl in Hg. injection Hg as <-.
  pose proof (db_tab _ Hd Hfd). pose proof (bc_table_hash_range h).
  unfold TABLEN, BC_TABLE_SIZE in *. lia.
Qed.

Lemma su_tab_load s h :
  db_inv s → isopen s MTab →
  succeeds (tab_load (4 * bc_table_hash h)) s (λ v s', s' = s ∧ v = tabval s (bc_table_hash h)).
Proof.
  intros Hd Hop. pose proof (tab_slot_bound s h Hd Hop). destruct Hop as (mp & Hn & Hfd & Hh).
  pose proof (bc_table_hash_range h). unfold tab_load. apply wp_bind.
  eapply wp_raw_read; [apply Hd|done..|lia|lia|]. by apply wp_ret.
Qed.

Lemma su_tab_store s h v :
  db_inv s → isopen s MTab → 0 ≤ v < 2 ^ 32 →
  succeeds (tab_store (4 * bc_table_hash h) v) s (λ _ s',
    only MTab s s' ∧ db_inv s' ∧ isopen s' MTab ∧
    ∀ k, tabval s' k = if decide (k = bc_table_hash h) then v else tabval s k).
Proof.
  intros Hd Hop Hv. pose proof (tab_slot_bound s h Hd Hop) as Hb.
  destruct Hop as (mp & Hn & Hfd & Hh). pose proof (bc_table_hash_range h).
  pose proof (local_file_ok _ _ (db_base _ Hd MTab)) as Hf.
  assert (Hl : zlen (le_enc 4 v) = 4) by by rewrite length_le_enc.
  unfold tab_store. eapply wp_raw_write; [apply Hd|done..|lia|lia|].
  set (f' := fwrite _ _ _). assert (Hf' : file_ok f') by (apply file_ok_fwrite; [done|lia|lia]).
  destruct (inv_s_file s MTab mp f' (db_base _ Hd) Hn Hfd Hf') as (Hi' & Hn' & Hm').
  { intros _. simpl. by apply (inv_open_file _ _ _ (db_base _ Hd) Hn Hfd). }
  set (s' := s_file s _ _) in *. assert (Ho : only MTab s s') by apply only_s_file.
  assert (Hop' : isopen s' MTab) by by exists mp.
  assert (Eh : hdr_of f' = hdr_of (mfile s MTab)) by (apply hdr_of_write; unfold HDR; lia).
  split; [done|]. split.
  { eapply db_only; try done; rewrite Hm'.
    - pose proof (db_sized _ Hd MTab) as Hs. unfold sized in *. rewrite Eh. done.
    - rewrite Eh. apply Hd.
    - intros _. apply (db_tab _ Hd). destruct Hn as [Hg _]. simpl in Hg. congruence. }
  split; [done|]. intros k. unfold tabval. rewrite Hm'. unfold f'. case_decide as Hk.
  - subst k. pose proof (fread_fwrite_same (mfile s MTab) (HDR + 4 * bc_table_hash h) (le_enc 4 v)) as E.
    rewrite length_le_enc in E. rewrite E, le_dec_enc. by apply Z.mod_small.
  - rewrite fread_fwrite_out; [done|]. rewrite Hl. lia.
Qed.

Lemma su_table_pos s h :
  isopen s MTab →
  succeeds (bc_table_pos h) s (λ p s', s' = s ∧ p = Some (4 * bc_table_hash h)).
Proof.
  intros (mp & [Hg _] & _ & Hh). unfold bc_table_pos. apply wp_bind.
  eapply wp_get_map; [done|]. rewrite Hh. by apply wp_ret.
Qed.

(** A writer whose store satisfies [P]. *)
Lemma su_table_update s h store v :
  db_inv s →
  (∀ s1, db_inv s1 → isopen s1 MTab → (∀ k, tabval s1 k = tabval s k) →
    succeeds (store (4 * bc_table_hash h)) s1 (λ _ s', only MTab s1 s' ∧ db_inv s' ∧
      isopen s' MTab ∧
      ∀ k, tabval s' k = if decide (k = bc_table_hash h) then v else tabval s1 k)) →
  succeeds (bc_table_update h store) s (λ _ s', only MTab s s' ∧ db_inv s' ∧ isopen s' MTab ∧
    ∀ k, tabval s' k = if decide (k = bc_table_hash h) then v else tabval s k).
Proof.
  intros Hd Hst. unfold bc_table_update. apply su_bind.
  eapply su_mono; [by apply su_table_open|]. intros _ s1 (Ho1 & Hd1 & Hop1 & Ht1).
  apply su_bind. eapply su_mono; [by apply su_table_pos|]. intros ? ? [-> ->].
  eapply su_mono; [by apply Hst|]. intros _ s2 (Ho2 & Hd2 & Hop2 & Ht2).
  split; [by etrans|]. do 2 (split; [done|]). intros k. by rewrite Ht2, Ht1.
Qed.

Lemma su_table_reset s h :
  db_inv s → succeeds (bc_table_reset h) s (λ _ s', only MTab s s' ∧ db_inv s' ∧ isopen s' MTab ∧
    ∀ k, tabval s' k = if decide (k = bc_table_hash h) then BC_TABLE_SEARCH_POS else tabval s k).
Proof.
  intros Hd. apply su_locked_only; [done|done|].
  apply (su_table_update (set_lk s (st_lk s + 1)) h _ BC_TABLE_SEARCH_POS); [by apply db_inv_lk|].
  intros. by apply su_tab_store.
Qed.

Lemma su_table_unset s h :
  db_inv s → succeeds (bc_table_unset h) s (λ _ s', only MTab s s' ∧ db_inv s' ∧ isopen s' MTab ∧
    ∀ k, tabval s' k = if decide (k = bc_table_hash h) then BC_TABLE_NULL_POS else tabval s k).
Proof.
  intros Hd. apply su_locked_only; [done|done|].
  apply (su_table_update (set_lk s (st_lk s + 1)) h _ BC_TABLE_NULL_POS); [by apply db_inv_lk|].
  intros. by apply su_tab_store.
Qed.

(** The entry a [bc_table_set] leaves: the highest position so far. *)
Definition tab_raise (v pos : Z) : Z :=
  if (v <? pos) || (BC_TABLE_POS_MASK <=? v) then pos else v.

Lemma su_table_set s h pos :
  db_inv s → 0 ≤ pos < BC_TABLE_POS_MASK →
  succeeds (bc_table_set h pos) s (λ _ s', only MTab s s' ∧ db_inv s' ∧ isopen s' MTab ∧
    ∀ k, tabval s' k = if decide (k = bc_table_hash h)
                       then tab_raise (tabval s k) pos else tabval s k).
Proof.
  intros Hd Hp. apply su_locked_only; [done|done|]. unfold bc_table_set_.
  destruct (Z.leb_spec BC_TABLE_POS_MASK pos); [lia|].
  eapply su_mono; [eapply (su_table_update _ _ _ (tab_raise (tabval s (bc_table_hash h)) pos));
    [by apply db_inv_lk|]|].
  - intros s1 Hd1 Hop1 Ht1. apply su_bind. eapply su_mono; [by apply su_tab_load|].
    intros v ? [-> ->]. rewrite Ht1. change (tabval (set_lk s ?d)) with (tabval s).
    unfold tab_raise. destruct (_ || _).
    + apply su_tab_store; [done|done|]. unfold BC_TABLE_POS_MASK in *. lia.
    + apply wp_ret. split; [done|]. do 2 (split; [done|]). intros k.
      case_decide; [|done]. subst k. apply Ht1.
  - intros _ s' (? & ? & ? & Ht). do 3 (split; [done|]). intros k. rewrite Ht.
    case_decide; [by subst k|done].
Qed.

(** [bc_table_get] reports the entry. *)
Definition tab_answer (v : Z) : Z * Z :=
  if v =? BC_TABLE_SEARCH_POS then (ERR_SRCH, BC_TABLE_NULL_POS)
  else if v =? BC_TABLE_NULL_POS then (ERR_NOENT, BC_TABLE_NULL_POS)
  else (0, v).

Lemma su_table_get s h pos0 :
  db_inv s → succeeds (bc_table_get h pos0) s (λ r s', only MTab s s' ∧ db_inv s' ∧ isopen s' MTab ∧
    (∀ k, tabval s' k = tabval s k) ∧ r = tab_answer (tabval s (bc_table_hash h))).
Proof.
  intros Hd. unfold bc_table_get. apply wp_bind. unfold wp at 1, bc_lock. rewrite Hok.
  set (s0 := set_lk s _). apply su_bind. unfold bc_table_get_. apply wp_bind, wp_try.
  eapply su_wp; [apply (su_table_open s0); by apply db_inv_lk|].
  intros _ s1 (Ho1 & Hd1 & Hop1 & Ht1). apply su_bind.
  eapply su_mono; [by apply su_table_pos|]. intros ? ? [-> ->]. apply su_bind.
  eapply su_mono; [by apply su_tab_load|]. intros v ? [-> ->]. rewrite Ht1.
  change (tabval s0) with (tabval s) in *.
  assert (Hend : ∀ r, r = tab_answer (tabval s (bc_table_hash h)) →
    succeeds (bc_unlock ;;; ret r) s1 (λ r s', only MTab s s' ∧ db_inv s' ∧ isopen s' MTab ∧
    (∀ k, tabval s' k = tabval s k) ∧ r = tab_answer (tabval s (bc_table_hash h)))).
  { intros r ->. unfold bc_unlock. apply wp_bind, wp_modify, wp_ret.
    split; [by apply only_lock|]. split; [by apply db_inv_lk|]. done. }
  destruct (tabval s (bc_table_hash h) =? BC_TABLE_SEARCH_POS) eqn:E1;
    [|destruct (tabval s (bc_table_hash h) =? BC_TABLE_NULL_POS) eqn:E2];
    apply wp_ret; apply Hend; unfold tab_answer; rewrite ?E1, ?E2; done.
Qed.

Lemma file_ok_fzero f : file_ok f → file_ok (fzero f HDR) ∧ hdr_of (fzero f HDR) = hdr_of f.
Proof.
  intros (Hr & Hv & Ht & Hs & Hdv & Ho).
  assert (Eo : hdr_of (fzero f HDR) = hdr_of f) by (unfold hdr_of; by rewrite fread_fzero_below).
  split; [|done]. split; [done|]. split.
  { unfold hdr_valid, hdr_magic in *. by rewrite fread_fzero_below. }
  split. { intros a [b Hb]. simpl in Hb. apply map_lookup_filter_Some in Hb as [Hb _]. apply Ht. eauto. }
  split; [done|]. split; [done|]. by rewrite Eo.
Qed.

Lemma su_table_clear s :
  db_inv s → succeeds bc_table_clear s (λ _ s', only MTab s s' ∧ db_inv s' ∧ isopen s' MTab ∧
    ∀ k, 0 ≤ k → tabval s' k = BC_TABLE_SEARCH_POS).
Proof.
  intros Hd. apply su_locked_only; [done|done|]. unfold bc_table_clear_. apply su_bind.
  eapply su_mono; [apply su_table_open; by apply db_inv_lk|].
  intros _ s1 (Ho1 & Hd1 & (mp & Hn & Hfd & Hh) & _). apply wp_bind.
  eapply wp_mapped_file; [apply Hd1|done..|]. apply wp_bind.
  eapply wp_path_of; [apply Hn|apply Hn|]. apply wp_put_file.
  destruct (file_ok_fzero _ (local_file_ok _ _ (db_base _ Hd1 MTab))) as [Hf' Eh].
  set (f' := fzero _ _) in *.
  destruct (inv_s_file s1 MTab mp f' (db_base _ Hd1) Hn Hfd Hf') as (Hi' & Hn' & Hm').
  { intros _. simpl. by apply (inv_open_file _ _ _ (db_base _ Hd1) Hn Hfd). }
  set (s' := s_file s1 _ _) in *. assert (Ho : only MTab s1 s') by apply only_s_file.
  split; [by etrans|]. split.
  { eapply (db_only MTab s1); try done; rewrite ?Hm'; [by exists mp| | |].
    - pose proof (db_sized _ Hd1 MTab) as Hs. unfold sized in *. rewrite Eh. done.
    - rewrite Eh. apply Hd1.
    - intros _. apply (db_tab _ Hd1). destruct Hn as [Hg _]. simpl in Hg. congruence. }
  split; [by exists mp|]. intros k Hk. unfold tabval. rewrite Hm'. unfold f'.
  rewrite fread_fzero_above; [done|]. unfold HDR. lia.
Qed.

Lemma su_if_locked m op s (P : st → Prop) :
  (∀ s' d, P s' → P (set_lk s' d)) →
  succeeds op (set_lk s (st_lk s + 1)) (λ _ s',
    only m (set_lk s (st_lk s + 1)) s' ∧ db_inv s' ∧ P s') →
  succeeds (if_locked op) s (λ _ s', only m s s' ∧ db_inv s' ∧ P s').
Proof.
  intros HP Hop. unfold if_locked. apply wp_bind. unfold wp at 1, bc_lock. rewrite Hok.
  apply wp_bind, wp_try. eapply su_wp; [exact Hop|]. intros [] s' (Ho & Hd & Hp).
  unfold bc_unlock. wp_steps. split; [by apply only_lock|]. split; [by apply db_inv_lk|by apply HP].
Qed.

(** The body shared by the three [_bc_*_close]. *)
Lemma su_close_if s m :
  db_inv s → (∀ j, m ≠ MData j) →
  succeeds (mp <- get_map m ;; if negb (map_fd mp =? 0) then bc_map_close m else ret tt) s
    (λ _ s', only m s s' ∧ db_inv s' ∧ mfile s' m = mfile s m ∧
      ∃ mp, bc_get_map (st_bc s') m = Some mp ∧ map_fd mp = 0).
Proof.
  intros Hd Hm. destruct (bc_get_fixed s m Hm) as [mp Hg]. apply wp_bind.
  eapply wp_get_map; [done|]. destruct (Z.eqb_spec (map_fd mp) 0); cbn [negb].
  - apply wp_ret. split; [done|]. split; [done|]. split; [done|by exists mp].
  - by eapply su_close.
Qed.

Lemma su_table_close s :
  db_inv s → succeeds bc_table_close s (λ _ s', only MTab s s' ∧ db_inv s' ∧
    mfile s' MTab = mfile s MTab ∧ map_fd (tab_map (st_bc s')) = 0).
Proof.
  intros Hd. apply su_if_locked; [done|].
  eapply su_mono; [apply su_close_if; [by apply db_inv_lk|done]|].
  intros _ s' (Ho & Hd' & Hm & mp & Hg & Hfd). do 3 (split; [done|]).
  simpl in Hg. congruence.
Qed.
End ok.
End table.
