(* ===== verification/Index.v ===== *)
(** * The record index

    [src/shioncoin/blockchain/bc_index.c]: an array of 64-byte records in the
    "idx" map, searched by hash from the end with the help of the table. *)

From S2P Require Import Prelude Errors Descriptor Vfs BcState Fmap FmapInv Db Table Crc.

(** ** [bc_idx_t] *)
Record bc_idx_t := BcIdx {
  idx_jrnl : Z; idx_of : Z; idx_size : Z; idx_crc : Z;
  idx_reserved_0 : Z; idx_reserved_1 : Z;
  idx_hash : bc_hash_t;
}.

#[global] Instance bc_idx_eq_dec : EqDecision bc_idx_t.
Proof. solve_decision. Defined.

(** [sizeof(bc_idx_t)]. *)
Definition IDX : Z := 64.
Definition blank_idx : bc_idx_t := BcIdx 0 0 0 0 0 0 (replicate 8 0).

Definition idx_enc (x : bc_idx_t) : list byte :=
  le_enc 4 (idx_jrnl x) ++ le_enc 4 (idx_of x) ++ le_enc 4 (idx_size x) ++ le_enc 4 (idx_crc x) ++
  le_enc 8 (idx_reserved_0 x) ++ le_enc 8 (idx_reserved_1 x) ++
  mjoin (le_enc 4 <$> idx_hash x).

Fixpoint words (n : nat) (l : list byte) : list Z :=
  match n with
  | O => []
  | S n => le_dec (take 4 l) :: words n (drop 4 l)
  end.
Definition idx_dec (l : list byte) : bc_idx_t :=
  BcIdx (le_dec (take 4 l)) (le_dec (take 4 (drop 4 l))) (le_dec (take 4 (drop 8 l)))
    (le_dec (take 4 (drop 12 l))) (le_dec (take 8 (drop 16 l))) (le_dec (take 8 (drop 24 l)))
    (words 8 (drop 32 l)).

Definition idx_wf (x : bc_idx_t) : Prop :=
  (0 ≤ idx_jrnl x < 2 ^ 32) ∧ (0 ≤ idx_of x < 2 ^ 32) ∧ (0 ≤ idx_size x < 2 ^ 32) ∧
  (0 ≤ idx_crc x < 2 ^ 32) ∧ (0 ≤ idx_reserved_0 x < 2 ^ 64) ∧ (0 ≤ idx_reserved_1 x < 2 ^ 64) ∧
  hash_wf (idx_hash x).

#[global] Instance idx_wf_dec x : Decision (idx_wf x).
Proof. unfold idx_wf. apply _. Defined.

Lemma length_words_enc h : length (mjoin (le_enc 4 <$> h)) = (4 * length h)%nat.
Proof.
  induction h as [|w h IH]; [done|]. rewrite fmap_cons. cbn [mjoin list_join].
  rewrite length_app, length_le_enc. cbn [length]. unfold mjoin in *. lia.
Qed.

Lemma length_idx_enc x : length (idx_hash x) = 8%nat → length (idx_enc x) = 64%nat.
Proof. intros Hl. unfold idx_enc. rewrite !length_app, !length_le_enc, length_words_enc, Hl. done. Qed.

Lemma words_enc h :
  Forall (λ w, 0 ≤ w < 2 ^ 32) h → words (length h) (mjoin (le_enc 4 <$> h)) = h.
Proof.
  induction 1 as [|w h Hw Hh IH]; [done|]. rewrite fmap_cons. cbn [length words mjoin list_join].
  rewrite take_app_length' by by rewrite length_le_enc.
  rewrite drop_app_length' by by rewrite length_le_enc.
  rewrite le_dec_enc, Z.mod_small by done. f_equal. exact IH.
Qed.

(** Field access in a concatenation. *)
Lemma take_le_enc n z l : take n (le_enc n z ++ l) = le_enc n z.
Proof. apply take_app_length'. by rewrite length_le_enc. Qed.
Lemma drop_le_enc n k z l : drop (n + k) (le_enc n z ++ l) = drop k l.
Proof. rewrite <-drop_drop. f_equal. apply drop_app_length'. by rewrite length_le_enc. Qed.

(** Storing a record and reading it back. *)
Lemma idx_dec_enc x : idx_wf x → idx_dec (idx_enc x) = x.
Proof.
  destruct x as [j o sz c r0 r1 h]. intros (? & ? & ? & ? & ? & ? & Hl & Hw); simpl in *.
  unfold idx_dec, idx_enc; cbn [idx_jrnl idx_of idx_size idx_crc idx_reserved_0 idx_reserved_1 idx_hash].
  f_equal.
  - rewrite take_le_enc, le_dec_enc. by apply Z.mod_small.
  - rewrite (drop_le_enc 4 0), drop_0, take_le_enc, le_dec_enc. by apply Z.mod_small.
  - rewrite (drop_le_enc 4 4), (drop_le_enc 4 0), drop_0, take_le_enc, le_dec_enc. by apply Z.mod_small.
  - rewrite (drop_le_enc 4 8), (drop_le_enc 4 4), (drop_le_enc 4 0), drop_0, take_le_enc, le_dec_enc.
    by apply Z.mod_small.
  - rewrite (drop_le_enc 4 12), (drop_le_enc 4 8), (drop_le_enc 4 4), (drop_le_enc 4 0), drop_0.
    rewrite take_le_enc, le_dec_enc. by apply Z.mod_small.
  - rewrite (drop_le_enc 4 20), (drop_le_enc 4 16), (drop_le_enc 4 12), (drop_le_enc 4 8), (drop_le_enc 8 0), drop_0.
    rewrite take_le_enc, le_dec_enc. by apply Z.mod_small.
  - rewrite (drop_le_enc 4 28), (drop_le_enc 4 24), (drop_le_enc 4 20), (drop_le_enc 4 16), (drop_le_enc 8 8), (drop_le_enc 8 0), drop_0.
    rewrite <-Hl. by apply words_enc.
Qed.

(** ** Record arrays *)
Definition rec_at (p : list byte) (i : nat) : bc_idx_t := idx_dec (take 64 (drop (64 * i) p)).
Definition recs (p : list byte) : list bc_idx_t := rec_at p <$> seq 0 (length p / 64).

Lemma length_recs p : length (recs p) = (length p / 64)%nat.
Proof. unfold recs. by rewrite length_fmap, length_seq. Qed.

Lemma recs_lookup p i :
  recs p !! i = if decide (i < length p / 64)%nat then Some (rec_at p i) else None.
Proof.
  unfold recs. rewrite list_lookup_fmap. case_decide.
  - by rewrite lookup_seq_lt.
  - by rewrite lookup_seq_ge by lia.
Qed.

Lemma splice_chunk p off bs k :
  0 ≤ off ≤ zlen p → (64 * k + 64 ≤ length p)%nat →
  Z.of_nat (64 * k + 64) ≤ off ∨ off + zlen bs ≤ Z.of_nat (64 * k) →
  take 64 (drop (64 * k) (splice p off bs)) = take 64 (drop (64 * k) p).
Proof.
  intros Hoff Hk Hdis. unfold splice. destruct Hdis.
  - rewrite drop_app_le by (rewrite length_take; lia).
    rewrite take_app_le by (rewrite length_drop, length_take; lia).
    by rewrite !take_drop_commute, take_take, Nat.min_l by lia.
  - rewrite app_assoc, drop_app_ge by (rewrite length_app, length_take; lia).
    f_equal. rewrite length_app, length_take, drop_drop. f_equal. lia.
Qed.

Lemma splice_same p off bs :
  0 ≤ off ≤ zlen p → take (length bs) (drop (Z.to_nat off) (splice p off bs)) = bs.
Proof.
  intros Hoff. unfold splice. rewrite drop_app_length' by (rewrite length_take; lia).
  by rewrite take_app_length.
Qed.

(** Writing record [k] of an array of whole records. *)
Lemma recs_splice p k x :
  (64 | zlen p) → (k ≤ length p / 64)%nat → idx_wf x →
  recs (splice p (Z.of_nat (64 * k)) (idx_enc x)) =
    if decide (k < length p / 64)%nat then <[k := x]> (recs p) else recs p ++ [x].
Proof.
  intros [n Hn] Hk Hx.
  assert (Hlen : length p = (64 * (length p / 64))%nat).
  { assert (length p = Z.to_nat n * 64)%nat as -> by lia. rewrite Nat.div_mul by lia. lia. }
  set (N := (length p / 64)%nat) in *.
  pose proof (length_idx_enc x ltac:(apply Hx)) as Hl.
  pose proof (length_splice p (Z.of_nat (64 * k)) (idx_enc x) ltac:(lia)) as Hs.
  assert (HN : (length (splice p (Z.of_nat (64 * k)) (idx_enc x)) / 64 = Nat.max N (k + 1))%nat).
  { replace (length (splice p (Z.of_nat (64 * k)) (idx_enc x))) with (Nat.max N (k + 1) * 64)%nat by lia.
    by apply Nat.div_mul. }
  assert (Hat : ∀ i, (i < Nat.max N (k + 1))%nat →
    rec_at (splice p (Z.of_nat (64 * k)) (idx_enc x)) i = if decide (i = k) then x else rec_at p i).
  { intros i Hi. unfold rec_at. case_decide.
    - subst i. pose proof (splice_same p (Z.of_nat (64 * k)) (idx_enc x) ltac:(lia)) as E.
      rewrite Hl, Nat2Z.id in E. rewrite E. by apply idx_dec_enc.
    - rewrite splice_chunk; [done|lia|lia|lia]. }
  apply list_eq. intros i. rewrite recs_lookup, HN. case_decide as Hi.
  - rewrite Hat by done. case_decide as Hik; case_decide as Hkn.
    + subst. by rewrite list_lookup_insert_eq by (rewrite length_recs; done).
    + subst. rewrite lookup_app_r by (rewrite length_recs; lia). rewrite length_recs.
      by replace (k - length p / 64)%nat with 0%nat by lia.
    + rewrite list_lookup_insert_ne by done. rewrite recs_lookup, decide_True by lia. done.
    + rewrite lookup_app_l by (rewrite length_recs; fold N; lia).
      rewrite recs_lookup, decide_True by (fold N; lia). done.
  - symmetry. apply lookup_ge_None_2. case_decide.
    + rewrite length_insert, length_recs. fold N. lia.
    + rewrite length_app, length_recs. fold N. simpl. lia.
Qed.

#[global] Arguments recs : simpl never.
#[global] Arguments idx_enc : simpl never.

(** ** [bc_index.c] *)
Definition BC_INDEX_EXTENSION : string := "idx".

(** [memcmp] of the eight words. *)
Definition bc_hash_cmp (a b : bc_hash_t) : bool := bool_decide (take 8 a = take 8 b).

Definition bc_idx_crc (hash : bc_hash_t) : Z := u32 (shcrc (mjoin (le_enc 4 <$> take 8 hash))).

Section index.
Context `{Env}.

(** [((bc_idx_t * )map->raw)[i]]. *)
Definition idx_load (m : mapid) (i : Z) : M bc_idx_t :=
  bs <- raw_read m (IDX * i) 64 ;; ret (idx_dec bs).
(** [map->hdr->of / sizeof(bc_idx_t)]. *)
Definition idx_count (m : mapid) : M Z := hof <- hdr_get_of m ;; ret (hof / IDX).

Definition bc_idx_open_ : M unit := ext_open MIdx BC_INDEX_EXTENSION 0.
Definition bc_idx_open : M unit := locked bc_idx_open_.

Definition bc_idx_close_ : M unit :=
  mp <- get_map MIdx ;;
  if negb (map_fd mp =? 0) then bc_map_close MIdx else ret tt.
Definition bc_idx_close : M unit := if_locked bc_idx_close_.

(** [for (i = n - 1; i >= 0; i--)]: the values of [i] and [pos_high] when the
    loop is left. *)
Fixpoint find_loop (hash : bc_hash_t) (tab_hash : Z) (n : nat) (pos_high : Z) : M (Z * Z) :=
  match n with
  | O => ret (-1, pos_high)
  | S i =>
     x <- idx_load MIdx (Z.of_nat i) ;;
     if idx_size x =? 0 then find_loop hash tab_hash i pos_high
     else
       let pos_high := if (pos_high <? Z.of_nat i) && (bc_table_hash (idx_hash x) =? tab_hash)
                       then Z.of_nat i else pos_high in
       if bc_hash_cmp hash (idx_hash x) then ret (Z.of_nat i, pos_high)
       else find_loop hash tab_hash i pos_high
  end.

(** [_bc_idx_find] from [bc_idx_open] on: [pos] is what the table returned. *)
Definition bc_idx_scan (hash : bc_hash_t) (pos pos_high : Z) : M (bc_idx_t * Z) :=
  bc_idx_open ;;;
  n <- idx_count MIdx ;;
  let len := u32 (n - 1) in
  let pos_high := if len <? u32 pos_high then -1 else pos_high in
  let len := if negb (pos_high =? -1) then u32 pos_high else len in
  r <- find_loop hash (bc_table_hash hash) (Z.to_nat (i32 len + 1)) pos_high ;;
  let '(i, pos_high) := r : Z * Z in
  (if negb (pos_high =? -1) then
     if negb (pos =? u64 pos_high)
     then try (bc_table_set hash (u32 pos_high)) ;;; ret tt
     else ret tt
   else if i <? 0 then try (bc_table_unset hash) ;;; ret tt
   else ret tt) ;;;
  if i <? 0 then throw ERR_NOENT
  else x <- idx_load MIdx i ;; ret (x, i).

Definition bc_idx_find_ (hash : bc_hash_t) : M (bc_idx_t * Z) :=
  r <- bc_table_get hash 0 ;;
  let '(err, pos) := r : Z * Z in
  if err =? ERR_NOENT then throw ERR_NOENT
  else bc_idx_scan hash pos (if err =? 0 then i32 pos else -1).
Definition bc_idx_find (hash : bc_hash_t) : M (bc_idx_t * Z) := locked (bc_idx_find_ hash).

(** The body shared by [_bc_idx_get] and [_bc_arch_get] after the open. *)
Definition rec_get (m : mapid) (pos : Z) : M bc_idx_t :=
  n <- idx_count m ;;
  if n <=? pos then throw ERR_NOENT
  else
    x <- idx_load m pos ;;
    if idx_size x =? 0 then throw ERR_NOENT else ret x.

Definition bc_idx_get_ (pos : Z) : M bc_idx_t := bc_idx_open ;;; rec_get MIdx pos.
Definition bc_idx_get (pos : Z) : M bc_idx_t := locked (bc_idx_get_ pos).

(** The store shared by [_bc_idx_set] and [_bc_arch_set] after the open;
    [found] is the result of the look-up of [pos]. *)
Definition rec_set (m : mapid) (pos : Z) (x : bc_idx_t) (found : result bc_idx_t) : M unit :=
  if (match found with Error e => negb (e =? ERR_NOENT) | Done _ => true end) then throw ERR_EXIST
  else
    let off := u32 (pos * IDX) in
    n <- idx_count m ;;
    mp <- get_map m ;;
    (if (n <=? pos) && (map_size mp <? off + IDX)
     then bc_map_alloc m (u32 (off + IDX - map_size mp)) else ret tt) ;;;
    bc_map_write m off (idx_enc x).

Definition bc_idx_set_ (pos : Z) (idx : bc_idx_t) : M unit :=
  bc_idx_open ;;;
  r <- try (bc_idx_get pos) ;;
  rec_set MIdx pos idx r ;;;
  try (bc_table_reset (idx_hash idx)) ;;;
  ret tt.
Definition bc_idx_set (pos : Z) (idx : bc_idx_t) : M unit := locked (bc_idx_set_ pos idx).

Definition bc_idx_reset_ (pos : Z) (idx : bc_idx_t) : M unit :=
  bc_idx_open ;;;
  r <- try (bc_idx_get pos) ;;
  match r with
  | Error _ => throw ERR_NOENT
  | Done _ =>
     let off := u32 (pos * IDX) in
     n <- idx_count MIdx ;;
     mp <- get_map MIdx ;;
     if (n <=? pos) || (map_size mp <? off + IDX) then throw ERR_IO
     else bc_map_write MIdx off (idx_enc idx)
  end.
Definition bc_idx_reset (pos : Z) (idx : bc_idx_t) : M unit := locked (bc_idx_reset_ pos idx).

Definition bc_idx_clear_ (pos : Z) : M unit :=
  bc_idx_open ;;;
  let off := u32 (pos * IDX) in
  n <- idx_count MIdx ;;
  mp <- get_map MIdx ;;
  if (n <=? pos) && (map_size mp <? off + IDX) then ret tt
  else bc_map_write MIdx off (idx_enc blank_idx).
Definition bc_idx_clear (pos : Z) : M unit := locked (bc_idx_clear_ pos).

Definition bc_idx_next : M Z := bc_idx_open ;;; idx_count MIdx.
End index.
