(* ===== verification/IndexInv.v ===== *)
(** * Record index: specifications

    What each operation of Index.v does to the array of records, and the
    invariant that makes the table a sound cache for the search. *)

From S2P Require Import Prelude Errors Descriptor Vfs BcState Fmap FmapInv Db Table Crc Index.

(** ** Searching an array from the end *)
Fixpoint last_idx {A} (P : A → bool) (l : list A) (n : nat) : option nat :=
  match n with
  | O => None
  | S i => match l !! i with
           | Some x => if P x then Some i else last_idx P l i
           | None => last_idx P l i
           end
  end.

Lemma last_idx_Some {A} (P : A → bool) l n i :
  last_idx P l n = Some i →
  (i < n)%nat ∧ (∃ x, l !! i = Some x ∧ P x = true) ∧
  ∀ j x, (i < j < n)%nat → l !! j = Some x → P x = false.
Proof.
  induction n as [|n IH]; [done|]. cbn [last_idx]. intros E.
  assert (Hrec : last_idx P l n = Some i → (∀ x, l !! n = Some x → P x = false) →
    (i < S n)%nat ∧ (∃ x, l !! i = Some x ∧ P x = true) ∧
    ∀ j x, (i < j < S n)%nat → l !! j = Some x → P x = false).
  { intros E' Hn. destruct (IH E') as (? & ? & Hj). split; [lia|]. split; [done|].
    intros j x Hjn Hx. destruct (decide (j = n)) as [->|]; [by apply Hn|]. eapply Hj; [|done]. lia. }
  destruct (l !! n) as [x|] eqn:En; [|by apply Hrec].
  destruct (P x) eqn:Ep; [|apply Hrec; [done|congruence]].
  injection E as <-. split; [lia|]. split; [by exists x|]. intros j y Hj. lia.
Qed.

Lemma last_idx_None {A} (P : A → bool) l n :
  last_idx P l n = None ↔ ∀ j x, (j < n)%nat → l !! j = Some x → P x = false.
Proof.
  induction n as [|n IH]; cbn [last_idx]; [split; [lia|done]|]. split.
  - intros E j x Hj Hx. destruct (l !! n) as [y|] eqn:En.
    + destruct (P y) eqn:Ey; [done|]. destruct (decide (j = n)) as [->|]; [congruence|].
      apply (proj1 IH E j); [lia|done].
    + destruct (decide (j = n)) as [->|]; [congruence|]. apply (proj1 IH E j); [lia|done].
  - intros Hall. assert (last_idx P l n = None) as -> by (apply IH; intros; eapply Hall; [|done]; lia).
    destruct (l !! n) as [y|] eqn:En; [|done]. by rewrite (Hall n y) by (done || lia).
Qed.

(** ** What the operations mean *)

(** The answer to a request for record [pos]. *)
Definition rec_result (l : list bc_idx_t) (pos : Z) : result bc_idx_t :=
  match l !! Z.to_nat pos with
  | Some x => if idx_size x =? 0 then Error ERR_NOENT else Done x
  | None => Error ERR_NOENT
  end.

(** A record in use with hash [h]. *)
Definition matches (h : bc_hash_t) (x : bc_idx_t) : bool :=
  negb (idx_size x =? 0) && bc_hash_cmp h (idx_hash x).
(** A record in use in slot [k] of the table. *)
Definition in_slot (k : Z) (x : bc_idx_t) : bool :=
  negb (idx_size x =? 0) && (bc_table_hash (idx_hash x) =? k).

Lemma matches_in_slot h x : matches h x = true → in_slot (bc_table_hash h) x = true.
Proof.
  unfold matches, in_slot, bc_hash_cmp. intros [-> E%bool_decide_eq_true]%andb_true_iff.
  unfold bc_table_hash. rewrite E. by rewrite Z.eqb_refl.
Qed.

(** The answer to a search by hash. *)
Definition find_result (h : bc_hash_t) (l : list bc_idx_t) : result (bc_idx_t * Z) :=
  match last_idx (matches h) l (length l) with
  | Some i => match l !! i with Some x => Done (x, Z.of_nat i) | None => Error ERR_NOENT end
  | None => Error ERR_NOENT
  end.

(** An entry [v] of slot [k] is sound for the index [l]. *)
Definition entry_ok (l : list bc_idx_t) (k v : Z) : Prop :=
  v = BC_TABLE_SEARCH_POS ∨
  (v = BC_TABLE_NULL_POS ∧ ∀ i x, l !! i = Some x → in_slot k x = false) ∨
  (v ≠ BC_TABLE_SEARCH_POS ∧ v ≠ BC_TABLE_NULL_POS ∧ l ≠ [] ∧
    ∀ i x, l !! i = Some x → in_slot k x = true → Z.of_nat i ≤ v).

(** A record written at [pos <= count]. *)
Definition rec_put {A} (l : list A) (pos : Z) (x : A) : list A :=
  if decide (pos < zlen l) then <[Z.to_nat pos := x]> l else l ++ [x].

Section spec.
Context `{Env} (Hok : os_ok).

Definition mrecs (s : st) (m : mapid) : list bc_idx_t := recs (payload s m).
Definition whole (s : st) (m : mapid) : Prop := (64 | zlen (payload s m)).

Lemma mrecs_count s m : zlen (mrecs s m) = hdr_of (mfile s m) / 64.
Proof. unfold mrecs. rewrite length_recs, Nat2Z.inj_div, payload_len. done. Qed.

Lemma mrecs_cap s m : db_inv s → zlen (mrecs s m) ≤ 2 ^ 23.
Proof.
  intros Hd. rewrite mrecs_count. pose proof (db_cap _ Hd m).
  apply Z.div_le_upper_bound; [lia|]. unfold CAP in *. lia.
Qed.

Lemma su_idx_count s m :
  db_inv s → isopen s m → succeeds (idx_count m) s (λ n s', s' = s ∧ n = zlen (mrecs s m)).
Proof.
  intros Hd (mp & Hn & Hfd & Hh). unfold idx_count. apply wp_bind.
  eapply wp_hdr_get_of; [apply Hd|done..|]. apply wp_ret. by rewrite mrecs_count.
Qed.

Lemma su_idx_load s m i :
  db_inv s → isopen s m → 0 ≤ i < zlen (mrecs s m) →
  succeeds (idx_load m i) s (λ x s', s' = s ∧ mrecs s m !! Z.to_nat i = Some x).
Proof.
  intros Hd (mp & Hn & Hfd & Hh) Hi. rewrite mrecs_count in Hi.
  pose proof (local_file_ok _ _ (db_base _ Hd m)) as (_ & _ & _ & _ & _ & Hf).
  pose proof (Z.mul_div_le (hdr_of (mfile s m)) 64 ltac:(lia)).
  pose proof (payload_len s m) as Hpl.
  unfold idx_load. apply wp_bind. eapply wp_raw_read; [apply Hd|done..|unfold IDX; lia|unfold IDX; lia|].
  apply wp_ret. split; [done|]. unfold mrecs. rewrite recs_lookup, decide_True.
  2: { apply Nat2Z.inj_lt. rewrite Nat2Z.inj_div, Hpl. lia. }
  f_equal. unfold rec_at. f_equal. unfold payload, fpayload.
  rewrite fread_drop, fread_take by lia. f_equal. unfold IDX. lia.
Qed.

Lemma wp_rec_get s m pos :
  db_inv s → isopen s m → 0 ≤ pos →
  wp (rec_get m pos) s (λ r s', s' = s ∧ r = rec_result (mrecs s m) pos).
Proof.
  intros Hd Hop Hp. unfold rec_get. apply wp_bind_su.
  eapply su_mono; [by apply su_idx_count|]. intros ? ? [-> ->]. unfold rec_result.
  destruct (Z.leb_spec (zlen (mrecs s m)) pos).
  - apply wp_throw. split; [done|]. by rewrite lookup_ge_None_2 by lia.
  - apply wp_bind_su. eapply su_mono; [by apply su_idx_load|]. intros x ? [-> ->].
    by destruct (idx_size x =? 0).
Qed.

(** ** Open, get, next *)
Lemma su_idx_open s :
  db_inv s → succeeds bc_idx_open s (λ _ s', only MIdx s s' ∧ db_inv s' ∧ isopen s' MIdx ∧
    payload s' MIdx = payload s MIdx).
Proof.
  intros Hd. apply su_locked_only; [done|done|].
  eapply su_mono; [apply (su_ext_open Hok _ MIdx); [by apply db_inv_lk|done|done|done]|].
  intros _ s' (Ho & Hd' & Hop & Hb). do 3 (split; [done|]). by apply payload_bytes in Hb.
Qed.

Lemma wp_idx_get s pos :
  db_inv s → 0 ≤ pos →
  wp (bc_idx_get pos) s (λ r s', only MIdx s s' ∧ db_inv s' ∧ isopen s' MIdx ∧
    payload s' MIdx = payload s MIdx ∧ r = rec_result (mrecs s MIdx) pos).
Proof.
  intros Hd Hp. apply wp_locked_only; [done|done|]. unfold bc_idx_get_. apply wp_bind_su.
  eapply su_mono; [apply su_idx_open; by apply db_inv_lk|].
  intros _ s1 (Ho1 & Hd1 & Hop1 & Hp1). eapply wp_mono; [by apply wp_rec_get|].
  intros r ? [-> ->]. do 4 (split; [done|]). unfold mrecs. by rewrite Hp1.
Qed.

Lemma su_idx_next s :
  db_inv s → succeeds bc_idx_next s (λ n s', only MIdx s s' ∧ db_inv s' ∧ isopen s' MIdx ∧
    payload s' MIdx = payload s MIdx ∧ n = zlen (mrecs s MIdx)).
Proof.
  intros Hd. unfold bc_idx_next. apply su_bind. eapply su_mono; [by apply su_idx_open|].
  intros _ s1 (Ho1 & Hd1 & Hop1 & Hp1). eapply su_mono; [by apply su_idx_count|].
  intros n ? [-> ->]. do 4 (split; [done|]). unfold mrecs. by rewrite Hp1.
Qed.

(** ** Stores *)
Lemma whole_count s m : whole s m → zlen (payload s m) = 64 * zlen (mrecs s m).
Proof.
  intros [k Hk]. unfold mrecs. rewrite length_recs, Nat2Z.inj_div, Hk. change (Z.of_nat 64) with 64.
  rewrite Z.div_mul by lia. lia.
Qed.

Lemma su_rec_write s m pos x :
  db_inv s → isopen s m → m ≠ MTab → whole s m → idx_wf x → 0 ≤ pos ≤ zlen (mrecs s m) →
  pos < 2 ^ 22 →
  succeeds (bc_map_write m (u32 (pos * IDX)) (idx_enc x)) s (λ _ s',
    only m s s' ∧ db_inv s' ∧ isopen s' m ∧ whole s' m ∧
    mrecs s' m = rec_put (mrecs s m) pos x).
Proof.
  intros Hd (mp & Hn & _) Hne Hw Hx Hpos Hcap. pose proof (whole_count _ _ Hw) as Hc.
  pose proof (length_idx_enc x ltac:(apply Hx)) as Hl. unfold IDX.
  rewrite u32_small by lia. eapply su_mono.
  { eapply su_write; [done|done|exact Hn|done|lia|unfold CAP; lia|unfold TABLEN; lia]. }
  intros _ s' (Ho & Hd' & Hop' & Hp'). do 3 (split; [done|]). split.
  - unfold whole. rewrite Hp', length_splice by lia. rewrite Hc, Hl.
    destruct (Z.max_spec (64 * zlen (mrecs s m)) (pos * 64 + Z.of_nat 64)) as [[_ ->]|[_ ->]].
    + exists (pos + 1). lia.
    + exists (zlen (mrecs s m)). lia.
  - unfold mrecs at 1. rewrite Hp'. replace (pos * 64) with (Z.of_nat (64 * Z.to_nat pos)) by lia.
    assert (El : length (mrecs s m) = (length (payload s m) / 64)%nat) by apply length_recs.
    rewrite recs_splice; [|done|lia|done]. unfold rec_put. fold (mrecs s m).
    destruct (decide (pos < zlen (mrecs s m))); [rewrite decide_True by lia|rewrite decide_False by lia]; done.
Qed.

Lemma su_rec_set s m pos x r :
  db_inv s → isopen s m → m ≠ MTab → whole s m → idx_wf x → 0 ≤ pos ≤ zlen (mrecs s m) →
  pos < 2 ^ 22 → r = rec_result (mrecs s m) pos → r = Error ERR_NOENT →
  succeeds (rec_set m pos x r) s (λ _ s',
    only m s s' ∧ db_inv s' ∧ isopen s' m ∧ whole s' m ∧
    mrecs s' m = rec_put (mrecs s m) pos x).
Proof.
  intros Hd Hop Hne Hw Hx Hpos Hcap _ ->. unfold rec_set. cbn [negb]. rewrite Z.eqb_refl. cbn [negb].
  apply su_bind. eapply su_mono; [by apply su_idx_count|]. intros ? ? [-> ->].
  pose proof Hop as (mp & Hn & Hfd & Hh). apply wp_bind. eapply wp_get_map; [apply Hn|].
  pose proof (whole_count _ _ Hw) as Hc.
  destruct (inv_open_file _ _ _ (db_base _ Hd) Hn Hfd) as (_ & _ & Hsz). rewrite Hsz by done.
  (* files grow in blocks of whole records, so there is room for one more *)
  pose proof (local_file_ok _ _ (db_base _ Hd m)) as (_ & _ & _ & _ & [k Hk] & Hf).
  rewrite <-payload_len, Hc in Hf. unfold IDX, HDR, BC_MAP_BLOCK_SIZE in *.
  apply su_bind. destruct (Z.leb_spec (zlen (mrecs s m)) pos);
    destruct (Z.ltb_spec (f_size (mfile s m)) (u32 (pos * 64) + 64)) as [Hlt|]; cbn [andb];
    try (apply wp_ret; by apply su_rec_write).
  exfalso. rewrite u32_small in Hlt by lia. lia.
Qed.

Lemma rec_put_lookup {A} (l : list A) pos x i :
  0 ≤ pos ≤ zlen l →
  rec_put l pos x !! i = if decide (i = Z.to_nat pos) then Some x else l !! i.
Proof.
  intros Hp. unfold rec_put. destruct (decide (pos < zlen l)); case_decide as Hi.
  - subst. by rewrite list_lookup_insert_eq by lia.
  - by rewrite list_lookup_insert_ne.
  - subst. rewrite lookup_app_r by lia. by replace (Z.to_nat pos - length l)%nat with 0%nat by lia.
  - destruct (decide (i < length l)%nat); [by rewrite lookup_app_l|].
    rewrite !lookup_ge_None_2; [done|lia|rewrite length_app; simpl; lia].
Qed.

Lemma rec_put_ne {A} (l : list A) pos x : 0 ≤ pos → rec_put l pos x ≠ [].
Proof.
  intros Hp. unfold rec_put. case_decide; [|by destruct l].
  intros E%(f_equal length). rewrite length_insert in E. simpl in E. lia.
Qed.

(** ** The cache invariant *)
Definition cache_ok (s : st) : Prop :=
  ∀ k, 0 ≤ k < BC_TABLE_SIZE → entry_ok (mrecs s MIdx) k (tabval s k).

Lemma cache_ok_eq s s' :
  payload s' MIdx = payload s MIdx → (∀ k, tabval s' k = tabval s k) → cache_ok s → cache_ok s'.
Proof. intros Hp Ht Hc k Hk. unfold mrecs. rewrite Hp, Ht. by apply Hc. Qed.

(** Storing [x] over an unused record and resetting its slot. *)
Lemma entry_ok_put l pos x k v :
  0 ≤ pos ≤ zlen l → in_slot k x = false → entry_ok l k v → entry_ok (rec_put l pos x) k v.
Proof.
  intros Hp Hx [?|[[? Hn]|(? & ? & ? & Hle)]]; [by left|right; left|right; right].
  - split; [done|]. intros i y. rewrite rec_put_lookup by done. case_decide; [by intros [= <-]|apply Hn].
  - do 2 (split; [done|]). split; [apply rec_put_ne; lia|]. intros i y. rewrite rec_put_lookup by done.
    case_decide; [intros [= <-]; congruence|apply Hle].
Qed.

Lemma in_slot_ne k x : k ≠ bc_table_hash (idx_hash x) → in_slot k x = false.
Proof.
  intros. unfold in_slot. destruct (Z.eqb_spec (bc_table_hash (idx_hash x)) k); [congruence|].
  apply andb_false_r.
Qed.

(** [bc_idx_set] on an unused position. *)
Lemma su_idx_set s pos x :
  db_inv s → whole s MIdx → cache_ok s → idx_wf x → 0 ≤ pos ≤ zlen (mrecs s MIdx) → pos < 2 ^ 22 →
  rec_result (mrecs s MIdx) pos = Error ERR_NOENT →
  wp (bc_idx_set pos x) s (λ r s', frame s s' ∧ db_inv s' ∧ r = Done tt ∧
    whole s' MIdx ∧ cache_ok s' ∧ mrecs s' MIdx = rec_put (mrecs s MIdx) pos x ∧
    (∀ m, m ≠ MIdx → m ≠ MTab → payload s' m = payload s m ∧ (isopen s m → isopen s' m))).
Proof.
  intros Hd Hw Hc Hx Hpos Hcap Hr. apply wp_locked_frame; [done|done|]. set (s0 := set_lk s _).
  unfold bc_idx_set_. apply wp_bind_su. eapply su_mono; [apply (su_idx_open s0); by apply db_inv_lk|].
  intros _ s1 (Ho1 & Hd1 & Hop1 & Hp1). apply wp_bind, wp_try.
  eapply wp_mono; [apply wp_idx_get; [done|lia]|].
  intros r s2 (Ho2 & Hd2 & Hop2 & Hp2 & ->). rewrite Hp1 in Hp2.
  assert (Er1 : mrecs s1 MIdx = mrecs s MIdx) by (unfold mrecs; by rewrite Hp1).
  assert (Er2 : mrecs s2 MIdx = mrecs s MIdx) by (unfold mrecs; by rewrite Hp2).
  apply wp_bind_su. eapply su_mono.
  { eapply (su_rec_set s2); try done; rewrite ?Er2, ?Er1; try done. unfold whole. by rewrite Hp2. }
  intros _ s3 (Ho3 & Hd3 & Hop3 & Hw3 & Hr3). rewrite Er2 in Hr3. apply wp_bind, wp_try.
  eapply su_wp; [by apply su_table_reset|]. intros _ s4 (Ho4 & Hd4 & _ & Ht4). apply wp_ret.
  assert (Ho : only MIdx s0 s3) by (etrans; [exact Ho1|]; by etrans).
  assert (Hp4 : payload s4 MIdx = payload s3 MIdx) by by eapply payload_only.
  split; [etrans; eapply only_frame; done|]. split; [done|]. split; [done|].
  split; [unfold whole; by rewrite Hp4|].
  assert (Hr4 : mrecs s4 MIdx = rec_put (mrecs s MIdx) pos x) by (unfold mrecs at 1; by rewrite Hp4).
  split; [|split; [done|]].
  - intros k Hk. rewrite Ht4, Hr4. case_decide; [by left|].
    rewrite (tabval_only _ _ _ k Ho) by done. apply entry_ok_put; [done|by apply in_slot_ne|by apply Hc].
  - intros m Hm1 Hm2. split.
    + by rewrite (payload_only _ _ _ _ Ho4), (payload_only _ _ _ _ Ho) by done.
    + intros Hm. eapply isopen_only; [exact Ho4|done|]. by eapply isopen_only; [exact Ho|done|].
Qed.

Lemma wp_idx_set_exist s pos x old :
  db_inv s → 0 ≤ pos → rec_result (mrecs s MIdx) pos = Done old →
  wp (bc_idx_set pos x) s (λ r s', only MIdx s s' ∧ db_inv s' ∧ isopen s' MIdx ∧
    r = Error ERR_EXIST ∧ payload s' MIdx = payload s MIdx).
Proof.
  intros Hd Hp Hr. apply wp_locked_only; [done|done|]. set (s0 := set_lk s _).
  unfold bc_idx_set_. apply wp_bind_su. eapply su_mono; [apply (su_idx_open s0); by apply db_inv_lk|].
  intros _ s1 (Ho1 & Hd1 & Hop1 & Hp1). apply wp_bind, wp_try.
  eapply wp_mono; [by apply wp_idx_get|].
  intros r s2 (Ho2 & Hd2 & Hop2 & Hp2 & ->). unfold mrecs in *. rewrite Hp1.
  change (payload s0) with (payload s). rewrite Hr. cbn [rec_set]. apply wp_bind, wp_throw.
  split; [by etrans|]. do 3 (split; [done|]). by rewrite Hp2.
Qed.

(** Overwriting a record by one that is in no other slot. *)
Lemma entry_ok_over l pos x old k v :
  l !! Z.to_nat pos = Some old → 0 ≤ pos →
  (in_slot k x = true → in_slot k old = true) → entry_ok l k v → entry_ok (rec_put l pos x) k v.
Proof.
  intros Hl Hp Hx. pose proof (lookup_lt_Some _ _ _ Hl).
  assert (Hle : 0 ≤ pos ≤ zlen l) by lia.
  intros [?|[[? Hn]|(? & ? & ? & Hi)]]; [by left|right; left|right; right].
  - split; [done|]. intros i y. rewrite rec_put_lookup by done. case_decide; [|apply Hn].
    intros [= <-]. apply not_true_is_false. intros Hs%Hx. by rewrite (Hn _ _ Hl) in Hs.
  - do 2 (split; [done|]). split; [apply rec_put_ne; lia|].
    intros i y. rewrite rec_put_lookup by done. case_decide; [|apply Hi].
    intros [= <-] Hs. subst i. by apply (Hi _ _ Hl), Hx.
Qed.

Lemma rec_result_Done l pos x :
  rec_result l pos = Done x ↔ l !! Z.to_nat pos = Some x ∧ idx_size x ≠ 0.
Proof.
  unfold rec_result. destruct (l !! Z.to_nat pos) as [y|]; [|split; [done|by intros [??]]].
  destruct (Z.eqb_spec (idx_size y) 0); split; try done; [by intros [[= <-] ?]|by intros [= <-]|by intros [[= <-] _]].
Qed.

(** The two writers of an existing record have one effect on the state. *)
Definition rec_over (s : st) (pos : Z) (x : bc_idx_t) (r : result unit) (s' : st) : Prop :=
  only MIdx s s' ∧ db_inv s' ∧ isopen s' MIdx ∧ r = Done tt ∧ whole s' MIdx ∧
  mrecs s' MIdx = rec_put (mrecs s MIdx) pos x ∧
  (cache_ok s → cache_ok s').

Lemma wp_rec_over s s1 pos x old :
  only MIdx s s1 → db_inv s1 → isopen s1 MIdx → payload s1 MIdx = payload s MIdx →
  whole s MIdx → mrecs s MIdx !! Z.to_nat pos = Some old → 0 ≤ pos < 2 ^ 22 → idx_wf x →
  (∀ k, in_slot k x = true → in_slot k old = true) →
  wp (bc_map_write MIdx (u32 (pos * IDX)) (idx_enc x)) s1 (rec_over s pos x).
Proof.
  intros Ho1 Hd1 Hop1 Hp1 Hw Hl Hp Hx Hs. pose proof (lookup_lt_Some _ _ _ Hl).
  assert (Hr1 : mrecs s1 MIdx = mrecs s MIdx) by (unfold mrecs; by rewrite Hp1).
  eapply su_wp; [eapply (su_rec_write s1); try done; rewrite ?Hr1; try lia; unfold whole; by rewrite Hp1|].
  intros [] s2 (Ho2 & Hd2 & Hop2 & Hw2 & Hr2). rewrite Hr1 in Hr2.
  split; [by etrans|]. do 5 (split; [done|]). intros Hc k Hk. rewrite Hr2.
  rewrite (tabval_only _ _ _ k Ho2), (tabval_only _ _ _ k Ho1) by done.
  eapply entry_ok_over; [done|lia|apply Hs|by apply Hc].
Qed.

Lemma rec_over_lock s pos x r s' :
  rec_over (set_lk s (st_lk s + 1)) pos x r s' → rec_over s pos x r (set_lk s' (st_lk s' - 1)).
Proof.
  intros (? & ? & ?). split; [by apply only_lock|]. split; [by apply db_inv_lk|done].
Qed.

Lemma wp_idx_reset s pos x old :
  db_inv s → whole s MIdx → 0 ≤ pos < 2 ^ 22 → idx_wf x →
  rec_result (mrecs s MIdx) pos = Done old → idx_hash x = idx_hash old →
  wp (bc_idx_reset pos x) s (rec_over s pos x).
Proof.
  intros Hd Hw Hp Hx Hr Hh. apply wp_locked_ok; [done|]. set (s0 := set_lk s _).
  eapply wp_mono; [|intros; by apply rec_over_lock].
  unfold bc_idx_reset_. apply wp_bind_su. eapply su_mono; [apply (su_idx_open s0); by apply db_inv_lk|].
  intros _ s1 (Ho1 & Hd1 & Hop1 & Hp1). apply wp_bind, wp_try.
  eapply wp_mono; [apply wp_idx_get; [done|lia]|].
  intros r s2 (Ho2 & Hd2 & Hop2 & Hp2 & ->). rewrite Hp1 in Hp2.
  assert (Er2 : mrecs s2 MIdx = mrecs s MIdx) by (unfold mrecs; by rewrite Hp2).
  replace (rec_result (mrecs s1 MIdx) pos) with (Done old)
    by (unfold mrecs in *; rewrite Hp1; by symmetry).
  apply rec_result_Done in Hr as [Hl Hsz]. pose proof (lookup_lt_Some _ _ _ Hl) as Hlt.
  cbv zeta. apply wp_bind_su. eapply su_mono; [by apply su_idx_count|]. intros ? ? [-> ->].
  pose proof Hop2 as (mp & Hn & Hfd & Hmh). apply wp_bind. eapply wp_get_map; [apply Hn|].
  rewrite Er2. destruct (Z.leb_spec (zlen (mrecs s MIdx)) pos); [lia|]. cbn [orb].
  pose proof (whole_count _ _ Hw) as Hc.
  destruct (inv_open_file _ _ _ (db_base _ Hd2) Hn Hfd) as (_ & _ & Hfs). rewrite Hfs by done.
  pose proof (local_file_ok _ _ (db_base _ Hd2 MIdx)) as (_ & _ & _ & _ & _ & Hf).
  rewrite <-payload_len, Hp2 in Hf. change (payload s0) with (payload s) in Hf.
  unfold IDX, HDR in *.
  destruct (Z.ltb_spec (f_size (mfile s2 MIdx)) (u32 (pos * 64) + 64)) as [Hb|].
  { rewrite u32_small in Hb by lia. lia. }
  eapply (wp_rec_over s0); try done; [by etrans|].
  intros k. unfold in_slot. rewrite Hh. destruct (Z.eqb_spec (idx_size old) 0); [done|].
  intros [_ ->]%andb_true_iff. done.
Qed.

Lemma blank_wf : idx_wf blank_idx.
Proof. by apply (bool_decide_unpack _). Qed.

Lemma wp_idx_clear s pos :
  db_inv s → whole s MIdx → 0 ≤ pos < zlen (mrecs s MIdx) → pos < 2 ^ 22 →
  wp (bc_idx_clear pos) s (rec_over s pos blank_idx).
Proof.
  intros Hd Hw Hp Hcap. apply wp_locked_ok; [done|]. set (s0 := set_lk s _).
  eapply wp_mono; [|intros; by apply rec_over_lock].
  unfold bc_idx_clear_. apply wp_bind_su. eapply su_mono; [apply (su_idx_open s0); by apply db_inv_lk|].
  intros _ s1 (Ho1 & Hd1 & Hop1 & Hp1). cbv zeta.
  assert (Er1 : mrecs s1 MIdx = mrecs s MIdx) by (unfold mrecs; by rewrite Hp1).
  apply wp_bind_su. eapply su_mono; [by apply su_idx_count|]. intros ? ? [-> ->]. rewrite Er1.
  pose proof Hop1 as (mp & Hn & _). apply wp_bind. eapply wp_get_map; [apply Hn|].
  destruct (Z.leb_spec (zlen (mrecs s MIdx)) pos); [lia|]. cbn [andb].
  destruct (mrecs s MIdx !! Z.to_nat pos) as [old|] eqn:El; [|apply lookup_ge_None in El; lia].
  eapply (wp_rec_over s0); try done; [lia|apply blank_wf].
Qed.

(** ** The search *)

(** The position of a search result, or -1. *)
Definition opos (o : option nat) : Z := match o with Some i => Z.of_nat i | None => -1 end.

(** [pos_high] is at least every position still to be looked at, or unset. *)
Lemma su_find_loop s h n ph :
  db_inv s → isopen s MIdx → (n ≤ length (mrecs s MIdx))%nat → ph = -1 ∨ Z.of_nat n - 1 ≤ ph →
  succeeds (find_loop h (bc_table_hash h) n ph) s (λ r s', s' = s ∧
    r = (opos (last_idx (matches h) (mrecs s MIdx) n),
         if decide (ph = -1) then opos (last_idx (in_slot (bc_table_hash h)) (mrecs s MIdx) n) else ph)).
Proof.
  intros Hd Hop. revert ph. induction n as [|n IH]; intros ph Hn Hph; cbn [find_loop last_idx].
  { apply wp_ret. split; [done|]. case_decide; by subst. }
  apply su_bind. eapply su_mono; [apply su_idx_load; [done|done|lia]|]. intros x ? [-> Hl].
  rewrite Nat2Z.id in Hl. rewrite Hl. unfold matches, in_slot.
  destruct (Z.eqb_spec (idx_size x) 0) as [Hz|Hz]; cbn [negb andb]; [apply IH; lia|].
  destruct (bc_hash_cmp h (idx_hash x)) eqn:Em.
  - apply wp_ret. split; [done|]. f_equal.
    assert (bc_table_hash (idx_hash x) = bc_table_hash h) as ->.
    { unfold bc_hash_cmp in Em. apply bool_decide_eq_true in Em. unfold bc_table_hash. by rewrite Em. }
    rewrite Z.eqb_refl, andb_true_r. case_decide.
    + by destruct (Z.ltb_spec ph (Z.of_nat n)); [|lia].
    + by destruct (Z.ltb_spec ph (Z.of_nat n)); [lia|].
  - destruct (Z.eqb_spec (bc_table_hash (idx_hash x)) (bc_table_hash h)) as [Et|Et].
    + rewrite andb_true_r. eapply su_mono; [apply IH; [lia|]|].
      { destruct (Z.ltb_spec ph (Z.of_nat n)); lia. }
      intros ? ? [-> ->]. split; [done|]. f_equal. destruct (Z.ltb_spec ph (Z.of_nat n)).
      * rewrite decide_False by lia. by rewrite decide_True by lia.
      * by rewrite !decide_False by lia.
    + rewrite andb_false_r. apply IH; lia.
Qed.

(** What a search leaves alone: every payload but the table, and the open
    maps. *)
Definition searched (s s' : st) : Prop :=
  frame s s' ∧ db_inv s' ∧
  (∀ m, m ≠ MTab → payload s' m = payload s m ∧ (isopen s m → isopen s' m)).

#[local] Instance searched_trans : Transitive searched.
Proof.
  intros s1 s2 s3 (Hf1 & Hd1 & Hm1) (Hf2 & Hd2 & Hm2). split; [by etrans|]. split; [done|].
  intros m Hm. destruct (Hm1 m Hm) as [<- ?]. destruct (Hm2 m Hm) as [<- ?]. auto.
Qed.

Lemma searched_tab s s' : only MTab s s' → db_inv s' → searched s s'.
Proof.
  intros Ho Hd. split; [by eapply only_frame|]. split; [done|]. intros m Hm.
  split; [by eapply payload_only|by eapply isopen_only].
Qed.

Lemma searched_idx s s' :
  only MIdx s s' → db_inv s' → isopen s' MIdx → payload s' MIdx = payload s MIdx → searched s s'.
Proof.
  intros Ho Hd Hop Hp. split; [by eapply only_frame|]. split; [done|]. intros m Hm.
  destruct (decide (m = MIdx)) as [->|]; [done|].
  split; [by eapply payload_only|by eapply isopen_only].
Qed.

Lemma searched_recs s s' : searched s s' → mrecs s' MIdx = mrecs s MIdx.
Proof. intros (_ & _ & Hm). unfold mrecs. by destruct (Hm MIdx) as [-> _]. Qed.

(** Where the scan starts, in the mixed 32-bit arithmetic of the code. *)
Lemma scan_start v n ph :
  0 ≤ v < 2 ^ 32 → 0 ≤ n ≤ 2 ^ 23 → ph = -1 ∨ ph = i32 v ∧ 0 < n →
  let ph' := if u32 (n - 1) <? u32 ph then -1 else ph in
  let len := if negb (ph' =? -1) then u32 ph' else u32 (n - 1) in
  ph' = -1 ∧ Z.to_nat (i32 len + 1) = Z.to_nat n ∧ (ph = i32 v → 0 < n → n ≤ v) ∨
  ph = i32 v ∧ ph' = v ∧ 0 ≤ v < n ∧ Z.to_nat (i32 len + 1) = S (Z.to_nat v).
Proof.
  intros Hv Hn Hph ph' len.
  assert (Hend : Z.to_nat (i32 (u32 (n - 1)) + 1) = Z.to_nat n).
  { destruct (decide (n = 0)) as [->|]; [done|].
    rewrite u32_small, i32_small by lia. f_equal. lia. }
  assert (Hi : i32 v = v ∧ v < 2 ^ 31 ∨ i32 v = v - 2 ^ 32 ∧ 2 ^ 31 ≤ v).
  { unfold i32. destruct (decide (v < 2 ^ 31)); [left|right].
    - rewrite Z.mod_small by lia. lia.
    - rewrite <-(Z_mod_plus_full _ (-1)), Z.mod_small by lia. lia. }
  assert (Hu : u32 (i32 v) = v).
  { destruct Hi as [[-> _]|[-> _]]; [by apply u32_small|].
    unfold u32. rewrite <-(Z_mod_plus_full _ 1), Z.mod_small by lia. lia. }
  destruct Hph as [->|[-> H0]].
  - left. assert (E : ph' = -1) by (unfold ph'; by case_match).
    unfold len. rewrite E. cbn [negb Z.eqb].
    split; [done|]. split; [done|]. intros Hm. destruct Hi as [[? ?]|[? ?]]; lia.
  - unfold len, ph'. rewrite Hu, (u32_small (n - 1)) by lia.
    destruct (Z.ltb_spec (n - 1) v).
    + left. cbn [negb Z.eqb]. split; [done|]. split; [|lia]. by rewrite <-Hend, (u32_small (n - 1)) by lia.
    + right. destruct Hi as [[-> ?]|[? ?]]; [|lia].
      destruct (Z.eqb_spec v (-1)); [lia|]. cbn [negb]. rewrite u32_small, i32_small by lia.
      do 3 (split; [done || lia|]). lia.
Qed.

Lemma last_idx_stop {A} (P : A → bool) l n m :
  (m ≤ n)%nat → (∀ j x, (m ≤ j < n)%nat → l !! j = Some x → P x = false) →
  last_idx P l n = last_idx P l m.
Proof.
  induction n as [|n IH]; intros Hm Hall; [by replace m with 0%nat by lia|].
  destruct (decide (m = S n)) as [->|]; [done|]. cbn [last_idx].
  rewrite IH; [|lia|intros; eapply Hall; [|done]; lia].
  destruct (l !! n) as [x|] eqn:E; [|done]. by rewrite (Hall n x) by (done || lia).
Qed.

(** The last step of the search. *)
Lemma wp_find_end s h i :
  db_inv s → isopen s MIdx →
  i = opos (last_idx (matches h) (mrecs s MIdx) (length (mrecs s MIdx))) →
  wp (if i <? 0 then throw ERR_NOENT else x <- idx_load MIdx i ;; ret (x, i)) s
    (λ r s', s' = s ∧ r = find_result h (mrecs s MIdx)).
Proof.
  intros Hd Hop ->. unfold find_result.
  destruct (last_idx _ _ _) as [j|] eqn:E; [|by apply wp_throw].
  apply last_idx_Some in E as (Hj & _ & _). cbn [opos].
  destruct (Z.ltb_spec (Z.of_nat j) 0); [lia|]. apply wp_bind_su.
  eapply su_mono; [apply su_idx_load; [done|done|lia]|]. intros x ? [-> Hl].
  rewrite Nat2Z.id in Hl. rewrite Hl. by apply wp_ret.
Qed.

(** The cache after a full scan. *)
Lemma entry_ok_raise l k v p :
  zlen l ≤ 2 ^ 23 → entry_ok l k v → last_idx (in_slot k) l (length l) = Some p →
  entry_ok l k (tab_raise v (Z.of_nat p)).
Proof.
  intros Hlen Hv Hl. apply last_idx_Some in Hl as (Hp & (x & Hx & Hpx) & Hlast).
  unfold tab_raise. destruct (_ || _); [|done].
  destruct (decide (p = 0%nat)) as [->|]; [by left|]. right. right.
  unfold BC_TABLE_SEARCH_POS, BC_TABLE_NULL_POS. do 2 (split; [lia|]). split; [by destruct l|].
  intros i y Hy Hs. destruct (decide (i ≤ p)%nat); [lia|].
  apply lookup_lt_Some in Hy as Hi. rewrite (Hlast i y) in Hs by (done || lia). done.
Qed.

(** Recording what a scan of the whole index found. *)
Lemma wp_find_record s h pos i :
  db_inv s → cache_ok s → isopen s MIdx →
  let l := mrecs s MIdx in
  let ph := opos (last_idx (in_slot (bc_table_hash h)) l (length l)) in
  (0 ≤ ph → pos ≠ ph) → (ph = -1 → i < 0) →
  succeeds (if negb (ph =? -1) then
      if negb (pos =? u64 ph) then try (bc_table_set h (u32 ph)) ;;; ret tt else ret tt
    else if i <? 0 then try (bc_table_unset h) ;;; ret tt else ret tt) s
    (λ _ s', only MTab s s' ∧ db_inv s' ∧ cache_ok s').
Proof.
  intros Hd Hc Hop l ph Hpos Hi. pose proof (mrecs_cap s MIdx Hd) as Hcap. fold l in Hcap.
  destruct (last_idx _ _ _) as [p|] eqn:El; subst ph; cbn [opos] in *.
  - pose proof (last_idx_Some _ _ _ _ El) as (Hp & _).
    destruct (Z.eqb_spec (Z.of_nat p) (-1)); [lia|]. cbn [negb].
    rewrite u64_small, u32_small by lia. destruct (Z.eqb_spec pos (Z.of_nat p)); [by destruct Hpos; lia|].
    cbn [negb]. apply wp_bind, wp_try.
    eapply su_wp; [apply su_table_set; [done|done|unfold BC_TABLE_POS_MASK; lia]|].
    intros _ s' (Ho & Hd' & _ & Ht). apply wp_ret. split; [done|]. split; [done|].
    intros k Hk. rewrite Ht. unfold mrecs. rewrite (payload_only _ _ _ _ Ho) by done. fold (mrecs s MIdx).
    case_decide as E; [|by apply Hc]. subst k. by apply entry_ok_raise; [..|apply Hc|].
  - specialize (Hi eq_refl). cbn [negb Z.eqb]. destruct (Z.ltb_spec i 0); [|lia].
    apply wp_bind, wp_try. eapply su_wp; [by apply su_table_unset|].
    intros _ s' (Ho & Hd' & _ & Ht). apply wp_ret. split; [done|]. split; [done|].
    intros k Hk. rewrite Ht. unfold mrecs. rewrite (payload_only _ _ _ _ Ho) by done. fold (mrecs s MIdx).
    case_decide as E; [|by apply Hc]. subst k. right; left. split; [done|]. intros j x Hx.
    apply (proj1 (last_idx_None _ _ _) El j); [by eapply lookup_lt_Some|done].
Qed.

(** The search from the cached position on agrees with the search of the
    whole index. *)
Lemma find_cached l h v :
  (∀ i x, l !! i = Some x → in_slot (bc_table_hash h) x = true → Z.of_nat i ≤ v) → 0 ≤ v < zlen l →
  last_idx (matches h) l (length l) = last_idx (matches h) l (S (Z.to_nat v)).
Proof.
  intros Hall Hv. apply last_idx_stop; [lia|]. intros j x Hj Hx.
  apply not_true_is_false. intros Hm%matches_in_slot. specialize (Hall _ _ Hx Hm). lia.
Qed.

Lemma find_none l h n :
  last_idx (in_slot (bc_table_hash h)) l n = None → last_idx (matches h) l n = None.
Proof.
  rewrite !last_idx_None. intros Hall j x Hj Hx. apply not_true_is_false.
  intros Hm%matches_in_slot. by rewrite (Hall j x) in Hm.
Qed.

Definition found (s : st) (h : bc_hash_t) (r : result (bc_idx_t * Z)) (s' : st) : Prop :=
  r = find_result h (mrecs s MIdx) ∧ cache_ok s' ∧
  (∀ m, m ≠ MTab → payload s' m = payload s m ∧ (isopen s m → isopen s' m)).

Lemma wp_idx_scan s h pos ph :
  db_inv s → cache_ok s →
  (let v := tabval s (bc_table_hash h) in
   v = BC_TABLE_SEARCH_POS ∧ pos = BC_TABLE_NULL_POS ∧ ph = -1 ∨
   v ≠ BC_TABLE_SEARCH_POS ∧ v ≠ BC_TABLE_NULL_POS ∧ pos = v ∧ ph = i32 v) →
  wp (bc_idx_scan h pos ph) s (λ r s', searched s s' ∧ found s h r s').
Proof.
  intros Hd Hc Hv. unfold bc_idx_scan. apply wp_bind_su. eapply su_mono; [by apply su_idx_open|].
  intros _ s1 (Ho1 & Hd1 & Hop1 & Hp1). pose proof (searched_idx _ _ Ho1 Hd1 Hop1 Hp1) as Hs1.
  pose proof (searched_recs _ _ Hs1) as Hr1.
  assert (Hc1 : cache_ok s1) by (eapply (cache_ok_eq s); [done|intros; by eapply tabval_only|done]).
  apply wp_bind_su. eapply su_mono; [by apply su_idx_count|]. intros ? ? [-> ->]. cbv zeta.
  pose proof (bc_table_hash_range h) as Hhr. pose proof (Hc _ Hhr) as Hk.
  pose proof (tabval_range s (bc_table_hash h)) as Hvr. set (v := tabval s _) in *. cbv zeta in Hv.
  pose proof (mrecs_cap _ MIdx Hd1) as Hcap.
  (* the tail, for a scan whose answer is that of the whole index *)
  assert (Hend : ∀ s2 i, only MTab s1 s2 → db_inv s2 → cache_ok s2 →
    i = opos (last_idx (matches h) (mrecs s MIdx) (length (mrecs s MIdx))) →
    wp (if i <? 0 then throw ERR_NOENT else x <- idx_load MIdx i ;; ret (x, i)) s2
      (λ r s', searched s s' ∧ found s h r s')).
  { intros s2 i Ho2 Hd2 Hc2 Hi. assert (Hs2 : searched s s2) by (etrans; [exact Hs1|by apply searched_tab]).
    pose proof (searched_recs _ _ Hs2) as Hr2.
    eapply wp_mono; [apply (wp_find_end s2 h); [done|by eapply isopen_only|by rewrite Hr2]|].
    intros r ? [-> ->]. split; [done|]. split; [by rewrite Hr2|]. split; [done|apply Hs2]. }
  destruct (scan_start v (zlen (mrecs s1 MIdx)) ph) as [(Eph & -> & Hnv)|(Eph & -> & Hlt & ->)]; [done|lia| | |].
  { destruct Hv as [(_ & _ & ->)|(H1 & H2 & _ & ->)]; [by left|right]. split; [done|].
    destruct Hk as [?|[[? _]|(_ & _ & Hne & _)]]; [done|done|]. rewrite Hr1. destruct (mrecs s MIdx); [done|simpl; lia]. }
  - rewrite Eph, Nat2Z.id. apply wp_bind_su.
    eapply su_mono; [apply su_find_loop; [done|done|lia|by left]|]. intros ? ? [-> ->].
    rewrite decide_True by done. apply wp_bind_su.
    eapply su_mono; [apply wp_find_record; [done|done|done| |]|].
    + intros Hpos. destruct (last_idx (in_slot _) _ _) as [p|] eqn:El; [|done]. cbn [opos].
      apply last_idx_Some in El as (Hp & _).
      destruct Hv as [(_ & -> & _)|(_ & _ & -> & ->)]; [unfold BC_TABLE_NULL_POS; lia|].
      specialize (Hnv eq_refl ltac:(lia)). lia.
    + destruct (last_idx (in_slot _) _ _) eqn:El; cbn [opos]; [lia|]. by rewrite (find_none _ _ _ El).
    + intros _ s2 (Ho2 & Hd2 & Hc2). apply Hend; [done..|]. by rewrite Hr1.
  - apply wp_bind_su. eapply su_mono; [apply su_find_loop; [done|done|lia|right; lia]|].
    intros ? ? [-> ->]. destruct Hv as [(_ & _ & ->)|(H1 & H2 & -> & _)].
    { destruct (decide (v = 2 ^ 32 - 1)); [lia|]. unfold i32 in Eph.
      pose proof (Z.mod_pos_bound (v + 2 ^ 31) (2 ^ 32) ltac:(lia)).
      rewrite Z.mod_small in Eph by lia. lia. }
    rewrite decide_False by lia. destruct (Z.eqb_spec v (-1)); [lia|]. cbn [negb].
    rewrite u64_small, Z.eqb_refl by lia. cbn [negb]. apply wp_bind, wp_ret.
    apply Hend; [done..|]. f_equal. rewrite Hr1 in *.
    destruct Hk as [?|[[? _]|(_ & _ & _ & Hall)]]; [done|done|]. symmetry. by apply find_cached.
Qed.

Lemma wp_idx_find s h :
  db_inv s → cache_ok s →
  wp (bc_idx_find h) s (λ r s', frame s s' ∧ db_inv s' ∧ found s h r s').
Proof.
  intros Hd Hc. apply wp_locked_frame; [done|done|]. set (s0 := set_lk s _).
  unfold bc_idx_find_. apply wp_bind_su.
  eapply su_mono; [apply (su_table_get Hok s0); by apply db_inv_lk|].
  intros r s1 (Ho1 & Hd1 & _ & Ht1 & ->). change (tabval s0) with (tabval s) in *.
  pose proof (searched_tab _ _ Ho1 Hd1) as Hs1. pose proof (searched_recs _ _ Hs1) as Hr1.
  change (mrecs s0 MIdx) with (mrecs s MIdx) in Hr1.
  assert (Hc1 : cache_ok s1) by (eapply (cache_ok_eq s); [by eapply (payload_only _ _ s0)|done|done]).
  assert (Hfound : ∀ r s', searched s1 s' ∧ found s1 h r s' → frame s0 s' ∧ db_inv s' ∧ found s h r s').
  { intros r s' [Hs2 (Hr & Hc2 & _)]. assert (Hs : searched s0 s') by by etrans.
    split; [apply Hs|]. split; [apply Hs|]. split; [by rewrite <-Hr1|]. split; [done|apply Hs]. }
  pose proof (Hc _ (bc_table_hash_range h)) as Hk. unfold tab_answer.
  destruct (Z.eqb_spec (tabval s (bc_table_hash h)) BC_TABLE_SEARCH_POS) as [Ev|Ev].
  { eapply wp_mono; [|exact Hfound]. apply wp_idx_scan; [done|done|]. left. by rewrite Ht1. }
  destruct (Z.eqb_spec (tabval s (bc_table_hash h)) BC_TABLE_NULL_POS) as [En|En].
  - apply wp_throw. split; [apply Hs1|]. split; [done|]. split; [|split; [done|apply Hs1]].
    unfold find_result. rewrite (proj2 (last_idx_None _ _ _)); [done|]. intros j x _ Hx.
    apply not_true_is_false. intros Hm%matches_in_slot.
    destruct Hk as [?|[[_ Hall]|(_ & ? & _)]]; [done| |done]. by rewrite (Hall _ _ Hx) in Hm.
  - eapply wp_mono; [|exact Hfound]. apply wp_idx_scan; [done|done|]. right. by rewrite Ht1.
Qed.
End spec.

#[global] Arguments mrecs : simpl never.
