(* ===== verification/Arch.v ===== *)
(** * The archive of replaced records

    [src/shioncoin/blockchain/bc_arch.c]: the "arch" map, an append-only array
    of the index records that were cleared from the main chain. *)

From S2P Require Import Prelude Errors Descriptor Vfs BcState Fmap FmapInv Db Table Crc Index IndexInv.

Definition BC_ARCH_EXTENSION : string := "arch".
Definition bc_arch_crc (hash : bc_hash_t) : Z := u32 (shcrc (mjoin (le_enc 4 <$> take 8 hash))).

Section arch.
Context `{Env}.

Definition bc_arch_open_ : M unit := ext_open MArch BC_ARCH_EXTENSION 0.
Definition bc_arch_open : M unit := locked bc_arch_open_.

Definition bc_arch_close_ : M unit :=
  mp <- get_map MArch ;;
  if negb (map_fd mp =? 0) then bc_map_close MArch else ret tt.
Definition bc_arch_close : M unit := if_locked bc_arch_close_.

(** [for (i = n - 1; i >= 0; i--)]. *)
Fixpoint arch_find_loop (hash : bc_hash_t) (n : nat) : M (bc_idx_t * Z) :=
  match n with
  | O => throw ERR_NOENT
  | S i =>
     x <- idx_load MArch (Z.of_nat i) ;;
     if idx_size x =? 0 then arch_find_loop hash i
     else if bc_hash_cmp hash (idx_hash x) then ret (x, Z.of_nat i)
     else arch_find_loop hash i
  end.
Definition bc_arch_find (hash : bc_hash_t) : M (bc_idx_t * Z) :=
  bc_arch_open ;;;
  n <- idx_count MArch ;;
  arch_find_loop hash (Z.to_nat (i32 (u32 (u32 n - 1)) + 1)).

Definition bc_arch_get_ (pos : Z) : M bc_idx_t := bc_arch_open ;;; rec_get MArch pos.
Definition bc_arch_get (pos : Z) : M bc_idx_t := locked (bc_arch_get_ pos).

Definition bc_arch_next : M Z := bc_arch_open ;;; idx_count MArch.

Definition bc_arch_set_ (pos : Z) (arch : bc_idx_t) : M unit :=
  bc_arch_open ;;;
  r <- try (bc_arch_get pos) ;;
  rec_set MArch pos arch r.
Definition bc_arch_set (pos : Z) (arch : bc_idx_t) : M unit := locked (bc_arch_set_ pos arch).

Definition bc_arch_add (arch : bc_idx_t) : M unit :=
  pos <- bc_arch_next ;; bc_arch_set pos arch.

(** ** Specifications *)
Section ok.
Context (Hok : os_ok).

(** The archive is open and holds the same records. *)
Definition arch_same (s s' : st) : Prop :=
  only MArch s s' ∧ db_inv s' ∧ isopen s' MArch ∧ payload s' MArch = payload s MArch.

Lemma su_arch_open s : db_inv s → succeeds bc_arch_open s (λ _ s', arch_same s s').
Proof.
  intros Hd. apply su_locked_only; [done|done|].
  eapply su_mono; [apply (su_ext_open Hok _ MArch); [by apply db_inv_lk|done|done|done]|].
  intros _ s' (Ho & Hd' & Hop & Hb). do 3 (split; [done|]). by apply payload_bytes in Hb.
Qed.

Lemma wp_arch_get s pos :
  db_inv s → 0 ≤ pos →
  wp (bc_arch_get pos) s (λ r s', only MArch s s' ∧ db_inv s' ∧ isopen s' MArch ∧
    payload s' MArch = payload s MArch ∧ r = rec_result (mrecs s MArch) pos).
Proof.
  intros Hd Hp. apply wp_locked_only; [done|done|]. unfold bc_arch_get_. apply wp_bind_su.
  eapply su_mono; [apply su_arch_open; by apply db_inv_lk|].
  intros _ s1 (Ho1 & Hd1 & Hop1 & Hp1). eapply wp_mono; [by apply wp_rec_get|].
  intros r ? [-> ->]. do 4 (split; [done|]). unfold mrecs. by rewrite Hp1.
Qed.

Lemma su_arch_next s :
  db_inv s → succeeds bc_arch_next s (λ n s', arch_same s s' ∧ n = zlen (mrecs s MArch)).
Proof.
  intros Hd. unfold bc_arch_next. apply su_bind. eapply su_mono; [by apply su_arch_open|].
  intros ? s1 Hs1. pose proof Hs1 as (Ho1 & Hd1 & Hop1 & Hp1).
  eapply su_mono; [by apply su_idx_count|].
  intros n ? [-> ->]. split; [done|]. unfold mrecs. by rewrite Hp1.
Qed.

(** [bc_arch_add] appends one record. *)
Lemma su_arch_add s x :
  db_inv s → whole s MArch → idx_wf x → zlen (mrecs s MArch) < 2 ^ 22 →
  succeeds (bc_arch_add x) s (λ _ s', only MArch s s' ∧ db_inv s' ∧ isopen s' MArch ∧
    whole s' MArch ∧ mrecs s' MArch = mrecs s MArch ++ [x]).
Proof.
  intros Hd Hw Hx Hcap. unfold bc_arch_add. apply su_bind.
  eapply su_mono; [by apply su_arch_next|]. intros pos s1 ((Ho1 & Hd1 & Hop1 & Hp1) & ->).
  set (n := zlen (mrecs s MArch)).
  assert (Er1 : mrecs s1 MArch = mrecs s MArch) by (unfold mrecs; by rewrite Hp1).
  eapply su_mono.
  - apply (su_locked_only Hok MArch (bc_arch_set_ n x) s1
      (λ _ s', isopen s' MArch ∧ whole s' MArch ∧ mrecs s' MArch = mrecs s MArch ++ [x])); [done|].
    set (s1' := set_lk s1 _). unfold bc_arch_set_. apply su_bind.
    eapply su_mono; [apply (su_arch_open s1'); by apply db_inv_lk|].
    intros _ s2 (Ho2 & Hd2 & Hop2 & Hp2). apply wp_bind, wp_try.
    eapply wp_mono; [apply wp_arch_get; [done|lia]|].
    intros r s3 (Ho3 & Hd3 & Hop3 & Hp3 & Er).
    assert (Er2 : mrecs s2 MArch = mrecs s MArch) by (unfold mrecs; rewrite Hp2; exact Er1).
    assert (Er3 : mrecs s3 MArch = mrecs s MArch) by (unfold mrecs; rewrite Hp3; exact Er2).
    rewrite Er2 in Er.
    assert (Hnoent : rec_result (mrecs s MArch) n = Error ERR_NOENT).
    { unfold rec_result. by rewrite lookup_ge_None_2 by lia. }
    eapply su_mono.
    { eapply (su_rec_set Hok s3); try done; rewrite ?Er3; try done.
      - unfold whole. rewrite Hp3, Hp2. change (payload s1') with (payload s1). by rewrite Hp1.
      - unfold n. lia.
      - by rewrite Er. }
    intros _ s4 (Ho4 & Hd4 & Hop4 & Hw4 & Hr4).
    split; [etrans; [exact Ho2|]; by etrans|]. do 3 (split; [done|]).
    rewrite Hr4, Er3. unfold rec_put. by rewrite decide_False by (unfold n; lia).
  - intros _ s2 (Ho2 & Hd2 & ? & ? & ?). split; [by etrans|]. done.
Qed.

Lemma wp_arch_find_loop s h n :
  db_inv s → isopen s MArch → (n ≤ length (mrecs s MArch))%nat →
  wp (arch_find_loop h n) s (λ r s', s' = s ∧
    r = match last_idx (matches h) (mrecs s MArch) n with
        | Some i => match mrecs s MArch !! i with
                    | Some x => Done (x, Z.of_nat i) | None => Error ERR_NOENT end
        | None => Error ERR_NOENT
        end).
Proof.
  intros Hd Hop. induction n as [|n IH]; intros Hn; cbn [arch_find_loop last_idx]; [done|].
  apply wp_bind_su. eapply su_mono; [apply su_idx_load; [done|done|lia]|]. intros x ? [-> Hl].
  rewrite Nat2Z.id in Hl. rewrite Hl. unfold matches at 1.
  destruct (idx_size x =? 0); cbn [negb andb]; [apply IH; lia|].
  destruct (bc_hash_cmp h (idx_hash x)); [|apply IH; lia]. apply wp_ret. by rewrite Hl.
Qed.

Lemma wp_arch_find s h :
  db_inv s →
  wp (bc_arch_find h) s (λ r s', arch_same s s' ∧ r = find_result h (mrecs s MArch)).
Proof.
  intros Hd. unfold bc_arch_find. apply wp_bind_su. eapply su_mono; [by apply su_arch_open|].
  intros ? s1 Hs1. pose proof Hs1 as (Ho1 & Hd1 & Hop1 & Hp1).
  assert (Er1 : mrecs s1 MArch = mrecs s MArch) by (unfold mrecs; by rewrite Hp1).
  apply wp_bind_su. eapply su_mono; [by apply su_idx_count|]. intros ? ? [-> ->].
  pose proof (mrecs_cap s1 MArch Hd1).
  assert (Z.to_nat (i32 (u32 (u32 (zlen (mrecs s1 MArch)) - 1)) + 1) = length (mrecs s1 MArch)) as ->.
  { rewrite (u32_small (zlen _)) by lia. destruct (decide (length (mrecs s1 MArch) = 0%nat)) as [->|]; [done|].
    rewrite u32_small, i32_small by lia. lia. }
  eapply wp_mono; [by apply wp_arch_find_loop|]. intros r ? [-> ->]. split; [done|].
  unfold find_result. by rewrite Er1.
Qed.

Lemma su_arch_close s :
  db_inv s → succeeds bc_arch_close s (λ _ s', only MArch s s' ∧ db_inv s' ∧
    mfile s' MArch = mfile s MArch ∧ map_fd (arch_map (st_bc s')) = 0).
Proof.
  intros Hd. apply su_if_locked; [done|done|].
  eapply su_mono; [apply su_close_if; [by apply db_inv_lk|done]|].
  intros _ s' (Ho & Hd' & Hm & mp & Hg & Hfd). do 3 (split; [done|]).
  simpl in Hg. congruence.
Qed.
End ok.
End arch.
