(* ===== verification/Block.v ===== *)
(** * Block records

    [src/shioncoin/blockchain/bc_block.c]: records addressed by position and by
    hash, their data in journals of 65536 records, and the maintenance of the
    open maps. *)

From S2P Require Import Prelude Errors Descriptor Vfs BcState Fmap FmapInv Db Table Crc Index IndexInv Arch.

Definition BC_BLOCKS_PER_JOURNAL : Z := 65536.
Definition BCMAP_IDLE_TIME : Z := 240.
Definition BC_MAX_NAME_LENGTH : nat := 136.

(** [uint32_t bc_journal(int pos)]. *)
Definition bc_journal (pos : Z) : Z := u32 (Z.quot (i32 pos) BC_BLOCKS_PER_JOURNAL + 1).

(** [strncpy(dst, src, n)] into zeroed memory. *)
Definition strncpy (n : nat) (src : string) : string := String.substring 0 n src.

Definition set_data (s : st) (d : list bc_map_t) : st :=
  set_bc s (Bc (bc_name (st_bc s)) (idx_map (st_bc s)) (tab_map (st_bc s)) (arch_map (st_bc s)) d).

Section block.
Context `{Env}.

Definition jmap (jrnl : Z) : mapid := MData (Z.to_nat jrnl).

(** The array of maps is reallocated to [jrnl + 1] entries, new ones zeroed. *)
Definition bc_alloc_grow (jrnl : Z) : M unit :=
  modify (λ s, let d := data_map (st_bc s) in
    if zlen d <=? jrnl
    then set_data s (d ++ replicate (Z.to_nat (u32 (jrnl + 1)) - length d) null_map)
    else s).
Definition bc_alloc (jrnl : Z) : M unit :=
  bc_alloc_grow jrnl ;;;
  mp <- get_map (jmap jrnl) ;;
  (if String.eqb (map_ext mp) ""
   then put_map (jmap jrnl) (map_set_ext mp (pretty (Z.to_N jrnl))) else ret tt) ;;;
  bc_map_alloc (jmap jrnl) 0.

(** The undo of a failed store: both results are ignored. *)
Definition bc_unwrite (pos : Z) (hash : bc_hash_t) (e : Z) : M unit :=
  try (bc_idx_clear pos) ;;; try (bc_table_reset hash) ;;; throw e.

(** After [bc_alloc] the extension of the map is set, so the second
    [sprintf(map->ext, ...)] of the callers does nothing. *)
Definition bc_rewrite_ (pos : Z) (hash : bc_hash_t) (data : list byte) : M unit :=
  let jrnl := bc_journal pos in
  bc_alloc jrnl ;;;
  idx <- bc_idx_get pos ;;
  if idx_size idx <? u32 (zlen data) then throw ERR_EXIST
  else
    let idx := BcIdx (idx_jrnl idx) (idx_of idx) (u32 (zlen data)) (shcrc32 data)
                 (idx_reserved_0 idx) (idx_reserved_1 idx) (idx_hash idx) in
    bc_idx_reset pos idx ;;;
    r <- try (bc_map_write (jmap jrnl) (idx_of idx) data) ;;
    match r with
    | Error e => bc_unwrite pos hash e
    | Done _ => ret tt
    end.
Definition bc_rewrite (pos : Z) (hash : bc_hash_t) (data : list byte) : M unit :=
  locked (bc_rewrite_ pos hash data).

Definition bc_write_ (pos : Z) (hash : bc_hash_t) (data : list byte) : M unit :=
  let jrnl := bc_journal pos in
  bc_alloc jrnl ;;;
  hof <- hdr_get_of (jmap jrnl) ;;
  let idx := BcIdx jrnl hof (u32 (zlen data)) (shcrc32 data) 0 0 hash in
  r <- try (bc_idx_set pos idx) ;;
  match r with
  | Error e => if negb (e =? ERR_EXIST) then throw e else bc_rewrite_ pos hash data
  | Done _ =>
     r <- try (bc_map_append (jmap jrnl) data) ;;
     match r with
     | Error e => bc_unwrite pos hash e
     | Done _ => ret tt
     end
  end.
Definition bc_write (pos : Z) (hash : bc_hash_t) (data : list byte) : M unit :=
  locked (bc_write_ pos hash data).

Definition bc_append_ (hash : bc_hash_t) (data : list byte) : M unit :=
  bc_idx_open ;;;
  pos <- bc_idx_next ;;
  bc_write pos hash data.
Definition bc_append (hash : bc_hash_t) (data : list byte) : M unit :=
  locked (bc_append_ hash data).

(** The record's bytes in its journal, checked against its checksum. *)
Definition bc_fetch (idx : bc_idx_t) : M (list byte) :=
  bs <- raw_read (jmap (idx_jrnl idx)) (idx_of idx) (Z.to_nat (idx_size idx)) ;;
  if negb (shcrc32 bs =? idx_crc idx) then throw ERR_ILSEQ else ret bs.

(** The [data_len] bytes the caller's buffer holds afterwards. *)
Definition bc_read_ (pos data_len : Z) : M (list byte) :=
  idx <- bc_idx_get pos ;;
  bc_alloc (idx_jrnl idx) ;;;
  mp <- get_map (jmap (idx_jrnl idx)) ;;
  if map_size mp <=? idx_of idx then throw ERR_IO
  else
    bs <- bc_fetch idx ;;
    ret (take (Z.to_nat data_len) bs ++ replicate (Z.to_nat data_len - length bs) x00).
Definition bc_read (pos data_len : Z) : M (list byte) := locked (bc_read_ pos data_len).

Definition bc_get_ (pos : Z) : M (list byte) :=
  idx <- bc_idx_get pos ;; bc_read pos (idx_size idx).
Definition bc_get (pos : Z) : M (list byte) := locked (bc_get_ pos).

Definition bc_arch_ (pos : Z) : M (list byte) :=
  idx <- bc_arch_get pos ;;
  bc_alloc (idx_jrnl idx) ;;;
  bc_fetch idx.
Definition bc_arch (pos : Z) : M (list byte) := locked (bc_arch_ pos).

Definition bc_get_hash (pos : Z) : M bc_hash_t := idx <- bc_idx_get pos ;; ret (idx_hash idx).

Definition bc_find (hash : bc_hash_t) : M Z := r <- bc_idx_find hash ;; ret r.2.

Definition bc_clear (pos : Z) : M unit :=
  idx <- bc_idx_get pos ;;
  bc_arch_add idx ;;;
  bc_idx_clear pos.

(** [for (t_pos = ...; t_pos >= pos; t_pos--)] on unsigned 32-bit integers;
    [false] when [fuel] iterations were not enough. *)
Fixpoint purge_loop (fuel : nat) (pos t_pos : Z) : M bool :=
  if negb (pos <=? t_pos) then ret true
  else
    match fuel with
    | O => ret false
    | S fuel =>
       try (bc_clear t_pos) ;;;
       r <- try (bc_idx_get t_pos) ;;
       match r with
       | Done t_idx => try (bc_table_reset (idx_hash t_idx)) ;;; ret tt
       | Error _ => ret tt
       end ;;;
       purge_loop fuel pos (u32 (t_pos - 1))
    end.
Definition bc_purge_ (fuel : nat) (pos : Z) : M bool :=
  idx <- bc_idx_get pos ;;
  bc_alloc (idx_jrnl idx) ;;;
  bc_fetch idx ;;;
  r <- try bc_idx_next ;;
  let max_rec := match r with Done n => u32 n | Error _ => 0 end in
  if max_rec =? 0 then ret true else purge_loop fuel pos (u32 (max_rec - 1)).
Definition bc_purge (fuel : nat) (pos : Z) : M bool := locked (bc_purge_ fuel pos).

Definition bc_arch_write_ (hash : bc_hash_t) (data : list byte) : M unit :=
  pos <- bc_idx_next ;;
  let jrnl := bc_journal pos in
  bc_alloc jrnl ;;;
  hof <- hdr_get_of (jmap jrnl) ;;
  let idx := BcIdx jrnl hof (u32 (zlen data)) (shcrc32 data) 0 0 hash in
  bc_map_append (jmap jrnl) data ;;;
  bc_arch_add idx.
Definition bc_arch_write (hash : bc_hash_t) (data : list byte) : M unit :=
  locked (bc_arch_write_ hash data).

(** ** Opening and closing the database *)
Definition bc_open (name : string) : M unit :=
  modify (λ s, St (st_w s) (null_bc (strncpy (BC_MAX_NAME_LENGTH - 1) name)) 0) ;;;
  bc_idx_open.

(** Close the data maps [i], [i + 1], ... *)
Fixpoint close_data (i n : nat) : M unit :=
  match n with
  | O => ret tt
  | S n => bc_map_close (MData i) ;;; close_data (S i) n
  end.
Definition bc_close : M unit :=
  bc_lock ;;;
  bc_idx_close ;;;
  bc_table_close ;;;
  s <- get ;;
  close_data 0 (length (data_map (st_bc s))) ;;;
  modify (λ s, set_data s []) ;;;
  bc_unlock.

(** The first data map that is open and was not used for a while. *)
Fixpoint idle_pick (now : Z) (i : nat) (maps : list bc_map_t) : option nat :=
  match maps with
  | [] => None
  | mp :: maps =>
     if negb (map_fd mp =? 0) && (map_stamp mp + BCMAP_IDLE_TIME <=? now) then Some i
     else idle_pick now (S i) maps
  end.
Definition bc_idle : M unit :=
  l <- bc_trylock ;;
  if l then
    s <- get ;;
    let pick := idle_pick (w_time (st_w s)) 0 (data_map (st_bc s)) in
    bc_unlock ;;;
    match pick with
    | None => ret tt
    | Some i =>
       l <- bc_trylock ;;
       if l then bc_map_close (MData i) ;;; bc_unlock else ret tt
    end
  else ret tt.
End block.
