(* ===== verification/BlockSpec.v ===== *)
(** * Block records: invariant

    The invariant of the records of a database: every record in use lies in
    its journal with its checksum, no two records (main chain or archive) share
    bytes, and the table is a sound cache. *)

From S2P Require Import Prelude Errors Descriptor Vfs BcState Fmap FmapInv Crc Db Table Index IndexInv Arch Block.

Lemma le_dec_take_range n l : 0 ≤ le_dec (take n l) < 256 ^ Z.of_nat n.
Proof.
  pose proof (le_dec_range (take n l)) as Hr. rewrite length_take in Hr.
  pose proof (Z.pow_le_mono_r 256 (Z.of_nat (n `min` length l)) (Z.of_nat n) ltac:(lia) ltac:(lia)). lia.
Qed.

Lemma words_wf n l : length (words n l) = n ∧ Forall (λ w, 0 ≤ w < 2 ^ 32) (words n l).
Proof.
  revert l. induction n as [|n IH]; intros l; cbn [words]; [done|].
  destruct (IH (drop 4 l)) as [Hl Hf]. split; [simpl; by rewrite Hl|].
  constructor; [|done]. apply (le_dec_take_range 4 l).
Qed.

(** Whatever the bytes, the fields of a decoded record are in range. *)
Lemma idx_dec_wf l : idx_wf (idx_dec l).
Proof.
  unfold idx_wf, idx_dec; cbn [idx_jrnl idx_of idx_size idx_crc idx_reserved_0 idx_reserved_1 idx_hash].
  repeat split; try apply (le_dec_take_range 4); try apply (le_dec_take_range 8); apply (words_wf 8).
Qed.

(** The journal number of a position in the supported range. *)
Lemma bc_journal_small pos : 0 ≤ pos < 2 ^ 22 → bc_journal pos = pos / 65536 + 1 ∧ 1 ≤ bc_journal pos ≤ 64.
Proof.
  intros Hp. unfold bc_journal, BC_BLOCKS_PER_JOURNAL. rewrite i32_small by lia.
  rewrite Z.quot_div_nonneg by lia.
  pose proof (Z.div_pos pos 65536 ltac:(lia) ltac:(lia)).
  pose proof (Z.div_lt_upper_bound pos 65536 64 ltac:(lia) ltac:(lia)).
  rewrite u32_small by lia. lia.
Qed.

Section inv.
Context `{Env}.

(** ** Steps that change no record *)
Record quiet (s s' : st) : Prop := {
  qu_frame : frame s s';
  qu_db : db_inv s';
  qu_pay m : payload s' m = payload s m;
  qu_tab k : tabval s' k = tabval s k;
  qu_open m : isopen s m → isopen s' m;
}.

#[global] Instance quiet_trans : Transitive quiet.
Proof.
  intros s1 s2 s3 [] []. split; [by etrans|done|..]; intros; [congruence|congruence|auto].
Qed.

Lemma quiet_refl s : db_inv s → quiet s s.
Proof. by split. Qed.

Lemma quiet_only m s s' :
  only m s s' → db_inv s' → isopen s' m → payload s' m = payload s m → m ≠ MTab → quiet s s'.
Proof.
  intros Ho Hd Hop Hp Hm. split; [by eapply only_frame|done|..].
  - intros m'. destruct (decide (m' = m)) as [->|]; [done|]. by eapply payload_only.
  - intros k. by eapply tabval_only.
  - intros m'. destruct (decide (m' = m)) as [->|]; [done|]. by eapply isopen_only.
Qed.

Lemma quiet_recs s s' m : quiet s s' → mrecs s' m = mrecs s m.
Proof. intros Hq. unfold mrecs. by rewrite (qu_pay _ _ Hq). Qed.
Lemma quiet_cache s s' : quiet s s' → cache_ok s → cache_ok s'.
Proof. intros Hq. apply cache_ok_eq; [apply Hq|apply Hq]. Qed.
Lemma quiet_lk s s' :
  quiet (set_lk s (st_lk s + 1)) s' → quiet s (set_lk s' (st_lk s' - 1)).
Proof.
  intros [Hf Hd Hp Ht Ho]. split; [by apply frame_lock|by apply db_inv_lk|..]; try done.
Qed.

(** ** Records *)
Definition rdata (s : st) (x : bc_idx_t) : list byte :=
  take (Z.to_nat (idx_size x)) (drop (Z.to_nat (idx_of x)) (payload s (jmap (idx_jrnl x)))).

Record rec_ok (s : st) (x : bc_idx_t) : Prop := {
  ro_jrnl : 1 ≤ idx_jrnl x ≤ 64;
  ro_len : idx_of x + idx_size x ≤ zlen (payload s (jmap (idx_jrnl x)));
  ro_crc : shcrc32 (rdata s x) = idx_crc x;
}.

Definition apart (x y : bc_idx_t) : Prop :=
  idx_jrnl x ≠ idx_jrnl y ∨ idx_of x + idx_size x ≤ idx_of y ∨ idx_of y + idx_size y ≤ idx_of x.

#[global] Instance apart_symm : Symmetric apart.
Proof. unfold apart. intros x y. intuition congruence. Qed.

(** Where a record is: index or archive, and the position there. *)
Inductive loc := LIdx (i : nat) | LArch (i : nat).
#[global] Instance loc_eq_dec : EqDecision loc.
Proof. solve_decision. Defined.

Definition rec_at_loc (s : st) (l : loc) : option bc_idx_t :=
  match l with LIdx i => mrecs s MIdx !! i | LArch i => mrecs s MArch !! i end.

(** A record in use. *)
Definition live (s : st) (l : loc) (x : bc_idx_t) : Prop :=
  rec_at_loc s l = Some x ∧ idx_size x ≠ 0.

Record store_inv (s : st) : Prop := {
  si_db : db_inv s;
  si_idx : whole s MIdx;
  si_arch : whole s MArch;
  si_cache : cache_ok s;
  si_ok l x : live s l x → rec_ok s x;
  si_apart l l' x y : live s l x → live s l' y → l ≠ l' → apart x y;
  si_jrnl i x : live s (LIdx i) x → idx_jrnl x = bc_journal (Z.of_nat i);
}.

Lemma mrecs_wf s m i x : mrecs s m !! i = Some x → idx_wf x.
Proof.
  unfold mrecs. rewrite recs_lookup. case_decide; [|done]. intros [= <-]. apply idx_dec_wf.
Qed.
Lemma live_wf s l x : live s l x → idx_wf x.
Proof. intros [Hl _]. destruct l; by eapply mrecs_wf. Qed.
Lemma live_size s l x : live s l x → 0 < idx_size x < 2 ^ 32 ∧ 0 ≤ idx_of x < 2 ^ 32.
Proof. intros Hl. pose proof (live_wf _ _ _ Hl) as (_ & ? & ? & _). destruct Hl. lia. Qed.

Lemma length_rdata s l x : store_inv s → live s l x → zlen (rdata s x) = idx_size x.
Proof.
  intros Hi Hl. pose proof (ro_len _ _ (si_ok _ Hi _ _ Hl)). pose proof (live_size _ _ _ Hl).
  unfold rdata. rewrite length_take, length_drop. lia.
Qed.

(** The same records, whatever the table caches. *)
Definition same_recs (s s' : st) : Prop := ∀ m, m ≠ MTab → payload s' m = payload s m.

Lemma same_rdata s s' x : same_recs s s' → rdata s' x = rdata s x.
Proof. intros Hq. unfold rdata. by rewrite Hq. Qed.
Lemma same_live s s' l x : same_recs s s' → live s' l x ↔ live s l x.
Proof. intros Hq. unfold live. destruct l; simpl; unfold mrecs; by rewrite Hq. Qed.
Lemma quiet_same s s' : quiet s s' → same_recs s s'.
Proof. intros Hq m _. apply Hq. Qed.

Lemma store_same s s' : same_recs s s' → db_inv s' → cache_ok s' → store_inv s → store_inv s'.
Proof.
  intros Hq Hd Hc Hi. split; [done|..].
  - unfold whole. rewrite Hq by done. apply Hi.
  - unfold whole. rewrite Hq by done. apply Hi.
  - done.
  - intros l x. rewrite (same_live _ _ _ _ Hq). intros Hl. destruct (si_ok _ Hi _ _ Hl).
    split; [done|by rewrite Hq|by rewrite (same_rdata _ _ _ Hq)].
  - intros l l' x y. rewrite !(same_live _ _ _ _ Hq). apply (si_apart _ Hi).
  - intros i x. rewrite (same_live _ _ _ _ Hq). apply (si_jrnl _ Hi).
Qed.

Lemma store_quiet s s' : quiet s s' → store_inv s → store_inv s'.
Proof.
  intros Hq Hi. apply (store_same s); [by apply quiet_same|apply Hq| |done].
  eapply quiet_cache; [done|apply Hi].
Qed.

(** A step that stores record [x] at [l0] and keeps the bytes of the others. *)
Lemma store_put s s' l0 x :
  store_inv s → db_inv s' → whole s' MIdx → whole s' MArch → cache_ok s' →
  (∀ l, rec_at_loc s' l = if decide (l = l0) then Some x else rec_at_loc s l) →
  (∀ l y, l ≠ l0 → live s l y →
    idx_of y + idx_size y ≤ zlen (payload s' (jmap (idx_jrnl y))) ∧ rdata s' y = rdata s y) →
  (idx_size x ≠ 0 → rec_ok s' x ∧ (∀ l y, l ≠ l0 → live s l y → apart x y) ∧
    (∀ i, l0 = LIdx i → idx_jrnl x = bc_journal (Z.of_nat i))) →
  store_inv s'.
Proof.
  intros Hi Hd Hwi Hwa Hc Hat Hkeep Hx.
  assert (Hlive : ∀ l y, live s' l y →
    l = l0 ∧ y = x ∧ idx_size x ≠ 0 ∨ l ≠ l0 ∧ live s l y).
  { intros l y [Hl Hs]. rewrite Hat in Hl. case_decide; [left|right; by split].
    injection Hl as <-. done. }
  split; try done.
  - intros l y [(-> & -> & Hs)|[Hne Hl]]%Hlive; [by apply Hx|].
    destruct (si_ok _ Hi _ _ Hl). destruct (Hkeep _ _ Hne Hl) as [? E].
    split; [done|done|by rewrite E].
  - intros l l' y z [(-> & -> & Hs)|[Hne Hl]]%Hlive [(-> & -> & Hs')|[Hne' Hl']]%Hlive Hll.
    + done.
    + by apply (Hx Hs) with l'.
    + symmetry. by apply (Hx Hs') with l.
    + by eapply (si_apart _ Hi).
  - intros i y [(E & -> & Hs)|[Hne Hl]]%Hlive; [by apply (Hx Hs)|by apply (si_jrnl _ Hi)].
Qed.

(** A step that moves the record at index [i] to the end of the archive. *)
Lemma store_move s s' i x :
  store_inv s → db_inv s' → whole s' MIdx → whole s' MArch → cache_ok s' →
  live s (LIdx i) x →
  mrecs s' MIdx = <[i := blank_idx]> (mrecs s MIdx) →
  mrecs s' MArch = mrecs s MArch ++ [x] →
  (∀ j, payload s' (jmap j) = payload s (jmap j)) → store_inv s'.
Proof.
  intros Hi Hd Hwi Hwa Hc Hx Hri Hra Hp.
  assert (Hlive : ∀ l y, live s' l y →
    l = LArch (length (mrecs s MArch)) ∧ y = x ∨
    l ≠ LArch (length (mrecs s MArch)) ∧ l ≠ LIdx i ∧ live s l y).
  { intros [k|k] y [Hl Hs]; simpl in Hl.
    - right. split; [done|]. rewrite Hri in Hl. destruct (decide (k = i)) as [->|Hne].
      + rewrite list_lookup_insert_eq in Hl by (destruct Hx; by eapply lookup_lt_Some).
        injection Hl as <-. done.
      + rewrite list_lookup_insert_ne in Hl by done. split; [congruence|by split].
    - rewrite Hra in Hl. apply lookup_app_Some in Hl as [Hl|[Hge Hl]].
      + right. split; [apply lookup_lt_Some in Hl; intros [= ->]; lia|]. split; [done|by split].
      + left. apply list_lookup_singleton_Some in Hl as [? <-]. split; [f_equal; lia|done]. }
  assert (Hrd : ∀ y, rdata s' y = rdata s y) by (intros; unfold rdata; by rewrite Hp).
  assert (Hok : ∀ l y, live s l y → rec_ok s' y).
  { intros l y Hl. destruct (si_ok _ Hi _ _ Hl). split; [done|by rewrite Hp|by rewrite Hrd]. }
  split; try done.
  - intros l y [[-> ->]|(_ & _ & Hl)]%Hlive; by eapply Hok.
  - intros l l' y z [[-> ->]|(Ha & Hb & Hl)]%Hlive [[-> ->]|(Ha' & Hb' & Hl')]%Hlive Hll; [done|..].
    + by eapply (si_apart _ Hi).
    + by eapply (si_apart _ Hi).
    + by eapply (si_apart _ Hi).
  - intros k y [[E _]|(_ & _ & Hl)]%Hlive; [done|by apply (si_jrnl _ Hi)].
Qed.
End inv.

(** * Block records: specifications

    Each operation of Block.v on a database that satisfies the invariant of
    BlockInv.v, when the system calls succeed. *)

Section spec.
Context `{Env} (Hok : os_ok).

(** ** [bc_alloc] *)
Lemma data_grow_quiet s d :
  db_inv s →
  quiet s (set_data s (data_map (st_bc s) ++ replicate d null_map)).
Proof.
  intros Hd. set (s' := set_data s _).
  assert (Hg : ∀ m mp, bc_get_map (st_bc s') m = Some mp →
    bc_get_map (st_bc s) m = Some mp ∨ bc_get_map (st_bc s) m = None ∧ mp = null_map).
  { intros [| | |j] mp; simpl; try (by left).
    intros [Hl|[Hge Hl]]%lookup_app_Some; [by left|]. apply lookup_replicate in Hl as [-> _].
    right. split; [by apply lookup_ge_None|done]. }
  assert (Hi : inv s').
  { intros m. destruct (db_base _ Hd m) as [Hf Hm]. split; [apply Hf|].
    intros mp [Hmp|[_ ->]]%Hg; [by apply Hm|]. split; [by right|]. by split. }
  assert (Hd' : db_inv s').
  { split; [done|..]; try apply Hd.
    intros m mp [Hmp|[_ ->]]%Hg; [by eapply (db_live _ Hd)|done]. }
  split; try done. intros m (mp & [Hmp He] & Hop). exists mp. split; [|done]. split; [|done].
  destruct m; simpl in *; try done. by apply lookup_app_l_Some.
Qed.

Lemma su_bc_alloc s j :
  db_inv s → 0 ≤ j < 2 ^ 31 → succeeds (bc_alloc j) s (λ _ s', quiet s s' ∧ isopen s' (jmap j)).
Proof.
  intros Hd Hj. unfold bc_alloc, bc_alloc_grow. apply wp_bind, wp_modify. cbv zeta.
  assert (∃ s1, (if zlen (data_map (st_bc s)) <=? j
      then set_data s (data_map (st_bc s) ++
        replicate (Z.to_nat (u32 (j + 1)) - length (data_map (st_bc s))) null_map)
      else s) = s1 ∧ quiet s s1 ∧ is_Some (data_map (st_bc s1) !! Z.to_nat j))
    as (s1 & -> & Hq1 & [mp Hg]).
  { eexists. split; [done|]. destruct (Z.leb_spec (zlen (data_map (st_bc s))) j).
    - split; [by apply data_grow_quiet|]. simpl. apply lookup_lt_is_Some.
      rewrite length_app, length_replicate, u32_small by lia. lia.
    - split; [by apply quiet_refl|]. apply lookup_lt_is_Some. lia. }
  pose proof (qu_db _ _ Hq1) as Hd1. apply wp_bind. eapply wp_get_map; [exact Hg|].
  assert (Hext : cext (jmap j) = pretty (Z.to_N j)) by (unfold jmap, cext; f_equal; lia).
  destruct (db_base _ Hd1 (jmap j)) as [_ Hm]. destruct (Hm _ Hg) as (He & _).
  assert (Hend : ∀ s2 mp2, db_inv s2 → only (jmap j) s1 s2 → named s2 (jmap j) mp2 →
    payload s2 (jmap j) = payload s1 (jmap j) →
    succeeds (bc_map_alloc (jmap j) 0) s2 (λ _ s', quiet s s' ∧ isopen s' (jmap j))).
  { intros s2 mp2 Hd2 Ho2 Hn2 Hp2. eapply su_mono; [by eapply su_alloc0|].
    intros _ s3 (Ho3 & Hd3 & Hop3 & Hb3). split; [|done]. etrans; [exact Hq1|].
    eapply (quiet_only (jmap j)); [by etrans|done|done| |done].
    rewrite <-Hp2. by apply payload_bytes. }
  destruct (String.eqb_spec (map_ext mp) "") as [E|E].
  - destruct He as [He|[_ Hfd]]; [by rewrite He in E; apply cext_ne_empty in E|].
    destruct (db_set_ext s1 (jmap j) mp Hd1 Hg Hfd) as (Hd2 & Ho2 & Hn2 & Hm2).
    apply wp_bind, wp_put_map. rewrite <-Hext. eapply Hend; [done|done|exact Hn2|].
    unfold payload. by rewrite Hm2.
  - destruct He as [He|[He _]]; [|done]. apply wp_bind, wp_ret.
    eapply Hend; [done|done|split; [exact Hg|done]|done].
Qed.

Lemma su_hdr_get s m : db_inv s → isopen s m →
  succeeds (hdr_get_of m) s (λ n s', s' = s ∧ n = zlen (payload s m)).
Proof.
  intros Hd (mp & Hn & Hfd & Hh). eapply wp_hdr_get_of; [apply Hd|done..|].
  by rewrite payload_len.
Qed.

(** ** Reading *)
Lemma su_fetch s x :
  db_inv s → rec_ok s x → isopen s (jmap (idx_jrnl x)) → 0 ≤ idx_of x → 0 ≤ idx_size x →
  succeeds (bc_fetch x) s (λ bs s', s' = s ∧ bs = rdata s x).
Proof.
  intros Hd [_ Hl Hc] (mp & Hn & Hfd & Hh) H0 H1. unfold bc_fetch.
  pose proof (local_file_ok _ _ (db_base _ Hd (jmap (idx_jrnl x)))) as (_ & _ & _ & _ & _ & Hf).
  rewrite payload_len in Hl. apply wp_bind.
  eapply wp_raw_read; [apply Hd|done..|lia|]. cbv beta iota.
  assert (fread (mfile s (jmap (idx_jrnl x))) (HDR + idx_of x) (Z.to_nat (idx_size x)) = rdata s x) as ->.
  { unfold rdata, payload, fpayload. rewrite fread_drop, fread_take by lia. f_equal. lia. }
  rewrite Hc, Z.eqb_refl. by apply wp_ret.
Qed.

Lemma wp_get_rec s pos :
  db_inv s → 0 ≤ pos →
  wp (bc_idx_get pos) s (λ r s', quiet s s' ∧ r = rec_result (mrecs s MIdx) pos).
Proof.
  intros Hd Hp. eapply wp_mono; [by apply wp_idx_get|].
  intros r s' (Ho & Hd' & Hop & Hpay & ->). split; [by eapply quiet_only|done].
Qed.

Lemma wp_get_arch s pos :
  db_inv s → 0 ≤ pos →
  wp (bc_arch_get pos) s (λ r s', quiet s s' ∧ r = rec_result (mrecs s MArch) pos).
Proof.
  intros Hd Hp. eapply wp_mono; [by apply wp_arch_get|].
  intros r s' (Ho & Hd' & Hop & Hpay & ->). split; [by eapply quiet_only|done].
Qed.

(** A look-up followed by work on the record found. *)
Lemma wp_bind_rec {B} (op : M bc_idx_t) s l (k : bc_idx_t → M B) pos (Q : result B → st → Prop) :
  wp op s (λ r s', quiet s s' ∧ r = rec_result l pos) →
  (∀ s', quiet s s' → rec_result l pos = Error ERR_NOENT → Q (Error ERR_NOENT) s') →
  (∀ s' x, quiet s s' → rec_result l pos = Done x → wp (k x) s' Q) →
  wp (bind op k) s Q.
Proof.
  intros Hop Hn Hf. apply wp_bind. eapply wp_mono; [exact Hop|]. intros r s' [Hq ->].
  unfold rec_result in *. destruct (l !! Z.to_nat pos) as [x|] eqn:E; [|by apply Hn].
  destruct (idx_size x =? 0); [by apply Hn|by apply Hf].
Qed.

Lemma rec_live_idx s pos x :
  0 ≤ pos → rec_result (mrecs s MIdx) pos = Done x ↔ live s (LIdx (Z.to_nat pos)) x.
Proof. intros. apply rec_result_Done. Qed.
Lemma rec_live_arch s pos x :
  0 ≤ pos → rec_result (mrecs s MArch) pos = Done x ↔ live s (LArch (Z.to_nat pos)) x.
Proof. intros. apply rec_result_Done. Qed.

(** The record is found again, and its bytes. *)
Lemma su_alloc_fetch s l x :
  store_inv s → live s l x →
  succeeds (bc_alloc (idx_jrnl x) ;;; bc_fetch x) s (λ bs s', quiet s s' ∧ bs = rdata s x).
Proof.
  intros Hi Hl. pose proof (si_ok _ Hi _ _ Hl) as Hro. pose proof (live_size _ _ _ Hl).
  apply su_bind. eapply su_mono; [apply su_bc_alloc; [apply Hi|destruct Hro; lia]|].
  intros _ s1 [Hq Hop]. assert (Hro1 : rec_ok s1 x).
  { apply (si_ok _ (store_quiet _ _ Hq Hi) l). by rewrite (same_live _ _ _ _ (quiet_same _ _ Hq)). }
  eapply su_mono; [apply su_fetch; [apply Hq|done|done|lia|lia]|].
  intros bs ? [-> ->]. split; [done|]. by apply same_rdata, quiet_same.
Qed.

(** What a caller learns from record [pos] of list [l]. *)
Definition get_result (s : st) (l : list bc_idx_t) (pos : Z) : result (list byte) :=
  match rec_result l pos with
  | Done x => Done (rdata s x)
  | Error e => Error e
  end.

Lemma wp_locked_quiet {A} (op : M A) s (P : result A → Prop) :
  wp op (set_lk s (st_lk s + 1)) (λ r s', quiet (set_lk s (st_lk s + 1)) s' ∧ P r) →
  wp (locked op) s (λ r s', quiet s s' ∧ P r).
Proof.
  intros Hop. apply wp_locked_ok; [done|]. eapply wp_mono; [exact Hop|].
  intros r s' [Hq HP]. split; [by apply quiet_lk|done].
Qed.

Lemma store_inv_lk s d : store_inv s → store_inv (set_lk s d).
Proof. intros Hi. apply (store_same s); [done|apply db_inv_lk, Hi|apply Hi|done]. Qed.

Lemma wp_bc_read s pos len :
  store_inv s → 0 ≤ pos → 0 ≤ len →
  wp (bc_read pos len) s (λ r s', quiet s s' ∧
    r = match get_result s (mrecs s MIdx) pos with
        | Done bs => Done (take (Z.to_nat len) bs ++ replicate (Z.to_nat len - length bs) x00)
        | Error e => Error e
        end).
Proof.
  intros Hi Hp Hlen. apply wp_locked_quiet. set (s0 := set_lk s _).
  assert (Hi0 : store_inv s0) by by apply store_inv_lk. unfold bc_read_, get_result.
  eapply wp_bind_rec; [apply wp_get_rec; [apply Hi0|done]|..].
  { intros s' Hq Hr. change (mrecs s0 MIdx) with (mrecs s MIdx) in Hr. by rewrite Hr. }
  intros s1 x Hq1 Hr. change (mrecs s0 MIdx) with (mrecs s MIdx) in Hr. rewrite Hr.
  apply rec_live_idx in Hr as Hl; [|done].
  pose proof (store_quiet _ _ Hq1 Hi0) as Hi1.
  assert (Hl1 : live s1 (LIdx (Z.to_nat pos)) x) by by rewrite (same_live _ _ _ _ (quiet_same _ _ Hq1)).
  pose proof (si_ok _ Hi1 _ _ Hl1) as Hro. pose proof (live_size _ _ _ Hl).
  apply wp_bind_su. eapply su_mono; [apply su_bc_alloc; [apply Hi1|destruct Hro; lia]|].
  intros _ s2 [Hq2 Hop2]. pose proof (store_quiet _ _ Hq2 Hi1) as Hi2.
  assert (Hl2 : live s2 (LIdx (Z.to_nat pos)) x) by by rewrite (same_live _ _ _ _ (quiet_same _ _ Hq2)).
  pose proof (si_ok _ Hi2 _ _ Hl2) as Hro2. pose proof Hop2 as (mp & Hn & Hfd & Hh).
  apply wp_bind. eapply wp_get_map; [apply Hn|].
  destruct (inv_open_file _ _ _ (db_base _ (si_db _ Hi2)) Hn Hfd) as (_ & _ & Hsz). rewrite Hsz by done.
  pose proof (local_file_ok _ _ (db_base _ (si_db _ Hi2) (jmap (idx_jrnl x)))) as (_ & _ & _ & _ & _ & Hf).
  pose proof (ro_len _ _ Hro2) as Hlen2. rewrite payload_len in Hlen2. unfold HDR in Hf.
  destruct (Z.leb_spec (f_size (mfile s2 (jmap (idx_jrnl x)))) (idx_of x)); [lia|].
  apply wp_bind_su. eapply su_mono; [apply su_fetch; [apply Hi2|done|done|lia|lia]|].
  intros bs ? [-> ->]. apply wp_ret. split; [by etrans|].
  assert (rdata s2 x = rdata s x) as ->; [|done].
  rewrite (same_rdata _ _ _ (quiet_same _ _ Hq2)). apply (same_rdata s0), quiet_same, Hq1.
Qed.

Lemma wp_bc_get s pos :
  store_inv s → 0 ≤ pos →
  wp (bc_get pos) s (λ r s', quiet s s' ∧ r = get_result s (mrecs s MIdx) pos).
Proof.
  intros Hi Hp. apply wp_locked_quiet. set (s0 := set_lk s _).
  assert (Hi0 : store_inv s0) by by apply store_inv_lk. unfold bc_get_.
  eapply wp_bind_rec; [apply wp_get_rec; [apply Hi0|done]|..].
  { intros s' Hq Hr. split; [done|]. unfold get_result.
    change (mrecs s0 MIdx) with (mrecs s MIdx) in Hr. by rewrite Hr. }
  intros s1 x Hq1 Hr. pose proof Hr as Hl. apply rec_live_idx in Hl; [|done].
  pose proof (live_size _ _ _ Hl). pose proof (length_rdata _ _ _ Hi0 Hl) as Hlr.
  eapply wp_mono; [apply wp_bc_read; [by eapply store_quiet|done|lia]|].
  intros r s2 [Hq2 ->]. split; [by etrans|]. unfold get_result.
  rewrite (quiet_recs _ _ _ Hq1), Hr. change (mrecs s0 MIdx) with (mrecs s MIdx) in Hr. rewrite Hr.
  rewrite (same_rdata _ _ _ (quiet_same _ _ Hq1)). f_equal.
  rewrite take_ge by lia. replace (_ - _)%nat with 0%nat by lia. apply app_nil_r.
Qed.

Lemma wp_bc_arch s pos :
  store_inv s → 0 ≤ pos →
  wp (bc_arch pos) s (λ r s', quiet s s' ∧ r = get_result s (mrecs s MArch) pos).
Proof.
  intros Hi Hp. apply wp_locked_quiet. set (s0 := set_lk s _).
  assert (Hi0 : store_inv s0) by by apply store_inv_lk. unfold bc_arch_.
  change (mrecs s MArch) with (mrecs s0 MArch). unfold get_result.
  eapply wp_bind_rec; [apply wp_get_arch; [apply Hi0|done]|..].
  { intros s' Hq ->. done. }
  intros s1 x Hq1 Hr. rewrite Hr. apply rec_live_arch in Hr as Hl; [|done].
  eapply su_wp; [eapply su_alloc_fetch; [by eapply store_quiet|]|].
  { by rewrite (same_live _ _ _ _ (quiet_same _ _ Hq1)). }
  intros bs s2 [Hq2 ->]. split; [by etrans|]. f_equal. by apply (same_rdata s0), quiet_same.
Qed.

Lemma wp_bc_get_hash s pos :
  db_inv s → 0 ≤ pos →
  wp (bc_get_hash pos) s (λ r s', quiet s s' ∧
    r = match rec_result (mrecs s MIdx) pos with
        | Done x => Done (idx_hash x) | Error e => Error e end).
Proof.
  intros Hd Hp. unfold bc_get_hash. eapply wp_bind_rec; [by apply wp_get_rec|..].
  { intros s' Hq ->. done. }
  intros s1 x Hq1 ->. by apply wp_ret.
Qed.

Lemma wp_bc_find s h :
  store_inv s →
  wp (bc_find h) s (λ r s', frame s s' ∧ store_inv s' ∧ same_recs s s' ∧
    r = match find_result h (mrecs s MIdx) with
        | Done (_, i) => Done i | Error e => Error e end).
Proof.
  intros Hi. unfold bc_find. apply wp_bind.
  eapply wp_mono; [apply (wp_idx_find Hok s); apply Hi|].
  intros r s' (Hf & Hd & -> & Hc & Hm).
  assert (Hs : same_recs s s') by (intros m ?; by apply Hm).
  assert (Hi' : store_inv s') by by eapply store_same.
  by destruct (find_result h (mrecs s MIdx)) as [[x i]|e].
Qed.

(** ** Writing *)

(** The operation [op] turned the records of [s] into those of [s']. *)
Lemma splice_prefix p off bs a n :
  0 ≤ off ≤ zlen p → Z.of_nat (a + n) ≤ zlen p →
  Z.of_nat (a + n) ≤ off ∨ off + zlen bs ≤ Z.of_nat a →
  take n (drop a (splice p off bs)) = take n (drop a p).
Proof.
  intros Hoff Hk Hdis. unfold splice. destruct Hdis.
  - rewrite drop_app_le by (rewrite length_take; lia).
    rewrite take_app_le by (rewrite length_drop, length_take; lia).
    by rewrite !take_drop_commute, take_take, Nat.min_l by lia.
  - rewrite app_assoc, drop_app_ge by (rewrite length_app, length_take; lia).
    f_equal. rewrite length_app, length_take, drop_drop. f_equal. lia.
Qed.

Lemma jmap_inj j j' : 0 ≤ j → 0 ≤ j' → jmap j = jmap j' → j = j'.
Proof. unfold jmap. intros ?? [= ?]. lia. Qed.

(** Bytes stored in a journal do not disturb a record that is apart. *)
Lemma rdata_splice s s' y j off bs :
  rec_ok s y → 0 ≤ idx_of y → 0 ≤ idx_size y → 1 ≤ j → 0 ≤ off ≤ zlen (payload s (jmap j)) →
  payload s' (jmap j) = splice (payload s (jmap j)) off bs →
  (∀ j', j' ≠ j → 1 ≤ j' → payload s' (jmap j') = payload s (jmap j')) →
  (idx_jrnl y = j → idx_of y + idx_size y ≤ off ∨ off + zlen bs ≤ idx_of y) →
  idx_of y + idx_size y ≤ zlen (payload s' (jmap (idx_jrnl y))) ∧ rdata s' y = rdata s y.
Proof.
  intros [Hj Hl _] H0 H1 Hj1 Hoff Hp Hne Hap. unfold rdata.
  destruct (decide (idx_jrnl y = j)) as [<-|Hjn].
  - rewrite Hp, length_splice by done. split; [lia|]. apply splice_prefix; [done|lia|].
    specialize (Hap eq_refl). lia.
  - by rewrite Hne by (done || lia).
Qed.

(** The state after record [x] was stored at index [pos] and [data] at its
    place in the journal. *)
Lemma store_written s s' pos x data :
  store_inv s → 0 ≤ pos ≤ zlen (mrecs s MIdx) → pos < 2 ^ 22 →
  db_inv s' → whole s' MIdx → cache_ok s' → idx_wf x → idx_jrnl x = bc_journal pos →
  idx_size x = zlen data → idx_crc x = shcrc32 data →
  mrecs s' MIdx = rec_put (mrecs s MIdx) pos x →
  0 ≤ idx_of x ≤ zlen (payload s (jmap (bc_journal pos))) →
  payload s' (jmap (bc_journal pos)) = splice (payload s (jmap (bc_journal pos))) (idx_of x) data →
  (∀ j, j ≠ bc_journal pos → 1 ≤ j → payload s' (jmap j) = payload s (jmap j)) →
  payload s' MArch = payload s MArch →
  (∀ l y, l ≠ LIdx (Z.to_nat pos) → live s l y → apart x y) →
  store_inv s' ∧ rdata s' x = data ∧
  (∀ l y, l ≠ LIdx (Z.to_nat pos) → live s l y → rdata s' y = rdata s y).
Proof.
  intros Hi Hpos Hcap Hd Hw Hc Hwf Hj Hsz Hcrc Hr Hoff Hp Hpj Hpa Hap.
  destruct (bc_journal_small pos) as [_ Hjr]; [lia|].
  assert (Hdata : rdata s' x = data).
  { unfold rdata. rewrite Hj, Hp, Hsz, Nat2Z.id. by apply splice_same. }
  assert (Hkeep : ∀ l y, l ≠ LIdx (Z.to_nat pos) → live s l y →
    idx_of y + idx_size y ≤ zlen (payload s' (jmap (idx_jrnl y))) ∧ rdata s' y = rdata s y).
  { intros l y Hne Hl. pose proof (live_size _ _ _ Hl). pose proof (Hap _ _ Hne Hl) as Ha.
    apply (rdata_splice s s' y (bc_journal pos) (idx_of x) data);
      [by apply (si_ok _ Hi l)|lia|lia|lia|done|done|done|].
    intros Ey. destruct Ha as [Ha|Ha]; [congruence|]. rewrite <-Hsz. lia. }
  split; [|split; [done|intros; by eapply Hkeep]].
  eapply (store_put s s' (LIdx (Z.to_nat pos)) x); try done.
  - unfold whole. rewrite Hpa. apply Hi.
  - intros [i|i]; simpl.
    + rewrite Hr, rec_put_lookup by done. repeat case_decide; congruence.
    + unfold mrecs. by rewrite Hpa.
  - intros _. split; [|split; [done|]].
    + split; [lia| |by rewrite Hdata]. rewrite Hj, Hp, length_splice by done. lia.
    + intros i [= <-]. rewrite Hj. f_equal. lia.
Qed.

(** The effect of a store of [data] in record [x] at index [pos]. *)
Record wrote (s : st) (pos : Z) (x : bc_idx_t) (data : list byte) (s' : st) : Prop := {
  wr_frame : frame s s';
  wr_inv : store_inv s';
  wr_idx : mrecs s' MIdx = rec_put (mrecs s MIdx) pos x;
  wr_arch : mrecs s' MArch = mrecs s MArch;
  wr_data : rdata s' x = data;
  wr_rest l y : l ≠ LIdx (Z.to_nat pos) → live s l y → rdata s' y = rdata s y;
  wr_used j : zlen (payload s' (MData j)) ≤ zlen (payload s (MData j)) + zlen data;
}.

Lemma wrote_lk s pos x data s' :
  wrote (set_lk s (st_lk s + 1)) pos x data s' → wrote s pos x data (set_lk s' (st_lk s' - 1)).
Proof. intros []. split; try done; [by apply frame_lock|by apply store_inv_lk]. Qed.

Lemma quiet_wrote s s1 pos x data s' : quiet s s1 → wrote s1 pos x data s' → wrote s pos x data s'.
Proof.
  intros Hq []. split; try done.
  - etrans; [apply Hq|done].
  - by rewrite <-(quiet_recs _ _ _ Hq).
  - by rewrite <-(quiet_recs _ _ _ Hq).
  - intros l y Hne Hl. rewrite <-(same_rdata s s1) by by apply quiet_same.
    by apply wr_rest0 with l; [|rewrite (same_live _ _ _ _ (quiet_same _ _ Hq))].
  - intros j. by rewrite <-(qu_pay _ _ Hq).
Qed.

Lemma wp_bind_quiet {A B} (op : M A) (k : A → M B) s (P : A → st → Prop) Q :
  succeeds op s (λ a s', quiet s s' ∧ P a s') →
  (∀ a s', quiet s s' → P a s' → wp (k a) s' Q) → wp (bind op k) s Q.
Proof.
  intros Hop Hk. apply wp_bind_su. eapply su_mono; [exact Hop|]. intros a s' [Hq HP]. by apply Hk.
Qed.

(** [_bc_write] at an unused position: the data goes to the end of the
    journal. *)
Definition new_rec (s : st) (pos : Z) (h : bc_hash_t) (data : list byte) : bc_idx_t :=
  BcIdx (bc_journal pos) (zlen (payload s (jmap (bc_journal pos)))) (zlen data) (shcrc32 data) 0 0 h.

Lemma new_rec_wf s pos h data :
  0 ≤ pos < 2 ^ 22 → hash_wf h → zlen (payload s (jmap (bc_journal pos))) + zlen data ≤ CAP →
  idx_wf (new_rec s pos h data).
Proof.
  intros Hp Hh Hc. destruct (bc_journal_small _ Hp) as [_ Hj]. pose proof (shcrc32_range data).
  unfold CAP in *. unfold idx_wf, new_rec; simpl. repeat split; try lia; apply Hh.
Qed.

Lemma wp_write_new s pos h data :
  store_inv s → 0 ≤ pos ≤ zlen (mrecs s MIdx) → pos < 2 ^ 22 → hash_wf h →
  zlen (payload s (jmap (bc_journal pos))) + zlen data ≤ CAP →
  rec_result (mrecs s MIdx) pos = Error ERR_NOENT →
  wp (bc_write_ pos h data) s (λ r s', r = Done tt ∧ wrote s pos (new_rec s pos h data) data s').
Proof.
  intros Hi Hpos Hcap Hh Hroom Hr. destruct (bc_journal_small pos) as [_ Hj]; [lia|].
  set (j := bc_journal pos) in *. unfold bc_write_. cbv zeta. fold j.
  eapply wp_bind_quiet; [apply su_bc_alloc; [apply Hi|lia]|]. intros ? s1 Hq1 Hop1. cbn beta in Hop1.
  assert (Hwf : idx_wf (new_rec s pos h data)) by (apply new_rec_wf; [lia|done|done]).
  apply wp_bind_su. eapply su_mono; [apply su_hdr_get; [apply Hq1|done]|]. intros ? ? [-> ->].
  rewrite (qu_pay _ _ Hq1), u32_small by (unfold CAP in *; lia). fold (new_rec s pos h data).
  set (x := new_rec s pos h data) in *. pose proof (store_quiet _ _ Hq1 Hi) as Hi1.
  apply wp_bind, wp_try. eapply wp_mono.
  { apply (su_idx_set Hok s1 pos x); rewrite ?(quiet_recs _ _ _ Hq1); try done; apply Hi1. }
  intros r s2 (Hf2 & Hd2 & -> & Hw2 & Hc2 & Hr2 & Hm2). apply wp_bind, wp_try.
  destruct (Hm2 (jmap j)) as [Hp2 Hop2]; [done|done|].
  destruct (Hop2 Hop1) as (mp2 & Hn2 & _). rewrite (qu_pay _ _ Hq1) in Hp2.
  eapply su_wp; [eapply su_append; [done|done|exact Hn2|done|by rewrite Hp2]|].
  intros _ s3 (Ho3 & Hd3 & Hop3 & Hp3). apply wp_ret. split; [done|].
  assert (Hpj : ∀ m, m ≠ MIdx → m ≠ MTab → m ≠ jmap j → payload s3 m = payload s m).
  { intros m ???. rewrite (payload_only _ _ _ _ Ho3) by done. destruct (Hm2 m) as [-> _]; [done..|].
    apply Hq1. }
  rewrite Hp2, <-splice_end in Hp3.
  assert (Hi3 : payload s3 MIdx = payload s2 MIdx) by by eapply payload_only.
  rewrite (quiet_recs _ _ _ Hq1) in Hr2.
  destruct (store_written s s3 pos x data) as (Hst & Hdata & Hrest); try done.
  - unfold whole. by rewrite Hi3.
  - apply (cache_ok_eq s2); [done|intros; by eapply tabval_only|done].
  - unfold mrecs at 1. by rewrite Hi3.
  - simpl. lia.
  - intros j' Hj' H1. apply Hpj; [done|done|]. intros E. apply jmap_inj in E; lia.
  - by apply Hpj.
  - intros l y Hne Hl. destruct (si_ok _ Hi _ _ Hl) as [Hyj Hyl _].
    destruct (decide (idx_jrnl y = j)) as [E|]; [|by left]. right. right. simpl.
    by rewrite E in Hyl.
  - split; try done.
    + etrans; [apply Hq1|]. etrans; [exact Hf2|]. by eapply only_frame.
    + unfold mrecs at 1. by rewrite Hi3.
    + unfold mrecs. by rewrite Hpj.
    + intros k. destruct (decide (MData k = jmap j)) as [E|]; [|rewrite Hpj by done; lia].
      rewrite E, Hp3, length_splice by lia. lia.
Qed.

(** [_bc_rewrite]: in place, under the stored hash. *)
Definition over_rec (x : bc_idx_t) (data : list byte) : bc_idx_t :=
  BcIdx (idx_jrnl x) (idx_of x) (zlen data) (shcrc32 data)
    (idx_reserved_0 x) (idx_reserved_1 x) (idx_hash x).

Lemma over_rec_wf x data : idx_wf x → zlen data ≤ idx_size x → idx_wf (over_rec x data).
Proof.
  intros (? & ? & ? & ? & ? & ? & ?) Hs. pose proof (shcrc32_range data).
  unfold idx_wf, over_rec; simpl. repeat split; try lia; by apply H6.
Qed.

Lemma wp_rewrite_fit s pos h data x :
  store_inv s → 0 ≤ pos < 2 ^ 22 → live s (LIdx (Z.to_nat pos)) x → zlen data ≤ idx_size x →
  wp (bc_rewrite_ pos h data) s (λ r s', r = Done tt ∧ wrote s pos (over_rec x data) data s').
Proof.
  intros Hi Hpos Hl Hfit. destruct (bc_journal_small pos) as [_ Hj]; [lia|].
  pose proof (si_jrnl _ Hi _ _ Hl) as Hxj. rewrite Z2Nat.id in Hxj by lia.
  pose proof (live_size _ _ _ Hl) as Hxs. pose proof (live_wf _ _ _ Hl) as Hxw.
  pose proof (ro_len _ _ (si_ok _ Hi _ _ Hl)) as Hxl. rewrite Hxj in Hxl.
  set (j := bc_journal pos) in *. unfold bc_rewrite_. cbv zeta. fold j.
  eapply wp_bind_quiet; [apply su_bc_alloc; [apply Hi|lia]|]. intros ? s1 Hq1 Hop1. cbn beta in Hop1.
  assert (Hrr : rec_result (mrecs s1 MIdx) pos = Done x).
  { rewrite (quiet_recs _ _ _ Hq1). apply rec_live_idx; [lia|done]. }
  eapply wp_bind_rec; [apply wp_get_rec; [apply Hq1|lia]|congruence|].
  intros s2 x' Hq2 Hr'. assert (x' = x) as -> by congruence. clear Hr'.
  rewrite u32_small by lia. destruct (Z.ltb_spec (idx_size x) (zlen data)); [lia|].
  fold (over_rec x data). set (x' := over_rec x data).
  assert (Hq : quiet s s2) by by etrans. pose proof (store_quiet _ _ Hq Hi) as Hi2.
  apply wp_bind. eapply wp_mono.
  { eapply (wp_idx_reset Hok s2 pos x'); [apply Hi2|apply Hi2|lia|by apply over_rec_wf| |].
    - rewrite (quiet_recs _ _ _ Hq2). exact Hrr.
    - done. }
  intros r s3 (Ho3 & Hd3 & Hop3 & -> & Hw3 & Hr3 & Hc3). cbn beta iota.
  assert (Hj3 : payload s3 (jmap j) = payload s (jmap j)).
  { rewrite (payload_only _ _ _ _ Ho3) by done. apply Hq. }
  assert (Hopj : isopen s3 (jmap j)).
  { eapply isopen_only; [exact Ho3|done|]. by apply (qu_open _ _ Hq2). }
  destruct Hopj as (mp3 & Hn3 & _). pose proof (db_cap _ Hd3 (jmap j)) as Hcap3.
  rewrite <-payload_len, Hj3 in Hcap3.
  apply wp_bind, wp_try. eapply su_wp.
  { eapply su_write; [done|done|exact Hn3|done|rewrite Hj3; simpl; lia|simpl; lia|rewrite Hj3; simpl; lia]. }
  intros _ s4 (Ho4 & Hd4 & Hop4 & Hp4). apply wp_ret. split; [done|].
  change (idx_of x') with (idx_of x) in Hp4. rewrite Hj3 in Hp4.
  assert (Hpj : ∀ m, m ≠ MIdx → m ≠ jmap j → payload s4 m = payload s m).
  { intros m ??. rewrite (payload_only _ _ _ _ Ho4), (payload_only _ _ _ _ Ho3) by done. apply Hq. }
  assert (Hi4 : payload s4 MIdx = payload s3 MIdx) by by eapply payload_only.
  rewrite (quiet_recs _ _ _ Hq) in Hr3.
  pose proof (lookup_lt_Some _ _ _ (proj1 Hl)) as Hlt. simpl in Hlt.
  destruct (store_written s s4 pos x' data) as (Hst & Hdata & Hrest); try done.
  - lia.
  - lia.
  - unfold whole. by rewrite Hi4.
  - apply (cache_ok_eq s3); [done|intros; by eapply tabval_only|]. apply Hc3, Hi2.
  - by apply over_rec_wf.
  - unfold mrecs at 1. by rewrite Hi4.
  - simpl. fold j. lia.
  - intros j' Hj' H1. apply Hpj; [done|]. intros E. apply jmap_inj in E; lia.
  - by apply Hpj.
  - intros l y Hne Hly. pose proof (si_apart _ Hi _ _ _ _ Hl Hly ltac:(congruence)) as Ha.
    unfold apart in *. simpl. lia.
  - split; try done.
    + etrans; [apply Hq|]. etrans; by eapply only_frame.
    + unfold mrecs at 1. by rewrite Hi4.
    + unfold mrecs. by rewrite Hpj.
    + intros k. destruct (decide (MData k = jmap j)) as [E|]; [|rewrite Hpj by done; lia].
      rewrite E, Hp4, length_splice by lia. lia.
Qed.

Lemma wp_rewrite_long s pos h data x :
  store_inv s → 0 ≤ pos < 2 ^ 22 → live s (LIdx (Z.to_nat pos)) x →
  idx_size x < zlen data → zlen data < 2 ^ 32 →
  wp (bc_rewrite_ pos h data) s (λ r s', quiet s s' ∧ r = Error ERR_EXIST).
Proof.
  intros Hi Hpos Hl Hlong Hlen. destruct (bc_journal_small pos) as [_ Hj]; [lia|].
  unfold bc_rewrite_. cbv zeta.
  eapply wp_bind_quiet; [apply su_bc_alloc; [apply Hi|lia]|]. intros ? s1 Hq1 _.
  assert (Hrr : rec_result (mrecs s1 MIdx) pos = Done x).
  { rewrite (quiet_recs _ _ _ Hq1). apply rec_live_idx; [lia|done]. }
  eapply wp_bind_rec; [apply wp_get_rec; [apply Hq1|lia]|congruence|].
  intros s2 x' Hq2 Hr'. assert (x' = x) as -> by congruence.
  rewrite u32_small by lia. destruct (Z.ltb_spec (idx_size x) (zlen data)); [|lia].
  apply wp_throw. split; [by etrans|done].
Qed.

(** [_bc_write] at a position in use is a rewrite. *)
Lemma wp_write_used s pos h data x Q :
  store_inv s → 0 ≤ pos < 2 ^ 22 → live s (LIdx (Z.to_nat pos)) x →
  (∀ s1, quiet s s1 → wp (bc_rewrite_ pos h data) s1 Q) →
  wp (bc_write_ pos h data) s Q.
Proof.
  intros Hi Hpos Hl HQ. destruct (bc_journal_small pos) as [_ Hj]; [lia|].
  unfold bc_write_. cbv zeta.
  eapply wp_bind_quiet; [apply su_bc_alloc; [apply Hi|lia]|]. intros ? s1 Hq1 Hop1. cbn beta in Hop1.
  apply wp_bind_su. eapply su_mono; [apply su_hdr_get; [apply Hq1|done]|]. intros ? ? [-> _].
  apply wp_bind, wp_try. eapply wp_mono.
  { eapply (wp_idx_set_exist Hok s1); [apply Hq1|lia|].
    rewrite (quiet_recs _ _ _ Hq1). apply rec_live_idx; [lia|exact Hl]. }
  intros r s2 (Ho2 & Hd2 & Hop2 & -> & Hp2). change (negb (ERR_EXIST =? ERR_EXIST)) with false.
  cbn beta iota. apply HQ. etrans; [exact Hq1|]. by eapply quiet_only.
Qed.

(** ** Append, clear, archive *)
Lemma wp_bc_append s h data :
  store_inv s → zlen (mrecs s MIdx) < 2 ^ 22 → hash_wf h →
  (∀ j, zlen (payload s (MData j)) + zlen data ≤ CAP) →
  wp (bc_append h data) s (λ r s', r = Done tt ∧
    let pos := zlen (mrecs s MIdx) in wrote s pos (new_rec s pos h data) data s').
Proof.
  intros Hi Hcap Hh Hroom. apply wp_locked_ok; [done|]. set (s0 := set_lk s _).
  assert (Hi0 : store_inv s0) by by apply store_inv_lk.
  eapply wp_mono with (Q := λ r s', r = Done tt ∧
    wrote s0 (zlen (mrecs s MIdx)) (new_rec s (zlen (mrecs s MIdx)) h data) data s').
  2: { intros r s' [-> Hw]. split; [done|]. by apply wrote_lk. }
  unfold bc_append_. apply wp_bind_su. eapply su_mono; [apply (su_idx_open Hok); apply Hi0|].
  intros _ s1 (Ho1 & Hd1 & Hop1 & Hp1). assert (Hq1 : quiet s0 s1) by by eapply quiet_only.
  apply wp_bind_su. eapply su_mono; [apply (su_idx_next Hok); apply Hq1|].
  intros pos s2 (Ho2 & Hd2 & Hop2 & Hp2 & ->). assert (Hq2 : quiet s0 s2) by (etrans; [exact Hq1|by eapply quiet_only]).
  rewrite (quiet_recs _ _ _ Hq1). change (mrecs s0 MIdx) with (mrecs s MIdx).
  set (pos := zlen (mrecs s MIdx)). apply wp_locked_ok; [done|]. set (s3 := set_lk s2 _).
  assert (Hi3 : store_inv s3) by (apply store_inv_lk; by eapply store_quiet).
  assert (Hr3 : mrecs s3 MIdx = mrecs s MIdx) by by apply (quiet_recs _ _ MIdx Hq2).
  assert (Hp3 : ∀ m, payload s3 m = payload s m) by (intros m; apply (qu_pay _ _ Hq2)).
  eapply wp_mono.
  { apply (wp_write_new s3 pos h data); rewrite ?Hr3, ?Hp3; try done; [unfold pos; lia|apply Hroom|].
    unfold rec_result. by rewrite lookup_ge_None_2 by (unfold pos; lia). }
  intros r s4 [-> Hw]. split; [done|]. apply wrote_lk in Hw. apply (quiet_wrote s0 s2); [done|].
  replace (new_rec s pos h data) with (new_rec s3 pos h data); [done|].
  unfold new_rec. by rewrite Hp3.
Qed.

(** The effect of moving the record [x] at index [pos] to the archive. *)
Record cleared (s : st) (pos : Z) (x : bc_idx_t) (s' : st) : Prop := {
  cl_frame : frame s s';
  cl_inv : store_inv s';
  cl_idx : mrecs s' MIdx = rec_put (mrecs s MIdx) pos blank_idx;
  cl_arch : mrecs s' MArch = mrecs s MArch ++ [x];
  cl_data j : payload s' (MData j) = payload s (MData j);
}.

Lemma wp_bc_clear s pos x :
  store_inv s → 0 ≤ pos < 2 ^ 22 → zlen (mrecs s MArch) < 2 ^ 22 →
  live s (LIdx (Z.to_nat pos)) x →
  wp (bc_clear pos) s (λ r s', r = Done tt ∧ cleared s pos x s').
Proof.
  intros Hi Hpos Hcap Hl. pose proof (lookup_lt_Some _ _ _ (proj1 Hl)) as Hlt. simpl in Hlt.
  unfold bc_clear. assert (Hrr : rec_result (mrecs s MIdx) pos = Done x) by (apply rec_live_idx; [lia|done]).
  eapply wp_bind_rec; [apply wp_get_rec; [apply Hi|lia]|congruence|].
  intros s1 x' Hq1 Hr'. assert (x' = x) as -> by congruence.
  pose proof (store_quiet _ _ Hq1 Hi) as Hi1.
  apply wp_bind_su. eapply su_mono.
  { apply (su_arch_add Hok s1 x); [apply Hi1|apply Hi1|by eapply live_wf|by rewrite (quiet_recs _ _ _ Hq1)]. }
  intros _ s2 (Ho2 & Hd2 & Hop2 & Hw2 & Hr2). rewrite (quiet_recs _ _ _ Hq1) in Hr2.
  assert (Hp2 : payload s2 MIdx = payload s MIdx).
  { rewrite (payload_only _ _ _ _ Ho2) by done. apply Hq1. }
  assert (Hm2 : mrecs s2 MIdx = mrecs s MIdx) by (unfold mrecs; by rewrite Hp2).
  eapply wp_mono.
  { apply (wp_idx_clear Hok s2 pos); [done|unfold whole; rewrite Hp2; apply Hi|rewrite Hm2; lia|lia]. }
  intros r s3 (Ho3 & Hd3 & Hop3 & -> & Hw3 & Hr3 & Hc3). split; [done|]. rewrite Hm2 in Hr3.
  assert (Ha3 : payload s3 MArch = payload s2 MArch) by by eapply payload_only.
  assert (Hj3 : ∀ j, payload s3 (MData j) = payload s (MData j)).
  { intros j. rewrite (payload_only _ _ _ _ Ho3), (payload_only _ _ _ _ Ho2) by done. apply Hq1. }
  assert (Hr3a : mrecs s3 MArch = mrecs s MArch ++ [x]) by (unfold mrecs at 1; by rewrite Ha3).
  split; try done.
  - etrans; [apply Hq1|]. etrans; by eapply only_frame.
  - eapply (store_move s s3 (Z.to_nat pos) x); try done.
    + unfold whole. by rewrite Ha3.
    + apply Hc3. apply (cache_ok_eq s1); [by eapply payload_only|intros; by eapply tabval_only|apply Hi1].
    + rewrite Hr3. unfold rec_put. by rewrite decide_True by lia.
    + intros j. apply Hj3.
Qed.

Lemma wp_bc_clear_none s pos :
  store_inv s → 0 ≤ pos → rec_result (mrecs s MIdx) pos = Error ERR_NOENT →
  wp (bc_clear pos) s (λ r s', quiet s s' ∧ r = Error ERR_NOENT).
Proof.
  intros Hi Hp Hr. unfold bc_clear.
  eapply wp_bind_rec; [apply wp_get_rec; [apply Hi|done]|done|congruence].
Qed.

(** [bc_arch_write]: data to the last journal, the record to the archive. *)
Record archived (s : st) (x : bc_idx_t) (data : list byte) (s' : st) : Prop := {
  ar_frame : frame s s';
  ar_inv : store_inv s';
  ar_idx : mrecs s' MIdx = mrecs s MIdx;
  ar_arch : mrecs s' MArch = mrecs s MArch ++ [x];
  ar_data : rdata s' x = data;
  ar_rest l y : live s l y → rdata s' y = rdata s y;
  ar_used j : zlen (payload s' (MData j)) ≤ zlen (payload s (MData j)) + zlen data;
}.

Lemma store_archived s s' j x data :
  store_inv s → 1 ≤ j ≤ 64 → db_inv s' → whole s' MArch → cache_ok s' →
  idx_jrnl x = j → idx_of x = zlen (payload s (jmap j)) → idx_size x = zlen data →
  idx_crc x = shcrc32 data →
  payload s' MIdx = payload s MIdx → mrecs s' MArch = mrecs s MArch ++ [x] →
  payload s' (jmap j) = payload s (jmap j) ++ data →
  (∀ j', j' ≠ j → 1 ≤ j' → payload s' (jmap j') = payload s (jmap j')) →
  store_inv s' ∧ rdata s' x = data ∧ ∀ l y, live s l y → rdata s' y = rdata s y.
Proof.
  intros Hi Hj Hd Hw Hc Hxj Hxo Hxs Hxc Hpi Hra Hp Hpj.
  rewrite <-splice_end in Hp.
  assert (Hdata : rdata s' x = data).
  { unfold rdata. rewrite Hxj, Hp, Hxs, Hxo, Nat2Z.id. apply splice_same. lia. }
  assert (Hkeep : ∀ l y, live s l y →
    idx_of y + idx_size y ≤ zlen (payload s' (jmap (idx_jrnl y))) ∧ rdata s' y = rdata s y).
  { intros l y Hl. pose proof (live_size _ _ _ Hl). pose proof (si_ok _ Hi _ _ Hl) as Hro.
    apply (rdata_splice s s' y j (zlen (payload s (jmap j))) data);
      [done|lia|lia|lia|lia|done|done|].
    intros Ey. left. rewrite <-Ey. apply Hro. }
  split; [|split; [done|intros; by eapply Hkeep]].
  eapply (store_put s s' (LArch (length (mrecs s MArch))) x); try done.
  - unfold whole. rewrite Hpi. apply Hi.
  - intros [i|i]; simpl; [unfold mrecs; by rewrite Hpi|]. rewrite Hra. case_decide as E.
    + injection E as ->. rewrite lookup_app_r by done. by rewrite Nat.sub_diag.
    + destruct (decide (i < length (mrecs s MArch))%nat); [by rewrite lookup_app_l|].
      rewrite !lookup_ge_None_2; [done|lia|]. rewrite length_app. simpl.
      assert (i ≠ length (mrecs s MArch)) by congruence. lia.
  - intros l y _ Hl. by eapply Hkeep.
  - intros _. split; [|split; [|done]].
    + split; [lia| |by rewrite Hdata]. rewrite Hxj, Hp, length_splice by lia. lia.
    + intros l y _ Hl. destruct (si_ok _ Hi _ _ Hl) as [_ Hyl _].
      destruct (decide (idx_jrnl y = j)) as [E|]; [|left; congruence]. right. right.
      rewrite E in Hyl. lia.
Qed.

Lemma wp_arch_write s h data :
  store_inv s → zlen (mrecs s MIdx) < 2 ^ 22 → zlen (mrecs s MArch) < 2 ^ 22 → hash_wf h →
  (∀ j, zlen (payload s (MData j)) + zlen data ≤ CAP) →
  wp (bc_arch_write_ h data) s (λ r s', r = Done tt ∧
    archived s (new_rec s (zlen (mrecs s MIdx)) h data) data s').
Proof.
  intros Hi Hcap Hcapa Hh Hroom. unfold bc_arch_write_.
  apply wp_bind_su. eapply su_mono; [apply (su_idx_next Hok); apply Hi|].
  intros pos s1 (Ho1 & Hd1 & Hop1 & Hp1 & ->). assert (Hq1 : quiet s s1) by by eapply quiet_only.
  set (pos := zlen (mrecs s MIdx)) in *. cbv zeta.
  destruct (bc_journal_small pos) as [_ Hj]; [lia|].
  assert (Hwf : idx_wf (new_rec s pos h data)) by (apply new_rec_wf; [lia|done|apply Hroom]).
  set (j := bc_journal pos) in *.
  eapply wp_bind_quiet; [apply su_bc_alloc; [apply Hq1|lia]|]. intros ? s2 Hq2 Hop2. cbn beta in Hop2.
  assert (Hq : quiet s s2) by by etrans.
  apply wp_bind_su. eapply su_mono; [apply su_hdr_get; [apply Hq2|done]|]. intros ? ? [-> ->].
  specialize (Hroom (Z.to_nat j)). rewrite (qu_pay _ _ Hq), u32_small by (unfold CAP in *; lia).
  fold (new_rec s pos h data). set (x := new_rec s pos h data) in *.
  destruct Hop2 as (mp2 & Hn2 & _).
  apply wp_bind_su. eapply su_mono.
  { eapply su_append; [done|apply Hq2|exact Hn2|done|]. rewrite (qu_pay _ _ Hq). exact Hroom. }
  intros _ s3 (Ho3 & Hd3 & Hop3 & Hp3). rewrite (qu_pay _ _ Hq) in Hp3.
  assert (Hm3 : ∀ m, m ≠ jmap j → payload s3 m = payload s m).
  { intros m Hm. rewrite (payload_only _ _ _ _ Ho3) by done. apply Hq. }
  assert (Hra : mrecs s3 MArch = mrecs s MArch) by (unfold mrecs; by rewrite Hm3).
  eapply su_wp.
  { apply (su_arch_add Hok s3 x); [done|unfold whole; rewrite Hm3 by done; apply Hi|done|by rewrite Hra]. }
  intros [] s4 (Ho4 & Hd4 & Hop4 & Hw4 & Hr4). split; [done|]. rewrite Hra in Hr4.
  assert (Hm4 : ∀ m, m ≠ MArch → payload s4 m = payload s3 m) by (intros; by eapply payload_only).
  destruct (store_archived s s4 j x data) as (Hst & Hdata & Hrest); try done.
  - apply (cache_ok_eq s); [by rewrite Hm4, Hm3|intros k|apply Hi].
    rewrite (tabval_only _ _ _ k Ho4), (tabval_only _ _ _ k Ho3) by done. apply Hq.
  - by rewrite Hm4, Hm3.
  - by rewrite Hm4.
  - intros j' Hj' H1. rewrite Hm4, Hm3; [done| |done]. intros E. apply jmap_inj in E; lia.
  - split; try done.
    + etrans; [apply Hq|]. etrans; by eapply only_frame.
    + unfold mrecs. by rewrite Hm4, Hm3.
    + intros k. rewrite Hm4 by done. destruct (decide (MData k = jmap j)) as [E|]; [|rewrite Hm3 by done; lia].
      rewrite E, Hp3, length_app. lia.
Qed.

(** ** Closing idle maps *)
Lemma close_same m s s' :
  only m s s' → db_inv s' → mfile s' m = mfile s m →
  (∀ m', payload s' m' = payload s m') ∧ (∀ k, tabval s' k = tabval s k).
Proof.
  intros Ho Hd Hm. assert (Hf : ∀ m', mfile s' m' = mfile s m').
  { intros m'. destruct (decide (m' = m)) as [->|]; [done|]. by eapply only_mfile. }
  split; intros; [unfold payload|unfold tabval]; by rewrite Hf.
Qed.

Lemma idle_pick_Some now maps : ∀ i k, idle_pick now i maps = Some k →
  ∃ mp, (i ≤ k)%nat ∧ maps !! (k - i)%nat = Some mp ∧ map_fd mp ≠ 0 ∧
    map_stamp mp + BCMAP_IDLE_TIME ≤ now.
Proof.
  induction maps as [|mp maps IH]; intros i k; cbn [idle_pick]; [done|].
  destruct (Z.eqb_spec (map_fd mp) 0); cbn [negb andb].
  - intros (mp' & Hi & Hl & ?)%IH. exists mp'. split; [lia|].
    replace (k - i)%nat with (S (k - S i)) by lia. done.
  - destruct (Z.leb_spec (map_stamp mp + BCMAP_IDLE_TIME) now).
    + intros [= <-]. exists mp. rewrite Nat.sub_diag. done.
    + intros (mp' & Hi & Hl & ?)%IH. exists mp'. split; [lia|].
      replace (k - i)%nat with (S (k - S i)) by lia. done.
Qed.

(** [bc_idle] closes at most one map, which was open and idle, and loses no
    record. *)
Lemma wp_bc_idle s :
  store_inv s →
  wp bc_idle s (λ r s', r = Done tt ∧ frame s s' ∧ store_inv s' ∧
    (∀ m, payload s' m = payload s m) ∧
    (s' = s ∨ ∃ i mp mp', data_map (st_bc s) !! i = Some mp ∧ map_fd mp ≠ 0 ∧
      map_stamp mp + BCMAP_IDLE_TIME ≤ w_time (st_w s) ∧
      data_map (st_bc s') !! i = Some mp' ∧ map_fd mp' = 0 ∧
      ∀ k, k ≠ i → data_map (st_bc s') !! k = data_map (st_bc s) !! k)).
Proof.
  intros Hi. unfold bc_idle, bc_trylock. apply wp_bind. unfold wp at 1, bc_lock. rewrite Hok.
  apply wp_bind, wp_get. cbv zeta. change (data_map (st_bc (set_lk s ?d))) with (data_map (st_bc s)).
  change (w_time (st_w (set_lk s ?d))) with (w_time (st_w s)).
  unfold bc_unlock at 1. apply wp_bind, wp_modify.
  assert (Es : set_lk (set_lk s (st_lk s + 1)) (st_lk (set_lk s (st_lk s + 1)) - 1) = s).
  { destruct s. unfold set_lk; simpl. f_equal. lia. }
  rewrite Es. destruct (idle_pick _ _ _) as [i|] eqn:Ep.
  2: { apply wp_ret. split; [done|]. split; [done|]. split; [done|]. split; [done|by left]. }
  apply idle_pick_Some in Ep as (mp & _ & Hg & Hfd & Hst). rewrite Nat.sub_0_r in Hg.
  apply wp_bind. unfold wp at 1. rewrite Hok. set (s0 := set_lk s _).
  apply wp_bind_su. eapply su_mono; [apply (su_close s0 (MData i) mp); [apply db_inv_lk, Hi|exact Hg]|].
  intros _ s1 (Ho & Hd1 & Hm1 & mp' & Hg' & Hfd'). unfold bc_unlock. apply wp_modify.
  destruct (close_same (MData i) s0 s1 Ho Hd1 Hm1) as [Hp Ht].
  split; [done|]. split; [apply frame_lock; by eapply only_frame|]. split.
  { apply store_inv_lk, (store_same s); [by intros m _; apply Hp|done| |done].
    apply (cache_ok_eq s); [apply Hp|apply Ht|apply Hi]. }
  split; [exact Hp|]. right. exists i, mp, mp'. do 5 (split; [done|]). intros k Hk.
  apply (only_maps _ _ _ Ho (MData k)). congruence.
Qed.
End spec.
