(* ===== verification/Store.v ===== *)
(** * The record store: abstract specification and refinement

    What the database promises to its callers (the block, transaction and coin
    chains of the server): an array of optional records addressed by position
    and by hash, and an append-only archive.  The refinement theorem says that
    every request answered by the code of Block.v, down to the bytes of the
    mapped files, is answered as this specification says. *)

From S2P Require Import Prelude Errors Descriptor Vfs BcState Fmap FmapInv Crc Db Table Index IndexInv Arch Block BlockSpec.

(** ** The abstract store *)
Definition cell : Type := option (bc_hash_t * list byte).

Record store := Store {
  so_recs : list cell;
  so_arch : list cell;
  so_used : Z;        (* an upper bound of the bytes in any one journal *)
}.

(** A record without data counts as absent. *)
Definition mk_cell (h : bc_hash_t) (d : list byte) : cell :=
  match d with [] => None | _ => Some (h, d) end.

Definition so_get (l : list cell) (pos : Z) : result (bc_hash_t * list byte) :=
  match l !! Z.to_nat pos with
  | Some (Some c) => Done c
  | _ => Error ERR_NOENT
  end.

Definition so_matches (h : bc_hash_t) (c : cell) : bool :=
  match c with Some (h', _) => bc_hash_cmp h h' | None => false end.
Definition so_find (h : bc_hash_t) (l : list cell) : result Z :=
  match last_idx (so_matches h) l (length l) with
  | Some i => Done (Z.of_nat i)
  | None => Error ERR_NOENT
  end.

Definition so_put (a : store) (pos : Z) (c : cell) (len : Z) : store :=
  Store (rec_put (so_recs a) pos c) (so_arch a) (so_used a + len).

Definition so_write (a : store) (pos : Z) (h : bc_hash_t) (d : list byte) : result unit * store :=
  match so_get (so_recs a) pos with
  | Done (h0, d0) =>
     if zlen d0 <? zlen d then (Error ERR_EXIST, a)
     else (Done tt, so_put a pos (mk_cell h0 d) (zlen d))
  | Error _ => (Done tt, so_put a pos (mk_cell h d) (zlen d))
  end.

Definition so_clear (a : store) (pos : Z) : result unit * store :=
  match so_get (so_recs a) pos with
  | Done c => (Done tt, Store (rec_put (so_recs a) pos None) (so_arch a ++ [Some c]) (so_used a))
  | Error e => (Error e, a)
  end.

(** Clear positions [pos + n - 1], ..., [pos]. *)
Fixpoint so_clear_down (a : store) (pos : Z) (n : nat) : store :=
  match n with
  | O => a
  | S n => so_clear_down (so_clear a (pos + Z.of_nat n)).2 pos n
  end.
Definition so_purge (a : store) (pos : Z) : result unit * store :=
  match so_get (so_recs a) pos with
  | Done _ => (Done tt, so_clear_down a pos (Z.to_nat (zlen (so_recs a) - pos)))
  | Error e => (Error e, a)
  end.

(** ** Requests *)
Inductive request :=
  | RGet (pos : Z)
  | RRead (pos len : Z)
  | RHash (pos : Z)
  | RFind (h : bc_hash_t)
  | RArch (pos : Z)
  | RWrite (pos : Z) (h : bc_hash_t) (d : list byte)
  | RAppend (h : bc_hash_t) (d : list byte)
  | RClear (pos : Z)
  | RPurge (pos : Z)
  | RArchWrite (h : bc_hash_t) (d : list byte)
  | RIdle.

Inductive answer : Type :=
  | ABytes (d : list byte)
  | AHash (h : bc_hash_t)
  | APos (pos : Z)
  | AUnit.

#[global] Instance abytes_inj : Inj (=) (=) ABytes.
Proof. by intros ?? [= ->]. Qed.
#[global] Instance ahash_inj : Inj (=) (=) AHash.
Proof. by intros ?? [= ->]. Qed.
#[global] Instance apos_inj : Inj (=) (=) APos.
Proof. by intros ?? [= ->]. Qed.
#[global] Instance aunit_inj : Inj (=) (=) (λ _ : unit, AUnit).
Proof. by intros [] []. Qed.

Definition rmap {A B} (f : A → B) (r : result A) : result B :=
  match r with Done a => Done (f a) | Error e => Error e end.

(** What [bc_read] copies into a buffer of [len] bytes. *)
Definition fit (len : Z) (d : list byte) : list byte :=
  take (Z.to_nat len) d ++ replicate (Z.to_nat len - length d) x00.

Definition so_exec (q : request) (a : store) : result answer * store :=
  match q with
  | RGet pos => (rmap (λ c, ABytes c.2) (so_get (so_recs a) pos), a)
  | RRead pos len => (rmap (λ c, ABytes (fit len c.2)) (so_get (so_recs a) pos), a)
  | RHash pos => (rmap (λ c, AHash c.1) (so_get (so_recs a) pos), a)
  | RFind h => (rmap APos (so_find h (so_recs a)), a)
  | RArch pos => (rmap (λ c, ABytes c.2) (so_get (so_arch a) pos), a)
  | RWrite pos h d => let '(r, a) := so_write a pos h d in (rmap (λ _, AUnit) r, a)
  | RAppend h d => (Done AUnit, so_put a (zlen (so_recs a)) (mk_cell h d) (zlen d))
  | RClear pos => let '(r, a) := so_clear a pos in (rmap (λ _, AUnit) r, a)
  | RPurge pos => let '(r, a) := so_purge a pos in (rmap (λ _, AUnit) r, a)
  | RArchWrite h d =>
     (Done AUnit, Store (so_recs a) (so_arch a ++ [mk_cell h d]) (so_used a + zlen d))
  | RIdle => (Done AUnit, a)
  end.

(** The requests the refinement covers: positions up to the end of the index,
    and room in the maps. *)
Definition admissible (q : request) (a : store) : Prop :=
  match q with
  | RGet pos | RHash pos | RArch pos => 0 ≤ pos < 2 ^ 32
  | RRead pos len => 0 ≤ pos < 2 ^ 32 ∧ 0 ≤ len < 2 ^ 32
  | RFind h => hash_wf h
  | RWrite pos h d => 0 ≤ pos ≤ zlen (so_recs a) ∧ pos < 2 ^ 22 ∧ hash_wf h ∧ so_used a + zlen d ≤ CAP
  | RAppend h d => zlen (so_recs a) < 2 ^ 22 ∧ hash_wf h ∧ so_used a + zlen d ≤ CAP
  | RClear pos => 0 ≤ pos < 2 ^ 22 ∧ zlen (so_arch a) < 2 ^ 22
  | RPurge pos => 1 ≤ pos ∧ zlen (so_recs a) ≤ 2 ^ 22 ∧ zlen (so_arch a) + zlen (so_recs a) ≤ 2 ^ 22
  | RArchWrite h d => zlen (so_recs a) < 2 ^ 22 ∧ zlen (so_arch a) < 2 ^ 22 ∧ hash_wf h ∧
                      so_used a + zlen d ≤ CAP
  | RIdle => True
  end.

#[global] Instance admissible_dec q a : Decision (admissible q a).
Proof. destruct q; simpl; apply _. Defined.

Section refine.
Context `{Env}.

Definition mmap {A B} (f : A → B) (op : M A) : M B := a <- op ;; ret (f a).

(** The code.  [fuel] bounds the iterations of the loop of [bc_purge]; running
    out of it is a fault. *)
Definition exec (fuel : nat) (q : request) : M answer :=
  match q with
  | RGet pos => mmap ABytes (bc_get pos)
  | RRead pos len => mmap ABytes (bc_read pos len)
  | RHash pos => mmap AHash (bc_get_hash pos)
  | RFind h => mmap APos (bc_find h)
  | RArch pos => mmap ABytes (bc_arch pos)
  | RWrite pos h d => mmap (λ _, AUnit) (bc_write pos h d)
  | RAppend h d => mmap (λ _, AUnit) (bc_append h d)
  | RClear pos => mmap (λ _, AUnit) (bc_clear pos)
  | RPurge pos => b <- bc_purge fuel pos ;; if b then ret AUnit else fault
  | RArchWrite h d => mmap (λ _, AUnit) (bc_arch_write h d)
  | RIdle => mmap (λ _, AUnit) bc_idle
  end.

(** ** The simulation relation *)
Definition acell (s : st) (x : bc_idx_t) : cell :=
  if idx_size x =? 0 then None else Some (idx_hash x, rdata s x).

Record refines (s : st) (a : store) : Prop := {
  rf_inv : store_inv s;
  rf_recs : so_recs a = acell s <$> mrecs s MIdx;
  rf_arch : so_arch a = acell s <$> mrecs s MArch;
  rf_used j : zlen (payload s (MData j)) ≤ so_used a;
}.

Lemma acell_same s s' x : same_recs s s' → acell s' x = acell s x.
Proof. intros Hs. unfold acell. by rewrite (same_rdata _ _ _ Hs). Qed.

Lemma refines_same s s' a : same_recs s s' → store_inv s' → refines s a → refines s' a.
Proof.
  intros Hs Hi [_ Hr Ha Hu]. split; [done|..].
  - rewrite Hr. unfold mrecs. rewrite Hs by done. apply list_fmap_ext.
    intros. symmetry. by apply acell_same.
  - rewrite Ha. unfold mrecs. rewrite Hs by done. apply list_fmap_ext.
    intros. symmetry. by apply acell_same.
  - intros j. by rewrite Hs.
Qed.

Lemma refines_quiet s s' a : quiet s s' → refines s a → refines s' a.
Proof.
  intros Hq Hr. apply (refines_same s); [by apply quiet_same| |done].
  eapply store_quiet; [done|apply Hr].
Qed.

(** The look-up of a record, in both worlds. *)
Lemma so_get_recs s l pos :
  so_get (acell s <$> l) pos =
    match rec_result l pos with Done x => Done (idx_hash x, rdata s x) | Error e => Error e end.
Proof.
  unfold so_get, rec_result. rewrite list_lookup_fmap. destruct (l !! _) as [x|]; [|done].
  simpl. unfold acell. by destruct (idx_size x =? 0).
Qed.

Lemma last_idx_fmap {A B} (f : A → B) P Q (l : list A) n :
  (∀ x, P (f x) = Q x) → last_idx P (f <$> l) n = last_idx Q l n.
Proof.
  intros Hpq. induction n as [|n IH]; [done|]. cbn [last_idx]. rewrite list_lookup_fmap, IH.
  destruct (l !! n) as [x|]; [|done]. simpl. by rewrite Hpq.
Qed.

Lemma so_find_recs s h l :
  so_find h (acell s <$> l) =
    match find_result h l with Done (_, i) => Done i | Error e => Error e end.
Proof.
  unfold so_find, find_result. rewrite (last_idx_fmap _ _ (matches h)).
  - rewrite length_fmap. destruct (last_idx _ _ _) as [i|] eqn:E; [|done].
    by apply last_idx_Some in E as (_ & (x & -> & _) & _).
  - intros x. unfold so_matches, acell, matches. by destruct (idx_size x =? 0).
Qed.

(** A cell of the index after a store. *)
Lemma acell_mk s x d :
  idx_size x = zlen d → rdata s x = d → acell s x = mk_cell (idx_hash x) d.
Proof.
  intros Hs Hd. unfold acell. rewrite Hs, Hd. destruct d; [done|].
  by destruct (Z.eqb_spec (zlen (b :: d)) 0).
Qed.

Lemma acell_rest s s' l l0 x :
  (∀ l' y, l' ≠ l0 → live s l' y → rdata s' y = rdata s y) →
  rec_at_loc s l = Some x → l ≠ l0 → acell s' x = acell s x.
Proof.
  intros Hrest Hl Hne. unfold acell. destruct (Z.eqb_spec (idx_size x) 0); [done|].
  rewrite (Hrest l x); [done|done|by split].
Qed.

Lemma fmap_rec_put {A B} (f g : A → B) (l : list A) pos x :
  0 ≤ pos ≤ zlen l → (∀ i y, i ≠ Z.to_nat pos → l !! i = Some y → g y = f y) →
  g <$> rec_put l pos x = rec_put (f <$> l) pos (g x).
Proof.
  intros Hp Hfg. apply list_eq. intros i. rewrite list_lookup_fmap.
  rewrite !rec_put_lookup by (rewrite ?length_fmap; done).
  case_decide; [done|]. rewrite list_lookup_fmap. destruct (l !! i) as [y|] eqn:E; [|done].
  simpl. f_equal. by eapply Hfg.
Qed.

Lemma refines_wrote s a pos x d s' :
  refines s a → 0 ≤ pos ≤ zlen (mrecs s MIdx) → idx_size x = zlen d → wrote s pos x d s' →
  refines s' (so_put a pos (mk_cell (idx_hash x) d) (zlen d)).
Proof.
  intros [Hi Hr Ha Hu] Hp Hs [Hf Hi' Hr' Ha' Hd Hrest Hu']. split; [done|..]; cbn [so_put so_recs so_arch so_used snd].
  - rewrite Hr', Hr, <-(acell_mk s' x d) by done. symmetry. apply fmap_rec_put; [done|].
    intros i y Hne Hy. eapply (acell_rest s s' (LIdx i)); [exact Hrest|done|congruence].
  - rewrite Ha', Ha. apply list_fmap_ext. intros i y Hy. symmetry.
    by eapply (acell_rest s s' (LArch i)); [exact Hrest|..].
  - intros j. specialize (Hu j). specialize (Hu' j). lia.
Qed.

Lemma acell_live s l x : live s l x → acell s x = Some (idx_hash x, rdata s x).
Proof. intros [_ Hs]. unfold acell. by destruct (Z.eqb_spec (idx_size x) 0). Qed.

Lemma refines_cleared s a pos x s' :
  refines s a → 0 ≤ pos → live s (LIdx (Z.to_nat pos)) x → cleared s pos x s' →
  so_clear a pos = (Done tt, (so_clear a pos).2) ∧ refines s' (so_clear a pos).2.
Proof.
  intros [Hi Hr Ha Hu] Hp Hl [Hf Hi' Hr' Ha' Hd].
  pose proof (lookup_lt_Some _ _ _ (proj1 Hl)) as Hlt.
  change (rec_at_loc s _) with (mrecs s MIdx !! Z.to_nat pos) in Hlt.
  assert (Hsame : ∀ y, acell s' y = acell s y).
  { intros y. unfold acell, rdata. unfold jmap. by rewrite Hd. }
  unfold so_clear. rewrite Hr, so_get_recs.
  replace (rec_result (mrecs s MIdx) pos) with (Done x) by (symmetry; by apply rec_result_Done).
  split; [done|]. split; [done|..]; cbn [so_put so_recs so_arch so_used snd].
  - rewrite Hr'. symmetry. apply (fmap_rec_put (acell s) (acell s')); [lia|]. intros. apply Hsame.
  - rewrite Ha', fmap_app, Ha. f_equal; [apply list_fmap_ext; intros; symmetry; apply Hsame|].
    simpl. by rewrite Hsame, (acell_live _ _ _ Hl).
  - intros j. by rewrite Hd.
Qed.

Lemma refines_archived s a x d s' :
  refines s a → idx_size x = zlen d → archived s x d s' →
  refines s' (Store (so_recs a) (so_arch a ++ [mk_cell (idx_hash x) d]) (so_used a + zlen d)).
Proof.
  intros [Hi Hr Ha Hu] Hs [Hf Hi' Hr' Ha' Hd Hrest Hu'].
  assert (Hsame : ∀ l y, rec_at_loc s l = Some y → acell s' y = acell s y).
  { intros l y Hy. unfold acell. destruct (Z.eqb_spec (idx_size y) 0); [done|].
    rewrite (Hrest l y); [done|by split]. }
  split; [done|..]; cbn [so_put so_recs so_arch so_used snd].
  - rewrite Hr', Hr. apply list_fmap_ext. intros i y Hy. symmetry. by apply (Hsame (LIdx i)).
  - rewrite Ha', fmap_app, Ha. cbn [fmap list_fmap]. rewrite (acell_mk s' x d) by done. f_equal.
    apply list_fmap_ext. intros i y Hy. symmetry. by apply (Hsame (LArch i)).
  - intros j. specialize (Hu j). specialize (Hu' j). lia.
Qed.

(** ** Every request *)
Context (Hok : os_ok).

Definition answers (s : st) (a : store) (q : request) (r : result answer) (s' : st) : Prop :=
  frame s s' ∧ r = (so_exec q a).1 ∧ refines s' (so_exec q a).2.

Lemma wp_mmap {A B} (f : A → B) (op : M A) s (Q : result B → st → Prop) :
  wp op s (λ r s', Q (rmap f r) s') → wp (mmap f op) s Q.
Proof.
  intros Hop. unfold mmap. apply wp_bind. eapply wp_mono; [exact Hop|]. by intros [a|e] s'.
Qed.

(** Back from the answer to the result of the operation. *)
Lemma wp_unmap {A B} (f : A → B) `{!Inj (=) (=) f} (op : M A) s r0 (P : st → Prop) :
  wp (mmap f op) s (λ r s', r = rmap f r0 ∧ P s') → wp op s (λ r s', r = r0 ∧ P s').
Proof.
  unfold wp, mmap, bind. destruct (op s) as [[[x|e] s']|]; [..|done]; intros [E HP];
    (split; [|done]); destruct r0 as [y|e']; simpl in E; try done; [|congruence].
  injection E as E. f_equal. by apply (inj f).
Qed.

Lemma exec_get s a pos fuel :
  refines s a → 0 ≤ pos → wp (exec fuel (RGet pos)) s (answers s a (RGet pos)).
Proof.
  intros Hr Hp. apply wp_mmap. eapply wp_mono; [apply (wp_bc_get Hok); [apply Hr|done]|].
  intros r s' [Hq ->]. split; [apply Hq|]. split; [|by eapply refines_quiet].
  cbn [so_exec fst]. rewrite (rf_recs _ _ Hr), so_get_recs. unfold get_result. by destruct (rec_result _ _).
Qed.

Lemma exec_read s a pos len fuel :
  refines s a → 0 ≤ pos → 0 ≤ len → wp (exec fuel (RRead pos len)) s (answers s a (RRead pos len)).
Proof.
  intros Hr Hp Hl. apply wp_mmap. eapply wp_mono; [apply (wp_bc_read Hok); [apply Hr|done|done]|].
  intros r s' [Hq ->]. split; [apply Hq|]. split; [|by eapply refines_quiet].
  cbn [so_exec fst]. rewrite (rf_recs _ _ Hr), so_get_recs. unfold get_result. by destruct (rec_result _ _).
Qed.

Lemma exec_hash s a pos fuel :
  refines s a → 0 ≤ pos → wp (exec fuel (RHash pos)) s (answers s a (RHash pos)).
Proof.
  intros Hr Hp. apply wp_mmap. eapply wp_mono; [apply (wp_bc_get_hash Hok); [apply Hr|done]|].
  intros r s' [Hq ->]. split; [apply Hq|]. split; [|by eapply refines_quiet].
  cbn [so_exec fst]. rewrite (rf_recs _ _ Hr), so_get_recs. by destruct (rec_result _ _).
Qed.

Lemma exec_find s a h fuel : refines s a → wp (exec fuel (RFind h)) s (answers s a (RFind h)).
Proof.
  intros Hr. apply wp_mmap. eapply wp_mono; [apply (wp_bc_find Hok), Hr|].
  intros r s' (Hf & Hi & Hs & ->). split; [done|]. split; [|by eapply refines_same].
  cbn [so_exec fst]. rewrite (rf_recs _ _ Hr), so_find_recs. by destruct (find_result _ _) as [[??]|].
Qed.

Lemma exec_arch s a pos fuel :
  refines s a → 0 ≤ pos → wp (exec fuel (RArch pos)) s (answers s a (RArch pos)).
Proof.
  intros Hr Hp. apply wp_mmap. eapply wp_mono; [apply (wp_bc_arch Hok); [apply Hr|done]|].
  intros r s' [Hq ->]. split; [apply Hq|]. split; [|by eapply refines_quiet].
  cbn [so_exec fst]. rewrite (rf_arch _ _ Hr), so_get_recs. unfold get_result. by destruct (rec_result _ _).
Qed.

Lemma refines_count s a : refines s a → zlen (so_recs a) = zlen (mrecs s MIdx).
Proof. intros Hr. by rewrite (rf_recs _ _ Hr), length_fmap. Qed.
Lemma refines_acount s a : refines s a → zlen (so_arch a) = zlen (mrecs s MArch).
Proof. intros Hr. by rewrite (rf_arch _ _ Hr), length_fmap. Qed.

Lemma exec_append s a h d fuel :
  refines s a → admissible (RAppend h d) a → wp (exec fuel (RAppend h d)) s (answers s a (RAppend h d)).
Proof.
  intros Hr (Hc & Hh & Hu). rewrite (refines_count _ _ Hr) in Hc. apply wp_mmap.
  eapply wp_mono.
  { apply (wp_bc_append Hok); [apply Hr|done|done|]. intros j. pose proof (rf_used _ _ Hr j). lia. }
  cbv zeta. intros r s' [-> Hw]. split; [apply Hw|]. split; [done|]. cbn [so_exec snd].
  rewrite (refines_count _ _ Hr).
  change (mk_cell h d) with (mk_cell (idx_hash (new_rec s (zlen (mrecs s MIdx)) h d)) d).
  eapply refines_wrote; [done|lia|done|exact Hw].
Qed.

Lemma answers_lk s a q r s' :
  answers (set_lk s (st_lk s + 1)) a q r s' → answers s a q r (set_lk s' (st_lk s' - 1)).
Proof.
  intros (Hf & Hr & Hs). split; [by apply frame_lock|]. split; [done|].
  destruct Hs. split; [by apply store_inv_lk|done..].
Qed.
Lemma refines_lk s a d : refines s a → refines (set_lk s d) a.
Proof. intros []. split; [by apply store_inv_lk|done..]. Qed.

Lemma exec_write s a pos h d fuel :
  refines s a → admissible (RWrite pos h d) a →
  wp (exec fuel (RWrite pos h d)) s (answers s a (RWrite pos h d)).
Proof.
  intros Hr0 (Hp & Hcap & Hh & Hu). apply wp_mmap. apply wp_locked_ok; [done|].
  eapply wp_mono; [|intros r s'; apply answers_lk]. set (s0 := set_lk s _).
  assert (Hr : refines s0 a) by by apply refines_lk. clearbody s0. clear Hr0 s.
  rewrite (refines_count _ _ Hr) in Hp. unfold answers. cbn [so_exec]. unfold so_write.
  rewrite (rf_recs _ _ Hr), so_get_recs.
  destruct (rec_result (mrecs s0 MIdx) pos) as [x|e] eqn:Er.
  - apply rec_live_idx in Er as Hl; [|lia]. pose proof (length_rdata _ _ _ (rf_inv _ _ Hr) Hl) as Hlen.
    rewrite Hlen. destruct (Z.ltb_spec (idx_size x) (zlen d)) as [Hlt|Hge].
    + eapply (wp_write_used Hok); [apply Hr|lia|exact Hl|]. intros s1 Hq1.
      eapply wp_mono.
      { eapply (wp_rewrite_long Hok s1 pos h d x); [eapply store_quiet; [done|apply Hr]|lia| |done|].
        - by rewrite (same_live _ _ _ _ (quiet_same _ _ Hq1)).
        - pose proof (rf_used _ _ Hr 0). unfold CAP in *. lia. }
      intros r s' [Hq2 ->]. assert (Hq : quiet s0 s') by by etrans.
      split; [apply Hq|]. split; [done|]. by eapply refines_quiet.
    + eapply (wp_write_used Hok); [apply Hr|lia|exact Hl|]. intros s1 Hq1.
      eapply wp_mono.
      { eapply (wp_rewrite_fit Hok s1 pos h d x); [eapply store_quiet; [done|apply Hr]|lia| |done].
        by rewrite (same_live _ _ _ _ (quiet_same _ _ Hq1)). }
      intros r s' [-> Hw]. apply (quiet_wrote s0) in Hw; [|done]. split; [apply Hw|]. split; [done|].
      change (idx_hash x) with (idx_hash (over_rec x d)).
      eapply refines_wrote; [done|lia|done|exact Hw].
  - assert (e = ERR_NOENT) as ->.
    { unfold rec_result in Er. repeat case_match; congruence. }
    eapply wp_mono.
    { apply (wp_write_new Hok s0 pos h d); [apply Hr|lia|lia|done| |done].
      pose proof (rf_used _ _ Hr (Z.to_nat (bc_journal pos))). unfold jmap. lia. }
    intros r s' [-> Hw]. split; [apply Hw|]. split; [done|].
    change (mk_cell h d) with (mk_cell (idx_hash (new_rec s0 pos h d)) d).
    eapply refines_wrote; [done|lia|done|exact Hw].
Qed.

Lemma wp_clear_any s a pos :
  refines s a → admissible (RClear pos) a →
  wp (bc_clear pos) s (λ r s', frame s s' ∧ r = (so_clear a pos).1 ∧ refines s' (so_clear a pos).2).
Proof.
  intros Hr [Hp Hc]. rewrite (refines_acount _ _ Hr) in Hc.
  destruct (rec_result (mrecs s MIdx) pos) as [x|e] eqn:Er.
  - apply rec_live_idx in Er as Hl; [|lia].
    eapply wp_mono; [apply (wp_bc_clear Hok s pos x); [apply Hr|lia|done|done]|].
    intros r s' [-> Hcl]. split; [apply Hcl|].
    destruct (refines_cleared s a pos x s' Hr) as [-> ?]; [lia|done|done|]. done.
  - assert (e = ERR_NOENT) as -> by (unfold rec_result in Er; repeat case_match; congruence).
    eapply wp_mono; [apply (wp_bc_clear_none Hok s pos); [apply Hr|lia|done]|].
    intros r s' [Hq ->]. split; [apply Hq|]. unfold so_clear.
    rewrite (rf_recs _ _ Hr), so_get_recs, Er. split; [done|]. by eapply refines_quiet.
Qed.

Lemma exec_clear s a pos fuel :
  refines s a → admissible (RClear pos) a → wp (exec fuel (RClear pos)) s (answers s a (RClear pos)).
Proof.
  intros Hr Hp. apply wp_mmap. eapply wp_mono; [by apply wp_clear_any|].
  intros r s' (Hf & -> & Hr'). unfold answers; simpl. destruct (so_clear a pos). done.
Qed.

Lemma so_clear_sizes a pos :
  0 ≤ pos ≤ zlen (so_recs a) →
  zlen (so_recs (so_clear a pos).2) = zlen (so_recs a) ∧
  zlen (so_arch (so_clear a pos).2) ≤ zlen (so_arch a) + 1.
Proof.
  intros Hp. unfold so_clear, so_get. destruct (so_recs a !! Z.to_nat pos) as [[c|]|] eqn:E; [|simpl; lia..].
  apply lookup_lt_Some in E. unfold cell in *. cbn [snd so_recs so_arch]. rewrite length_app. unfold rec_put.
  rewrite decide_True by lia. rewrite length_insert. simpl. lia.
Qed.

(** After the clear the position is unused. *)
Lemma so_clear_none a pos :
  0 ≤ pos → so_get (so_recs (so_clear a pos).2) pos = Error ERR_NOENT.
Proof.
  intros Hp. unfold so_clear. destruct (so_get (so_recs a) pos) as [c|e] eqn:E; cbn [snd so_recs].
  - unfold so_get in *. destruct (so_recs a !! Z.to_nat pos) as [c'|] eqn:El; [|done].
    apply lookup_lt_Some in El. unfold cell in *. rewrite rec_put_lookup by lia. by rewrite decide_True.
  - rewrite E. unfold so_get in E. repeat case_match; congruence.
Qed.

Lemma wp_purge_loop n s a pos fuel :
  refines s a → 1 ≤ pos → pos + Z.of_nat n ≤ zlen (so_recs a) → zlen (so_recs a) ≤ 2 ^ 22 →
  zlen (so_arch a) + Z.of_nat n ≤ 2 ^ 22 → (n ≤ fuel)%nat →
  wp (purge_loop fuel pos (pos + Z.of_nat n - 1)) s (λ r s', r = Done true ∧ frame s s' ∧
    refines s' (so_clear_down a pos n)).
Proof.
  revert s a fuel. induction n as [|n IH]; intros s a fuel Hr Hp Hn Hc Hca Hf.
  { destruct fuel; cbn [purge_loop so_clear_down];
      (destruct (Z.leb_spec pos (pos + Z.of_nat 0 - 1)); [lia|]); by apply wp_ret. }
  destruct fuel as [|fuel]; [lia|]. cbn [purge_loop so_clear_down].
  destruct (Z.leb_spec pos (pos + Z.of_nat (S n) - 1)); [|lia]. cbn [negb].
  replace (pos + Z.of_nat (S n) - 1) with (pos + Z.of_nat n) by lia. set (t := pos + Z.of_nat n) in *.
  apply wp_bind, wp_try. eapply wp_mono; [apply wp_clear_any; [done|split; lia]|].
  intros r s1 (Hf1 & _ & Hr1). set (a1 := (so_clear a t).2) in *.
  destruct (so_clear_sizes a t) as [Hs1 Hs2]; [lia|]. fold a1 in Hs1, Hs2.
  apply wp_bind, wp_try. eapply wp_mono; [apply (wp_get_rec Hok); [apply Hr1|lia]|].
  intros r2 s2 [Hq2 ->].
  assert (∃ e, rec_result (mrecs s1 MIdx) t = Error e) as [e ->].
  { pose proof (so_clear_none a t ltac:(lia)) as Hnone. fold a1 in Hnone.
    rewrite (rf_recs _ _ Hr1), so_get_recs in Hnone.
    destruct (rec_result (mrecs s1 MIdx) t); [done|eauto]. }
  apply wp_bind, wp_ret. rewrite u32_small by lia.
  eapply wp_mono; [apply (IH s2 a1 fuel); [by eapply refines_quiet|lia..]|].
  intros r' s' (-> & Hf' & Hr'). split; [done|]. split; [|done].
  etrans; [exact Hf1|]. etrans; [apply Hq2|done].
Qed.

Lemma exec_purge s a pos fuel :
  refines s a → admissible (RPurge pos) a → zlen (so_recs a) ≤ Z.of_nat fuel →
  wp (exec fuel (RPurge pos)) s (answers s a (RPurge pos)).
Proof.
  intros Hr0 (Hp & Hc & Hca) Hfuel. cbn [exec]. apply wp_bind.
  apply wp_locked_ok; [done|]. set (s0 := set_lk s _).
  assert (Hr : refines s0 a) by by apply refines_lk.
  assert (Hend : ∀ r (s' : st), answers s0 a (RPurge pos) (rmap (λ _, AUnit) r) s' → r ≠ Done false →
    match r with
    | Done b => wp (if b then ret AUnit else fault) (set_lk s' (st_lk s' - 1)) (answers s a (RPurge pos))
    | Error e => answers s a (RPurge pos) (Error e) (set_lk s' (st_lk s' - 1))
    end).
  { intros [[]|e] s' Ha Hne; [|done|]; by apply (answers_lk s). }
  unfold bc_purge_. clear Hr0.
  assert (Hexec : wp (bc_purge_ fuel pos) s0 (λ r s', r ≠ Done false ∧
    answers s0 a (RPurge pos) (rmap (λ _, AUnit) r) s')).
  2: { eapply wp_mono; [exact Hexec|]. intros r s' [? ?]. by apply Hend. }
  clear Hend. clearbody s0. unfold bc_purge_, answers. cbn [so_exec]. unfold so_purge.
  rewrite (rf_recs _ _ Hr), so_get_recs.
  eapply wp_bind_rec; [apply (wp_get_rec Hok); [apply Hr|lia]|..].
  { intros s' Hq ->. split; [done|]. split; [apply Hq|]. split; [done|by eapply refines_quiet]. }
  intros s1 x Hq1 Hrr. rewrite Hrr. apply rec_live_idx in Hrr as Hl; [|lia].
  pose proof (lookup_lt_Some _ _ _ (proj1 Hl)) as Hlt.
  change (Z.to_nat pos < length (mrecs s0 MIdx))%nat in Hlt.
  assert (Hl1 : live s1 (LIdx (Z.to_nat pos)) x) by by rewrite (same_live _ _ _ _ (quiet_same _ _ Hq1)).
  pose proof (store_quiet _ _ Hq1 (rf_inv _ _ Hr)) as Hi1.
  pose proof (si_ok _ Hi1 _ _ Hl1) as Hro. pose proof (live_size _ _ _ Hl1).
  eapply wp_bind_quiet; [apply (su_bc_alloc Hok); [apply Hq1|destruct Hro; lia]|].
  intros ? s2 Hq2 Hop2. cbn beta in Hop2. pose proof (store_quiet _ _ Hq2 Hi1) as Hi2.
  assert (Hl2 : live s2 (LIdx (Z.to_nat pos)) x) by by rewrite (same_live _ _ _ _ (quiet_same _ _ Hq2)).
  apply wp_bind_su. eapply su_mono; [apply su_fetch; [apply Hi2|by apply (si_ok _ Hi2 _ _ Hl2)|done|lia|lia]|].
  intros bs ? [-> _]. apply wp_bind, wp_try.
  eapply su_wp; [apply (su_idx_next Hok); apply Hi2|].
  intros n s3 (Ho3 & Hd3 & Hop3 & Hp3 & ->). assert (Hq3 : quiet s2 s3) by by eapply quiet_only.
  assert (Hq : quiet s0 s3) by (etrans; [exact Hq1|]; by etrans).
  assert (Hn : zlen (mrecs s2 MIdx) = zlen (so_recs a)).
  { rewrite (quiet_recs _ _ _ Hq2), (quiet_recs _ _ _ Hq1). symmetry. by apply refines_count. }
  pose proof (refines_count _ _ Hr) as Hcnt. rewrite Hn, (u32_small (zlen (so_recs a))) by lia.
  destruct (Z.eqb_spec (zlen (so_recs a)) 0); [lia|]. rewrite u32_small by lia.
  replace (zlen (so_recs a) - 1) with (pos + Z.of_nat (Z.to_nat (zlen (so_recs a) - pos)) - 1) by lia.
  eapply wp_mono; [apply wp_purge_loop; [by eapply refines_quiet|lia..]|].
  intros r s' (-> & Hf & Hr'). split; [done|]. split; [etrans; [apply Hq|done]|]. split; [done|].
  rewrite length_fmap, <-Hcnt. done.
Qed.

Lemma exec_arch_write s a h d fuel :
  refines s a → admissible (RArchWrite h d) a →
  wp (exec fuel (RArchWrite h d)) s (answers s a (RArchWrite h d)).
Proof.
  intros Hr0 (Hc & Hca & Hh & Hu). apply wp_mmap. apply wp_locked_ok; [done|].
  eapply wp_mono; [|intros r s'; apply answers_lk]. set (s0 := set_lk s _).
  assert (Hr : refines s0 a) by by apply refines_lk. clearbody s0. clear Hr0 s.
  rewrite (refines_count _ _ Hr) in Hc. rewrite (refines_acount _ _ Hr) in Hca.
  eapply wp_mono.
  { apply (wp_arch_write Hok s0 h d); [apply Hr|done..|]. intros j. pose proof (rf_used _ _ Hr j). lia. }
  intros r s' [-> Hw]. split; [apply Hw|]. split; [done|]. cbn [so_exec snd].
  change (mk_cell h d) with (mk_cell (idx_hash (new_rec s0 (zlen (mrecs s0 MIdx)) h d)) d).
  eapply refines_archived; [done|done|exact Hw].
Qed.

Lemma exec_idle s a fuel : refines s a → wp (exec fuel RIdle) s (answers s a RIdle).
Proof.
  intros Hr. apply wp_mmap. eapply wp_mono; [apply (wp_bc_idle Hok), Hr|].
  intros r s' (-> & Hf & Hi & Hp & _). split; [done|]. split; [done|].
  apply (refines_same s); [by intros m _; apply Hp|done|done].
Qed.

(** ** Sequences of requests *)
Lemma exec_refines s a q fuel :
  refines s a → admissible q a → zlen (so_recs a) ≤ Z.of_nat fuel →
  wp (exec fuel q) s (answers s a q).
Proof.
  intros Hr Hq Hf. destruct q; simpl in Hq.
  - apply exec_get; [done|lia].
  - apply exec_read; [done|lia|lia].
  - apply exec_hash; [done|lia].
  - by apply exec_find.
  - apply exec_arch; [done|lia].
  - by apply exec_write.
  - by apply exec_append.
  - by apply exec_clear.
  - by apply exec_purge.
  - by apply exec_arch_write.
  - by apply exec_idle.
Qed.

(** Run the requests one after the other, whatever each answers. *)
Fixpoint run (fuel : nat) (qs : list request) : M (list (result answer)) :=
  match qs with
  | [] => ret []
  | q :: qs => r <- try (exec fuel q) ;; rs <- run fuel qs ;; ret (r :: rs)
  end.
Fixpoint so_run (qs : list request) (a : store) : list (result answer) * store :=
  match qs with
  | [] => ([], a)
  | q :: qs => let '(r, a) := so_exec q a in let '(rs, a) := so_run qs a in (r :: rs, a)
  end.
Fixpoint all_admissible (fuel : nat) (qs : list request) (a : store) : Prop :=
  match qs with
  | [] => True
  | q :: qs => admissible q a ∧ zlen (so_recs a) ≤ Z.of_nat fuel ∧
               all_admissible fuel qs (so_exec q a).2
  end.

#[global] Instance all_admissible_dec fuel qs : ∀ a, Decision (all_admissible fuel qs a).
Proof. induction qs as [|q qs IH]; intros a; simpl; apply _. Defined.

Lemma run_refines fuel qs s a :
  refines s a → all_admissible fuel qs a →
  succeeds (run fuel qs) s (λ rs s', frame s s' ∧ rs = (so_run qs a).1 ∧ refines s' (so_run qs a).2).
Proof.
  revert s a. induction qs as [|q qs IH]; intros s a Hr; cbn [run so_run all_admissible].
  { intros _. by apply wp_ret. }
  intros (Hq & Hf & Hqs). apply wp_bind, wp_try. eapply wp_mono; [by apply exec_refines|].
  intros r s1 (Hf1 & -> & Hr1). cbn beta iota. apply su_bind.
  eapply su_mono; [by apply IH|]. intros rs s2 (Hf2 & -> & Hr2). apply wp_ret.
  destruct (so_exec q a) as [r a1]. cbn [fst snd] in *. destruct (so_run qs a1) as [rs a2].
  split; [by etrans|done].
Qed.
End refine.

(** * The interface of the record store

    What a client of the block database may rely on: a relation between states
    and abstract stores, and for each call the answer and the store it leaves.
    The peer database of PeerDb.v is verified against this interface; the
    simulation of Store.v implements it. *)

Existing Class os_ok.

Class RecordDb `{Env} (R : st → store → Prop) : Prop := {
  rd_find s a h : R s a →
    wp (bc_find h) s (λ r s', r = so_find h (so_recs a) ∧ R s' a ∧ frame s s');
  rd_has s a pos : R s a → 0 ≤ pos →
    wp (bc_idx_get pos) s (λ r s', rmap idx_hash r = rmap fst (so_get (so_recs a) pos) ∧ R s' a ∧ frame s s');
  rd_get s a pos : R s a → 0 ≤ pos →
    wp (bc_get pos) s (λ r s', r = rmap snd (so_get (so_recs a) pos) ∧ R s' a ∧ frame s s');
  rd_next s a : R s a →
    wp bc_idx_next s (λ r s', r = Done (zlen (so_recs a)) ∧ R s' a ∧ frame s s');
  rd_append s a h d : R s a → admissible (RAppend h d) a →
    wp (bc_append h d) s (λ r s', r = Done tt ∧
      R s' (so_put a (zlen (so_recs a)) (mk_cell h d) (zlen d)) ∧ frame s s');
  rd_write s a pos h d : R s a → admissible (RWrite pos h d) a →
    wp (bc_write pos h d) s (λ r s', r = (so_write a pos h d).1 ∧ R s' (so_write a pos h d).2 ∧ frame s s');
  rd_clear s a pos : R s a → admissible (RClear pos) a →
    wp (bc_clear pos) s (λ r s', r = (so_clear a pos).1 ∧ R s' (so_clear a pos).2 ∧ frame s s');
}.

Section impl.
Context `{Env} {Hok : os_ok}.

(** An answer to a request, as the result of the call. *)
Lemma wp_answer {A} (f : A → answer) `{!Inj (=) (=) f} (op : M A) s a q r0 fuel :
  exec fuel q = mmap f op → (so_exec q a).1 = rmap f r0 →
  wp (exec fuel q) s (answers s a q) →
  wp op s (λ r s', r = r0 ∧ refines s' (so_exec q a).2 ∧ frame s s').
Proof.
  intros -> Hr Hw. apply (wp_unmap f op s r0 (λ s', refines s' (so_exec q a).2 ∧ frame s s')).
  eapply wp_mono; [exact Hw|]. intros r s' (Hf & -> & Hr'). by rewrite Hr.
Qed.

#[global] Instance refines_record_db : RecordDb refines.
Proof.
  split.
  - intros s a h Hr. by apply (wp_answer APos _ s a (RFind h) _ 0 eq_refl eq_refl), (exec_find Hok).
  - intros s a pos Hr Hp. eapply wp_mono; [apply (wp_get_rec Hok); [apply Hr|done]|].
    intros r s' [Hq ->]. split; [|split; [by eapply refines_quiet|apply Hq]].
    rewrite (rf_recs _ _ Hr), so_get_recs. by destruct (rec_result _ _).
  - intros s a pos Hr Hp. apply (wp_answer ABytes _ s a (RGet pos) _ 0 eq_refl); [|by apply (exec_get Hok)].
    simpl. by destruct (so_get _ _).
  - intros s a Hr. eapply su_wp; [apply (su_idx_next Hok), Hr|].
    intros n s' (Ho & Hd & Hop & Hp & ->). assert (Hq : quiet s s') by by eapply quiet_only.
    rewrite (refines_count _ _ Hr). split; [done|]. split; [by eapply refines_quiet|apply Hq].
  - intros s a h d Hr Ha.
    by apply (wp_answer (λ _ : unit, AUnit) _ s a (RAppend h d) (Done tt) 0 eq_refl eq_refl), (exec_append Hok).
  - intros s a pos h d Hr Ha. eapply wp_mono.
    { apply (wp_answer (λ _ : unit, AUnit) _ s a (RWrite pos h d) (so_write a pos h d).1 0 eq_refl);
        [|by apply (exec_write Hok)].
      cbn [so_exec]. by destruct (so_write a pos h d). }
    intros r s' (-> & Hr' & Hf). cbn [so_exec] in Hr'. by destruct (so_write a pos h d).
  - intros s a pos Hr Ha. eapply wp_mono; [by apply (wp_clear_any Hok)|]. by intros r s' (? & ? & ?).
Qed.
End impl.
