(* ===== verification/Lifecycle.v ===== *)
(** * Opening, closing and reopening a database

    [bc_open] on an empty directory gives the empty store; the records survive
    [bc_close] (or the end of the process) and are found again by the next
    [bc_open]. *)

From S2P Require Import Prelude Errors Descriptor Vfs BcState Fmap FmapInv Db Table Crc Index IndexInv Arch Block BlockSpec Store.

Definition empty_store : store := Store [] [] 0.

Section life.
Context `{Env} (Hok : os_ok).

(** ** A database nobody has open *)
Definition detached (w : world) (name : string) : st := St w (null_bc name) 0.

(** The maps of a closed database tell nothing: its invariant is that of the
    files. *)
Definition files_ok (w : world) (name : string) : Prop :=
  ∀ m f, w_files w !! map_path name (cext m) = Some f → f_reg f = true ∧ (hdr_valid f = true → file_ok f).

Lemma null_get name m mp : bc_get_map (null_bc name) m = Some mp → mp = null_map.
Proof. destruct m; simpl; [congruence..|by rewrite lookup_nil]. Qed.

Lemma detached_inv w name : files_ok w name → inv (detached w name).
Proof.
  intros Hf m. split; [apply Hf|]. intros mp ->%null_get.
  split; [by right|]. by split.
Qed.

Lemma detached_db w name :
  files_ok w name → (∀ m, sized (mfile (detached w name) m)) →
  (∀ m, hdr_of (mfile (detached w name) m) ≤ CAP) → db_inv (detached w name).
Proof.
  intros Hf Hs Hc. split; [by apply detached_inv|..]; try done.
  by intros m mp ->%null_get.
Qed.

(** An open database and the same files without the process state. *)
Lemma detach_db s d :
  db_inv s → db_inv (St (st_w s) (null_bc (bc_name (st_bc s))) d) ∧
  ∀ m, mfile (St (st_w s) (null_bc (bc_name (st_bc s))) d) m = mfile s m.
Proof.
  intros Hd. set (s' := St _ _ _). assert (Hm : ∀ m, mfile s' m = mfile s m) by done.
  split; [|done]. apply (db_inv_lk (detached (st_w s) (bc_name (st_bc s))) d).
  apply detached_db.
  - intros m f Hf. by apply (db_base _ Hd m).
  - intros m. apply (db_sized _ Hd).
  - intros m. apply (db_cap _ Hd).
Qed.

Lemma detach_refines s a d :
  refines s a → refines (St (st_w s) (null_bc (bc_name (st_bc s))) d) a.
Proof.
  intros Hr. destruct (detach_db s d (si_db _ (rf_inv _ _ Hr))) as [Hd Hm].
  set (s' := St _ _ _) in *. assert (Hp : ∀ m, payload s' m = payload s m) by done.
  apply (refines_same s); [by intros m _|apply (store_same s); [by intros m _|done| |apply Hr]|done].
  apply (cache_ok_eq s); [done|done|apply Hr].
Qed.

(** ** [bc_open] *)
Lemma prefix_short n s : (String.length s ≤ n)%nat → strncpy n s = s.
Proof.
  unfold strncpy. revert n. induction s as [|c s IH]; intros n Hn; [by destruct n|].
  destruct n as [|n]; simpl in *; [lia|]. f_equal. apply IH. lia.
Qed.

Lemma wp_bc_open w name bc d a :
  (String.length name < 136)%nat → refines (detached w name) a →
  wp (bc_open name) (St w bc d) (λ r s', r = Done tt ∧ refines s' a ∧ st_lk s' = 0 ∧
    bc_name (st_bc s') = name ∧ isopen s' MIdx ∧ w_time (st_w s') = w_time w).
Proof.
  intros Hn Hr. unfold bc_open. apply wp_bind, wp_modify. cbn [st_w].
  rewrite prefix_short by (unfold BC_MAX_NAME_LENGTH; lia). fold (detached w name).
  eapply su_wp; [apply (su_idx_open Hok); apply Hr|]. intros [] s' (Ho & Hd & Hop & Hp).
  split; [done|]. split; [eapply refines_quiet; [by eapply quiet_only|done]|].
  split; [apply (only_lk _ _ _ Ho)|]. split; [apply (only_name _ _ _ Ho)|]. split; [done|].
  apply (fr_time _ _ (only_frame _ _ _ Ho)).
Qed.

(** ** The empty directory *)
Lemma f_get_init t a : 16 ≤ a → f_get (init_file t empty_file) a = x00.
Proof.
  intros Ha. unfold init_file. rewrite f_get_fwrite_out by (rewrite length_hdr_bytes; lia). done.
Qed.

Lemma fread_zero f off n : (∀ a, off ≤ a → f_get f a = x00) → le_dec (fread f off n) = 0.
Proof.
  intros Hf. assert (fread f off n = replicate n x00) as ->.
  { apply list_eq. intros i. destruct (decide (i < n)%nat).
    - rewrite fread_lookup, lookup_replicate_2 by done. f_equal. apply Hf. lia.
    - rewrite !lookup_ge_None_2; [done|rewrite length_replicate; lia|rewrite length_fread; lia]. }
  induction n as [|n IH]; [done|]. cbn [replicate le_dec]. rewrite IH. done.
Qed.

Lemma fresh_refines w name :
  (∀ m, w_files w !! map_path name (cext m) = None) → refines (detached w name) empty_store.
Proof.
  intros Hno. set (s := detached w name).
  assert (Hm : ∀ m, mfile s m = init_file (w_shtime w) empty_file).
  { intros m. unfold mfile. change (cpath s m) with (map_path name (cext m)). simpl. by rewrite Hno. }
  assert (Hh : ∀ m, hdr_of (mfile s m) = 0) by (intros m; rewrite Hm; apply hdr_of_init).
  assert (Hp : ∀ m, payload s m = []).
  { intros m. apply length_zero_iff_nil. pose proof (payload_len s m) as Hl. rewrite Hh in Hl. lia. }
  assert (Hr : ∀ m, mrecs s m = []) by (intros m; unfold mrecs; by rewrite Hp).
  assert (Hd : db_inv s).
  { apply detached_db.
    - intros m f. by rewrite Hno.
    - intros m. fold s. unfold sized. rewrite Hh, Hm. done.
    - intros m. fold s. rewrite Hh. done. }
  assert (Hlive : ∀ l x, ¬ live s l x).
  { intros [i|i] x [Hl _]; simpl in Hl; by rewrite Hr in Hl. }
  split; [split|..].
  - done.
  - unfold whole. rewrite Hp. by exists 0.
  - unfold whole. rewrite Hp. by exists 0.
  - intros k Hk. left. unfold tabval. rewrite Hm. apply fread_zero. intros a Ha. apply f_get_init.
    unfold HDR in *. lia.
  - intros l x Hl. by apply Hlive in Hl.
  - intros l l' x y Hl. by apply Hlive in Hl.
  - intros i x Hl. by apply Hlive in Hl.
  - by rewrite Hr.
  - by rewrite Hr.
  - intros j. by rewrite Hp.
Qed.

(** ** [bc_close] *)

(** Closing changes no file. *)
Definition released (s s' : st) : Prop :=
  frame s s' ∧ db_inv s' ∧ ∀ m, mfile s' m = mfile s m.

#[local] Instance released_trans : Transitive released.
Proof.
  intros s1 s2 s3 (Hf1 & _ & Hm1) (Hf2 & Hd2 & Hm2). split; [by etrans|]. split; [done|].
  intros m. by rewrite Hm2.
Qed.

Lemma released_only m s s' : only m s s' → db_inv s' → mfile s' m = mfile s m → released s s'.
Proof.
  intros Ho Hd Hm. split; [by eapply only_frame|]. split; [done|]. intros m'.
  destruct (decide (m' = m)) as [->|]; [done|by eapply only_mfile].
Qed.

Definition closed_map (s : st) (m : mapid) : Prop :=
  ∃ mp, bc_get_map (st_bc s) m = Some mp ∧ map_fd mp = 0.

Lemma su_idx_close s :
  db_inv s → succeeds bc_idx_close s (λ _ s', only MIdx s s' ∧ db_inv s' ∧
    mfile s' MIdx = mfile s MIdx ∧ closed_map s' MIdx).
Proof.
  intros Hd. apply (su_if_locked Hok); [done|].
  eapply su_mono; [apply su_close_if; [by apply db_inv_lk|done]|].
  by intros _ s' (Ho & Hd' & Hm & Hc).
Qed.

Lemma su_tab_close s :
  db_inv s → succeeds bc_table_close s (λ _ s', only MTab s s' ∧ db_inv s' ∧
    mfile s' MTab = mfile s MTab ∧ closed_map s' MTab).
Proof.
  intros Hd. eapply su_mono; [by apply (su_table_close Hok)|].
  intros _ s' (Ho & Hd' & Hm & Hc). do 3 (split; [done|]). by eexists.
Qed.

Lemma su_close_data n i s :
  db_inv s → (i + n ≤ length (data_map (st_bc s)))%nat →
  succeeds (close_data i n) s (λ _ s', released s s' ∧
    (∀ m, (∀ j, m ≠ MData j) → bc_get_map (st_bc s') m = bc_get_map (st_bc s) m) ∧
    (∀ j, (j < i)%nat → data_map (st_bc s') !! j = data_map (st_bc s) !! j) ∧
    (∀ j, (i ≤ j < i + n)%nat → closed_map s' (MData j))).
Proof.
  revert i s. induction n as [|n IH]; intros i s Hd Hlen; cbn [close_data].
  { apply wp_ret. split; [done|]. split; [done|]. split; [done|]. intros j Hj. lia. }
  destruct (data_map (st_bc s) !! i) as [mp|] eqn:Eg; [|apply lookup_ge_None in Eg; lia].
  apply su_bind. eapply su_mono; [by eapply (su_close s (MData i))|].
  intros _ s1 (Ho1 & Hd1 & Hm1 & mp1 & Hg1 & Hfd1).
  assert (Hlen1 : length (data_map (st_bc s1)) = length (data_map (st_bc s))).
  { apply Nat.le_antisymm; apply Nat.nlt_ge; intros Hlt.
    - assert (Hs : is_Some (bc_get_map (st_bc s1) (MData (length (data_map (st_bc s)))))) by by apply lookup_lt_is_Some.
      rewrite (only_dom _ _ _ Ho1) in Hs. apply lookup_lt_is_Some in Hs. lia.
    - assert (Hs : is_Some (bc_get_map (st_bc s) (MData (length (data_map (st_bc s1)))))) by by apply lookup_lt_is_Some.
      rewrite <-(only_dom _ _ _ Ho1) in Hs. apply lookup_lt_is_Some in Hs. lia. }
  eapply su_mono; [apply (IH (S i) s1); [done|lia]|].
  intros _ s2 (Hr2 & Hfix2 & Hlow2 & Hcl2). split; [etrans; [by eapply released_only|done]|].
  split. { intros m Hm. rewrite Hfix2 by done. by apply (only_maps _ _ _ Ho1). }
  split.
  - intros j Hj. rewrite Hlow2 by lia. apply (only_maps _ _ _ Ho1 (MData j)). intros [= ->]. lia.
  - intros j Hj. destruct (decide (j = i)) as [->|]; [|apply Hcl2; lia].
    exists mp1. split; [|done]. simpl. rewrite Hlow2 by lia. exact Hg1.
Qed.

Lemma set_data_nil s :
  db_inv s → db_inv (set_data s []) ∧ ∀ m, mfile (set_data s []) m = mfile s m.
Proof.
  intros Hd. split; [|done].
  assert (Hg : ∀ m mp, bc_get_map (st_bc (set_data s [])) m = Some mp → bc_get_map (st_bc s) m = Some mp).
  { intros [| | |j] mp; simpl; try done. }
  split; try apply Hd.
  - intros m. destruct (db_base _ Hd m) as [Hf Hm]. split; [apply Hf|]. intros mp Hmp.
    by apply (Hm mp), Hg.
  - intros m mp Hmp. eapply (db_live _ Hd). by apply Hg.
Qed.

(** [bc_close]: every map but the archive's is closed, and no file changed. *)
Lemma wp_bc_close s :
  db_inv s →
  wp bc_close s (λ r s', r = Done tt ∧ released s s' ∧ closed_map s' MIdx ∧ closed_map s' MTab ∧
    data_map (st_bc s') = [] ∧ arch_map (st_bc s') = arch_map (st_bc s)).
Proof.
  intros Hd. unfold bc_close. apply wp_bind. unfold wp at 1, bc_lock. rewrite Hok.
  set (s0 := set_lk s _). apply wp_bind_su.
  eapply su_mono; [apply (su_idx_close s0); by apply db_inv_lk|]. intros _ s1 (Ho1 & Hd1 & Hm1 & Hc1).
  apply wp_bind_su. eapply su_mono; [by apply su_tab_close|]. intros _ s2 (Ho2 & Hd2 & Hm2 & Hc2).
  apply wp_bind, wp_get. apply wp_bind_su.
  eapply su_mono; [apply (su_close_data _ 0 s2); [done|lia]|]. intros _ s3 (Hr3 & Hfix3 & _ & _).
  apply wp_bind, wp_modify. unfold bc_unlock. apply wp_modify.
  destruct (set_data_nil s3) as [Hd4 Hm4]; [apply Hr3|].
  assert (Hr : released s0 s3).
  { etrans; [by eapply released_only|]. etrans; [by eapply released_only|done]. }
  assert (Hidx : ∀ m, m = MIdx ∨ m = MTab → closed_map s2 m → closed_map s3 m).
  { intros m Hm (mp & Hg & ?). exists mp. rewrite Hfix3; [done|]. by intros j; destruct Hm as [->| ->]. }
  split; [done|]. split.
  { destruct Hr as (Hf & _ & Hm). split; [apply frame_lock; destruct Hf; by split|].
    split; [by apply db_inv_lk|done]. }
  split. { apply (Hidx MIdx); [by left|]. destruct Hc1 as (mp & Hg & ?). exists mp.
           by rewrite (only_maps _ _ _ Ho2). }
  split; [by apply (Hidx MTab); [right|]|]. split; [done|].
  pose proof (Hfix3 MArch ltac:(done)) as E3.
  rewrite (only_maps _ _ _ Ho2), (only_maps _ _ _ Ho1) in E3 by done. by injection E3.
Qed.
End life.
