(* ===== verification/PeerDb.v ===== *)
(** * Service modes and the peer database

    The service modes of [src/shioncoin/unet/unet.h] and their labels
    ([unet.c]), and [unet_peerdb.c]. *)

From stdpp Require Import sorting.
From S2P Require Import Prelude Errors Descriptor Vfs BcState Fmap FmapInv Crc Db Table Index IndexInv Arch Block BlockSpec Store.

Definition UNET_NONE : Z := 0.
Definition UNET_SHC : Z := 1.
Definition UNET_STRATUM : Z := 13.
Definition UNET_SHAPI : Z := 14.
Definition MAX_UNET_COIN_MODES : Z := 11.
Definition MAX_UNET_MODES : Z := 32.

Definition _unet_label : list string :=
  ["!NONE!"; "shc"; "!RESERVED!"; "emc2"; "ltc"; "testnet"; "color"; "!RESERVED!"; "!RESERVED!";
   "!RESERVED!"; "!RESERVED!"; "!RESERVED!"; "!RESERVED!"; "stratum"; "stratum-esl"; "rpc";
   "stratum-sha256d"; "stratum-keccak"; "stratum-x11"; "stratum-blake2s"; "stratum-qubit";
   "stratum-groestl"; "stratum-skein"; "!RESERVED!"; "!RESERVED!"; "!RESERVED!"; "!RESERVED!";
   "!RESERVED!"; "!RESERVED!"; "!RESERVED!"; "!RESERVED!"; "!RESERVED!"]%string.

(** [if (mode < 0 || mode >= MAX_UNET_MODES)]. *)
Definition bad_mode (mode : Z) : bool := (mode <? 0) || (MAX_UNET_MODES <=? mode).

Definition unet_mode_label (mode : Z) : option string :=
  if bad_mode mode then None else _unet_label !! Z.to_nat mode.

Lemma unet_mode_label_ok mode : bad_mode mode = false → is_Some (unet_mode_label mode).
Proof.
  intros Hb. unfold unet_mode_label. rewrite Hb. apply lookup_lt_is_Some.
  apply orb_false_iff in Hb as [H0 H1]. apply Z.ltb_ge in H0. apply Z.leb_gt in H1.
  unfold MAX_UNET_MODES in H1. change (length _unet_label) with 32%nat. lia.
Qed.

(** * The peer database

    [src/shioncoin/unet/unet_peerdb.c]: the peers of a coin service with their
    trust, kept in a block database named after the service.  A peer is the 136
    bytes of libshare's [shpeer_t]; its privileged key, the last 32 of them, is
    the hash of its record. *)

Definition MAX_PEERDB_TRACK_LIST_SIZE : Z := 1000.
Definition SHPEER : nat := 136.
Definition PEERDB : Z := 152.

(** [peerdb_t] with its four bytes of padding before [trust]. *)
Record peerdb_t := Peerdb {
  pd_peer : list byte;
  pd_birth : Z;
  pd_pad : list byte;
  pd_trust : Z;
}.

Definition peerdb_bytes (p : peerdb_t) : list byte :=
  pd_peer p ++ le_enc 4 (pd_birth p) ++ pd_pad p ++ le_enc 8 (pd_trust p).
Definition peerdb_of (bs : list byte) : peerdb_t :=
  Peerdb (take 136 bs) (le_dec (take 4 (drop 136 bs))) (take 4 (drop 140 bs))
    (i64 (le_dec (take 8 (drop 144 bs)))).

Definition shpeer_kpriv (peer : list byte) : list byte := take 32 (drop 104 peer).
Definition peerdb_key_hash (key : list byte) : bc_hash_t := words 8 key.

(** [p->trust += d]. *)
Definition pd_add (p : peerdb_t) (d : Z) : peerdb_t :=
  Peerdb (pd_peer p) (pd_birth p) (pd_pad p) (i64 (pd_trust p + d)).

Definition peerdb_mode_label (mode : Z) : string := (default "" (unet_mode_label mode) +:+ "_peer")%string.

(** ** Sorting *)
Definition peerdb_sort_cmp (a b : peerdb_t) : Z := i32 (pd_trust b - pd_trust a).
Definition peerdb_sort_revcmp (a b : peerdb_t) : Z := i32 (pd_trust a - pd_trust b).

Definition by_cmp (cmp : peerdb_t → peerdb_t → Z) (a b : peerdb_t) : Prop := cmp a b ≤ 0.
#[global] Instance by_cmp_dec cmp a b : Decision (by_cmp cmp a b).
Proof. unfold by_cmp. apply _. Defined.

(** [qsort] as the merge sort of the C library. *)
Definition peerdb_sort (l : list peerdb_t) (fact : Z) : list peerdb_t :=
  if 0 <? fact then merge_sort (by_cmp peerdb_sort_cmp) l
  else merge_sort (by_cmp peerdb_sort_revcmp) l.

Section ops.
Context `{Env}.

(** The handle in [bind->peer_db], [false] when it is still null. *)
Definition peerdb_open (opened : bool) (mode : Z) : M bool :=
  if bad_mode mode then ret false
  else if opened then ret true
  else r <- try (bc_open (peerdb_mode_label mode)) ;;
       ret (match r with Done _ => true | Error _ => false end).

Definition peerdb_new (peer : list byte) : M peerdb_t :=
  now <- gets (λ s, w_time (st_w s)) ;;
  ret (Peerdb (take SHPEER peer) (u32 now) (replicate 4 x00) 0).

(** The caller goes on to use the record as a [peerdb_t]: fewer bytes than that
    are an access past the end of the buffer. *)
Definition peerdb_read_index (pos : Z) : M peerdb_t :=
  bc_idx_get pos ;;;
  data <- bc_get pos ;;
  if zlen data <? PEERDB then fault else ret (peerdb_of data).

Definition peerdb_read (key : list byte) : M peerdb_t :=
  pos <- bc_find (peerdb_key_hash key) ;;
  peerdb_read_index pos.

Definition peerdb_write (p : peerdb_t) : M unit :=
  let data := peerdb_bytes p in
  let hash := peerdb_key_hash (shpeer_kpriv (pd_peer p)) in
  r <- try (bc_find hash) ;;
  match r with
  | Error _ => try (bc_append hash data)
  | Done pos => try (bc_write pos hash data)
  end ;;;
  ret tt.

(** The loop of [peerdb_track_scan] from the static [_scan_index]. *)
Fixpoint scan_loop (n : nat) (scan_index db_max max : Z) (acc : list peerdb_t) : M (list peerdb_t * Z) :=
  match n with
  | O => ret (acc, scan_index)
  | S n =>
     r <- try (peerdb_read_index (scan_index mod db_max)) ;;
     let scan_index := u32 (scan_index + 1) in
     match r with
     | Error _ => scan_loop n scan_index db_max max acc
     | Done p =>
        let acc := acc ++ [p] in
        if max <=? zlen acc then ret (acc, scan_index)
        else scan_loop n scan_index db_max max acc
     end
  end.

Definition peerdb_track_scan (scan_index max : Z) : M (list peerdb_t * Z) :=
  r <- try bc_idx_next ;;
  let db_max := match r with Done n => i32 n | Error _ => 0 end in
  let max := Z.min (Z.min max db_max) MAX_PEERDB_TRACK_LIST_SIZE in
  if max =? 0 then ret ([], scan_index)
  else scan_loop (Z.to_nat db_max) scan_index db_max max [].

(** The record count is left unset when [bc_idx_next] fails, and is then used. *)
Definition peerdb_track_list (opened : bool) (mode scan_index ret_max : Z)
  : M (option (list peerdb_t) * Z) :=
  b <- peerdb_open opened mode ;;
  if negb b then ret (None, scan_index)
  else
    r <- try bc_idx_next ;;
    match r with
    | Error _ => fault
    | Done n =>
       r <- peerdb_track_scan scan_index (i32 (Z.min n (u32 (Z.max 0 ret_max)))) ;;
       ret (Some (peerdb_sort r.1 1), r.2)
    end.

(** The first [max_peer] peers of the list. *)
Definition unet_peer_track_list (opened : bool) (mode scan_index max_peer : Z)
  : M (option (list (list byte)) * Z) :=
  r <- peerdb_track_list opened mode scan_index max_peer ;;
  ret (match r.1 with
       | None => None
       | Some l => Some (pd_peer <$> take (Z.to_nat (Z.min (zlen l) max_peer)) l)
       end, r.2).

Definition peerdb_del (opened : bool) (mode : Z) (key : list byte) : M unit :=
  b <- peerdb_open opened mode ;;
  if negb b then ret tt
  else
    r <- try (bc_find (peerdb_key_hash key)) ;;
    match r with
    | Error _ => ret tt
    | Done pos => try (bc_clear pos) ;;; ret tt
    end.

Definition unet_peer_total (opened : bool) (mode : Z) : M Z :=
  b <- peerdb_open opened mode ;;
  if negb b then ret 0
  else r <- try bc_idx_next ;; ret (match r with Done n => n | Error _ => 0 end).

(** [flag] is [bind->flag]. *)
Definition unet_peer_decr (opened : bool) (flag mode : Z) (peer : list byte) : M unit :=
  if bad_mode mode then ret tt
  else if negb (has_flag flag DF_PEER_SCAN) then ret tt
  else
    b <- peerdb_open opened mode ;;
    (* a null handle makes the search fail *)
    if negb b then ret tt
    else
      r <- try (peerdb_read (shpeer_kpriv peer)) ;;
      match r with
      | Error _ => ret tt
      | Done p => peerdb_write (pd_add p (-1))
      end.

Definition unet_peer_incr (opened : bool) (flag mode : Z) (peer : list byte) : M unit :=
  if bad_mode mode then ret tt
  else if negb (has_flag flag DF_PEER_SCAN) then ret tt
  else
    b <- peerdb_open opened mode ;;
    if negb b then ret tt
    else
      r <- try (peerdb_read (shpeer_kpriv peer)) ;;
      match r with
      | Error e =>
         if negb (e =? ERR_NOENT) then ret tt
         else p <- peerdb_new peer ;; peerdb_write (pd_add p 1)
      | Done p => peerdb_write (pd_add p 1)
      end.

Definition unet_peer_track_add (opened : bool) (flag mode : Z) (peer : list byte) : M unit :=
  unet_peer_incr opened flag mode peer.
Definition unet_peer_track_remove (opened : bool) (mode : Z) (peer : list byte) : M unit :=
  peerdb_del opened mode (shpeer_kpriv peer).
End ops.
