(* ===== verification/PeerDbSpec.v ===== *)
(** * The peer database as a finite map

    The peers of a database form a map from key hashes to peers with their
    birth and trust; the operations of PeerDb.v are updates of that map.  The
    proofs use the database only through the interface of RecordDb.v. *)

From stdpp Require Import sorting.
From S2P Require Import Prelude Errors Descriptor Vfs BcState Fmap FmapInv Db Table Crc Index IndexInv Arch Block BlockSpec Store PeerDb.

Definition pd_wf (p : peerdb_t) : Prop :=
  length (pd_peer p) = 136%nat ∧ length (pd_pad p) = 4%nat ∧
  (0 ≤ pd_birth p < 2 ^ 32) ∧ (- 2 ^ 63 ≤ pd_trust p < 2 ^ 63).

#[global] Instance pd_wf_dec p : Decision (pd_wf p).
Proof. unfold pd_wf. apply _. Defined.

Definition pd_hash (p : peerdb_t) : bc_hash_t := peerdb_key_hash (shpeer_kpriv (pd_peer p)).

Lemma i64_range z : - 2 ^ 63 ≤ i64 z < 2 ^ 63.
Proof. unfold i64. pose proof (Z.mod_pos_bound (z + 2 ^ 63) (2 ^ 64)). lia. Qed.
Lemma i64_mod z : - 2 ^ 63 ≤ z < 2 ^ 63 → i64 (z mod 2 ^ 64) = z.
Proof.
  intros Hz. unfold i64. rewrite Zplus_mod_idemp_l. rewrite Z.mod_small by lia. lia.
Qed.

Lemma pd_add_wf p d : pd_wf p → pd_wf (pd_add p d).
Proof. intros (? & ? & ? & ?). split; [done|]. split; [done|]. split; [done|apply i64_range]. Qed.

Lemma length_peerdb_bytes p : pd_wf p → length (peerdb_bytes p) = 152%nat.
Proof.
  intros (H1 & H2 & _). unfold peerdb_bytes. rewrite !length_app, !length_le_enc, H1, H2. done.
Qed.

(** The record read back is the record written. *)
Lemma peerdb_of_bytes p : pd_wf p → peerdb_of (peerdb_bytes p) = p.
Proof.
  destruct p as [peer birth pad trust]. intros (H1 & H2 & H3 & H4). simpl in *.
  unfold peerdb_of, peerdb_bytes; cbn [pd_peer pd_birth pd_pad pd_trust].
  assert (Hd : ∀ k l, drop (136 + k) (peer ++ l) = drop k l).
  { intros k l. rewrite <-drop_drop. f_equal. by apply drop_app_length'. }
  assert (Hp : ∀ k l, drop (4 + k) (pad ++ l) = drop k l).
  { intros k l. rewrite <-drop_drop. f_equal. by apply drop_app_length'. }
  f_equal.
  - by apply take_app_length'.
  - rewrite (Hd 0%nat), drop_0, take_le_enc, le_dec_enc. by apply Z.mod_small.
  - rewrite (Hd 4%nat), (drop_le_enc 4 0), drop_0. by apply take_app_length'.
  - rewrite (Hd 8%nat), (drop_le_enc 4 4), (Hp 0%nat), drop_0, take_ge by (by rewrite length_le_enc).
    rewrite le_dec_enc. by apply i64_mod.
Qed.

Lemma key_hash_wf key : hash_wf (peerdb_key_hash key).
Proof. apply words_wf. Qed.
#[export] Hint Resolve key_hash_wf pd_add_wf : bc.

(** ** The map of a store *)
Record peer_map (a : store) (m : gmap bc_hash_t peerdb_t) : Prop := {
  pm_rec i h bs : so_recs a !! i = Some (Some (h, bs)) →
    ∃ p, m !! h = Some p ∧ bs = peerdb_bytes p;
  pm_all h p : m !! h = Some p → pd_wf p ∧ h = pd_hash p ∧
    ∃ i, so_recs a !! i = Some (Some (h, peerdb_bytes p));
  pm_uniq i j h bs bs' : so_recs a !! i = Some (Some (h, bs)) →
    so_recs a !! j = Some (Some (h, bs')) → i = j;
}.

Lemma peer_map_empty : peer_map (Store [] [] 0) ∅.
Proof. by split. Qed.

Lemma hash_cmp_eq h h' : hash_wf h → hash_wf h' → bc_hash_cmp h h' = true ↔ h = h'.
Proof.
  intros [Hl _] [Hl' _]. unfold bc_hash_cmp. rewrite bool_decide_eq_true.
  by rewrite !take_ge by lia.
Qed.

Lemma pm_match a m h i c :
  peer_map a m → hash_wf h → so_recs a !! i = Some c → so_matches h c = true →
  ∃ p, m !! h = Some p ∧ c = Some (h, peerdb_bytes p).
Proof.
  intros Hm Hh Hi Hc. destruct c as [[h' bs]|]; [|done]. simpl in Hc.
  destruct (pm_rec _ _ Hm _ _ _ Hi) as (p & Hp & ->).
  destruct (pm_all _ _ Hm _ _ Hp) as (_ & -> & _).
  apply hash_cmp_eq in Hc as ->; [by exists p|done|apply key_hash_wf].
Qed.

Lemma pm_find_Some a m h p :
  peer_map a m → hash_wf h → m !! h = Some p →
  ∃ i, so_find h (so_recs a) = Done (Z.of_nat i) ∧ so_recs a !! i = Some (Some (h, peerdb_bytes p)).
Proof.
  intros Hm Hh Hp. destruct (pm_all _ _ Hm _ _ Hp) as (_ & _ & i & Hi). unfold so_find.
  destruct (last_idx _ _ _) as [j|] eqn:E.
  - apply last_idx_Some in E as (_ & (c & Hj & Hc) & _). exists j. split; [done|].
    destruct (pm_match _ _ _ _ _ Hm Hh Hj Hc) as (p' & Hp' & ->).
    rewrite Hp in Hp'. by injection Hp' as <-.
  - rewrite last_idx_None in E. pose proof (lookup_lt_Some _ _ _ Hi).
    specialize (E i _ ltac:(done) Hi). simpl in E. rewrite (proj2 (hash_cmp_eq h h Hh Hh)) in E; done.
Qed.

Lemma pm_find_None a m h :
  peer_map a m → hash_wf h → m !! h = None → so_find h (so_recs a) = Error ERR_NOENT.
Proof.
  intros Hm Hh Hp. unfold so_find. destruct (last_idx _ _ _) as [j|] eqn:E; [|done].
  apply last_idx_Some in E as (_ & (c & Hj & Hc) & _).
  destruct (pm_match _ _ _ _ _ Hm Hh Hj Hc) as (p' & Hp' & _). congruence.
Qed.

(** ** Updates of the map *)

(** Room for [n] more updates. *)
Definition roomy (n : Z) (a : store) : Prop :=
  zlen (so_recs a) + n ≤ 2 ^ 22 ∧ zlen (so_arch a) + n ≤ 2 ^ 22 ∧ so_used a + PEERDB * n ≤ CAP.

#[global] Instance roomy_dec n a : Decision (roomy n a).
Proof. unfold roomy. apply _. Defined.

Lemma mk_cell_pd h p : pd_wf p → mk_cell h (peerdb_bytes p) = Some (h, peerdb_bytes p).
Proof.
  intros Hp. pose proof (length_peerdb_bytes _ Hp) as Hl. unfold mk_cell.
  by destruct (peerdb_bytes p).
Qed.

(** The records outside position [i] keep their keys when the record at [i] is
    given the peer [p]. *)
Lemma pm_put a m i p c :
  peer_map a m → pd_wf p → (i ≤ length (so_recs a))%nat →
  (∀ j bs, so_recs a !! j = Some (Some (pd_hash p, bs)) → j = i) →
  (∀ h bs, so_recs a !! i = Some (Some (h, bs)) → h = pd_hash p) →
  c = Some (pd_hash p, peerdb_bytes p) →
  peer_map (so_put a (Z.of_nat i) c 152) (<[pd_hash p := p]> m).
Proof.
  intros Hm Hp Hi Hu Hold ->.
  assert (Hlk : ∀ j, so_recs (so_put a (Z.of_nat i) (Some (pd_hash p, peerdb_bytes p)) 152) !! j =
    if decide (j = i) then Some (Some (pd_hash p, peerdb_bytes p)) else so_recs a !! j).
  { intros j. cbn [so_put so_recs]. rewrite rec_put_lookup, Nat2Z.id; [done|]. unfold cell in *. lia. }
  split.
  - intros j h bs. rewrite Hlk. case_decide as Hj.
    + intros [= <- <-]. exists p. by rewrite lookup_insert_eq.
    + intros Hr. destruct (pm_rec _ _ Hm _ _ _ Hr) as (p' & ? & ?). exists p'.
      rewrite lookup_insert_ne; [done|]. intros <-. by apply Hj, (Hu j bs).
  - intros h p'. destruct (decide (h = pd_hash p)) as [->|Hne].
    + rewrite lookup_insert_eq. intros [= <-]. split; [done|]. split; [done|]. exists i.
      rewrite Hlk. by rewrite decide_True.
    + rewrite lookup_insert_ne by done. intros Hp'. destruct (pm_all _ _ Hm _ _ Hp') as (? & ? & j & Hj).
      split; [done|]. split; [done|]. exists j. rewrite Hlk. rewrite decide_False; [done|].
      intros ->. by apply Hne, (Hold _ _ Hj).
  - intros j k h bs bs'. rewrite !Hlk. repeat case_decide; subst; try done.
    + intros [= <- <-] Hk. symmetry. by eapply Hu.
    + intros Hk [= <- <-]. by eapply Hu.
    + apply (pm_uniq _ _ Hm).
Qed.

Lemma pm_delete a m h i c :
  peer_map a m → m !! h = Some c → so_recs a !! i = Some (Some (h, peerdb_bytes c)) →
  peer_map (so_clear a (Z.of_nat i)).2 (delete h m).
Proof.
  intros Hm Hh Hi. pose proof (lookup_lt_Some _ _ _ Hi) as Hlt.
  assert (Hlk : ∀ j, so_recs (so_clear a (Z.of_nat i)).2 !! j =
    if decide (j = i) then Some None else so_recs a !! j).
  { intros j. unfold so_clear, so_get. rewrite Nat2Z.id, Hi. cbn [snd so_recs].
    rewrite rec_put_lookup, Nat2Z.id; [done|]. unfold cell in *. lia. }
  split.
  - intros j h' bs. rewrite Hlk. case_decide as Hj; [done|]. intros Hr.
    destruct (pm_rec _ _ Hm _ _ _ Hr) as (p' & ? & ?). exists p'. rewrite lookup_delete_ne; [done|].
    intros <-. by apply Hj, (pm_uniq _ _ Hm _ _ _ _ _ Hr Hi).
  - intros h' p'. rewrite lookup_delete_Some. intros [Hne Hp']. destruct (pm_all _ _ Hm _ _ Hp') as (? & ? & j & Hj).
    split; [done|]. split; [done|]. exists j. rewrite Hlk, decide_False; [done|]. intros ->. congruence.
  - intros j k h' bs bs'. rewrite !Hlk. repeat case_decide; subst; try done. apply (pm_uniq _ _ Hm).
Qed.

(** ** The records in scan order *)
Definition live_at (a : store) (i : nat) : option (bc_hash_t * peerdb_t) :=
  match so_recs a !! i with
  | Some (Some (h, bs)) => Some (h, peerdb_of bs)
  | _ => None
  end.

(** The [n] positions from [k] on, modulo [max]. *)
Fixpoint ring (n : nat) (k max : Z) : list nat :=
  match n with O => [] | S n => Z.to_nat (k mod max) :: ring n (k + 1) max end.

Lemma elem_of_ring n k max j :
  j ∈ ring n k max ↔ ∃ i, 0 ≤ i < Z.of_nat n ∧ j = Z.to_nat ((k + i) mod max).
Proof.
  revert k. induction n as [|n IH]; intros k; cbn [ring].
  { split; [by intros ?%elem_of_nil|intros (i & ? & _); lia]. }
  rewrite elem_of_cons, IH. split.
  - intros [->|(i & Hi & ->)]; [exists 0; rewrite Z.add_0_r; split; [lia|done]|].
    exists (i + 1). split; [lia|]. do 2 f_equal. lia.
  - intros (i & Hi & ->). destruct (decide (i = 0)) as [->|Hne]; [left; by rewrite Z.add_0_r|right].
    exists (i - 1). split; [lia|]. do 2 f_equal. lia.
Qed.

Lemma mod_inj k i j max : 0 < max → Z.abs (i - j) < max → (k + i) mod max = (k + j) mod max → i = j.
Proof.
  intros Hm Hij E. assert (Hd : (i - j) mod max = 0).
  { replace (i - j) with ((k + i) - (k + j)) by lia. rewrite Zminus_mod, E, Z.sub_diag. by apply Z.mod_0_l; lia. }
  apply Z.mod_divide in Hd as [q Hq]; [|lia]. assert (q = 0) by nia. lia.
Qed.

Lemma NoDup_ring n k max : 0 < max → Z.of_nat n ≤ max → NoDup (ring n k max).
Proof.
  intros Hm. revert k. induction n as [|n IH]; intros k Hn; cbn [ring]; constructor; [|apply IH; lia].
  rewrite elem_of_ring. intros (i & Hi & E). apply Z2Nat.inj in E; [|apply Z.mod_pos_bound; lia..].
  replace k with (k + 0) in E at 1 by lia. replace (k + 1 + i) with (k + (1 + i)) in E by lia.
  apply mod_inj in E; lia.
Qed.

Lemma NoDup_omap {A B} (f : A → option B) l :
  NoDup l → (∀ x y b, f x = Some b → f y = Some b → x = y) → NoDup (omap f l).
Proof.
  intros Hl Hf. induction Hl as [|x l Hx Hl IH]; [constructor|]. cbn [omap list_omap].
  destruct (f x) as [b|] eqn:E; [|done]. constructor; [|done].
  rewrite list_elem_of_omap. intros (y & Hy & Ey). apply Hx. by rewrite (Hf x y b E Ey).
Qed.

(** A full turn over the records visits each peer once. *)
Lemma ring_peers a m k :
  peer_map a m → 0 < zlen (so_recs a) →
  omap (live_at a) (ring (length (so_recs a)) k (zlen (so_recs a))) ≡ₚ map_to_list m.
Proof.
  intros Hm Hn.
  assert (Hlive : ∀ i h p, live_at a i = Some (h, p) ↔
    so_recs a !! i = Some (Some (h, peerdb_bytes p)) ∧ m !! h = Some p).
  { intros i h p. unfold live_at. destruct (so_recs a !! i) as [[[h' bs]|]|] eqn:E; [|by split; [done|intros []]..].
    destruct (pm_rec _ _ Hm _ _ _ E) as (q & Hq & ->). destruct (pm_all _ _ Hm _ _ Hq) as (Hwf & _).
    rewrite (peerdb_of_bytes _ Hwf). split; [by intros [= <- <-]|].
    intros [[= -> Hb] Hp]. rewrite Hp in Hq. by injection Hq as <-. }
  apply NoDup_Permutation; [|apply NoDup_map_to_list|].
  - apply NoDup_omap; [apply NoDup_ring; lia|]. intros i j [h p] [Hi _]%Hlive [Hj _]%Hlive.
    by eapply (pm_uniq _ _ Hm).
  - intros [h p]. rewrite list_elem_of_omap, elem_of_map_to_list. split.
    + by intros (i & _ & [_ ?]%Hlive).
    + intros Hp. destruct (pm_all _ _ Hm _ _ Hp) as (_ & _ & i & Hi). exists i. rewrite Hlive. split; [|done].
      apply lookup_lt_Some in Hi. unfold cell in *. rewrite elem_of_ring.
      exists ((Z.of_nat i - k) mod zlen (so_recs a)). split; [apply Z.mod_pos_bound; lia|].
      rewrite Zplus_mod_idemp_r. replace (k + (Z.of_nat i - k)) with (Z.of_nat i) by lia.
      rewrite Z.mod_small by lia. by rewrite Nat2Z.id.
Qed.

Lemma length_ring_live a n k max : (length (omap (live_at a) (ring n k max)) ≤ n)%nat.
Proof.
  revert k. induction n as [|n IH]; intros k; [done|]. cbn [ring omap list_omap].
  specialize (IH (k + 1)). unfold omap in IH. destruct (live_at a _); cbn [length]; unfold omap; lia.
Qed.

Lemma peer_map_size a m : peer_map a m → (length (map_to_list m) ≤ length (so_recs a))%nat.
Proof.
  intros Hm. destruct (so_recs a) as [|c l] eqn:E.
  - destruct (map_to_list m) as [|[h p] l'] eqn:El; [done|].
    assert (Hp : m !! h = Some p) by (apply elem_of_map_to_list; rewrite El; left).
    destruct (pm_all _ _ Hm _ _ Hp) as (_ & _ & i & Hi). by rewrite E in Hi.
  - rewrite <-E. rewrite <-(ring_peers a m 0 Hm) by (rewrite E; simpl; lia). apply length_ring_live.
Qed.

Section client.
Context `{Env} (R : st → store → Prop) `{!RecordDb R}.

(** The state still represents a store with the peers [m] and room for [n]
    updates. *)
Definition keeps_peers (n : Z) (m : gmap bc_hash_t peerdb_t) (s s' : st) : Prop :=
  frame s s' ∧ ∃ a, R s' a ∧ peer_map a m ∧ roomy n a.

Lemma wp_read_index s a m pos :
  R s a → peer_map a m → 0 ≤ pos →
  wp (peerdb_read_index pos) s (λ r s', frame s s' ∧ R s' a ∧
    r = match live_at a (Z.to_nat pos) with Some (_, p) => Done p | None => Error ERR_NOENT end).
Proof.
  intros Hr Hm Hp. unfold peerdb_read_index, live_at. apply wp_bind.
  eapply wp_mono; [by apply rd_has|]. unfold so_get.
  destruct (so_recs a !! Z.to_nat pos) as [[[h bs]|]|] eqn:E.
  - destruct (pm_rec _ _ Hm _ _ _ E) as (q & Hq & ->). destruct (pm_all _ _ Hm _ _ Hq) as (Hwf & _).
    intros r s1 (Hr1 & HR1 & Hf1). destruct r as [x|e]; [|done]. apply wp_bind.
    eapply wp_mono; [by apply rd_get|]. unfold so_get. rewrite E.
    intros r s2 (-> & HR2 & Hf2). cbn [rmap snd]. rewrite (length_peerdb_bytes _ Hwf).
    change (Z.of_nat 152 <? PEERDB) with false. apply wp_ret. split; [by etrans|done].
  - intros r s1 (Hr1 & HR1 & Hf1). destruct r as [x|e]; [done|]. simpl in Hr1. by injection Hr1 as ->.
  - intros r s1 (Hr1 & HR1 & Hf1). destruct r as [x|e]; [done|]. simpl in Hr1. by injection Hr1 as ->.
Qed.

Lemma wp_peer_read s a m key :
  R s a → peer_map a m →
  wp (peerdb_read key) s (λ r s', frame s s' ∧ R s' a ∧
    r = match m !! peerdb_key_hash key with Some p => Done p | None => Error ERR_NOENT end).
Proof.
  intros Hr Hm. unfold peerdb_read. set (h := peerdb_key_hash key).
  assert (Hh : hash_wf h) by apply key_hash_wf.
  apply wp_bind. eapply wp_mono; [by apply rd_find|]. intros r s1 (-> & Hr1 & Hf1).
  destruct (m !! h) as [p|] eqn:Ep.
  2: { by rewrite (pm_find_None _ _ _ Hm Hh Ep). }
  destruct (pm_find_Some _ _ _ _ Hm Hh Ep) as (i & -> & Hi).
  destruct (pm_all _ _ Hm _ _ Ep) as (Hwf & _).
  eapply wp_mono; [apply (wp_read_index _ a m); [done|done|lia]|]. unfold live_at.
  rewrite Nat2Z.id, Hi, (peerdb_of_bytes _ Hwf). intros r s2 (Hf2 & HR2 & ->).
  split; [by etrans|done].
Qed.

Lemma wp_peer_write s a m p n :
  R s a → peer_map a m → pd_wf p → 0 ≤ n → roomy (n + 1) a →
  wp (peerdb_write p) s (λ r s', r = Done tt ∧ keeps_peers n (<[pd_hash p := p]> m) s s').
Proof.
  intros Hr Hm Hp Hn (Hc & Ha & Hu). unfold peerdb_write. fold (pd_hash p). cbv zeta.
  assert (Hh : hash_wf (pd_hash p)) by apply key_hash_wf.
  pose proof (length_peerdb_bytes _ Hp) as Hl. unfold PEERDB in Hu. unfold cell in *.
  apply wp_bind, wp_try. eapply wp_mono; [by apply rd_find|]. intros r s1 (-> & Hr1 & Hf1).
  cbn beta iota. apply wp_bind.
  destruct (m !! pd_hash p) as [q|] eqn:Eq.
  - destruct (pm_find_Some _ _ _ _ Hm Hh Eq) as (i & -> & Hi).
    destruct (pm_all _ _ Hm _ _ Eq) as (Hq & _). pose proof (length_peerdb_bytes _ Hq) as Hlq.
    pose proof (lookup_lt_Some _ _ _ Hi) as Hlt. unfold cell in *.
    apply wp_try. eapply wp_mono; [apply rd_write; [done|]|].
    { unfold admissible. unfold cell in *. repeat split; try lia; apply Hh. }
    intros r s2 (-> & Hr2 & Hf2). cbn beta iota. apply wp_ret. split; [done|]. split; [by etrans|].
    eexists. split; [exact Hr2|]. unfold so_write, so_get, cell. rewrite Nat2Z.id, Hi, Hl, Hlq.
    change (Z.of_nat 152 <? Z.of_nat 152) with false. cbn [snd]. rewrite mk_cell_pd by done. split.
    + apply pm_put; [done|done|unfold cell; lia| |by intros ?? [= <- _]%(eq_trans (eq_sym Hi))|done].
      intros j bs Hj. eapply (pm_uniq _ _ Hm); [exact Hj|exact Hi].
    + unfold roomy, so_put, PEERDB. cbn [so_recs so_arch so_used]. unfold rec_put, cell in *.
      rewrite decide_True by lia. rewrite length_insert. lia.
  - rewrite (pm_find_None _ _ _ Hm Hh Eq).
    apply wp_try. eapply wp_mono; [apply rd_append; [done|]|].
    { unfold admissible. unfold cell in *. repeat split; try lia; apply Hh. }
    intros r s2 (-> & Hr2 & Hf2). cbn beta iota. apply wp_ret. split; [done|]. split; [by etrans|].
    eexists. split; [exact Hr2|]. rewrite mk_cell_pd, Hl by done. split.
    + apply pm_put; [done|done|done| | |done].
      * intros j bs Hj. destruct (pm_rec _ _ Hm _ _ _ Hj) as (? & ? & _). congruence.
      * intros h bs Hj. apply lookup_lt_Some in Hj. unfold cell in *. lia.
    + unfold roomy, so_put, PEERDB. cbn [so_recs so_arch so_used]. unfold rec_put, cell in *.
      rewrite decide_False by lia. rewrite length_app. cbn [length]. lia.
Qed.

(** ** The operations *)
Definition new_peer (now : Z) (peer : list byte) : peerdb_t :=
  Peerdb (take SHPEER peer) (u32 now) (replicate 4 x00) 0.

Lemma new_peer_wf now peer : length peer = 136%nat → pd_wf (new_peer now peer).
Proof.
  intros Hl. split; [simpl; rewrite length_take; unfold SHPEER; lia|]. split; [done|].
  split; [apply u32_range|]. simpl. lia.
Qed.
Lemma new_peer_hash now peer :
  length peer = 136%nat → pd_hash (pd_add (new_peer now peer) 1) = peerdb_key_hash (shpeer_kpriv peer).
Proof. intros Hl. unfold pd_hash; simpl. by rewrite take_ge by (unfold SHPEER; lia). Qed.

Definition peer_incr (now : Z) (peer : list byte) (m : gmap bc_hash_t peerdb_t) : gmap bc_hash_t peerdb_t :=
  let h := peerdb_key_hash (shpeer_kpriv peer) in
  <[h := pd_add (default (new_peer now peer) (m !! h)) 1]> m.
Definition peer_decr (peer : list byte) (m : gmap bc_hash_t peerdb_t) : gmap bc_hash_t peerdb_t :=
  let h := peerdb_key_hash (shpeer_kpriv peer) in
  match m !! h with Some p => <[h := pd_add p (-1)]> m | None => m end.
Definition peer_remove (peer : list byte) (m : gmap bc_hash_t peerdb_t) : gmap bc_hash_t peerdb_t :=
  delete (peerdb_key_hash (shpeer_kpriv peer)) m.

Lemma roomy_less n k a : 0 ≤ k ≤ n → roomy n a → roomy k a.
Proof. unfold roomy, PEERDB. lia. Qed.

Lemma wp_opened mode s (Q : result bool → st → Prop) :
  bad_mode mode = false → Q (Done true) s → wp (peerdb_open true mode) s Q.
Proof. intros Hb HQ. unfold peerdb_open. rewrite Hb. by apply wp_ret. Qed.

Lemma wp_peer_incr s a m flag mode peer n :
  R s a → peer_map a m → length peer = 136%nat → bad_mode mode = false →
  has_flag flag DF_PEER_SCAN = true → 0 ≤ n → roomy (n + 1) a →
  wp (unet_peer_incr true flag mode peer) s (λ r s', r = Done tt ∧
    keeps_peers n (peer_incr (w_time (st_w s)) peer m) s s').
Proof.
  intros Hr Hm Hl Hb Hfl Hn Hroom. unfold unet_peer_incr. rewrite Hb, Hfl. cbn [negb].
  apply wp_bind. eapply wp_opened; [done|]. cbn beta iota. cbn [negb].
  apply wp_bind, wp_try. eapply wp_mono; [by apply wp_peer_read|]. intros r s1 (Hf1 & Hr1 & ->).
  cbn beta iota. unfold peer_incr. set (h := peerdb_key_hash (shpeer_kpriv peer)).
  assert (Hk : ∀ r s', r = Done tt ∧ keeps_peers n (<[h := pd_add (default (new_peer (w_time (st_w s)) peer) (m !! h)) 1]> m) s1 s' →
    r = Done tt ∧ keeps_peers n (<[h := pd_add (default (new_peer (w_time (st_w s)) peer) (m !! h)) 1]> m) s s').
  { intros r s' (-> & Hf & Ha). split; [done|]. split; [by etrans|done]. }
  destruct (m !! h) as [p|] eqn:Ep.
  - destruct (pm_all _ _ Hm _ _ Ep) as (Hp & Hh & _). eapply wp_mono; [|exact Hk].
    change (default _ (Some p)) with p. rewrite Hh. change (pd_hash p) with (pd_hash (pd_add p 1)).
    by apply (wp_peer_write s1 a); [..|apply pd_add_wf| |].
  - cbn [Z.eqb negb]. rewrite Z.eqb_refl. cbn [negb]. unfold peerdb_new.
    apply wp_bind, wp_bind, wp_gets. cbn beta iota. apply wp_ret. cbn beta iota.
    rewrite (fr_time _ _ Hf1). fold (new_peer (w_time (st_w s)) peer).
    eapply wp_mono; [|exact Hk]. change (default ?x None) with x.
    replace h with (pd_hash (pd_add (new_peer (w_time (st_w s)) peer) 1)) by by apply new_peer_hash.
    by apply (wp_peer_write s1 a); [..|apply pd_add_wf, new_peer_wf| |].
Qed.

Lemma wp_peer_decr s a m flag mode peer n :
  R s a → peer_map a m → bad_mode mode = false →
  has_flag flag DF_PEER_SCAN = true → 0 ≤ n → roomy (n + 1) a →
  wp (unet_peer_decr true flag mode peer) s (λ r s', r = Done tt ∧
    keeps_peers n (peer_decr peer m) s s').
Proof.
  intros Hr Hm Hb Hfl Hn Hroom. unfold unet_peer_decr. rewrite Hb, Hfl. cbn [negb].
  apply wp_bind. eapply wp_opened; [done|]. cbn beta iota. cbn [negb].
  apply wp_bind, wp_try. eapply wp_mono; [by apply wp_peer_read|]. intros r s1 (Hf1 & Hr1 & ->).
  cbn beta iota. unfold peer_decr. set (h := peerdb_key_hash (shpeer_kpriv peer)).
  destruct (m !! h) as [p|] eqn:Ep.
  - destruct (pm_all _ _ Hm _ _ Ep) as (Hp & Hh & _). rewrite Hh.
    change (pd_hash p) with (pd_hash (pd_add p (-1))).
    eapply wp_mono; [by apply (wp_peer_write s1 a m _ n); [..|apply pd_add_wf| |]|].
    intros r s' (-> & Hf & Ha). split; [done|]. split; [by etrans|done].
  - apply wp_ret. split; [done|]. split; [done|]. exists a. split; [done|]. split; [done|].
    by eapply roomy_less; [|exact Hroom]; lia.
Qed.

Lemma wp_peer_remove s a m mode peer n :
  R s a → peer_map a m → bad_mode mode = false → 0 ≤ n → roomy (n + 1) a →
  wp (unet_peer_track_remove true mode peer) s (λ r s', r = Done tt ∧
    keeps_peers n (peer_remove peer m) s s').
Proof.
  intros Hr Hm Hb Hn Hroom. unfold unet_peer_track_remove, peerdb_del, peer_remove.
  apply wp_bind. eapply wp_opened; [done|]. cbn beta iota. cbn [negb].
  set (h := peerdb_key_hash (shpeer_kpriv peer)). assert (Hh : hash_wf h) by apply key_hash_wf.
  apply wp_bind, wp_try. eapply wp_mono; [by apply rd_find|]. intros r s1 (-> & Hr1 & Hf1). cbn beta iota.
  destruct (m !! h) as [p|] eqn:Ep.
  - destruct (pm_find_Some _ _ _ _ Hm Hh Ep) as (i & -> & Hi).
    pose proof (lookup_lt_Some _ _ _ Hi) as Hlt. destruct Hroom as (Hc & Ha & Hu). unfold cell in Hlt, Hc, Ha.
    apply wp_bind, wp_try. eapply wp_mono; [apply rd_clear; [done|split; unfold cell; lia]|].
    intros r s2 (-> & Hr2 & Hf2). cbn beta iota. apply wp_ret. split; [done|]. split; [by etrans|].
    eexists. split; [exact Hr2|]. split; [by eapply pm_delete|].
    destruct (so_clear_sizes a (Z.of_nat i)) as [Hs1 Hs2]; [unfold cell; lia|].
    assert (so_used (so_clear a (Z.of_nat i)).2 = so_used a) as Hs3.
    { unfold so_clear. by destruct (so_get _ _). }
    unfold roomy, PEERDB, cell in *. lia.
  - rewrite (pm_find_None _ _ _ Hm Hh Ep). apply wp_ret. split; [done|]. split; [done|].
    exists a. split; [done|]. split; [|eapply roomy_less; [|exact Hroom]; lia].
    by rewrite delete_id.
Qed.

(** ** Scans *)
Lemma wp_scan_loop n s a m k max acc :
  R s a → peer_map a m → 0 < zlen (so_recs a) → 0 ≤ k → k + Z.of_nat n < 2 ^ 32 →
  zlen acc < max →
  wp (scan_loop n k (zlen (so_recs a)) max acc) s (λ r s', frame s s' ∧ R s' a ∧ ∃ k',
    r = Done (take (Z.to_nat max) (acc ++ (omap (live_at a) (ring n k (zlen (so_recs a)))).*2), k')).
Proof.
  intros Hr Hm Hpos. revert s k acc Hr. induction n as [|n IH]; intros s k acc Hr Hk Hkn Hmax; cbn [scan_loop ring].
  { apply wp_ret. split; [done|]. split; [done|]. exists k. simpl. rewrite app_nil_r, take_ge by lia. done. }
  pose proof (Z.mod_pos_bound k (zlen (so_recs a)) Hpos).
  apply wp_bind, wp_try. eapply wp_mono; [apply (wp_read_index _ a m); [done|done|lia]|].
  intros r s1 (Hf1 & HR1 & ->). cbn beta iota zeta. rewrite u32_small by lia. cbn [omap list_omap].
  destruct (live_at a _) as [[h p]|] eqn:El.
  - rewrite fmap_cons. cbn [snd].
    set (l := (omap _ _).*2) in *.
    replace (acc ++ p :: l) with ((acc ++ [p]) ++ l) by (by rewrite <-app_assoc).
    destruct (Z.leb_spec max (zlen (acc ++ [p]))) as [Hle|Hgt];
      rewrite length_app in *; cbn [length] in *.
    + apply wp_ret. split; [done|]. split; [done|]. exists (k + 1).
      rewrite take_app_le by (rewrite length_app; simpl; lia).
      rewrite take_ge by (rewrite length_app; simpl; lia). done.
    + eapply wp_mono; [apply (IH s1 (k + 1) (acc ++ [p]) HR1); [lia|lia|rewrite length_app; simpl; lia]|].
      intros r s2 (Hf2 & HR2 & ?). split; [by etrans|done].
  - eapply wp_mono; [apply (IH s1 (k + 1) acc HR1); lia|].
    intros r s2 (Hf2 & HR2 & ?). split; [by etrans|done].
Qed.

Lemma wp_track_scan s a m k max :
  R s a → peer_map a m → zlen (so_recs a) < 2 ^ 31 → 0 ≤ k → k + zlen (so_recs a) < 2 ^ 32 → 0 ≤ max →
  wp (peerdb_track_scan k max) s (λ r s', frame s s' ∧ R s' a ∧ ∃ k',
    r = Done (take (Z.to_nat (max `min` MAX_PEERDB_TRACK_LIST_SIZE))
      (omap (live_at a) (ring (length (so_recs a)) k (zlen (so_recs a)))).*2, k')).
Proof.
  intros Hr Hm Hc Hk Hkn Hmax. unfold peerdb_track_scan. apply wp_bind, wp_try.
  eapply wp_mono; [by apply rd_next|]. intros r s1 (-> & HR1 & Hf1). cbn beta iota zeta.
  rewrite i32_small by lia. set (n := zlen (so_recs a)) in *.
  destruct (Z.eqb_spec (Z.min (Z.min max n) MAX_PEERDB_TRACK_LIST_SIZE) 0) as [E|E].
  - apply wp_ret. split; [done|]. split; [done|]. exists k. unfold MAX_PEERDB_TRACK_LIST_SIZE in *.
    destruct (decide (max = 0)) as [->|]; [done|].
    assert (length (so_recs a) = 0%nat) as -> by lia. simpl. by rewrite take_nil.
  - unfold n. rewrite Nat2Z.id. unfold MAX_PEERDB_TRACK_LIST_SIZE in *.
    eapply wp_mono; [apply (wp_scan_loop _ s1 a m); [done|done|lia|done|lia|simpl; lia]|].
    intros r s2 (Hf2 & HR2 & k' & ->). split; [by etrans|]. split; [done|]. exists k'. do 2 f_equal.
    cbn [app]. set (l := (omap _ _).*2).
    assert (Hl : (length l ≤ length (so_recs a))%nat).
    { unfold l. rewrite length_fmap. apply length_ring_live. }
    destruct (decide (max ≤ n ∨ 1000 ≤ n)).
    + do 2 f_equal. lia.
    + rewrite !take_ge by lia. done.
Qed.

(** ** Sequences *)
Inductive peer_op := PIncr (peer : list byte) | PDecr (peer : list byte) | PRemove (peer : list byte).

Definition op_peer (o : peer_op) : list byte :=
  match o with PIncr p | PDecr p | PRemove p => p end.

Definition peer_exec (flag mode : Z) (o : peer_op) : M unit :=
  match o with
  | PIncr peer => unet_peer_track_add true flag mode peer
  | PDecr peer => unet_peer_decr true flag mode peer
  | PRemove peer => unet_peer_track_remove true mode peer
  end.
Definition peer_spec (now : Z) (m : gmap bc_hash_t peerdb_t) (o : peer_op) : gmap bc_hash_t peerdb_t :=
  match o with
  | PIncr peer => peer_incr now peer m
  | PDecr peer => peer_decr peer m
  | PRemove peer => peer_remove peer m
  end.

Fixpoint peer_run (flag mode : Z) (os : list peer_op) : M unit :=
  match os with [] => ret tt | o :: os => peer_exec flag mode o ;;; peer_run flag mode os end.

Lemma wp_peer_run flag mode os s a m :
  R s a → peer_map a m → Forall (λ o, length (op_peer o) = 136%nat) os → bad_mode mode = false →
  has_flag flag DF_PEER_SCAN = true → roomy (zlen os) a →
  wp (peer_run flag mode os) s (λ r s', r = Done tt ∧
    keeps_peers 0 (foldl (peer_spec (w_time (st_w s))) m os) s s').
Proof.
  intros Hr Hm Hall Hb Hfl Hroom. revert s a m Hr Hm Hroom.
  induction Hall as [|o os Ho Hall IH]; intros s a m Hr Hm Hroom; cbn [peer_run foldl].
  { apply wp_ret. split; [done|]. split; [done|]. eauto. }
  cbn [length] in Hroom. replace (Z.of_nat (S (length os))) with (zlen os + 1) in Hroom by lia.
  apply wp_bind. eapply wp_mono with (Q := λ r s', r = Done tt ∧
    keeps_peers (zlen os) (peer_spec (w_time (st_w s)) m o) s s').
  { destruct o; [eapply wp_peer_incr|eapply wp_peer_decr|eapply wp_peer_remove]; eauto with lia. }
  intros r s1 (-> & Hf1 & a1 & Hr1 & Hm1 & Hroom1). cbn beta iota.
  eapply wp_mono; [by eapply IH|]. intros r s2 (-> & Hf2 & Ha2). rewrite (fr_time _ _ Hf1) in Ha2.
  split; [done|]. split; [by etrans|done].
Qed.
End client.
