(* ===== verification/Net.v ===== *)
(** * The network state

    The statics of [src/shioncoin/unet/*.c]: the table of bound services, the
    event table, the descriptor table of Descriptor.v, and the list of local
    addresses.  Everything outside these files (sockets, the clock, the peer
    database, the services' callbacks) answers through the class [Net]: an
    answer may depend on the whole history of calls, so that no assumption is
    made on how it changes over time. *)

From S2P Require Import Prelude Errors Shbuf Descriptor PeerDb.

Definition UNET_MAX_EVENTS : Z := 20480.
Definition UEVENT_PEER_VERIFY : Z := 1.
Definition UEVENT_PEER_CONN : Z := 2.
Definition MAX_CONNECT_IDLE_TIME : Z := 45.
Definition MAX_IDLE_TIME : Z := 3600.
Definition MAX_SOCKET_BUFFER_SIZE : Z := 40960000.
Definition UTHREAD_IDLE : Z := 1.
Definition UTHREAD_TIMER : Z := 2.
Definition UNDEFINED_SOCKET : Z := 0.

(** libshare's [shpeer_t] as raw bytes. *)
Definition shpeer : Type := list byte.

Record uevent_t := Uevent {
  e_mode : Z; e_flag : Z; e_type : Z; e_fd : Z;
  e_data : option shpeer;
}.
Definition null_event : uevent_t := Uevent 0 0 0 0 None.

#[global] Instance uevent_eq_dec : EqDecision uevent_t.
Proof. solve_decision. Defined.

(** The calls that leave the modelled code, in order. *)
Inductive action :=
  | ASocket | AErrno | ABindSk (fd port : Z) | ABindEsl (port : Z)
  | AAccept (fd : Z) | AAcceptEsl (fd : Z)
  | AConnect (fd : Z) (addr : sockaddr) | AConnectWait (fd : Z)
  | ANonblock (fd : Z) | AClose (fd : Z)
  | AStat (fd : Z) | APeername (fd : Z) | ATime | AClock
  | ASelect (r w : list Z)
  | ARead (fd : Z) | AWrite (fd : Z) (bs : list byte)
  | AVerify (peer : shpeer) (fd : Z)
  | APeerIncr (mode : Z) (peer : shpeer) | APeerDecr (mode : Z) (peer : shpeer)
  | APeerPrune (mode : Z) | APeerScan (mode : Z) | APeerList (mode : Z)
  | APeerFree (peer : shpeer)
  | ADbOpen (mode : Z) | ADbIdle (mode : Z) | ADbClose (mode : Z)
  | AThreadStart (mode : Z) | AThreadJoin (mode : Z)
  | ACallAccept (mode fd : Z) (addr : sockaddr) | ACallClose (mode fd : Z) (addr : sockaddr)
  | ACallTimer (mode : Z).

Definition history : Type := list action.

(** [double] values ([scan_freq]) are a parameter. *)
Record unet_bind_t {freq : Type} := UBind {
  b_fd : Z; b_flag : Z; b_port : Z;
  b_scan_freq : freq;
  b_timer_stamp : Z; b_scan_stamp : Z;
  b_peer_db : bool;
  b_fl_timer : Z;
  b_op_timer : bool; b_op_accept : bool; b_op_close : bool;
}.
Arguments unet_bind_t : clear implicits.

Record ust {freq : Type} := UST {
  u_desc : dtab;
  u_bind : list (unet_bind_t freq);      (* [_unet_bind] *)
  u_events : list uevent_t;              (* [event_table] *)
  u_new_idx : Z;                         (* [event_idx] of [uevent_new] *)
  u_cur_idx : Z;                         (* [event_idx] of [uevent_cycle] *)
  u_cycle : Z;                           (* [uevent_cycle_index] *)
  u_next_t : Z;                          (* [next_t] *)
  u_local : list string;                 (* [ipaddr_table] *)
  u_hist : history;
}.
Arguments ust : clear implicits.

(** The environment. *)
Class Net := {
  n_max_fd : Z;
  n_heap :: Heap;
  (* [double] arithmetic on [scan_freq], and [unet_peer_wait] *)
  n_freq : Type;
  n_freq_zero : n_freq; n_freq_init : n_freq;
  n_freq_up : n_freq → n_freq; n_freq_down : n_freq → n_freq;
  n_peer_wait : n_freq → Z → Z → bool;
  (* [shtime_after(t, shtime_adj(base, ms))] and [shtime_before(shtime_adj(base, ms), t)] *)
  n_time_after : Z → Z → Z → bool;
  n_time_before : Z → Z → Z → bool;
  (* replies of the system, given what happened before *)
  n_int : history → action → Z;
  n_stat : history → Z → fd_kind;
  n_addr : history → Z → sockaddr;
  n_read : history → Z → Z + list byte;
  n_select : history → Z * (Z → bool) * (Z → bool);   (* result, readable, failed *)
  n_junk : history → Z;                               (* an unset local variable *)
  (* libshare and libc: the address of a peer, the printed address *)
  n_shpeer_addr : shpeer → sockaddr;
  n_shpeer_init : Z → sockaddr → shpeer;
  n_netaddr_str : sockaddr → string;
  n_hostname_str : sockaddr → string;
  n_verify_fd : history → Z;                          (* [*fd_p] after [shnet_track_verify] *)
  (* the peer database: whether it can be opened, the peers of a scan and of a
     sorted list, and the seeds *)
  n_db_open : history → Z → bool;
  n_peer_scan : history → Z → option (list shpeer);
  n_peer_list : history → Z → option (list shpeer);
  n_seeds : Z → Z → list shpeer;
  n_opt_seed : bool;
  (* the services' callbacks *)
  n_cb_accept : Z → Z → sockaddr → ust n_freq → ust n_freq;
  n_cb_close : Z → Z → sockaddr → ust n_freq → ust n_freq;
  n_cb_timer : Z → ust n_freq → ust n_freq;
}.

Abbreviation net_st := (ust n_freq) (only parsing).
Abbreviation bind_t := (unet_bind_t n_freq) (only parsing).

(** ** The monad: state, and [None] for an access through a bad pointer *)
Definition U `{Net} (A : Type) : Type := ust n_freq → option (A * ust n_freq).

#[global] Instance U_ret `{Net} : MRet U := λ A a u, Some (a, u).
#[global] Instance U_bind `{Net} : MBind U := λ A B k m u,
  match m u with None => None | Some (a, u) => k a u end.

Section base.
Context `{Net}.

Definition ufault {A} : U A := λ _, None.
Definition uget : U net_st := λ u, Some (u, u).
Definition umod (f : net_st → net_st) : U unit := λ u, Some (tt, f u).

Definition set_desc (dt : dtab) (u : net_st) : net_st :=
  UST _ dt (u_bind u) (u_events u) (u_new_idx u) (u_cur_idx u) (u_cycle u) (u_next_t u) (u_local u) (u_hist u).
Definition set_bind (b : list bind_t) (u : net_st) : net_st :=
  UST _ (u_desc u) b (u_events u) (u_new_idx u) (u_cur_idx u) (u_cycle u) (u_next_t u) (u_local u) (u_hist u).
Definition set_events (l : list uevent_t) (u : net_st) : net_st :=
  UST _ (u_desc u) (u_bind u) l (u_new_idx u) (u_cur_idx u) (u_cycle u) (u_next_t u) (u_local u) (u_hist u).
Definition set_new_idx (i : Z) (u : net_st) : net_st :=
  UST _ (u_desc u) (u_bind u) (u_events u) i (u_cur_idx u) (u_cycle u) (u_next_t u) (u_local u) (u_hist u).
Definition set_cur_idx (i : Z) (u : net_st) : net_st :=
  UST _ (u_desc u) (u_bind u) (u_events u) (u_new_idx u) i (u_cycle u) (u_next_t u) (u_local u) (u_hist u).
Definition set_cycle (i : Z) (u : net_st) : net_st :=
  UST _ (u_desc u) (u_bind u) (u_events u) (u_new_idx u) (u_cur_idx u) i (u_next_t u) (u_local u) (u_hist u).
Definition set_next_t (i : Z) (u : net_st) : net_st :=
  UST _ (u_desc u) (u_bind u) (u_events u) (u_new_idx u) (u_cur_idx u) (u_cycle u) i (u_local u) (u_hist u).
Definition log_act (a : action) (u : net_st) : net_st :=
  UST _ (u_desc u) (u_bind u) (u_events u) (u_new_idx u) (u_cur_idx u) (u_cycle u) (u_next_t u) (u_local u)
    (u_hist u ++ [a]).

Definition act (a : action) : U unit := umod (log_act a).
(** A call with a reply: the reply depends on the history before the call. *)
Definition ask {A} (f : history → A) (a : action) : U A := λ u, Some (f (u_hist u), log_act a u).
Definition sysint (a : action) : U Z := ask (λ h, n_int h a) a.
Definition shtime : U Z := sysint ATime.       (* [shtime()] *)
Definition clock : U Z := sysint AClock.       (* [time(NULL)] *)

Fixpoint for_each {A} (l : list A) (f : A → U unit) : U unit :=
  match l with [] => mret tt | x :: l => f x ≫= λ _, for_each l f end.

(** ** Descriptors *)
Definition get_unet_table (sk : Z) : U (option desc_t) := λ u,
  match descriptor_get n_max_fd sk (u_desc u) with
  | None => None
  | Some d => Some (d, u)
  end.
Definition desc_claim (fd mode flag : Z) : U (option desc_t) :=
  if n_max_fd <=? fd then mret None else
  kind ← ask (λ h, n_stat h fd) (AStat fd);
  now ← shtime;
  u ← uget;
  match descriptor_claim n_max_fd now kind fd mode flag (u_desc u) with
  | None => ufault
  | Some (d, dt) => _ ← umod (set_desc dt); mret d
  end.
Definition desc_release (fd : Z) : U unit :=
  if n_max_fd <=? fd then mret tt else
  kind ← ask (λ h, n_stat h fd) (AStat fd);
  u ← uget;
  match descriptor_release n_max_fd kind fd (u_desc u) with
  | None => ufault
  | Some (dt, closed) => _ ← umod (set_desc dt); if closed : bool then act (AClose fd) else mret tt
  end.
Definition desc_mark (fd : Z) : U unit :=
  if n_max_fd <=? fd then mret tt else
  now ← shtime;
  u ← uget;
  match descriptor_mark n_max_fd now fd (u_desc u) with
  | None => ufault
  | Some (_, dt) => umod (set_desc dt)
  end.
Definition desc_lift (f : dtab → option dtab) : U unit := λ u,
  match f (u_desc u) with None => None | Some dt => Some (tt, set_desc dt u) end.

(** [t->flag |= flag] on a slot in use. *)
Definition with_flag (d : desc_t) (flag : Z) : desc_t :=
  Desc (d_mode d) (Z.lor (d_flag d) flag) (d_total d) (d_cstamp d) (d_stamp d) (d_rbuff d) (d_wbuff d)
    (d_net_addr d).
Definition with_wbuff (d : desc_t) (b : shbuf_t) : desc_t :=
  Desc (d_mode d) (d_flag d) (d_total d) (d_cstamp d) (d_stamp d) (d_rbuff d) (Some b) (d_net_addr d).
Definition desc_put (fd : Z) (d : desc_t) : U unit :=
  if fd <? 0 then ufault else umod (λ u, set_desc (dt_put (u_desc u) fd d) u).

(** ** Services *)
Definition unet_bind_table (mode : Z) : U (option bind_t) :=
  if bad_mode mode then mret None else λ u, Some (u_bind u !! Z.to_nat mode, u).
(** [_unet_bind[mode]] without a check of the index. *)
Definition bind_at (mode : Z) : U bind_t :=
  if bad_mode mode then ufault
  else λ u, match u_bind u !! Z.to_nat mode with None => None | Some b => Some (b, u) end.
Definition bind_put (mode : Z) (b : bind_t) : U unit :=
  umod (λ u, set_bind (<[Z.to_nat mode := b]> (u_bind u)) u).

(** [peerdb_open]: the handle is kept in the table. *)
Definition peer_db_open (mode : Z) : U bool :=
  ob ← unet_bind_table mode;
  match ob with
  | None => mret false
  | Some b =>
     if b_peer_db b then mret true
     else
       ok ← ask (λ h, n_db_open h mode) (ADbOpen mode);
       _ ← bind_put mode (UBind _ (b_fd b) (b_flag b) (b_port b) (b_scan_freq b) (b_timer_stamp b)
         (b_scan_stamp b) ok (b_fl_timer b) (b_op_timer b) (b_op_accept b) (b_op_close b));
       mret ok
  end.

(** [unet_peer_incr] and [unet_peer_decr] up to the update of the record, which
    is in PeerDb.v. *)
Definition peer_update (mode : Z) (a : action) : U unit :=
  ob ← unet_bind_table mode;
  match ob with
  | None => mret tt
  | Some b =>
     if negb (has_flag (b_flag b) DF_PEER_SCAN) then mret tt
     else ok ← peer_db_open mode; if ok : bool then act a else mret tt
  end.
Definition net_peer_incr (mode : Z) (peer : shpeer) : U unit := peer_update mode (APeerIncr mode peer).
Definition net_peer_decr (mode : Z) (peer : shpeer) : U unit := peer_update mode (APeerDecr mode peer).
End base.

(** ** The state at start-up *)
Definition null_bind `{Net} : bind_t := UBind _ 0 0 0 n_freq_zero 0 0 false 0 false false false.
Definition net_init `{Net} : net_st :=
  UST _ dtab_init (replicate 32 null_bind) (replicate (Z.to_nat UNET_MAX_EVENTS) null_event) 0 0 0 0 [] [].
