(* ===== verification/Unet.v ===== *)
(** * The network layer

    [src/shioncoin/unet/]: binding services, accepting, connecting and closing
    sockets, the deferred peer events, and the main I/O cycle.  Built with
    threads ([USE_LIBPTHREAD]); log messages are left out. *)

From S2P Require Import Prelude Errors Shbuf Descriptor PeerDb Net.

Section unet.
Context `{Net}.

(** ** unet_event.c *)

(** The loop of [uevent_new]: the first free slot behind [event_idx]. *)
Fixpoint find_slot (n : nat) (off event_idx : Z) (tab : list uevent_t) : option Z :=
  match n with
  | O => None
  | S n =>
     let idx := u32 (event_idx + off) mod UNET_MAX_EVENTS in
     match tab !! Z.to_nat idx with
     | Some e => if e_type e =? 0 then Some idx else find_slot n (off + 1) event_idx tab
     | None => None
     end
  end.

Definition uevent_new (umode type : Z) (data : option shpeer) : U (option Z) :=
  if type =? 0 then mret None
  else
    u ← uget;
    match find_slot (Z.to_nat UNET_MAX_EVENTS) 1 (u_new_idx u) (u_events u) with
    | None => mret None
    | Some idx =>
       _ ← umod (set_new_idx idx);
       _ ← umod (λ u, match u_events u !! Z.to_nat idx with
         | None => u
         | Some e => set_events (<[Z.to_nat idx := Uevent umode (e_flag e) type (e_fd e) data]> (u_events u)) u
         end);
       mret (Some idx)
    end.
Definition create_uevent_verify_peer (umode : Z) (peer : shpeer) : U (option Z) :=
  uevent_new umode UEVENT_PEER_VERIFY (Some peer).
Definition create_uevent_connect_peer (umode : Z) (peer : shpeer) : U (option Z) :=
  uevent_new umode UEVENT_PEER_CONN (Some peer).

(** Index [UNET_MAX_EVENTS] passes the test and lies behind the table. *)
Definition uevent_clear_pos (idx : Z) : U unit :=
  if (idx <? 0) || (UNET_MAX_EVENTS <? idx) then mret tt
  else if idx =? UNET_MAX_EVENTS then ufault
  else umod (λ u, set_events (<[Z.to_nat idx := null_event]> (u_events u)) u).

(** [uevent_clear]: [e] is the address of slot [pos], if it is one. *)
Definition uevent_clear (pos : option Z) : U unit :=
  match pos with
  | Some idx => if (0 <=? idx) && (idx <? UNET_MAX_EVENTS) then uevent_clear_pos idx else mret tt
  | None => mret tt
  end.

(** The event at a position, and stores to its fields. *)
Definition event_at (idx : Z) : U uevent_t := λ u,
  match u_events u !! Z.to_nat idx with None => None | Some e => Some (e, u) end.
Definition event_put (idx : Z) (e : uevent_t) : U unit :=
  umod (λ u, set_events (<[Z.to_nat idx := e]> (u_events u)) u).
Definition event_set_fd (idx fd : Z) : U unit :=
  e ← event_at idx; event_put idx (Uevent (e_mode e) (e_flag e) (e_type e) fd (e_data e)).
Definition event_drop_data (idx : Z) : U unit :=
  e ← event_at idx; event_put idx (Uevent (e_mode e) (e_flag e) (e_type e) (e_fd e) None).

Definition bind_freq (mode : Z) (f : n_freq → n_freq) : U unit :=
  b ← bind_at mode;
  bind_put mode (UBind _ (b_fd b) (b_flag b) (b_port b) (f (b_scan_freq b)) (b_timer_stamp b) (b_scan_stamp b)
    (b_peer_db b) (b_fl_timer b) (b_op_timer b) (b_op_accept b) (b_op_close b)).
Definition bind_scan_stamp (mode stamp : Z) : U unit :=
  b ← bind_at mode;
  bind_put mode (UBind _ (b_fd b) (b_flag b) (b_port b) (b_scan_freq b) (b_timer_stamp b) stamp
    (b_peer_db b) (b_fl_timer b) (b_op_timer b) (b_op_accept b) (b_op_close b)).

Definition uevent_peer_verify (idx : Z) : U Z :=
  e ← event_at idx;
  _ ← shtime;
  match e_data e with
  | None => mret 0
  | Some peer =>
     ob ← unet_bind_table (e_mode e);
     match ob with
     | None => mret 0
     | Some bind =>
        r ← ask (λ h, (n_int h (AVerify peer (e_fd e)), n_verify_fd h)) (AVerify peer (e_fd e));
        let '(err, fd) := r in
        _ ← event_set_fd idx fd;
        if err =? 0 then
          _ ← net_peer_incr (e_mode e) peer;
          _ ← bind_freq (e_mode e) n_freq_up;
          _ ← create_uevent_connect_peer (e_mode e) peer;
          _ ← event_drop_data idx;
          _ ← act (AClose fd);
          _ ← event_set_fd idx 0;
          mret 0
        else if negb (err =? ERR_INPROGRESS) then
          _ ← net_peer_decr (e_mode e) peer;
          _ ← bind_freq (e_mode e) n_freq_down;
          _ ← event_set_fd idx 0;
          mret 0
        else
          now ← shtime;
          if n_time_after now (b_scan_stamp bind) 3000 then
            _ ← net_peer_decr (e_mode e) peer;
            _ ← bind_freq (e_mode e) n_freq_down;
            _ ← (if fd =? 0 then mret tt else _ ← act (AClose fd); event_set_fd idx 0);
            mret 0
          else mret ERR_AGAIN
     end
  end.

(** [unet_peer_find] of unet_peerdb.c: a connected service socket with the same
    printed address, or 0. *)
Fixpoint peer_find_loop (l : list Z) (mode : Z) (peer_ip : string) : U Z :=
  match l with
  | [] => mret 0
  | sk :: l =>
     t ← get_unet_table sk;
     match t with
     | None => peer_find_loop l mode peer_ip
     | Some d =>
        if negb (d_mode d =? mode) then peer_find_loop l mode peer_ip
        else if negb (has_flag (d_flag d) DF_SERVICE) then peer_find_loop l mode peer_ip
        else
          addr ← ask (λ h, n_addr h sk) (APeername sk);
          if String.eqb peer_ip (n_netaddr_str addr) then mret sk
          else peer_find_loop l mode peer_ip
     end
  end.
Definition all_fds : list Z := seqZ 1 (n_max_fd - 1).
Definition unet_peer_find (mode : Z) (addr : sockaddr) : U Z :=
  peer_find_loop all_fds mode (n_netaddr_str addr).

(** The label [fin]: the event's peer is released. *)
Definition verify_fin (idx : Z) : U Z :=
  e ← event_at idx;
  _ ← (match e_data e with Some peer => act (APeerFree peer) | None => mret tt end);
  mret 0.

Definition uevent_cycle_peer_verify (idx : Z) : U Z :=
  e ← event_at idx;
  match e_data e with
  | None => mret 0
  | Some peer =>
     if negb (e_fd e =? 0) then
       err ← uevent_peer_verify idx;
       if negb (err =? 0) then mret err else verify_fin idx
     else
       ob ← unet_bind_table (e_mode e);
       match ob with
       | None => verify_fin idx
       | Some bind =>
          if negb (has_flag (b_flag bind) DF_PEER_SCAN) then verify_fin idx
          else
            now ← shtime;
            if n_peer_wait (b_scan_freq bind) (b_scan_stamp bind) now then mret ERR_AGAIN
            else
              now ← shtime;
              _ ← bind_scan_stamp (e_mode e) now;
              sk ← unet_peer_find (e_mode e) (n_shpeer_addr peer);
              if negb (sk =? 0) then
                _ ← net_peer_incr (e_mode e) peer;
                verify_fin idx
              else
                err ← uevent_peer_verify idx;
                if negb (err =? 0) then mret err else verify_fin idx
       end
  end.

(** ** unet.c, unet_connect.c *)
Definition unet_add (mode sk : Z) : U Z :=
  t ← desc_claim sk mode DF_SERVICE;
  match t with
  | None => mret ERR_IO
  | Some _ => _ ← act (ANonblock sk); mret 0
  end.

Definition call_accept (mode fd : Z) (addr : sockaddr) : U unit :=
  _ ← act (ACallAccept mode fd addr); umod (n_cb_accept mode fd addr).
Definition call_close (mode fd : Z) (addr : sockaddr) : U unit :=
  _ ← act (ACallClose mode fd addr); umod (n_cb_close mode fd addr).

(** The result and the socket.  [cli_fd] is unsigned, so the failure of
    [shnet_sk] is caught by the test against the maximum. *)
Definition unet_connect (mode : Z) (net_addr : sockaddr) : U (Z * option Z) :=
  r ← sysint ASocket;
  let cli_fd := u32 r in
  if n_max_fd <=? cli_fd then _ ← act (AClose (i32 cli_fd)); mret (ERR_AGAIN, None)
  else
    _ ← act (ANonblock cli_fd);
    err ← sysint (AConnect cli_fd net_addr);
    err ← (if err =? ERR_INPROGRESS then
             n ← sysint (AConnectWait cli_fd);
             if 0 <? n then mret 0
             else if n =? 0 then mret ERR_TIMEDOUT
             else errno ← sysint AErrno; mret (- errno)
           else mret err);
    if negb (err =? 0) then _ ← act (AClose cli_fd); mret (err, None)
    else
      _ ← unet_add mode cli_fd;
      ob ← unet_bind_table mode;
      match ob with
      | None => ufault
      | Some bind =>
         _ ← (if b_op_accept bind then call_accept mode cli_fd net_addr else mret tt);
         bind ← bind_at mode;
         _ ← (if has_flag (b_flag bind) DF_PEER_SCAN then net_peer_incr mode (n_shpeer_init mode net_addr) else mret tt);
         mret (0, Some cli_fd)
      end.

Definition uevent_cycle_peer_conn (idx : Z) : U Z :=
  e ← event_at idx;
  match e_data e with
  | None => mret 0
  | Some peer =>
     sk ← unet_peer_find (e_mode e) (n_shpeer_addr peer);
     _ ← (if sk =? 0 then _ ← unet_connect (e_mode e) (n_shpeer_addr peer); mret tt else mret tt);
     _ ← act (APeerFree peer);
     mret 0
  end.

(** The loop of [uevent_cycle]; [false] when [fuel] turns were not enough. *)
Fixpoint cycle_loop (fuel : nat) (start e_max : Z) : U bool :=
  match fuel with
  | O => mret false
  | S fuel =>
     u ← uget;
     let event_idx := u_cur_idx u in
     if event_idx =? e_max then mret true
     else
       let next := _ ← umod (set_cur_idx ((event_idx + 1) mod UNET_MAX_EVENTS)); cycle_loop fuel start e_max in
       e ← event_at event_idx;
       if e_type e =? 0 then next
       else
         err ← (if e_type e =? UEVENT_PEER_VERIFY then uevent_cycle_peer_verify event_idx
                else if e_type e =? UEVENT_PEER_CONN then uevent_cycle_peer_conn event_idx
                else mret 0);
         _ ← (if err =? 0 then uevent_clear_pos event_idx else mret tt);
         now ← shtime;
         if n_time_after now start 200 then mret true else next
  end.
Definition cycle_end (event_idx : Z) : Z := u32 (event_idx - 1) mod UNET_MAX_EVENTS.
Definition uevent_cycle : U bool :=
  start ← shtime;
  u ← uget;
  cycle_loop (S (Z.to_nat UNET_MAX_EVENTS)) start (cycle_end (u_cur_idx u)).

Definition uevent_type_count (type : Z) (u : net_st) : Z :=
  zlen (filter (λ e, e_type e = type) (u_events u)).

(** ** unet_close.c *)

(** [None]: the result variable is returned unset. *)
Definition unet_close (sk : Z) : U (option Z) :=
  t ← get_unet_table sk;
  match t with
  | None => mret (Some ERR_INVAL)
  | Some table =>
     ob ← unet_bind_table (d_mode table);
     _ ← (match ob with
          | Some bind => if b_op_close bind then call_close (d_mode table) sk (d_net_addr table) else mret tt
          | None => mret tt
          end);
     _ ← shtime;
     _ ← desc_release sk;
     mret None
  end.

Definition close_mode (mode sk : Z) : U unit :=
  t ← get_unet_table sk;
  match t with
  | None => mret tt
  | Some d =>
     if negb (d_mode d =? mode) then mret tt
     else if negb (has_flag (d_flag d) DF_SERVICE) then mret tt
     else _ ← unet_close sk; mret tt
  end.
Definition unet_close_all (mode : Z) : U Z := _ ← for_each all_fds (close_mode mode); mret 0.

(** Whether [unet_close_idle] closes a slot at time [now]. *)
Definition idle_desc (now : Z) (d : desc_t) : bool :=
  has_flag (d_flag d) DF_SOCK && negb (has_flag (d_flag d) DF_LISTEN) &&
  (((d_stamp d =? SHTIME_UNDEFINED) && n_time_before (d_cstamp d) (1000 * MAX_CONNECT_IDLE_TIME) now)
   || (((d_mode d =? UNET_STRATUM) || (d_mode d =? UNET_SHAPI)) &&
       negb (d_stamp d =? SHTIME_UNDEFINED) && n_time_before (d_stamp d) (1000 * MAX_IDLE_TIME) now)
   || (MAX_SOCKET_BUFFER_SIZE <? shbuf_size (d_wbuff d))
   || (MAX_SOCKET_BUFFER_SIZE <? shbuf_size (d_rbuff d))).
Definition close_if_idle (now sk : Z) : U unit :=
  t ← get_unet_table sk;
  match t with
  | None => mret tt
  | Some d => if idle_desc now d then _ ← unet_close sk; mret tt else mret tt
  end.
Definition unet_close_idle : U unit := now ← shtime; for_each all_fds (close_if_idle now).

(** ** unet_accept.c *)
Definition unet_local_verify (ipaddr : string) (u : net_st) : bool := bool_decide (ipaddr ∈ u_local u).
Definition unet_local_verify_fd (fd : Z) : U bool :=
  addr ← ask (λ h, n_addr h fd) (APeername fd);
  u ← uget;
  mret (unet_local_verify (n_hostname_str addr) u).

Definition refuse (cli_fd err : Z) : U (Z * option Z) := _ ← act (AClose cli_fd); mret (err, None).

(** From the claim on: [esl] is whether the listening socket is an ESL one. *)
Definition accept_new (mode cli_fd : Z) (esl : bool) : U (Z * option Z) :=
  _ ← unet_add mode cli_fd;
  t ← get_unet_table cli_fd;
  _ ← (match t with
       | Some d =>
          _ ← desc_put cli_fd (with_flag d DF_INBOUND);
          if esl then desc_put cli_fd (with_flag (with_flag d DF_INBOUND) DF_ESL) else mret tt
       | None => mret tt
       end);
  bind ← bind_at mode;
  _ ← (if b_op_accept bind then
         addr ← ask (λ h, n_addr h cli_fd) (APeername cli_fd);
         call_accept mode cli_fd addr
       else mret tt);
  mret (0, Some cli_fd).

Definition unet_accept (mode : Z) : U (Z * option Z) :=
  ob ← unet_bind_table mode;
  match ob with
  | None => mret (ERR_INVAL, None)
  | Some bind =>
     if b_fd bind =? UNDEFINED_SOCKET then mret (ERR_BADF, None)
     else
       d ← get_unet_table (b_fd bind);
       let esl := match d with Some d => has_flag (d_flag d) DF_ESL | None => false end in
       cli_fd ← (if esl then
                   r ← sysint (AAcceptEsl (b_fd bind));
                   mret (if r =? ERR_AGAIN then 0 else r)
                 else sysint (AAccept (b_fd bind)));
       if cli_fd =? 0 then mret (ERR_AGAIN, None)
       else if cli_fd <? 0 then mret (cli_fd, None)
       else if n_max_fd <=? cli_fd then refuse cli_fd ERR_AGAIN
       else if mode <? MAX_UNET_COIN_MODES then
         addr ← ask (λ h, n_addr h cli_fd) (APeername cli_fd);
         sk ← unet_peer_find mode addr;
         if negb (sk =? 0) then refuse cli_fd ERR_NOTUNIQ
         else
           b ← unet_local_verify_fd cli_fd;
           if b : bool then refuse cli_fd ERR_NOTUNIQ else accept_new mode cli_fd esl
       else accept_new mode cli_fd esl
  end.

(** ** unet_io.c, unet.c *)
Definition unet_write (sk : Z) (data : list byte) : U Z :=
  if zlen data =? 0 then mret 0
  else
    t ← get_unet_table sk;
    match t with
    | None => mret ERR_BADF
    | Some d =>
       if negb (has_flag (d_flag d) DF_SERVICE) then mret ERR_BADF
       else _ ← desc_lift (descriptor_wbuff_add n_max_fd sk data); mret 0
    end.

Definition unet_mode (sk : Z) : U Z :=
  t ← get_unet_table sk; mret (match t with Some d => d_mode d | None => UNET_NONE end).

Definition unet_shutdown (sk : Z) : U unit :=
  t ← get_unet_table sk;
  match t with Some d => desc_put sk (with_flag d DF_SHUTDOWN) | None => mret tt end.
End unet.
