(* ===== verification/UnetCycle.v ===== *)
(** * Services and the I/O cycle

    unet_bind.c, unet_timer.c, unet_thread.c (starting and joining the timer
    thread), the peer scans of unet_peerdb.c, and [unet_cycle] of unet.c. *)

From S2P Require Import Prelude Errors Shbuf Descriptor PeerDb Net Unet.

Definition MAX_UNET_PEER_SCAN_SIZE : Z := 64.
Definition INIT_UNET_PEER_SCAN_SIZE : Z := 8.

Section cycle.
Context `{Net}.

(** ** unet_thread.c *)
Definition bind_timer (b : bind_t) (fl : Z) : bind_t :=
  UBind _ (b_fd b) (b_flag b) (b_port b) (b_scan_freq b) (b_timer_stamp b) (b_scan_stamp b)
    (b_peer_db b) fl (b_op_timer b) (b_op_accept b) (b_op_close b).

Definition unet_thread_init (mode : Z) : U unit :=
  ob ← unet_bind_table mode;
  match ob with
  | None => mret tt
  | Some b =>
     if has_flag (b_fl_timer b) UTHREAD_IDLE then mret tt
     else
       _ ← bind_put mode (bind_timer b (Z.lor (Z.lor (b_fl_timer b) UTHREAD_IDLE) UTHREAD_TIMER));
       act (AThreadStart mode)
  end.
Definition unet_thread_free (mode : Z) : U unit :=
  ob ← unet_bind_table mode;
  match ob with
  | None => mret tt
  | Some b =>
     if negb (has_flag (b_fl_timer b) UTHREAD_IDLE) then mret tt
     else _ ← bind_put mode (bind_timer b 0); act (AThreadJoin mode)
  end.

(** ** unet_bind.c *)

(** The common end of [unet_bind] and [unet_bind_esl]. *)
Definition bound (mode port sk flag : Z) : U Z :=
  now ← shtime;
  b ← bind_at mode;
  _ ← bind_put mode (UBind _ sk (b_flag b) port n_freq_init (b_timer_stamp b) now
    (b_peer_db b) (b_fl_timer b) (b_op_timer b) (b_op_accept b) (b_op_close b));
  _ ← desc_claim sk mode flag;
  _ ← unet_thread_init mode;
  mret 0.

Definition unet_bind (mode port : Z) : U Z :=
  b ← bind_at mode;
  if negb (b_fd b =? UNDEFINED_SOCKET) then mret 0
  else
    sk ← sysint ASocket;
    if sk =? -1 then errno ← sysint AErrno; mret (- errno)
    else
      err ← sysint (ABindSk sk port);
      if negb (err =? 0) then mret err else bound mode port sk DF_LISTEN.

Definition unet_bind_esl (mode port : Z) : U Z :=
  b ← bind_at mode;
  if negb (b_fd b =? UNDEFINED_SOCKET) then mret 0
  else
    sk ← sysint (ABindEsl port);
    if sk <? 0 then mret sk
    else _ ← act (ANonblock sk); bound mode port sk (Z.lor DF_LISTEN DF_ESL).

Definition bind_ops (b : bind_t) (timer acc cls : bool) : bind_t :=
  UBind _ (b_fd b) (b_flag b) (b_port b) (b_scan_freq b) (b_timer_stamp b) (b_scan_stamp b)
    (b_peer_db b) (b_fl_timer b) timer acc cls.
Definition unet_connop_set (mode : Z) (op : bool) : U unit :=
  if bad_mode mode then mret tt
  else b ← bind_at mode; bind_put mode (bind_ops b (b_op_timer b) op (b_op_close b)).
Definition unet_disconnop_set (mode : Z) (op : bool) : U unit :=
  if bad_mode mode then mret tt
  else b ← bind_at mode; bind_put mode (bind_ops b (b_op_timer b) (b_op_accept b) op).

(** The result variable is returned unset unless the service is not bound. *)
Definition unet_unbind (mode : Z) : U (option Z) :=
  b ← bind_at mode;
  if b_fd b =? UNDEFINED_SOCKET then mret (Some ERR_INVAL)
  else
    _ ← unet_thread_free mode;
    _ ← unet_close_all mode;
    b ← bind_at mode;
    _ ← desc_release (b_fd b);
    _ ← (if b_peer_db b then act (ADbClose mode) else mret tt);
    b ← bind_at mode;
    _ ← bind_put mode (UBind _ UNDEFINED_SOCKET (b_flag b) (b_port b) (b_scan_freq b) (b_timer_stamp b)
      (b_scan_stamp b) false (b_fl_timer b) (b_op_timer b) (b_op_accept b) (b_op_close b));
    mret None.

(** ** Peer scans (unet_peerdb.c) *)

Definition scan_mode (mode : Z) : U unit :=
  ob ← unet_bind_table mode;
  match ob with
  | None => mret tt
  | Some b =>
     if negb (has_flag (b_flag b) DF_PEER_SCAN) then mret tt
     else
       now ← shtime;
       if n_peer_wait (b_scan_freq b) (b_scan_stamp b) now then mret tt
       else
         ok ← peer_db_open mode;
         if negb ok then mret tt
         else
         r ← ask (λ h, n_peer_scan h mode) (APeerScan mode);
         match r with
         | None => mret tt
         | Some peers =>
            for_each (take (Z.to_nat MAX_UNET_PEER_SCAN_SIZE) peers)
              (λ peer, _ ← create_uevent_verify_peer mode peer; mret tt)
         end
  end.
Definition unet_peer_scan : U unit := for_each (seqZ 0 MAX_UNET_MODES) scan_mode.

Definition unet_peer_fill_seed (mode : Z) : U unit :=
  ob ← unet_bind_table mode;
  match ob with
  | None => mret tt
  | Some b => for_each (n_seeds mode (b_port b)) (λ peer, _ ← create_uevent_verify_peer mode peer; mret tt)
  end.

Definition unet_peer_fill (mode : Z) : U unit :=
  ob ← unet_bind_table mode;
  match ob with
  | None => mret tt
  | Some _ =>
     ok ← peer_db_open mode;
     r ← (if ok : bool then ask (λ h, n_peer_list h mode) (APeerList mode) else mret None);
     let peers := take (Z.to_nat INIT_UNET_PEER_SCAN_SIZE) (default [] r) in
     _ ← for_each peers (λ peer, _ ← create_uevent_connect_peer mode peer; mret tt);
     if (zlen peers =? 0) && n_opt_seed then unet_peer_fill_seed mode else mret tt
  end.

Definition unet_bind_flag_set (mode flags : Z) : U unit :=
  if bad_mode mode then mret tt
  else
    b ← bind_at mode;
    _ ← bind_put mode (UBind _ (b_fd b) (Z.lor (b_flag b) flags) (b_port b) (b_scan_freq b) (b_timer_stamp b)
      (b_scan_stamp b) (b_peer_db b) (b_fl_timer b) (b_op_timer b) (b_op_accept b) (b_op_close b));
    if has_flag flags DF_PEER_SCAN then
      ok ← peer_db_open mode;
      _ ← (if ok : bool then act (APeerPrune mode) else mret tt);
      unet_peer_fill mode
    else mret tt.
Definition unet_bind_flag_unset (mode flags : Z) : U unit :=
  if bad_mode mode then mret tt
  else
    b ← bind_at mode;
    bind_put mode (UBind _ (b_fd b) (Z.land (b_flag b) (Z.lnot flags)) (b_port b) (b_scan_freq b)
      (b_timer_stamp b) (b_scan_stamp b) (b_peer_db b) (b_fl_timer b) (b_op_timer b) (b_op_accept b)
      (b_op_close b)).

(** ** unet_timer.c *)
Definition bind_stamp (b : bind_t) (stamp : Z) (timer : bool) : bind_t :=
  UBind _ (b_fd b) (b_flag b) (b_port b) (b_scan_freq b) stamp (b_scan_stamp b)
    (b_peer_db b) (b_fl_timer b) timer (b_op_accept b) (b_op_close b).
Definition unet_timer_set (mode : Z) (op : bool) : U Z :=
  ob ← unet_bind_table mode;
  match ob with
  | None => mret ERR_INVAL
  | Some b =>
     _ ← (if b_peer_db b then act (ADbIdle mode) else mret tt);
     now ← shtime;
     _ ← bind_put mode (bind_stamp b now op);
     mret 0
  end.
Definition unet_timer_unset (mode : Z) : U unit :=
  ob ← unet_bind_table mode;
  match ob with None => mret tt | Some b => bind_put mode (bind_stamp b 0 false) end.

(** The stamp is taken from a local variable that is never set. *)
Definition unet_timer_cycle_mode (mode : Z) : U unit :=
  ob ← unet_bind_table mode;
  match ob with
  | None => mret tt
  | Some b =>
     if negb (b_op_timer b) then mret tt
     else
       u ← uget;
       _ ← bind_put mode (bind_stamp b (n_junk (u_hist u)) (b_op_timer b));
       _ ← act (ACallTimer mode);
       umod (n_cb_timer mode)
  end.
Definition unet_timer_cycle : U unit := for_each (seqZ 0 MAX_UNET_MODES) unet_timer_cycle_mode.

(** ** unet_cycle *)

(** The descriptors an [fd_set] holds: [FD_SET] of a larger one writes behind
    the set, which is on the stack. *)
Definition FD_SETSIZE : Z := 1024.

(** The first loop: close what is marked for closure and drained, and collect
    the sockets to wait for (all, and those with output). *)
Fixpoint mark_loop (l : list Z) (r w : list Z) : U (list Z * list Z) :=
  match l with
  | [] => mret (r, w)
  | fd :: l =>
     t ← get_unet_table fd;
     match t with
     | None => mark_loop l r w
     | Some d =>
        if has_flag (d_flag d) DF_SOCK && has_flag (d_flag d) DF_SHUTDOWN && (shbuf_size (d_wbuff d) =? 0)
        then _ ← unet_close fd; mark_loop l r w
        else if negb (has_flag (d_flag d) DF_SERVICE) then mark_loop l r w
        else if FD_SETSIZE <=? fd then ufault
        else mark_loop l (r ++ [fd]) (if shbuf_size (d_wbuff d) =? 0 then w else w ++ [fd])
     end
  end.

(** Input: [false] when the socket was closed. *)
Definition io_read (fd : Z) (readable : bool) : U bool :=
  if negb readable then mret true
  else
    r ← ask (λ h, n_read h fd) (ARead fd);
    match r with
    | inl err => if negb (err =? ERR_AGAIN) then _ ← unet_close fd; mret false else mret true
    | inr [] => mret true
    | inr bs => _ ← desc_lift (descriptor_rbuff_add n_max_fd fd bs); _ ← desc_mark fd; mret true
    end.

(** Output: as much of the write queue as the socket takes. *)
Definition io_write (fd : Z) : U unit :=
  u ← uget;
  if fd <? 0 then ufault else
  let t := dt_slot (dt_alloc (u_desc u)) fd in
  match d_wbuff t with
  | None => mret tt
  | Some wb =>
     if shbuf_size (Some wb) =? 0 then mret tt
     else
       w_len ← sysint (AWrite fd (default [] (data wb)));
       if w_len <? 0 then
         if negb (w_len =? ERR_AGAIN) then _ ← unet_close fd; mret tt else mret tt
       else if 0 <? w_len then
         _ ← desc_put fd (with_wbuff t (shbuf_trim wb w_len));
         desc_mark fd
       else mret tt
  end.

Definition io_fd (r_set x_set : Z → bool) (fd : Z) : U unit :=
  t ← get_unet_table fd;
  match t with
  | None => mret tt
  | Some _ =>
     if x_set fd then _ ← unet_close fd; mret tt
     else
       go ← io_read fd (r_set fd);
       if go : bool then io_write fd else mret tt
  end.

Definition accept_mode (mode : Z) : U unit :=
  ob ← unet_bind_table mode;
  match ob with
  | None => mret tt
  | Some b => if b_fd b =? UNDEFINED_SOCKET then mret tt else _ ← unet_accept mode; mret tt
  end.

(** Every fourth call runs the events, and at most every 15 seconds the scan for
    peers and the idle sockets. *)
Definition unet_events : U unit :=
  u ← uget;
  let index := i32 (u_cycle u + 1) in
  _ ← umod (set_cycle index);
  if negb (Z.rem index 4 =? 0) then mret tt
  else
    _ ← uevent_cycle;
    now ← clock;
    u ← uget;
    if u_next_t u <? now then
      _ ← (if uevent_type_count UEVENT_PEER_VERIFY u =? 0 then unet_peer_scan else mret tt);
      _ ← unet_close_idle;
      umod (set_next_t (i32 (now + 15)))
    else mret tt.

Definition unet_io : U unit :=
  sets ← mark_loop all_fds [] [];
  let '(r, w) := sets in
  let fd_max := foldr Z.max 0 r in
  sel ← ask n_select (ASelect r w);
  let '(n, readable, failed) := sel in
  if 0 <? n then
    for_each (seqZ 1 fd_max)
      (io_fd (λ fd, bool_decide (fd ∈ r) && readable fd) (λ fd, bool_decide (fd ∈ r) && failed fd))
  else mret tt.

Definition unet_cycle : U unit :=
  _ ← unet_events;
  _ ← unet_io;
  for_each (seqZ 1 (MAX_UNET_MODES - 1)) accept_mode.
End cycle.
