(* ===== verification/UnetInv.v ===== *)
(** * Invariant of the network layer

    No operation faults, and the tables keep their shape: [safe m P] says that
    [m], started in any state that satisfies the invariant, does not fault,
    ends in such a state with the event cursor where it was, and returns a
    value in [P].  One lemma per operation, found through the hint base. *)

From S2P Require Import Prelude Errors Shbuf Descriptor PeerDb Net Unet UnetCycle.

Create HintDb net.

Definition uwp `{Net} {A} (m : U A) (u : net_st) (Q : A → net_st → Prop) : Prop :=
  match m u with None => False | Some (a, u') => Q a u' end.

Section rules.
Context `{Net}.

Lemma uwp_mono {A} (m : U A) u (Q R : A → net_st → Prop) :
  uwp m u Q → (∀ a u', Q a u' → R a u') → uwp m u R.
Proof. unfold uwp. destruct (m u) as [[a u']|]; auto. Qed.
Lemma uwp_bind {A B} (m : U A) (k : A → U B) u Q :
  uwp m u (λ a u', uwp (k a) u' Q) → uwp (m ≫= k) u Q.
Proof. unfold uwp, mbind, U_bind. by destruct (m u) as [[a u']|]. Qed.
Lemma uwp_ret {A} (a : A) u (Q : A → net_st → Prop) : Q a u → uwp (mret a) u Q.
Proof. done. Qed.
Lemma uwp_umod f u (Q : unit → net_st → Prop) : Q tt (f u) → uwp (umod f) u Q.
Proof. done. Qed.
Lemma uwp_ask {A} (f : history → A) a u (Q : A → net_st → Prop) :
  Q (f (u_hist u)) (log_act a u) → uwp (ask f a) u Q.
Proof. done. Qed.
Lemma uwp_get u (Q : net_st → net_st → Prop) : Q u u → uwp uget u Q.
Proof. done. Qed.

(** ** The invariant *)
Record net_inv (u : net_st) : Prop := {
  ni_bind : length (u_bind u) = 32%nat;
  ni_events : length (u_events u) = Z.to_nat UNET_MAX_EVENTS;
  ni_modes : Forall (λ e, bad_mode (e_mode e) = false) (u_events u);
  ni_cur : 0 ≤ u_cur_idx u < UNET_MAX_EVENTS;
  ni_new : 0 ≤ u_new_idx u < UNET_MAX_EVENTS;
  ni_table : is_Some (dt_table (u_desc u));
  ni_fds : Forall (λ b, 0 ≤ b_fd b) (u_bind u);
}.

Definition safe {A} (m : U A) (P : A → Prop) : Prop :=
  ∀ u, net_inv u → uwp m u (λ a u', net_inv u' ∧ u_cur_idx u' = u_cur_idx u ∧ P a).

(** The services' callbacks keep the invariant. *)
Class CallbacksSafe : Prop := {
  cb_accept_safe mode fd addr : safe (umod (n_cb_accept mode fd addr)) (λ _, True);
  cb_close_safe mode fd addr : safe (umod (n_cb_close mode fd addr)) (λ _, True);
  cb_timer_safe mode : safe (umod (n_cb_timer mode)) (λ _, True);
}.

Lemma safe_mono {A} (m : U A) (P Q : A → Prop) : safe m P → (∀ a, P a → Q a) → safe m Q.
Proof.
  intros Hm HPQ u Hu. eapply uwp_mono; [by apply Hm|]. intros a u' (? & ? & ?). auto.
Qed.
Lemma safe_ret {A} (a : A) (P : A → Prop) : P a → safe (mret a) P.
Proof. intros ? u ?. by apply uwp_ret. Qed.
Lemma safe_bind {A B} (m : U A) (k : A → U B) P Q :
  safe m P → (∀ a, P a → safe (k a) Q) → safe (m ≫= k) Q.
Proof.
  intros Hm Hk u Hu. apply uwp_bind. eapply uwp_mono; [by apply Hm|]. intros a u1 (Hu1 & Hc1 & HP).
  eapply uwp_mono; [by apply Hk|]. intros b u2 (Hu2 & Hc2 & HQ). split; [done|]. split; [congruence|done].
Qed.
Lemma safe_seq {A B} (m : U A) (k : A → U B) Q :
  safe m (λ _, True) → (∀ a, safe (k a) Q) → safe (m ≫= k) Q.
Proof. intros Hm Hk. eapply safe_bind; [done|]. auto. Qed.
Lemma safe_true {A} (m : U A) (P : A → Prop) : safe m P → safe m (λ _, True).
Proof. intros Hm. by eapply safe_mono. Qed.

Lemma net_inv_log a u : net_inv u → net_inv (log_act a u).
Proof. by intros []. Qed.
Lemma safe_ask {A} (f : history → A) a : safe (ask f a) (λ _, True).
Proof. intros u Hu. apply uwp_ask. split; [by apply net_inv_log|done]. Qed.
Lemma safe_act a : safe (act a) (λ _, True).
Proof. intros u Hu. apply uwp_umod. split; [by apply net_inv_log|done]. Qed.
Lemma safe_get : safe uget net_inv.
Proof. intros u Hu. by apply uwp_get. Qed.
Lemma safe_sysint a : safe (sysint a) (λ _, True).
Proof. apply safe_ask. Qed.
Lemma safe_shtime : safe shtime (λ _, True).
Proof. apply safe_sysint. Qed.
Lemma safe_clock : safe clock (λ _, True).
Proof. apply safe_sysint. Qed.

Lemma safe_for_each {A} (l : list A) f :
  (∀ x, x ∈ l → safe (f x) (λ _, True)) → safe (for_each l f) (λ _, True).
Proof.
  induction l as [|x l IH]; intros Hf; cbn [for_each]; [by apply safe_ret|].
  apply safe_seq; [apply Hf; by left|]. intros _. apply IH. intros y Hy. apply Hf. by right.
Qed.

Lemma safe_set_desc (f : net_st → dtab) :
  (∀ u, net_inv u → is_Some (dt_table (f u))) → safe (umod (λ u, set_desc (f u) u)) (λ _, True).
Proof.
  intros Hf u Hu. apply uwp_umod. split; [|done]. pose proof (Hf u Hu). by destruct Hu.
Qed.

(** ** Descriptors *)
Lemma safe_get_unet_table sk : 0 ≤ sk → safe (get_unet_table sk) (λ _, True).
Proof.
  intros Hsk u Hu. unfold uwp, get_unet_table, descriptor_get. destruct (ni_table _ Hu) as [t ->].
  rewrite (proj2 (Z.ltb_ge sk 0) Hsk). by destruct (n_max_fd <=? sk).
Qed.
Lemma safe_desc_put fd d : 0 ≤ fd → safe (desc_put fd d) (λ _, True).
Proof. intros Hfd. unfold desc_put. rewrite (proj2 (Z.ltb_ge fd 0) Hfd). apply safe_set_desc. intros u Hu. simpl. done. Qed.

Lemma claim_table max now k fd mode flag dt : 0 ≤ fd → is_Some (dt_table dt) →
  ∃ d dt', descriptor_claim max now k fd mode flag dt = Some (d, dt') ∧ is_Some (dt_table dt').
Proof.
  intros Hfd Ht. unfold descriptor_claim. destruct (max <=? fd); [by eexists _, _|]. rewrite (proj2 (Z.ltb_ge fd 0) Hfd).
  destruct (if d_flag _ =? 0 then _ else _). by eexists _, _.
Qed.
Lemma release_table max k fd dt : 0 ≤ fd → is_Some (dt_table dt) →
  ∃ dt' closed, descriptor_release max k fd dt = Some (dt', closed) ∧ is_Some (dt_table dt').
Proof.
  intros Hfd Ht. unfold descriptor_release. destruct (max <=? fd); [by eexists _, _|]. rewrite (proj2 (Z.ltb_ge fd 0) Hfd). by eexists _, _.
Qed.
Lemma mark_table max now fd dt : 0 ≤ fd → is_Some (dt_table dt) →
  ∃ d dt', descriptor_mark max now fd dt = Some (d, dt') ∧ is_Some (dt_table dt').
Proof.
  intros Hfd Ht. unfold descriptor_mark. destruct (max <=? fd); [by eexists _, _|]. rewrite (proj2 (Z.ltb_ge fd 0) Hfd).
  cbv zeta. destruct (d_flag _ =? 0); by eexists _, _.
Qed.

Lemma safe_desc_claim fd mode flag : 0 ≤ fd → safe (desc_claim fd mode flag) (λ _, True).
Proof.
  intros Hfd. unfold desc_claim. destruct (n_max_fd <=? fd); [by apply safe_ret|].
  apply safe_seq; [apply safe_ask|]. intros kind. apply safe_seq; [apply safe_shtime|]. intros now.
  eapply safe_bind; [apply safe_get|]. intros u Hu.
  destruct (claim_table n_max_fd now kind fd mode flag _ Hfd (ni_table _ Hu)) as (d & dt & -> & Ht).
  apply safe_seq; [by apply (safe_set_desc (λ _, dt))|]. intros _. by apply safe_ret.
Qed.
Lemma safe_desc_release fd : 0 ≤ fd → safe (desc_release fd) (λ _, True).
Proof.
  intros Hfd. unfold desc_release. destruct (n_max_fd <=? fd); [by apply safe_ret|].
  apply safe_seq; [apply safe_ask|]. intros kind. eapply safe_bind; [apply safe_get|]. intros u Hu.
  destruct (release_table n_max_fd kind fd _ Hfd (ni_table _ Hu)) as (dt & [] & -> & Ht);
    (apply safe_seq; [by apply (safe_set_desc (λ _, dt))|]; intros _); [apply safe_act|by apply safe_ret].
Qed.
Lemma safe_desc_mark fd : 0 ≤ fd → safe (desc_mark fd) (λ _, True).
Proof.
  intros Hfd. unfold desc_mark. destruct (n_max_fd <=? fd); [by apply safe_ret|].
  apply safe_seq; [apply safe_shtime|]. intros now. eapply safe_bind; [apply safe_get|]. intros u Hu.
  destruct (mark_table n_max_fd now fd _ Hfd (ni_table _ Hu)) as (d & dt & -> & Ht). by apply (safe_set_desc (λ _, dt)).
Qed.
Lemma safe_wbuff_add fd bs : 0 ≤ fd → safe (desc_lift (descriptor_wbuff_add n_max_fd fd bs)) (λ _, True).
Proof.
  intros Hfd u Hu. destruct (ni_table _ Hu) as [t Ht]. unfold uwp, desc_lift, descriptor_wbuff_add. rewrite Ht, (proj2 (Z.ltb_ge fd 0) Hfd).
  destruct (n_max_fd <=? fd); [by destruct u, Hu|]. destruct (zlen bs <=? 0); [by destruct u, Hu|].
  destruct (d_flag _ =? 0); (split; [|done]); destruct Hu; by split.
Qed.
Lemma safe_rbuff_add fd bs : 0 ≤ fd → safe (desc_lift (descriptor_rbuff_add n_max_fd fd bs)) (λ _, True).
Proof.
  intros Hfd u Hu. destruct (ni_table _ Hu) as [t Ht]. unfold uwp, desc_lift, descriptor_rbuff_add. rewrite Ht, (proj2 (Z.ltb_ge fd 0) Hfd).
  destruct (n_max_fd <=? fd); [by destruct u, Hu|]. destruct (zlen bs <=? 0); [by destruct u, Hu|].
  destruct (d_flag _ =? 0); (split; [|done]); destruct Hu; by split.
Qed.

(** ** Services *)
Lemma bad_mode_false mode : bad_mode mode = false ↔ 0 ≤ mode < 32.
Proof.
  unfold bad_mode, MAX_UNET_MODES. rewrite orb_false_iff, Z.ltb_ge, Z.leb_gt. done.
Qed.

Lemma safe_bind_table mode :
  safe (unet_bind_table mode) (λ ob, match ob with Some b => bad_mode mode = false ∧ 0 ≤ b_fd b | None => True end).
Proof.
  intros u Hu. unfold unet_bind_table. destruct (bad_mode mode) eqn:Hb; [by apply uwp_ret|].
  unfold uwp. destruct (u_bind u !! Z.to_nat mode) as [b|] eqn:E; [|done].
  pose proof (Forall_lookup_1 _ _ _ _ (ni_fds _ Hu) E). done.
Qed.
Lemma safe_bind_at mode : bad_mode mode = false → safe (bind_at mode) (λ b, 0 ≤ b_fd b).
Proof.
  intros Hb u Hu. unfold uwp, bind_at. rewrite Hb. apply bad_mode_false in Hb.
  destruct (lookup_lt_is_Some_2 (u_bind u) (Z.to_nat mode)) as [b E]; [rewrite (ni_bind _ Hu); lia|].
  rewrite E. split; [done|]. split; [done|]. exact (Forall_lookup_1 _ _ _ _ (ni_fds _ Hu) E).
Qed.
Lemma safe_bind_put mode b : 0 ≤ b_fd b → safe (bind_put mode b) (λ _, True).
Proof.
  intros Hb u Hu. apply uwp_umod. split; [|done]. destruct Hu.
  split; simpl; [by rewrite length_insert|done|done|done|done|done|by apply Forall_insert].
Qed.
End rules.

#[export] Hint Resolve safe_ask safe_act safe_sysint safe_shtime safe_clock safe_get_unet_table safe_desc_put
  safe_desc_claim safe_desc_release safe_desc_mark safe_wbuff_add safe_rbuff_add safe_bind_put
  cb_accept_safe cb_close_safe cb_timer_safe : net.

#[export] Hint Extern 1 (0 ≤ _) => (cbn [b_fd]; (assumption || (unfold UNDEFINED_SOCKET; lia))) : net.

(** One step of a safety proof: split on the command, keep the results. *)
Ltac safe_step :=
  lazymatch goal with
  | |- safe (mret _) _ => apply safe_ret; try done
  | |- safe (unet_bind_table _ ≫= _) _ => eapply safe_bind; [apply safe_bind_table|intros [?|]; [intros [? ?]|intros _]]
  | |- safe (bind_at _ ≫= _) _ => eapply safe_bind; [apply safe_bind_at; solve [eauto with net]|intros ? ?]
  | |- safe (_ ≫= _) _ => apply safe_seq; [solve [eauto with net]|intros ?]
  | |- safe (match ?x with _ => _ end) _ => destruct x eqn:?
  | |- safe (let '_ := ?x in _) _ => destruct x eqn:?
  end.
Ltac safe_auto := repeat (safe_step; cbn beta iota zeta); try solve [eauto with net].

Section ops.
Context `{Net} `{!CallbacksSafe}.

Lemma safe_peer_db_open mode : safe (peer_db_open mode) (λ _, True).
Proof. unfold peer_db_open. safe_auto. Qed.
Hint Resolve safe_peer_db_open : net.
Lemma safe_peer_update mode a : safe (peer_update mode a) (λ _, True).
Proof. unfold peer_update. safe_auto. Qed.
Hint Resolve safe_peer_update : net.
Lemma safe_peer_incr mode peer : safe (net_peer_incr mode peer) (λ _, True).
Proof. apply safe_peer_update. Qed.
Lemma safe_peer_decr mode peer : safe (net_peer_decr mode peer) (λ _, True).
Proof. apply safe_peer_update. Qed.
Hint Resolve safe_peer_incr safe_peer_decr : net.

(** ** Events *)
Lemma find_slot_Some n off i tab idx :
  find_slot n off i tab = Some idx →
  (0 ≤ idx < UNET_MAX_EVENTS) ∧ ∃ e, tab !! Z.to_nat idx = Some e ∧ e_type e = 0.
Proof.
  revert off. induction n as [|n IH]; intros off; cbn [find_slot]; [done|]. cbv zeta.
  set (k := u32 (i + off) mod UNET_MAX_EVENTS).
  destruct (tab !! Z.to_nat k) as [e|] eqn:E; [|done].
  destruct (Z.eqb_spec (e_type e) 0) as [Ht|]; [|apply IH].
  intros [= <-]. split; [apply Z.mod_pos_bound; unfold UNET_MAX_EVENTS; lia|]. by exists e.
Qed.

Lemma net_inv_events u l :
  net_inv u → length l = length (u_events u) → Forall (λ e, bad_mode (e_mode e) = false) l →
  net_inv (set_events l u).
Proof. intros [] Hl Hm. split; simpl; [done|congruence|done..]. Qed.

Lemma safe_event_set f :
  (∀ l, length (f l) = length l) →
  (∀ l, Forall (λ e, bad_mode (e_mode e) = false) l → Forall (λ e, bad_mode (e_mode e) = false) (f l)) →
  safe (umod (λ u, set_events (f (u_events u)) u)) (λ _, True).
Proof.
  intros Hl Hm u Hu. apply uwp_umod. split; [|done]. apply net_inv_events; [done|by rewrite Hl|apply Hm, Hu].
Qed.

Lemma safe_uevent_new mode type data : bad_mode mode = false → safe (uevent_new mode type data) (λ _, True).
Proof.
  intros Hb. unfold uevent_new. destruct (type =? 0); [by apply safe_ret|].
  eapply safe_bind; [apply safe_get|]. intros u Hu.
  destruct (find_slot _ _ _ _) as [idx|] eqn:E; [|by apply safe_ret].
  apply find_slot_Some in E as [Hi _]. apply safe_seq.
  { intros u' Hu'. apply uwp_umod. split; [|done]. by destruct Hu'. }
  intros _. apply safe_seq; [|intros _; by apply safe_ret].
  intros u' Hu'. apply uwp_umod. destruct (u_events u' !! Z.to_nat idx) as [e|]; [|done].
  split; [|done]. apply net_inv_events; [done|by rewrite length_insert|].
  apply Forall_insert; [apply Hu'|done].
Qed.
Lemma safe_create_verify mode peer : bad_mode mode = false → safe (create_uevent_verify_peer mode peer) (λ _, True).
Proof. apply safe_uevent_new. Qed.
Lemma safe_create_connect mode peer : bad_mode mode = false → safe (create_uevent_connect_peer mode peer) (λ _, True).
Proof. apply safe_uevent_new. Qed.
Hint Resolve safe_create_verify safe_create_connect : net.

Lemma safe_clear_pos idx : idx < UNET_MAX_EVENTS → safe (uevent_clear_pos idx) (λ _, True).
Proof.
  intros Hi. unfold uevent_clear_pos. destruct (_ || _); [by apply safe_ret|].
  destruct (Z.eqb_spec idx UNET_MAX_EVENTS); [lia|]. apply (safe_event_set (<[Z.to_nat idx := null_event]>)).
  - intros l. apply length_insert.
  - intros l Hl. by apply Forall_insert.
Qed.

Lemma safe_event_at idx :
  0 ≤ idx < UNET_MAX_EVENTS → safe (event_at idx) (λ e, bad_mode (e_mode e) = false).
Proof.
  intros Hi u Hu. unfold uwp, event_at.
  destruct (lookup_lt_is_Some_2 (u_events u) (Z.to_nat idx)) as [e He]; [rewrite (ni_events _ Hu); lia|].
  rewrite He. split; [done|]. split; [done|]. apply (Forall_lookup_1 _ _ _ _ (ni_modes _ Hu) He).
Qed.
Lemma safe_event_put idx e : bad_mode (e_mode e) = false → safe (event_put idx e) (λ _, True).
Proof.
  intros Hb. apply (safe_event_set (<[Z.to_nat idx := e]>)).
  - intros l. apply length_insert.
  - intros l Hl. by apply Forall_insert.
Qed.
Lemma safe_event_set_fd idx fd : 0 ≤ idx < UNET_MAX_EVENTS → safe (event_set_fd idx fd) (λ _, True).
Proof. intros Hi. eapply safe_bind; [by apply safe_event_at|]. intros e He. by apply safe_event_put. Qed.
Lemma safe_event_drop idx : 0 ≤ idx < UNET_MAX_EVENTS → safe (event_drop_data idx) (λ _, True).
Proof. intros Hi. eapply safe_bind; [by apply safe_event_at|]. intros e He. by apply safe_event_put. Qed.
Lemma safe_bind_freq mode f : bad_mode mode = false → safe (bind_freq mode f) (λ _, True).
Proof. intros Hb. unfold bind_freq. safe_auto. Qed.
Lemma safe_scan_stamp mode t : bad_mode mode = false → safe (bind_scan_stamp mode t) (λ _, True).
Proof. intros Hb. unfold bind_scan_stamp. safe_auto. Qed.
Hint Resolve safe_clear_pos safe_event_set_fd safe_event_drop safe_bind_freq safe_scan_stamp : net.

Lemma safe_close_fd idx fd :
  0 ≤ idx < UNET_MAX_EVENTS → safe (if fd =? 0 then mret tt else _ ← act (AClose fd); event_set_fd idx 0) (λ _, True).
Proof. intros Hi. safe_auto. Qed.
Hint Resolve safe_close_fd : net.

Lemma safe_peer_verify idx : 0 ≤ idx < UNET_MAX_EVENTS → safe (uevent_peer_verify idx) (λ _, True).
Proof.
  intros Hi. unfold uevent_peer_verify. eapply safe_bind; [by apply safe_event_at|]. intros e He. safe_auto.
Qed.
Hint Resolve safe_peer_verify : net.

Lemma safe_peer_find_loop l mode ip : Forall (λ sk, 0 ≤ sk) l → safe (peer_find_loop l mode ip) (λ _, True).
Proof. induction 1 as [|sk l Hsk Hl IH]; cbn [peer_find_loop]; safe_auto. Qed.
(** The loops over the table start at descriptor 1. *)
Lemma all_fds_pos : Forall (λ sk, 0 ≤ sk) all_fds.
Proof. apply Forall_forall. intros sk. unfold all_fds. rewrite elem_of_seqZ. lia. Qed.
Lemma safe_peer_find mode addr : safe (unet_peer_find mode addr) (λ _, True).
Proof. apply safe_peer_find_loop, all_fds_pos. Qed.
Hint Resolve safe_peer_find : net.

Lemma safe_verify_fin idx : 0 ≤ idx < UNET_MAX_EVENTS → safe (verify_fin idx) (λ _, True).
Proof.
  intros Hi. eapply safe_bind; [by apply safe_event_at|]. intros e He.
  destruct (e_data e); safe_auto. apply safe_seq; [by apply safe_ret|]. intros _. by apply safe_ret.
Qed.
Hint Resolve safe_verify_fin : net.

Lemma safe_cycle_verify idx : 0 ≤ idx < UNET_MAX_EVENTS → safe (uevent_cycle_peer_verify idx) (λ _, True).
Proof.
  intros Hi. unfold uevent_cycle_peer_verify. eapply safe_bind; [by apply safe_event_at|].
  intros e He. safe_auto.
Qed.
Hint Resolve safe_cycle_verify : net.

(** ** Sockets *)
Lemma safe_unet_add mode sk : 0 ≤ sk → safe (unet_add mode sk) (λ _, True).
Proof. intros Hsk. unfold unet_add. safe_auto. Qed.
Lemma safe_call_accept mode fd addr : safe (call_accept mode fd addr) (λ _, True).
Proof. unfold call_accept. safe_auto. Qed.
Lemma safe_call_close mode fd addr : safe (call_close mode fd addr) (λ _, True).
Proof. unfold call_close. safe_auto. Qed.
Hint Resolve safe_unet_add safe_call_accept safe_call_close : net.

(** A command that is run or left out. *)
Lemma safe_when (b : bool) (m : U unit) : safe m (λ _, True) → safe (if b then m else mret tt) (λ _, True).
Proof. intros Hm. destruct b; [done|by apply safe_ret]. Qed.
Lemma safe_unless (b : bool) (m : U unit) : safe m (λ _, True) → safe (if b then mret tt else m) (λ _, True).
Proof. intros Hm. destruct b; [by apply safe_ret|done]. Qed.
Hint Resolve safe_when safe_unless : net.

Lemma safe_connect_wait err fd :
  safe (if err =? ERR_INPROGRESS then
          n ← sysint (AConnectWait fd);
          if 0 <? n then mret 0 else if n =? 0 then mret ERR_TIMEDOUT
          else errno ← sysint AErrno; mret (- errno)
        else mret err) (λ _, True).
Proof. safe_auto. Qed.
Hint Resolve safe_connect_wait : net.

Lemma safe_unet_connect mode addr : bad_mode mode = false → safe (unet_connect mode addr) (λ _, True).
Proof.
  intros Hb. unfold unet_connect.
  apply safe_seq; [eauto with net|]. intros r. cbv zeta.
  assert (0 ≤ u32 r) as Hr by (unfold u32; apply Z.mod_pos_bound; lia).
  destruct (n_max_fd <=? u32 r); [safe_auto|].
  apply safe_seq; [eauto with net|]. intros _. apply safe_seq; [eauto with net|]. intros err.
  apply safe_seq; [apply safe_connect_wait|]. intros e. destruct (negb (e =? 0)); [safe_auto|].
  apply safe_seq; [eauto with net|]. intros _. eapply safe_bind.
  { intros u Hu. unfold unet_bind_table. rewrite Hb. unfold uwp.
    instantiate (1 := λ ob, is_Some ob). split; [done|]. split; [done|].
    apply lookup_lt_is_Some. rewrite (ni_bind _ Hu). apply bad_mode_false in Hb. lia. }
  intros ob [b ->]. safe_auto.
Qed.
Hint Resolve safe_unet_connect : net.

Lemma safe_cycle_conn idx : 0 ≤ idx < UNET_MAX_EVENTS → safe (uevent_cycle_peer_conn idx) (λ _, True).
Proof.
  intros Hi. unfold uevent_cycle_peer_conn. eapply safe_bind; [by apply safe_event_at|]. intros e He.
  destruct (e_data e) as [peer|]; [|by apply safe_ret].
  apply safe_seq; [eauto with net|]. intros sk. apply safe_seq; [apply safe_when; safe_auto|]. intros _. safe_auto.
Qed.
Hint Resolve safe_cycle_conn : net.

Lemma safe_unet_close sk : 0 ≤ sk → safe (unet_close sk) (λ _, True).
Proof.
  intros Hsk. unfold unet_close. apply safe_seq; [eauto with net|]. intros [d|]; [|by apply safe_ret].
  apply safe_seq; [by eapply safe_true, safe_bind_table|]. intros ob.
  apply safe_seq; [|intros _; safe_auto]. destruct ob; [eauto with net|by apply safe_ret].
Qed.
Hint Resolve safe_unet_close : net.

Lemma safe_close_mode mode sk : 0 ≤ sk → safe (close_mode mode sk) (λ _, True).
Proof. intros Hsk. unfold close_mode. safe_auto. Qed.
Lemma safe_close_all mode : safe (unet_close_all mode) (λ _, True).
Proof.
  apply safe_seq; [|intros _; by apply safe_ret]. apply safe_for_each. intros sk Hsk. apply safe_close_mode.
  by apply (proj1 (Forall_forall _ _) all_fds_pos).
Qed.
Lemma safe_close_idle : safe unet_close_idle (λ _, True).
Proof.
  unfold unet_close_idle. apply safe_seq; [eauto with net|]. intros now. apply safe_for_each. intros sk Hsk.
  apply (proj1 (Forall_forall _ _) all_fds_pos) in Hsk. unfold close_if_idle. safe_auto.
Qed.
Hint Resolve safe_close_all safe_close_idle : net.

Lemma safe_local_verify fd : safe (unet_local_verify_fd fd) (λ _, True).
Proof.
  unfold unet_local_verify_fd. apply safe_seq; [eauto with net|]. intros addr.
  apply safe_seq; [by eapply safe_true, safe_get|]. intros u. by apply safe_ret.
Qed.
Lemma safe_refuse fd err : safe (refuse fd err) (λ _, True).
Proof. unfold refuse. safe_auto. Qed.
Hint Resolve safe_local_verify safe_refuse : net.

Lemma safe_accept_new mode fd esl : bad_mode mode = false → 0 ≤ fd → safe (accept_new mode fd esl) (λ _, True).
Proof.
  intros Hb Hfd. unfold accept_new. apply safe_seq; [eauto with net|]. intros _.
  apply safe_seq; [eauto with net|]. intros t. apply safe_seq; [destruct t; safe_auto|]. intros _.
  eapply safe_bind; [by apply safe_bind_at|]. intros b Hbf. apply safe_seq; [apply safe_when; safe_auto|]. intros _.
  by apply safe_ret.
Qed.
Hint Resolve safe_accept_new : net.

Lemma safe_unet_accept mode : safe (unet_accept mode) (λ _, True).
Proof.
  unfold unet_accept. safe_step; [|by apply safe_ret].
  destruct (b_fd u =? UNDEFINED_SOCKET); [by apply safe_ret|].
  apply safe_seq; [eauto with net|]. intros d. cbv zeta.
  apply safe_seq; [destruct (match d with Some _ => _ | None => _ end); safe_auto|]. intros cli. safe_auto.
Qed.
Hint Resolve safe_unet_accept : net.

Lemma safe_unet_write sk bs : 0 ≤ sk → safe (unet_write sk bs) (λ _, True).
Proof. intros Hsk. unfold unet_write. safe_auto. Qed.
Lemma safe_unet_shutdown sk : 0 ≤ sk → safe (unet_shutdown sk) (λ _, True).
Proof. intros Hsk. unfold unet_shutdown. safe_auto. Qed.

(** ** Services, scans and input and output *)
Lemma safe_thread_init mode : safe (unet_thread_init mode) (λ _, True).
Proof. unfold unet_thread_init. safe_auto. Qed.
Lemma safe_thread_free mode : safe (unet_thread_free mode) (λ _, True).
Proof. unfold unet_thread_free. safe_auto. Qed.
Hint Resolve safe_thread_init safe_thread_free : net.

Lemma safe_bound mode port sk flag : bad_mode mode = false → 0 ≤ sk → safe (bound mode port sk flag) (λ _, True).
Proof. intros Hb Hsk. unfold bound. safe_auto. Qed.
Hint Resolve safe_bound : net.
(** The system answers [socket] with -1 or a descriptor. *)
Lemma safe_unet_bind mode port : (∀ h, n_int h ASocket = -1 ∨ 0 ≤ n_int h ASocket) → bad_mode mode = false → safe (unet_bind mode port) (λ _, True).
Proof.
  intros Hs Hb. unfold unet_bind. eapply safe_bind; [by apply safe_bind_at|]. intros b Hbf. destruct (negb _); [by apply safe_ret|].
  apply (safe_bind _ _ (λ sk, sk = -1 ∨ 0 ≤ sk)); [intros u Hu; apply uwp_ask; split; [by apply net_inv_log|done]|].
  intros sk Hsk. destruct (Z.eqb_spec sk (-1)); [safe_auto|]. assert (0 ≤ sk) by lia. safe_auto.
Qed.
Lemma safe_unet_bind_esl mode port : bad_mode mode = false → safe (unet_bind_esl mode port) (λ _, True).
Proof. intros Hb. unfold unet_bind_esl. safe_auto. Qed.
Lemma safe_unet_unbind mode : bad_mode mode = false → safe (unet_unbind mode) (λ _, True).
Proof. intros Hb. unfold unet_unbind. safe_auto. Qed.

Lemma safe_scan_mode mode : safe (scan_mode mode) (λ _, True).
Proof.
  unfold scan_mode. safe_auto. apply safe_for_each. intros peer _. safe_auto.
Qed.
Lemma safe_peer_scan : safe unet_peer_scan (λ _, True).
Proof. apply safe_for_each. intros mode _. apply safe_scan_mode. Qed.
Hint Resolve safe_peer_scan : net.

Lemma safe_mark_loop l : Forall (λ fd, 0 ≤ fd < FD_SETSIZE) l → ∀ r w, safe (mark_loop l r w) (λ _, True).
Proof.
  induction 1 as [|fd l [Hfd Hset] Hl IH]; intros r w; cbn [mark_loop]; [by apply safe_ret|]. rewrite (proj2 (Z.leb_gt FD_SETSIZE fd) Hset). safe_auto.
Qed.
Lemma safe_io_read fd b : 0 ≤ fd → safe (io_read fd b) (λ _, True).
Proof. intros Hfd. unfold io_read. safe_auto. Qed.
Lemma safe_io_write fd : 0 ≤ fd → safe (io_write fd) (λ _, True).
Proof.
  intros Hfd. unfold io_write. eapply safe_bind; [apply safe_get|]. intros u Hu. rewrite (proj2 (Z.ltb_ge fd 0) Hfd). cbv zeta. safe_auto.
Qed.
Hint Resolve safe_mark_loop safe_io_read safe_io_write : net.
Lemma safe_io_fd r x fd : 0 ≤ fd → safe (io_fd r x fd) (λ _, True).
Proof. intros Hfd. unfold io_fd. safe_auto. Qed.
Lemma safe_accept_mode mode : safe (accept_mode mode) (λ _, True).
Proof. unfold accept_mode. safe_auto. Qed.
Lemma safe_unet_io : n_max_fd ≤ FD_SETSIZE → safe unet_io (λ _, True).
Proof.
  intros Hm. unfold unet_io. apply safe_seq.
  { apply safe_mark_loop, Forall_forall. intros fd. unfold all_fds. rewrite elem_of_seqZ. lia. }
  intros sets. safe_auto. apply safe_for_each. intros fd Hfd. apply safe_io_fd. apply elem_of_seqZ in Hfd. lia.
Qed.

(** ** The event loop ends *)

(** How far the cursor is from the end. *)
Definition dist (u : net_st) (e_max : Z) : Z := (e_max - u_cur_idx u) mod UNET_MAX_EVENTS.

Lemma dist_step i e_max :
  0 ≤ i < UNET_MAX_EVENTS → 0 ≤ e_max < UNET_MAX_EVENTS → i ≠ e_max →
  (e_max - (i + 1) mod UNET_MAX_EVENTS) mod UNET_MAX_EVENTS = (e_max - i) mod UNET_MAX_EVENTS - 1.
Proof.
  intros Hi He Hne. rewrite Zminus_mod_idemp_r.
  replace (e_max - (i + 1)) with (e_max - i - 1) by lia.
  assert (Hd : 1 ≤ (e_max - i) mod UNET_MAX_EVENTS).
  { unfold UNET_MAX_EVENTS in *. destruct (decide (i ≤ e_max)).
    - rewrite Z.mod_small by lia. lia.
    - replace (e_max - i) with ((e_max - i + 20480) + (-1) * 20480) by lia.
      rewrite Z.mod_add by lia. rewrite Z.mod_small by lia. lia. }
  pose proof (Z.mod_pos_bound (e_max - i) UNET_MAX_EVENTS ltac:(unfold UNET_MAX_EVENTS; lia)).
  symmetry. apply (Zmod_unique _ _ ((e_max - i) / UNET_MAX_EVENTS)); [lia|].
  pose proof (Z.div_mod (e_max - i) UNET_MAX_EVENTS ltac:(unfold UNET_MAX_EVENTS; lia)). lia.
Qed.

Lemma net_inv_cur u i : net_inv u → 0 ≤ i < UNET_MAX_EVENTS → net_inv (set_cur_idx i u).
Proof. intros [] Hi. by split. Qed.

Lemma wp_cycle_loop fuel start e_max u :
  net_inv u → 0 ≤ e_max < UNET_MAX_EVENTS → dist u e_max < Z.of_nat fuel →
  uwp (cycle_loop fuel start e_max) u (λ b u', b = true ∧ net_inv u').
Proof.
  revert u. induction fuel as [|fuel IH]; intros u Hu He Hd.
  { unfold dist in Hd. pose proof (Z.mod_pos_bound (e_max - u_cur_idx u) UNET_MAX_EVENTS ltac:(unfold UNET_MAX_EVENTS; lia)). lia. }
  cbn [cycle_loop]. apply uwp_bind, uwp_get. cbv zeta. set (i := u_cur_idx u).
  destruct (Z.eqb_spec i e_max) as [|Hne]; [by apply uwp_ret|].
  pose proof (ni_cur _ Hu) as Hi. fold i in Hi.
  assert (Hnext : ∀ u1, net_inv u1 → u_cur_idx u1 = i →
    uwp (_ ← umod (set_cur_idx ((i + 1) mod UNET_MAX_EVENTS)); cycle_loop fuel start e_max) u1
      (λ b u', b = true ∧ net_inv u')).
  { intros u1 Hu1 Hc. apply uwp_bind, uwp_umod. apply IH; [|done|].
    - apply net_inv_cur; [done|]. apply Z.mod_pos_bound. unfold UNET_MAX_EVENTS. lia.
    - unfold dist in *. cbn [u_cur_idx set_cur_idx]. rewrite dist_step by done. fold i in Hd. lia. }
  apply uwp_bind. eapply uwp_mono; [by apply (safe_event_at i)|]. intros e u1 (Hu1 & Hc1 & _).
  destruct (e_type e =? 0); [by apply Hnext|].
  assert (Hs : safe (if e_type e =? UEVENT_PEER_VERIFY then uevent_cycle_peer_verify i
    else if e_type e =? UEVENT_PEER_CONN then uevent_cycle_peer_conn i else mret 0) (λ _, True)) by safe_auto.
  apply uwp_bind. eapply uwp_mono; [by apply Hs|]. intros err u2 (Hu2 & Hc2 & _).
  apply uwp_bind. eapply uwp_mono; [by apply (safe_when (err =? 0)), Hu2; apply safe_clear_pos; lia|].
  intros _ u3 (Hu3 & Hc3 & _).
  apply uwp_bind. eapply uwp_mono; [by apply safe_shtime|]. intros now u4 (Hu4 & Hc4 & _).
  destruct (n_time_after now start 200); [by apply uwp_ret|]. apply Hnext; [done|unfold i; congruence].
Qed.

Lemma wp_uevent_cycle u : net_inv u → uwp uevent_cycle u (λ b u', b = true ∧ net_inv u').
Proof.
  intros Hu. unfold uevent_cycle. apply uwp_bind. eapply uwp_mono; [by apply safe_shtime|].
  intros start u1 (Hu1 & _ & _). apply uwp_bind, uwp_get. apply wp_cycle_loop; [done|..].
  - apply Z.mod_pos_bound. unfold UNET_MAX_EVENTS. lia.
  - unfold dist. pose proof (Z.mod_pos_bound (cycle_end (u_cur_idx u1) - u_cur_idx u1) UNET_MAX_EVENTS
      ltac:(unfold UNET_MAX_EVENTS; lia)). rewrite Nat2Z.inj_succ, Z2Nat.id by (unfold UNET_MAX_EVENTS; lia). lia.
Qed.

(** The result of a safe command, without the cursor. *)
Lemma safe_uwp {A} (m : U A) u : safe m (λ _, True) → net_inv u → uwp m u (λ _ u', net_inv u').
Proof. intros Hm Hu. eapply uwp_mono; [by apply Hm|]. by intros a u' (? & _). Qed.

Lemma wp_unet_events u : net_inv u → uwp unet_events u (λ _ u', net_inv u').
Proof.
  intros Hu. unfold unet_events. apply uwp_bind, uwp_get. cbv zeta. apply uwp_bind, uwp_umod.
  set (u0 := set_cycle _ u). assert (Hu0 : net_inv u0) by (destruct Hu; by split).
  destruct (negb _); [by apply uwp_ret|].
  apply uwp_bind. eapply uwp_mono; [by apply wp_uevent_cycle|]. intros b u1 [_ Hu1].
  apply (safe_uwp _ u1); [|done]. apply safe_seq; [eauto with net|]. intros now.
  apply safe_seq; [by eapply safe_true, safe_get|]. intros u2.
  destruct (u_next_t u2 <? now); [|by apply safe_ret].
  apply safe_seq; [eauto with net|]. intros _. apply safe_seq; [eauto with net|]. intros _.
  intros u3 Hu3. apply uwp_umod. split; [|done]. destruct Hu3. by split.
Qed.

Lemma wp_unet_cycle u : n_max_fd ≤ FD_SETSIZE → net_inv u → uwp unet_cycle u (λ _ u', net_inv u').
Proof.
  intros Hm Hu. unfold unet_cycle. apply uwp_bind. eapply uwp_mono; [by apply wp_unet_events|].
  intros ? u1 Hu1; cbn beta in Hu1. apply uwp_bind. eapply uwp_mono; [by apply (safe_uwp unet_io), Hu1; apply safe_unet_io|].
  intros ? u2 Hu2; cbn beta in Hu2. apply safe_uwp; [|done]. apply safe_for_each. intros mode _. apply safe_accept_mode.
Qed.
End ops.
