(* ===== verification/Links.v ===== *)
(** * Linked structures in memory

    Pointers are integers, [NULL] is 0, and a memory of nodes is a finite map
    from addresses.  [lseg] and [chain] describe singly linked lists in such a
    memory; the monad [SM] runs code on a state and has no result when the code
    goes through a pointer that does not point to a node.  The hash map
    (Shmap.v) and the client lists of the services (Clients.v) are built on it. *)

From S2P Require Import Prelude.

(** ** State with faults *)
Definition SM (S A : Type) : Type := S → option (A * S).

#[global] Instance SM_ret S : MRet (SM S) := λ A a s, Some (a, s).
#[global] Instance SM_bind S : MBind (SM S) := λ A B k m s,
  match m s with None => None | Some (a, s) => k a s end.

Section monad.
Context {S : Type}.

Definition sfault {A} : SM S A := λ _, None.
Definition sget : SM S S := λ s, Some (s, s).
Definition sgets {A} (f : S → A) : SM S A := λ s, Some (f s, s).
Definition smod (f : S → S) : SM S unit := λ s, Some (tt, f s).
Definition sopt {A} (f : S → option A) : SM S A := λ s,
  match f s with None => None | Some a => Some (a, s) end.

(** [swp m s Q]: [m] started in [s] does not fault, and its result and final
    state satisfy [Q]. *)
Definition swp {A} (m : SM S A) (s : S) (Q : A → S → Prop) : Prop :=
  match m s with None => False | Some (a, s') => Q a s' end.

Lemma swp_mono {A} (m : SM S A) s (Q R : A → S → Prop) :
  swp m s Q → (∀ a s', Q a s' → R a s') → swp m s R.
Proof. unfold swp. destruct (m s) as [[??]|]; auto. Qed.
Lemma swp_bind {A B} (m : SM S A) (k : A → SM S B) s Q :
  swp m s (λ a s', swp (k a) s' Q) → swp (m ≫= k) s Q.
Proof. unfold swp, mbind, SM_bind. by destruct (m s) as [[??]|]. Qed.
Lemma swp_ret {A} (a : A) s (Q : A → S → Prop) : Q a s → swp (mret a) s Q.
Proof. done. Qed.
Lemma swp_get s (Q : S → S → Prop) : Q s s → swp sget s Q.
Proof. done. Qed.
Lemma swp_gets {A} (f : S → A) s (Q : A → S → Prop) : Q (f s) s → swp (sgets f) s Q.
Proof. done. Qed.
Lemma swp_mod f s (Q : unit → S → Prop) : Q tt (f s) → swp (smod f) s Q.
Proof. done. Qed.
Lemma swp_opt {A} (f : S → option A) a s (Q : A → S → Prop) :
  f s = Some a → Q a s → swp (sopt f) s Q.
Proof. unfold swp, sopt. by intros ->. Qed.
Lemma swp_run {A} (m : SM S A) s Q : swp m s Q → ∃ a s', m s = Some (a, s') ∧ Q a s'.
Proof. unfold swp. destruct (m s) as [[a s']|]; [eauto|done]. Qed.
Lemma swp_of_run {A} (m : SM S A) s a s' (Q : A → S → Prop) :
  m s = Some (a, s') → Q a s' → swp m s Q.
Proof. unfold swp. by intros ->. Qed.
End monad.

(** Step through the elementary commands. *)
Ltac swp_step :=
  lazymatch goal with
  | |- swp (mbind _ _) _ _ => apply swp_bind
  | |- swp (mret _) _ _ => apply swp_ret
  | |- swp sget _ _ => apply swp_get
  | |- swp (sgets _) _ _ => apply swp_gets
  | |- swp (smod _) _ _ => apply swp_mod
  end.
Ltac swp_steps := repeat (swp_step; cbn beta iota).

(** ** Lists of nodes *)
Section links.
Context {N : Type} (next : N → Z).
Implicit Types (h : gmap Z N) (l : list Z) (p q a : Z).

(** The nodes [l] are linked from [p], and the last one links to [q]. *)
Fixpoint lseg h p l q : Prop :=
  match l with
  | [] => p = q
  | a :: l => p = a ∧ a ≠ 0 ∧ ∃ n, h !! a = Some n ∧ lseg h (next n) l q
  end.
Definition chain h p l : Prop := lseg h p l 0.

Lemma lseg_app h p l1 l2 q : lseg h p (l1 ++ l2) q ↔ ∃ r, lseg h p l1 r ∧ lseg h r l2 q.
Proof.
  revert p. induction l1 as [|a l1 IH]; intros p; simpl; [naive_solver|].
  setoid_rewrite IH. naive_solver.
Qed.

Lemma lseg_frame h h' p l q :
  lseg h p l q → (∀ a, a ∈ l → h' !! a = h !! a) → lseg h' p l q.
Proof.
  revert p. induction l as [|a l IH]; intros p; simpl; [done|].
  intros (-> & Ha & n & Hn & Hl) Hf. split_and!; [done..|]. exists n.
  rewrite Hf by (by left). split; [done|]. apply IH; [done|]. intros b Hb. apply Hf. by right.
Qed.
(** Only the links matter. *)
Lemma lseg_links h h' p l q :
  (∀ a, next <$> h' !! a = next <$> h !! a) → lseg h p l q → lseg h' p l q.
Proof.
  intros Hn. revert p. induction l as [|a l IH]; intros p; simpl; [done|].
  intros (-> & Ha & n & Hna & Hl). split_and!; [done..|]. specialize (Hn a). rewrite Hna in Hn. simpl in Hn.
  destruct (h' !! a) as [n'|]; [|done]. injection Hn as E. exists n'. rewrite E. auto.
Qed.
Lemma lseg_insert_ne h p l q a n : a ∉ l → lseg h p l q → lseg (<[a := n]> h) p l q.
Proof.
  intros Ha Hl. eapply lseg_frame; [done|]. intros b Hb. apply lookup_insert_ne. by intros ->.
Qed.
Lemma lseg_delete_ne h p l q a : a ∉ l → lseg h p l q → lseg (delete a h) p l q.
Proof.
  intros Ha Hl. eapply lseg_frame; [done|]. intros b Hb. apply lookup_delete_ne. by intros ->.
Qed.

Lemma lseg_lookup h p l q a : lseg h p l q → a ∈ l → a ≠ 0 ∧ is_Some (h !! a).
Proof.
  revert p. induction l as [|b l IH]; intros p; simpl; [intros _ []%elem_of_nil|].
  intros (-> & Hb & n & Hn & Hl) [->|Ha]%elem_of_cons; [eauto|]. by eapply IH.
Qed.

(** A node on the way determines the rest of the list. *)
Lemma lseg_mid h p l1 a l2 q :
  lseg h p (l1 ++ a :: l2) q → ∃ n, h !! a = Some n ∧ lseg h p l1 a ∧ lseg h (next n) l2 q.
Proof. intros (r & H1 & -> & _ & n & Hn & H2)%lseg_app. eauto. Qed.

Lemma chain_det h p l l' : chain h p l → chain h p l' → l = l'.
Proof.
  unfold chain. revert p l'. induction l as [|a l IH]; intros p [|a' l']; simpl.
  - done.
  - naive_solver.
  - naive_solver.
  - intros (-> & _ & n & Hn & Hl) (-> & _ & n' & Hn' & Hl'). simplify_eq. f_equal. by eapply IH.
Qed.

Lemma chain_NoDup h p l : chain h p l → NoDup l.
Proof.
  unfold chain. revert p. induction l as [|a l IH]; intros p Hl; [constructor|].
  constructor; [|destruct Hl as (_ & _ & n & _ & Hl); by eapply IH].
  intros (l1 & l2 & E)%list_elem_of_split. subst l.
  destruct Hl as (_ & _ & n & Hn & Hrest).
  pose proof (lseg_mid _ _ _ _ _ _ Hrest) as (n' & Hn' & _ & H2).
  rewrite Hn in Hn'. injection Hn' as <-. pose proof (chain_det _ _ _ _ Hrest H2) as E.
  apply (f_equal length) in E. rewrite length_app in E. simpl in E. lia.
Qed.

Lemma chain_size h p l : chain h p l → (length l ≤ size h)%nat.
Proof.
  intros Hl. rewrite <-(size_list_to_set (C := gset Z) l) by (by eapply chain_NoDup).
  rewrite <-size_dom. apply subseteq_size. intros a Ha%elem_of_list_to_set.
  apply elem_of_dom. by eapply lseg_lookup.
Qed.

(** Relinking the last node of a segment. *)
Lemma lseg_relink h p l a n q r :
  a ∉ l → h !! a = Some n → lseg h p (l ++ [a]) q →
  ∀ n', next n' = r → lseg (<[a := n']> h) p (l ++ [a]) r.
Proof.
  intros Ha Hn (b & Hl & -> & Ha0 & _)%lseg_app n' Hr. apply lseg_app. exists a. split.
  - by apply lseg_insert_ne.
  - simpl. split_and!; [done..|]. exists n'. by rewrite lookup_insert_eq.
Qed.

Lemma chain_nil h p : chain h p [] ↔ p = 0.
Proof. done. Qed.
Lemma chain_0 h l : chain h 0 l → l = [].
Proof. destruct l; [done|]. intros (<- & ? & _). done. Qed.
Lemma chain_cons h p l : p ≠ 0 → chain h p l →
  ∃ n l', l = p :: l' ∧ h !! p = Some n ∧ chain h (next n) l'.
Proof. destruct l as [|a l]; [by intros ? ->|]. intros _ (-> & _ & n & ? & ?). eauto 10. Qed.
End links.
