(* ===== verification/Shmap.v ===== *)
(** * Hash maps

    libshare's [shmap_t] ([depend/share/src/share-lib/mem/shmem_map.c]): an
    array of linked lists of entries, a list of recycled entries and an iterator
    that lives in the map.  Entries and blocks of bytes are in memory; every
    access goes through a pointer and faults when nothing is there.  The clone
    of its key that an entry owns is kept inside the entry. *)

From S2P Require Import Prelude Errors Shbuf Crc Links.

Definition INITIAL_MAX : Z := 15.
Definition SHMAP_ALLOC : Z := 1.
Definition SHMAP_STRING : Z := Z.shiftl 1 10.
Definition SHMAP_BINARY : Z := Z.shiftl 1 13.
Definition SHMEM32_MAGIC : Z := 0x22888822.
(** [sizeof] of a pointer, [shmap_entry_t], [shkey_t], [shmap_t] and
    [shmap_value_t]. *)
Definition PTR_SIZE : Z := 8.
Definition ENT_SIZE : Z := 48.
Definition KEY_SIZE : Z := 32.
Definition MAP_SIZE : Z := 64.
Definition VALUE_SIZE : Z := 72.

Record shmap_entry_t := Ent {
  e_next : Z;
  e_hash : Z;
  e_key : option (list byte);
  e_val : Z;
  e_sz : Z;
  e_flag : Z;
}.
Definition ent_set_next (e : shmap_entry_t) (p : Z) : shmap_entry_t :=
  Ent p (e_hash e) (e_key e) (e_val e) (e_sz e) (e_flag e).

Record shmap_index_t := Idx { hi_tthis : Z; hi_next : Z; hi_index : Z }.

(** A [NULL] array is the empty list. *)
Record shmap_t := Shmap {
  ht_array : list Z;
  ht_iter : shmap_index_t;
  ht_count : Z;
  ht_max : Z;
  ht_free : Z;
}.
Definition set_array (t : shmap_t) l := Shmap l (ht_iter t) (ht_count t) (ht_max t) (ht_free t).
Definition set_iter (t : shmap_t) i := Shmap (ht_array t) i (ht_count t) (ht_max t) (ht_free t).
Definition set_count (t : shmap_t) c := Shmap (ht_array t) (ht_iter t) c (ht_max t) (ht_free t).
Definition set_max (t : shmap_t) m := Shmap (ht_array t) (ht_iter t) (ht_count t) m (ht_free t).
Definition set_free (t : shmap_t) f := Shmap (ht_array t) (ht_iter t) (ht_count t) (ht_max t) f.

(** Memory: the entries, the blocks of bytes, and the lowest address that was
    never handed out.  [hs_map] is the map, or [None] for a [NULL] map. *)
Record hst := HSt {
  hs_ents : gmap Z shmap_entry_t;
  hs_blks : gmap Z (list byte);
  hs_brk : Z;
  hs_map : option shmap_t;
}.
Abbreviation H := (SM hst).

Definition shmap_hash_num (key : list byte) : Z :=
  foldl (λ hash b, u32 (hash * 33 + Z_of_byte b)) 0 key.

Section memory.
Context `{Heap}.

Definition ent_load (p : Z) : H shmap_entry_t := sopt (λ s, hs_ents s !! p).
Definition ent_store (p : Z) (e : shmap_entry_t) : H unit :=
  _ ← ent_load p;
  smod (λ s, HSt (<[p := e]> (hs_ents s)) (hs_blks s) (hs_brk s) (hs_map s)).
(** [calloc(1, sizeof(shmap_entry_t))] *)
Definition ent_alloc : H Z := λ s,
  if heap_ok ENT_SIZE
  then Some (hs_brk s, HSt (<[hs_brk s := Ent 0 0 None 0 0 0]> (hs_ents s)) (hs_blks s) (hs_brk s + 1) (hs_map s))
  else Some (0, s).
Definition ent_free (p : Z) : H unit :=
  _ ← ent_load p;
  smod (λ s, HSt (delete p (hs_ents s)) (hs_blks s) (hs_brk s) (hs_map s)).

(** [calloc] of a block of [len] bytes and [memcpy] into it from [src]. *)
Definition blk_alloc (len : Z) (src : list byte) : H Z := λ s,
  if heap_ok len then
    if zlen src <? len then None
    else Some (hs_brk s, HSt (hs_ents s) (<[hs_brk s := take (Z.to_nat len) src]> (hs_blks s))
                           (hs_brk s + 1) (hs_map s))
  else Some (0, s).
Definition blk_load (p len : Z) : H (list byte) := sopt (λ s,
  l ← hs_blks s !! p; if len <=? zlen l then Some (take (Z.to_nat len) l) else None).
(** [free]: of [NULL] does nothing, of anything but a live block faults. *)
Definition blk_free (p : Z) : H unit :=
  if p =? 0 then mret tt else
  _ ← sopt (λ s, hs_blks s !! p);
  smod (λ s, HSt (hs_ents s) (delete p (hs_blks s)) (hs_brk s) (hs_map s)).

(** [*ht]; faults when [ht] is [NULL]. *)
Definition get_ht : H shmap_t := sopt hs_map.
Definition put_ht (t : shmap_t) : H unit := smod (λ s, HSt (hs_ents s) (hs_blks s) (hs_brk s) (Some t)).

Definition shkey_clone (key : list byte) : option (list byte) := if heap_ok KEY_SIZE then Some key else None.

(** [calloc(max + 1, sizeof(shmap_entry_t * ))] *)
Definition alloc_array (max : Z) : list Z :=
  if heap_ok ((max + 1) * PTR_SIZE) then replicate (Z.to_nat (max + 1)) 0 else [].

Definition shmap_init : H unit :=
  if heap_ok MAP_SIZE then put_ht (Shmap (alloc_array INITIAL_MAX) (Idx 0 0 0) 0 INITIAL_MAX 0) else sfault.

(** ** Links *)

(** The address of a link: [&ht->array[i]] or [&he->next]. *)
Inductive slot := SArr (i : Z) | SNext (p : Z).
Definition slot_load (hep : slot) : H Z :=
  match hep with
  | SArr i => t ← get_ht; sopt (λ _, ht_array t !! Z.to_nat i)
  | SNext p => e ← ent_load p; mret (e_next e)
  end.
Definition slot_store (hep : slot) (v : Z) : H unit :=
  match hep with
  | SArr i =>
     t ← get_ht; _ ← sopt (λ _, ht_array t !! Z.to_nat i);
     put_ht (set_array t (<[Z.to_nat i := v]> (ht_array t)))
  | SNext p => e ← ent_load p; ent_store p (ent_set_next e v)
  end.

(** ** Iteration *)
Fixpoint next_loop (fuel : nat) : H bool :=
  t ← get_ht;
  let hi := ht_iter t in
  if negb (hi_tthis hi =? 0) then
    e ← ent_load (hi_tthis hi);
    _ ← put_ht (set_iter t (Idx (hi_tthis hi) (e_next e) (hi_index hi)));
    mret true
  else if ht_max t <? hi_index hi then mret false
  else
    match fuel with
    | O => sfault
    | S fuel =>
       p ← sopt (λ _, ht_array t !! Z.to_nat (hi_index hi));
       _ ← put_ht (set_iter t (Idx p (hi_next hi) (u32 (hi_index hi + 1))));
       next_loop fuel
    end.
(** [true] for an entry, [false] for the end ([NULL]). *)
Definition shmap_next : H bool :=
  t ← get_ht;
  let hi := ht_iter t in
  _ ← put_ht (set_iter t (Idx (hi_next hi) (hi_next hi) (hi_index hi)));
  next_loop (Z.to_nat (ht_max t + 1)).
Definition shmap_first : H bool :=
  s ← sget;
  match hs_map s with
  | None => mret false
  | Some t => _ ← put_ht (set_iter t (Idx 0 0 0)); shmap_next
  end.
(** [shmap_self]: the current entry. *)
Definition shmap_self : H shmap_entry_t := t ← get_ht; ent_load (hi_tthis (ht_iter t)).

(** ** Expansion *)
Fixpoint expand_loop (fuel : nat) (new_max : Z) (new_array : list Z) (hi : bool) : H (list Z) :=
  if hi then
    match fuel with
    | O => sfault
    | S fuel =>
       t ← get_ht;
       let tthis := hi_tthis (ht_iter t) in
       e ← ent_load tthis;
       let i := Z.to_nat (Z.land (e_hash e) new_max) in
       p ← sopt (λ _, new_array !! i);
       _ ← ent_store tthis (ent_set_next e p);
       hi ← shmap_next;
       expand_loop fuel new_max (<[i := tthis]> new_array) hi
    end
  else mret new_array.
Definition expand_array_ : H unit :=
  t ← get_ht;
  let new_max := u32 (ht_max t * 2) in
  let new_array := alloc_array new_max in
  n ← sgets (λ s, size (hs_ents s));
  hi ← shmap_first;
  new_array ← expand_loop n new_max new_array hi;
  t ← get_ht;
  put_ht (set_max (set_array t new_array) new_max).

(** ** Search *)
Fixpoint scan_list (fuel : nat) (hash : Z) (key : list byte) (hep : slot) : H (slot * Z) :=
  he ← slot_load hep;
  if he =? 0 then mret (hep, 0)
  else
    e ← ent_load he;
    hit ← (if e_hash e =? hash
           then k ← sopt (λ _, e_key e); mret (bool_decide (k = key))
           else mret false);
    if hit : bool then mret (hep, he)
    else match fuel with O => sfault | S fuel => scan_list fuel hash key (SNext he) end.

(** [find_entry]: with a value it adds an entry when there is none. *)
Definition find_entry (key : option (list byte)) (val : Z) : H (option slot) :=
  match key with
  | None => mret None
  | Some key =>
     let hash := shmap_hash_num key in
     t ← get_ht;
     n ← sgets (λ s, size (hs_ents s));
     r ← scan_list n hash key (SArr (Z.land hash (ht_max t)));
     let '(hep, he) := r in
     if negb (he =? 0) || (val =? 0) then mret (Some hep)
     else
       he ← (if ht_free t =? 0 then ent_alloc
             else e ← ent_load (ht_free t); _ ← put_ht (set_free t (e_next e)); mret (ht_free t));
       _ ← ent_store he (Ent 0 hash (shkey_clone key) val 0 0);
       _ ← slot_store hep he;
       t ← get_ht;
       _ ← put_ht (set_count t (u32 (ht_count t + 1)));
       mret (Some hep)
  end.

(** ** Values *)
Definition shmap_get_ent (key : option (list byte)) : H (Z * Z) :=
  s ← sget;
  match hs_map s with
  | None => mret (0, 0)
  | Some _ =>
     r ← find_entry key 0;
     hep ← sopt (λ _, r);
     he ← slot_load hep;
     if he =? 0 then mret (0, 0) else e ← ent_load he; mret (e_val e, e_flag e)
  end.
Definition shmap_get (key : option (list byte)) : H Z := r ← shmap_get_ent key; mret r.1.

(** [map_flag] and [val_size] as they are stored; [map_flag |= ~SHMAP_ALLOC]. *)
Definition ent_flag (val map_flag val_size : Z) : Z :=
  let map_flag := if val =? 0 then 0 else map_flag in
  let val_size := if val =? 0 then 0 else val_size in
  if val_size =? 0 then Z.lor map_flag (-2) else map_flag.
Definition ent_size (val val_size : Z) : Z := if val =? 0 then 0 else val_size.

(** Delete or replace the entry behind a link. *)
Definition ent_unset (hep : slot) (old : Z) : H unit :=
  e ← ent_load old;
  _ ← slot_store hep (e_next e);
  t ← get_ht;
  e ← ent_load old;
  _ ← ent_store old (ent_set_next e (ht_free t));
  _ ← put_ht (set_count (set_free t old) (u32 (ht_count t - 1)));
  _ ← (if Z.testbit (e_flag e) 0 then blk_free (e_val e) else mret tt);
  ent_store old (Ent (ht_free t) (e_hash e) None 0 0 0).
Definition ent_replace (cur map_flag data val_size : Z) : H unit :=
  e ← ent_load cur;
  _ ← (if Z.testbit (e_flag e) 0 then blk_free (e_val e) else mret tt);
  _ ← ent_store cur (Ent (e_next e) (e_hash e) (e_key e) data val_size map_flag);
  t ← get_ht;
  if ht_max t <? ht_count t then expand_array_ else mret tt.

(** [shmap_set_ent]: [src] are the bytes at [val], read when they are copied. *)
Definition shmap_set_ent (key : option (list byte)) (map_flag val : Z) (src : list byte) (val_size : Z) : H Z :=
  s ← sget;
  match hs_map s, key with
  | None, _ | _, None => mret ERR_INVAL
  | Some _, Some _ =>
     let flag := ent_flag val map_flag val_size in
     let size := ent_size val val_size in
     let alloc := Z.testbit flag 0 in
     data ← (if alloc then blk_alloc (u64 size) src else mret val);
     if alloc && (data =? 0) then mret ERR_NOMEM
     else
       r ← find_entry key data;
       match r with
       | None => _ ← (if alloc then blk_free data else mret tt); mret ERR_INVAL
       | Some hep =>
          he ← slot_load hep;
          _ ← (if he =? 0 then mret tt
               else if data =? 0 then ent_unset hep he
               else ent_replace he flag data size);
          mret 0
       end
  end.

Definition shmap_set (key : option (list byte)) (val : Z) : H unit :=
  _ ← shmap_set_ent key 0 val [] 0; mret tt.
Definition shmap_set_num (key : option (list byte)) (val : Z) : H unit :=
  _ ← shmap_set_ent key 0 (u64 val) [] 0; mret tt.
Definition shmap_unset (key : option (list byte)) : H unit := shmap_set key 0.

(** A C string argument: its address and its characters, or [NULL]. *)
Definition cstr := option (Z * list byte).
Definition set_string (flag : Z) (key : option (list byte)) (value : cstr) : H unit :=
  match value with
  | None => shmap_set key 0
  | Some (p, l) => _ ← shmap_set_ent key flag p (l ++ [x00]) (zlen l + 1); mret tt
  end.
Definition shmap_set_astr (key : option (list byte)) (value : cstr) : H unit :=
  s ← sget;
  match hs_map s, key with
  | None, _ | _, None => mret tt
  | _, _ => set_string (Z.lor SHMAP_STRING SHMAP_ALLOC) key value
  end.
Definition shmap_set_str (key : option (list byte)) (value : cstr) : H unit :=
  s ← sget;
  match hs_map s with None => mret tt | Some _ => set_string SHMAP_STRING key value end.
Definition shmap_set_ptr (key : option (list byte)) (ptr : Z) : H unit :=
  _ ← shmap_set_ent key SHMAP_BINARY ptr [] 0; mret tt.
Definition shmap_set_bin (key : option (list byte)) (data : Z) (src : list byte) (len : Z) : H unit :=
  _ ← shmap_set_ent key SHMAP_BINARY data src len; mret tt.
Definition shmap_set_abin (key : option (list byte)) (data : Z) (src : list byte) (len : Z) : H unit :=
  _ ← shmap_set_ent key (Z.lor SHMAP_BINARY SHMAP_ALLOC) data src len; mret tt.

Definition shmap_count : H Z := sgets (λ s, match hs_map s with None => 0 | Some t => ht_count t end).

Fixpoint ptr_loop (fuel : nat) (hi : bool) : H (list Z) :=
  if hi then
    match fuel with
    | O => sfault
    | S fuel =>
       e ← shmap_self;
       hi ← shmap_next;
       l ← ptr_loop fuel hi;
       mret (if Z.testbit (e_flag e) 13 && negb (e_val e =? 0) then e_val e :: l else l)
    end
  else mret [].
Definition shmap_get_ptr_list : H (list Z) :=
  n ← sgets (λ s, size (hs_ents s)); hi ← shmap_first; ptr_loop n hi.

(** ** Release *)
Fixpoint free_list (fuel : nat) (vals : bool) (ent : Z) : H unit :=
  if ent =? 0 then mret tt
  else
    match fuel with
    | O => sfault
    | S fuel =>
       e ← ent_load ent;
       _ ← (if vals && Z.testbit (e_flag e) 0 && negb (e_val e =? 0) then blk_free (e_val e) else mret tt);
       _ ← ent_free ent;
       free_list fuel vals (e_next e)
    end.
Fixpoint free_buckets (n : nat) (l : list Z) : H unit :=
  match l with [] => mret tt | p :: l => _ ← free_list n true p; free_buckets n l end.
Definition shmap_free : H unit :=
  s ← sget;
  match hs_map s with
  | None => mret tt
  | Some t =>
     let n := size (hs_ents s) in
     _ ← (if zlen (ht_array t) <? ht_max t + 1 then sfault
          else free_buckets n (take (Z.to_nat (ht_max t + 1)) (ht_array t)));
     _ ← free_list n false (ht_free t);
     smod (λ s, HSt (hs_ents s) (hs_blks s) (hs_brk s) None)
  end.

(** ** Files of records: a [shmap_value_t] header and the data *)
Definition value_hdr (now : Z) (name data : list byte) (pf : Z) : list byte :=
  le_enc 4 SHMEM32_MAGIC ++ le_enc 4 (shcrc data) ++ le_enc 4 now ++ le_enc 4 pf ++ name ++
  le_enc 8 (zlen data) ++ replicate 16 x00.

Fixpoint print_loop (fuel : nat) (now : Z) (buff : shbuf_t) (hi : bool) : H shbuf_t :=
  if hi then
    match fuel with
    | O => sfault
    | S fuel =>
       e ← shmap_self;
       buff ← (if (e_sz e =? 0) || (e_val e =? 0) then mret buff
               else
                 data ← blk_load (e_val e) (e_sz e);
                 name ← sopt (λ _, e_key e);
                 mret (shbuf_cat (shbuf_cat buff (value_hdr now name data (Z.land (e_flag e) (-2)))) data));
       hi ← shmap_next;
       print_loop fuel now buff hi
    end
  else mret buff.
Definition shmap_print (now : Z) (buff : shbuf_t) : H shbuf_t :=
  s ← sget;
  match hs_map s with
  | None => mret buff
  | Some _ => n ← sgets (λ s, size (hs_ents s)); hi ← shmap_first; print_loop n now buff hi
  end.

(** [at_ off n l]: the bytes of [l] from [off], at most [n] and at most to the
    end of [l]. *)
Definition at_ (off n : nat) (l : list byte) : list byte := take n (drop off l).
Fixpoint load_loop (fuel : nat) (p : Z) (l : list byte) (b_of : Z) : H unit :=
  if b_of <? zlen l then
    match fuel with
    | O => sfault
    | S fuel =>
       let hdr := at_ (Z.to_nat b_of) (Z.to_nat VALUE_SIZE) l in
       let b_of := b_of + VALUE_SIZE in
       if zlen l <? b_of then mret tt
       else if negb (le_dec (at_ 0 4 hdr) =? SHMEM32_MAGIC) then load_loop fuel p l b_of
       else
         let sz := le_dec (at_ 48 8 hdr) in
         if sz =? 0 then load_loop fuel p l b_of
         else
           let data := at_ (Z.to_nat b_of) (Z.to_nat (Z.min sz (zlen l))) l in
           _ ← shmap_set_ent (Some (at_ 16 32 hdr)) (i32 (Z.lor (le_dec (at_ 12 4 hdr)) SHMAP_ALLOC))
                 (p + b_of) data (i64 sz);
           load_loop fuel p l (u64 (b_of + sz))
    end
  else mret tt.
(** [shmap_load]: [p] is the address of the buffer's data.  Every record moves
    the offset on by at least the size of a header, unless the sum wraps. *)
Definition shmap_load (p : Z) (buff : option shbuf_t) : H unit :=
  let l := default [] (shbuf_data buff) in
  load_loop (length l) p l 0.
End memory.
