(* ===== verification/ShmapInv.v ===== *)
(** * The hash map as a finite map

    [shmap_ok s ext m]: the memory of [s] holds a well-formed hash map that
    stands for the finite map [m] from keys to values, next to the blocks [ext]
    of other owners.  Every operation is specified on this relation. *)

From S2P Require Import Prelude Errors Shbuf Crc Links Shmap.

#[global] Instance byte_countable : Countable byte.
Proof.
  refine (inj_countable' Byte.to_N (λ n, default x00 (Byte.of_N n)) _).
  intros b. by rewrite Byte.of_to_N.
Defined.

Lemma NoDup_omap_inj {A B} (f : A → option B) l :
  NoDup l → (∀ a b x, a ∈ l → b ∈ l → f a = Some x → f b = Some x → a = b) → NoDup (omap f l).
Proof.
  induction 1 as [|a l Ha Hl IH]; intros Hf; [constructor|]. simpl.
  assert (NoDup (omap f l)) as Hn by (apply IH; intros; eapply Hf; eauto; by right).
  destruct (f a) as [x|] eqn:E; [|done]. constructor; [|done]. intros (b & Hb & Eb)%list_elem_of_omap.
  apply Ha. rewrite (Hf a b x); [done|left|by right|done..].
Qed.

Abbreviation key_t := (list byte) (only parsing).

(** A stored value: a word of the caller or a copied block. *)
Record aval := AVal { a_flag : Z; a_sz : Z; a_data : Z + list byte }.

(** The contents of an entry, without its link. *)
Record cell := Cell { c_hash : Z; c_key : option key_t; c_val : Z; c_sz : Z; c_flag : Z }.
Definition cont (e : shmap_entry_t) : cell := Cell (e_hash e) (e_key e) (e_val e) (e_sz e) (e_flag e).
Tactic Notation "cell_simpl" := cbn [c_hash c_key c_val c_sz c_flag].
Tactic Notation "cell_simpl" "in" hyp(H) := cbn [c_hash c_key c_val c_sz c_flag] in H.
Definition c_alloc (c : cell) : bool := Z.testbit (c_flag c) 0.

Definition cell_val (blks : gmap Z (list byte)) (c : cell) : option aval :=
  if c_alloc c then (λ b, AVal (c_flag c) (c_sz c) (inr b)) <$> blks !! c_val c
  else Some (AVal (c_flag c) (c_sz c) (inl (c_val c))).

Lemma cell_val_alloc blks c v :
  cell_val blks c = Some v → c_alloc c → ∃ b, blks !! c_val c = Some b ∧ v = AVal (c_flag c) (c_sz c) (inr b).
Proof.
  unfold cell_val. destruct (c_alloc c); [|done]. destruct (blks !! c_val c); simpl; naive_solver.
Qed.

(** ** Contents

    [nodes] are the addresses of the entries in use, [fr] of the recycled ones. *)
Record cells_ok (cs : gmap Z cell) (blks ext : gmap Z (list byte)) (brk : Z) (nodes fr : list Z)
    (m : gmap key_t aval) : Prop := {
  co_nodup : NoDup (nodes ++ fr);
  co_dom a : is_Some (cs !! a) ↔ a ∈ nodes ++ fr;
  co_brk a : is_Some (cs !! a) ∨ is_Some (blks !! a) → 0 < a < brk;
  co_brk_pos : 0 < brk;
  co_node a c : a ∈ nodes → cs !! a = Some c →
    ∃ k, c_key c = Some k ∧ c_hash c = shmap_hash_num k ∧ c_val c ≠ 0 ∧
         ∃ v, m !! k = Some v ∧ cell_val blks c = Some v;
  co_map k v : m !! k = Some v → ∃ a c, a ∈ nodes ∧ cs !! a = Some c ∧ c_key c = Some k;
  co_uniq a b c d : a ∈ nodes → b ∈ nodes → cs !! a = Some c → cs !! b = Some d → c_key c = c_key d → a = b;
  co_own a b c d : a ∈ nodes → b ∈ nodes → cs !! a = Some c → cs !! b = Some d →
    c_alloc c → c_alloc d → c_val c = c_val d → a = b;
  co_ext a c : a ∈ nodes → cs !! a = Some c → c_alloc c → ext !! c_val c = None;
  co_ext_sub p l : ext !! p = Some l → blks !! p = Some l;
  co_blks p : is_Some (blks !! p) → is_Some (ext !! p) ∨ ∃ a c, a ∈ nodes ∧ cs !! a = Some c ∧ c_alloc c ∧ c_val c = p;
}.

#[global] Instance cells_ok_perm cs blks ext brk : Proper ((≡ₚ) ==> (≡ₚ) ==> (=) ==> iff) (cells_ok cs blks ext brk).
Proof.
  assert (∀ n n' f f' m, n ≡ₚ n' → f ≡ₚ f' → cells_ok cs blks ext brk n f m → cells_ok cs blks ext brk n' f' m) as Hp.
  { intros n n' f f' m Hn Hf []. split; try setoid_rewrite <-Hn; try setoid_rewrite <-Hf; eauto. }
  intros n n' Hn f f' Hf m ? <-. split; apply Hp; try done.
Qed.

(** ** Shape *)
Record shape (ents : gmap Z shmap_entry_t) (t : shmap_t) (chs : list (list Z)) (fr : list Z) : Prop := {
  sh_max : 0 ≤ ht_max t < 2 ^ 32 - 1;
  sh_form : ∃ k, 0 ≤ k ∧ ht_max t = u32 (15 * 2 ^ k);
  sh_len : length (ht_array t) = Z.to_nat (ht_max t + 1);
  sh_chains : Forall2 (chain e_next ents) (ht_array t) chs;
  sh_free : chain e_next ents (ht_free t) fr;
  sh_idx i l a e : chs !! i = Some l → a ∈ l → ents !! a = Some e → i = Z.to_nat (Z.land (e_hash e) (ht_max t));
}.

Definition shmap_ok (s : hst) (ext : gmap Z (list byte)) (m : gmap key_t aval) : Prop :=
  ∃ t chs fr, hs_map s = Some t ∧ shape (hs_ents s) t chs fr ∧
    cells_ok (cont <$> hs_ents s) (hs_blks s) ext (hs_brk s) (concat chs) fr m ∧
    ht_count t = u32 (zlen (concat chs)).

(** ** Updates of the contents *)
Section cells.
Context (cs : gmap Z cell) (blks ext : gmap Z (list byte)) (brk : Z) (nodes fr : list Z) (m : gmap key_t aval).
Hypothesis OK : cells_ok cs blks ext brk nodes fr m.

Lemma node_cell a : a ∈ nodes → ∃ c, cs !! a = Some c.
Proof. intros Ha. apply OK. set_solver. Qed.

Lemma node_lookup k : (∃ v, m !! k = Some v) ↔ ∃ a c, a ∈ nodes ∧ cs !! a = Some c ∧ c_key c = Some k.
Proof.
  split; [intros [v Hv]; by eapply co_map|].
  intros (a & c & Ha & Hc & Hk). destruct (co_node _ _ _ _ _ _ _ OK a c Ha Hc) as (k' & ? & _ & _ & v & ? & _).
  simplify_eq. eauto.
Qed.

Lemma nodes_size : (length nodes = size m)%nat.
Proof.
  set (ks := omap (λ a, cs !! a ≫= c_key) nodes).
  assert (∀ n, (∀ a, a ∈ n → a ∈ nodes) → length (omap (λ a, cs !! a ≫= c_key) n) = length n) as Hlen.
  { induction n as [|a n IH]; intros Hs; [done|]. simpl.
    destruct (node_cell a) as [c Hc]; [apply Hs; by left|].
    destruct (co_node _ _ _ _ _ _ _ OK a c) as (k & Hk & _); [apply Hs; by left|done|].
    rewrite Hc. simpl. rewrite Hk. simpl. f_equal. apply IH. intros b Hb. apply Hs. by right. }
  rewrite <-(Hlen nodes) by done. fold ks. rewrite <-size_dom.
  assert (dom m = list_to_set ks) as ->; [|apply eq_sym, size_list_to_set; subst ks].
  - apply set_eq. intros k. rewrite elem_of_dom. rewrite elem_of_list_to_set. subst ks.
    rewrite list_elem_of_omap. unfold is_Some. rewrite node_lookup. split.
    + intros (a & c & Ha & Hc & Hk). exists a. rewrite Hc. auto.
    + intros (a & Ha & Hk). destruct (cs !! a) as [c|] eqn:Hc; [|done]. eauto.
  - pose proof (co_nodup _ _ _ _ _ _ _ OK) as [Hnd _]%NoDup_app. apply NoDup_omap_inj; [done|].
    intros a b k Ha Hb Hka Hkb. destruct (cs !! a) as [c|] eqn:Hc, (cs !! b) as [d|] eqn:Hd; try done. simpl in *.
    eapply (co_uniq _ _ _ _ _ _ _ OK); eauto. congruence.
Qed.

Lemma cell_val_frame blks' a c :
  a ∈ nodes → cs !! a = Some c → (c_alloc c → blks' !! c_val c = blks !! c_val c) → cell_val blks' c = cell_val blks c.
Proof. intros _ _ Hf. unfold cell_val. destruct (c_alloc c) eqn:E; [|done]. by rewrite Hf. Qed.

(** A new block of another owner. *)
Lemma cells_ext_alloc l :
  cells_ok cs (<[brk := l]> blks) (<[brk := l]> ext) (brk + 1) nodes fr m.
Proof.
  assert (blks !! brk = None) as Hb.
  { destruct (blks !! brk) eqn:E; [|done]. assert (0 < brk < brk); [|lia]. apply OK. eauto. }
  assert (ext !! brk = None) as He.
  { destruct (ext !! brk) eqn:E; [|done]. apply OK in E. congruence. }
  destruct OK. split; auto.
  - intros a [Ha|Ha]; [pose proof (co_brk0 a (or_introl Ha)); lia|].
    destruct (decide (a = brk)) as [->|]; [lia|]. rewrite lookup_insert_ne in Ha by done.
    pose proof (co_brk0 a (or_intror Ha)). lia.
  - lia.
  - intros a c Ha Hc. destruct (co_node0 a c Ha Hc) as (k & ? & ? & ? & v & ? & Hv). exists k. split_and!; [done..|].
    exists v. split; [done|]. rewrite <-Hv. apply (cell_val_frame _ a); [done..|]. intros Hal.
    apply lookup_insert_ne. intros E. destruct (cell_val_alloc _ _ _ Hv Hal) as (b & ? & _). congruence.
  - intros a c Ha Hc Hal. rewrite lookup_insert_ne; [by eapply co_ext0|]. intros E.
    destruct (co_node0 a c Ha Hc) as (? & _ & _ & _ & v & _ & Hv).
    destruct (cell_val_alloc _ _ _ Hv Hal) as (b & ? & _). congruence.
  - intros p l' Hp. destruct (decide (p = brk)) as [->|].
    + by rewrite lookup_insert_eq in *.
    + rewrite lookup_insert_ne in * by done. auto.
  - intros p Hp. destruct (decide (p = brk)) as [->|].
    + left. rewrite lookup_insert_eq. eauto.
    + rewrite lookup_insert_ne in * by done. auto.
Qed.

(** A block of another owner is released by it. *)
Definition drop_blk (c : cell) (b : gmap Z (list byte)) : gmap Z (list byte) :=
  if c_alloc c then delete (c_val c) b else b.

Lemma drop_blk_None c p : c_alloc c → c_val c = p → drop_blk c blks !! p = None.
Proof. unfold drop_blk. intros H <-. destruct (c_alloc c); [|done]. apply lookup_delete_eq. Qed.
Lemma drop_blk_ne c p : (c_alloc c → c_val c ≠ p) → drop_blk c blks !! p = blks !! p.
Proof. unfold drop_blk. intros H. destruct (c_alloc c); [|done]. apply lookup_delete_ne. auto. Qed.
Lemma drop_blk_is_Some c p : is_Some (drop_blk c blks !! p) → is_Some (blks !! p).
Proof.
  unfold drop_blk. destruct (c_alloc c); [|done]. intros [l H]. apply lookup_delete_Some in H as [_ H]. eauto.
Qed.
(** The blocks of the other nodes are not the one that is dropped. *)
Lemma drop_blk_other a b c d :
  a ∈ nodes → b ∈ nodes → a ≠ b → cs !! a = Some c → cs !! b = Some d →
  c_alloc d → drop_blk c blks !! c_val d = blks !! c_val d.
Proof.
  intros Ha Hb Hab Hc Hd Hal. apply drop_blk_ne. intros Hal' E. apply Hab. by eapply (co_own _ _ _ _ _ _ _ OK).
Qed.
Lemma drop_blk_ext a c p l : a ∈ nodes → cs !! a = Some c → ext !! p = Some l → drop_blk c blks !! p = Some l.
Proof.
  intros Ha Hc Hp. rewrite drop_blk_ne; [by eapply (co_ext_sub _ _ _ _ _ _ _ OK)|].
  intros Hal <-. pose proof (co_ext _ _ _ _ _ _ _ OK a c Ha Hc Hal). congruence.
Qed.

(** A new entry, on a recycled address or a fresh one. *)
Lemma cells_add a brk' fr' k val :
  m !! k = None → val ≠ 0 → NoDup ((a :: nodes) ++ fr') → (∀ b, b ≠ a → b ∈ nodes ++ fr ↔ b ∈ nodes ++ fr') →
  0 < a < brk' → brk ≤ brk' →
  cells_ok (<[a := Cell (shmap_hash_num k) (Some k) val 0 0]> cs) blks ext brk' (a :: nodes) fr'
    (<[k := AVal 0 0 (inl val)]> m).
Proof.
  intros Hk Hval Hnd Hdom Ha Hbrk. assert (a ∉ nodes) as Han by (apply NoDup_cons in Hnd as [? _]; set_solver).
  pose proof OK as [? Hd Hb ? Hn Hm Hu Ho He Hs Hbl].
  assert (∀ b, b ∈ nodes → b ≠ a) as Hne by (by intros b Hb' ->).
  split; [done|..].
  - intros b. destruct (decide (b = a)) as [->|Hba].
    + rewrite lookup_insert_eq. split; [|eauto]. intros _. left.
    + rewrite lookup_insert_ne, Hd, Hdom by done. simpl. set_solver.
  - intros b Hb'. destruct (decide (b = a)) as [->|Hba]; [lia|]. rewrite lookup_insert_ne in Hb' by done.
    pose proof (Hb b Hb'). lia.
  - lia.
  - intros b c Hb' Hc. destruct (decide (b = a)) as [->|Hba].
    + rewrite lookup_insert_eq in Hc. simplify_eq. exists k. split_and!; [done..|].
      eexists. rewrite lookup_insert_eq. done.
    + rewrite lookup_insert_ne in Hc by done. assert (b ∈ nodes) as Hbn by set_solver.
      destruct (Hn b c Hbn Hc) as (k' & ? & ? & ? & v & Hv & ?). exists k'. split_and!; [done..|]. exists v.
      rewrite lookup_insert_ne by congruence. done.
  - intros k' v Hv. destruct (decide (k' = k)) as [->|Hkk].
    + exists a. eexists. rewrite lookup_insert_eq. split; [left|done].
    + rewrite lookup_insert_ne in Hv by done. destruct (Hm k' v Hv) as (b & c & ? & ? & ?).
      exists b, c. rewrite lookup_insert_ne by (apply not_eq_sym; auto). split; [by right|done].
  - assert (∀ b d, b ∈ nodes → cs !! b = Some d → c_key d ≠ Some k) as Hfresh.
    { intros b d Hbn Hd' E. destruct (Hn b d Hbn Hd') as (k' & ? & _ & _ & v & ? & _). congruence. }
    intros b b' c d Hb' Hb'' Hc Hd' Hkk. apply elem_of_cons in Hb', Hb''.
    destruct Hb' as [->|Hb'], Hb'' as [->|Hb'']; [done|..].
    + rewrite lookup_insert_eq in Hc. rewrite lookup_insert_ne in Hd' by (apply not_eq_sym; auto). simplify_eq.
      exfalso. by eapply (Hfresh b' d).
    + rewrite lookup_insert_eq in Hd'. rewrite lookup_insert_ne in Hc by (apply not_eq_sym; auto). simplify_eq.
      exfalso. by eapply (Hfresh b c).
    + rewrite lookup_insert_ne in Hc, Hd' by (apply not_eq_sym; auto). by eapply Hu.
  - intros b b' c d Hb' Hb'' Hc Hd' Hac Had E. apply elem_of_cons in Hb', Hb''.
    destruct Hb' as [->|Hb'], Hb'' as [->|Hb'']; [done|..].
    + rewrite lookup_insert_eq in Hc. by simplify_eq.
    + rewrite lookup_insert_eq in Hd'. by simplify_eq.
    + rewrite lookup_insert_ne in Hc, Hd' by (apply not_eq_sym; auto). by eapply Ho.
  - intros b c Hb' Hc Hac. apply elem_of_cons in Hb' as [->|Hb'].
    + rewrite lookup_insert_eq in Hc. by simplify_eq.
    + rewrite lookup_insert_ne in Hc by (apply not_eq_sym; auto). by eapply He.
  - done.
  - intros p Hp. destruct (Hbl p Hp) as [?|(b & c & ? & ? & ?)]; [by left|]. right. exists b, c.
    rewrite lookup_insert_ne by (apply not_eq_sym; auto). split; [by right|done].
Qed.

(** The value of an entry is replaced; a copied block is taken over from [ext]. *)
Lemma cells_replace a c k data sz flag l :
  a ∈ nodes → cs !! a = Some c → c_key c = Some k → data ≠ 0 →
  (Z.testbit flag 0 → ext !! data = Some l) →
  cells_ok (<[a := Cell (c_hash c) (Some k) data sz flag]> cs) (drop_blk c blks)
    (if Z.testbit flag 0 then delete data ext else ext) brk nodes fr
    (<[k := AVal flag sz (if Z.testbit flag 0 then inr l else inl data)]> m).
Proof.
  intros Ha Hc Hk Hdata Hext. set (c' := Cell _ _ _ _ _). set (v := AVal _ _ _).
  set (ext' := if Z.testbit flag 0 then _ else _).
  assert (∀ p x, ext' !! p = Some x → ext !! p = Some x) as Hsub.
  { intros p x. unfold ext'. destruct (Z.testbit flag 0); [|done]. by intros [_ ?]%lookup_delete_Some. }
  pose proof OK as [? Hd Hb ? Hn Hm Hu Ho He Hs Hbl]. split; [done|..].
  - intros b. destruct (decide (b = a)) as [->|Hba]; [|by rewrite lookup_insert_ne].
    rewrite lookup_insert_eq, <-Hd, Hc. by split; eauto.
  - intros b Hb'. apply Hb. destruct (decide (b = a)) as [->|Hba]; [rewrite Hc; eauto|].
    rewrite lookup_insert_ne in Hb' by done. destruct Hb' as [?|?%drop_blk_is_Some]; auto.
  - done.
  - intros b d Hbn Hd'. destruct (decide (b = a)) as [->|Hba].
    + rewrite lookup_insert_eq in Hd'. injection Hd' as <-. exists k.
      destruct (Hn a c Ha Hc) as (k' & Hk' & Hh & _). rewrite Hk in Hk'. injection Hk' as <-. split_and!; [done..|]. exists v. rewrite lookup_insert_eq. split; [done|]. subst c' v.
      unfold cell_val, c_alloc. cell_simpl. destruct (Z.testbit flag 0) eqn:Ef; [|done].
      by rewrite (drop_blk_ext a c data l) by auto.
    + rewrite lookup_insert_ne in Hd' by done. destruct (Hn b d Hbn Hd') as (k' & ? & ? & ? & w & Hw & Hcv).
      exists k'. split_and!; [done..|]. exists w. rewrite lookup_insert_ne.
      * split; [done|]. rewrite <-Hcv. apply (cell_val_frame _ b); [done..|]. intros. by apply (drop_blk_other a b).
      * intros ->. apply Hba. apply (Hu b a d c); [done..|congruence].
  - intros k' w Hw. destruct (decide (k' = k)) as [->|Hkk].
    + exists a, c'. by rewrite lookup_insert_eq.
    + rewrite lookup_insert_ne in Hw by done. destruct (Hm k' w Hw) as (b & d & ? & ? & ?). exists b, d.
      rewrite lookup_insert_ne; [done|]. intros <-. congruence.
  - assert (∀ b d, <[a := c']> cs !! b = Some d → ∃ d0, cs !! b = Some d0 ∧ c_key d0 = c_key d) as Hsame.
    { intros b d Hd'. destruct (decide (b = a)) as [->|Hba].
      - rewrite lookup_insert_eq in Hd'. injection Hd' as <-. by exists c.
      - rewrite lookup_insert_ne in Hd' by done. eauto. }
    intros b b' x y Hbn Hbn' Hx Hy Hxy. destruct (Hsame _ _ Hx) as (x0 & ? & ?), (Hsame _ _ Hy) as (y0 & ? & ?).
    eapply Hu; [exact Hbn|exact Hbn'|done|done|congruence].
  - assert (∀ b d, b ∈ nodes → b ≠ a → cs !! b = Some d → c_alloc d → Z.testbit flag 0 → c_val d ≠ data) as Hx.
    { intros b d Hbn _ Hd' Hal Hf E. pose proof (He b d Hbn Hd' Hal). pose proof (Hext Hf). congruence. }
    intros b b' x y Hbn Hbn' Hxc Hyc Hax Hay E.
    destruct (decide (b = a)) as [->|Hba], (decide (b' = a)) as [->|Hba']; [done|..].
    + rewrite lookup_insert_eq in Hxc. rewrite lookup_insert_ne in Hyc by done. injection Hxc as <-.
      exfalso. by eapply (Hx b' y).
    + rewrite lookup_insert_eq in Hyc. rewrite lookup_insert_ne in Hxc by done. injection Hyc as <-.
      exfalso. by eapply (Hx b x).
    + rewrite lookup_insert_ne in Hxc, Hyc by done. by eapply Ho.
  - intros b d Hbn Hd' Hal. destruct (decide (b = a)) as [->|Hba].
    + rewrite lookup_insert_eq in Hd'. injection Hd' as <-. unfold ext', c', c_alloc in *. cell_simpl in Hal.
      destruct (Z.testbit flag 0); [apply lookup_delete_eq|done].
    + rewrite lookup_insert_ne in Hd' by done. pose proof (He b d Hbn Hd' Hal) as HN.
      destruct (ext' !! c_val d) eqn:E; [|done]. apply Hsub in E. congruence.
  - intros p x Hp. eapply drop_blk_ext; eauto.
  - intros p Hp. pose proof (drop_blk_is_Some _ _ Hp) as Hp'. destruct (Hbl p Hp') as [[x Hx]|(b & d & Hbn & Hd' & Hal & E)].
    + unfold ext'. destruct (Z.testbit flag 0) eqn:Ef; [|left; eauto].
      destruct (decide (p = data)) as [->|Hpd]; [|left; rewrite lookup_delete_ne by done; eauto].
      right. exists a, c'. rewrite lookup_insert_eq. unfold c_alloc, c'. cell_simpl. rewrite Ef. done.
    + destruct (decide (b = a)) as [->|Hba].
      * simplify_eq. rewrite drop_blk_None in Hp by done. by destruct Hp.
      * right. exists b, d. rewrite lookup_insert_ne by done. done.
Qed.

(** An entry is removed and its address recycled. *)
Lemma cells_remove a c k nodes' h :
  nodes ≡ₚ a :: nodes' → cs !! a = Some c → c_key c = Some k →
  cells_ok (<[a := Cell h None 0 0 0]> cs) (drop_blk c blks) ext brk nodes' (a :: fr) (delete k m).
Proof.
  intros Hp Hc Hk. pose proof OK as [Hnd Hd Hb ? Hn Hm Hu Ho He Hs Hbl].
  assert (nodes ++ fr ≡ₚ nodes' ++ a :: fr) as Hperm by (rewrite Hp; simpl; apply Permutation_middle).
  assert (a ∈ nodes) as Ha by (rewrite Hp; left).
  assert (∀ b, b ∈ nodes' → b ∈ nodes ∧ b ≠ a) as Hne.
  { intros b Hbn. rewrite Hp. split; [by right|]. intros ->. rewrite Hperm in Hnd.
    apply NoDup_app in Hnd as (_ & Hdis & _). apply (Hdis a Hbn). left. }
  assert (∀ b, b ∈ nodes → b ≠ a → b ∈ nodes') as Hin by (intros b; rewrite Hp; set_solver).
  split.
  - by rewrite <-Hperm.
  - intros b. rewrite <-Hperm. destruct (decide (b = a)) as [->|Hba]; [|by rewrite lookup_insert_ne].
    rewrite lookup_insert_eq, <-Hd, Hc. by split; eauto.
  - intros b Hb'. apply Hb. destruct (decide (b = a)) as [->|Hba]; [rewrite Hc; eauto|].
    rewrite lookup_insert_ne in Hb' by done. destruct Hb' as [?|?%drop_blk_is_Some]; auto.
  - done.
  - intros b d Hbn Hd'. destruct (Hne b Hbn) as [Hbn' Hba]. rewrite lookup_insert_ne in Hd' by done.
    destruct (Hn b d Hbn' Hd') as (k' & ? & ? & ? & w & Hw & Hcv).
    exists k'. split_and!; [done..|]. exists w. rewrite lookup_delete_ne.
    + split; [done|]. rewrite <-Hcv. apply (cell_val_frame _ b); [done..|]. intros. by apply (drop_blk_other a b).
    + intros ->. apply Hba. apply (Hu b a d c); [done..|congruence].
  - intros k' w [Hkk Hw]%lookup_delete_Some. destruct (Hm k' w Hw) as (b & d & ? & ? & ?). exists b, d.
    assert (b ≠ a) by (intros ->; congruence). rewrite lookup_insert_ne by done. auto.
  - intros b b' x y [Hbn Hba]%Hne [Hbn' Hba']%Hne. rewrite !lookup_insert_ne by done. by apply Hu.
  - intros b b' x y [Hbn Hba]%Hne [Hbn' Hba']%Hne. rewrite !lookup_insert_ne by done. by apply Ho.
  - intros b x [Hbn Hba]%Hne. rewrite !lookup_insert_ne by done. by apply He.
  - intros p x Hx. eapply drop_blk_ext; eauto.
  - intros p Hpp. pose proof (drop_blk_is_Some _ _ Hpp) as Hp'.
    destruct (Hbl p Hp') as [?|(b & d & Hbn & Hd' & Hal & E)]; [by left|].
    destruct (decide (b = a)) as [->|Hba].
    + simplify_eq. rewrite drop_blk_None in Hpp by done. by destruct Hpp.
    + right. exists b, d. rewrite lookup_insert_ne by done. auto.
Qed.
End cells.
