(* ===== verification/ShmapOps.v ===== *)
(** * Operations of the hash map

    Each operation of Shmap.v keeps [shmap_ok], and changes the finite map it
    stands for as the operation of its name should. *)

From S2P Require Import Prelude Errors Shbuf Crc Links Shmap ShmapInv.

(** ** Buckets *)
Lemma concat_split {A} (chs : list (list A)) i l :
  chs !! i = Some l → ∃ L R, concat chs = L ++ l ++ R ∧ ∀ l', concat (<[i := l']> chs) = L ++ l' ++ R.
Proof.
  intros Hi. exists (concat (take i chs)), (concat (drop (S i) chs)). split.
  - rewrite <-(take_drop_middle chs i l Hi) at 1. by rewrite concat_app.
  - intros l'. rewrite insert_take_drop by (by eapply lookup_lt_Some). by rewrite concat_app.
Qed.

Lemma bucket_disjoint (chs : list (list Z)) i j l l' a :
  NoDup (concat chs) → chs !! i = Some l → chs !! j = Some l' → i ≠ j → a ∈ l → a ∉ l'.
Proof.
  intros Hnd Hi Hj Hij Ha Ha'.
  destruct (concat_split chs i l Hi) as (L & R & E & E').
  assert (a ∈ concat (<[i := []]> chs)) as Hin.
  { apply list_elem_of_In, in_concat. exists l'. split; [|by apply list_elem_of_In].
    apply list_elem_of_In, list_elem_of_lookup. exists j. by rewrite list_lookup_insert_ne. }
  rewrite E' in Hin. rewrite E in Hnd. simpl in Hin. apply elem_of_app in Hin.
  apply NoDup_app in Hnd as (_ & HL & Hnd). apply NoDup_app in Hnd as (_ & HR & _).
  destruct Hin as [Hin|Hin]; [apply (HL a Hin); set_solver|by apply (HR a)].
Qed.

Lemma bucket_elem (chs : list (list Z)) i l a : chs !! i = Some l → a ∈ l → a ∈ concat chs.
Proof. intros Hi Ha. destruct (concat_split chs i l Hi) as (L & R & -> & _). set_solver. Qed.

(** One bucket changes, the others keep their nodes. *)
Lemma chains_update ents ents' arr chs i p l l' :
  Forall2 (chain e_next ents) arr chs → NoDup (concat chs) → chs !! i = Some l →
  (∀ b, b ∈ concat chs → b ∉ l → ents' !! b = ents !! b) →
  chain e_next ents' p l' → Forall2 (chain e_next ents') (<[i := p]> arr) (<[i := l']> chs).
Proof.
  intros Hc Hnd Hi Hf Hp. pose proof (Forall2_length _ _ _ Hc). pose proof (lookup_lt_Some _ _ _ Hi).
  apply Forall2_lookup. intros j. destruct (decide (j = i)) as [->|Hij].
  - rewrite !list_lookup_insert_eq by lia. by constructor.
  - rewrite !list_lookup_insert_ne by done.
    destruct (arr !! j) as [q|] eqn:Eq, (chs !! j) as [lj|] eqn:Ej.
    + constructor. eapply lseg_frame; [exact (Forall2_lookup_lr _ _ _ _ _ _ Hc Eq Ej)|]. intros b Hb. apply Hf; [by eapply bucket_elem|].
      by eapply (bucket_disjoint chs j i).
    + apply lookup_lt_Some in Eq. apply lookup_ge_None in Ej. lia.
    + apply lookup_lt_Some in Ej. apply lookup_ge_None in Eq. lia.
    + constructor.
Qed.

(** ** Links *)
Definition link (i : Z) (l1 : list Z) : slot :=
  match last l1 with None => SArr i | Some p => SNext p end.

Lemma link_snoc i l a : link i (l ++ [a]) = SNext a.
Proof. unfold link. by rewrite last_snoc. Qed.

Lemma chain_head ents p l : chain e_next ents p l → p = default 0 (head l).
Proof. destruct l; simpl; [done|]. by intros (-> & _). Qed.

Section ops.
Context `{Heap}.

Lemma swp_ent_load p e (s : hst) (Q : _ → _ → Prop) : hs_ents s !! p = Some e → Q e s → swp (ent_load p) s Q.
Proof. intros. by eapply swp_opt. Qed.
Lemma swp_get_ht t (s : hst) (Q : _ → _ → Prop) : hs_map s = Some t → Q t s → swp get_ht s Q.
Proof. intros. by eapply swp_opt. Qed.
Lemma swp_ent_store p e e' (s : hst) (Q : _ → _ → Prop) : hs_ents s !! p = Some e →
  Q tt (HSt (<[p := e']> (hs_ents s)) (hs_blks s) (hs_brk s) (hs_map s)) → swp (ent_store p e') s Q.
Proof. intros. apply swp_bind. eapply swp_ent_load; [done|]. by apply swp_mod. Qed.
Lemma swp_put_ht t (s : hst) (Q : _ → _ → Prop) :
  Q tt (HSt (hs_ents s) (hs_blks s) (hs_brk s) (Some t)) → swp (put_ht t) s Q.
Proof. intros ?. by apply swp_mod. Qed.

Lemma slot_load_link s t i p l1 l2 (Q : _ → _ → Prop) :
  hs_map s = Some t → ht_array t !! Z.to_nat i = Some p → chain e_next (hs_ents s) p (l1 ++ l2) →
  Q (default 0 (head l2)) s → swp (slot_load (link i l1)) s Q.
Proof.
  intros Ht Hp Hc HQ. destruct l1 as [|a l1 _] using rev_ind.
  - simpl. swp_steps. eapply swp_get_ht; [done|]. eapply swp_opt; [done|]. by rewrite (chain_head _ _ _ Hc).
  - rewrite link_snoc. rewrite <-app_assoc in Hc. apply lseg_mid in Hc as (e & He & _ & Hc).
    simpl. swp_steps. eapply swp_ent_load; [done|]. swp_steps. by rewrite (chain_head _ _ _ Hc).
Qed.

(** Storing to a link: the part before it now leads to the stored pointer. *)
Lemma slot_store_link s t i p l1 l2 v (Q : _ → _ → Prop) :
  hs_map s = Some t → ht_array t !! Z.to_nat i = Some p → chain e_next (hs_ents s) p (l1 ++ l2) →
  (∀ ents' p', cont <$> ents' = cont <$> hs_ents s → (∀ b, b ∉ l1 → ents' !! b = hs_ents s !! b) →
     lseg e_next ents' p' l1 v →
     Q tt (HSt ents' (hs_blks s) (hs_brk s) (Some (set_array t (<[Z.to_nat i := p']> (ht_array t)))))) →
  swp (slot_store (link i l1) v) s Q.
Proof.
  intros Ht Hp Hc HQ. destruct l1 as [|a l1 _] using rev_ind.
  - simpl. swp_steps. eapply swp_get_ht; [done|]. swp_steps. eapply swp_opt; [done|]. apply swp_put_ht. by apply HQ.
  - pose proof (chain_NoDup _ _ _ _ Hc) as Hnd. rewrite link_snoc. rewrite <-app_assoc in Hc.
    assert (a ∉ l1) as Ha.
    { rewrite <-app_assoc in Hnd. apply NoDup_app in Hnd as (_ & Hd & _). intros Ha. apply (Hd a Ha). set_solver. }
    pose proof Hc as (e & He & H1 & H2)%lseg_mid.
    simpl. swp_steps. eapply swp_ent_load; [done|]. eapply swp_ent_store; [done|]. rewrite Ht.
    assert (lseg e_next (<[a := ent_set_next e v]> (hs_ents s)) p (l1 ++ [a]) v) as Hl.
    { eapply (lseg_relink _ _ _ _ _ _ (e_next e)); [done..| |done].
      apply lseg_app. exists a. split; [done|]. simpl. split_and!; [done| |eauto].
      by eapply (lseg_lookup _ _ _ _ _ a Hc), elem_of_app; right; left. }
    assert (set_array t (<[Z.to_nat i := p]> (ht_array t)) = t) as E.
    { rewrite list_insert_id by done. by destruct t. }
    rewrite <-E. apply HQ; [| |done].
    + apply map_eq. intros b. rewrite !lookup_fmap. destruct (decide (b = a)) as [->|].
      * by rewrite lookup_insert_eq, He.
      * by rewrite lookup_insert_ne.
    + intros b Hb. apply lookup_insert_ne. set_solver.
Qed.

(** ** Search *)
Lemma scan_list_spec fuel s t i p key l1 l2 (Q : _ → _ → Prop) :
  hs_map s = Some t → ht_array t !! Z.to_nat i = Some p → chain e_next (hs_ents s) p (l1 ++ l2) →
  (length l2 ≤ fuel)%nat →
  (∀ a e, a ∈ l2 → hs_ents s !! a = Some e → ∃ k, e_key e = Some k ∧ e_hash e = shmap_hash_num k) →
  (∀ l3 l4, l2 = l3 ++ l4 →
     (∀ a e, a ∈ l3 → hs_ents s !! a = Some e → e_key e ≠ Some key) →
     (∀ a l5 e, l4 = a :: l5 → hs_ents s !! a = Some e → e_key e = Some key) →
     Q (link i (l1 ++ l3), default 0 (head l4)) s) →
  swp (scan_list fuel (shmap_hash_num key) key (link i l1)) s Q.
Proof.
  revert l1 l2. induction fuel as [|fuel IH]; intros l1 l2 Ht Hp Hc Hlen Hk HQ;
    (destruct l2 as [|a l2]; simpl in Hlen; [|try lia]); cbn [scan_list].
  1,2: apply swp_bind; eapply slot_load_link; [done..|]; apply swp_ret; rewrite <-(app_nil_r l1);
    apply (HQ [] []); [done|by intros ?? ?%elem_of_nil|done].
  apply swp_bind. eapply slot_load_link; [done..|]. cbn beta iota delta [head from_option id].
  destruct (lseg_lookup _ _ _ _ _ a Hc) as [Ha0 _]; [set_solver|].
  rewrite (proj2 (Z.eqb_neq a 0) Ha0). pose proof Hc as (e & He & _ & _)%lseg_mid.
  apply swp_bind. eapply swp_ent_load; [done|]. destruct (Hk a e) as (k & Hek & Heh); [left|done|].
  apply swp_bind. rewrite Heh.
  assert (∀ b : bool, b = bool_decide (k = key) → swp (if b then mret (link i l1, a) else
      scan_list fuel (shmap_hash_num key) key (SNext a)) s Q) as Hrest.
  { intros b ->. case_bool_decide as Hkk.
    - subst k. apply swp_ret. rewrite <-(app_nil_r l1) at 1. apply (HQ [] (a :: l2)); [done|set_solver|].
      intros ? ? ? [= <- <-] ?. congruence.
    - rewrite <-(link_snoc i l1 a). apply (IH (l1 ++ [a]) l2); [done..| |lia| |].
      + by rewrite <-app_assoc.
      + intros b e' Hb. apply Hk. by right.
      + intros l3 l4 -> H3 H4. rewrite <-app_assoc. apply (HQ (a :: l3) l4); [done| |done].
        intros b e' [->|Hb]%elem_of_cons He'; [congruence|by eapply H3]. }
  destruct (Z.eqb_spec (shmap_hash_num k) (shmap_hash_num key)) as [E|E].
  - apply swp_bind. eapply swp_opt; [done|]. apply swp_ret. by apply Hrest.
  - apply swp_ret. apply (Hrest false). symmetry. apply bool_decide_eq_false. congruence.
Qed.

(** ** The bucket of a key *)
Lemma hash_range key : 0 ≤ shmap_hash_num key < 2 ^ 32.
Proof.
  unfold shmap_hash_num. destruct key as [|b key _] using rev_ind; [done|].
  rewrite foldl_app. simpl. apply u32_range.
Qed.
Lemma land_max h max : 0 ≤ h → 0 ≤ max → 0 ≤ Z.land h max ≤ max.
Proof.
  intros ??. apply Z.ldiff_le; [done|]. apply Z.bits_inj'. intros n ?.
  rewrite Z.ldiff_spec, Z.land_spec, Z.bits_0. by destruct (Z.testbit h n), (Z.testbit max n).
Qed.

Definition bucket (t : shmap_t) (key : list byte) : Z := Z.land (shmap_hash_num key) (ht_max t).

Section found.
Context (s : hst) (t : shmap_t) (chs : list (list Z)) (fr : list Z) (ext : gmap Z (list byte)) (m : gmap (list byte) aval).
Hypothesis Ht : hs_map s = Some t.
Hypothesis Hsh : shape (hs_ents s) t chs fr.
Hypothesis Hco : cells_ok (cont <$> hs_ents s) (hs_blks s) ext (hs_brk s) (concat chs) fr m.

Lemma ent_cell a e : hs_ents s !! a = Some e → (cont <$> hs_ents s) !! a = Some (cont e).
Proof. intros He. by rewrite lookup_fmap, He. Qed.
Lemma cell_ent a c : (cont <$> hs_ents s) !! a = Some c → ∃ e, hs_ents s !! a = Some e ∧ c = cont e.
Proof. rewrite lookup_fmap. destruct (hs_ents s !! a); simpl; naive_solver. Qed.

Lemma bucket_lookup key : ∃ p l, ht_array t !! Z.to_nat (bucket t key) = Some p ∧
  chs !! Z.to_nat (bucket t key) = Some l ∧ chain e_next (hs_ents s) p l.
Proof.
  pose proof (sh_max _ _ _ _ Hsh) as Hmax. pose proof (sh_len _ _ _ _ Hsh) as Hlen.
  pose proof (sh_chains _ _ _ _ Hsh) as Hch. pose proof (hash_range key).
  destruct (land_max (shmap_hash_num key) (ht_max t)) as [? ?]; [lia..|]. fold (bucket t key) in *.
  destruct (lookup_lt_is_Some_2 (ht_array t) (Z.to_nat (bucket t key))) as [p Hp]; [lia|].
  destruct (Forall2_lookup_l _ _ _ _ _ Hch Hp) as (l & Hl & Hc). eauto.
Qed.

Lemma bucket_node a e i l : chs !! i = Some l → a ∈ l → hs_ents s !! a = Some e →
  ∃ k v, e_key e = Some k ∧ e_hash e = shmap_hash_num k ∧ e_val e ≠ 0 ∧ m !! k = Some v ∧
         cell_val (hs_blks s) (cont e) = Some v ∧ i = Z.to_nat (bucket t k).
Proof.
  intros Hi Ha He. destruct (co_node _ _ _ _ _ _ _ Hco a (cont e)) as (k & Hk & Hh & Hv & v & Hm & Hc).
  { by eapply bucket_elem. } { by apply ent_cell. }
  exists k, v. split_and!; try done. unfold bucket. simpl in Hh. rewrite <-Hh. by eapply (sh_idx _ _ _ _ Hsh).
Qed.

Lemma map_bucket key v l : m !! key = Some v → chs !! Z.to_nat (bucket t key) = Some l →
  ∃ a e, a ∈ l ∧ hs_ents s !! a = Some e ∧ e_key e = Some key.
Proof.
  intros Hv Hl. destruct (co_map _ _ _ _ _ _ _ Hco key v Hv) as (a & c & Ha & Hc & Hk).
  apply cell_ent in Hc as (e & He & ->). exists a, e. split; [|done].
  apply list_elem_of_In, in_concat in Ha as (l' & Hl' & Ha). apply list_elem_of_In in Hl', Ha.
  apply list_elem_of_lookup in Hl' as [j Hj]. destruct (bucket_node a e j l') as (k & w & Hk' & _ & _ & _ & _ & Ej); [done..|].
  simpl in Hk. rewrite Hk in Hk'. injection Hk' as <-. subst j. congruence.
Qed.

(** A search returns the link to the entry of the key, or the end of its list. *)
Lemma scan_spec key (Q : _ → _ → Prop) :
  (∀ p l1 l2, ht_array t !! Z.to_nat (bucket t key) = Some p → chs !! Z.to_nat (bucket t key) = Some (l1 ++ l2) →
     chain e_next (hs_ents s) p (l1 ++ l2) →
     match l2 with
     | [] => m !! key = None
     | a :: _ => ∃ e, hs_ents s !! a = Some e ∧ e_key e = Some key
     end →
     Q (link (bucket t key) l1, default 0 (head l2)) s) →
  swp (scan_list (size (hs_ents s)) (shmap_hash_num key) key (SArr (bucket t key))) s Q.
Proof.
  intros HQ. destruct (bucket_lookup key) as (p & l & Hp & Hl & Hc).
  apply (scan_list_spec _ s t (bucket t key) p key [] l); [done..| | |].
  { by eapply chain_size. }
  { intros a e Ha He. destruct (bucket_node a e _ _ Hl Ha He) as (k & _ & ? & ? & _). eauto. }
  intros l3 l4 -> H3 H4. apply (HQ p); [done..|]. destruct l4 as [|a l4].
  - destruct (m !! key) as [v|] eqn:Hv; [|done]. destruct (map_bucket key v _ Hv Hl) as (a & e & Ha & He & Hk).
    rewrite app_nil_r in Ha. by destruct (H3 a e).
  - pose proof Hc as (e & He & _)%lseg_mid. exists e. split; [done|]. by eapply H4.
Qed.

Lemma find_spec key (Q : _ → _ → Prop) :
  (∀ p l1 l2, ht_array t !! Z.to_nat (bucket t key) = Some p → chs !! Z.to_nat (bucket t key) = Some (l1 ++ l2) →
     chain e_next (hs_ents s) p (l1 ++ l2) →
     match l2 with
     | [] => m !! key = None
     | a :: _ => ∃ e, hs_ents s !! a = Some e ∧ e_key e = Some key
     end →
     Q (Some (link (bucket t key) l1)) s) →
  swp (find_entry (Some key) 0) s Q.
Proof.
  intros HQ. unfold find_entry. swp_steps. eapply swp_get_ht; [done|]. swp_steps. fold (bucket t key).
  apply scan_spec. intros p l1 l2 Hp Hl Hc Hm. rewrite orb_true_r. apply swp_ret. by eapply HQ.
Qed.

Lemma get_ent_spec key :
  swp (shmap_get_ent (Some key)) s (λ r s', s' = s ∧
    match m !! key with
    | None => r = (0, 0)
    | Some v => r.2 = a_flag v ∧ r.1 ≠ 0 ∧
        match a_data v with
        | inl w => r.1 = w ∧ Z.testbit r.2 0 = false
        | inr b => hs_blks s !! r.1 = Some b ∧ Z.testbit r.2 0 = true
        end
    end).
Proof.
  unfold shmap_get_ent. swp_steps. rewrite Ht. swp_steps. apply find_spec. intros p l1 l2 Hp Hl Hc Hm.
  swp_steps. eapply swp_opt; [done|]. swp_steps. eapply slot_load_link; [done..|]. destruct l2 as [|a l2].
  - rewrite Hm. by apply swp_ret.
  - destruct Hm as (e & He & Hk). cbn beta iota delta [head from_option id].
    destruct (lseg_lookup _ _ _ _ _ a Hc) as [Ha0 _]; [set_solver|]. rewrite (proj2 (Z.eqb_neq a 0) Ha0).
    swp_steps. eapply swp_ent_load; [done|]. apply swp_ret. split; [done|].
    destruct (bucket_node a e _ _ Hl) as (k & v & Hk' & _ & Hv0 & Hv & Hcv & _); [set_solver|done|].
    rewrite Hk in Hk'. injection Hk' as <-. rewrite Hv. unfold cell_val, c_alloc in Hcv.
    cbn [cont c_flag c_val c_sz fst snd] in *. destruct (Z.testbit (e_flag e) 0) eqn:Ef.
    + destruct (hs_blks s !! e_val e) as [b|] eqn:Hb; [|done]. cbn in Hcv. injection Hcv as <-. done.
    + injection Hcv as <-. done.
Qed.
End found.

(** ** Iteration

    [iter_ok ents t chs p R]: the entries still to come, from the pointer [p]
    and the buckets from the iterator's index on, are [R]. *)
Definition iter_ok (ents : gmap Z shmap_entry_t) (t : shmap_t) (chs : list (list Z)) (p : Z) (R : list Z) : Prop :=
  let i := hi_index (ht_iter t) in
  0 ≤ ht_max t < 2 ^ 32 - 1 ∧ length (ht_array t) = Z.to_nat (ht_max t + 1) ∧ length chs = length (ht_array t) ∧
  0 ≤ i ≤ ht_max t + 1 ∧
  ∃ r, chain e_next ents p r ∧ R = r ++ concat (drop (Z.to_nat i) chs) ∧
       Forall2 (chain e_next ents) (drop (Z.to_nat i) (ht_array t)) (drop (Z.to_nat i) chs).

Lemma iter_frame ents ents' t chs p R :
  iter_ok ents t chs p R → (∀ a, a ∈ R → ents' !! a = ents !! a) → iter_ok ents' t chs p R.
Proof.
  intros (? & ? & ? & ? & r & Hr & -> & Hc) Hf. unfold iter_ok. cbv zeta.
  do 4 (split; [done|]). exists r. split_and!; [|done|].
  - eapply lseg_frame; [done|]. intros a Ha. apply Hf. set_solver.
  - apply Forall2_lookup. intros j. pose proof (Forall2_length _ _ _ Hc) as Hlen.
    destruct (drop _ (ht_array t) !! j) as [q|] eqn:Eq, (drop _ chs !! j) as [l|] eqn:El.
    + constructor. eapply lseg_frame; [exact (Forall2_lookup_lr _ _ _ _ _ _ Hc Eq El)|]. intros a Ha. apply Hf.
      apply elem_of_app. right. by eapply bucket_elem.
    + apply lookup_lt_Some in Eq. apply lookup_ge_None in El. lia.
    + apply lookup_lt_Some in El. apply lookup_ge_None in Eq. lia.
    + constructor.
Qed.

Lemma set_iter_id s t : hs_map s = Some t → s = HSt (hs_ents s) (hs_blks s) (hs_brk s) (Some (set_iter t (ht_iter t))).
Proof. destruct s. simpl. intros ->. by destruct t. Qed.

Definition next_post (s : hst) (t : shmap_t) (chs : list (list Z)) (R : list Z) (b : bool) (s' : hst) : Prop :=
  ∃ it, s' = HSt (hs_ents s) (hs_blks s) (hs_brk s) (Some (set_iter t it)) ∧
    match R with
    | [] => b = false
    | a :: R' => b = true ∧ hi_tthis it = a ∧ iter_ok (hs_ents s) (set_iter t it) chs (hi_next it) R'
    end.

Lemma next_loop_spec fuel s t chs R :
  hs_map s = Some t → iter_ok (hs_ents s) t chs (hi_tthis (ht_iter t)) R →
  ht_max t + 1 - hi_index (ht_iter t) ≤ Z.of_nat fuel → swp (next_loop fuel) s (next_post s t chs R).
Proof.
  revert s t R. induction fuel as [|fuel IH]; intros s t R Ht Hit Hfuel;
    destruct Hit as (Hmax & Hlen & Hlc & Hi & r & Hr & -> & Hc); cbn [next_loop];
    apply swp_bind; (eapply swp_get_ht; [done|]); cbv zeta;
    (destruct (Z.eqb_spec (hi_tthis (ht_iter t)) 0) as [E|E]; cbn [negb]).
  2, 4: destruct (chain_cons _ _ _ _ E Hr) as (e & r' & -> & He & Hr'); apply swp_bind;
    (eapply swp_ent_load; [done|]); apply swp_bind, swp_put_ht, swp_ret; eexists; split; [done|]; simpl;
    do 2 (split; [done|]); do 4 (split; [done|]); by exists r'.
  all: rewrite E in Hr; apply chain_0 in Hr as ->; simpl.
  - rewrite (proj2 (Z.ltb_lt (ht_max t) (hi_index (ht_iter t)))) by lia. apply swp_ret.
    exists (ht_iter t). split; [by apply set_iter_id|].
    rewrite drop_ge by lia. done.
  - destruct (Z.ltb_spec (ht_max t) (hi_index (ht_iter t))).
    + apply swp_ret. exists (ht_iter t). split; [by apply set_iter_id|].
      rewrite drop_ge by lia. done.
    + destruct (lookup_lt_is_Some_2 (ht_array t) (Z.to_nat (hi_index (ht_iter t)))) as [p Hp]; [lia|].
      destruct (lookup_lt_is_Some_2 chs (Z.to_nat (hi_index (ht_iter t)))) as [l Hl]; [lia|].
      apply swp_bind. eapply swp_opt; [done|]. apply swp_bind, swp_put_ht.
      rewrite u32_small by lia. set (t' := set_iter t _).
      eapply swp_mono; [apply (IH (HSt (hs_ents s) (hs_blks s) (hs_brk s) (Some t')) t'
        (l ++ concat (drop (S (Z.to_nat (hi_index (ht_iter t)))) chs))); [done| |simpl; lia]|].
      * rewrite (drop_S _ _ _ Hp), (drop_S _ _ _ Hl) in Hc. apply Forall2_cons in Hc as [Hpl Hc].
        unfold iter_ok. simpl. replace (Z.to_nat (hi_index (ht_iter t) + 1)) with (S (Z.to_nat (hi_index (ht_iter t)))) by lia.
        do 4 (split; [done || lia|]). exists l. split_and!; [done..|exact Hc].
      * intros b s' (it & -> & Hpost). exists it. split; [done|]. simpl in Hpost.
        replace (Z.to_nat (hi_index (ht_iter t) + 1)) with (S (Z.to_nat (hi_index (ht_iter t)))) in Hpost by lia.
        rewrite (drop_S _ _ _ Hl). exact Hpost.
Qed.

Lemma shmap_next_spec s t chs R :
  hs_map s = Some t → iter_ok (hs_ents s) t chs (hi_next (ht_iter t)) R →
  swp shmap_next s (next_post s t chs R).
Proof.
  intros Ht Hit. unfold shmap_next. swp_steps. eapply swp_get_ht; [done|]. swp_steps. apply swp_put_ht.
  set (t' := set_iter t _).
  eapply swp_mono; [apply (next_loop_spec _ (HSt (hs_ents s) (hs_blks s) (hs_brk s) (Some t')) t'); [done|exact Hit|]|].
  - destruct Hit as (? & _ & _ & ? & _). simpl. lia.
  - intros b s' (it & -> & Hpost). by exists it.
Qed.

Lemma shmap_first_spec s t chs fr :
  hs_map s = Some t → shape (hs_ents s) t chs fr →
  swp shmap_first s (next_post s t chs (concat chs)).
Proof.
  intros Ht [Hmax _ Hlen Hch _ _]. unfold shmap_first. swp_steps. rewrite Ht. swp_steps. apply swp_put_ht.
  set (t' := set_iter t _). pose proof (Forall2_length _ _ _ Hch).
  eapply swp_mono; [apply (shmap_next_spec (HSt (hs_ents s) (hs_blks s) (hs_brk s) (Some t')) t' chs (concat chs)); [done|]|].
  - unfold iter_ok. simpl. do 4 (split; [done || lia|]). by exists [].
  - intros b s' (it & -> & Hpost). by exists it.
Qed.

(** ** Expansion *)
Definition indexed (ents : gmap Z shmap_entry_t) (max : Z) (chs : list (list Z)) : Prop :=
  ∀ i l a e, chs !! i = Some l → a ∈ l → ents !! a = Some e → i = Z.to_nat (Z.land (e_hash e) max).

Lemma indexed_cont ents ents' max chs : cont <$> ents' = cont <$> ents → indexed ents max chs → indexed ents' max chs.
Proof.
  intros Hc Hi i l a e Hl Ha He. assert (Some (cont e) = cont <$> ents !! a) as E.
  { by rewrite <-lookup_fmap, <-Hc, lookup_fmap, He. }
  destruct (ents !! a) as [e'|] eqn:E'; [|done]. injection E as E. rewrite E. by eapply Hi.
Qed.

Lemma cont_set_next (ents : gmap Z shmap_entry_t) a e p : ents !! a = Some e → cont <$> <[a := ent_set_next e p]> ents = cont <$> ents.
Proof.
  intros He. apply map_eq. intros b. rewrite !lookup_fmap. destruct (decide (b = a)) as [->|].
  - by rewrite lookup_insert_eq, He.
  - by rewrite lookup_insert_ne.
Qed.

(** Linking a node in front of a bucket. *)
Lemma push_bucket (ents : gmap Z shmap_entry_t) arr chs max a e p l i :
  Forall2 (chain e_next ents) arr chs → NoDup (a :: concat chs) → indexed ents max chs →
  arr !! i = Some p → chs !! i = Some l → ents !! a = Some e → a ≠ 0 → i = Z.to_nat (Z.land (e_hash e) max) →
  let ents' := <[a := ent_set_next e p]> ents in
  Forall2 (chain e_next ents') (<[i := a]> arr) (<[i := a :: l]> chs) ∧ indexed ents' max (<[i := a :: l]> chs) ∧
  concat (<[i := a :: l]> chs) ≡ₚ a :: concat chs.
Proof.
  intros Hch [Ha Hnd]%NoDup_cons Hix Hp Hl He Ha0 Hi ents'.
  assert (chain e_next ents p l) as Hpl by exact (Forall2_lookup_lr _ _ _ _ _ _ Hch Hp Hl).
  split_and!.
  - apply (chains_update ents ents' arr chs i a l); [done..| |].
    + intros b Hb _. apply lookup_insert_ne. by intros ->.
    + split_and!; [done..|]. exists (ent_set_next e p). split; [apply lookup_insert_eq|].
      apply lseg_insert_ne; [|done]. intros Hal. apply Ha. by eapply bucket_elem.
  - apply (indexed_cont ents); [by apply cont_set_next|]. intros j l' b e' Hl' Hb He'.
    destruct (decide (j = i)) as [->|Hij].
    + rewrite list_lookup_insert_eq in Hl' by (by eapply lookup_lt_Some). injection Hl' as <-.
      apply elem_of_cons in Hb as [->|Hb]; [congruence|by eapply Hix].
    + rewrite list_lookup_insert_ne in Hl' by done. by eapply Hix.
  - destruct (concat_split chs i l Hl) as (L & R & -> & ->). simpl. by rewrite <-Permutation_middle.
Qed.

Lemma expand_loop_spec fuel max s t chs narr nchs hi R :
  hs_map s = Some t → 0 ≤ max →
  match R with
  | [] => hi = false
  | a :: R' => hi = true ∧ hi_tthis (ht_iter t) = a ∧ iter_ok (hs_ents s) t chs (hi_next (ht_iter t)) R'
  end →
  (length R ≤ fuel)%nat → length narr = Z.to_nat (max + 1) →
  Forall2 (chain e_next (hs_ents s)) narr nchs → NoDup (R ++ concat nchs) → indexed (hs_ents s) max nchs →
  (∀ a, a ∈ R → a ≠ 0 ∧ ∃ e, hs_ents s !! a = Some e ∧ 0 ≤ e_hash e) →
  swp (expand_loop fuel max narr hi) s (λ narr' s', ∃ ents' it nchs',
    s' = HSt ents' (hs_blks s) (hs_brk s) (Some (set_iter t it)) ∧ cont <$> ents' = cont <$> hs_ents s ∧
    (∀ b, b ∉ R → ents' !! b = hs_ents s !! b) ∧ length narr' = length narr ∧
    Forall2 (chain e_next ents') narr' nchs' ∧ indexed ents' max nchs' ∧ concat nchs' ≡ₚ R ++ concat nchs).
Proof.
  revert s t narr nchs hi R. induction fuel as [|fuel IH]; intros s t narr nchs hi R Ht Hmax Hit Hfuel Hlen Hch Hnd Hix HR;
    (destruct R as [|a R]; [subst hi|simpl in Hfuel; try lia; destruct Hit as (-> & Htt & Hit)]); cbn [expand_loop].
  1, 2: apply swp_ret; exists (hs_ents s), (ht_iter t), nchs; split; [by apply set_iter_id|done].
  destruct (HR a) as (Ha0 & e & He & Hh); [left|].
  apply swp_bind. eapply swp_get_ht; [done|]. cbv zeta. rewrite Htt. apply swp_bind. eapply swp_ent_load; [done|].
  destruct (land_max (e_hash e) max) as [? ?]; [done..|].
  set (i := Z.to_nat (Z.land (e_hash e) max)).
  destruct (lookup_lt_is_Some_2 narr i) as [p Hp]; [lia|].
  destruct (Forall2_lookup_l _ _ _ _ _ Hch Hp) as (l & Hl & _).
  apply swp_bind. eapply swp_opt; [done|]. apply swp_bind. eapply swp_ent_store; [done|]. apply swp_bind.
  cbn [app] in Hnd. pose proof Hnd as [HaR HndR]%NoDup_cons. pose proof HndR as (_ & HdR & Hndc)%NoDup_app.
  destruct (push_bucket (hs_ents s) narr nchs max a e p l i) as (Hch' & Hix' & Hperm); [done| |done..|].
  { apply NoDup_cons. split; [set_solver|done]. }
  set (ents1 := <[a := ent_set_next e p]> (hs_ents s)) in *. rewrite Ht.
  assert (∀ b, b ≠ a → ents1 !! b = hs_ents s !! b) as Hf1 by (intros; by apply lookup_insert_ne).
  eapply swp_mono; [apply (shmap_next_spec (HSt ents1 _ _ (Some t)) t chs R); [done|]|].
  { eapply iter_frame; [exact Hit|]. intros b Hb. apply Hf1. intros ->. set_solver. }
  intros hi' s1 (it & -> & Hpost). simpl.
  eapply swp_mono; [apply (IH _ (set_iter t it) _ (<[i := a :: l]> nchs) _ R); [done..| | |exact Hch'| |exact Hix'|]|].
  - lia.
  - by rewrite length_insert.
  - rewrite Hperm, <-Permutation_middle. done.
  - intros b Hb. destruct (HR b) as (? & e' & ? & ?); [by right|]. split; [done|]. exists e'.
    cbn [hs_ents]. rewrite Hf1; [done|]. intros ->. set_solver.
  - intros narr' s' (ents' & it' & nchs' & -> & Hcont & Hfr & Hl' & Hch2 & Hix2 & Hp2).
    exists ents', it', nchs'. split; [done|]. split; [rewrite Hcont; by apply cont_set_next|]. split; [|split; [|split; [done|split; [done|]]]].
    + intros b Hb. rewrite Hfr by set_solver. apply Hf1. set_solver.
    + by rewrite Hl', length_insert.
    + rewrite Hp2, Hperm. by rewrite <-Permutation_middle.
Qed.
End ops.
