(* ===== verification/ShmapSpec.v ===== *)
(** * Specification of the hash map

    Setting, reading, listing, releasing and storing a map, on the relation
    [shmap_ok] between the memory and a finite map. *)

From S2P Require Import Prelude Errors Shbuf Crc Links Shmap ShmapInv ShmapOps.

(** Memory is never refused. *)
Class HeapOk `{Heap} : Prop := heap_always n : heap_ok n = true.

Lemma concat_replicate_nil {A} n : concat (replicate n ([] : list A)) = [].
Proof. induction n; simpl; auto. Qed.
Lemma replicate_chains ents n : Forall2 (chain e_next ents) (replicate n 0) (replicate n []).
Proof. induction n; simpl; constructor; done. Qed.
Lemma replicate_nil_elem {A} n i (l : list A) a : replicate n [] !! i = Some l → a ∈ l → False.
Proof. intros [-> _]%lookup_replicate. apply not_elem_of_nil. Qed.

Section spec.
Context `{HeapOk}.

Lemma alloc_array_ok max : alloc_array max = replicate (Z.to_nat (max + 1)) 0.
Proof. unfold alloc_array. by rewrite heap_always. Qed.

(** ** A new map *)
Lemma init_spec s ext : hs_ents s = ∅ → hs_blks s = ext → 0 < hs_brk s → (∀ p, is_Some (ext !! p) → 0 < p < hs_brk s) →
  swp shmap_init s (λ _ s', shmap_ok s' ext ∅).
Proof.
  intros He Hb Hbrk Hext. unfold shmap_init. rewrite heap_always, alloc_array_ok. apply swp_put_ht.
  eexists _, (replicate 16 []), []. split; [done|]. split; [|split].
  - split; [done|by exists 0|done|apply (replicate_chains _ 16)|done|]. intros i l a e Hl Ha. exfalso. by eapply replicate_nil_elem.
  - rewrite concat_replicate_nil. cbn [hs_ents hs_blks hs_brk]. rewrite He, fmap_empty, Hb. split; try done.
    + constructor.
    + intros a. rewrite lookup_empty. split; [by intros []|by intros ?%elem_of_nil].
    + intros a [[? Ha]|Ha]; [by rewrite lookup_empty in Ha|auto].
    + auto.
  - rewrite concat_replicate_nil. done.
Qed.

Section state.
Context (s : hst) (t : shmap_t) (chs : list (list Z)) (fr : list Z) (ext : gmap Z (list byte)) (m : gmap (list byte) aval).
Hypothesis Ht : hs_map s = Some t.
Hypothesis Hsh : shape (hs_ents s) t chs fr.
Hypothesis Hco : cells_ok (cont <$> hs_ents s) (hs_blks s) ext (hs_brk s) (concat chs) fr m.

Lemma node_ent a : a ∈ concat chs → a ≠ 0 ∧ ∃ e, hs_ents s !! a = Some e ∧ 0 ≤ e_hash e.
Proof.
  intros Ha. destruct (node_cell _ _ _ _ _ _ _ Hco a Ha) as [c Hc]. pose proof (cell_ent s a c Hc) as (e & He & ->).
  destruct (co_node _ _ _ _ _ _ _ Hco a _ Ha Hc) as (k & _ & Hh & _). simpl in Hh.
  pose proof (hash_range k). assert (0 < a < hs_brk s) by (apply Hco; eauto). split; [lia|]. exists e. split; [done|lia].
Qed.

Lemma nodes_fuel : (length (concat chs) ≤ size (hs_ents s))%nat.
Proof.
  pose proof (co_nodup _ _ _ _ _ _ _ Hco) as (Hnd & _ & _)%NoDup_app.
  rewrite <-(size_list_to_set (C := gset Z)) by done. rewrite <-size_dom. apply subseteq_size.
  intros a Ha%elem_of_list_to_set. apply elem_of_dom. destruct (node_ent a Ha) as (_ & e & ? & _). eauto.
Qed.

(** ** Expansion keeps the contents *)
Lemma expand_array_spec : swp expand_array_ s (λ _ s', ∃ t' chs',
  hs_map s' = Some t' ∧ hs_blks s' = hs_blks s ∧ hs_brk s' = hs_brk s ∧ cont <$> hs_ents s' = cont <$> hs_ents s ∧
  shape (hs_ents s') t' chs' fr ∧ concat chs' ≡ₚ concat chs ∧ ht_count t' = ht_count t).
Proof.
  pose proof (sh_max _ _ _ _ Hsh) as Hmax. pose proof (u32_range (ht_max t * 2)) as Hr.
  assert (u32 (ht_max t * 2) ≠ 2 ^ 32 - 1) as Hne.
  { unfold u32. intros E. pose proof (Z.div_mod (ht_max t * 2) (2 ^ 32) ltac:(done)). lia. }
  unfold expand_array_. apply swp_bind. eapply swp_get_ht; [done|]. cbv zeta.
  set (nm := u32 (ht_max t * 2)) in *. apply swp_bind, swp_gets, swp_bind.
  eapply swp_mono; [by eapply shmap_first_spec|]. intros hi s1 (it & -> & Hpost). apply swp_bind.
  pose proof (co_nodup _ _ _ _ _ _ _ Hco) as (Hnd & Hdis & _)%NoDup_app.
  rewrite alloc_array_ok.
  eapply swp_mono; [eapply (expand_loop_spec _ nm _ (set_iter t it) chs _ (replicate (Z.to_nat (nm + 1)) []) hi (concat chs))|].
  - done.
  - lia.
  - exact Hpost.
  - apply nodes_fuel.
  - by rewrite length_replicate.
  - apply replicate_chains.
  - by rewrite concat_replicate_nil, app_nil_r.
  - intros i l a e Hl Ha. exfalso. by eapply replicate_nil_elem.
  - apply node_ent.
  - intros narr s2 (ents' & it' & nchs & -> & Hcont & Hfr & Hlen & Hch & Hix & Hperm). cbn [hs_blks hs_brk hs_ents] in *.
    apply swp_bind. eapply swp_get_ht; [done|]. apply swp_put_ht. eexists _, nchs. do 4 (split; [done|]). split; [|split].
    + split; simpl; [lia| | |done| |exact Hix].
      * destruct (sh_form _ _ _ _ Hsh) as (k & Hk & E). exists (k + 1). split; [lia|]. unfold nm. rewrite E.
        unfold u32. rewrite Zmult_mod_idemp_l, Z.pow_add_r, Z.mul_assoc by lia. done.
      * by rewrite Hlen, length_replicate.
      * eapply lseg_frame; [apply (sh_free _ _ _ _ Hsh)|]. intros b Hb. apply Hfr. intros Hb'. by apply (Hdis b).
    + by rewrite Hperm, concat_replicate_nil, app_nil_r.
    + done.
Qed.

(** ** A node for a new entry *)
Lemma new_node : swp (if ht_free t =? 0 then ent_alloc
    else e ← ent_load (ht_free t); _ ← put_ht (set_free t (e_next e)); mret (ht_free t)) s
  (λ a s', ∃ ents' fr' free',
    s' = HSt ents' (hs_blks s) (hs_brk s') (Some (set_free t free')) ∧ hs_brk s ≤ hs_brk s' ∧ 0 < a < hs_brk s' ∧
    is_Some (ents' !! a) ∧ (∀ b, b ≠ a → ents' !! b = hs_ents s !! b) ∧
    NoDup ((a :: concat chs) ++ fr') ∧ (∀ b, b ≠ a → b ∈ concat chs ++ fr ↔ b ∈ concat chs ++ fr') ∧
    chain e_next (hs_ents s) free' fr').
Proof.
  pose proof (co_nodup _ _ _ _ _ _ _ Hco) as Hnd. pose proof (sh_free _ _ _ _ Hsh) as Hfr.
  destruct (Z.eqb_spec (ht_free t) 0) as [E|E].
  - unfold swp, ent_alloc. rewrite heap_always. rewrite E in Hfr. pose proof (chain_0 _ _ _ Hfr) as ->.
    pose proof (co_brk_pos _ _ _ _ _ _ _ Hco). assert (hs_brk s ∉ concat chs ++ []) as Hn.
    { intros Ha%(co_dom _ _ _ _ _ _ _ Hco). assert (0 < hs_brk s < hs_brk s); [apply Hco; by left|lia]. }
    eexists _, [], 0. split; [|split; [|split; [|split; [|split; [|split; [|split]]]]]]; cbn [hs_brk].
    + rewrite Ht, <-E. by destruct t.
    + lia.
    + lia.
    + rewrite lookup_insert_eq. eauto.
    + intros b Hb. by apply lookup_insert_ne.
    + cbn [app]. by apply NoDup_cons.
    + done.
    + done.
  - destruct (chain_cons _ _ _ _ E Hfr) as (e & fr' & -> & He & Hfr').
    apply swp_bind. eapply swp_ent_load; [done|]. apply swp_bind, swp_put_ht, swp_ret.
    eexists _, fr', (e_next e). split; [done|]. split; [simpl; lia|]. simpl. split; [|split; [|split; [|split; [|split]]]].
    + apply Hco. left. rewrite lookup_fmap, He. eauto.
    + eauto.
    + done.
    + by rewrite Permutation_middle.
    + intros b Hb. rewrite !elem_of_app, elem_of_cons. naive_solver.
    + done.
Qed.

(** The shape with a node at the end of a bucket. *)
Lemma shape_add key l1 a e ents2 ents3 p' free' fr' n :
  let i := Z.to_nat (bucket t key) in
  chs !! i = Some l1 → NoDup ((a :: concat chs) ++ fr') → e_hash e = shmap_hash_num key →
  ents2 !! a = Some e → (∀ b, b ≠ a → ents2 !! b = hs_ents s !! b) →
  cont <$> ents3 = cont <$> ents2 → (∀ b, b ∉ l1 → ents3 !! b = ents2 !! b) →
  chain e_next ents3 p' (l1 ++ [a]) → chain e_next (hs_ents s) free' fr' →
  shape ents3 (set_count (set_array (set_free t free') (<[i := p']> (ht_array t))) n) (<[i := l1 ++ [a]]> chs) fr'.
Proof.
  intros i Hl Hnd Heh Ha2 Hf2 Hcont Hf3 Hchain Hfree. pose proof Hnd as (Hnd1 & Hdis & _)%NoDup_app.
  apply NoDup_cons in Hnd1 as [Han Hndc]. pose proof Hsh as [Hmax Hform Hlen Hch _ Hix].
  assert (∀ b, b ∈ concat chs → b ≠ a) as Hne by (by intros b Hb ->).
  split; [done|done| | | |]; simpl.
  - by rewrite length_insert.
  - apply (chains_update (hs_ents s) ents3 (ht_array t) chs i p' l1); [done..| |done].
    intros b Hb Hbl. rewrite Hf3 by done. apply Hf2. auto.
  - eapply lseg_frame; [exact Hfree|]. intros b Hb.
    assert (b ∉ a :: concat chs) as Hb' by (intros Hb'; by apply (Hdis b)).
    rewrite Hf3; [|intros Hbl; apply Hb'; right; by eapply bucket_elem]. apply Hf2. set_solver.
  - apply (indexed_cont ents2); [done|]. intros j l b e' Hj Hb He'. destruct (decide (b = a)) as [->|Hba].
    + rewrite Ha2 in He'. injection He' as <-. rewrite Heh. fold (bucket t key). fold i.
      destruct (decide (j = i)) as [->|Hji]; [done|]. rewrite list_lookup_insert_ne in Hj by done.
      destruct Han. by eapply bucket_elem.
    + rewrite Hf2 in He' by done. destruct (decide (j = i)) as [->|Hji].
      * rewrite list_lookup_insert_eq in Hj by (by eapply lookup_lt_Some). injection Hj as <-.
        apply (Hix i l1 b); [done|set_solver|done].
      * rewrite list_lookup_insert_ne in Hj by done. by eapply Hix.
Qed.

(** ** Search with a value: the entry exists afterwards *)
Definition found_post (key : list byte) (r : option slot) (s' : hst) : Prop :=
  ∃ t' chs' fr' m' p l1 a l2 e,
    r = Some (link (bucket t' key) l1) ∧ hs_map s' = Some t' ∧ shape (hs_ents s') t' chs' fr' ∧
    cells_ok (cont <$> hs_ents s') (hs_blks s') ext (hs_brk s') (concat chs') fr' m' ∧
    ht_count t' = u32 (zlen (concat chs')) ∧ hs_blks s' = hs_blks s ∧
    ht_array t' !! Z.to_nat (bucket t' key) = Some p ∧ chs' !! Z.to_nat (bucket t' key) = Some (l1 ++ a :: l2) ∧
    chain e_next (hs_ents s') p (l1 ++ a :: l2) ∧ hs_ents s' !! a = Some e ∧ e_key e = Some key ∧
    (∀ v, <[key := v]> m' = <[key := v]> m).

Lemma find_add_spec key val : val ≠ 0 → ht_count t = u32 (zlen (concat chs)) →
  swp (find_entry (Some key) val) s (found_post key).
Proof.
  intros Hval Hcnt. unfold find_entry. apply swp_bind. eapply swp_get_ht; [done|]. apply swp_bind, swp_gets, swp_bind.
  fold (bucket t key). eapply (scan_spec s t chs fr ext m); [done..|]. intros p l1 l2 Hp Hl Hc Hm.
  pose proof (co_nodup _ _ _ _ _ _ _ Hco) as (Hndc & _ & _)%NoDup_app.
  destruct l2 as [|a l2].
  2: { destruct Hm as (e & He & Hk). cbn beta iota delta [head from_option id].
    destruct (lseg_lookup _ _ _ _ _ a Hc) as [Ha0 _]; [set_solver|]. rewrite (proj2 (Z.eqb_neq a 0) Ha0). simpl.
    apply swp_ret. exists t, chs, fr, m, p, l1, a, l2, e. done. }
  rewrite app_nil_r in *. simpl. rewrite (proj2 (Z.eqb_neq val 0) Hval). apply swp_bind.
  eapply swp_mono; [apply new_node|].
  intros a s1 (ents1 & fr' & free' & -> & Hbrk & Ha & [e0 He0] & Hf1 & Hnd & Hdom & Hfree). cbn [hs_brk] in *.
  pose proof Hnd as (Hnd1 & Hdis & _)%NoDup_app. apply NoDup_cons in Hnd1 as [Han _].
  apply swp_bind. eapply swp_ent_store; [done|]. cbn [hs_ents hs_blks hs_brk hs_map].
  assert (shkey_clone key = Some key) as -> by (unfold shkey_clone; by rewrite heap_always).
  set (e := Ent 0 (shmap_hash_num key) (Some key) val 0 0). set (ents2 := <[a := e]> ents1).
  assert (∀ b, b ≠ a → ents2 !! b = hs_ents s !! b) as Hf2.
  { intros b Hb. unfold ents2. rewrite lookup_insert_ne by done. auto. }
  assert (∀ b, b ∈ concat chs → b ≠ a) as Hne by (by intros b Hb ->).
  assert (∀ b, b ∈ l1 → b ∈ concat chs) as Hl1 by (intros b Hb; by eapply bucket_elem).
  apply swp_bind.
  eapply (slot_store_link (HSt ents2 _ _ _) (set_free t free') _ p l1 []); [done..| |].
  { rewrite app_nil_r. eapply lseg_frame; [done|]. intros b Hb. apply Hf2. auto. }
  cbn [hs_ents hs_blks hs_brk]. intros ents3 p' Hcont3 Hf3 Hseg.
  apply swp_bind. eapply swp_get_ht; [done|]. apply swp_bind, swp_put_ht, swp_ret.
  set (i := Z.to_nat (bucket t key)) in *. set (t' := set_count _ _).
  assert (ents3 !! a = Some e) as Ha3.
  { rewrite Hf3 by (intros ?; apply Han; auto). apply lookup_insert_eq. }
  assert (concat (<[i := l1 ++ [a]]> chs) ≡ₚ a :: concat chs) as Hperm.
  { destruct (concat_split chs i l1 Hl) as (L & R & -> & ->). rewrite <-app_assoc. simpl.
    rewrite !app_assoc. by rewrite <-Permutation_middle. }
  assert (chain e_next ents3 p' (l1 ++ [a])) as Hchain.
  { apply lseg_app. exists a. split; [done|]. simpl. split_and!; [done|lia|]. exists e. done. }
  assert (length chs = length (ht_array t)) as Hlen by (symmetry; eapply Forall2_length, (sh_chains _ _ _ _ Hsh)).
  exists t', (<[i := l1 ++ [a]]> chs), fr', (<[key := AVal 0 0 (inl val)]> m), p', l1, a, [], e.
  cbn [hs_ents hs_blks hs_brk hs_map]. split; [done|]. split; [done|]. split; [|split; [|split; [|split; [done|]]]].
  - apply (shape_add key l1 a e ents2); try done. apply lookup_insert_eq.
  - rewrite Hcont3, Hperm.
    assert (cont <$> ents2 = <[a := Cell (shmap_hash_num key) (Some key) val 0 0]> (cont <$> hs_ents s)) as ->.
    { apply map_eq. intros b. rewrite lookup_fmap. destruct (decide (b = a)) as [->|Hba].
      - unfold ents2. by rewrite !lookup_insert_eq.
      - rewrite Hf2, lookup_insert_ne, lookup_fmap by done. done. }
    eapply cells_add; try done.
  - simpl. rewrite Hcnt, Hperm. simpl. unfold u32. rewrite Zplus_mod_idemp_l. f_equal. lia.
  - change (Z.to_nat (bucket t' key)) with i. split; [|split; [|split; [|split; [done|split; [done|]]]]].
    + simpl. apply list_lookup_insert_eq. rewrite <-Hlen. by eapply lookup_lt_Some.
    + apply list_lookup_insert_eq. by eapply lookup_lt_Some.
    + done.
    + intros v. by rewrite insert_insert_eq.
Qed.

End state.

Section update.
Context (s : hst) (t : shmap_t) (chs : list (list Z)) (fr : list Z) (ext : gmap Z (list byte)) (m : gmap (list byte) aval).
Hypothesis Ht : hs_map s = Some t.
Hypothesis Hsh : shape (hs_ents s) t chs fr.
Hypothesis Hco : cells_ok (cont <$> hs_ents s) (hs_blks s) ext (hs_brk s) (concat chs) fr m.

(** ** Replacing a value *)
Lemma free_value a e s0 : a ∈ concat chs → hs_ents s !! a = Some e → hs_blks s0 = hs_blks s →
  swp (if Z.testbit (e_flag e) 0 then blk_free (e_val e) else mret tt) s0
    (λ _ s', s' = HSt (hs_ents s0) (drop_blk (cont e) (hs_blks s)) (hs_brk s0) (hs_map s0)).
Proof.
  intros Ha He Hs0. destruct (co_node _ _ _ _ _ _ _ Hco a (cont e)) as (k & _ & _ & Hv & v & _ & Hcv);
    [done|by apply ent_cell|].
  pose proof (cell_val_alloc _ _ _ Hcv) as Hal. unfold drop_blk, c_alloc in *. cbn [cont c_flag c_val c_sz] in *.
  destruct (Z.testbit (e_flag e) 0).
  - destruct Hal as (b & Hb & _); [done|]. unfold blk_free. rewrite (proj2 (Z.eqb_neq _ 0) Hv).
    apply swp_bind. eapply swp_opt; [by rewrite Hs0|]. apply swp_mod. by rewrite Hs0.
  - apply swp_ret. rewrite <-Hs0. by destruct s0.
Qed.

Lemma shape_contents ents' :
  (∀ b, e_next <$> ents' !! b = e_next <$> hs_ents s !! b) →
  (∀ b, b ∈ concat chs → e_hash <$> ents' !! b = e_hash <$> hs_ents s !! b) → shape ents' t chs fr.
Proof.
  intros Hn Hh. destruct Hsh as [Hmax Hform Hlen Hch Hfr Hix]. split; [done|done|done| | |].
  - eapply Forall2_impl; [exact Hch|]. intros p l. by apply lseg_links.
  - by eapply lseg_links.
  - intros i l a e Hl Ha He. assert (Some (e_hash e) = e_hash <$> hs_ents s !! a) as E.
    { rewrite <-Hh by (by eapply bucket_elem). by rewrite He. }
    destruct (hs_ents s !! a) as [e'|] eqn:E'; [|done]. injection E as ->. by eapply Hix.
Qed.

Lemma replace_spec key a e data sz flag l :
  ht_count t = u32 (zlen (concat chs)) → a ∈ concat chs → hs_ents s !! a = Some e → e_key e = Some key → data ≠ 0 →
  (Z.testbit flag 0 → ext !! data = Some l) →
  swp (ent_replace a flag data sz) s (λ _ s', shmap_ok s' (if Z.testbit flag 0 then delete data ext else ext)
    (<[key := AVal flag sz (if Z.testbit flag 0 then inr l else inl data)]> m)).
Proof.
  intros Hcnt Ha He Hk Hd Hx. unfold ent_replace. apply swp_bind. eapply swp_ent_load; [done|].
  apply swp_bind. eapply swp_mono; [by eapply free_value|]. intros ? s1 ->. apply swp_bind. eapply swp_ent_store; [done|].
  cbn [hs_ents hs_blks hs_brk hs_map]. apply swp_bind. eapply swp_get_ht; [done|].
  set (e' := Ent _ _ _ _ _ _).
  assert (shape (<[a := e']> (hs_ents s)) t chs fr) as Hsh'.
  { apply shape_contents; intros b; [|intros _]; (destruct (decide (b = a)) as [->|];
      [by rewrite lookup_insert_eq, He|by rewrite lookup_insert_ne]). }
  assert (cont <$> <[a := e']> (hs_ents s) = <[a := Cell (e_hash e) (Some key) data sz flag]> (cont <$> hs_ents s)) as Hcont.
  { rewrite fmap_insert. unfold e', cont. simpl. by rewrite Hk. }
  pose proof (cells_replace _ _ _ _ _ _ _ Hco a (cont e) key data sz flag l Ha (ent_cell s a e He) Hk Hd Hx) as Hco'.
  simpl c_hash in Hco'. rewrite <-Hcont in Hco'. destruct (ht_max t <? ht_count t).
  - eapply swp_mono; [by eapply expand_array_spec|].
    intros _ s' (t' & chs' & Ht' & Eb & Ebrk & Ec & Hsh2 & Hp & Ecnt). exists t', chs', fr.
    split; [done|]. split; [done|]. split; [by rewrite Ec, Eb, Ebrk, Hp|]. by rewrite Ecnt, Hcnt, Hp.
  - apply swp_ret. by exists t, chs, fr.
Qed.

(** The shape after a node of a bucket is unlinked and recycled. *)
Lemma shape_unlink key p l1 a l2 e ents1 p' h n :
  let i := Z.to_nat (bucket t key) in
  ht_array t !! i = Some p → chs !! i = Some (l1 ++ a :: l2) →
  chain e_next (hs_ents s) p (l1 ++ a :: l2) → hs_ents s !! a = Some e →
  cont <$> ents1 = cont <$> hs_ents s → (∀ b, b ∉ l1 → ents1 !! b = hs_ents s !! b) →
  lseg e_next ents1 p' l1 (e_next e) →
  shape (<[a := Ent (ht_free t) h None 0 0 0]> ents1)
    (set_count (set_free (set_array t (<[i := p']> (ht_array t))) a) n) (<[i := l1 ++ l2]> chs) (a :: fr).
Proof.
  intros i Hp Hl Hc He Hcont1 Hf1 Hseg.
  pose proof (co_nodup _ _ _ _ _ _ _ Hco) as (Hndc & Hdis & _)%NoDup_app.
  pose proof (chain_NoDup _ _ _ _ Hc) as Hndl. apply NoDup_app in Hndl as (_ & Hl12 & [Hal2 _]%NoDup_cons).
  assert (a ∉ l1) as Hal1 by (intros H; by apply (Hl12 a H); left).
  set (ents3 := <[a := _]> ents1).
  assert (∀ b, b ≠ a → ents3 !! b = ents1 !! b) as Hf3 by (intros; by apply lookup_insert_ne).
  pose proof Hc as (e' & He' & _ & Hl2)%lseg_mid. rewrite He in He'. injection He' as <-.
  pose proof Hsh as [Hmax Hform Hlen Hch Hfr Hix]. split; [done|done| | | |]; simpl.
  - by rewrite length_insert.
  - apply (chains_update (hs_ents s) ents3 _ chs i p' (l1 ++ a :: l2)); [done..| |].
    + intros b Hb Hbl. rewrite Hf3 by set_solver. apply Hf1. set_solver.
    + apply lseg_app. exists (e_next e). split; [by apply lseg_insert_ne|].
      eapply lseg_frame; [exact Hl2|]. intros b Hb2. rewrite Hf3 by (by intros ->). apply Hf1.
      intros Hb1. apply (Hl12 b Hb1). by right.
  - split_and!; [done| |].
    + pose proof (lseg_lookup _ _ _ _ _ a Hc) as [? _]; [set_solver|done].
    + eexists. split; [apply lookup_insert_eq|]. simpl. eapply lseg_frame; [exact Hfr|].
      intros b Hb. assert (b ∉ concat chs) as Hbn by (intros Hb'; by apply (Hdis b)).
      rewrite Hf3; [|intros ->; apply Hbn; eapply bucket_elem; [exact Hl|set_solver]].
      apply Hf1. intros Hb1. apply Hbn. eapply bucket_elem; [exact Hl|set_solver].
  - intros j l b e' Hj Hb He'. assert (b ≠ a) as Hba.
    { intros ->. destruct (decide (j = i)) as [->|Hji].
      - rewrite list_lookup_insert_eq in Hj by (by eapply lookup_lt_Some). injection Hj as <-. set_solver.
      - rewrite list_lookup_insert_ne in Hj by done.
        eapply (bucket_disjoint chs j i l); [done|exact Hj|exact Hl|done|exact Hb|set_solver]. }
    rewrite Hf3 in He' by done. revert He'. apply (indexed_cont (hs_ents s) ents1 _ chs Hcont1 Hix j
      (if decide (j = i) then l1 ++ a :: l2 else l)).
    + destruct (decide (j = i)) as [->|]; [done|]. by rewrite list_lookup_insert_ne in Hj.
    + destruct (decide (j = i)) as [->|]; [|done]. rewrite list_lookup_insert_eq in Hj by (by eapply lookup_lt_Some).
      injection Hj as <-. set_solver.
Qed.

(** ** Removing an entry *)
Lemma unset_spec key p l1 a l2 e :
  ht_count t = u32 (zlen (concat chs)) →
  ht_array t !! Z.to_nat (bucket t key) = Some p → chs !! Z.to_nat (bucket t key) = Some (l1 ++ a :: l2) →
  chain e_next (hs_ents s) p (l1 ++ a :: l2) → hs_ents s !! a = Some e → e_key e = Some key →
  swp (ent_unset (link (bucket t key) l1) a) s (λ _ s', shmap_ok s' ext (delete key m)).
Proof.
  intros Hcnt Hp Hl Hc He Hk. set (i := Z.to_nat (bucket t key)) in *.
  assert (a ∈ concat chs) as Ha by (eapply bucket_elem; [exact Hl|set_solver]).
  pose proof (chain_NoDup _ _ _ _ Hc) as Hndl. apply NoDup_app in Hndl as (_ & Hl12 & _).
  assert (a ∉ l1) as Hal1 by (intros H; by apply (Hl12 a H); left).
  unfold ent_unset. apply swp_bind. eapply swp_ent_load; [done|]. apply swp_bind.
  eapply (slot_store_link s t (bucket t key) p l1 (a :: l2)); [done..|]. intros ents1 p' Hcont1 Hf1 Hseg.
  assert (ents1 !! a = Some e) as He1 by (by rewrite Hf1).
  apply swp_bind. eapply swp_get_ht; [done|]. apply swp_bind. eapply swp_ent_load; [done|].
  apply swp_bind. eapply swp_ent_store; [done|]. cbn [hs_ents hs_blks hs_brk hs_map]. apply swp_bind, swp_put_ht.
  cbn [hs_ents hs_blks hs_brk hs_map]. apply swp_bind.
  set (ents2 := <[a := ent_set_next e _]> ents1). set (t' := set_count _ _).
  eapply swp_mono; [apply (free_value a e (HSt ents2 (hs_blks s) (hs_brk s) (Some t')) Ha He); done|].
  intros _ s2 ->. eapply (swp_ent_store a (ent_set_next e (ht_free t))); [apply lookup_insert_eq|].
  cbn [hs_ents hs_blks hs_brk hs_map].
  unfold ents2. rewrite insert_insert_eq. set (ents3 := <[a := _]> ents1).
  assert (concat chs ≡ₚ a :: concat (<[i := l1 ++ l2]> chs)) as Hperm.
  { destruct (concat_split chs i _ Hl) as (L & R & -> & ->). rewrite <-!app_assoc. simpl. by rewrite <-!Permutation_middle. }
  exists t', (<[i := l1 ++ l2]> chs), (a :: fr). split; [done|]. split; [|split].
  - by eapply shape_unlink.
  - cbn [hs_ents hs_blks hs_brk hs_map].
    assert (cont <$> ents3 = <[a := Cell (e_hash e) None 0 0 0]> (cont <$> hs_ents s)) as ->.
    { unfold ents3. rewrite fmap_insert, Hcont1. done. }
    by apply (cells_remove _ _ _ _ _ _ _ Hco a (cont e) key); [|apply ent_cell|].
  - simpl. rewrite Hcnt, Hperm. simpl. unfold u32. rewrite Zminus_mod_idemp_l. f_equal. lia.
Qed.
End update.

(** ** Setting a key *)

(** The finite map after [shmap_set_ent]. *)
Definition set_val (flag sz val : Z) (src : list byte) : aval :=
  AVal flag sz (if Z.testbit flag 0 then inr (take (Z.to_nat sz) src) else inl val).
Definition set_map (key : list byte) (map_flag val : Z) (src : list byte) (val_size : Z) (m : gmap (list byte) aval) :=
  if val =? 0 then delete key m
  else <[key := set_val (ent_flag val map_flag val_size) val_size val src]> m.

Lemma testbit_muted f : Z.testbit (Z.lor f (-2)) 0 = Z.testbit f 0.
Proof. by rewrite Z.lor_spec, orb_false_r. Qed.
Lemma ent_flag_alloc val map_flag sz : val ≠ 0 → Z.testbit (ent_flag val map_flag sz) 0 = Z.testbit map_flag 0.
Proof.
  intros Hv. unfold ent_flag. rewrite (proj2 (Z.eqb_neq _ 0) Hv). destruct (sz =? 0); [apply testbit_muted|done].
Qed.

Lemma found_set s ext m key data flag sz l s0 r :
  found_post s ext m key r s0 → data ≠ 0 → (Z.testbit flag 0 → ext !! data = Some l) →
  swp (match r with
       | None => _ ← (if Z.testbit flag 0 then blk_free data else mret tt); mret ERR_INVAL
       | Some hep =>
          he ← slot_load hep;
          _ ← (if he =? 0 then mret tt else if data =? 0 then ent_unset hep he else ent_replace he flag data sz);
          mret 0
       end) s0 (λ r s', r = 0 ∧ shmap_ok s' (if Z.testbit flag 0 then delete data ext else ext)
    (<[key := AVal flag sz (if Z.testbit flag 0 then inr l else inl data)]> m)).
Proof.
  intros (t' & chs' & fr' & m' & p & l1 & a & l2 & e & -> & Ht' & Hsh' & Hco' & Hcnt' & Eb & Hp & Hl & Hc & He & Hk & Hmm) Hd Hx.
  apply swp_bind. eapply slot_load_link; [done..|]. cbn beta iota delta [head from_option id].
  destruct (lseg_lookup _ _ _ _ _ a Hc) as [Ha0 _]; [set_solver|].
  rewrite (proj2 (Z.eqb_neq a 0) Ha0), (proj2 (Z.eqb_neq data 0) Hd). apply swp_bind.
  eapply swp_mono; [eapply (replace_spec s0 t' chs' fr' ext m'); [done..| |exact He|exact Hk|exact Hd|exact Hx]|].
  { eapply bucket_elem; [exact Hl|set_solver]. }
  intros ? s' Hok. apply swp_ret. split; [done|]. cbn beta in Hok. by rewrite Hmm in Hok.
Qed.

Lemma set_ent_spec s ext m key map_flag val src size :
  shmap_ok s ext m → (Z.testbit map_flag 0 → 0 ≤ size ≤ zlen src ∧ size < 2 ^ 64) →
  swp (shmap_set_ent (Some key) map_flag val src size) s
    (λ r s', r = 0 ∧ shmap_ok s' ext (set_map key map_flag val src size m)).
Proof.
  intros (t & chs & fr & Ht & Hsh & Hco & Hcnt) Hsz. unfold shmap_set_ent, set_map. apply swp_bind, swp_get.
  rewrite Ht. cbv zeta. destruct (Z.eqb_spec val 0) as [->|Hv].
  - (* remove *)
    change (Z.testbit (ent_flag 0 map_flag size) 0) with false. cbn [andb]. apply swp_bind, swp_ret, swp_bind.
    eapply (find_spec s t chs fr ext m); [done..|]. intros p l1 l2 Hp Hl Hc Hm. apply swp_bind.
    eapply slot_load_link; [done..|]. destruct l2 as [|a l2]; cbn beta iota delta [head from_option id].
    + apply swp_bind, swp_ret, swp_ret. split; [done|]. rewrite delete_id by done. by exists t, chs, fr.
    + destruct Hm as (e & He & Hk). destruct (lseg_lookup _ _ _ _ _ a Hc) as [Ha0 _]; [set_solver|].
      rewrite (proj2 (Z.eqb_neq a 0) Ha0). apply swp_bind. eapply swp_mono; [by eapply unset_spec|].
      intros ? s' Hok. by apply swp_ret.
  - rewrite ent_flag_alloc by done. unfold ent_size. rewrite (proj2 (Z.eqb_neq _ 0) Hv).
    unfold set_val. rewrite ent_flag_alloc by done. pose proof (ent_flag_alloc val map_flag size Hv) as Ebit.
    set (flag := ent_flag val map_flag size) in *. destruct (Z.testbit map_flag 0).
    + (* a copy *)
      destruct Hsz as [Hsz Hsz']; [done|]. rewrite u64_small by lia. apply swp_bind.
      unfold blk_alloc, swp at 1. rewrite heap_always. rewrite (proj2 (Z.ltb_ge _ _)) by lia.
      pose proof (co_brk_pos _ _ _ _ _ _ _ Hco) as Hbrk.
      assert ((hs_brk s =? 0) = false) as Hb0 by (apply Z.eqb_neq; lia).
      rewrite Hb0. cbn [andb]. apply swp_bind.
      set (s1 := HSt _ _ _ _). set (l := take (Z.to_nat size) src) in *.
      pose proof (cells_ext_alloc _ _ _ _ _ _ _ Hco l) as Hco1.
      eapply swp_mono; [eapply (find_add_spec s1 t chs fr (<[hs_brk s := l]> ext) m Ht Hsh Hco1 key (hs_brk s)); [lia|exact Hcnt]|].
      intros r s2 Hf.
      pose proof (found_set s1 (<[hs_brk s := l]> ext) m key (hs_brk s) flag size l s2 r Hf) as Hset.
      rewrite Ebit, Hb0 in Hset. eapply swp_mono; [apply Hset; [lia|by intros _; apply lookup_insert_eq]|].
      intros r' s' [-> Hok]. split; [done|]. rewrite delete_insert_id in Hok; [done|].
      destruct (ext !! hs_brk s) as [x|] eqn:Hx; [|done]. apply (co_ext_sub _ _ _ _ _ _ _ Hco) in Hx.
      assert (0 < hs_brk s < hs_brk s); [apply Hco; eauto|lia].
    + apply swp_bind, swp_ret. cbn [andb]. apply swp_bind.
      eapply swp_mono; [by eapply find_add_spec|]. intros r s2 Hf.
      pose proof (found_set s ext m key val flag size [] s2 r Hf) as Hset. rewrite Ebit in Hset. by apply Hset.
Qed.

(** A copy that cannot be made is reported and changes nothing. *)
End spec.
