(* ===== verification/ShmapFree.v ===== *)
(** * Releasing a hash map, and writing and reading it

    [shmap_free] frees every entry, recycled entry and copied value once, and
    nothing else. *)

From S2P Require Import Prelude Errors Shbuf Crc Links Shmap ShmapInv ShmapOps ShmapSpec.

(** A recycled entry is freed. *)
Lemma cells_drop_free cs blks ext brk nodes a fr m :
  cells_ok cs blks ext brk nodes (a :: fr) m → cells_ok (delete a cs) blks ext brk nodes fr m.
Proof.
  intros [Hnd Hd Hb ? Hn Hm Hu Ho He Hs Hbl].
  assert (∀ b, b ∈ nodes ++ fr → b ≠ a) as Hne.
  { rewrite <-Permutation_middle in Hnd. apply NoDup_cons in Hnd as [Hna _]. by intros b Hb' ->. }
  assert (∀ b, b ∈ nodes → b ≠ a) as Hne' by (intros; apply Hne; set_solver).
  assert (∀ b c, b ∈ nodes → delete a cs !! b = Some c ↔ cs !! b = Some c) as Hl.
  { intros b c Hbn. by rewrite lookup_delete_ne by (apply not_eq_sym; auto). }
  split; try done.
  - rewrite <-Permutation_middle in Hnd. by apply NoDup_cons in Hnd as [_ ?].
  - intros b. destruct (decide (b = a)) as [->|Hba].
    + rewrite lookup_delete_eq. split; [by intros []|]. intros Ha. by destruct (Hne a).
    + rewrite lookup_delete_ne, Hd by done. rewrite !elem_of_app, elem_of_cons. naive_solver.
  - intros b [[x Hb']|Hb']; apply Hb; [left|by right]. apply lookup_delete_Some in Hb' as [_ ?]. eauto.
  - intros b c Hbn Hc%Hl; [|done]. eauto.
  - intros k v Hv. destruct (Hm k v Hv) as (b & c & ? & ? & ?). exists b, c. by rewrite Hl.
  - intros b b' c d Hbn Hbn' Hc%Hl Hd'%Hl; [|done..]. eauto.
  - intros b b' c d Hbn Hbn' Hc%Hl Hd'%Hl; [|done..]. eauto.
  - intros b c Hbn Hc%Hl; [|done]. eauto.
  - intros p Hp. destruct (Hbl p Hp) as [?|(b & c & ? & ? & ?)]; [by left|]. right. exists b, c. by rewrite Hl.
Qed.

(** An entry in use is freed with its value. *)
Lemma cells_drop cs blks ext brk a c k nodes fr m :
  cells_ok cs blks ext brk (a :: nodes) fr m → cs !! a = Some c → c_key c = Some k →
  cells_ok (delete a cs) (drop_blk c blks) ext brk nodes fr (delete k m).
Proof.
  intros Hok Hc Hk. rewrite <-(delete_insert_eq cs a (Cell 0 None 0 0 0)).
  apply cells_drop_free. by eapply cells_remove.
Qed.

Section free.
Context `{Heap}.

Definition freed (s s' : hst) (l : list Z) : Prop :=
  hs_map s' = hs_map s ∧ hs_brk s' = hs_brk s ∧ ∀ b, b ∉ l → hs_ents s' !! b = hs_ents s !! b.

Lemma free_list_spec fuel s p l rest fr ext m :
  chain e_next (hs_ents s) p l → (length l ≤ fuel)%nat →
  cells_ok (cont <$> hs_ents s) (hs_blks s) ext (hs_brk s) (l ++ rest) fr m →
  swp (free_list fuel true p) s (λ _ s', freed s s' l ∧
    ∃ m', cells_ok (cont <$> hs_ents s') (hs_blks s') ext (hs_brk s') rest fr m').
Proof.
  revert s p l m. induction fuel as [|fuel IH]; intros s p l m Hc Hlen Hok; cbn [free_list];
    (destruct (Z.eqb_spec p 0) as [->|Hp];
     [apply chain_0 in Hc as ->; apply swp_ret; split; [done|by exists m]|]);
    destruct (chain_cons _ _ _ _ Hp Hc) as (e & l' & -> & He & Hc'); simpl in Hlen; [lia|].
  apply swp_bind. eapply swp_ent_load; [done|].
  destruct (co_node _ _ _ _ _ _ _ Hok p (cont e)) as (k & Hk & _ & Hv & v & _ & Hcv); [left|by apply ent_cell|].
  pose proof (cells_drop _ _ _ _ p (cont e) k _ _ _ Hok (ent_cell s p e He) Hk) as Hok'.
  pose proof (chain_NoDup _ _ _ _ Hc) as [Hpl _]%NoDup_cons.
  assert (swp (if true && Z.testbit (e_flag e) 0 && negb (e_val e =? 0) then blk_free (e_val e) else mret tt) s
    (λ _ s', s' = HSt (hs_ents s) (drop_blk (cont e) (hs_blks s)) (hs_brk s) (hs_map s))) as Hfree.
  { simpl c_val in Hv. rewrite (proj2 (Z.eqb_neq _ 0) Hv), andb_true_r. unfold drop_blk, c_alloc. simpl c_flag. simpl c_val.
    pose proof (cell_val_alloc _ _ _ Hcv) as Hal. unfold c_alloc in Hal. simpl c_flag in Hal. simpl c_val in Hal.
    destruct (Z.testbit (e_flag e) 0); [|apply swp_ret; by destruct s].
    destruct Hal as (b & Hb & _); [done|]. unfold blk_free. simpl. rewrite (proj2 (Z.eqb_neq _ 0) Hv).
    apply swp_bind. eapply swp_opt; [done|]. by apply swp_mod. }
  apply swp_bind. eapply swp_mono; [exact Hfree|]. intros _ s1 ->. apply swp_bind. unfold ent_free. apply swp_bind.
  eapply swp_ent_load; [done|]. apply swp_mod. cbn [hs_ents hs_blks hs_brk hs_map].
  rewrite <-fmap_delete in Hok'.
  eapply swp_mono; [apply (IH _ _ l' (delete k m)); [|lia|exact Hok']|].
  - by apply lseg_delete_ne.
  - intros _ s' [(Em & Eb & Ef) Hrest]. split; [|done]. split_and!; [done..|]. intros b Hb.
    rewrite Ef by set_solver. apply lookup_delete_ne. set_solver.
Qed.

Lemma free_buckets_spec n s arr chs fr ext m :
  Forall2 (chain e_next (hs_ents s)) arr chs → Forall (λ l, (length l ≤ n)%nat) chs → NoDup (concat chs) →
  cells_ok (cont <$> hs_ents s) (hs_blks s) ext (hs_brk s) (concat chs) fr m →
  swp (free_buckets n arr) s (λ _ s', freed s s' (concat chs) ∧
    ∃ m', cells_ok (cont <$> hs_ents s') (hs_blks s') ext (hs_brk s') [] fr m').
Proof.
  revert s chs m. induction arr as [|p arr IH]; intros s chs m Hch Hn Hnd Hok.
  - apply Forall2_nil_inv_l in Hch as ->. apply swp_ret. split; [done|by exists m].
  - apply Forall2_cons_inv_l in Hch as (l & chs' & Hpl & Hch & ->). apply Forall_cons in Hn as [Hl Hn].
    cbn [free_buckets]. apply swp_bind. simpl in Hnd. apply NoDup_app in Hnd as (_ & Hdis & Hnd).
    eapply swp_mono; [by eapply free_list_spec|]. intros _ s1 [(Em & Eb & Ef) (m1 & Hok1)].
    eapply swp_mono; [eapply (IH s1 chs'); [|done..]|].
    + apply Forall2_lookup. intros j. pose proof (Forall2_length _ _ _ Hch).
      destruct (arr !! j) as [q|] eqn:Eq, (chs' !! j) as [lj|] eqn:Ej.
      * constructor. eapply lseg_frame; [exact (Forall2_lookup_lr _ _ _ _ _ _ Hch Eq Ej)|]. intros b Hb. apply Ef.
        intros Hbl. apply (Hdis b Hbl). by eapply bucket_elem.
      * apply lookup_lt_Some in Eq. apply lookup_ge_None in Ej. lia.
      * apply lookup_lt_Some in Ej. apply lookup_ge_None in Eq. lia.
      * constructor.
    + intros _ s' [(Em' & Eb' & Ef') Hrest]. split; [|done]. split_and!; [congruence..|]. intros b Hb. simpl in Hb.
      rewrite Ef', Ef by set_solver. done.
Qed.

Lemma free_recycled_spec fuel s p fr ext m :
  chain e_next (hs_ents s) p fr → (length fr ≤ fuel)%nat →
  cells_ok (cont <$> hs_ents s) (hs_blks s) ext (hs_brk s) [] fr m →
  swp (free_list fuel false p) s (λ _ s',
    ∃ m', cells_ok (cont <$> hs_ents s') (hs_blks s') ext (hs_brk s') [] [] m').
Proof.
  revert s p fr. induction fuel as [|fuel IH]; intros s p fr Hc Hlen Hok; cbn [free_list];
    (destruct (Z.eqb_spec p 0) as [->|Hp]; [apply chain_0 in Hc as ->; apply swp_ret; by exists m|]);
    destruct (chain_cons _ _ _ _ Hp Hc) as (e & l' & -> & He & Hc'); simpl in Hlen; [lia|].
  apply swp_bind. eapply swp_ent_load; [done|]. simpl. apply swp_bind, swp_ret, swp_bind, swp_bind.
  eapply swp_ent_load; [done|]. apply swp_mod. cbn [hs_ents hs_blks hs_brk hs_map].
  pose proof (chain_NoDup _ _ _ _ Hc) as [Hpl _]%NoDup_cons. apply cells_drop_free in Hok. rewrite <-fmap_delete in Hok.
  apply (IH _ _ l'); [by apply lseg_delete_ne|lia|exact Hok].
Qed.

Lemma free_spec s ext m : shmap_ok s ext m →
  swp shmap_free s (λ _ s', hs_map s' = None ∧ hs_ents s' = ∅ ∧ hs_blks s' = ext ∧ 0 < hs_brk s' ∧
    ∀ p, is_Some (ext !! p) → 0 < p < hs_brk s').
Proof.
  intros (t & chs & fr & Ht & Hsh & Hco & _). pose proof Hsh as [Hmax _ Hlen Hch Hfr _].
  unfold shmap_free. apply swp_bind, swp_get. rewrite Ht. cbv zeta. rewrite (proj2 (Z.ltb_ge _ _)) by lia.
  rewrite take_ge by lia. pose proof (co_nodup _ _ _ _ _ _ _ Hco) as (Hnd & Hdis & _)%NoDup_app.
  apply swp_bind. eapply swp_mono; [apply (free_buckets_spec _ s _ chs fr ext m); [done| |done..]|].
  { apply Forall_lookup. intros i l Hl. destruct (Forall2_lookup_r _ _ _ _ _ Hch Hl) as (p & _ & Hp). by eapply chain_size. }
  intros _ s1 [(Em & Eb & Ef) (m1 & Hok1)]. apply swp_bind.
  eapply swp_mono; [eapply (free_recycled_spec _ s1 _ fr); [|by eapply chain_size|exact Hok1]|].
  { eapply lseg_frame; [exact Hfr|]. intros b Hb. apply Ef. intros Hb'. by apply (Hdis b). }
  intros _ s2 (m2 & [_ Hd Hbrk Hpos _ _ _ _ _ Hs Hbl]). apply swp_mod. cbn [hs_ents hs_blks hs_brk hs_map].
  split; [done|split; [|split; [|split; [done|]]]].
  - apply map_eq. intros b. rewrite lookup_empty. destruct (hs_ents s2 !! b) as [e|] eqn:E; [|done].
    assert (b ∈ [] ++ []) as Hb by (apply Hd; rewrite lookup_fmap, E; eauto). by apply elem_of_nil in Hb.
  - apply map_eq. intros b. destruct (ext !! b) as [l|] eqn:E; [by apply Hs|].
    destruct (hs_blks s2 !! b) as [l|] eqn:E'; [|done].
    destruct (Hbl b) as [[? ?]|(? & ? & Hx & _)]; [by eexists|congruence|by apply elem_of_nil in Hx].
  - intros p [l Hl]. apply Hbrk. right. exists l. by apply Hs.
Qed.
End free.

(** * Writing a hash map to a buffer and reading it back

    [shmap_print] writes a record for each copied value; [shmap_load] sets a
    key for each record it finds. *)

(** ** Records *)
Definition ser (now : Z) (kv : list byte * aval) : list byte :=
  match a_data kv.2 with
  | inl _ => []
  | inr b => if zlen b =? 0 then [] else value_hdr now kv.1 b (Z.land (a_flag kv.2) (-2)) ++ b
  end.

(** Keys have the size of a [shkey_t], the size of a copy is recorded, words have
    no size; the flags are an [int]. *)
Definition value_ok (k : list byte) (v : aval) : Prop :=
  length k = 32%nat ∧
  match a_data v with
  | inl _ => a_sz v = 0
  | inr b => a_sz v = zlen b ∧ Z.testbit (a_flag v) 0 = true ∧ - 2 ^ 31 ≤ a_flag v < 2 ^ 31
  end.

#[global] Instance value_ok_dec k v : Decision (value_ok k v).
Proof. unfold value_ok. destruct (a_data v); apply _. Defined.

(** What a record can hold: copies of at least one byte. *)
Definition storable (kv : list byte * aval) : Prop :=
  match a_data kv.2 with inl _ => False | inr b => b ≠ [] end.
#[global] Instance storable_dec kv : Decision (storable kv).
Proof. unfold storable. destruct (a_data kv.2); apply _. Defined.

Lemma length_value_hdr now name data pf : length name = 32%nat → length (value_hdr now name data pf) = 72%nat.
Proof. intros Hn. unfold value_hdr. rewrite !length_app, !length_le_enc, length_replicate, Hn. done. Qed.

Lemma at_app_l off n (a b : list byte) : length a = off → at_ off n (a ++ b) = take n b.
Proof. intros <-. unfold at_. by rewrite drop_app_length. Qed.
Lemma at_here (off n : nat) (a b c : list byte) : length a = off → length b = n → at_ off n (a ++ b ++ c) = b.
Proof. intros ? <-. rewrite at_app_l by done. apply take_app_length. Qed.

Lemma value_hdr_fields now name data pf : length name = 32%nat → zlen data < 2 ^ 64 →
  let h := value_hdr now name data pf in
  le_dec (at_ 0 4 h) = SHMEM32_MAGIC ∧ le_dec (at_ 12 4 h) = u32 pf ∧ at_ 16 32 h = name ∧
  le_dec (at_ 48 8 h) = zlen data.
Proof.
  intros Hn Hd h.
  assert (h = (le_enc 4 SHMEM32_MAGIC ++ le_enc 4 (shcrc data) ++ le_enc 4 now) ++ le_enc 4 pf ++ name ++
    le_enc 8 (zlen data) ++ replicate 16 x00) as E1 by (unfold h, value_hdr; by rewrite <-!app_assoc).
  split_and!.
  - apply (f_equal le_dec) with (y := le_enc 4 SHMEM32_MAGIC). apply (at_here 0 4 []); done.
  - rewrite E1, at_here by done. by rewrite le_dec_enc.
  - rewrite E1, (app_assoc _ (le_enc 4 pf)). by rewrite at_here.
  - rewrite E1, (app_assoc _ (le_enc 4 pf)), (app_assoc _ name).
    rewrite at_here by (rewrite ?length_app, ?length_le_enc, ?Hn; done). rewrite le_dec_enc. apply Z.mod_small. lia.
Qed.

(** The flags survive without their lowest bit, which is set again on reading. *)
Lemma flag_round_trip f : Z.testbit f 0 = true → - 2 ^ 31 ≤ f < 2 ^ 31 →
  i32 (Z.lor (u32 (Z.land f (-2))) SHMAP_ALLOC) = f.
Proof.
  intros Hb Hf. assert (Z.land f (-2) = 2 * (f / 2)) as ->.
  { change (-2) with (Z.lnot (Z.ones 1)). rewrite <-Z.ldiff_land, Z.ldiff_ones_r by done.
    rewrite Z.shiftl_mul_pow2, Z.shiftr_div_pow2 by done. change (2 ^ 1) with 2. lia. }
  assert (f = 2 * (f / 2) + 1) as Ef.
  { pose proof (Z.bit0_mod f) as E. rewrite Hb in E. simpl in E. pose proof (Z.div_mod f 2 ltac:(done)). lia. }
  assert (∃ h, u32 (2 * (f / 2)) = 2 * h ∧ 0 ≤ h < 2 ^ 31) as (h & Eh & Hh).
  { exists ((f / 2) mod 2 ^ 31). unfold u32. change (2 ^ 32) with (2 * 2 ^ 31).
    rewrite Z.mul_mod_distr_l by done. split; [done|]. by apply Z.mod_pos_bound. }
  rewrite Eh. assert (Z.lor (2 * h) SHMAP_ALLOC = 2 * h + 1) as ->.
  { destruct h as [|p|p]; [done|done|lia]. }
  unfold u32, i32 in *. pose proof (Z.div_mod (2 * (f / 2)) (2 ^ 32) ltac:(done)).
  pose proof (Z.div_mod (2 * h + 1 + 2 ^ 31) (2 ^ 32) ltac:(done)).
  pose proof (Z.mod_pos_bound (2 * h + 1 + 2 ^ 31) (2 ^ 32) ltac:(done)). lia.
Qed.

Section io.
Context `{HeapOk}.

(** ** Writing *)
Definition node_kv (ents : gmap Z shmap_entry_t) (blks : gmap Z (list byte)) (a : Z) : option (list byte * aval) :=
  e ← ents !! a; k ← e_key e; v ← cell_val blks (cont e); Some (k, v).

(** One entry: a record for a copy of at least one byte, nothing otherwise. *)
Lemma print_one now s e k v buff :
  e_key e = Some k → e_val e ≠ 0 → cell_val (hs_blks s) (cont e) = Some v → value_ok k v → shbuf_wf buff →
  data_of buff + zlen (ser now (k, v)) + 1 < 2 ^ 31 - 32768 →
  swp (if (e_sz e =? 0) || (e_val e =? 0) then mret buff
    else data ← blk_load (e_val e) (e_sz e); name ← sopt (λ _, e_key e);
         mret (shbuf_cat (shbuf_cat buff (value_hdr now name data (Z.land (e_flag e) (-2)))) data)) s
    (λ b s', s' = s ∧ shbuf_wf b ∧ default [] (data b) = default [] (data buff) ++ ser now (k, v)).
Proof.
  intros Hk Hv0 Hcv [Hk32 Hvok] Hwf Hlen. rewrite (proj2 (Z.eqb_neq _ 0) Hv0), orb_false_r.
  unfold cell_val, c_alloc in Hcv. cbn [cont c_flag c_sz c_val] in Hcv.
  destruct (Z.testbit (e_flag e) 0).
  2: { injection Hcv as <-. unfold ser. cbn [a_data a_sz fst snd] in *. rewrite Hvok.
    apply swp_ret. by rewrite app_nil_r. }
  destruct (hs_blks s !! e_val e) as [b|] eqn:Hb; [|done]. cbn in Hcv. injection Hcv as <-.
  unfold ser in *. cbn [a_data a_sz a_flag fst snd] in *. destruct Hvok as (Esz & _). rewrite Esz.
  destruct (zlen b =? 0) eqn:Eb; [apply swp_ret; by rewrite app_nil_r|].
  apply swp_bind. eapply (swp_opt _ b).
  { rewrite Hb. simpl. rewrite Z.leb_refl. by rewrite take_ge by lia. }
  apply swp_bind. eapply swp_opt; [done|]. apply swp_ret. split; [done|].
  rewrite length_app, length_value_hdr in Hlen by done. set (hdr := value_hdr _ _ _ _).
  assert (length hdr = 72%nat) as Hh by (by apply length_value_hdr).
  assert (shbuf_wf (shbuf_cat buff hdr)) as Hwf1 by (apply shbuf_cat_wf; [done|lia]).
  assert (data (shbuf_cat buff hdr) = Some (default [] (data buff) ++ hdr)) as Hd1.
  { apply shbuf_cat_data; [done|lia|apply heap_always]. }
  assert (data_of (shbuf_cat buff hdr) = data_of buff + 72) as Hl1.
  { unfold data_of. rewrite Hd1. simpl. rewrite length_app. lia. }
  split; [apply shbuf_cat_wf; [done|lia]|]. rewrite shbuf_cat_data; [|done|lia|apply heap_always].
  rewrite Hd1. simpl. by rewrite <-app_assoc.
Qed.

Lemma print_loop_spec fuel now s t chs R buff hi :
  hs_map s = Some t → shbuf_wf buff →
  match R with
  | [] => hi = false
  | a :: R' => hi = true ∧ hi_tthis (ht_iter t) = a ∧ iter_ok (hs_ents s) t chs (hi_next (ht_iter t)) R'
  end →
  (length R ≤ fuel)%nat →
  (∀ a, a ∈ R → ∃ e k v, hs_ents s !! a = Some e ∧ e_key e = Some k ∧ e_val e ≠ 0 ∧
     cell_val (hs_blks s) (cont e) = Some v ∧ value_ok k v) →
  let L := omap (node_kv (hs_ents s) (hs_blks s)) R in
  data_of buff + zlen (concat (ser now <$> L)) + 1 < 2 ^ 31 - 32768 →
  swp (print_loop fuel now buff hi) s (λ b s', ∃ it, s' = HSt (hs_ents s) (hs_blks s) (hs_brk s) (Some (set_iter t it)) ∧
    default [] (data b) = default [] (data buff) ++ concat (ser now <$> L)).
Proof.
  revert s t R buff hi. induction fuel as [|fuel IH]; intros s t R buff hi Ht Hwf Hit Hfuel HR L Hlen;
    (destruct R as [|a R]; [subst hi|simpl in Hfuel; try lia; destruct Hit as (-> & Htt & Hit)]); cbn [print_loop].
  1, 2: apply swp_ret; exists (ht_iter t); split; [by apply set_iter_id|]; simpl; by rewrite app_nil_r.
  destruct (HR a) as (e & k & v & He & Hk & Hv0 & Hcv & Hvok); [left|].
  assert (L = (k, v) :: omap (node_kv (hs_ents s) (hs_blks s)) R) as EL.
  { unfold L. simpl. unfold node_kv at 1. rewrite He. simpl. rewrite Hk. simpl. by rewrite Hcv. }
  rewrite EL in *. set (L' := omap _ R) in *. cbn [fmap list_fmap concat] in *. rewrite length_app in Hlen.
  assert (data_of buff + zlen (ser now (k, v)) + 1 < 2 ^ 31 - 32768) as Hlen1 by lia.
  pose proof (print_one now s e k v buff Hk Hv0 Hcv Hvok Hwf Hlen1) as Hone.
  apply swp_bind. unfold shmap_self. apply swp_bind. eapply swp_get_ht; [done|]. rewrite Htt. eapply swp_ent_load; [done|].
  apply swp_bind. eapply swp_mono; [exact Hone|]. intros b s1 (-> & Hwf1 & Hd1). apply swp_bind.
  eapply swp_mono; [by apply (shmap_next_spec s t chs R)|]. intros hi' s1 (it & -> & Hpost).
  eapply swp_mono; [apply (IH _ (set_iter t it) R b hi'); [done|done|exact Hpost|lia| |]|].
  - intros a' Ha'. apply HR. by right.
  - cbn [hs_ents hs_blks]. fold L'. unfold data_of. rewrite Hd1, length_app. unfold data_of in Hlen. lia.
  - intros b' s' (it' & -> & Hd). exists it'. split; [done|]. cbn [hs_ents hs_blks] in Hd. fold L' in Hd.
    by rewrite Hd, Hd1, <-app_assoc.
Qed.

Lemma node_list s t chs fr ext m : shape (hs_ents s) t chs fr →
  cells_ok (cont <$> hs_ents s) (hs_blks s) ext (hs_brk s) (concat chs) fr m →
  omap (node_kv (hs_ents s) (hs_blks s)) (concat chs) ≡ₚ map_to_list m.
Proof.
  intros Hsh Hco. pose proof (co_nodup _ _ _ _ _ _ _ Hco) as [Hnd _]%NoDup_app.
  assert (∀ a k v, node_kv (hs_ents s) (hs_blks s) a = Some (k, v) →
    ∃ e, hs_ents s !! a = Some e ∧ e_key e = Some k ∧ cell_val (hs_blks s) (cont e) = Some v) as Hkv.
  { unfold node_kv. intros a k v. destruct (hs_ents s !! a) as [e|]; [|done]. simpl.
    destruct (e_key e) as [k'|] eqn:Ek; [|done]. simpl. destruct (cell_val _ _) as [v'|] eqn:Ev; [|done].
    intros [= <- <-]. eauto. }
  apply NoDup_Permutation; [|apply NoDup_map_to_list|].
  - apply NoDup_omap_inj; [done|]. intros a b [k v] Ha Hb (e & He & Hk & _)%Hkv (e' & He' & Hk' & _)%Hkv.
    eapply (co_uniq _ _ _ _ _ _ _ Hco a b); [done..|by apply ent_cell|by apply ent_cell|]. simpl. congruence.
  - intros [k v]. rewrite elem_of_map_to_list, list_elem_of_omap. split.
    + intros (a & Ha & (e & He & Hk & Hv)%Hkv).
      destruct (co_node _ _ _ _ _ _ _ Hco a _ Ha (ent_cell s a e He)) as (k' & Hk' & _ & _ & v' & Hm & Hv').
      simpl in Hk'. congruence.
    + intros Hm. destruct (co_map _ _ _ _ _ _ _ Hco k v Hm) as (a & c & Ha & Hc & Hk).
      destruct (co_node _ _ _ _ _ _ _ Hco a c Ha Hc) as (k' & Hk' & _ & _ & v' & Hm' & Hv').
      apply cell_ent in Hc as (e & He & ->). exists a. split; [done|]. unfold node_kv. rewrite He. simpl.
      simpl in Hk, Hk'. rewrite Hk. simpl. rewrite Hv'. simpl. congruence.
Qed.

Definition printable (now : Z) (m : gmap (list byte) aval) : Prop :=
  map_Forall value_ok m ∧ zlen (concat (ser now <$> map_to_list m)) + 1 < 2 ^ 31 - 32768.

#[global] Instance printable_dec now m : Decision (printable now m).
Proof. unfold printable. apply _. Defined.

Lemma concat_Permutation_len {A B} (f : A → list B) l l' : l ≡ₚ l' → length (concat (f <$> l)) = length (concat (f <$> l')).
Proof. induction 1; cbn [fmap list_fmap concat]; rewrite ?length_app; lia. Qed.

Lemma print_spec now s ext m : shmap_ok s ext m → printable now m →
  swp (shmap_print now shbuf_init) s (λ b s', shmap_ok s' ext m ∧
    ∃ L, L ≡ₚ map_to_list m ∧ default [] (data b) = concat (ser now <$> L)).
Proof.
  intros (t & chs & fr & Ht & Hsh & Hco & Hcnt) [Hv Hlen]. unfold shmap_print. apply swp_bind, swp_get. rewrite Ht.
  apply swp_bind, swp_gets, swp_bind. eapply swp_mono; [by eapply shmap_first_spec|]. intros hi s1 (it & -> & Hpost).
  pose proof (node_list s t chs fr ext m Hsh Hco) as Hperm.
  eapply swp_mono; [eapply (print_loop_spec _ now _ (set_iter t it) chs (concat chs) shbuf_init hi)|].
  - done.
  - apply shbuf_init_wf.
  - exact Hpost.
  - by eapply nodes_fuel.
  - intros a Ha. destruct (node_ent s chs fr ext m Hco a Ha) as (_ & e & He & _).
    destruct (co_node _ _ _ _ _ _ _ Hco a _ Ha (ent_cell s a e He)) as (k & Hk & _ & Hv0 & v & Hm & Hcv).
    exists e, k, v. split_and!; [done..|]. by apply Hv.
  - cbn [hs_ents hs_blks]. rewrite (concat_Permutation_len _ _ _ Hperm). unfold data_of. simpl. lia.
  - intros b s' (it' & -> & Hd). split.
    + exists (set_iter t it'), chs, fr. split; [done|]. split; [by destruct Hsh|done].
    + eexists. split; [exact Hperm|exact Hd].
Qed.

(** ** Reading *)
Definition load_rec (m : gmap (list byte) aval) (kv : list byte * aval) : gmap (list byte) aval :=
  if decide (storable kv) then <[kv.1 := kv.2]> m else m.

Lemma load_loop_spec now fuel p s ext m pre L :
  0 < p → shmap_ok s ext m → Forall (λ kv, value_ok kv.1 kv.2) L →
  zlen (pre ++ concat (ser now <$> L)) < 2 ^ 31 → (length (concat (ser now <$> L)) ≤ fuel)%nat →
  swp (load_loop fuel p (pre ++ concat (ser now <$> L)) (zlen pre)) s (λ _ s', shmap_ok s' ext (foldl load_rec m L)).
Proof.
  intros Hp. revert s m pre fuel. induction L as [|[k v] L IH]; intros s m pre fuel Hok HL Hlen Hfuel.
  { simpl. rewrite app_nil_r. destruct fuel; simpl; rewrite Z.ltb_irrefl; by apply swp_ret. }
  apply Forall_cons in HL as [Hvk HL]. cbn [fmap list_fmap concat foldl] in *.
  destruct (decide (storable (k, v))) as [Hst|Hst].
  2: { unfold load_rec at 2. rewrite decide_False by done.
    assert (ser now (k, v) = []) as E.
    { unfold storable in Hst. unfold ser. simpl in *. destruct (a_data v) as [|b]; [done|].
      destruct b; [done|]. by destruct Hst. }
    rewrite E in *. by apply IH. }
  unfold load_rec at 2. rewrite decide_True by done. cbn [fst snd].
  destruct v as [flag sz [w|b]]; [done|]. destruct Hvk as [Hk32 (Hsz & Hbit & Hfl)].
  cbn [a_data a_sz a_flag fst snd] in *. subst sz.
  assert (zlen b ≠ 0) as Hb0 by (intros E; apply Hst; apply nil_length_inv; lia).
  unfold ser at 1. unfold ser at 1 in Hlen. unfold ser at 1 in Hfuel. cbn [a_data a_flag fst snd] in *.
  rewrite (proj2 (Z.eqb_neq _ 0) Hb0) in *. set (hdr := value_hdr now k b _) in *.
  assert (length hdr = 72%nat) as Hh by (by apply length_value_hdr).
  rewrite !length_app in Hlen. rewrite !length_app in Hfuel. destruct fuel as [|fuel]; [lia|].
  set (rest := concat (ser now <$> L)) in *. cbn [load_loop].
  assert (pre ++ (hdr ++ b) ++ rest = (pre ++ hdr ++ b) ++ rest) as El by (by rewrite <-!app_assoc).
  rewrite (proj2 (Z.ltb_lt _ _)) by (rewrite !length_app; lia).
  rewrite (proj2 (Z.ltb_ge _ _)) by (rewrite !length_app; unfold VALUE_SIZE; lia).
  rewrite Nat2Z.id. assert (at_ (length pre) (Z.to_nat VALUE_SIZE) (pre ++ (hdr ++ b) ++ rest) = hdr) as ->.
  { rewrite <-app_assoc. by apply at_here. }
  destruct (value_hdr_fields now k b (Z.land flag (-2)) Hk32) as (E1 & E2 & E3 & E4); [lia|].
  fold hdr in E1, E2, E3, E4. rewrite E1, E2, E3, E4, Z.eqb_refl. cbn [negb]. rewrite (proj2 (Z.eqb_neq _ 0) Hb0).
  assert (at_ (Z.to_nat (zlen pre + VALUE_SIZE)) (Z.to_nat (Z.min (zlen b) (zlen (pre ++ (hdr ++ b) ++ rest))))
    (pre ++ (hdr ++ b) ++ rest) = b) as ->.
  { rewrite Z.min_l by (rewrite !length_app; lia). rewrite <-app_assoc, (app_assoc pre).
    apply at_here; [rewrite length_app, Hh; unfold VALUE_SIZE; lia|lia]. }
  rewrite flag_round_trip by done. apply swp_bind.
  assert (i64 (zlen b) = zlen b) as -> by (unfold i64; rewrite Z.mod_small; lia).
  eapply swp_mono; [apply set_ent_spec; [exact Hok|intros _; lia]|]. intros r s1 [_ Hok1].
  unfold set_map, ent_flag in Hok1. unfold VALUE_SIZE in *.
  rewrite (proj2 (Z.eqb_neq (p + (zlen pre + 72)) 0)), (proj2 (Z.eqb_neq _ 0) Hb0) in Hok1 by lia.
  unfold set_val in Hok1. rewrite Hbit, take_ge in Hok1 by lia.
  rewrite u64_small by lia. rewrite El.
  replace (zlen pre + 72 + zlen b) with (zlen (pre ++ hdr ++ b)) by (rewrite !length_app; lia).
  apply IH; [done|done| |lia]. rewrite !length_app. lia.
Qed.

(** Reading every record back gives the entries that were written. *)
Lemma foldl_load m L : L ≡ₚ map_to_list m → foldl load_rec ∅ L = filter storable m.
Proof.
  intros HL. assert (NoDup L.*1) as Hnd by (rewrite HL; apply NoDup_fst_map_to_list).
  assert (∀ k v, (k, v) ∈ L ↔ m !! k = Some v) as Hin by (intros; rewrite HL; apply elem_of_map_to_list).
  assert (∀ m0, (∀ k, k ∈ L.*1 → m0 !! k = None) → ∀ k v,
    foldl load_rec m0 L !! k = Some v ↔ m0 !! k = Some v ∨ ((k, v) ∈ L ∧ storable (k, v))) as Hf.
  { clear HL Hin m. induction L as [|[k' v'] L IH]; intros m0 Hm0 k v; cbn [foldl].
    - set_solver.
    - cbn [fmap list_fmap fst] in *. apply NoDup_cons in Hnd as [Hk' Hnd]. rewrite IH.
      + rewrite elem_of_cons. unfold load_rec. destruct (decide (storable (k', v'))) as [Hs|Hs]; [|naive_solver].
        cbn [fst snd]. destruct (decide (k = k')) as [->|Hne].
        * rewrite lookup_insert_eq, (Hm0 k') by left. naive_solver.
        * rewrite lookup_insert_ne by done. naive_solver.
      + done.
      + intros k0 Hk0. unfold load_rec. cbn [fst snd]. rewrite <-(Hm0 k0) by (by right).
        destruct (decide _); [|done]. apply lookup_insert_ne. intros ->. done. }
  apply map_eq. intros k. apply option_eq. intros v. rewrite Hf by (intros; apply lookup_empty).
  rewrite map_lookup_filter_Some, lookup_empty, Hin. naive_solver.
Qed.

Lemma load_spec now p buff s ext m L :
  0 < p → shmap_ok s ext ∅ → map_Forall value_ok m → L ≡ₚ map_to_list m →
  default [] (data buff) = concat (ser now <$> L) → zlen (concat (ser now <$> L)) < 2 ^ 31 →
  swp (shmap_load p (Some buff)) s (λ _ s', shmap_ok s' ext (filter storable m)).
Proof.
  intros Hp Hok Hv HL Hd Hlen. unfold shmap_load. simpl shbuf_data. rewrite Hd, <-(foldl_load m L HL).
  apply (load_loop_spec now _ p s ext ∅ [] L); [done..| |done|done].
  apply Forall_forall. intros [k v] Hkv. apply Hv. rewrite HL in Hkv. by apply elem_of_map_to_list.
Qed.
End io.
