(* ===== verification/Sha.v ===== *)
(** * SHA digests

    The SHA family of libshare ([depend/share/src/share-lib/mem/shmem_alg_sha.c],
    macros of [shmem_alg_sha.h], structures of [shmem.h]): message blocks, the
    padding, the incremental interface and its dispatch on the algorithm.

    Words are [Z] with their width written out; a context is a value that the
    operations pass on, never [NULL], and [None] is an access outside the message
    block or outside the caller's data.  The three families (SHA-1, SHA-224/256,
    SHA-384/512) share the operations on the context and differ in a record. *)

From S2P Require Import Prelude Errors.

(** ** Words *)
Definition be_enc (n : nat) (z : Z) : list byte := reverse (le_enc n z).
Definition be_dec (l : list byte) : Z := le_dec (reverse l).

Definition SHA_Ch (x y z : Z) : Z := Z.lxor (Z.land x (Z.lxor y z)) z.
Definition SHA_Maj (x y z : Z) : Z := Z.lor (Z.land x (Z.lor y z)) (Z.land y z).
Definition SHA_Parity (x y z : Z) : Z := Z.lxor (Z.lxor x y) z.

(** [SHR], [ROTL] and [ROTR] on words of [w] bits. *)
Definition ROTL (w bits word : Z) : Z := Z.lor (Z.shiftl word bits mod 2 ^ w) (Z.shiftr word (w - bits)).
Definition ROTR (w bits word : Z) : Z := Z.lor (Z.shiftr word bits) (Z.shiftl word (w - bits) mod 2 ^ w).
Definition xor3 (x y z : Z) : Z := Z.lxor (Z.lxor x y) z.
Definition SHA256_SIGMA0 (x : Z) : Z := xor3 (ROTR 32 2 x) (ROTR 32 13 x) (ROTR 32 22 x).
Definition SHA256_SIGMA1 (x : Z) : Z := xor3 (ROTR 32 6 x) (ROTR 32 11 x) (ROTR 32 25 x).
Definition SHA256_sigma0 (x : Z) : Z := xor3 (ROTR 32 7 x) (ROTR 32 18 x) (Z.shiftr x 3).
Definition SHA256_sigma1 (x : Z) : Z := xor3 (ROTR 32 17 x) (ROTR 32 19 x) (Z.shiftr x 10).
Definition SHA512_SIGMA0 (x : Z) : Z := xor3 (ROTR 64 28 x) (ROTR 64 34 x) (ROTR 64 39 x).
Definition SHA512_SIGMA1 (x : Z) : Z := xor3 (ROTR 64 14 x) (ROTR 64 18 x) (ROTR 64 41 x).
Definition SHA512_sigma0 (x : Z) : Z := xor3 (ROTR 64 1 x) (ROTR 64 8 x) (Z.shiftr x 7).
Definition SHA512_sigma1 (x : Z) : Z := xor3 (ROTR 64 19 x) (ROTR 64 61 x) (Z.shiftr x 6).

(** ** Message blocks *)

(** The first 16 words of [W], big-endian, [n] bytes each. *)
Definition load_words (n : nat) (block : list byte) : list Z :=
  (λ t, be_dec (take n (drop (t * n) block))) <$> seq 0 16.
(** [for (t = 16; t < 16 + n; t++) W[t] = next(W, t)]. *)
Definition extend (next : list Z → nat → Z) (n : nat) (W : list Z) : list Z :=
  foldl (λ W t, W ++ [next W t]) W (seq 16 n).
Definition at_t (W : list Z) (t : nat) : Z := nth t W 0.

Definition SHA1_K : list Z := [0x5A827999; 0x6ED9EBA1; 0x8F1BBCDC; 0xCA62C1D6].
Record regs1 := Regs1 { r1_a : Z; r1_b : Z; r1_c : Z; r1_d : Z; r1_e : Z }.
Definition sha1_next (W : list Z) (t : nat) : Z :=
  ROTL 32 1 (Z.lxor (Z.lxor (Z.lxor (at_t W (t - 3)) (at_t W (t - 8))) (at_t W (t - 14))) (at_t W (t - 16))).
Definition sha1_step (f : Z → Z → Z → Z) (k : Z) (W : list Z) (r : regs1) (t : nat) : regs1 :=
  let '(Regs1 A B C D E) := r in
  let temp := u32 (ROTL 32 5 A + f B C D + E + at_t W t + k) in
  Regs1 temp A (ROTL 32 30 B) C D.
Definition SHA1ProcessMessageBlock (H : list Z) (block : list byte) : list Z :=
  let W := extend sha1_next 64 (load_words 4 block) in
  let r := Regs1 (at_t H 0) (at_t H 1) (at_t H 2) (at_t H 3) (at_t H 4) in
  let r := foldl (sha1_step SHA_Ch (at_t SHA1_K 0) W) r (seq 0 20) in
  let r := foldl (sha1_step SHA_Parity (at_t SHA1_K 1) W) r (seq 20 20) in
  let r := foldl (sha1_step SHA_Maj (at_t SHA1_K 2) W) r (seq 40 20) in
  let '(Regs1 A B C D E) := foldl (sha1_step SHA_Parity (at_t SHA1_K 3) W) r (seq 60 20) in
  [u32 (at_t H 0 + A); u32 (at_t H 1 + B); u32 (at_t H 2 + C); u32 (at_t H 3 + D); u32 (at_t H 4 + E)].

Record regs2 := Regs2 { r2_a : Z; r2_b : Z; r2_c : Z; r2_d : Z; r2_e : Z; r2_f : Z; r2_g : Z; r2_h : Z }.
Definition load_regs2 (H : list Z) : regs2 :=
  Regs2 (at_t H 0) (at_t H 1) (at_t H 2) (at_t H 3) (at_t H 4) (at_t H 5) (at_t H 6) (at_t H 7).

(** SHA-2 on words of [w] bits and [16 + n] rounds. *)
Section sha2.
Variables (w : Z) (n : nat) (K : list Z) (SIGMA0 SIGMA1 sigma0 sigma1 : Z → Z).

Definition sha2_next (W : list Z) (t : nat) : Z :=
  (sigma1 (at_t W (t - 2)) + at_t W (t - 7) + sigma0 (at_t W (t - 15)) + at_t W (t - 16)) mod 2 ^ w.
Definition sha2_step (W : list Z) (r : regs2) (t : nat) : regs2 :=
  let '(Regs2 A B C D E F G H) := r in
  let temp1 := (H + SIGMA1 E + SHA_Ch E F G + at_t K t + at_t W t) mod 2 ^ w in
  let temp2 := (SIGMA0 A + SHA_Maj A B C) mod 2 ^ w in
  Regs2 ((temp1 + temp2) mod 2 ^ w) A B C ((D + temp1) mod 2 ^ w) E F G.
Definition sha2_process (H : list Z) (block : list byte) : list Z :=
  let W := extend sha2_next n (load_words (Z.to_nat (w / 8)) block) in
  let '(Regs2 A B C D E F G J) := foldl (sha2_step W) (load_regs2 H) (seq 0 (16 + n)) in
  [(at_t H 0 + A) mod 2 ^ w; (at_t H 1 + B) mod 2 ^ w; (at_t H 2 + C) mod 2 ^ w; (at_t H 3 + D) mod 2 ^ w;
   (at_t H 4 + E) mod 2 ^ w; (at_t H 5 + F) mod 2 ^ w; (at_t H 6 + G) mod 2 ^ w; (at_t H 7 + J) mod 2 ^ w].
End sha2.

Definition SHA256_K : list Z := Eval cbv in concat [
  [0x428a2f98; 0x71374491; 0xb5c0fbcf; 0xe9b5dba5; 0x3956c25b];
  [0x59f111f1; 0x923f82a4; 0xab1c5ed5; 0xd807aa98; 0x12835b01];
  [0x243185be; 0x550c7dc3; 0x72be5d74; 0x80deb1fe; 0x9bdc06a7];
  [0xc19bf174; 0xe49b69c1; 0xefbe4786; 0x0fc19dc6; 0x240ca1cc];
  [0x2de92c6f; 0x4a7484aa; 0x5cb0a9dc; 0x76f988da; 0x983e5152];
  [0xa831c66d; 0xb00327c8; 0xbf597fc7; 0xc6e00bf3; 0xd5a79147];
  [0x06ca6351; 0x14292967; 0x27b70a85; 0x2e1b2138; 0x4d2c6dfc];
  [0x53380d13; 0x650a7354; 0x766a0abb; 0x81c2c92e; 0x92722c85];
  [0xa2bfe8a1; 0xa81a664b; 0xc24b8b70; 0xc76c51a3; 0xd192e819];
  [0xd6990624; 0xf40e3585; 0x106aa070; 0x19a4c116; 0x1e376c08];
  [0x2748774c; 0x34b0bcb5; 0x391c0cb3; 0x4ed8aa4a; 0x5b9cca4f];
  [0x682e6ff3; 0x748f82ee; 0x78a5636f; 0x84c87814; 0x8cc70208];
  [0x90befffa; 0xa4506ceb; 0xbef9a3f7; 0xc67178f2]].
Definition SHA512_K : list Z := [
  0x428A2F98D728AE22; 0x7137449123EF65CD; 0xB5C0FBCFEC4D3B2F;
  0xE9B5DBA58189DBBC; 0x3956C25BF348B538; 0x59F111F1B605D019;
  0x923F82A4AF194F9B; 0xAB1C5ED5DA6D8118; 0xD807AA98A3030242;
  0x12835B0145706FBE; 0x243185BE4EE4B28C; 0x550C7DC3D5FFB4E2;
  0x72BE5D74F27B896F; 0x80DEB1FE3B1696B1; 0x9BDC06A725C71235;
  0xC19BF174CF692694; 0xE49B69C19EF14AD2; 0xEFBE4786384F25E3;
  0x0FC19DC68B8CD5B5; 0x240CA1CC77AC9C65; 0x2DE92C6F592B0275;
  0x4A7484AA6EA6E483; 0x5CB0A9DCBD41FBD4; 0x76F988DA831153B5;
  0x983E5152EE66DFAB; 0xA831C66D2DB43210; 0xB00327C898FB213F;
  0xBF597FC7BEEF0EE4; 0xC6E00BF33DA88FC2; 0xD5A79147930AA725;
  0x06CA6351E003826F; 0x142929670A0E6E70; 0x27B70A8546D22FFC;
  0x2E1B21385C26C926; 0x4D2C6DFC5AC42AED; 0x53380D139D95B3DF;
  0x650A73548BAF63DE; 0x766A0ABB3C77B2A8; 0x81C2C92E47EDAEE6;
  0x92722C851482353B; 0xA2BFE8A14CF10364; 0xA81A664BBC423001;
  0xC24B8B70D0F89791; 0xC76C51A30654BE30; 0xD192E819D6EF5218;
  0xD69906245565A910; 0xF40E35855771202A; 0x106AA07032BBD1B8;
  0x19A4C116B8D2D0C8; 0x1E376C085141AB53; 0x2748774CDF8EEB99;
  0x34B0BCB5E19B48A8; 0x391C0CB3C5C95A63; 0x4ED8AA4AE3418ACB;
  0x5B9CCA4F7763E373; 0x682E6FF3D6B2B8A3; 0x748F82EE5DEFB2FC;
  0x78A5636F43172F60; 0x84C87814A1F0AB72; 0x8CC702081A6439EC;
  0x90BEFFFA23631E28; 0xA4506CEBDE82BDE9; 0xBEF9A3F7B2C67915;
  0xC67178F2E372532B; 0xCA273ECEEA26619C; 0xD186B8C721C0C207;
  0xEADA7DD6CDE0EB1E; 0xF57D4F7FEE6ED178; 0x06F067AA72176FBA;
  0x0A637DC5A2C898A6; 0x113F9804BEF90DAE; 0x1B710B35131C471B;
  0x28DB77F523047D84; 0x32CAAB7B40C72493; 0x3C9EBE0A15C9BEBC;
  0x431D67C49C100D4C; 0x4CC5D4BECB3E42B6; 0x597F299CFC657E2A;
  0x5FCB6FAB3AD6FAEC; 0x6C44198C4A475817].

Definition SHA224_256ProcessMessageBlock : list Z → list byte → list Z :=
  sha2_process 32 48 SHA256_K SHA256_SIGMA0 SHA256_SIGMA1 SHA256_sigma0 SHA256_sigma1.
Definition SHA384_512ProcessMessageBlock : list Z → list byte → list Z :=
  sha2_process 64 64 SHA512_K SHA512_SIGMA0 SHA512_SIGMA1 SHA512_sigma0 SHA512_sigma1.

(** The initial hash values. *)
Definition SHA1_H0 : list Z := [0x67452301; 0xEFCDAB89; 0x98BADCFE; 0x10325476; 0xC3D2E1F0].
Definition SHA224_H0 : list Z := [
  0xC1059ED8; 0x367CD507; 0x3070DD17; 0xF70E5939;
  0xFFC00B31; 0x68581511; 0x64F98FA7; 0xBEFA4FA4].
Definition SHA256_H0 : list Z := [
  0x6A09E667; 0xBB67AE85; 0x3C6EF372; 0xA54FF53A;
  0x510E527F; 0x9B05688C; 0x1F83D9AB; 0x5BE0CD19].
Definition SHA384_H0 : list Z := [
  0xCBBB9D5DC1059ED8; 0x629A292A367CD507; 0x9159015A3070DD17;
  0x152FECD8F70E5939; 0x67332667FFC00B31; 0x8EB44A8768581511;
  0xDB0C2E0D64F98FA7; 0x47B5481DBEFA4FA4].
Definition SHA512_H0 : list Z := [
  0x6A09E667F3BCC908; 0xBB67AE8584CAA73B; 0x3C6EF372FE94F82B;
  0xA54FF53A5F1D36F1; 0x510E527FADE682D1; 0x9B05688C2B3E6C1F;
  0x1F83D9ABFB41BD6B; 0x5BE0CD19137E2179].

(** ** Contexts *)
Record sha_ctx := ShaCtx {
  Intermediate_Hash : list Z;
  Length_High : Z;
  Length_Low : Z;
  Message_Block_Index : nat;
  Message_Block : list byte;
  Computed : Z;
  Corrupted : Z;
}.
Definition set_hash (c : sha_ctx) (h : list Z) : sha_ctx :=
  ShaCtx h (Length_High c) (Length_Low c) (Message_Block_Index c) (Message_Block c) (Computed c) (Corrupted c).
Definition set_len (c : sha_ctx) (hi lo : Z) : sha_ctx :=
  ShaCtx (Intermediate_Hash c) hi lo (Message_Block_Index c) (Message_Block c) (Computed c) (Corrupted c).
Definition set_block (c : sha_ctx) (i : nat) (b : list byte) : sha_ctx :=
  ShaCtx (Intermediate_Hash c) (Length_High c) (Length_Low c) i b (Computed c) (Corrupted c).
Definition set_computed (c : sha_ctx) (x : Z) : sha_ctx :=
  ShaCtx (Intermediate_Hash c) (Length_High c) (Length_Low c) (Message_Block_Index c) (Message_Block c) x (Corrupted c).
Definition set_corrupted (c : sha_ctx) (x : Z) : sha_ctx :=
  ShaCtx (Intermediate_Hash c) (Length_High c) (Length_Low c) (Message_Block_Index c) (Message_Block c) (Computed c) x.

(** What distinguishes the families: the block size, the bytes of a word (and of
    each half of the length), and the compression of a block. *)
Record sha_fam := Fam {
  f_block : nat;
  f_word : nat;
  f_process : list Z → list byte → list Z;
}.
Definition fam_sha1 : sha_fam := Fam 64 4 SHA1ProcessMessageBlock.
Definition fam_sha256 : sha_fam := Fam 64 4 SHA224_256ProcessMessageBlock.
Definition fam_sha512 : sha_fam := Fam 128 8 SHA384_512ProcessMessageBlock.

Section ctx.
Variable F : sha_fam.

(** [Message_Block[Message_Block_Index++] = b]. *)
Definition put_byte (c : sha_ctx) (b : byte) : option sha_ctx :=
  if (Message_Block_Index c <? length (Message_Block c))%nat then
    Some (set_block c (S (Message_Block_Index c)) (<[Message_Block_Index c := b]> (Message_Block c)))
  else None.
Definition ProcessMessageBlock (c : sha_ctx) : sha_ctx :=
  set_block (set_hash c (f_process F (Intermediate_Hash c) (Message_Block c))) 0 (Message_Block c).
(** The [AddLength] macros. *)
Definition AddLength (c : sha_ctx) (length : Z) : sha_ctx :=
  let wbits := 8 * Z.of_nat (f_word F) in
  let addTemp := Length_Low c in
  let lo := (Length_Low c + length) mod 2 ^ wbits in
  if lo <? addTemp then
    let hi := (Length_High c + 1) mod 2 ^ wbits in
    let c := set_len c hi lo in
    if hi =? 0 then set_corrupted c ERR_INVAL else c
  else set_len c (Length_High c) lo.

(** [while (Message_Block_Index < lim) Message_Block[Message_Block_Index++] = 0]. *)
Fixpoint zero_to (fuel lim : nat) (c : sha_ctx) : option sha_ctx :=
  if (Message_Block_Index c <? lim)%nat then
    match fuel with O => None | S fuel => c ← put_byte c x00; zero_to fuel lim c end
  else Some c.
Definition PadMessage (c : sha_ctx) (Pad_Byte : byte) : option sha_ctx :=
  let size := f_block F in
  let lim := (size - 2 * f_word F)%nat in
  c ← (if (lim <=? Message_Block_Index c)%nat then
         c ← put_byte c Pad_Byte;
         c ← zero_to size size c;
         Some (ProcessMessageBlock c)
       else put_byte c Pad_Byte);
  c ← zero_to size lim c;
  let block := take lim (Message_Block c) ++
    be_enc (f_word F) (Length_High c) ++ be_enc (f_word F) (Length_Low c) in
  Some (ProcessMessageBlock (set_block c (Message_Block_Index c) block)).
Definition Finalize (c : sha_ctx) (Pad_Byte : byte) : option sha_ctx :=
  c ← PadMessage c Pad_Byte;
  let c := set_block c (Message_Block_Index c) (replicate (f_block F) x00) in
  Some (set_computed (set_len c 0 0) 1).
Definition ResultN (c : sha_ctx) (HashSize : nat) : option (Z * list byte * sha_ctx) :=
  if negb (Corrupted c =? 0) then Some (Corrupted c, [], c)
  else
    c ← (if Computed c =? 0 then Finalize c x80 else Some c);
    let digest := (λ i : nat,
      byte_of_Z (Z.shiftr (at_t (Intermediate_Hash c) (i / f_word F))
                          (8 * (Z.of_nat (f_word F) - 1 - Z.of_nat (i mod f_word F))))) <$> seq 0 HashSize in
    Some (0, digest, c).
(** [mem] is what the block held before. *)
Definition CtxReset (H0 : list Z) (mem : list byte) : sha_ctx := ShaCtx H0 0 0 0 mem 0 0.

Fixpoint write_loop (c : sha_ctx) (l : list byte) : option sha_ctx :=
  match l with
  | [] => Some c
  | b :: l =>
     c ← put_byte c b;
     let c := AddLength c 8 in
     let c := if (Corrupted c =? 0) && (Message_Block_Index c =? f_block F)%nat then ProcessMessageBlock c else c in
     write_loop c l
  end.
(** [message_array] is [NULL] or the caller's bytes. *)
Definition ctx_write (c : sha_ctx) (message_array : option (list byte)) (len : Z) : option (Z * sha_ctx) :=
  if len =? 0 then Some (0, c)
  else
    match message_array with
    | None => Some (ERR_INVAL, c)
    | Some l =>
       if negb (Computed c =? 0) then Some (ERR_INVAL, set_corrupted c ERR_INVAL)
       else if negb (Corrupted c =? 0) then Some (Corrupted c, c)
       else if zlen l <? len then None
       else c ← write_loop c (take (Z.to_nat len) l); Some (Corrupted c, c)
    end.
End ctx.

(** ** The algorithms *)
Definition SHA1PadMessage := PadMessage fam_sha1.
Definition SHA1Finalize := Finalize fam_sha1.
Definition SHA224_256Reset := CtxReset.
Definition SHA224_256PadMessage := PadMessage fam_sha256.
Definition SHA224_256Finalize := Finalize fam_sha256.
Definition SHA224_256ResultN := ResultN fam_sha256.
Definition SHA384_512Reset := CtxReset.
Definition SHA384_512PadMessage := PadMessage fam_sha512.
Definition SHA384_512Finalize := Finalize fam_sha512.
Definition SHA384_512ResultN := ResultN fam_sha512.

Definition SHALG_128BIT : Z := 1.
Definition SHALG_224BIT : Z := 4.
Definition SHALG_256BIT : Z := 8.
Definition SHALG_384BIT : Z := 16.
Definition SHALG_512BIT : Z := 32.
Definition SHALG_SHA : Z := 512.
Definition SHALG_SHA1 : Z := Z.lor SHALG_SHA SHALG_128BIT.
Definition SHALG_SHA224 : Z := Z.lor SHALG_SHA SHALG_224BIT.
Definition SHALG_SHA256 : Z := Z.lor SHALG_SHA SHALG_256BIT.
Definition SHALG_SHA384 : Z := Z.lor SHALG_SHA SHALG_384BIT.
Definition SHALG_SHA512 : Z := Z.lor SHALG_SHA SHALG_512BIT.

Record sh_sha_t := Sha { sha_alg : Z; sha_c : sha_ctx }.

(** Each [init] sets the algorithm and resets the member of the union it uses;
    [mem] is the memory of that member's block, which [init] leaves alone. *)
Definition sh_sha1_init (mem : list byte) : Z * sh_sha_t := (0, Sha SHALG_SHA1 (CtxReset SHA1_H0 (take 64 mem))).
Definition sh_sha224_init (mem : list byte) : Z * sh_sha_t := (0, Sha SHALG_SHA224 (SHA224_256Reset SHA224_H0 (take 64 mem))).
Definition sh_sha256_init (mem : list byte) : Z * sh_sha_t := (0, Sha SHALG_SHA256 (SHA224_256Reset SHA256_H0 (take 64 mem))).
Definition sh_sha384_init (mem : list byte) : Z * sh_sha_t := (0, Sha SHALG_SHA384 (SHA384_512Reset SHA384_H0 (take 128 mem))).
Definition sh_sha512_init (mem : list byte) : Z * sh_sha_t := (0, Sha SHALG_SHA512 (SHA384_512Reset SHA512_H0 (take 128 mem))).

Definition on_ctx (F : sha_fam) (sha : sh_sha_t) (data : option (list byte)) (len : Z) : option (Z * sh_sha_t) :=
  '(e, c) ← ctx_write F (sha_c sha) data (u32 len); Some (e, Sha (sha_alg sha) c).
Definition sh_sha1_write := on_ctx fam_sha1.
Definition sh_sha256_write := on_ctx fam_sha256.
Definition sh_sha224_write := sh_sha256_write.
Definition sh_sha512_write := on_ctx fam_sha512.
Definition sh_sha384_write := sh_sha512_write.

Definition with_ctx (sha : sh_sha_t) (r : option (Z * list byte * sha_ctx)) : option (Z * list byte * sh_sha_t) :=
  '(e, d, c) ← r; Some (e, d, Sha (sha_alg sha) c).
Definition sh_sha1_result (sha : sh_sha_t) := with_ctx sha (ResultN fam_sha1 (sha_c sha) 20).
Definition sh_sha224_result (sha : sh_sha_t) := with_ctx sha (SHA224_256ResultN (sha_c sha) 28).
Definition sh_sha256_result (sha : sh_sha_t) := with_ctx sha (SHA224_256ResultN (sha_c sha) 32).
Definition sh_sha384_result (sha : sh_sha_t) := with_ctx sha (SHA384_512ResultN (sha_c sha) 48).
Definition sh_sha512_result (sha : sh_sha_t) := with_ctx sha (SHA384_512ResultN (sha_c sha) 64).

(** [alg & mask]. *)
Definition has (alg mask : Z) : bool := negb (Z.land alg mask =? 0).
Definition shsha_size (alg : Z) : Z :=
  if has alg SHALG_128BIT then 20
  else if has alg SHALG_224BIT then 28
  else if has alg SHALG_256BIT then 32
  else if has alg SHALG_384BIT then 48
  else if has alg SHALG_512BIT then 64
  else 0.
Definition shsha_blocksize (alg : Z) : Z :=
  if has alg SHALG_128BIT then 64
  else if has alg SHALG_224BIT then 64
  else if has alg SHALG_256BIT then 64
  else if has alg SHALG_384BIT then 128
  else if has alg SHALG_512BIT then 128
  else 0.

(** An algorithm that is not supported leaves the context as it was. *)
Definition shsha_init (ctx : sh_sha_t) (mem : list byte) (alg : Z) : Z * sh_sha_t :=
  if has alg SHALG_512BIT then sh_sha512_init mem
  else if has alg SHALG_384BIT then sh_sha384_init mem
  else if has alg SHALG_256BIT then sh_sha256_init mem
  else if has alg SHALG_224BIT then sh_sha224_init mem
  else if has alg SHALG_128BIT then sh_sha1_init mem
  else (ERR_OPNOTSUPP, ctx).
Definition shsha_write (ctx : sh_sha_t) (data : option (list byte)) (data_len : Z) : option (Z * sh_sha_t) :=
  let alg := sha_alg ctx in
  if has alg SHALG_512BIT then sh_sha512_write ctx data data_len
  else if has alg SHALG_384BIT then sh_sha384_write ctx data data_len
  else if has alg SHALG_256BIT then sh_sha256_write ctx data data_len
  else if has alg SHALG_224BIT then sh_sha224_write ctx data data_len
  else if has alg SHALG_128BIT then sh_sha1_write ctx data data_len
  else Some (ERR_OPNOTSUPP, ctx).
Definition shsha_result (ctx : sh_sha_t) : option (Z * list byte * sh_sha_t) :=
  let alg := sha_alg ctx in
  if has alg SHALG_512BIT then sh_sha512_result ctx
  else if has alg SHALG_384BIT then sh_sha384_result ctx
  else if has alg SHALG_256BIT then sh_sha256_result ctx
  else if has alg SHALG_224BIT then sh_sha224_result ctx
  else if has alg SHALG_128BIT then sh_sha1_result ctx
  else Some (0, [], ctx).

(** [shsha]: [ctx] is the local context as the stack holds it. *)
Definition shsha (ctx : sh_sha_t) (mem : list byte) (alg : Z) (data : option (list byte)) (data_len : Z) :
  option (Z * list byte) :=
  if negb (has alg SHALG_SHA) then Some (ERR_INVAL, [])
  else
    let '(e, ctx) := shsha_init ctx mem alg in
    if negb (e =? 0) then Some (e, [])
    else
      '(e, ctx) ← shsha_write ctx data data_len;
      if negb (e =? 0) then Some (e, [])
      else '(e, d, _) ← shsha_result ctx; Some (e, d).
(** The one-shot functions ignore the error codes. *)
Definition sh_oneshot (init : Z * sh_sha_t) (write : sh_sha_t → option (list byte) → Z → option (Z * sh_sha_t))
    (result : sh_sha_t → option (Z * list byte * sh_sha_t)) (message : option (list byte)) (len : Z) : option (list byte) :=
  '(_, ctx) ← write init.2 message len; '(_, d, _) ← result ctx; Some d.
Definition sh_sha224 (mem : list byte) := sh_oneshot (sh_sha224_init mem) sh_sha224_write sh_sha224_result.
Definition sh_sha256 (mem : list byte) := sh_oneshot (sh_sha256_init mem) sh_sha256_write sh_sha256_result.
Definition sh_sha512 (mem : list byte) := sh_oneshot (sh_sha512_init mem) sh_sha512_write sh_sha512_result.

(** The vectors of the library's own tests and of the standard, for ["abc"]. *)
Definition abc : list byte := byte_of_Z <$> [97; 98; 99].
Definition garbage (n : nat) : list byte := replicate n xff.
Example sha1_abc : shsha (Sha 0 (CtxReset [] [])) (garbage 64) SHALG_SHA1 (Some abc) 3 =
  Some (0, be_enc 20 0xa9993e364706816aba3e25717850c26c9cd0d89d).
Proof. by vm_compute. Qed.
Example sha256_abc : shsha (Sha 0 (CtxReset [] [])) (garbage 64) SHALG_SHA256 (Some abc) 3 =
  Some (0, be_enc 32 0xba7816bf8f01cfea414140de5dae2223b00361a396177a9cb410ff61f20015ad).
Proof. by vm_compute. Qed.
Example sha384_abc : shsha (Sha 0 (CtxReset [] [])) (garbage 128) SHALG_SHA384 (Some abc) 3 =
  Some (0, be_enc 48 0xcb00753f45a35e8bb5a03d699ac65007272c32ab0eded1631a8b605a43ff5bed8086072ba1e7cc2358baeca134c825a7).
Proof. by vm_compute. Qed.
