(* ===== verification/ShaSpec.v ===== *)
(** * The Secure Hash Standard, and that the code computes it

    The digest of a whole message as FIPS 180-4 defines it (padding, message
    schedule by recursion on the index, rounds), and the invariant that ties the
    incremental context to it. *)

From S2P Require Import Prelude Errors Sha.

(** ** The standard *)
Definition Ch (x y z : Z) : Z := Z.lxor (Z.land x y) (Z.land (Z.lnot x) z).
Definition Maj (x y z : Z) : Z := Z.lxor (Z.lxor (Z.land x y) (Z.land x z)) (Z.land y z).
Definition Parity (x y z : Z) : Z := Z.lxor (Z.lxor x y) z.

(** [n] rounds from [a], numbered from 0. *)
Fixpoint iter_t {A} (step : A → nat → A) (n : nat) (a : A) : A :=
  match n with O => a | S n => step (iter_t step n a) n end.

(** Word [t] of block [M]. *)
Definition word_of (n : nat) (M : list byte) (t : nat) : Z := be_dec (take n (drop (t * n) M)).
(** A schedule given by a recurrence on earlier words; [fuel] exceeds the index. *)
Fixpoint sched (n : nat) (rec : (nat → Z) → nat → Z) (M : list byte) (fuel t : nat) : Z :=
  match fuel with
  | O => 0
  | S fuel => if (t <? 16)%nat then word_of n M t else rec (sched n rec M fuel) t
  end.
Definition W_ n rec M t := sched n rec M (S t) t.

Section fips2.
Variables (w : Z) (n : nat) (K : list Z) (SIGMA0 SIGMA1 sigma0 sigma1 : Z → Z).
Definition rec2 (W : nat → Z) (t : nat) : Z :=
  (sigma1 (W (t - 2)%nat) + W (t - 7)%nat + sigma0 (W (t - 15)%nat) + W (t - 16)%nat) mod 2 ^ w.
Definition fips2_step (M : list byte) (r : regs2) (t : nat) : regs2 :=
  let '(Regs2 a b c d e f g h) := r in
  let T1 := (h + SIGMA1 e + Ch e f g + at_t K t + W_ (Z.to_nat (w / 8)) rec2 M t) mod 2 ^ w in
  let T2 := (SIGMA0 a + Maj a b c) mod 2 ^ w in
  Regs2 ((T1 + T2) mod 2 ^ w) a b c ((d + T1) mod 2 ^ w) e f g.
Definition fips2 (H : list Z) (M : list byte) : list Z :=
  let '(Regs2 a b c d e f g h) := iter_t (fips2_step M) (16 + n) (load_regs2 H) in
  (λ i, (at_t H i + at_t [a; b; c; d; e; f; g; h] i) mod 2 ^ w) <$> seq 0 8.
End fips2.

Definition rec1 (W : nat → Z) (t : nat) : Z :=
  ROTL 32 1 (Z.lxor (Z.lxor (Z.lxor (W (t - 3)%nat) (W (t - 8)%nat)) (W (t - 14)%nat)) (W (t - 16)%nat)).
Definition f_t (t : nat) : Z → Z → Z → Z :=
  if (t <? 20)%nat then Ch else if (t <? 40)%nat then Parity else if (t <? 60)%nat then Maj else Parity.
Definition K_t (t : nat) : Z := at_t SHA1_K (t / 20).
Definition fips1_step (M : list byte) (r : regs1) (t : nat) : regs1 :=
  let '(Regs1 a b c d e) := r in
  Regs1 (u32 (ROTL 32 5 a + f_t t b c d + e + W_ 4 rec1 M t + K_t t)) a (ROTL 32 30 b) c d.
Definition fips1 (H : list Z) (M : list byte) : list Z :=
  let '(Regs1 a b c d e) := iter_t (fips1_step M) 80
    (Regs1 (at_t H 0) (at_t H 1) (at_t H 2) (at_t H 3) (at_t H 4)) in
  (λ i, u32 (at_t H i + at_t [a; b; c; d; e] i)) <$> seq 0 5.

(** Padding: a one bit, zeros up to a whole number of blocks, and the length of
    the message in bits. *)
Definition pad (blk wb : nat) (msg : list byte) : list byte :=
  msg ++ [x80] ++ replicate ((blk - (length msg + 1 + 2 * wb) mod blk) mod blk) x00 ++
  be_enc (2 * wb) (8 * zlen msg).

(** [n] blocks of [l] into the hash value [H]. *)
Fixpoint absorb (P : list Z → list byte → list Z) (blk n : nat) (H : list Z) (l : list byte) : list Z :=
  match n with
  | O => H
  | S n => absorb P blk n (P H (take blk l)) (drop blk l)
  end.
Definition fips_hash (P : list Z → list byte → list Z) (blk wb : nat) (H0 : list Z) (msg : list byte) : list Z :=
  let l := pad blk wb msg in absorb P blk (length l / blk) H0 l.
Definition fips_digest (P : list Z → list byte → list Z) (blk wb : nat) (H0 : list Z) (size : nat) (msg : list byte) : list byte :=
  take size (concat (be_enc wb <$> fips_hash P blk wb H0 msg)).

Definition P256 := fips2 32 48 SHA256_K SHA256_SIGMA0 SHA256_SIGMA1 SHA256_sigma0 SHA256_sigma1.
Definition P512 := fips2 64 64 SHA512_K SHA512_SIGMA0 SHA512_SIGMA1 SHA512_sigma0 SHA512_sigma1.
Inductive sha_kind := K1 | K224 | K256 | K384 | K512.
Definition kind_alg (k : sha_kind) : Z :=
  match k with K1 => SHALG_SHA1 | K224 => SHALG_SHA224 | K256 => SHALG_SHA256 | K384 => SHALG_SHA384 | K512 => SHALG_SHA512 end.
(** The digest of a message by the standard. *)
Definition SHS (k : sha_kind) : list byte → list byte :=
  match k with
  | K1 => fips_digest fips1 64 4 SHA1_H0 20
  | K224 => fips_digest P256 64 4 SHA224_H0 28
  | K256 => fips_digest P256 64 4 SHA256_H0 32
  | K384 => fips_digest P512 128 8 SHA384_H0 48
  | K512 => fips_digest P512 128 8 SHA512_H0 64
  end.

(** ** The macros *)
Lemma SHA_Ch_eq x y z : SHA_Ch x y z = Ch x y z.
Proof.
  apply Z.bits_inj'. intros n Hn. unfold SHA_Ch, Ch. rewrite !Z.lxor_spec, !Z.land_spec, Z.lxor_spec, Z.lnot_spec by done.
  by destruct (Z.testbit x n), (Z.testbit y n), (Z.testbit z n).
Qed.
Lemma SHA_Maj_eq x y z : SHA_Maj x y z = Maj x y z.
Proof.
  apply Z.bits_inj'. intros n Hn. unfold SHA_Maj, Maj. rewrite !Z.lxor_spec, Z.lor_spec, !Z.land_spec, Z.lor_spec.
  by destruct (Z.testbit x n), (Z.testbit y n), (Z.testbit z n).
Qed.

(** ** Schedules and rounds *)
Lemma at_t_app W v t : at_t (W ++ [v]) t = if (t <? length W)%nat then at_t W t else if (t =? length W)%nat then v else 0.
Proof.
  unfold at_t. destruct (Nat.ltb_spec t (length W)); [by rewrite app_nth1|]. rewrite app_nth2 by lia.
  destruct (Nat.eqb_spec t (length W)) as [->|]; [by rewrite Nat.sub_diag|].
  destruct (t - length W)%nat as [|[|]] eqn:E; [lia|done..].
Qed.

Lemma extend_spec next g n W0 :
  length W0 = 16%nat → (∀ t, (t < 16)%nat → at_t W0 t = g t) →
  (∀ W t, (16 ≤ t)%nat → (∀ j, (j < t)%nat → at_t W j = g j) → next W t = g t) →
  length (extend next n W0) = (16 + n)%nat ∧ ∀ t, (t < 16 + n)%nat → at_t (extend next n W0) t = g t.
Proof.
  intros HW Hg Hn. unfold extend. induction n as [|n [IHl IH]]; [rewrite !Nat.add_0_r; auto|].
  rewrite seq_S, foldl_app. cbn [foldl]. split; [rewrite length_app, IHl; simpl; lia|].
  intros t Ht. rewrite at_t_app, IHl. destruct (Nat.ltb_spec t (16 + n)); [by apply IH|].
  replace t with (16 + n)%nat by lia. rewrite Nat.eqb_refl. apply Hn; [lia|]. done.
Qed.

Lemma sched_fuel n rec M f f' t :
  (∀ W W' t, (16 ≤ t)%nat → (∀ j, (j < t)%nat → W j = W' j) → rec W t = rec W' t) →
  (t < f)%nat → (t < f')%nat → sched n rec M f t = sched n rec M f' t.
Proof.
  intros Hrec. revert f' t. induction f as [|f IH]; intros f' t Hf Hf'; [lia|]. destruct f' as [|f']; [lia|].
  cbn [sched]. destruct (Nat.ltb_spec t 16); [done|]. apply Hrec; [done|]. intros j Hj. apply IH; lia.
Qed.

Lemma at_t_load n M t : (t < 16)%nat → at_t (load_words n M) t = word_of n M t.
Proof.
  intros Ht. unfold at_t, load_words. rewrite (nth_indep _ _ (word_of n M 0)); [|by rewrite length_fmap, length_seq].
  change (λ t, be_dec (take n (drop (t * n) M))) with (word_of n M).
  etrans; [exact (map_nth (word_of n M) (seq 0 16) 0%nat t)|]. by rewrite seq_nth by done.
Qed.

(** An array filled in order holds the schedule. *)
Lemma extend_sched n rec next M m :
  (∀ W t, next W t = rec (at_t W) t) →
  (∀ W W' t, (16 ≤ t)%nat → (∀ j, (j < t)%nat → W j = W' j) → rec W t = rec W' t) →
  ∀ t, (t < 16 + m)%nat → at_t (extend next m (load_words n M)) t = W_ n rec M t.
Proof.
  intros Hnext Hrec. apply extend_spec.
  - unfold load_words. by rewrite length_fmap, length_seq.
  - intros t Ht. rewrite at_t_load by done. unfold W_. cbn [sched]. by rewrite (proj2 (Nat.ltb_lt t 16)).
  - intros W t Ht HW. rewrite Hnext. unfold W_. cbn [sched]. rewrite (proj2 (Nat.ltb_ge t 16)) by done.
    apply Hrec; [done|]. intros j Hj. rewrite HW by done. apply sched_fuel; [exact Hrec|lia..].
Qed.

Lemma foldl_iter {A} (f g : A → nat → A) a n r :
  (∀ r t, (a ≤ t < a + n)%nat → f r t = g r t) → foldl f (iter_t g a r) (seq a n) = iter_t g (a + n) r.
Proof.
  induction n as [|n IH]; intros Hfg; [by rewrite Nat.add_0_r|].
  rewrite seq_S, foldl_app, IH by (intros; apply Hfg; lia). cbn [foldl]. rewrite Nat.add_succ_r. apply Hfg. lia.
Qed.

Lemma sha2_process_eq w n K S0 S1 s0 s1 H M :
  sha2_process w n K S0 S1 s0 s1 H M = fips2 w n K S0 S1 s0 s1 H M.
Proof.
  unfold sha2_process, fips2. change (load_regs2 H) with (iter_t (fips2_step w K S0 S1 s0 s1 M) 0 (load_regs2 H)) at 1.
  rewrite (foldl_iter _ (fips2_step w K S0 S1 s0 s1 M) 0).
  - rewrite Nat.add_0_l. by destruct (iter_t _ _ _).
  - intros [A B C D E G I J] t Ht. unfold sha2_step, fips2_step. rewrite SHA_Ch_eq, SHA_Maj_eq.
    rewrite (extend_sched _ (rec2 w s0 s1)); [done|done| |lia].
    intros W W' t' Ht' HW. unfold rec2. by rewrite !HW by lia.
Qed.

Lemma sha1_process_eq H M : SHA1ProcessMessageBlock H M = fips1 H M.
Proof.
  unfold SHA1ProcessMessageBlock, fips1. set (W := extend _ _ _). set (r := Regs1 _ _ _ _ _). set (s := fips1_step M).
  assert (∀ t, (t < 80)%nat → at_t W t = W_ 4 rec1 M t) as HW.
  { apply (extend_sched 4 rec1 sha1_next M 64); [done|]. intros X X' t Ht HX. unfold rec1. by rewrite !HX by lia. }
  assert (∀ f k a, (a + 20 ≤ 80)%nat → (∀ t x y z, (a ≤ t < a + 20)%nat → f x y z = f_t t x y z ∧ k = K_t t) →
    foldl (sha1_step f k W) (iter_t s a r) (seq a 20) = iter_t s (a + 20) r) as Hseg.
  { intros f k a Ha Hf. apply foldl_iter. intros [A B C D E] t Ht. unfold sha1_step, s, fips1_step.
    destruct (Hf t B C D Ht) as [-> ->]. by rewrite HW by lia. }
  assert (∀ q t, (20 * q ≤ t < 20 * q + 20)%nat → K_t t = at_t SHA1_K q) as HK.
  { intros q t Ht. unfold K_t. f_equal. symmetry. apply (Nat.div_unique t 20 q (t - 20 * q)); lia. }
  change r with (iter_t s 0 r) at 1. unfold f_t in Hseg.
  rewrite (Hseg SHA_Ch _ 0%nat), (Hseg SHA_Parity _ 20%nat), (Hseg SHA_Maj _ 40%nat), (Hseg SHA_Parity _ 60%nat); try lia.
  - by destruct (iter_t s _ r).
  - intros t x y z Ht. rewrite (HK 3%nat) by lia. rewrite !(proj2 (Nat.ltb_ge _ _)) by lia. done.
  - intros t x y z Ht. rewrite (HK 2%nat) by lia. rewrite SHA_Maj_eq.
    rewrite (proj2 (Nat.ltb_ge t 20)), (proj2 (Nat.ltb_ge t 40)), (proj2 (Nat.ltb_lt t 60)) by lia. done.
  - intros t x y z Ht. rewrite (HK 1%nat) by lia.
    rewrite (proj2 (Nat.ltb_ge t 20)), (proj2 (Nat.ltb_lt t 40)) by lia. done.
  - intros t x y z Ht. rewrite (HK 0%nat) by lia. rewrite SHA_Ch_eq. rewrite (proj2 (Nat.ltb_lt t 20)) by lia. done.
Qed.

(** * The incremental digest computes the standard

    The invariant of a context that has taken a message, its preservation by
    every byte written, and the digest of the padded message. *)

(** ** Big-endian words *)
Lemma length_be_enc n z : length (be_enc n z) = n.
Proof. unfold be_enc. by rewrite length_reverse, length_le_enc. Qed.
Lemma le_enc_app a b z : le_enc (a + b) z = le_enc a z ++ le_enc b (z / 256 ^ Z.of_nat a).
Proof.
  revert z. induction a as [|a IH]; intros z; cbn [Nat.add le_enc app]; [by rewrite Z.div_1_r|].
  f_equal. rewrite IH, Nat2Z.inj_succ, Z.pow_succ_r, Z.div_div by lia. done.
Qed.
Lemma le_enc_lookup n z j : (j < n)%nat → le_enc n z !! j = Some (byte_of_Z (z / 256 ^ Z.of_nat j)).
Proof.
  revert z j. induction n as [|n IH]; intros z j Hj; [lia|]. destruct j as [|j]; cbn [le_enc lookup list_lookup].
  - by rewrite Z.div_1_r.
  - change ((byte_of_Z z :: le_enc n (z / 256)) !! S j) with (le_enc n (z / 256) !! j).
    rewrite IH by lia. by rewrite Nat2Z.inj_succ, Z.pow_succ_r, Z.div_div by lia.
Qed.
Lemma be_enc_lookup n z j : (j < n)%nat →
  be_enc n z !! j = Some (byte_of_Z (Z.shiftr z (8 * (Z.of_nat n - 1 - Z.of_nat j)))).
Proof.
  intros Hj. unfold be_enc. rewrite reverse_lookup by (by rewrite length_le_enc). rewrite length_le_enc, le_enc_lookup by lia.
  do 2 f_equal. rewrite Z.shiftr_div_pow2 by lia. f_equal. change 256 with (2 ^ 8). rewrite <-Z.pow_mul_r by lia.
  f_equal. lia.
Qed.
Lemma be_enc_pair n hi lo : 0 ≤ lo < 256 ^ Z.of_nat n →
  be_enc (2 * n) (hi * 256 ^ Z.of_nat n + lo) = be_enc n hi ++ be_enc n lo.
Proof.
  intros Hlo. unfold be_enc. replace (2 * n)%nat with (n + n)%nat by lia. rewrite le_enc_app, reverse_app. f_equal.
  - rewrite Z.add_comm, Z.div_add, Z.div_small by lia. done.
  - f_equal. rewrite <-le_enc_mod, Z.add_comm, Z.mod_add, Z.mod_small by lia. done.
Qed.

Lemma concat_lookup {A} (n i : nat) (ll : list (list A)) : (0 < n)%nat → Forall (λ l, length l = n) ll →
  concat ll !! i = l ← ll !! (i / n)%nat; l !! (i mod n)%nat.
Proof.
  intros Hn Hll. revert i. induction Hll as [|l ll Hl Hll IH]; intros i; cbn [concat]; [done|].
  destruct (decide (i < n)%nat) as [Hi|Hi].
  - rewrite lookup_app_l by lia. rewrite Nat.div_small, Nat.mod_small by done. done.
  - rewrite lookup_app_r by lia. rewrite IH, Hl.
    pose proof (Nat.div_add_l 1 n (i - n) ltac:(lia)) as Hq. pose proof (Nat.Div0.mod_add (i - n) 1 n) as Hm.
    rewrite (Nat.add_comm (i - n)) in Hm. replace (1 * n + (i - n))%nat with i in Hq, Hm by lia. by rewrite Hq, Hm.
Qed.

(** The bytes the [Result] functions pick are the big-endian words in order. *)
Lemma digest_words (wb n : nat) (h : list Z) : (0 < wb)%nat → (n ≤ wb * length h)%nat →
  (λ i : nat, byte_of_Z (Z.shiftr (at_t h (i / wb)) (8 * (Z.of_nat wb - 1 - Z.of_nat (i mod wb))))) <$> seq 0 n =
  take n (concat (be_enc wb <$> h)).
Proof.
  intros Hwb Hn.
  assert (Forall (λ l : list byte, length l = wb) (be_enc wb <$> h)) as Hlen
    by (apply Forall_fmap, Forall_true; intros; apply length_be_enc).
  apply list_eq. intros i. destruct (decide (i < n)%nat) as [Hi|Hi].
  - rewrite list_lookup_fmap, lookup_seq_lt, lookup_take_lt by done. cbn [fmap option_fmap option_map].
    rewrite (concat_lookup wb), list_lookup_fmap by done. rewrite Nat.add_0_l.
    assert (i / wb < length h)%nat as Hq by (apply Nat.Div0.div_lt_upper_bound; lia).
    destruct (lookup_lt_is_Some_2 h _ Hq) as [z Hz]. rewrite Hz. cbn. unfold at_t. rewrite (nth_lookup_Some _ _ _ _ Hz).
    rewrite be_enc_lookup by (apply Nat.mod_upper_bound; lia). done.
  - rewrite !lookup_ge_None_2; [done|rewrite length_take; lia|rewrite length_fmap, length_seq; lia].
Qed.

(** ** Blocks *)
Lemma absorb_app P blk n H l k : (n * blk ≤ length l)%nat → absorb P blk n H (l ++ k) = absorb P blk n H l.
Proof.
  revert H l. induction n as [|n IH]; intros H l Hl; [done|]. cbn [absorb].
  rewrite take_app_le, drop_app_le by lia. apply IH. rewrite length_drop. lia.
Qed.
Lemma absorb_S P blk n H l : absorb P blk (S n) H l = P (absorb P blk n H l) (take blk (drop (n * blk) l)).
Proof.
  revert H l. induction n as [|n IH]; intros H l; [by rewrite drop_0|].
  change (absorb P blk (S (S n)) H l) with (absorb P blk (S n) (P H (take blk l)) (drop blk l)).
  rewrite IH, drop_drop. done.
Qed.

Lemma absorb_add P blk n m H l : absorb P blk (n + m) H l = absorb P blk m (absorb P blk n H l) (drop (n * blk) l).
Proof.
  revert H l. induction n as [|n IH]; intros H l; [by rewrite drop_0|]. cbn [absorb Nat.add]. rewrite IH, drop_drop. done.
Qed.

Section stream.
Variables (F : sha_fam) (H0 : list Z).
Hypothesis Hwb : (0 < f_word F)%nat.
Hypothesis Hblk : (2 * f_word F < f_block F)%nat.
Abbreviation blk := (f_block F).
Abbreviation wb := (f_word F).
Abbreviation abs := (absorb (f_process F) blk).
Abbreviation base := (256 ^ Z.of_nat wb).

Lemma base_bits : 2 ^ (8 * Z.of_nat wb) = base.
Proof. rewrite Z.pow_mul_r by lia. done. Qed.

Record absorbed (c : sha_ctx) (msg : list byte) : Prop := {
  ab_hash : Intermediate_Hash c = abs (length msg / blk) H0 msg;
  ab_index : Message_Block_Index c = (length msg mod blk)%nat;
  ab_len : length (Message_Block c) = blk;
  ab_block : take (length msg mod blk) (Message_Block c) = drop (length msg / blk * blk) msg;
  ab_high : 0 ≤ Length_High c;
  ab_low : 0 ≤ Length_Low c < base;
  ab_bits : Length_High c * base + Length_Low c = 8 * zlen msg;
  ab_computed : Computed c = 0;
  ab_corrupted : Corrupted c = 0;
}.

Lemma reset_absorbed mem : length mem = blk → absorbed (CtxReset H0 mem) [].
Proof.
  intros Hm. constructor; cbn -[Z.pow]; rewrite ?Nat.Div0.mod_0_l, ?Nat.Div0.div_0_l; try done.
  lia.
Qed.

Lemma put_byte_spec c b : (Message_Block_Index c < length (Message_Block c))%nat →
  put_byte c b = Some (set_block c (S (Message_Block_Index c)) (<[Message_Block_Index c := b]> (Message_Block c))).
Proof. intros Hi. unfold put_byte. by rewrite (proj2 (Nat.ltb_lt _ _) Hi). Qed.

(** The length of the message stays exact while it fits. *)
Lemma add_length_spec c n : 0 ≤ Length_High c → 0 ≤ Length_Low c < base →
  Length_High c * base + Length_Low c = 8 * n → 8 * (n + 1) < base * base →
  ∃ hi lo, AddLength F c 8 = set_len c hi lo ∧ 0 ≤ hi ∧ 0 ≤ lo < base ∧ hi * base + lo = 8 * (n + 1).
Proof.
  intros Hh Hl Hb Hn. unfold AddLength. rewrite base_bits.
  assert (256 ≤ base) as H256.
  { change 256 with (256 ^ 1) at 1. apply Z.pow_le_mono_r; lia. }
  destruct (Z.ltb_spec (Length_Low c + 8) base) as [Hlt|Hge].
  - rewrite Z.mod_small by lia. rewrite (proj2 (Z.ltb_ge _ _)) by lia.
    exists (Length_High c), (Length_Low c + 8). repeat split; lia.
  - assert ((Length_Low c + 8) mod base = Length_Low c + 8 - base) as ->.
    { symmetry. apply (Z.mod_unique _ _ 1); lia. }
    rewrite (proj2 (Z.ltb_lt _ _)) by lia.
    assert (Length_High c + 1 < base) as Hhi by nia.
    rewrite Z.mod_small by lia. rewrite (proj2 (Z.eqb_neq _ _)) by lia.
    exists (Length_High c + 1), (Length_Low c + 8 - base). repeat split; lia.
Qed.

Lemma mod_succ (a : nat) : (0 < blk)%nat →
  (S (a mod blk) < blk ∧ S a mod blk = S (a mod blk) ∧ S a / blk = a / blk ∨
   S (a mod blk) = blk ∧ S a mod blk = 0 ∧ S a / blk = S (a / blk))%nat.
Proof.
  intros Hb. pose proof (Nat.mod_upper_bound a blk ltac:(lia)). pose proof (Nat.div_mod_eq a blk).
  destruct (decide (S (a mod blk) < blk)%nat); [left|right]; (split; [lia|]).
  - split; symmetry; [apply (Nat.mod_unique _ _ (a / blk))|apply (Nat.div_unique _ _ _ (S (a mod blk)))]; lia.
  - split; symmetry; [apply (Nat.mod_unique _ _ (S (a / blk)))|apply (Nat.div_unique _ _ _ 0)]; lia.
Qed.

Lemma take_insert_snoc (l : list byte) i b : (i < length l)%nat → take (S i) (<[i:=b]> l) = take i l ++ [b].
Proof.
  intros Hi. erewrite take_S_r by (by apply list_lookup_insert_eq). by rewrite take_insert_ge by lia.
Qed.

Lemma write_byte_spec c msg b l : absorbed c msg → 8 * (zlen msg + 1) < base * base →
  ∃ c', write_loop F c (b :: l) = write_loop F c' l ∧ absorbed c' (msg ++ [b]).
Proof.
  intros Hc Hfit. destruct Hc as [Hh Hi Hlen Hbl Hhi Hlo Hbits Hcomp Hcorr].
  pose proof (Nat.mod_upper_bound (length msg) blk ltac:(lia)) as Hr.
  pose proof (Nat.div_mod_eq (length msg) blk) as Hdm. rewrite (Nat.mul_comm blk) in Hdm.
  cbn [write_loop]. rewrite put_byte_spec by lia. cbn [mbind option_bind].
  set (c1 := set_block _ _ _).
  destruct (add_length_spec c1 (zlen msg)) as (hi & lo & -> & Hhi' & Hlo' & Hbits'); [done..|].
  assert (length (msg ++ [b]) = S (length msg)) as Hl1 by (rewrite length_app; simpl; lia).
  assert (take (S (length msg mod blk)) (Message_Block c1) = drop (length msg / blk * blk) (msg ++ [b])) as Hbl'.
  { unfold c1. cbn [Message_Block set_block]. rewrite Hi, take_insert_snoc by lia.
    rewrite Hbl, drop_app_le by lia. done. }
  assert (length (Message_Block c1) = blk) as Hlen1 by (unfold c1; cbn; by rewrite length_insert).
  cbn [Corrupted set_len Message_Block_Index]. change (Corrupted c1) with (Corrupted c). rewrite Hcorr, Z.eqb_refl, andb_true_l.
  change (Message_Block_Index c1) with (S (Message_Block_Index c)). rewrite Hi.
  destruct (mod_succ (length msg)) as [(Hlt & Hm & Hd)|(Heq & Hm & Hd)]; [lia| |].
  - rewrite (proj2 (Nat.eqb_neq _ _)) by lia. eexists. split; [done|].
    constructor; cbn [Intermediate_Hash Message_Block_Index Message_Block Length_High Length_Low Computed Corrupted set_len set_block];
      rewrite ?Hl1, ?Hm, ?Hd; try done.
    + unfold c1. cbn. rewrite Hh. by rewrite absorb_app by lia.
    + unfold c1. cbn. by rewrite Hi.
    + lia.
  - rewrite (proj2 (Nat.eqb_eq _ _) Heq). eexists. split; [done|].
    constructor; cbn [Intermediate_Hash Message_Block_Index Message_Block Length_High Length_Low Computed Corrupted set_len set_block set_hash ProcessMessageBlock];
      rewrite ?Hl1, ?Hm, ?Hd; try done.
    + rewrite absorb_S, absorb_app by lia. change (Intermediate_Hash c1) with (Intermediate_Hash c). rewrite Hh. f_equal.
      rewrite <-Hbl', Heq. rewrite take_take, Nat.min_id. by rewrite take_ge by lia.
    + rewrite take_0. rewrite drop_ge; [done|]. rewrite Hl1. lia.
    + lia.
Qed.

Lemma write_loop_spec c msg l : absorbed c msg → 8 * zlen (msg ++ l) < base * base →
  ∃ c', write_loop F c l = Some c' ∧ absorbed c' (msg ++ l).
Proof.
  revert c msg. induction l as [|b l IH]; intros c msg Hc Hfit.
  - exists c. by rewrite app_nil_r.
  - destruct (write_byte_spec c msg b l Hc) as (c1 & -> & Hc1).
    { rewrite length_app in Hfit. cbn [length] in Hfit. lia. }
    rewrite (cons_middle b msg l), app_assoc. apply IH; [done|]. by rewrite <-app_assoc.
Qed.

Lemma ctx_write_spec c msg l : absorbed c msg → 8 * zlen (msg ++ l) < base * base →
  ∃ c', ctx_write F c (Some l) (zlen l) = Some (0, c') ∧ absorbed c' (msg ++ l).
Proof.
  intros Hc Hfit. unfold ctx_write. destruct (Z.eqb_spec (zlen l) 0) as [E|E].
  - destruct l; [|done]. exists c. by rewrite app_nil_r.
  - rewrite (ab_computed _ _ Hc), (ab_corrupted _ _ Hc), Z.ltb_irrefl. cbn [negb Z.eqb].
    rewrite Nat2Z.id, firstn_all. destruct (write_loop_spec c msg l Hc Hfit) as (c' & -> & Hc').
    exists c'. cbn. by rewrite (ab_corrupted _ _ Hc').
Qed.

(** ** Padding *)
Lemma zero_to_spec fuel lim c :
  (Message_Block_Index c ≤ lim)%nat → (lim ≤ length (Message_Block c))%nat → (lim - Message_Block_Index c ≤ fuel)%nat →
  zero_to fuel lim c = Some (set_block c lim
    (take (Message_Block_Index c) (Message_Block c) ++ replicate (lim - Message_Block_Index c) x00 ++ drop lim (Message_Block c))).
Proof.
  revert c. induction fuel as [|fuel IH]; intros c Hi Hl Hf; unfold zero_to; fold zero_to.
  - destruct (Nat.ltb_spec (Message_Block_Index c) lim); [lia|]. replace lim with (Message_Block_Index c) by lia.
    rewrite Nat.sub_diag. cbn [replicate app]. rewrite take_drop. by destruct c.
  - destruct (Nat.ltb_spec (Message_Block_Index c) lim).
    + rewrite put_byte_spec by lia. cbn [mbind option_bind]. rewrite IH; cbn [Message_Block_Index Message_Block set_block].
      * f_equal. unfold set_block; cbn. f_equal. rewrite take_insert_snoc by lia. rewrite drop_insert_lt by lia.
        replace (lim - Message_Block_Index c)%nat with (S (lim - S (Message_Block_Index c)))%nat by lia.
        cbn [replicate]. by rewrite <-app_assoc.
      * lia.
      * rewrite length_insert. lia.
      * lia.
    + replace lim with (Message_Block_Index c) by lia.
      rewrite Nat.sub_diag. cbn [replicate app]. rewrite take_drop. by destruct c.
Qed.

Lemma pad_amount (len : nat) (r := (len mod blk)%nat) :
  ((blk - (len + 1 + 2 * wb) mod blk) mod blk =
   if (blk - 2 * wb <=? r)%nat then (blk - r - 1) + (blk - 2 * wb) else blk - 2 * wb - r - 1)%nat.
Proof.
  pose proof (Nat.mod_upper_bound len blk ltac:(lia)) as Hr. fold r in Hr. pose proof (Nat.div_mod_eq len blk) as Hd. fold r in Hd.
  destruct (Nat.leb_spec (blk - 2 * wb) r).
  - assert ((len + 1 + 2 * wb) mod blk = r + 1 + 2 * wb - blk)%nat as ->.
    { symmetry. apply (Nat.mod_unique _ _ (S (len / blk))); lia. }
    rewrite Nat.mod_small; lia.
  - destruct (decide (r + 1 + 2 * wb = blk)%nat) as [E|E].
    + assert ((len + 1 + 2 * wb) mod blk = 0)%nat as ->.
      { symmetry. apply (Nat.mod_unique _ _ (S (len / blk))); lia. }
      rewrite Nat.sub_0_r, Nat.Div0.mod_same. lia.
    + assert ((len + 1 + 2 * wb) mod blk = r + 1 + 2 * wb)%nat as ->.
      { symmetry. apply (Nat.mod_unique _ _ (len / blk)); lia. }
      rewrite Nat.mod_small; lia.
Qed.

(** What is left of the padded message after its whole blocks, for the two
    branches of [PadMessage]. *)
Definition pad_tail (c : sha_ctx) (r : nat) : list byte :=
  take r (Message_Block c) ++ [x80] ++
  (if (blk - 2 * wb <=? r)%nat then replicate (blk - r - 1) x00 ++ replicate (blk - 2 * wb) x00
   else replicate (blk - 2 * wb - r - 1) x00) ++
  be_enc wb (Length_High c) ++ be_enc wb (Length_Low c).

Lemma pad_eq c msg : absorbed c msg →
  pad blk wb msg = take (length msg / blk * blk) msg ++ pad_tail c (length msg mod blk).
Proof.
  intros [Hh Hi Hlen Hbl Hhi Hlo Hbits _ _]. unfold pad, pad_tail. rewrite Hbl, !app_assoc, take_drop, <-!app_assoc. do 2 f_equal.
  rewrite pad_amount, <-Hbits, be_enc_pair by done. f_equal.
  destruct (_ <=? _)%nat; [by rewrite replicate_add|done].
Qed.

Lemma hash_tail c msg m : absorbed c msg → length (pad_tail c (length msg mod blk)) = (m * blk)%nat →
  fips_hash (f_process F) blk wb H0 msg = abs m (Intermediate_Hash c) (pad_tail c (length msg mod blk)).
Proof.
  intros Hc Hm. unfold fips_hash. rewrite (pad_eq c msg Hc).
  assert (length (take (length msg / blk * blk) msg) = (length msg / blk * blk)%nat) as Hln.
  { rewrite length_take. pose proof (Nat.Div0.mul_div_le (length msg) blk). lia. }
  rewrite length_app, Hln, Hm, <-Nat.mul_add_distr_r, Nat.div_mul by lia. rewrite absorb_add, drop_app_length' by done.
  f_equal. rewrite absorb_app by lia. rewrite (ab_hash _ _ Hc).
  set (n := (length msg / blk)%nat) in *. rewrite <-(absorb_app _ _ n _ _ (drop (n * blk) msg)) by lia.
  by rewrite take_drop.
Qed.

Lemma length_pad_tail c r : (r < blk)%nat → length (Message_Block c) = blk →
  length (pad_tail c r) = ((if blk - 2 * wb <=? r then 2 else 1) * blk)%nat.
Proof.
  intros Hr Hl. unfold pad_tail. rewrite !length_app, length_take, !length_be_enc, Hl. cbn [length].
  destruct (Nat.leb_spec (blk - 2 * wb) r); rewrite ?length_app, !length_replicate; lia.
Qed.

Lemma pad_spec c msg : absorbed c msg →
  ∃ c', PadMessage F c x80 = Some c' ∧ Intermediate_Hash c' = fips_hash (f_process F) blk wb H0 msg ∧
    Computed c' = 0 ∧ Corrupted c' = 0.
Proof.
  intros Hc. pose proof (Nat.mod_upper_bound (length msg) blk ltac:(lia)) as Hr.
  rewrite (hash_tail c msg _ Hc (length_pad_tail c _ Hr (ab_len _ _ Hc))).
  destruct Hc as [Hh Hi Hlen Hbl Hhi Hlo Hbits Hcomp Hcorr].
  set (r := (length msg mod blk)%nat) in *. unfold PadMessage, pad_tail. rewrite Hi.
  destruct (Nat.leb_spec (blk - 2 * wb) r) as [Hge|Hlt]; rewrite put_byte_spec by lia; cbn [mbind option_bind].
  - rewrite zero_to_spec; cbn [Message_Block_Index Message_Block set_block]; rewrite ?length_insert; try lia.
    cbn [mbind option_bind].
    rewrite zero_to_spec; cbn [Message_Block_Index Message_Block set_block set_hash ProcessMessageBlock];
      rewrite ?Hi, ?length_app, ?length_replicate, ?length_take, ?length_drop, ?length_insert; try lia.
    eexists. split; [done|]. split; [|done].
    cbn [Intermediate_Hash Message_Block_Index Message_Block Length_High Length_Low set_len set_block set_hash ProcessMessageBlock absorb].
    rewrite take_insert_snoc by lia. rewrite (drop_ge _ blk) by (rewrite length_insert; lia).
    set (A := take r (Message_Block c) ++ [x80] ++ replicate (blk - r - 1) x00).
    set (B := replicate (blk - 2 * wb) x00 ++ be_enc wb (Length_High c) ++ be_enc wb (Length_Low c)).
    assert (length A = blk) as HA by (unfold A; rewrite !length_app, length_take, length_replicate; simpl; lia).
    assert (∀ X, take r (Message_Block c) ++ [x80] ++ (replicate (blk - r - 1) x00 ++ replicate (blk - 2 * wb) x00) ++ X =
      A ++ replicate (blk - 2 * wb) x00 ++ X) as -> by (intros X; unfold A; by rewrite <-!(assoc_L (++))).
    fold B. rewrite (take_app_length' A), (drop_app_length' A) by done. f_equal; [f_equal|].
    + unfold A. rewrite app_nil_r, <-(assoc_L (++)). do 3 f_equal. lia.
    + unfold B. rewrite take_0, app_nil_l, Nat.sub_0_r, take_app_length' by (by rewrite length_replicate).
      rewrite take_ge; [done|]. rewrite !length_app, length_replicate, !length_be_enc. lia.
  - rewrite zero_to_spec; cbn [Message_Block_Index Message_Block set_block set_hash ProcessMessageBlock];
      rewrite ?length_insert; try lia.
    eexists. split; [done|]. split; [|done].
    cbn [Intermediate_Hash Message_Block_Index Message_Block Length_High Length_Low set_len set_block set_hash ProcessMessageBlock absorb].
    f_equal. rewrite take_insert_snoc by lia. rewrite (assoc_L (++) _ (replicate (blk - 2 * wb - S _) x00)), Hi.
    rewrite take_app_length' by (rewrite !length_app, length_take, length_replicate; simpl; lia).
    rewrite (take_ge (_ ++ _ ++ _) blk).
    + rewrite <-!(assoc_L (++)). do 3 f_equal. f_equal. lia.
    + rewrite !length_app, length_take, length_replicate, !length_be_enc, Hlen. simpl. lia.
Qed.

Lemma result_spec c msg size : absorbed c msg → (∀ h b, length (f_process F h b) = length H0) →
  (size ≤ wb * length H0)%nat →
  ∃ c', ResultN F c size = Some (0, fips_digest (f_process F) blk wb H0 size msg, c') ∧
    ResultN F c' size = Some (0, fips_digest (f_process F) blk wb H0 size msg, c') ∧
    Message_Block c' = replicate blk x00.
Proof.
  intros Hc HP Hs. destruct (pad_spec c msg Hc) as (c1 & E & Hh & Hcomp & Hcorr).
  assert (length (fips_hash (f_process F) blk wb H0 msg) = length H0) as Hlen.
  { unfold fips_hash. generalize (length (pad blk wb msg) / blk)%nat as n. intros n.
    destruct n as [|n]; [done|]. rewrite absorb_S. apply HP. }
  unfold ResultN. rewrite (ab_corrupted _ _ Hc), (ab_computed _ _ Hc). cbn [negb Z.eqb]. unfold Finalize. rewrite E.
  cbn [mbind option_bind]. exists (set_computed (set_len (set_block c1 (Message_Block_Index c1) (replicate blk x00)) 0 0) 1). split; [|split; [|done]].
  - cbn [Intermediate_Hash set_computed set_len set_block]. rewrite Hh, digest_words by (rewrite ?Hlen; done). done.
  - cbn [Intermediate_Hash set_computed set_len set_block Corrupted Computed]. rewrite Hcorr. cbn [negb Z.eqb].
    cbn [mbind option_bind Intermediate_Hash set_computed set_len set_block].
    rewrite Hh, digest_words by (rewrite ?Hlen; done). done.
Qed.
End stream.

(** * The [shsha] interface computes the standard's digests *)

Definition kind_fam (k : sha_kind) : sha_fam :=
  match k with K1 => fam_sha1 | K224 | K256 => fam_sha256 | K384 | K512 => fam_sha512 end.
Definition kind_H0 (k : sha_kind) : list Z :=
  match k with K1 => SHA1_H0 | K224 => SHA224_H0 | K256 => SHA256_H0 | K384 => SHA384_H0 | K512 => SHA512_H0 end.
Definition kind_size (k : sha_kind) : nat := match k with K1 => 20 | K224 => 28 | K256 => 32 | K384 => 48 | K512 => 64 end.
Abbreviation kind_block k := (f_block (kind_fam k)).

Lemma absorb_ext P P' blk n H l : (∀ h b, P h b = P' h b) → absorb P blk n H l = absorb P' blk n H l.
Proof. intros HP. revert H l. induction n as [|n IH]; intros H l; [done|]. cbn [absorb]. by rewrite HP, IH. Qed.

Lemma fips_digest_ext P P' blk wb H0 size msg : (∀ h b, P h b = P' h b) →
  fips_digest P blk wb H0 size msg = fips_digest P' blk wb H0 size msg.
Proof. intros HP. unfold fips_digest, fips_hash. by rewrite (absorb_ext P P'). Qed.

Lemma SHS_eq k msg :
  fips_digest (f_process (kind_fam k)) (kind_block k) (f_word (kind_fam k)) (kind_H0 k) (kind_size k) msg = SHS k msg.
Proof.
  destruct k; (apply (fips_digest_ext (f_process (kind_fam _))); intros h b; cbn [kind_fam f_process fam_sha1 fam_sha256 fam_sha512]);
    unfold SHA224_256ProcessMessageBlock, SHA384_512ProcessMessageBlock, P256, P512;
    [apply sha1_process_eq|apply sha2_process_eq..].
Qed.

Lemma process_length k h b : length (f_process (kind_fam k) h b) = length (kind_H0 k).
Proof.
  destruct k; cbn [kind_fam kind_H0 f_process fam_sha1 fam_sha256 fam_sha512];
    unfold SHA1ProcessMessageBlock, SHA224_256ProcessMessageBlock, SHA384_512ProcessMessageBlock, sha2_process;
    by destruct (foldl _ _ (seq _ _)).
Qed.

Lemma kind_word_pos k : (0 < f_word (kind_fam k))%nat.
Proof. destruct k; cbn; lia. Qed.
Lemma kind_word_block k : (2 * f_word (kind_fam k) < f_block (kind_fam k))%nat.
Proof. destruct k; cbn; lia. Qed.
Lemma kind_fits k n : n < 2 ^ 61 → 8 * n < 256 ^ Z.of_nat (f_word (kind_fam k)) * 256 ^ Z.of_nat (f_word (kind_fam k)).
Proof. intros Hn. rewrite <-Z.pow_add_r by lia. destruct k; cbn [kind_fam f_word fam_sha1 fam_sha256 fam_sha512]; lia. Qed.

(** A context of algorithm [k] that has taken [msg]. *)
Definition sha_holds (k : sha_kind) (sha : sh_sha_t) (msg : list byte) : Prop :=
  sha_alg sha = kind_alg k ∧ absorbed (kind_fam k) (kind_H0 k) (sha_c sha) msg.

Lemma shsha_init_spec k ctx mem : (kind_block k ≤ length mem)%nat →
  ∃ sha, shsha_init ctx mem (kind_alg k) = (0, sha) ∧ sha_holds k sha [].
Proof.
  intros Hm.
  assert (absorbed (kind_fam k) (kind_H0 k) (CtxReset (kind_H0 k) (take (kind_block k) mem)) []) as Ha
    by (apply reset_absorbed; [apply kind_word_pos|apply kind_word_block|rewrite length_take; lia]).
  exists (Sha (kind_alg k) (CtxReset (kind_H0 k) (take (kind_block k) mem))). split; [by destruct k|done].
Qed.

Lemma shsha_write_kind k sha data len : sha_alg sha = kind_alg k →
  shsha_write sha data len = on_ctx (kind_fam k) sha data len.
Proof. intros Ha. unfold shsha_write. rewrite Ha. by destruct k. Qed.
Lemma shsha_result_kind k sha : sha_alg sha = kind_alg k →
  shsha_result sha = with_ctx sha (ResultN (kind_fam k) (sha_c sha) (kind_size k)).
Proof. intros Ha. unfold shsha_result. rewrite Ha. by destruct k. Qed.

Lemma shsha_write_spec k sha msg l : sha_holds k sha msg → zlen l < 2 ^ 32 → zlen (msg ++ l) < 2 ^ 61 →
  ∃ sha', shsha_write sha (Some l) (zlen l) = Some (0, sha') ∧ sha_holds k sha' (msg ++ l).
Proof.
  intros [Ha Hc] Hl Hfit.
  destruct (ctx_write_spec (kind_fam k) (kind_H0 k) (kind_word_pos k) (kind_word_block k) _ _ l Hc) as (c' & E & Hc');
    [by apply kind_fits|].
  exists (Sha (kind_alg k) c'). split; [|done].
  rewrite (shsha_write_kind k) by done. unfold on_ctx. rewrite u32_small by lia. rewrite E. cbn. by rewrite Ha.
Qed.

(** The result, and what a second call returns. *)
Lemma shsha_result_spec k sha msg : sha_holds k sha msg →
  ∃ sha', shsha_result sha = Some (0, SHS k msg, sha') ∧ shsha_result sha' = Some (0, SHS k msg, sha') ∧
    sha_alg sha' = kind_alg k ∧ length (Message_Block (sha_c sha')) = kind_block k.
Proof.
  intros [Ha Hc].
  destruct (result_spec (kind_fam k) (kind_H0 k) (kind_word_pos k) (kind_word_block k) _ _ (kind_size k) Hc) as (c' & E & E' & Hm).
  { apply process_length. }
  { destruct k; cbn; lia. }
  rewrite SHS_eq in E, E'. exists (Sha (kind_alg k) c'). rewrite !(shsha_result_kind k) by done. cbn [sha_c sha_alg].
  rewrite E, E'. unfold with_ctx. cbn [mbind option_bind]. rewrite Ha, Hm, length_replicate. done.
Qed.

Lemma length_SHS k msg : length (SHS k msg) = kind_size k.
Proof.
  rewrite <-SHS_eq. unfold fips_digest. rewrite length_take. apply Nat.min_l.
  unfold fips_hash. set (n := (length (pad _ _ msg) / _)%nat).
  assert (length (absorb (f_process (kind_fam k)) (kind_block k) n (kind_H0 k) (pad (kind_block k) (f_word (kind_fam k)) msg))
    = length (kind_H0 k)) as Hl by (destruct n as [|n]; [done|]; rewrite absorb_S; apply process_length).
  rewrite length_concat. rewrite <-list_fmap_compose.
  rewrite (sum_list_fmap_same (f_word (kind_fam k))); [|apply Forall_true; intros; apply length_be_enc].
  rewrite Hl. destruct k; cbn; lia.
Qed.

(** The digest of a message in one call. *)
Lemma shsha_spec k ctx mem data : (kind_block k ≤ length mem)%nat → zlen data < 2 ^ 32 → shsha ctx mem (kind_alg k) (Some data) (zlen data) = Some (0, SHS k data).
Proof.
  intros Hm Hd. unfold shsha. assert (has (kind_alg k) SHALG_SHA = true) as -> by (by destruct k). cbn [negb].
  destruct (shsha_init_spec k ctx mem Hm) as (s1 & -> & H1'). cbn [negb Z.eqb].
  destruct (shsha_write_spec k s1 [] data H1') as (s2 & -> & H2'); [done|rewrite app_nil_l; lia|]. cbn [mbind option_bind negb Z.eqb].
  destruct (shsha_result_spec k s2 _ H2') as (s3 & -> & _). done.
Qed.
