(* ===== verification/Hmac.v ===== *)
(** * Keyed hashes, key derivation and one-time pins

    HMAC, HKDF and the two-factor pins of
    [depend/share/src/share-lib/mem/shmem_alg_sha.c].  Lengths that the code
    converts between [size_t], [int] and [unsigned int] are converted here as
    well; [None] is an access outside a buffer, a division by zero or a
    floating-point conversion without a defined value. *)

From S2P Require Import Prelude Errors Crc Sha.

Definition ERR_ACCESS : Z := -13.

(** The first [n] bytes at a pointer. *)
Definition read_n (l : list byte) (n : Z) : option (list byte) :=
  if zlen l <? n then None else Some (take (Z.to_nat n) l).
Definition zeros (n : nat) : list byte := replicate n x00.
Definition xor_byte (v : Z) (b : byte) : byte := byte_of_Z (Z.lxor (Z_of_byte b) v).

(** ** HMAC *)
Record sh_hmac_t := Hmac {
  hm_alg : Z;
  hm_hashSize : Z;
  hm_blockSize : Z;
  hm_sha : sh_sha_t;
  hm_k_opad : list byte;
  hm_Computed : Z;
  hm_Corrupted : Z;
}.
Definition hm_set_sha (h : sh_hmac_t) (s : sh_sha_t) : sh_hmac_t :=
  Hmac (hm_alg h) (hm_hashSize h) (hm_blockSize h) s (hm_k_opad h) (hm_Computed h) (hm_Corrupted h).
Definition hm_set_opad (h : sh_hmac_t) (l : list byte) : sh_hmac_t :=
  Hmac (hm_alg h) (hm_hashSize h) (hm_blockSize h) (hm_sha h) l (hm_Computed h) (hm_Corrupted h).
Definition hm_set_corrupted (h : sh_hmac_t) (e : Z) : sh_hmac_t :=
  Hmac (hm_alg h) (hm_hashSize h) (hm_blockSize h) (hm_sha h) (hm_k_opad h) (hm_Computed h) e.
Definition hm_set_computed (h : sh_hmac_t) (v : Z) : sh_hmac_t :=
  Hmac (hm_alg h) (hm_hashSize h) (hm_blockSize h) (hm_sha h) (hm_k_opad h) v (hm_Corrupted h).

(** [memset(context, 0, sizeof(sh_hmac_t))]. *)
Definition sha_zero : sh_sha_t := Sha 0 (ShaCtx [] 0 0 0 [] 0 0).

(** A key longer than a block is replaced by its digest; [inl] is the value of
    the [||] chain, 1 when any of the calls failed.  [mem] is the memory of the
    local context. *)
Definition hmac_key (mem : list byte) (alg : Z) (key : list byte) (key_len : Z) : option (Z + list byte * Z) :=
  if shsha_blocksize alg <? key_len then
    let '(e, t) := shsha_init sha_zero mem alg in
    if negb (e =? 0) then Some (inl 1)
    else
      '(e, t) ← shsha_write t (Some key) (u64 key_len);
      if negb (e =? 0) then Some (inl 1)
      else
        '(e, d, _) ← shsha_result t;
        if negb (e =? 0) then Some (inl 1) else Some (inr (d, shsha_size alg))
  else Some (inr (key, key_len)).

Definition shhmac_init (mem : list byte) (alg : Z) (key : list byte) (key_len : Z) : option (Z * sh_hmac_t) :=
  let blocksize := shsha_blocksize alg in
  let context := Hmac alg (shsha_size alg) blocksize sha_zero (zeros 128) 0 0 in
  r ← hmac_key mem alg key key_len;
  match r with
  | inl err => Some (err, context)
  | inr (key, key_len) =>
     k ← read_n key key_len;
     let rest := Z.to_nat (blocksize - Z.of_nat (length k)) in
     let k_ipad := (xor_byte 0x36 <$> k) ++ replicate rest x36 in
     let k_opad := (xor_byte 0x5c <$> k) ++ replicate rest x5c in
     let context := hm_set_opad context (k_opad ++ drop (length k_opad) (zeros 128)) in
     let '(ret, sha) := shsha_init (hm_sha context) (zeros 128) alg in
     let context := hm_set_sha context sha in
     if negb (ret =? 0) then Some (ret, hm_set_corrupted context ret)
     else
       '(ret, sha) ← shsha_write (hm_sha context) (Some k_ipad) blocksize;
       let context := hm_set_sha context sha in
       if negb (ret =? 0) then Some (ret, hm_set_corrupted context ret) else Some (0, context)
  end.

Definition shhmac_write (context : sh_hmac_t) (text : option (list byte)) (text_len : Z) : option (Z * sh_hmac_t) :=
  if negb (hm_Corrupted context =? 0) then Some (hm_Corrupted context, context)
  else if negb (hm_Computed context =? 0) then Some (ERR_INVAL, hm_set_corrupted context ERR_INVAL)
  else
    '(e, sha) ← shsha_write (hm_sha context) text (u64 text_len);
    Some (e, hm_set_corrupted (hm_set_sha context sha) e).

(** The [||] chain of [shhmac_result]: the calls up to the first that fails, the
    digest buffer and the context. *)
Definition hmac_chain (context : sh_hmac_t) : option (Z * list byte * sh_sha_t) :=
  '(e, d, s) ← shsha_result (hm_sha context);
  if negb (e =? 0) then Some (1, d, s)
  else
    let '(e, s) := shsha_init s (Message_Block (sha_c s)) (hm_alg context) in
    if negb (e =? 0) then Some (1, d, s)
    else
      '(e, s) ← shsha_write s (Some (hm_k_opad context)) (hm_blockSize context);
      if negb (e =? 0) then Some (1, d, s)
      else
        '(e, s) ← shsha_write s (Some d) (hm_hashSize context);
        if negb (e =? 0) then Some (1, d, s)
        else
          '(e, d, s) ← shsha_result s;
          Some (if negb (e =? 0) then 1 else 0, d, s).
Definition shhmac_result (context : sh_hmac_t) : option (Z * list byte * sh_hmac_t) :=
  if negb (hm_Corrupted context =? 0) then Some (hm_Corrupted context, [], context)
  else if negb (hm_Computed context =? 0) then Some (ERR_INVAL, [], hm_set_corrupted context ERR_INVAL)
  else
    '(ret, d, s) ← hmac_chain context;
    Some (ret, d, hm_set_corrupted (hm_set_computed (hm_set_sha context s) 1) ret).

(** [size_t key_len] becomes [int] in [shhmac_init]. *)
Definition shhmac (mem : list byte) (alg : Z) (key : list byte) (key_len : Z) (text : option (list byte)) (len : Z) :
  option (Z * list byte) :=
  '(e, c) ← shhmac_init mem alg key (i32 key_len);
  if negb (e =? 0) then Some (e, [])
  else
    '(e, c) ← shhmac_write c text len;
    if negb (e =? 0) then Some (e, [])
    else '(e, d, _) ← shhmac_result c; Some (e, d).

(** ** HKDF *)
Definition shhkdf_extract (mem : list byte) (alg : Z) (salt : option (list byte)) (salt_len : Z)
    (ikm : list byte) (ikm_len : Z) : option (Z * list byte) :=
  match salt with
  | None => shhmac mem alg ikm (u64 ikm_len) (Some (zeros (Z.to_nat (shsha_size alg)))) (shsha_size alg)
  | Some salt =>
     if salt_len <? 0 then Some (ERR_INVAL, [])
     else shhmac mem alg ikm (u64 ikm_len) (Some salt) salt_len
  end.

(** One block [T(i)]; the value of the [||] chain and [T]. *)
Definition hkdf_block (mem : list byte) (alg : Z) (prk : list byte) (prk_len : Z) (T info : list byte) (Tlen info_len : Z) (i : Z) :
  option (Z * list byte) :=
  '(e, c) ← shhmac_init mem alg prk prk_len;
  if negb (e =? 0) then Some (1, T)
  else
    '(e, c) ← shhmac_write c (Some T) Tlen;
    if negb (e =? 0) then Some (1, T)
    else
      '(e, c) ← shhmac_write c (Some info) info_len;
      if negb (e =? 0) then Some (1, T)
      else
        '(e, c) ← shhmac_write c (Some [byte_of_Z i]) 1;
        if negb (e =? 0) then Some (1, T)
        else '(e, d, _) ← shhmac_result c; Some (if negb (e =? 0) then 1 else 0, d).
(** [n] blocks are left, [i] is the next; [okm] is what was stored so far. *)
Fixpoint hkdf_loop (n : nat) (mem : list byte) (alg : Z) (prk : list byte) (prk_len : Z) (T info : list byte)
    (Tlen info_len hash_len okm_len i : Z) (okm : list byte) : option (Z * list byte) :=
  match n with
  | O => Some (0, okm)
  | S n =>
     '(ret, T) ← hkdf_block mem alg prk prk_len T info Tlen info_len i;
     if negb (ret =? 0) then Some (ret, okm)
     else
       part ← read_n T (match n with O => okm_len - zlen okm | S _ => hash_len end);
       hkdf_loop n mem alg prk prk_len T info hash_len info_len hash_len okm_len (i + 1) (okm ++ part)
  end.
Definition shhkdf_expand (mem : list byte) (alg : Z) (prk : list byte) (prk_len : Z) (info : option (list byte)) (info_len : Z)
    (okm_len : Z) : option (Z * list byte) :=
  if (match info with None => false | Some _ => info_len <? 0 end) || (okm_len <=? 0) then Some (ERR_INVAL, [])
  else
    let info_len := match info with None => 0 | Some _ => info_len end in
    let info := default [] info in
    let hash_len := shsha_size alg in
    if prk_len <? hash_len then Some (ERR_INVAL, [])
    else if hash_len =? 0 then None
    else
      let N := okm_len / hash_len + (if okm_len mod hash_len =? 0 then 0 else 1) in
      if 255 <? N then Some (ERR_INVAL, [])
      else hkdf_loop (Z.to_nat N) mem alg prk prk_len [] info 0 info_len hash_len okm_len 1 [].
(** The [||] of two calls. *)
Definition shhkdf (mem : list byte) (alg : Z) (salt : option (list byte)) (salt_len : Z) (ikm : list byte) (ikm_len : Z)
    (info : option (list byte)) (info_len okm_len : Z) : option (Z * list byte) :=
  '(e, prk) ← shhkdf_extract mem alg salt salt_len ikm ikm_len;
  if negb (e =? 0) then Some (1, [])
  else
    '(e, okm) ← shhkdf_expand mem alg prk (shsha_size alg) info info_len okm_len;
    Some (if negb (e =? 0) then 1 else 0, okm).

(** The incremental interface.  [shhkdf_init] does not set [Computed] and
    [Corrupted]: they keep what the memory held. *)
Record sh_hkdf_t := Hkdf {
  hk_alg : Z;
  hk_hmac : sh_hmac_t;
  hk_hashSize : Z;
  hk_Computed : Z;
  hk_Corrupted : Z;
}.
Definition shhkdf_init (context : sh_hkdf_t) (mem : list byte) (alg : Z) (salt : option (list byte)) (salt_len : Z) :
  option (Z * sh_hkdf_t) :=
  let hashSize := shsha_size alg in
  let '(salt, salt_len) := match salt with None => (zeros (Z.to_nat hashSize), hashSize) | Some s => (s, salt_len) end in
  '(e, h) ← shhmac_init mem alg salt salt_len;
  Some (e, Hkdf alg h hashSize (hk_Computed context) (hk_Corrupted context)).
Definition hk_set_corrupted (c : sh_hkdf_t) (e : Z) : sh_hkdf_t :=
  Hkdf (hk_alg c) (hk_hmac c) (hk_hashSize c) (hk_Computed c) e.
Definition shhkdf_write (context : sh_hkdf_t) (ikm : option (list byte)) (ikm_len : Z) : option (Z * sh_hkdf_t) :=
  if negb (hk_Corrupted context =? 0) then Some (hk_Corrupted context, context)
  else if negb (hk_Computed context =? 0) then Some (ERR_INVAL, hk_set_corrupted context ERR_INVAL)
  else
    '(e, h) ← shhmac_write (hk_hmac context) ikm ikm_len;
    Some (e, Hkdf (hk_alg context) h (hk_hashSize context) (hk_Computed context) (hk_Corrupted context)).
Definition shhkdf_result (context : sh_hkdf_t) (mem : list byte) (info : option (list byte)) (info_len okm_len : Z) :
  option (Z * list byte * sh_hkdf_t) :=
  if negb (hk_Corrupted context =? 0) then Some (hk_Corrupted context, [], context)
  else if negb (hk_Computed context =? 0) then Some (ERR_INVAL, [], hk_set_corrupted context ERR_INVAL)
  else
    '(e, prk, h) ← shhmac_result (hk_hmac context);
    '(ret, okm) ← (if negb (e =? 0) then Some (1, [])
                   else
                     '(e, okm) ← shhkdf_expand mem (hk_alg context) prk (hk_hashSize context) info info_len okm_len;
                     Some (if negb (e =? 0) then 1 else 0, okm));
    Some (ret, okm, Hkdf (hk_alg context) h (hk_hashSize context) 1 ret).

(** ** One-time pins *)

(** [PIN_2FA_MODULO]: [(uint32_t)pow(10, len - 4)], defined while the value is
    a 32-bit integer. *)
Definition PIN_2FA_MODULO (secret_len : Z) : option Z :=
  if (4 <=? secret_len) && (secret_len <=? 13) then Some (10 ^ (secret_len - 4)) else None.
(** The pin of period [t].  [hash] is the local array of 256 bytes, of which the
    keyed hash fills the first ones. *)
Definition pin_of (mem hash : list byte) (alg : Z) (secret : list byte) (secret_len : Z) (t : Z) : option Z :=
  '(_, d) ← shhmac mem alg secret secret_len (Some (le_enc 8 (htonll t))) 8;
  let hash := d ++ drop (length d) hash in
  b ← hash !! 19%nat;
  let off := Z.land (Z_of_byte b) 0xf in
  w ← read_n (drop (Z.to_nat off) hash) 4;
  let hash32 := htonl (le_dec w) in
  if secret_len <=? 16 then m ← PIN_2FA_MODULO secret_len; Some (hash32 mod m) else Some hash32.
(** [(uint64_t)(time(NULL) / freq)]. *)
Definition period (now freq : Z) : option Z := if freq =? 0 then None else Some (u64 (Z.quot now freq)).
Definition shsha_2fa_bin (mem hash : list byte) (now : Z) (alg : Z) (secret : option (list byte)) (secret_len freq : Z) : option Z :=
  match secret with
  | None => Some 0
  | Some secret => t ← period now freq; pin_of mem hash alg secret secret_len t
  end.
(** [for (t = t_st; t <= t_end; t++)], three rounds at most. *)
Fixpoint verify_loop (n : nat) (mem hash : list byte) (alg : Z) (secret : list byte) (secret_len t t_end pin : Z) : option Z :=
  if t <=? t_end then
    match n with
    | O => None
    | S n =>
       h ← pin_of mem hash alg secret secret_len t;
       if h =? pin then Some 0 else verify_loop n mem hash alg secret secret_len (u64 (t + 1)) t_end pin
    end
  else Some ERR_ACCESS.
Definition shsha_2fa_bin_verify (mem hash : list byte) (now : Z) (alg : Z) (secret : option (list byte)) (secret_len freq pin : Z) : option Z :=
  match secret with
  | None => Some ERR_INVAL
  | Some secret =>
     p ← period now freq;
     let t_st := u64 (p - 1) in
     verify_loop 3 mem hash alg secret secret_len t_st (u64 (t_st + 2)) pin
  end.

(** [rand i] is the value of call [i] of [shrand]; [n] rounds are left. *)
Fixpoint secret_loop (n : nat) (rand : nat → Z) (i : nat) (secret_len : Z) (secret : list byte) : list byte :=
  match n with
  | O => secret
  | S n =>
     let off := u64 (Z.of_nat i * 8) in
     let len := Z.to_nat (Z.min 8 (u64 (secret_len - off))) in
     let off := Z.to_nat off in
     secret_loop n rand (S i) secret_len (take off secret ++ take len (le_enc 8 (rand i)) ++ drop (off + len) secret)
  end.
Definition shsha_2fa_secret_bin (rand : nat → Z) (secret_len : Z) : list byte :=
  let secret := zeros (Z.to_nat secret_len) in
  let secret_len := secret_len / 8 in
  secret_loop (Z.to_nat secret_len) rand 0 secret_len secret.
