(* ===== verification/HmacSpec.v ===== *)
(** * RFC 2104 and RFC 5869, and that the code computes them *)

From S2P Require Import Prelude Errors Crc Sha ShaSpec Hmac.

(** ** The standards *)
Definition hmac_K0 (k : sha_kind) (key : list byte) : list byte :=
  let key := if (kind_block k <? length key)%nat then SHS k key else key in
  key ++ zeros (kind_block k - length key).
Definition HMAC (k : sha_kind) (key text : list byte) : list byte :=
  SHS k ((xor_byte 0x5c <$> hmac_K0 k key) ++ SHS k ((xor_byte 0x36 <$> hmac_K0 k key) ++ text)).

(** [T(0) = ""], [T(i) = HMAC(PRK, T(i-1) | info | i)]. *)
Fixpoint hkdf_T (k : sha_kind) (prk info : list byte) (i : nat) : list byte :=
  match i with O => [] | S j => HMAC k prk (hkdf_T k prk info j ++ info ++ [byte_of_Z (Z.of_nat i)]) end.
Definition HKDF_Expand (k : sha_kind) (prk info : list byte) (L : nat) : list byte :=
  let N := ((L + kind_size k - 1) / kind_size k)%nat in
  take L (concat (hkdf_T k prk info <$> seq 1 N)).
Definition HKDF_Extract (k : sha_kind) (salt ikm : list byte) : list byte := HMAC k salt ikm.

(** ** HMAC *)
Lemma blocksize_kind k : shsha_blocksize (kind_alg k) = Z.of_nat (kind_block k).
Proof. by destruct k. Qed.
Lemma size_kind k : shsha_size (kind_alg k) = Z.of_nat (kind_size k).
Proof. by destruct k. Qed.
Lemma kind_size_pos k : (0 < kind_size k ≤ kind_block k ∧ kind_block k ≤ 128)%nat.
Proof. destruct k; cbn; lia. Qed.
Lemma xor_byte_0 v : 0 ≤ v < 256 → xor_byte v x00 = byte_of_Z v.
Proof. intros Hv. unfold xor_byte. change (Z_of_byte x00) with 0. by rewrite Z.lxor_0_l. Qed.
Lemma length_hmac_K0 k key : length (hmac_K0 k key) = kind_block k.
Proof.
  unfold hmac_K0. rewrite length_app. unfold zeros. rewrite length_replicate. pose proof (kind_size_pos k).
  destruct (Nat.ltb_spec (kind_block k) (length key)); rewrite ?length_SHS; lia.
Qed.
Lemma length_HMAC k key text : length (HMAC k key text) = kind_size k.
Proof. apply length_SHS. Qed.

Lemma read_n_all l : read_n l (zlen l) = Some l.
Proof. unfold read_n. rewrite Z.ltb_irrefl, Nat2Z.id, firstn_all. done. Qed.
Lemma read_n_app l k : read_n (l ++ k) (zlen l) = Some l.
Proof.
  unfold read_n. rewrite length_app, (proj2 (Z.ltb_ge _ _)) by lia. rewrite Nat2Z.id. by rewrite take_app_length.
Qed.
Lemma write_prefix sha l k : zlen l < 2 ^ 32 → shsha_write sha (Some (l ++ k)) (zlen l) = shsha_write sha (Some l) (zlen l).
Proof.
  intros Hl. unfold shsha_write, sh_sha512_write, sh_sha384_write, sh_sha512_write, sh_sha256_write, sh_sha224_write, sh_sha256_write, sh_sha1_write.
  assert (∀ F, on_ctx F sha (Some (l ++ k)) (zlen l) = on_ctx F sha (Some l) (zlen l)) as Hon.
  { intros F. unfold on_ctx. rewrite u32_small by lia. unfold ctx_write. rewrite length_app.
    rewrite (proj2 (Z.ltb_ge (Z.of_nat (length l + length k)) (zlen l))), Z.ltb_irrefl by lia.
    rewrite Nat2Z.id, take_app_length, firstn_all. done. }
  by rewrite !Hon.
Qed.

Definition small_mem (mem : list byte) : Prop := (128 ≤ length mem)%nat.

Lemma hmac_key_spec k mem key : small_mem mem → zlen key < 2 ^ 31 →
  ∃ d, hmac_key mem (kind_alg k) key (zlen key) = Some (inr (d, zlen d)) ∧
    d = (if (kind_block k <? length key)%nat then SHS k key else key).
Proof.
  intros Hm Hk. unfold small_mem in Hm. unfold hmac_key. rewrite blocksize_kind. pose proof (kind_size_pos k).
  destruct (Nat.ltb_spec (kind_block k) (length key)) as [Hlt|Hge].
  - rewrite (proj2 (Z.ltb_lt _ _)) by lia.
    destruct (shsha_init_spec k sha_zero mem) as (s & -> & Hs); [lia|]. cbn [negb Z.eqb].
    rewrite u64_small by lia.
    destruct (shsha_write_spec k s [] key Hs) as (s1 & -> & Hs1); [lia|rewrite app_nil_l; lia|]. cbn [mbind option_bind negb Z.eqb].
    destruct (shsha_result_spec k s1 _ Hs1) as (s2 & -> & _). rewrite app_nil_l. cbn [mbind option_bind negb Z.eqb].
    exists (SHS k key). rewrite size_kind, length_SHS. done.
  - rewrite (proj2 (Z.ltb_ge _ _)) by lia. by exists key.
Qed.

(** A context that has taken [text] under [key]. *)
Definition hmac_holds (k : sha_kind) (key : list byte) (c : sh_hmac_t) (text : list byte) : Prop :=
  hm_alg c = kind_alg k ∧ hm_hashSize c = Z.of_nat (kind_size k) ∧ hm_blockSize c = Z.of_nat (kind_block k) ∧
  (∃ z, hm_k_opad c = (xor_byte 0x5c <$> hmac_K0 k key) ++ z) ∧
  hm_Computed c = 0 ∧ hm_Corrupted c = 0 ∧ sha_holds k (hm_sha c) ((xor_byte 0x36 <$> hmac_K0 k key) ++ text).

Lemma shhmac_init_spec k mem key : small_mem mem → zlen key < 2 ^ 31 →
  ∃ c, shhmac_init mem (kind_alg k) key (zlen key) = Some (0, c) ∧ hmac_holds k key c [].
Proof.
  intros Hm Hk. unfold shhmac_init. destruct (hmac_key_spec k mem key Hm Hk) as (d & -> & Hd). cbn [mbind option_bind].
  rewrite read_n_all. cbn [mbind option_bind]. rewrite blocksize_kind, size_kind. pose proof (kind_size_pos k) as Hsz.
  assert (length d ≤ kind_block k)%nat as Hdl.
  { rewrite Hd. destruct (Nat.ltb_spec (kind_block k) (length key)); rewrite ?length_SHS; lia. }
  replace (Z.to_nat _) with (kind_block k - length d)%nat by lia.
  assert (hmac_K0 k key = d ++ zeros (kind_block k - length d)) as HK by (unfold hmac_K0; by rewrite Hd).
  assert (∀ v, 0 ≤ v < 256 → (xor_byte v <$> d) ++ replicate (kind_block k - length d) (byte_of_Z v) = (xor_byte v <$> hmac_K0 k key)) as Hpad.
  { intros v Hv. rewrite HK, fmap_app. f_equal. unfold zeros. by rewrite fmap_replicate, xor_byte_0. }
  change x36 with (byte_of_Z 0x36). change x5c with (byte_of_Z 0x5c). rewrite !Hpad by lia.
  cbn [hm_sha hm_set_opad].
  destruct (shsha_init_spec k sha_zero (zeros 128)) as (s & -> & Hs); [unfold zeros; rewrite length_replicate; lia|].
  cbn [negb Z.eqb hm_set_sha hm_sha].
  set (ip := xor_byte 0x36 <$> hmac_K0 k key).
  assert (zlen ip = Z.of_nat (kind_block k)) as Hip by (unfold ip; by rewrite length_fmap, length_hmac_K0).
  destruct (shsha_write_spec k s [] ip Hs) as (s1 & E1 & Hs1); [lia|rewrite app_nil_l; lia|]. rewrite Hip in E1. rewrite E1.
  cbn [mbind option_bind negb Z.eqb]. eexists. split; [done|]. unfold hmac_holds.
  cbn [hm_alg hm_hashSize hm_blockSize hm_sha hm_k_opad hm_Computed hm_Corrupted hm_set_sha hm_set_opad].
  rewrite app_nil_r. split_and!; eauto.
Qed.

Lemma shhmac_write_spec k key c text l : hmac_holds k key c text → zlen l < 2 ^ 31 → zlen (text ++ l) < 2 ^ 60 →
  ∃ c', shhmac_write c (Some l) (zlen l) = Some (0, c') ∧ hmac_holds k key c' (text ++ l).
Proof.
  intros (Ha & Hh & Hb & Ho & Hc & He & Hs) Hl Hfit. unfold shhmac_write. rewrite He, Hc. cbn [negb Z.eqb].
  rewrite u64_small by lia. pose proof (kind_size_pos k).
  destruct (shsha_write_spec k _ _ l Hs) as (s & -> & Hs').
  { lia. }
  { rewrite <-(assoc_L (++)), length_app, length_fmap, length_hmac_K0. lia. }
  cbn [mbind option_bind]. eexists. split; [done|]. rewrite <-(assoc_L (++)) in Hs'. done.
Qed.

Lemma shhmac_result_spec k key c text : hmac_holds k key c text →
  ∃ c', shhmac_result c = Some (0, HMAC k key text, c').
Proof.
  intros (Ha & Hh & Hb & [z Ho] & Hc & He & Hs). unfold shhmac_result, hmac_chain. rewrite He, Hc. cbn [negb Z.eqb].
  pose proof (kind_size_pos k).
  destruct (shsha_result_spec k _ _ Hs) as (s & -> & _ & Hsa & Hsm). cbn [mbind option_bind negb Z.eqb]. rewrite Ha.
  destruct (shsha_init_spec k s (Message_Block (sha_c s))) as (s1 & -> & Hs1); [lia|]. cbn [negb Z.eqb].
  rewrite Ho, Hb, Hh. set (op := xor_byte 0x5c <$> hmac_K0 k key).
  assert (zlen op = Z.of_nat (kind_block k)) as Hop by (unfold op; by rewrite length_fmap, length_hmac_K0).
  rewrite <-Hop, write_prefix by lia.
  destruct (shsha_write_spec k s1 [] op Hs1) as (s2 & -> & Hs2); [lia|rewrite app_nil_l; lia|]. cbn [mbind option_bind negb Z.eqb].
  set (inner := SHS k _). assert (zlen inner = Z.of_nat (kind_size k)) as Hin by (unfold inner; by rewrite length_SHS).
  rewrite <-Hin. destruct (shsha_write_spec k s2 ([] ++ op) inner Hs2) as (s3 & -> & Hs3);
    [lia|rewrite app_nil_l, length_app; lia|]. cbn [mbind option_bind negb Z.eqb].
  destruct (shsha_result_spec k s3 _ Hs3) as (s4 & -> & _). cbn [mbind option_bind negb Z.eqb]. rewrite app_nil_l.
  eexists. done.
Qed.

Lemma shhmac_spec k mem key text : small_mem mem → zlen key < 2 ^ 31 → zlen text < 2 ^ 31 →
  shhmac mem (kind_alg k) key (zlen key) (Some text) (zlen text) = Some (0, HMAC k key text).
Proof.
  intros Hm Hk Ht. unfold shhmac. rewrite i32_small by lia.
  destruct (shhmac_init_spec k mem key Hm Hk) as (c & -> & Hc). cbn [mbind option_bind negb Z.eqb].
  destruct (shhmac_write_spec k key c [] text Hc) as (c1 & -> & Hc1); [lia|rewrite app_nil_l; lia|]. cbn [mbind option_bind negb Z.eqb].
  destruct (shhmac_result_spec k key c1 _ Hc1) as (c2 & ->). done.
Qed.

(** ** HKDF *)
Lemma hkdf_block_spec k mem prk T info i : small_mem mem → zlen prk < 2 ^ 31 → zlen T < 2 ^ 31 → zlen info < 2 ^ 31 →
  hkdf_block mem (kind_alg k) prk (zlen prk) T info (zlen T) (zlen info) i =
  Some (0, HMAC k prk (T ++ info ++ [byte_of_Z i])).
Proof.
  intros Hm Hp HT Hi. unfold hkdf_block.
  destruct (shhmac_init_spec k mem prk Hm Hp) as (c & -> & Hc). cbn [mbind option_bind negb Z.eqb].
  destruct (shhmac_write_spec k prk c [] T Hc) as (c1 & -> & Hc1); [lia|rewrite app_nil_l; lia|]. cbn [mbind option_bind negb Z.eqb].
  destruct (shhmac_write_spec k prk c1 _ info Hc1) as (c2 & -> & Hc2); [lia|rewrite app_nil_l, length_app; lia|].
  cbn [mbind option_bind negb Z.eqb].
  destruct (shhmac_write_spec k prk c2 _ [byte_of_Z i] Hc2) as (c3 & E & Hc3);
    [simpl; lia|rewrite app_nil_l, !length_app; simpl; lia|].
  change 1 with (zlen [byte_of_Z i]). rewrite E. cbn [mbind option_bind negb Z.eqb].
  destruct (shhmac_result_spec k prk c3 _ Hc3) as (c4 & ->). cbn [mbind option_bind negb Z.eqb].
  by rewrite app_nil_l, <-(assoc_L (++)).
Qed.

Lemma length_hkdf_T k prk info i : length (hkdf_T k prk info (S i)) = kind_size k.
Proof. apply length_HMAC. Qed.
Lemma length_Ts k prk info a n : (0 < a)%nat → length (concat (hkdf_T k prk info <$> seq a n)) = (n * kind_size k)%nat.
Proof.
  revert a. induction n as [|n IH]; intros a Ha; [done|]. cbn [seq fmap list_fmap concat]. rewrite length_app.
  destruct a as [|a]; [lia|]. rewrite length_hkdf_T. setoid_rewrite IH; lia.
Qed.

(** With [j] blocks done and [n] left, the loop adds the rest of the key. *)
Lemma hkdf_loop_spec k mem prk info L n j : small_mem mem → zlen prk < 2 ^ 31 → zlen info < 2 ^ 31 →
  (j * kind_size k + n * kind_size k < L + kind_size k)%nat → (n = 0 ∨ L ≤ j * kind_size k + n * kind_size k)%nat →
  hkdf_loop n mem (kind_alg k) prk (zlen prk) (hkdf_T k prk info j) info (zlen (hkdf_T k prk info j)) (zlen info)
    (Z.of_nat (kind_size k)) (Z.of_nat L) (Z.of_nat j + 1) (concat (hkdf_T k prk info <$> seq 1 j)) =
  Some (0, if decide (n = 0)%nat then concat (hkdf_T k prk info <$> seq 1 j)
           else take L (concat (hkdf_T k prk info <$> seq 1 (j + n)))).
Proof.
  intros Hm Hp Hi. revert j. pose proof (kind_size_pos k). induction n as [|n IH]; intros j Hlt Hle; [done|].
  cbn [hkdf_loop].
  assert (zlen (hkdf_T k prk info j) < 2 ^ 31) as HT by (destruct j; [done|]; rewrite length_hkdf_T; lia).
  rewrite hkdf_block_spec by done. cbn [mbind option_bind negb Z.eqb].
  replace (byte_of_Z (Z.of_nat j + 1)) with (byte_of_Z (Z.of_nat (S j))) by (f_equal; lia).
  change (HMAC k prk (hkdf_T k prk info j ++ info ++ [byte_of_Z (Z.of_nat (S j))])) with (hkdf_T k prk info (S j)).
  assert (concat (hkdf_T k prk info <$> seq 1 (S j)) = concat (hkdf_T k prk info <$> seq 1 j) ++ hkdf_T k prk info (S j)) as HS.
  { rewrite seq_S, fmap_app, concat_app. cbn [fmap list_fmap concat]. by rewrite app_nil_r. }
  rewrite decide_False by lia. rewrite length_Ts by lia.
  destruct n as [|n].
  - unfold read_n. rewrite length_hkdf_T, (proj2 (Z.ltb_ge _ _)) by lia. cbn [mbind option_bind hkdf_loop].
    replace (j + 1)%nat with (S j) by lia. rewrite HS, take_app, length_Ts by lia. do 3 f_equal; [|f_equal; lia].
    symmetry. apply take_ge. rewrite length_Ts; lia.
  - pose proof (length_hkdf_T k prk info j) as HTl.
    replace (Z.of_nat (kind_size k)) with (zlen (hkdf_T k prk info (S j))) at 1 by (by rewrite HTl). rewrite read_n_all.
    cbn [mbind option_bind]. rewrite <-HS. replace (Z.of_nat j + 1 + 1) with (Z.of_nat (S j) + 1) by lia.
    replace (Z.of_nat (kind_size k)) with (zlen (hkdf_T k prk info (S j))) at 1 by (by rewrite HTl).
    rewrite IH by lia. rewrite decide_False by lia. do 3 f_equal. f_equal. f_equal. f_equal. lia.
Qed.

Lemma hkdf_expand_spec k mem prk info L : small_mem mem → zlen prk < 2 ^ 31 → zlen info < 2 ^ 31 →
  (kind_size k ≤ length prk)%nat → (0 < L ≤ 255 * kind_size k)%nat →
  shhkdf_expand mem (kind_alg k) prk (zlen prk) (Some info) (zlen info) (Z.of_nat L) = Some (0, HKDF_Expand k prk info L).
Proof.
  intros Hm Hp Hi Hk HL. unfold shhkdf_expand. pose proof (kind_size_pos k) as Hs.
  rewrite (proj2 (Z.ltb_ge (zlen info) 0)), (proj2 (Z.leb_gt (Z.of_nat L) 0)) by lia. cbn [orb default].
  rewrite size_kind, (proj2 (Z.ltb_ge _ _)), (proj2 (Z.eqb_neq _ 0)) by lia.
  set (s := kind_size k) in *.
  assert (Z.of_nat L / Z.of_nat s + (if Z.of_nat L mod Z.of_nat s =? 0 then 0 else 1) = Z.of_nat ((L + s - 1) / s)) as ->.
  { rewrite <-Nat2Z.inj_div, <-Nat2Z.inj_mod. pose proof (Nat.div_mod_eq L s). pose proof (Nat.mod_upper_bound L s ltac:(lia)).
    destruct (Z.eqb_spec (Z.of_nat (L mod s)) 0).
    - assert ((L + s - 1) / s = L / s)%nat as ->; [|lia]. symmetry. apply (Nat.div_unique _ _ _ (s - 1)); lia.
    - assert ((L + s - 1) / s = L / s + 1)%nat as ->; [|lia]. symmetry. apply (Nat.div_unique _ _ _ (L mod s - 1)); lia. }
  set (N := ((L + s - 1) / s)%nat).
  assert (N * s < L + s ∧ L ≤ N * s)%nat as [HN1 HN2].
  { unfold N. pose proof (Nat.div_mod_eq (L + s - 1) s). pose proof (Nat.mod_upper_bound (L + s - 1) s ltac:(lia)). nia. }
  rewrite (proj2 (Z.ltb_ge 255 _)) by nia. rewrite Nat2Z.id.
  pose proof (hkdf_loop_spec k mem prk info L N 0 Hm Hp Hi) as Hloop. cbn [hkdf_T length seq fmap list_fmap concat Nat.mul Nat.add Z.of_nat] in Hloop.
  rewrite Z.add_0_l in Hloop. fold s in Hloop. setoid_rewrite Hloop; [|lia..]. rewrite decide_False by lia. done.
Qed.

(** * One-time pins

    The value of the pins of [shsha_2fa_bin], what [shsha_2fa_bin_verify]
    accepts, and the pins of the RPC service ([shcoind_rpc.c]). *)

(** ** The RPC service

    [key] is the key that [get_rpc_dat_password] finds for the host. *)
Definition CRED_SECRET_LEN : Z := 28.
Definition FIVE_MINUTES : Z := 300.
Definition get_rpc_pin (mem hash : list byte) (now : Z) (key : option (list byte)) : option Z :=
  match key with
  | None => Some 0
  | Some key => shsha_2fa_bin mem hash now SHALG_SHA224 (Some (drop 4 key)) CRED_SECRET_LEN FIVE_MINUTES
  end.
Definition verify_rpc_pin (mem hash : list byte) (now : Z) (key : option (list byte)) (pin : Z) : option Z :=
  match key with
  | None => Some ERR_NOENT
  | Some key => shsha_2fa_bin_verify mem hash now SHALG_SHA224 (Some (drop 4 key)) CRED_SECRET_LEN FIVE_MINUTES pin
  end.

(** ** Byte order *)
Lemma lor_shift a b n : 0 ≤ n → 0 ≤ b < 2 ^ n → Z.lor (Z.shiftl a n) b = a * 2 ^ n + b.
Proof.
  intros Hn Hb. rewrite <-Z.shiftl_mul_pow2 by done. symmetry. apply Z.add_nocarry_lor.
  apply Z.bits_inj'. intros i Hi. rewrite Z.land_spec, Z.bits_0. destruct (decide (i < n)).
  - by rewrite Z.shiftl_spec_low.
  - destruct (decide (b = 0)) as [->|]; [by rewrite Z.bits_0, andb_false_r|].
    rewrite (Z.bits_above_log2 b), andb_false_r; [done|lia|]. apply Z.log2_lt_pow2; [lia|].
    apply Z.lt_le_trans with (2 ^ n); [lia|]. apply Z.pow_le_mono_r; lia.
Qed.

Lemma land_ff x : Z.land x 0xFF = x mod 256.
Proof. change 0xFF with (Z.ones 8). by rewrite Z.land_ones. Qed.
Lemma htonl_eq x : htonl x =
  x mod 256 * 2 ^ 24 + ((x / 2 ^ 8) mod 256 * 2 ^ 16 + ((x / 2 ^ 16) mod 256 * 2 ^ 8 + (x / 2 ^ 24) mod 256)).
Proof.
  unfold htonl. rewrite !land_ff, !Z.shiftr_div_pow2 by done.
  rewrite (lor_shift (_ mod _) (_ mod _) 8), (lor_shift _ _ 16), (lor_shift _ _ 24); [done|done| |done| |done|];
    repeat match goal with |- context [?a mod 256] => pose proof (Z.mod_pos_bound a 256 ltac:(lia)); generalize dependent (a mod 256) end;
    intros; lia.
Qed.
Lemma htonl_dec x : htonl x = le_dec (be_enc 4 x).
Proof.
  rewrite htonl_eq.
  change (be_enc 4 x) with [byte_of_Z (x / 256 / 256 / 256); byte_of_Z (x / 256 / 256); byte_of_Z (x / 256); byte_of_Z x].
  cbn [le_dec]. rewrite !Z_of_byte_of_Z, !Z.div_div by lia.
  change (256 * (256 * 256)) with (2 ^ 24). change (256 * 256) with (2 ^ 16). change (x / 256) with (x / 2 ^ 8). lia.
Qed.
Lemma htonl_enc x : le_enc 4 (htonl x) = be_enc 4 x.
Proof. rewrite htonl_dec. rewrite <-(length_be_enc 4 x) at 1. apply le_enc_dec. Qed.
Lemma htonl_le_dec (w : list byte) : length w = 4%nat → htonl (le_dec w) = be_dec w.
Proof. intros Hw. rewrite htonl_dec. unfold be_enc, be_dec. rewrite <-Hw, le_enc_dec. done. Qed.

Lemma htonll_enc x : 0 ≤ x < 2 ^ 64 → le_enc 8 (htonll x) = be_enc 8 x.
Proof.
  intros Hx. unfold htonll. change 0xFFFFFFFF with (Z.ones 32). rewrite Z.land_ones, Z.shiftr_div_pow2 by done.
  assert (∀ y, 0 ≤ htonl y < 2 ^ 32) as Hr.
  { intros y. rewrite htonl_dec. pose proof (le_dec_range (be_enc 4 y)) as Hd. rewrite length_be_enc in Hd. lia. }
  unfold u64. rewrite Z.mod_small by (rewrite Z.shiftl_mul_pow2 by done; pose proof (Hr (x mod 2 ^ 32)); lia).
  rewrite lor_shift by auto with lia. rewrite u32_small by (split; [apply Z.div_pos; lia|apply Z.div_lt_upper_bound; lia]).
  change 8%nat with (4 + 4)%nat at 1. rewrite le_enc_app.
  rewrite <-(le_enc_mod 4 (_ + _)). change (256 ^ Z.of_nat 4) with (2 ^ 32).
  assert (∀ a b, 0 ≤ b < 2 ^ 32 → (a * 2 ^ 32 + b) mod 2 ^ 32 = b ∧ (a * 2 ^ 32 + b) / 2 ^ 32 = a) as Hdm.
  { intros a b Hb. split; symmetry; [apply (Z.mod_unique _ _ a)|apply (Z.div_unique _ _ _ b)]; lia. }
  destruct (Hdm (htonl (x mod 2 ^ 32)) (htonl (x / 2 ^ 32))) as [-> ->]; [apply Hr|].
  rewrite !htonl_enc. rewrite (Z.div_mod x (2 ^ 32)) at 3 by lia. rewrite (Z.mul_comm (2 ^ 32)).
  change 8%nat with (2 * 4)%nat. change (2 ^ 32) with (256 ^ Z.of_nat 4). rewrite be_enc_pair by (apply Z.mod_pos_bound; lia). f_equal.
Qed.

(** ** The value of a pin

    Four bytes of the keyed hash of the period, at the offset given by the low
    bits of byte 19, most significant first; a secret of at most 16 bytes gives
    a decimal pin. *)
Definition pin_word (k : sha_kind) (secret : list byte) (t : Z) : Z :=
  let d := HMAC k secret (be_enc 8 t) in
  be_dec (take 4 (drop (Z.to_nat (Z_of_byte (nth 19 d x00) mod 16)) d)).
Definition PIN (k : sha_kind) (secret : list byte) (t : Z) : Z :=
  if (length secret <=? 16)%nat then pin_word k secret t mod 10 ^ (zlen secret - 4) else pin_word k secret t.
Definition secret_ok (n : nat) : Prop := (4 ≤ n ≤ 13 ∨ 16 < n)%nat.

Lemma pin_of_spec k mem hash secret t : small_mem mem → secret_ok (length secret) → zlen secret < 2 ^ 31 → 0 ≤ t < 2 ^ 64 →
  pin_of mem hash (kind_alg k) secret (zlen secret) t = Some (PIN k secret t).
Proof.
  intros Hm Hs Hl Ht. unfold pin_of. rewrite htonll_enc by done.
  pose proof (shhmac_spec k mem secret (be_enc 8 t) Hm Hl) as E. rewrite length_be_enc in E. change (Z.of_nat 8) with 8 in E. rewrite E by lia.
  cbn [mbind option_bind]. set (d := HMAC k secret (be_enc 8 t)). pose proof (length_HMAC k secret (be_enc 8 t)) as Hd. fold d in Hd.
  assert (20 ≤ length d)%nat as H20 by (rewrite Hd; destruct k; cbn; lia).
  destruct (lookup_lt_is_Some_2 d 19) as [b Hb]; [lia|]. rewrite lookup_app_l, Hb by lia. cbn [mbind option_bind].
  change 0xf with (Z.ones 4). rewrite Z.land_ones by done. change (2 ^ 4) with 16.
  set (o := Z.to_nat (Z_of_byte b mod 16)).
  assert (o < 16)%nat as Ho by (unfold o; pose proof (Z.mod_pos_bound (Z_of_byte b) 16 ltac:(lia)); lia).
  assert (read_n (drop o (d ++ drop (length d) hash)) 4 = Some (take 4 (drop o d))) as ->.
  { unfold read_n. rewrite drop_app_le by lia. rewrite length_app, length_drop, (proj2 (Z.ltb_ge _ 4)) by lia.
    change (Z.to_nat 4) with 4%nat. rewrite take_app_le by (rewrite length_drop; lia). done. }
  cbn [mbind option_bind]. rewrite htonl_le_dec by (rewrite length_take, length_drop; lia).
  assert (be_dec (take 4 (drop o d)) = pin_word k secret t) as ->.
  { unfold pin_word. fold d. by rewrite (nth_lookup_Some _ _ _ _ Hb). }
  unfold PIN. destruct (Nat.leb_spec (length secret) 16).
  - rewrite (proj2 (Z.leb_le _ _)) by lia. unfold PIN_2FA_MODULO. unfold secret_ok in Hs.
    rewrite (proj2 (Z.leb_le 4 _)), (proj2 (Z.leb_le _ 13)) by lia. done.
  - rewrite (proj2 (Z.leb_gt _ _)) by lia. done.
Qed.

(** ** Verification *)
Definition clock_ok (now freq : Z) : Prop := 0 < freq ∧ freq ≤ now < 2 ^ 63.
Lemma period_spec now freq : clock_ok now freq → period now freq = Some (now / freq) ∧ 1 ≤ now / freq < 2 ^ 63.
Proof.
  intros [Hf Hn]. assert (1 ≤ now / freq < 2 ^ 63) as Hp.
  { split; [apply Z.div_le_lower_bound; lia|]. apply Z.div_lt_upper_bound; nia. }
  unfold period. rewrite (proj2 (Z.eqb_neq _ _)) by lia. rewrite Z.quot_div_nonneg, u64_small by lia. done.
Qed.

Lemma verify_spec k mem hash now secret freq pin : small_mem mem → secret_ok (length secret) → zlen secret < 2 ^ 31 → clock_ok now freq →
  shsha_2fa_bin_verify mem hash now (kind_alg k) (Some secret) (zlen secret) freq pin =
  Some (if bool_decide (pin ∈ (λ i, PIN k secret (now / freq + i)) <$> [-1; 0; 1]) then 0 else ERR_ACCESS).
Proof.
  intros Hm Hs Hl Hc. destruct (period_spec now freq Hc) as [E Hp]. unfold shsha_2fa_bin_verify. rewrite E. cbn [mbind option_bind].
  set (p := now / freq) in *. rewrite !(u64_small (p - 1)), (u64_small (p - 1 + 2)) by lia.
  pose proof (λ t Ht, pin_of_spec k mem hash secret t Hm Hs Hl Ht) as Hpin.
  replace (p - 1 + 2) with (p + 1) by lia. unfold verify_loop.
  rewrite (proj2 (Z.leb_le (p - 1) _)), (u64_small (p - 1 + 1)) by lia.
  replace (p - 1 + 1) with p by lia. rewrite (proj2 (Z.leb_le p _)), !(u64_small (p + 1)) by lia.
  rewrite (proj2 (Z.leb_le (p + 1) _)), !(u64_small (p + 1 + 1)) by lia. rewrite (proj2 (Z.leb_gt (p + 1 + 1) _)) by lia.
  rewrite !Hpin by lia. cbn [mbind option_bind]. cbn [fmap list_fmap]. rewrite Z.add_0_r. change (p + -1) with (p - 1).
  destruct (Z.eqb_spec (PIN k secret (p - 1)) pin) as [<-|H1]; [by rewrite bool_decide_true by set_solver|].
  destruct (Z.eqb_spec (PIN k secret p) pin) as [<-|H2]; [by rewrite bool_decide_true by set_solver|].
  destruct (Z.eqb_spec (PIN k secret (p + 1)) pin) as [<-|H3]; [by rewrite bool_decide_true by set_solver|].
  rewrite bool_decide_false; [done|]. set_solver.
Qed.

Lemma get_pin_spec k mem hash now secret freq : small_mem mem → secret_ok (length secret) → zlen secret < 2 ^ 31 → clock_ok now freq →
  shsha_2fa_bin mem hash now (kind_alg k) (Some secret) (zlen secret) freq = Some (PIN k secret (now / freq)).
Proof.
  intros Hm Hs Hl Hc. destruct (period_spec now freq Hc) as [E Hp]. unfold shsha_2fa_bin. rewrite E. cbn [mbind option_bind].
  apply pin_of_spec; try done. lia.
Qed.
