(* ===== verification/Key.v ===== *)
(** * Share keys

    [depend/share/src/share-lib/mem/shmem_key.c]: 224-bit keys derived from data,
    compared, signed, and printed as text, with the base-64 digits of
    [share.c].  A key that a function allocates is returned; the functions whose
    name begins with [ashkey] answer in one static key, which they take and
    return here. *)

From S2P Require Import Prelude Errors Crc Sha Hmac.

Definition SHKEY_WORDS : nat := 7.
Definition SHALG_ECDSA160R : Z := Z.lor (Z.shiftl 1 11) (Z.lor (Z.shiftl 1 1) (Z.shiftl 1 15)).

Record shkey_t := Key { k_alg : Z; k_crc : Z; k_code : list Z }.
#[global] Instance shkey_eq_dec : EqDecision shkey_t.
Proof. solve_decision. Defined.
Definition _shkey_blank : shkey_t := Key 0 0 (replicate SHKEY_WORDS 0).
(** The 32 bytes of a key in memory. *)
Definition key_bytes (key : shkey_t) : list byte :=
  le_enc 2 (k_alg key) ++ le_enc 2 (k_crc key) ++ concat (le_enc 4 <$> k_code key).

(** ** Keys of data *)

(** Word [i]: the checksum of a digest in a zeroed buffer of 64 bytes.  [mem] is
    the memory of the local digest context. *)
Definition key_word (mem data : list byte) (i : nat) : option Z :=
  let data_len := zlen data in
  let step := data_len / Z.of_nat SHKEY_WORDS in
  let off := step * Z.of_nat i in
  let len := Z.min (data_len - off) (step + 8) in
  hash ← sh_sha256 mem (Some (drop (Z.to_nat off) data)) len;
  Some (shcrc32 (hash ++ drop (length hash) (zeros 64))).
Definition shkey_bin_r (mem data : list byte) : option shkey_t :=
  code ← mapM (key_word mem data) (seq 0 SHKEY_WORDS);
  Some (Key 0 0 code).

Definition shkey_bin (mem : list byte) (data : option (list byte)) : option shkey_t :=
  match data with
  | None | Some [] => Some _shkey_blank
  | Some data => shkey_bin_r mem data
  end.
Definition shkey_str (mem : list byte) (kvalue : option (list byte)) : option shkey_t := shkey_bin mem kvalue.
Definition shkey_num (mem : list byte) (kvalue : Z) : option shkey_t := shkey_bin_r mem (le_enc 8 kvalue).
Definition shkey_num64 (mem : list byte) (kvalue : Z) : option shkey_t := shkey_bin_r mem (le_enc 8 kvalue).
(** [rand i] is the value of call [i] of [shrand]. *)
Definition shkey_uniq (rand : nat → Z) : shkey_t := Key 0 0 ((λ i, htonl (u32 (rand i))) <$> seq 0 SHKEY_WORDS).
Definition ashkey_uniq (rand : nat → Z) : shkey_t := shkey_uniq rand.

(** Without data [ashkey_bin] leaves the static key as it was. *)
Definition ashkey_bin (mem : list byte) (st : shkey_t) (data : option (list byte)) : option shkey_t :=
  match data with
  | None | Some [] => Some st
  | Some data => shkey_bin_r mem data
  end.
Definition ashkey_str (mem : list byte) (name : option (list byte)) : option shkey_t :=
  match name with
  | None | Some [] => Some _shkey_blank
  | Some name => shkey_bin_r mem name
  end.
(** [strlen] of the number's bytes. *)
Fixpoint strlen (l : list byte) : nat :=
  match l with [] => 0 | b :: l => if decide (b = x00) then 0 else S (strlen l) end.
Definition ashkey_num (mem : list byte) (num : Z) : option shkey_t :=
  let buf := le_enc 8 num ++ zeros 248 in
  shkey_bin_r mem (take (strlen buf) buf).

(** ** Comparison, signatures *)
Definition htons (x : Z) : Z := le_dec (be_enc 2 x).
Definition shkey_alg (key : option shkey_t) : Z :=
  match key with None => ERR_INVAL | Some key => htons (k_alg key) end.
Definition shkey_alg_set (key : shkey_t) (alg : Z) : shkey_t := Key (htons (u16 alg)) (k_crc key) (k_code key).
Definition shkey_crc (key : option shkey_t) : Z :=
  match key with None => 0 | Some key => shcrc (key_bytes key) end.

Definition shkey_cmp (key_1 key_2 : option shkey_t) : bool :=
  match key_1, key_2 with
  | Some a, Some b =>
     if negb (shkey_alg key_1 =? shkey_alg key_2) then false
     else if negb (k_crc a =? k_crc b) then false
     else forallb (λ i, at_t (k_code a) i =? at_t (k_code b) i) (seq 0 SHKEY_WORDS)
  | _, _ => false
  end.
Definition shkey_dup (key : option shkey_t) : option shkey_t := key.

Definition shkey_xor (key1 key2 : shkey_t) : shkey_t :=
  Key 0 0 ((λ i, Z.lxor (at_t (k_code key1) i) (at_t (k_code key2) i)) <$> seq 0 SHKEY_WORDS).

(** Each word of the buffer in network byte order. *)
Fixpoint swap_words (n : nat) (l : list byte) : list byte :=
  match n with O => l | S n => le_enc 4 (htonl (le_dec (take 4 l))) ++ swap_words n (drop 4 l) end.
(** The inner option is [NULL]. *)
Definition shkey_cert (mem : list byte) (key : option shkey_t) (crc stamp : Z) : option (option shkey_t) :=
  match key with
  | None => Some None
  | Some key =>
     let shabuf := le_enc 8 crc ++ le_enc 8 stamp ++ key_bytes key ++ replicate 16 x40 in
     hash ← sh_sha256 mem (Some (swap_words 16 shabuf)) 64;
     k ← shkey_bin mem (Some (hash ++ drop (length hash) (zeros 64)));
     Some (Some k)
  end.
Definition shkey_verify (mem : list byte) (sig : option shkey_t) (crc : Z) (key : option shkey_t) (stamp : Z) : option Z :=
  sha_key ← shkey_cert mem key crc stamp;
  Some (if shkey_cmp sha_key sig then 0 else ERR_INVAL).

(** ** Text *)
Definition chr (z : Z) : byte := byte_of_Z z.
(** [_crc_str_map]: '-', the letters, the digits, '+'. *)
Definition _crc_str_map : list byte :=
  chr 45 :: ((λ i, chr (65 + Z.of_nat i)) <$> seq 0 26) ++ ((λ i, chr (97 + Z.of_nat i)) <$> seq 0 26) ++
  ((λ i, chr (48 + Z.of_nat i)) <$> seq 0 10) ++ [chr 43].
(** [while (tcrc && idx < 64)]: least significant digit first. *)
Fixpoint shcrcstr_loop (fuel : nat) (tcrc : Z) : list byte :=
  match fuel with
  | O => []
  | S fuel => if tcrc =? 0 then [] else nth (Z.to_nat (tcrc mod 64)) _crc_str_map x00 :: shcrcstr_loop fuel (Z.shiftr tcrc 6)
  end.
Definition shcrcstr (crc : Z) : list byte := shcrcstr_loop 65 crc.
Fixpoint stridx_from (i : Z) (str : list byte) (ch : byte) : Z :=
  match str with [] => -1 | c :: str => if decide (c = ch) then i else stridx_from (i + 1) str ch end.
Definition stridx (str : list byte) (ch : byte) : Z := stridx_from 0 str ch.
(** From the last character to the first; [i] counts the characters left. *)
Fixpoint shcrcgen_loop (crc : Z) (rstr : list byte) : Z :=
  match rstr with
  | [] => crc
  | c :: rstr =>
     let idx := stridx _crc_str_map c in
     if idx =? -1 then 0
     else
       let crc := u64 (crc + idx) in
       shcrcgen_loop (match rstr with [] => crc | _ => u64 (Z.shiftl crc 6) end) rstr
  end.
Definition shcrcgen (str : list byte) : Z := shcrcgen_loop 0 (reverse str).

(** ["%6.6s"], then every space a dot. *)
Definition fmt6 (s : list byte) : list byte := let s := take 6 s in replicate (6 - length s) x20 ++ s.
Definition dots (s : list byte) : list byte := (λ c, if decide (c = x20) then chr 46 else c) <$> s.
Definition shkey_print (key : option shkey_t) : list byte :=
  match key with
  | None => []
  | Some key => dots (concat ((λ i, fmt6 (shcrcstr (at_t (k_code key) i))) <$> seq 0 SHKEY_WORDS))
  end.
Fixpoint skip_dots (s : list byte) : list byte :=
  match s with [] => [] | c :: t => if decide (c = chr 46) then skip_dots t else s end.
(** A C string of 42 characters. *)
Definition shkey_gen (str : option (list byte)) : option shkey_t :=
  match str with
  | None => None
  | Some str =>
     if (length str =? 42)%nat then
       Some (Key 0 0 ((λ i, u32 (shcrcgen (skip_dots (take 6 (drop (i * 6) str))))) <$> seq 0 SHKEY_WORDS))
     else None
  end.

(** Hexadecimal digits: ["%.<prec>x"] and [strtoll] in base 16. *)
Definition hexd (z : Z) : byte := chr (if z <? 10 then 48 + z else 87 + z).
Fixpoint hex_digits (fuel : nat) (v : Z) : list byte :=
  match fuel with O => [] | S fuel => if v =? 0 then [] else hex_digits fuel (v / 16) ++ [hexd (v mod 16)] end.
Definition hex_fmt (prec : nat) (v : Z) : list byte :=
  let d := hex_digits 16 v in replicate (prec - length d) x30 ++ d.
Definition hex_word (alg : Z) (key : shkey_t) (i : nat) : list byte :=
  if alg =? SHALG_ECDSA160R then
    if (i =? 6)%nat then []
    else hex_fmt (if (i =? 5)%nat then 2 else 8) (at_t (k_code key) i)
  else hex_fmt 8 (at_t (k_code key) i).
Definition shkey_hex (key : option shkey_t) : list byte :=
  match key with
  | None => []
  | Some k => concat ((hex_word (shkey_alg key) k) <$> seq 0 SHKEY_WORDS)
  end.

Definition hexval (c : byte) : option Z :=
  let z := Z_of_byte c in
  if (48 <=? z) && (z <=? 57) then Some (z - 48)
  else if (97 <=? z) && (z <=? 102) then Some (z - 87)
  else if (65 <=? z) && (z <=? 70) then Some (z - 55)
  else None.
Fixpoint hex_read (acc : Z) (s : list byte) : Z :=
  match s with [] => acc | c :: s => match hexval c with None => acc | Some d => hex_read (16 * acc + d) s end end.
Definition isspace (c : byte) : bool := let z := Z_of_byte c in (z =? 32) || ((9 <=? z) && (z <=? 13)).
Fixpoint skip_space (s : list byte) : list byte :=
  match s with [] => [] | c :: t => if isspace c then skip_space t else s end.
(** The optional [0x], when a digit follows. *)
Definition skip_0x (s : list byte) : list byte :=
  match s with
  | c :: x :: d :: t =>
     if bool_decide (c = x30) && (bool_decide (x = chr 120) || bool_decide (x = chr 88)) && match hexval d with Some _ => true | None => false end
     then d :: t else s
  | _ => s
  end.
Definition strtoll16 (s : list byte) : Z :=
  match skip_space s with
  | [] => 0
  | c :: t =>
     if decide (c = chr 45) then - hex_read 0 (skip_0x t)
     else if decide (c = chr 43) then hex_read 0 (skip_0x t)
     else hex_read 0 (skip_0x (c :: t))
  end.
Definition shkey_hexgen (hex_str : option (list byte)) : option shkey_t :=
  match hex_str with
  | None => None
  | Some s =>
     if (length s =? 56)%nat then
       Some (Key 0 0 ((λ i, u32 (strtoll16 (take 8 (drop (8 * i) s)))) <$> seq 0 SHKEY_WORDS))
     else None
  end.
