(* ===== verification/KeyThm.v ===== *)
(** * Theorems on share keys *)

From S2P Require Import Prelude Errors Crc Sha ShaSpec Hmac HmacSpec Key.

(** ** Lists of equal pieces *)
Lemma concat_pick {A} (n i : nat) (ll : list (list A)) l : Forall (λ l, length l = n) ll → ll !! i = Some l →
  take n (drop (i * n) (concat ll)) = l.
Proof.
  intros Hll. revert i. induction Hll as [|l' ll Hl Hll IH]; intros i Hi; [done|]. cbn [concat]. destruct i as [|i].
  - injection Hi as ->. rewrite Nat.mul_0_l, drop_0. by rewrite take_app_length'.
  - rewrite drop_app_ge by lia. replace (S i * n - length l')%nat with (i * n)%nat by lia. by apply IH.
Qed.
Lemma length_concat_same {A} (n : nat) (ll : list (list A)) : Forall (λ l, length l = n) ll → length (concat ll) = (length ll * n)%nat.
Proof. induction 1 as [|l ll Hl _ IH]; [done|]. cbn [concat length]. rewrite length_app, IH, Hl. lia. Qed.

(** A well-formed key: seven 32-bit words. *)
Definition key_wf (key : shkey_t) : Prop := length (k_code key) = SHKEY_WORDS ∧ Forall (λ w, 0 ≤ w < 2 ^ 32) (k_code key).
Lemma key_word_range key i : key_wf key → 0 ≤ at_t (k_code key) i < 2 ^ 32.
Proof.
  intros [_ Hf]. unfold at_t. destruct (nth_in_or_default i (k_code key) 0) as [Hin| ->]; [|lia].
  apply list_elem_of_In in Hin. rewrite Forall_forall in Hf. by apply Hf.
Qed.
Lemma code_map key : key_wf key → (λ i, at_t (k_code key) i) <$> seq 0 SHKEY_WORDS = k_code key.
Proof.
  intros [Hl _]. destruct (k_code key) as [|a [|b [|c [|d [|e [|f [|g [|]]]]]]]]; by try discriminate Hl.
Qed.

(** ** Base 64 *)
Lemma map_idx d : 0 ≤ d < 64 → stridx _crc_str_map (nth (Z.to_nat d) _crc_str_map x00) = d.
Proof.
  intros Hd.
  assert (forallb (λ n, stridx _crc_str_map (nth n _crc_str_map x00) =? Z.of_nat n) (seq 0 64) = true) as Hall by (by vm_compute).
  rewrite forallb_forall in Hall. specialize (Hall (Z.to_nat d)). rewrite Z2Nat.id in Hall by lia.
  apply Z.eqb_eq, Hall, in_seq. lia.
Qed.
Lemma map_char n : (n < 64)%nat → nth n _crc_str_map x00 ≠ x20 ∧ nth n _crc_str_map x00 ≠ chr 46.
Proof.
  intros Hn.
  assert (forallb (λ n, bool_decide (nth n _crc_str_map x00 ≠ x20 ∧ nth n _crc_str_map x00 ≠ chr 46)) (seq 0 64) = true) as Hall
    by (by vm_compute).
  rewrite forallb_forall in Hall. eapply bool_decide_eq_true, Hall, in_seq. lia.
Qed.

Definition crc_char (c : byte) : Prop := 0 ≤ stridx _crc_str_map c < 64 ∧ c ≠ x20 ∧ c ≠ chr 46.
Definition crc_val (s : list byte) : Z := foldr (λ c a, stridx _crc_str_map c + 64 * a) 0 s.

Lemma crcstr_spec fuel v : 0 ≤ v < 64 ^ Z.of_nat fuel →
  Forall crc_char (shcrcstr_loop fuel v) ∧ crc_val (shcrcstr_loop fuel v) = v.
Proof.
  revert v. induction fuel as [|fuel IH]; intros v Hv; cbn [shcrcstr_loop].
  - change (64 ^ Z.of_nat 0) with 1 in Hv. split; [constructor|]. cbn. lia.
  - destruct (Z.eqb_spec v 0) as [->|]; [split; [constructor|done]|].
    rewrite Nat2Z.inj_succ, Z.pow_succ_r in Hv by lia. rewrite Z.shiftr_div_pow2 by done. change (2 ^ 6) with 64.
    pose proof (Z.mod_pos_bound v 64 ltac:(lia)) as Hm. pose proof (Z.div_mod v 64 ltac:(lia)) as Hd.
    destruct (IH (v / 64)) as [IHf IHv].
    { split; [apply Z.div_pos; lia|]. apply Z.div_lt_upper_bound; lia. }
    split.
    + constructor; [|done]. split; [by rewrite map_idx|]. apply map_char. lia.
    + unfold crc_val in *. cbn [foldr]. rewrite IHv, map_idx by done. lia.
Qed.
Lemma length_crcstr (n fuel : nat) v : 0 ≤ v < 64 ^ Z.of_nat n → (length (shcrcstr_loop fuel v) ≤ n)%nat.
Proof.
  revert fuel v. induction n as [|n IH]; intros fuel v Hv.
  - change (64 ^ Z.of_nat 0) with 1 in Hv. assert (v = 0) as -> by lia. by destruct fuel.
  - destruct fuel as [|fuel]; cbn [shcrcstr_loop]; [simpl; lia|]. destruct (v =? 0); [simpl; lia|]. cbn [length].
    rewrite Nat2Z.inj_succ, Z.pow_succ_r in Hv by lia. rewrite Z.shiftr_div_pow2 by done. change (2 ^ 6) with 64.
    apply le_n_S, IH. split; [apply Z.div_pos; lia|]. apply Z.div_lt_upper_bound; lia.
Qed.

Lemma crcgen_loop_spec r : ∀ a, Forall crc_char r → 0 ≤ a → (a + 1) * 64 ^ zlen r ≤ 2 ^ 60 → r ≠ [] →
  shcrcgen_loop (64 * a) r = foldl (λ a c, 64 * a + stridx _crc_str_map c) a r.
Proof.
  induction r as [|c r IH]; intros a Hr Ha Hb Hne; [done|]. cbn [shcrcgen_loop foldl].
  apply Forall_cons in Hr as [[Hc _] Hr]. rewrite (proj2 (Z.eqb_neq _ _)) by lia.
  cbn [length] in Hb. rewrite Nat2Z.inj_succ, Z.pow_succ_r in Hb by lia.
  assert (1 ≤ 64 ^ zlen r) as H1 by (pose proof (Z.pow_pos_nonneg 64 (zlen r)); lia).
  rewrite u64_small by nia. destruct r as [|c' r']; [done|].
  assert (64 ≤ 64 ^ zlen (c' :: r')) as H64.
  { change 64 with (64 ^ 1) at 1. apply Z.pow_le_mono_r; simpl; lia. }
  rewrite Z.shiftl_mul_pow2 by done. change (2 ^ 6) with 64. rewrite u64_small by nia.
  replace ((64 * a + stridx _crc_str_map c) * 64) with (64 * (64 * a + stridx _crc_str_map c)) by lia.
  apply IH; [done|lia|nia|done].
Qed.
Lemma foldl_crc_val s : foldl (λ a c, 64 * a + stridx _crc_str_map c) 0 (reverse s) = crc_val s.
Proof.
  induction s as [|c s IH]; [done|]. rewrite reverse_cons, foldl_app. cbn [foldl]. rewrite IH. unfold crc_val. cbn [foldr]. lia.
Qed.
Lemma crcgen_spec s : Forall crc_char s → (length s ≤ 6)%nat → shcrcgen s = crc_val s.
Proof.
  intros Hs Hl. unfold shcrcgen. destruct (decide (s = [])) as [->|Hne]; [done|].
  change 0 with (64 * 0). rewrite crcgen_loop_spec.
  - apply foldl_crc_val.
  - by apply Forall_reverse.
  - done.
  - rewrite length_reverse. change (0 + 1) with 1. rewrite Z.mul_1_l.
    apply Z.le_trans with (64 ^ 6); [apply Z.pow_le_mono_r; lia|lia].
  - intros Hr. apply Hne. by rewrite <-(reverse_involutive s), Hr.
Qed.

(** A printed word and what reading it gives. *)
Lemma dots_app s t : dots (s ++ t) = dots s ++ dots t.
Proof. apply fmap_app. Qed.
Lemma dots_concat ll : dots (concat ll) = concat (dots <$> ll).
Proof. induction ll as [|l ll IH]; [done|]. cbn [concat fmap list_fmap]. rewrite dots_app, IH. done. Qed.
Lemma dots_word v : 0 ≤ v < 2 ^ 32 →
  dots (fmt6 (shcrcstr v)) = replicate (6 - length (shcrcstr v)) (chr 46) ++ shcrcstr v ∧ (length (shcrcstr v) ≤ 6)%nat.
Proof.
  intros Hv. assert (length (shcrcstr v) ≤ 6)%nat as Hl by (apply length_crcstr; change (64 ^ Z.of_nat 6) with (2 ^ 36); lia).
  destruct (crcstr_spec 65 v) as [Hc _]; [change (64 ^ Z.of_nat 65) with (2 ^ 390); lia|]. fold (shcrcstr v) in Hc.
  split; [|done]. unfold fmt6. rewrite take_ge by done. rewrite dots_app. f_equal.
  - unfold dots. rewrite fmap_replicate, decide_True by done. done.
  - unfold dots. etrans; [|apply list_fmap_id]. apply list_fmap_ext. intros i c Hi.
    rewrite decide_False; [done|]. eapply Forall_lookup in Hc; [|done]. apply Hc.
Qed.
Lemma skip_dots_spec n s : Forall crc_char s → skip_dots (replicate n (chr 46) ++ s) = s.
Proof.
  intros Hs. induction n as [|n IH]; cbn [replicate app].
  - destruct s as [|c s]; [done|]. cbn [skip_dots]. apply Forall_cons in Hs as [Hc _]. rewrite decide_False by apply Hc. done.
  - cbn [skip_dots]. rewrite decide_True by done. done.
Qed.
Lemma word_text v : 0 ≤ v < 2 ^ 32 → u32 (shcrcgen (skip_dots (dots (fmt6 (shcrcstr v))))) = v.
Proof.
  intros Hv. destruct (dots_word v Hv) as [-> Hl].
  destruct (crcstr_spec 65 v) as [Hc Hval]; [change (64 ^ Z.of_nat 65) with (2 ^ 390); lia|].
  rewrite skip_dots_spec by done. rewrite crcgen_spec by done. unfold shcrcstr. rewrite Hval. by apply u32_small.
Qed.

Lemma print_gen key : key_wf key → shkey_gen (Some (shkey_print (Some key))) = Some (Key 0 0 (k_code key)).
Proof.
  intros Hk. unfold shkey_gen, shkey_print. rewrite dots_concat, <-list_fmap_compose.
  set (ll := (dots ∘ _) <$> seq 0 SHKEY_WORDS).
  assert (Forall (λ l : list byte, length l = 6%nat) ll) as Hll.
  { apply Forall_fmap, Forall_true. intros i. unfold compose. destruct (dots_word _ (key_word_range key i Hk)) as [-> Hl].
    rewrite length_app, length_replicate. lia. }
  rewrite (length_concat_same 6) by done. unfold ll at 1. rewrite length_fmap, length_seq. cbn [Nat.mul Nat.add Nat.eqb SHKEY_WORDS].
  do 2 f_equal. etrans; [|exact (code_map key Hk)]. apply list_fmap_ext. intros i j Hi.
  apply lookup_seq in Hi as [-> Hi]. rewrite Nat.add_0_l.
  rewrite (concat_pick 6 i ll (dots (fmt6 (shcrcstr (at_t (k_code key) i))))); [|done|].
  - apply word_text. by apply key_word_range.
  - unfold ll. rewrite list_lookup_fmap, lookup_seq_lt by done. done.
Qed.

(** ** Hexadecimal *)
Lemma hexval_hexd d : 0 ≤ d < 16 → hexval (hexd d) = Some d.
Proof.
  intros Hd. assert (d ∈ seqZ 0 16) as Hin by (apply elem_of_seqZ; lia).
  assert (forallb (λ d, bool_decide (hexval (hexd d) = Some d)) (seqZ 0 16) = true) as Hall by (by vm_compute).
  rewrite forallb_forall in Hall. eapply bool_decide_eq_true, Hall. by apply list_elem_of_In.
Qed.
Definition is_hex (c : byte) : Prop := is_Some (hexval c).
Lemma is_hex_char c : is_hex c → isspace c = false ∧ c ≠ chr 45 ∧ c ≠ chr 43 ∧ c ≠ chr 120 ∧ c ≠ chr 88.
Proof. intros [v Hv]. destruct c; try discriminate Hv; done. Qed.

Lemma strtoll_hex s : Forall is_hex s → s ≠ [] → strtoll16 s = hex_read 0 s.
Proof.
  intros Hs Hne. destruct s as [|c s]; [done|]. pose proof Hs as Hs'. apply Forall_cons in Hs' as [Hc Hs'].
  destruct (is_hex_char c Hc) as (Hsp & Hm & Hp & _). unfold strtoll16. cbn [skip_space]. rewrite Hsp.
  rewrite decide_False, decide_False by done. f_equal. unfold skip_0x. destruct s as [|x [|d s]]; [done|done|].
  apply Forall_cons in Hs' as [Hx _]. destruct (is_hex_char x Hx) as (_ & _ & _ & H120 & H88).
  rewrite (bool_decide_eq_false_2 (x = chr 120)), (bool_decide_eq_false_2 (x = chr 88)) by done. by rewrite andb_false_r.
Qed.

Lemma hex_digits_spec f v : 0 ≤ v < 16 ^ Z.of_nat f →
  Forall is_hex (hex_digits f v) ∧ ∀ acc t, hex_read acc (hex_digits f v ++ t) = hex_read (acc * 16 ^ zlen (hex_digits f v) + v) t.
Proof.
  revert v. induction f as [|f IH]; intros v Hv; cbn [hex_digits].
  - change (16 ^ Z.of_nat 0) with 1 in Hv. split; [constructor|]. intros acc t. cbn [app length]. f_equal. lia.
  - destruct (Z.eqb_spec v 0) as [->|]; [split; [constructor|]; intros acc t; cbn [app length]; f_equal; lia|].
    rewrite Nat2Z.inj_succ, Z.pow_succ_r in Hv by lia.
    pose proof (Z.mod_pos_bound v 16 ltac:(lia)) as Hm. pose proof (Z.div_mod v 16 ltac:(lia)) as Hd.
    destruct (IH (v / 16)) as [IHf IHv].
    { split; [apply Z.div_pos; lia|]. apply Z.div_lt_upper_bound; lia. }
    split; [apply Forall_app; split; [done|]; constructor; [|constructor]; unfold is_hex; by rewrite hexval_hexd by done|].
    intros acc t. rewrite <-(assoc_L (++)), IHv. cbn [app hex_read]. rewrite hexval_hexd by done. f_equal.
    rewrite length_app. cbn [length]. rewrite Nat2Z.inj_add, Z.pow_add_r by lia. change (16 ^ Z.of_nat 1) with 16. lia.
Qed.
Lemma length_hex_digits (n f : nat) v : 0 ≤ v < 16 ^ Z.of_nat n → (length (hex_digits f v) ≤ n)%nat.
Proof.
  revert f v. induction n as [|n IH]; intros f v Hv.
  - change (16 ^ Z.of_nat 0) with 1 in Hv. assert (v = 0) as -> by lia. by destruct f.
  - destruct f as [|f]; cbn [hex_digits]; [simpl; lia|]. destruct (v =? 0); [simpl; lia|]. rewrite length_app. cbn [length].
    rewrite Nat2Z.inj_succ, Z.pow_succ_r in Hv by lia.
    enough (length (hex_digits f (v / 16)) ≤ n)%nat by lia. apply IH.
    split; [apply Z.div_pos; lia|]. apply Z.div_lt_upper_bound; lia.
Qed.
Lemma hex_read_zeros n t : hex_read 0 (replicate n x30 ++ t) = hex_read 0 t.
Proof. induction n as [|n IH]; [done|]. cbn [replicate app hex_read]. done. Qed.

Lemma hex_text v : 0 ≤ v < 2 ^ 32 → length (hex_fmt 8 v) = 8%nat ∧ u32 (strtoll16 (hex_fmt 8 v)) = v.
Proof.
  intros Hv. assert (length (hex_digits 16 v) ≤ 8)%nat as Hl by (apply length_hex_digits; change (16 ^ Z.of_nat 8) with (2 ^ 32); lia).
  destruct (hex_digits_spec 16 v) as [Hh Hr]; [change (16 ^ Z.of_nat 16) with (2 ^ 64); lia|]. unfold hex_fmt.
  assert (length (replicate (8 - length (hex_digits 16 v)) x30 ++ hex_digits 16 v) = 8%nat) as Hl8
    by (rewrite length_app, length_replicate; lia).
  split; [done|]. rewrite strtoll_hex.
  - rewrite hex_read_zeros. rewrite <-(app_nil_r (hex_digits 16 v)), Hr. cbn [hex_read]. rewrite Z.mul_0_l, Z.add_0_l. by apply u32_small.
  - apply Forall_app. split; [|done]. apply Forall_replicate. by exists 0.
  - intros E. by rewrite E in Hl8.
Qed.

Lemma hex_gen key : key_wf key → shkey_alg (Some key) ≠ SHALG_ECDSA160R →
  shkey_hexgen (Some (shkey_hex (Some key))) = Some (Key 0 0 (k_code key)).
Proof.
  intros Hk Ha. unfold shkey_hexgen, shkey_hex. set (ll := hex_word _ key <$> seq 0 SHKEY_WORDS).
  assert (∀ i, hex_word (shkey_alg (Some key)) key i = hex_fmt 8 (at_t (k_code key) i)) as Hw.
  { intros i. unfold hex_word. by rewrite (proj2 (Z.eqb_neq _ _) Ha). }
  assert (Forall (λ l : list byte, length l = 8%nat) ll) as Hll.
  { apply Forall_fmap, Forall_true. intros i. unfold compose. rewrite Hw. by apply hex_text, key_word_range. }
  rewrite (length_concat_same 8) by done. unfold ll at 1. rewrite length_fmap, length_seq. change (SHKEY_WORDS * 8 =? 56)%nat with true. cbv iota.
  do 2 f_equal. etrans; [|exact (code_map key Hk)]. apply list_fmap_ext. intros i j Hi.
  apply lookup_seq in Hi as [-> Hi]. rewrite Nat.add_0_l, (Nat.mul_comm 8 i).
  rewrite (concat_pick 8 i ll (hex_fmt 8 (at_t (k_code key) i))); [|done|].
  - by apply hex_text, key_word_range.
  - unfold ll. rewrite list_lookup_fmap, lookup_seq_lt by done. cbn. by rewrite Hw.
Qed.

(** ** Keys of data *)

(** The digest of a piece of the data, zero padded, and its checksum. *)
Definition KEY_word (data : list byte) (i : nat) : Z :=
  let step := (length data / 7)%nat in
  shcrc32 (SHS K256 (take (step + 8) (drop (step * i) data)) ++ zeros 32).
Definition KEY (data : list byte) : shkey_t := Key 0 0 (KEY_word data <$> seq 0 SHKEY_WORDS).

Lemma sha256_take mem l (n : nat) : (64 ≤ length mem)%nat → (n ≤ length l)%nat → Z.of_nat n < 2 ^ 32 →
  sh_sha256 mem (Some l) (Z.of_nat n) = Some (SHS K256 (take n l)).
Proof.
  intros Hm Hn Hlt. unfold sh_sha256, sh_oneshot.
  destruct (shsha_init_spec K256 sha_zero mem Hm) as (s & E & Hs). change (shsha_init _ _ _) with (sh_sha256_init mem) in E.
  rewrite E. cbn [snd]. assert (zlen (take n l) = Z.of_nat n) as Hl by (rewrite length_take; lia).
  rewrite <-(take_drop n l) at 1. rewrite <-Hl.
  destruct (shsha_write_spec K256 s [] (take n l) Hs) as (s1 & E1 & Hs1); [lia|rewrite app_nil_l; lia|].
  destruct Hs as [Ha _]. rewrite <-(write_prefix s (take n l) (drop n l)) in E1 by lia.
  rewrite (shsha_write_kind K256) in E1 by done. unfold sh_sha256_write. change fam_sha256 with (kind_fam K256). rewrite E1.
  cbn [mbind option_bind]. destruct (shsha_result_spec K256 s1 _ Hs1) as (s2 & E2 & _). destruct Hs1 as [Ha1 _].
  rewrite (shsha_result_kind K256) in E2 by done. unfold sh_sha256_result, SHA224_256ResultN.
  change fam_sha256 with (kind_fam K256). change 32%nat with (kind_size K256). rewrite E2. done.
Qed.

Lemma key_word_spec mem data i : (64 ≤ length mem)%nat → zlen data < 2 ^ 32 → (i < SHKEY_WORDS)%nat →
  key_word mem data i = Some (KEY_word data i).
Proof.
  intros Hm Hd Hi. unfold key_word, KEY_word, SHKEY_WORDS in *.
  rewrite <-(Nat2Z.inj_div (length data) 7). set (step := (length data / 7)%nat).
  assert (step * 7 ≤ length data)%nat as Hstep by (unfold step; pose proof (Nat.div_mod_eq (length data) 7); lia).
  assert (step * i ≤ length data)%nat as Hoff by nia.
  replace (Z.min _ _) with (Z.of_nat (Nat.min (length data - step * i) (step + 8))) by lia.
  replace (Z.to_nat (Z.of_nat step * Z.of_nat i)) with (step * i)%nat by lia.
  rewrite sha256_take by (rewrite ?length_drop; lia). cbn [mbind option_bind]. rewrite length_SHS. do 4 f_equal.
  rewrite <-(length_drop data (step * i)), Nat.min_comm, <-take_take. by rewrite firstn_all.
Qed.
Lemma bin_r_spec mem data : (64 ≤ length mem)%nat → zlen data < 2 ^ 32 → shkey_bin_r mem data = Some (KEY data).
Proof.
  intros Hm Hd. unfold shkey_bin_r.
  assert (mapM (key_word mem data) (seq 0 SHKEY_WORDS) = Some (KEY_word data <$> seq 0 SHKEY_WORDS)) as ->; [|done].
  apply mapM_Some. apply Forall2_fmap_r. apply Forall_Forall2_diag, Forall_forall. intros i Hi%elem_of_seq.
  apply key_word_spec; [done..|lia].
Qed.
Lemma KEY_wf data : key_wf (KEY data).
Proof.
  split; [done|]. unfold KEY. cbn [k_code]. apply Forall_fmap, Forall_true. intros i. apply shcrc32_range.
Qed.

(** ** Comparison *)
Definition key_ok (key : shkey_t) : Prop := key_wf key ∧ 0 ≤ k_alg key < 2 ^ 16.
Lemma htons_inj x y : 0 ≤ x < 2 ^ 16 → 0 ≤ y < 2 ^ 16 → htons x = htons y → x = y.
Proof.
  intros Hx Hy E. unfold htons in E.
  assert (be_enc 2 x = be_enc 2 y) as E2.
  { rewrite <-(le_enc_dec (be_enc 2 x)), <-(le_enc_dec (be_enc 2 y)), E, !length_be_enc. done. }
  unfold be_enc in E2. apply (f_equal reverse) in E2. rewrite !reverse_involutive in E2.
  apply (f_equal le_dec) in E2. rewrite !le_dec_enc in E2. change (256 ^ Z.of_nat 2) with (2 ^ 16) in E2.
  by rewrite !Z.mod_small in E2.
Qed.
Lemma cmp_spec a b : key_ok a → key_ok b → shkey_cmp (Some a) (Some b) = bool_decide (a = b).
Proof.
  intros [Ha Haa] [Hb Hba]. unfold shkey_cmp, shkey_alg. destruct a as [aa ac al], b as [ba bc bl]. cbn [k_alg k_crc k_code] in *.
  destruct (Z.eqb_spec (htons aa) (htons ba)) as [E|E]; cbn [negb].
  2:{ symmetry. apply bool_decide_eq_false. intros E'. injection E' as -> -> ->. done. }
  apply htons_inj in E as ->; [|done..]. destruct (Z.eqb_spec ac bc) as [->|E]; cbn [negb].
  2:{ symmetry. apply bool_decide_eq_false. intros E'. injection E' as -> ->. done. }
  destruct (forallb _ _) eqn:Ef; symmetry.
  - apply bool_decide_eq_true. f_equal. rewrite forallb_forall in Ef.
    etrans; [symmetry; exact (code_map _ Ha)|]. etrans; [|exact (code_map _ Hb)]. cbn [k_code]. apply list_fmap_ext. intros i j Hi. apply Z.eqb_eq, Ef.
    apply list_elem_of_In. by eapply list_elem_of_lookup_2.
  - apply bool_decide_eq_false. intros E. injection E as ->. apply Bool.not_true_iff_false in Ef. apply Ef.
    apply forallb_forall. intros. apply Z.eqb_refl.
Qed.

(** ** Properties *)

(** Text keeps a key: reading the 42 characters that print a key, or its 56
    hexadecimal digits, gives the same seven words back; the algorithm and the
    checksum of the key are not part of the text. *)
Theorem key_text_round_trip key : key_wf key →
  shkey_gen (Some (shkey_print (Some key))) = Some (Key 0 0 (k_code key)) ∧
  (shkey_alg (Some key) ≠ SHALG_ECDSA160R → shkey_hexgen (Some (shkey_hex (Some key))) = Some (Key 0 0 (k_code key))).
Proof. intros Hk. split; [by apply print_gen|by apply hex_gen]. Qed.

(** The signature: a key of the digest of the signed words. *)
Definition CERT (key : shkey_t) (crc stamp : Z) : shkey_t :=
  KEY (SHS K256 (swap_words 16 (le_enc 8 crc ++ le_enc 8 stamp ++ key_bytes key ++ replicate 16 x40)) ++ zeros 32).
Lemma length_swap_words n l : (4 * n ≤ length l)%nat → length (swap_words n l) = length l.
Proof.
  revert l. induction n as [|n IH]; intros l Hl; [done|]. cbn [swap_words]. rewrite length_app, length_le_enc, IH, length_drop; [lia|].
  rewrite length_drop. lia.
Qed.
Lemma length_key_bytes key : key_wf key → length (key_bytes key) = 32%nat.
Proof.
  intros [Hl _]. unfold key_bytes. rewrite !length_app, !length_le_enc, (length_concat_same 4), length_fmap, Hl; [done|].
  apply Forall_fmap, Forall_true. intros. apply length_le_enc.
Qed.
Lemma cert_spec mem key crc stamp : (64 ≤ length mem)%nat → key_wf key →
  shkey_cert mem (Some key) crc stamp = Some (Some (CERT key crc stamp)).
Proof.
  intros Hm Hk. unfold shkey_cert, CERT. set (buf := le_enc 8 crc ++ _).
  assert (length buf = 64%nat) as Hb.
  { unfold buf. rewrite !length_app, !length_le_enc, length_key_bytes, length_replicate by done. done. }
  change 64 with (Z.of_nat 64). rewrite sha256_take by (rewrite ?length_swap_words; lia).
  rewrite take_ge by (rewrite length_swap_words; lia). cbn [mbind option_bind]. rewrite length_SHS.
  change (drop (kind_size K256) (zeros 64)) with (zeros 32). set (d := SHS K256 _ ++ zeros 32).
  assert (length d = 64%nat) as Hd by (unfold d; rewrite length_app, length_SHS; done).
  assert (shkey_bin mem (Some d) = shkey_bin_r mem d) as -> by (clearbody d; by destruct d).
  rewrite bin_r_spec; [done|done|]. rewrite Hd. lia.
Qed.

(** A signature made with a key verifies with that key, checksum and time,
    and no other signature does. *)
Theorem key_signature mem key crc stamp sig : (64 ≤ length mem)%nat → key_wf key → key_ok sig →
  ∃ cert, shkey_cert mem (Some key) crc stamp = Some (Some cert) ∧
    shkey_verify mem (Some sig) crc (Some key) stamp = Some (if decide (sig = cert) then 0 else ERR_INVAL).
Proof.
  intros Hm Hk Hs. exists (CERT key crc stamp). split; [by apply cert_spec|]. unfold shkey_verify. rewrite cert_spec by done.
  cbn [mbind option_bind]. rewrite cmp_spec; [|split; [apply KEY_wf|done]|done].
  destruct (decide (sig = CERT key crc stamp)) as [->|Hne]; [by rewrite bool_decide_true|by rewrite bool_decide_false].
Qed.

(** A key of fewer than seven bytes of data has one word seven times over:
    the data is cut into steps of length 0, so each word digests the same bytes. *)
Theorem key_short_repeats mem data : (64 ≤ length mem)%nat → (0 < length data < 7)%nat →
  ∃ w, shkey_bin mem (Some data) = Some (Key 0 0 (replicate 7 w)).
Proof.
  intros Hm Hd. exists (KEY_word data 0). assert (shkey_bin mem (Some data) = shkey_bin_r mem data) as -> by (by destruct data; [simpl in Hd; lia|]).
  rewrite bin_r_spec by (done || lia). unfold KEY. do 2 f_equal. unfold KEY_word. rewrite Nat.div_small by lia.
  done.
Qed.

(** Every multiple of 256 has the key of 0 in [ashkey_num]: the number's
    bytes are measured as a string and end at the first zero. *)
Theorem key_num_collides mem n : ashkey_num mem (256 * n) = ashkey_num mem 0.
Proof.
  unfold ashkey_num. cbn [le_enc app strlen]. assert (byte_of_Z (256 * n) = x00) as ->.
  { unfold byte_of_Z. rewrite Z.mul_comm, Z.mod_mul by lia. done. }
  by rewrite decide_True.
Qed.

(** ** Instances *)
Definition demo_sk : shkey_t := Key 0 0 [0; 1; 64; 4294967295; 2147483648; 4096; 7].
Lemma demo_sk_ok : key_ok demo_sk.
Proof. split; [split; [done|]|done]. repeat constructor; done. Qed.

Lemma key_text_round_trip_witness :
  shkey_gen (Some (shkey_print (Some demo_sk))) = Some demo_sk ∧ shkey_hexgen (Some (shkey_hex (Some demo_sk))) = Some demo_sk.
Proof. destruct (key_text_round_trip demo_sk) as [E1 E2]; [apply demo_sk_ok|]. split; [exact E1|by apply E2]. Defined.
Lemma key_signature_witness : ∃ cert, shkey_cert (garbage 64) (Some demo_sk) 5 9 = Some (Some cert) ∧
  shkey_verify (garbage 64) (Some demo_sk) 5 (Some demo_sk) 9 = Some (if decide (demo_sk = cert) then 0 else ERR_INVAL).
Proof. apply (key_signature (garbage 64) demo_sk 5 9 demo_sk); [done|apply demo_sk_ok|apply demo_sk_ok]. Defined.
Lemma key_short_repeats_witness : ∃ w, shkey_bin (garbage 64) (Some abc) = Some (Key 0 0 (replicate 7 w)).
Proof. apply (key_short_repeats (garbage 64) abc); [done|simpl; lia]. Defined.
