(* ===== verification/Opt.v ===== *)
(** * Options

    [src/shioncoin/shcoind_opt.c]: the table of options, their values in a hash
    map keyed by the share key of the option's name, the sources that set them
    (defaults, system preferences, configuration files, environment, command
    line) and the texts printed from them.

    The map is an interface, [OptStore]; [OptStore.v] implements it by [shmap_t].
    Preferences, files and the environment are functions of their names.  The
    marker at the end of the table is the end of the list. *)

From S2P Require Import Prelude Errors Links Hmac Key.
Open Scope Z_scope.

Definition bytes (s : string) : list byte := String.list_byte_of_string s.

Inductive otype := OPT_TYPE_BOOL | OPT_TYPE_NUM | OPT_TYPE_STR.
#[global] Instance otype_eq_dec : EqDecision otype.
Proof. solve_decision. Defined.
Record opt_t := Opt {
  opt_name : list byte;
  opt_type : otype;
  opt_def : Z;
  opt_strdef : option (list byte);
  opt_desc : list byte;
}.
#[global] Instance opt_eq_dec : EqDecision opt_t.
Proof. solve_decision. Defined.

(** ** The table *)
Definition OPT_DEBUG : list byte := bytes "debug".
Definition OPT_NET_DEBUG : list byte := bytes "net-debug".
Definition OPT_MAX_CONN : list byte := bytes "net-max".
Definition OPT_PEER_SEED : list byte := bytes "seed".
Definition OPT_NOTARY : list byte := bytes "notary".
Definition OPT_ADMIN : list byte := bytes "admin".
Definition OPT_FREE_RELAY : list byte := bytes "free-relay".
Definition OPT_BAN_SPAN : list byte := bytes "ban-span".
Definition OPT_BAN_THRESHOLD : list byte := bytes "ban-threshold".
Definition OPT_BLOCK_SIZE : list byte := bytes "block-size".
Definition OPT_MIN_FEE : list byte := bytes "min-fee".
Definition OPT_SHC_PORT : list byte := bytes "shc-port".
Definition OPT_BECH32 : list byte := bytes "bech32".
Definition OPT_SERV_STRATUM : list byte := bytes "stratum".
Definition OPT_STRATUM_PORT : list byte := bytes "stratum-port".
Definition OPT_STRATUM_WORK_CYCLE : list byte := bytes "stratum-work-cycle".
Definition OPT_SERV_SHAPI : list byte := bytes "shapi".
Definition OPT_SHAPI_PORT : list byte := bytes "shapi-port".
Definition OPT_SHAPI_HOST : list byte := bytes "shapi-host".
Definition OPT_SERV_RPC : list byte := bytes "rpc".
Definition OPT_RPC_PORT : list byte := bytes "rpc-port".
Definition OPT_RPC_HOST : list byte := bytes "rpc-host".
Definition OPT_RPC_KEY : list byte := bytes "rpc-key".
Definition OPT_SERV_TESTNET : list byte := bytes "testnet".
Definition OPT_TESTNET_PORT : list byte := bytes "testnet-port".
Definition OPT_SERV_EMC2 : list byte := bytes "emc2".
Definition OPT_EMC2_PORT : list byte := bytes "emc2-port".
Definition OPT_STRATUM_SHA256D : list byte := bytes "stratum-sha256d".
Definition OPT_STRATUM_SHA256D_PORT : list byte := bytes "stratum-sha256d-port".
Definition OPT_STRATUM_KECCAK : list byte := bytes "stratum-keccak".
Definition OPT_STRATUM_KECCAK_PORT : list byte := bytes "stratum-keccak-port".
Definition OPT_STRATUM_X11 : list byte := bytes "stratum-x11".
Definition OPT_STRATUM_X11_PORT : list byte := bytes "stratum-x11-port".
Definition OPT_STRATUM_BLAKE2S : list byte := bytes "stratum-blake2s".
Definition OPT_STRATUM_BLAKE2S_PORT : list byte := bytes "stratum-blake2s-port".
Definition OPT_STRATUM_QUBIT : list byte := bytes "stratum-qubit".
Definition OPT_STRATUM_QUBIT_PORT : list byte := bytes "stratum-qubit-port".
Definition OPT_STRATUM_GROESTL : list byte := bytes "stratum-groestl".
Definition OPT_STRATUM_GROESTL_PORT : list byte := bytes "stratum-groestl-port".
Definition OPT_STRATUM_SKEIN : list byte := bytes "stratum-skein".
Definition OPT_STRATUM_SKEIN_PORT : list byte := bytes "stratum-skein-port".
Definition OPT_STRATUM_TESTNET : list byte := bytes "stratum-testnet".
Definition OPT_HDKEY : list byte := bytes "hdkey".
Definition OPT_DILITHIUM : list byte := bytes "dilithium".
Definition OPT_PARAM_TX : list byte := bytes "param-tx".

(** The services and algorithms that are compiled in. *)
Record build := Build {
  STRATUM_SERVICE : bool;
  SHAPI_SERVICE : bool;
  RPC_SERVICE : bool;
  TESTNET_SERVICE : bool;
  EMC2_SERVICE : bool;
  USE_ALGO_SHA256D : bool;
  USE_ALGO_KECCAK : bool;
  USE_ALGO_X11 : bool;
  USE_ALGO_BLAKE2S : bool;
  USE_ALGO_QUBIT : bool;
  USE_ALGO_GROESTL : bool;
  USE_ALGO_SKEIN : bool;
}.
Definition all_services : build := Build true true true true true true true true true true true true.

Definition when (b : bool) (l : list opt_t) : list opt_t := if b then l else [].
Definition _option_table (b : build) : list opt_t :=
  [Opt OPT_DEBUG OPT_TYPE_BOOL 0 None
       (bytes "Verbose logging information.");
     Opt OPT_NET_DEBUG OPT_TYPE_BOOL 0 None
       (bytes "Verbose network command logging.");
     Opt OPT_MAX_CONN OPT_TYPE_NUM 300 None
       (bytes "The maximum number of socket connections allowed for all services.");
     Opt OPT_PEER_SEED OPT_TYPE_NUM 1 None
       (bytes "Whether to auto-seed the core node peers.");
     Opt OPT_NOTARY OPT_TYPE_BOOL 1 None
       (bytes "Whether to participate in notary transactions.");
     Opt OPT_ADMIN OPT_TYPE_BOOL 0 None
       (bytes "Administrative RPC commands.");
     Opt OPT_FREE_RELAY OPT_TYPE_BOOL 0 None
       (bytes "Allow no-fee transactions (<= 512b).");
     Opt OPT_BAN_SPAN OPT_TYPE_NUM 21600 None
       (bytes "The number of seconds to ban a node for suspicious activity.");
     Opt OPT_BAN_THRESHOLD OPT_TYPE_NUM 1000 None
       (bytes "The amount of suspicious behaviour before banning a node.");
     Opt OPT_BLOCK_SIZE OPT_TYPE_NUM 4096000 None
       (bytes "The preferred maximum block size.");
     Opt OPT_MIN_FEE OPT_TYPE_NUM 1000 None
       (bytes "The preferred minimum relay tx fee in shionoshis.");
     Opt OPT_SHC_PORT OPT_TYPE_NUM 24104 None
       (bytes "The port to accept incoming SHC service connections.");
     Opt OPT_BECH32 OPT_TYPE_BOOL 1 None
       (bytes "Generate bech32 style coin addresses when supported.")] ++
  when (STRATUM_SERVICE b)
    [Opt OPT_SERV_STRATUM OPT_TYPE_BOOL 1 None
       (bytes "The built-in stratum miner service.");
     Opt OPT_STRATUM_PORT OPT_TYPE_NUM 9448 None
       (bytes "The socket port to listen for stratum connections.");
     Opt OPT_STRATUM_WORK_CYCLE OPT_TYPE_NUM 12 None
       (bytes "The maximum number of seconds between " ++ [x22] ++ bytes "getwork" ++ [x22] ++ bytes " notifications.")] ++
  when (SHAPI_SERVICE b)
    [Opt OPT_SERV_SHAPI OPT_TYPE_BOOL 1 None
       (bytes "The built-in shapi account management service.");
     Opt OPT_SHAPI_PORT OPT_TYPE_NUM 9449 None
       (bytes "The socket port to listen for SHAPI connections.");
     Opt OPT_SHAPI_HOST OPT_TYPE_STR 0 (Some (bytes "127.0.0.1"))
       (bytes "The IP Address of the ethernet device to bind the SHAPI service to or a literal star " ++ [x22] ++ bytes "*" ++ [x22] ++ bytes " to allow any incoming network connection.")] ++
  when (RPC_SERVICE b)
    [Opt OPT_SERV_RPC OPT_TYPE_BOOL 1 None
       (bytes "The RPC command service.");
     Opt OPT_RPC_PORT OPT_TYPE_NUM 9447 None
       (bytes "The socket port to listen for RPC commands.");
     Opt OPT_RPC_HOST OPT_TYPE_STR 0 (Some (bytes "127.0.0.1"))
       (bytes "The IP Address of the ethernet device to bind the RPC service to or a literal star " ++ [x22] ++ bytes "*" ++ [x22] ++ bytes " to allow any incoming network connection.");
     Opt OPT_RPC_KEY OPT_TYPE_STR 0 (Some [])
       (bytes "A 28-byte hex key for authenticating RPC service requests.")] ++
  when (TESTNET_SERVICE b)
    [Opt OPT_SERV_TESTNET OPT_TYPE_BOOL 0 None
       (bytes "The ShionCoin Testnet service.");
     Opt OPT_TESTNET_PORT OPT_TYPE_NUM 26104 None
       (bytes "The socket port to listen for testnet connections.")] ++
  when (EMC2_SERVICE b)
    [Opt OPT_SERV_EMC2 OPT_TYPE_BOOL 1 None
       (bytes "The EMC2 currency service.");
     Opt OPT_EMC2_PORT OPT_TYPE_NUM 41878 None
       (bytes "The socket port to listen for EMC2 connections.")] ++
  when (STRATUM_SERVICE b && USE_ALGO_SHA256D b)
    [Opt OPT_STRATUM_SHA256D OPT_TYPE_BOOL 0 None
       (bytes "Provide a stratum mining service for the SHA256D PoW algorthm.");
     Opt OPT_STRATUM_SHA256D_PORT OPT_TYPE_NUM 9450 None
       (bytes "The socket port to listen for stratum SHA256D connections.")] ++
  when (STRATUM_SERVICE b && USE_ALGO_KECCAK b)
    [Opt OPT_STRATUM_KECCAK OPT_TYPE_BOOL 0 None
       (bytes "Provide a stratum mining service for the KECCAK PoW algorthm.");
     Opt OPT_STRATUM_KECCAK_PORT OPT_TYPE_NUM 9452 None
       (bytes "The socket port to listen for stratum KECCAK connections.")] ++
  when (STRATUM_SERVICE b && USE_ALGO_X11 b)
    [Opt OPT_STRATUM_X11 OPT_TYPE_BOOL 0 None
       (bytes "Provide a stratum mining service for the X11 PoW algorthm.");
     Opt OPT_STRATUM_X11_PORT OPT_TYPE_NUM 9454 None
       (bytes "The socket port to listen for stratum X11 connections.")] ++
  when (STRATUM_SERVICE b && USE_ALGO_BLAKE2S b)
    [Opt OPT_STRATUM_BLAKE2S OPT_TYPE_BOOL 0 None
       (bytes "Provide a stratum mining service for the BLAKE2S PoW algorthm.");
     Opt OPT_STRATUM_BLAKE2S_PORT OPT_TYPE_NUM 9456 None
       (bytes "The socket port to listen for stratum BLAKE2S connections.")] ++
  when (STRATUM_SERVICE b && USE_ALGO_QUBIT b)
    [Opt OPT_STRATUM_QUBIT OPT_TYPE_BOOL 0 None
       (bytes "Provide a stratum mining service for the QUBIT PoW algorthm.");
     Opt OPT_STRATUM_QUBIT_PORT OPT_TYPE_NUM 9458 None
       (bytes "The socket port to listen for stratum QUBIT connections.")] ++
  when (STRATUM_SERVICE b && USE_ALGO_GROESTL b)
    [Opt OPT_STRATUM_GROESTL OPT_TYPE_BOOL 0 None
       (bytes "Provide a stratum mining service for the GROESTL PoW algorthm.");
     Opt OPT_STRATUM_GROESTL_PORT OPT_TYPE_NUM 9460 None
       (bytes "The socket port to listen for stratum GROESTL connections.")] ++
  when (STRATUM_SERVICE b && USE_ALGO_SKEIN b)
    [Opt OPT_STRATUM_SKEIN OPT_TYPE_BOOL 0 None
       (bytes "Provide a stratum mining service for the SKEIN PoW algorthm.");
     Opt OPT_STRATUM_SKEIN_PORT OPT_TYPE_NUM 9462 None
       (bytes "The socket port to listen for stratum SKEIN connections.")] ++
  when (STRATUM_SERVICE b && TESTNET_SERVICE b)
    [Opt OPT_STRATUM_TESTNET OPT_TYPE_BOOL 0 None
       (bytes "Provide a stratum mining service for the TESTNET coin interface.")] ++
  [Opt OPT_HDKEY OPT_TYPE_BOOL 1 None
       (bytes "Derive new wallet keys using a hierarhchically deterministic algorythm.");
     Opt OPT_DILITHIUM OPT_TYPE_BOOL 0 None
       (bytes "Use the Dilithium signing algorythm for new coin addresses.");
     Opt OPT_PARAM_TX OPT_TYPE_BOOL 1 None
       (bytes "Embed consensus-based blockchain paramater extended transactions.")].

(** ** C strings *)
Definition tolower (c : byte) : byte := let z := Z_of_byte c in if (65 <=? z) && (z <=? 90) then chr (z + 32) else c.
Definition toupper (c : byte) : byte := let z := Z_of_byte c in if (97 <=? z) && (z <=? 122) then chr (z - 32) else c.
Definition ispunct (c : byte) : bool :=
  let z := Z_of_byte c in
  ((33 <=? z) && (z <=? 47)) || ((58 <=? z) && (z <=? 64)) || ((91 <=? z) && (z <=? 96)) || ((123 <=? z) && (z <=? 126)).
Definition strcasecmp (s t : list byte) : bool := bool_decide ((tolower <$> s) = (tolower <$> t)).
(** The string at a pointer to [l]: the bytes before the first zero. *)
Definition cstring (l : list byte) : list byte := take (strlen l) l.

Definition digit (c : byte) : option Z := let z := Z_of_byte c in if (48 <=? z) && (z <=? 57) then Some (z - 48) else None.
Fixpoint dec_read (acc : Z) (s : list byte) : Z :=
  match s with [] => acc | c :: s => match digit c with None => acc | Some d => dec_read (10 * acc + d) s end end.
(** [atoi] is [strtol], which saturates, converted to [int]. *)
Definition atoi (s : list byte) : Z :=
  let v := match skip_space s with
           | [] => 0
           | c :: t => if decide (c = chr 45) then - dec_read 0 t
                       else if decide (c = chr 43) then dec_read 0 t else dec_read 0 (c :: t)
           end in
  i32 (Z.max (- 2 ^ 63) (Z.min (2 ^ 63 - 1) v)).

(** The text before the first [c], and the text after it. *)
Fixpoint strchr (c : byte) (s : list byte) : option (list byte * list byte) :=
  match s with
  | [] => None
  | x :: s => if decide (x = c) then Some ([], s) else '(a, b) ← strchr c s; Some (x :: a, b)
  end.
(** The tokens of [strtok] with the delimiters ["\r\n"]. *)
Definition newline (c : byte) : bool := bool_decide (c = x0d) || bool_decide (c = x0a).
Fixpoint split_lines (s : list byte) (tok : list byte) : list (list byte) :=
  match s with
  | [] => if decide (tok = []) then [] else [tok]
  | c :: s =>
     if newline c then (if decide (tok = []) then split_lines s [] else tok :: split_lines s [])
     else split_lines s (tok ++ [c])
  end.
Definition strtok_lines (data : list byte) : list (list byte) := split_lines (cstring data) [].

(** ** The map of values *)
Class OptStore (S : Type) := {
  st_get : list byte → SM S Z;
  st_set : list byte → Z → SM S unit;
  (** The string behind the pointer that is found, or [NULL]. *)
  st_get_str : list byte → SM S (option (list byte));
  st_set_astr : list byte → option (list byte) → SM S unit;
}.

Section opt.
Context {S : Type} `{OptStore S}.
(** The stack memory of the key functions, and the table. *)
Variables (mem : list byte) (tab : list opt_t).

(** [ashkey_str(tag)] *)
Definition tag_key (tag : list byte) : SM S (list byte) := sopt (λ _, key_bytes <$> ashkey_str mem (Some tag)).

Definition opt_num (tag : list byte) : SM S Z := k ← tag_key tag; v ← st_get k; mret (i32 v).
Definition opt_num_set (tag : list byte) (num : Z) : SM S unit := k ← tag_key tag; st_set k (u64 (i32 num)).
Definition opt_str (tag : list byte) : SM S (option (list byte)) := k ← tag_key tag; st_get_str k.
Definition opt_str_set (tag : list byte) (str : option (list byte)) : SM S unit := k ← tag_key tag; st_set_astr k str.
Definition opt_bool (tag : list byte) : SM S bool := v ← opt_num tag; mret (negb (v =? 0)).
Definition opt_bool_set (tag : list byte) (b : Z) : SM S unit := opt_num_set tag (if b =? 0 then 0 else 1).

(** The [switch] on the type, with the value for each case. *)
Definition opt_switch (o : opt_t) (b n : Z) (s : option (list byte)) : SM S unit :=
  match opt_type o with
  | OPT_TYPE_BOOL => opt_bool_set (opt_name o) b
  | OPT_TYPE_NUM => opt_num_set (opt_name o) n
  | OPT_TYPE_STR => opt_str_set (opt_name o) s
  end.
Fixpoint for_each {A} (f : A → SM S unit) (l : list A) : SM S unit :=
  match l with [] => mret tt | x :: l => _ ← f x; for_each f l end.

(** One line of a configuration file. *)
Definition datfile_line (line : list byte) : SM S unit :=
  match line with
  | [] => mret tt
  | c :: _ =>
     if decide (c = chr 35) then mret tt
     else
       match strchr (chr 61) line with
       | None => mret tt
       | Some (tok, val) =>
          match List.find (λ o, strcasecmp tok (opt_name o)) tab with
          | None => mret tt
          | Some o => opt_switch o (atoi val) (atoi val) (Some val)
          end
       end
  end.
(** [data] is what the file holds, [None] when it cannot be read.  An empty file
    leaves a [NULL] pointer, on which [strtok] continues an earlier call. *)
Definition opt_set_defaults_datfile (data : option (list byte)) : SM S Z :=
  match data with
  | None => mret ERR_NOENT
  | Some [] => sfault
  | Some data => _ ← for_each datfile_line (strtok_lines data); mret 0
  end.

Definition pref_name (o : opt_t) : list byte := bytes "shcoind." ++ opt_name o.
Definition system_opt (pref : list byte → list byte) (o : opt_t) : SM S unit :=
  let buf := take 255 (pref (pref_name o)) in
  match buf with
  | [] => mret tt
  | c :: _ =>
     match opt_type o with
     | OPT_TYPE_BOOL => if decide (tolower c = chr 116) then opt_bool_set (opt_name o) 1 else mret tt
     | OPT_TYPE_NUM => opt_num_set (opt_name o) (atoi buf)
     | OPT_TYPE_STR => opt_str_set (opt_name o) (Some buf)
     end
  end.
Definition opt_set_defaults_system (pref : list byte → list byte) : SM S unit := for_each (system_opt pref) tab.

Definition opt_set_environment_name (o : opt_t) : list byte :=
  (λ c, if ispunct c then chr 95 else toupper c) <$> (bytes "SHCOIND_" ++ opt_name o).
Definition env_opt (getenv : list byte → option (list byte)) (o : opt_t) : SM S unit :=
  match getenv (opt_set_environment_name o) with
  | None => mret tt
  | Some env => opt_switch o (if atoi env =? 0 then 0 else 1) (atoi env) (Some env)
  end.
Definition opt_set_environment_settings (getenv : list byte → option (list byte)) : SM S unit := for_each (env_opt getenv) tab.

(** [key] is the result of [shkey_uniq]. *)
Definition opt_set_default_rpc_key (key : shkey_t) : SM S unit :=
  str ← opt_str OPT_RPC_KEY;
  match str with
  | None => sfault
  | Some (_ :: _) => mret tt
  | Some [] => opt_str_set OPT_RPC_KEY (Some (shkey_hex (Some key)))
  end.

(** ** Texts *)
Definition nl : list byte := [x0a].
Definition dec (z : Z) : list byte := bytes (pretty z).
Definition opt_usage_entry (o : opt_t) : list byte :=
  [x09] ++
  (match opt_type o with
   | OPT_TYPE_BOOL => if opt_def o =? 0 then bytes "--" ++ opt_name o else bytes "--no-" ++ opt_name o
   | OPT_TYPE_NUM => bytes "--" ++ opt_name o ++ bytes "=" ++ dec (opt_def o)
   | OPT_TYPE_STR => bytes "--" ++ opt_name o ++ bytes "=" ++ default (bytes "(null)") (opt_strdef o)
   end) ++ nl ++ [x09; x09] ++ opt_desc o ++ nl ++ nl.
Definition opt_usage_print : list byte := concat (opt_usage_entry <$> tab).

Definition conf_head (o : opt_t) : list byte :=
  nl ++ bytes "## Name: " ++ [x22] ++ opt_name o ++ [x22] ++ nl ++ bytes "## " ++ opt_desc o ++ nl.
Definition conf_entry (o : opt_t) : SM S (list byte) :=
  match opt_type o with
  | OPT_TYPE_BOOL =>
     mret (conf_head o ++
       (if opt_def o =? 0 then bytes "## Default: 0 (false)" ++ nl ++ bytes "#" ++ opt_name o ++ bytes "=0" ++ nl
        else bytes "## Default: 1 (true)" ++ nl ++ bytes "#" ++ opt_name o ++ bytes "=1" ++ nl))
  | OPT_TYPE_NUM =>
     mret (conf_head o ++ bytes "## Default: " ++ dec (opt_def o) ++ nl ++
       bytes "#" ++ opt_name o ++ bytes "=" ++ dec (opt_def o) ++ nl)
  | OPT_TYPE_STR =>
     let head := conf_head o ++
       match opt_strdef o with Some (c :: d) => bytes "## Default: " ++ (c :: d) ++ nl | _ => [] end in
     str ← opt_str (opt_name o);
     match opt_strdef o, str with
     | Some _, None => sfault
     | Some d, Some v =>
        if decide (d = v) then mret (head ++ bytes "#" ++ opt_name o ++ bytes "=" ++ d ++ nl)
        else mret (head ++ opt_name o ++ bytes "=" ++ v ++ nl)
     | None, v => mret (head ++ opt_name o ++ bytes "=" ++ default (bytes "(null)") v ++ nl)
     end
  end.
Fixpoint conf_entries (l : list opt_t) : SM S (list byte) :=
  match l with [] => mret [] | o :: l => e ← conf_entry o; r ← conf_entries l; mret (e ++ r) end.
Definition opt_config_default_print : SM S (list byte) := conf_entries tab.

Definition bool_text (b : bool) : list byte := if b then bytes "true" else bytes "false".
(** A line of the log; the buffer has 512 bytes. *)
Definition print_opt (o : opt_t) : SM S (list byte) :=
  val ← (match opt_type o with
        | OPT_TYPE_BOOL => b ← opt_bool (opt_name o); mret (bool_text b)
        | OPT_TYPE_NUM => n ← opt_num (opt_name o); mret (dec n)
        | OPT_TYPE_STR => s ← opt_str (opt_name o); mret (default (bytes "(null)") s)
        end : SM S (list byte));
  let buf := opt_name o ++ bytes " set to " ++ [x22] ++ val ++ [x22] ++ bytes "." in
  if (length buf <? 512)%nat then mret buf else sfault.
Fixpoint print_opts (l : list opt_t) : SM S (list (list byte)) :=
  match l with [] => mret [] | o :: l => e ← print_opt o; r ← print_opts l; mret (e :: r) end.
Definition opt_print : SM S (list (list byte)) := print_opts tab.

(** ** Start-up

    The result is the text of the configuration file that is written, if any. *)
Definition opt_set_defaults (pref : list byte → list byte) (key : shkey_t) (conf home : option (list byte))
    (getenv : list byte → option (list byte)) : SM S (option (list byte)) :=
  _ ← for_each (λ o, opt_switch o (opt_def o) (opt_def o) (opt_strdef o)) tab;
  _ ← opt_set_defaults_system pref;
  _ ← opt_set_default_rpc_key key;
  err ← opt_set_defaults_datfile conf;
  txt ← (if err =? 0 then mret None else t ← opt_config_default_print; mret (Some t));
  _ ← opt_set_defaults_datfile home;
  _ ← opt_set_environment_settings getenv;
  mret txt.

(** One argument of the command line. *)
Definition arg_opt (arg : list byte) : SM S unit :=
  match arg with
  | a :: b :: rest =>
     if bool_decide (a = chr 45) && bool_decide (b = chr 45) then
       let buf := take 255 rest in
       let '(tok, val) := match strchr (chr 61) buf with None => (buf, None) | Some (t, v) => (t, Some v) end in
       let no := bool_decide (take 3 tok = bytes "no-") in
       let tok := if no then drop 3 tok else tok in
       let num_val := match val with None => 0 | Some v => atoi v end in
       match List.find (λ o, strcasecmp (opt_name o) tok) tab with
       | None => mret tt
       | Some o => opt_switch o (if no then 0 else 1) num_val (Some (default [] val))
       end
     else mret tt
  | _ => mret tt
  end.
(** [argv] without the program's name. *)
Definition opt_arg_interp (args : list (list byte)) : SM S unit := for_each arg_opt args.
End opt.
