(* ===== verification/OptSpec.v ===== *)
(** * Options: the map behind them and their values

    The option map as an interface with the hash map behind it, the value of
    every option after each stage, the table, and the configuration file. *)

From stdpp Require Import functions.
From S2P Require Import Prelude Errors Shbuf Crc Links Shmap ShmapInv ShmapOps ShmapSpec ShmapFree Sha ShaSpec Hmac Key KeyThm Opt.

(** ** What the options rely on

    A finite map from keys to numbers and strings; a number 0 is not stored. *)
Inductive sval := SNum (w : Z) | SStr (l : list byte).
Class OptStoreOk (S : Type) `{OptStore S} := {
  st_rep : S → gmap (list byte) sval → Prop;
  st_get_ok s m k : st_rep s m →
    swp (st_get k) s (λ r s', s' = s ∧ match m !! k with None => r = 0 | Some (SNum w) => r = w | Some (SStr _) => True end);
  st_set_ok s m k w : st_rep s m →
    swp (st_set k w) s (λ _ s', st_rep s' (if w =? 0 then delete k m else <[k := SNum w]> m));
  st_get_str_ok s m k : st_rep s m → (∀ w, m !! k ≠ Some (SNum w)) →
    swp (st_get_str k) s (λ r s', s' = s ∧ match m !! k with Some (SStr l) => r = Some l | _ => r = None end);
  st_set_astr_ok s m k l : st_rep s m → x00 ∉ l → zlen l < 2 ^ 63 →
    swp (st_set_astr k (Some l)) s (λ _ s', st_rep s' (<[k := SStr l]> m));
}.

(** ** The hash map *)
Section impl.
Context `{HeapOk}.

(** Address 1 stands for the caller's string, which is copied. *)
#[global] Instance shmap_store : OptStore hst := {|
  st_get k := shmap_get (Some k);
  st_set k w := shmap_set (Some k) w;
  st_get_str k :=
    p ← shmap_get (Some k);
    if p =? 0 then mret None else l ← sopt (λ s, hs_blks s !! p); mret (Some (cstring l));
  st_set_astr k str := shmap_set_astr (Some k) ((λ l, (1, l)) <$> str);
|}.

Definition sval_aval (v : sval) : aval :=
  match v with
  | SNum w => AVal (-2) 0 (inl w)
  | SStr l => AVal (Z.lor SHMAP_STRING SHMAP_ALLOC) (zlen l + 1) (inr (l ++ [x00]))
  end.

Lemma strlen_app l : x00 ∉ l → strlen (l ++ [x00]) = length l.
Proof.
  induction l as [|c l IH]; intros Hl; [done|]. cbn [app strlen length]. rewrite decide_False by set_solver.
  f_equal. apply IH. set_solver.
Qed.
Lemma cstring_app l : x00 ∉ l → cstring (l ++ [x00]) = l.
Proof. intros Hl. unfold cstring. rewrite strlen_app by done. by rewrite take_app_length. Qed.

Definition str_ok (v : sval) : Prop := match v with SNum _ => True | SStr l => x00 ∉ l end.
Definition shmap_rep (s : hst) (m : gmap (list byte) sval) : Prop :=
  map_Forall (λ _, str_ok) m ∧ shmap_ok s ∅ (sval_aval <$> m).

Lemma get_rep s m k : shmap_rep s m →
  swp (shmap_get (Some k)) s (λ r s', s' = s ∧
    match m !! k with
    | None => r = 0
    | Some (SNum w) => r = w ∧ r ≠ 0
    | Some (SStr l) => r ≠ 0 ∧ hs_blks s !! r = Some (l ++ [x00])
    end).
Proof.
  intros (_ & t & chs & fr & Ht & Hsh & Hco & Hcnt). unfold shmap_get. apply swp_bind.
  eapply swp_mono; [by eapply get_ent_spec|]. intros [p f] s' [-> Hp]. apply swp_ret. split; [done|].
  rewrite lookup_fmap in Hp. destruct (m !! k) as [[w|l]|]; cbn in *; [naive_solver|naive_solver|congruence].
Qed.

#[global] Program Instance shmap_store_ok : OptStoreOk hst := {| st_rep := shmap_rep |}.
Next Obligation.
  intros s m k Hr. cbn. eapply swp_mono; [by apply get_rep|]. intros r s' [-> Hm]. split; [done|].
  destruct (m !! k) as [[]|]; naive_solver.
Qed.
Next Obligation.
  intros s m k w [Hs Hok]. cbn. unfold shmap_set. apply swp_bind. eapply swp_mono; [apply set_ent_spec; [exact Hok|done]|].
  intros e s' [-> Hok']. apply swp_ret. unfold set_map in Hok'. destruct (Z.eqb_spec w 0) as [->|Hw].
  - split; [by apply map_Forall_delete|]. by rewrite fmap_delete.
  - split; [by apply map_Forall_insert_2|]. rewrite fmap_insert.
    unfold set_val, ent_flag in Hok'. rewrite (proj2 (Z.eqb_neq w 0) Hw) in Hok'. done.
Qed.
Next Obligation.
  intros s m k Hr Hn. cbn. apply swp_bind. eapply swp_mono; [by apply get_rep|]. intros r s' [-> Hm].
  pose proof Hr as [Hs _]. destruct (m !! k) as [[w|l]|] eqn:Ek.
  - exfalso. by apply (Hn w).
  - destruct Hm as [Hr0 Hb]. rewrite (proj2 (Z.eqb_neq r 0) Hr0). apply swp_bind. eapply swp_opt; [done|]. apply swp_ret.
    split; [done|]. f_equal. apply cstring_app. by apply (Hs k (SStr l)).
  - subst r. by apply swp_ret.
Qed.
Next Obligation.
  intros s m k l [Hs Hok] Hl Hlen. cbn. unfold shmap_set_astr. apply swp_bind, swp_get.
  pose proof Hok as (t & chs & fr & Ht & _). rewrite Ht. unfold set_string. apply swp_bind.
  eapply swp_mono; [apply set_ent_spec; [exact Hok|]|].
  - intros _. rewrite length_app. simpl. lia.
  - intros e s' [-> Hok']. apply swp_ret. split; [by apply map_Forall_insert_2|]. rewrite fmap_insert.
    unfold set_map, set_val, ent_flag in Hok'. cbn [Z.eqb] in Hok'.
    rewrite (proj2 (Z.eqb_neq (zlen l + 1) 0)) in Hok' by lia. change (Z.testbit (Z.lor SHMAP_STRING SHMAP_ALLOC) 0) with true in Hok'.
    cbn iota in Hok'. rewrite take_ge in Hok' by (rewrite length_app; simpl; lia). done.
Qed.

(** ** Start and end of the options' life *)
Definition opt_init (mem : list byte) (tab : list opt_t) (pref : list byte → list byte) (key : shkey_t)
    (conf home : option (list byte)) (getenv : list byte → option (list byte)) : SM hst (option (list byte)) :=
  _ ← shmap_init;
  opt_set_defaults mem tab pref key conf home getenv.
Definition opt_term : SM hst unit := shmap_free.

Lemma term_spec s m : shmap_rep s m → swp opt_term s (λ _ s', hs_map s' = None ∧ hs_ents s' = ∅ ∧ hs_blks s' = ∅).
Proof. intros [_ Hok]. eapply swp_mono; [by apply (free_spec s ∅ (sval_aval <$> m))|]. naive_solver. Qed.
End impl.

(** * The value of every option

    What the sources of [Opt.v] do to the value of each option, as functions of
    one option, and that the loops over the table do that to all of them. *)

Definition KEYB (tag : list byte) : list byte := key_bytes (KEY tag).

(** A table whose options do not get in each other's way. *)
Record tab_ok (tab : list opt_t) : Prop := {
  tk_keys : NoDup ((λ o, KEYB (opt_name o)) <$> tab);
  tk_names : NoDup ((λ o, tolower <$> opt_name o) <$> tab);
  tk_len : Forall (λ o, (0 < length (opt_name o) < 256)%nat) tab;
  tk_str : Forall (λ o, (opt_type o = OPT_TYPE_STR) → is_Some (opt_strdef o)) tab;
  tk_def : Forall (λ o, x00 ∉ default [] (opt_strdef o) ∧ (length (default [] (opt_strdef o)) < 256)%nat) tab;
}.

(** ** Values *)
Definition text_ok (l : list byte) : Prop := x00 ∉ l ∧ zlen l < 2 ^ 63.
(** The value that the [switch] stores. *)
Definition val_of (o : opt_t) (b n : Z) (s : list byte) : sval :=
  match opt_type o with
  | OPT_TYPE_BOOL => SNum (if b =? 0 then 0 else 1)
  | OPT_TYPE_NUM => SNum (i32 n)
  | OPT_TYPE_STR => SStr s
  end.
Definition default_val (o : opt_t) : sval := val_of o (opt_def o) (opt_def o) (default [] (opt_strdef o)).
Definition pref_val (pref : list byte → list byte) (o : opt_t) (v : sval) : sval :=
  let buf := take 255 (pref (pref_name o)) in
  match buf with
  | [] => v
  | c :: _ =>
     match opt_type o with
     | OPT_TYPE_BOOL => if decide (tolower c = chr 116) then SNum 1 else v
     | _ => val_of o 0 (atoi buf) buf
     end
  end.
Definition env_val (getenv : list byte → option (list byte)) (o : opt_t) (v : sval) : sval :=
  match getenv (opt_set_environment_name o) with
  | None => v
  | Some e => val_of o (atoi e) (atoi e) e
  end.
(** The name and the value of a line that is not a comment. *)
Definition parse_line (line : list byte) : option (list byte * list byte) :=
  match line with
  | [] => None
  | c :: _ => if decide (c = chr 35) then None else strchr (chr 61) line
  end.
Definition line_val (o : opt_t) (v : sval) (line : list byte) : sval :=
  match parse_line line with
  | Some (tok, val) => if strcasecmp tok (opt_name o) then val_of o (atoi val) (atoi val) val else v
  | None => v
  end.
Definition file_val (o : opt_t) (v : sval) (data : option (list byte)) : sval :=
  match data with None => v | Some data => foldl (line_val o) v (strtok_lines data) end.
Definition rpc_val (key : shkey_t) (o : opt_t) (v : sval) : sval :=
  if decide (opt_name o = OPT_RPC_KEY) then match v with SStr [] => SStr (shkey_hex (Some key)) | _ => v end else v.
(** All sources, the later ones over the earlier. *)
Definition resolve (pref : list byte → list byte) (key : shkey_t) (conf home : option (list byte))
    (getenv : list byte → option (list byte)) (o : opt_t) : sval :=
  env_val getenv o (file_val o (file_val o (rpc_val key o (pref_val pref o (default_val o))) conf) home).

Definition arg_split (arg : list byte) : option (bool * list byte * option (list byte)) :=
  match arg with
  | a :: b :: rest =>
     if bool_decide (a = chr 45) && bool_decide (b = chr 45) then
       let buf := take 255 rest in
       let '(tok, val) := match strchr (chr 61) buf with None => (buf, None) | Some (t, v) => (t, Some v) end in
       let no := bool_decide (take 3 tok = bytes "no-") in
       Some (no, if no then drop 3 tok else tok, val)
     else None
  | _ => None
  end.
Definition arg_val (o : opt_t) (v : sval) (arg : list byte) : sval :=
  match arg_split arg with
  | None => v
  | Some (no, tok, val) =>
     if strcasecmp (opt_name o) tok then
       val_of o (if no then 0 else 1) (match val with None => 0 | Some x => atoi x end) (default [] val)
     else v
  end.

(** ** The map *)
Definition store (v : sval) : option sval :=
  match v with SNum w => if w =? 0 then None else Some (SNum (u64 w)) | SStr l => Some (SStr l) end.
Definition int_ok (v : sval) : Prop := match v with SNum w => - 2 ^ 31 ≤ w < 2 ^ 31 | SStr l => text_ok l end.

Lemma i32_range z : - 2 ^ 31 ≤ i32 z < 2 ^ 31.
Proof. unfold i32. pose proof (Z.mod_pos_bound (z + 2 ^ 31) (2 ^ 32) ltac:(lia)). lia. Qed.
Lemma i32_u64 v : - 2 ^ 31 ≤ v < 2 ^ 31 → i32 (u64 v) = v.
Proof.
  intros Hv. unfold u64. destruct (decide (0 ≤ v)).
  - rewrite Z.mod_small by lia. apply i32_small. lia.
  - replace (v mod 2 ^ 64) with (v + 2 ^ 64) by (apply (Z.mod_unique _ _ (-1)); lia).
    unfold i32. replace (v + 2 ^ 64 + 2 ^ 31) with (v + 2 ^ 31 + 2 ^ 32 * 2 ^ 32) by lia. rewrite Z.mod_add by lia.
    rewrite Z.mod_small by lia. lia.
Qed.
Lemma u64_zero v : - 2 ^ 31 ≤ v < 2 ^ 31 → (u64 v =? 0) = (v =? 0).
Proof.
  intros Hv. destruct (Z.eqb_spec v 0) as [->|Hne]; [done|]. apply Z.eqb_neq. unfold u64. intros E.
  apply Z.mod_divide in E as [q Hq]; [|lia]. lia.
Qed.
Lemma atoi_range s : - 2 ^ 31 ≤ atoi s < 2 ^ 31.
Proof. apply i32_range. Qed.

Lemma strchr_split c s a b : strchr c s = Some (a, b) → s = a ++ c :: b.
Proof.
  revert a b. induction s as [|x s IH]; intros a b E; [done|]. cbn [strchr] in E. destruct (decide (x = c)) as [->|].
  - by injection E as <- <-.
  - destruct (strchr c s) as [[a' b']|]; [|done]. cbn in E. injection E as <- <-. by rewrite (IH a' b').
Qed.
Lemma strchr_text c s a b : strchr c s = Some (a, b) → text_ok s → text_ok b.
Proof.
  intros ->%strchr_split [Hs Hl]. split; [set_solver|]. rewrite length_app in Hl. simpl in Hl. lia.
Qed.
Lemma cstring_text data : x00 ∉ cstring data.
Proof.
  unfold cstring. induction data as [|c data IH]; cbn [strlen]; [rewrite take_nil; apply not_elem_of_nil|].
  destruct (decide (c = x00)); [by apply not_elem_of_nil|]. cbn [take]. set_solver.
Qed.
Lemma split_lines_text s tok : x00 ∉ s → x00 ∉ tok → zlen s + zlen tok < 2 ^ 63 → Forall text_ok (split_lines s tok).
Proof.
  revert tok. induction s as [|c s IH]; intros tok Hs Ht Hl; cbn [split_lines].
  - destruct (decide (tok = [])); constructor; [|constructor]. split; [done|simpl in Hl; lia].
  - cbn [length] in Hl. rewrite not_elem_of_cons in Hs. destruct (newline c).
    + destruct (decide (tok = [])); [|constructor; [split; [done|lia]|]]; (apply IH; [apply Hs|apply not_elem_of_nil|simpl; lia]).
    + apply IH; [apply Hs|set_solver|]. rewrite length_app. simpl. lia.
Qed.
Lemma lines_text data : zlen data < 2 ^ 63 → Forall text_ok (strtok_lines data).
Proof.
  intros Hd. apply split_lines_text; [apply cstring_text|apply not_elem_of_nil|].
  unfold cstring. rewrite length_take. simpl. lia.
Qed.

Section spec.
Context {S : Type} `{OptStoreOk S}.
Variables (mem : list byte) (tab : list opt_t).
Hypothesis Hmem : (64 ≤ length mem)%nat.
Hypothesis Htab : tab_ok tab.

(** The options of the table have the values [m]. *)
Definition orep (s : S) (m : list byte → sval) : Prop :=
  ∃ km, st_rep s km ∧ ∀ o, o ∈ tab → km !! KEYB (opt_name o) = store (m (opt_name o)).

Lemma tab_inj o o' : o ∈ tab → o' ∈ tab → KEYB (opt_name o) = KEYB (opt_name o') → o = o'.
Proof.
  intros [i Hi]%list_elem_of_lookup [j Hj]%list_elem_of_lookup E.
  assert (i = j) as ->; [|congruence]. eapply (NoDup_lookup _ i j (KEYB (opt_name o)) (tk_keys _ Htab)).
  - by rewrite list_lookup_fmap, Hi.
  - by rewrite list_lookup_fmap, Hj, E.
Qed.
Lemma tag_key_spec o s (Q : list byte → S → Prop) : o ∈ tab → Q (KEYB (opt_name o)) s → swp (tag_key mem (opt_name o)) s Q.
Proof.
  intros Ho HQ. unfold tag_key. pose proof (tk_len _ Htab) as Hl. rewrite Forall_forall in Hl. specialize (Hl o Ho).
  eapply swp_opt; [|exact HQ].
  assert (ashkey_str mem (Some (opt_name o)) = shkey_bin_r mem (opt_name o)) as -> by (destruct (opt_name o); [simpl in Hl; lia|done]).
  rewrite bin_r_spec by (done || lia). done.
Qed.

Lemma orep_set s km m o v : (∀ o, o ∈ tab → km !! KEYB (opt_name o) = store (m (opt_name o))) → o ∈ tab →
  st_rep s (match store v with None => delete (KEYB (opt_name o)) km | Some x => <[KEYB (opt_name o) := x]> km end) →
  orep s (<[opt_name o := v]> m).
Proof.
  intros Hkm Ho Hs. eexists. split; [exact Hs|]. intros o' Ho'. destruct (decide (opt_name o' = opt_name o)) as [E|E].
  - rewrite E, fn_lookup_insert. destruct (store v); [by rewrite lookup_insert_eq|by rewrite lookup_delete_eq].
  - rewrite fn_lookup_insert_ne by done. rewrite <-Hkm by done.
    assert (KEYB (opt_name o) ≠ KEYB (opt_name o')) as Hne by (intros E'; apply E; by rewrite (tab_inj o o' Ho Ho' E')).
    destruct (store v); [by rewrite lookup_insert_ne|by rewrite lookup_delete_ne].
Qed.

Lemma num_set_spec o s m v : orep s m → o ∈ tab →
  swp (opt_num_set mem (opt_name o) v) s (λ _ s', orep s' (<[opt_name o := SNum (i32 v)]> m)).
Proof.
  intros (km & Hs & Hkm) Ho. unfold opt_num_set. apply swp_bind. apply tag_key_spec; [done|].
  eapply swp_mono; [by apply st_set_ok|]. intros ? s' Hs'. eapply orep_set; [done..|]. cbn [store].
  pose proof (i32_range v) as Hr. rewrite (u64_zero _ Hr) in Hs'. by destruct (i32 v =? 0).
Qed.
Lemma str_set_spec o s m l : orep s m → o ∈ tab → text_ok l →
  swp (opt_str_set mem (opt_name o) (Some l)) s (λ _ s', orep s' (<[opt_name o := SStr l]> m)).
Proof.
  intros (km & Hs & Hkm) Ho [Hl Hlen]. unfold opt_str_set. apply swp_bind. apply tag_key_spec; [done|].
  eapply swp_mono; [by apply st_set_astr_ok|]. intros ? s' Hs'. by eapply orep_set.
Qed.
Lemma num_get_spec o s m v : orep s m → o ∈ tab → m (opt_name o) = SNum v → - 2 ^ 31 ≤ v < 2 ^ 31 →
  swp (opt_num mem (opt_name o)) s (λ r s', s' = s ∧ r = v).
Proof.
  intros (km & Hs & Hkm) Ho Hv Hr. unfold opt_num. apply swp_bind. apply tag_key_spec; [done|]. apply swp_bind.
  eapply swp_mono; [by apply st_get_ok|]. intros r s' [-> Hm]. apply swp_ret. split; [done|].
  rewrite Hkm, Hv in Hm by done. cbn [store] in Hm. destruct (Z.eqb_spec v 0) as [->|]; subst r; [done|]. by apply i32_u64.
Qed.
Lemma str_get_spec o s m l : orep s m → o ∈ tab → m (opt_name o) = SStr l →
  swp (opt_str mem (opt_name o)) s (λ r s', s' = s ∧ r = Some l).
Proof.
  intros (km & Hs & Hkm) Ho Hv. unfold opt_str. apply swp_bind. apply tag_key_spec; [done|].
  eapply swp_mono; [apply st_get_str_ok; [done|]|].
  - intros w. rewrite Hkm, Hv by done. done.
  - intros r s' [-> Hm]. rewrite Hkm, Hv in Hm by done. done.
Qed.

Lemma switch_spec o s m b n l : orep s m → o ∈ tab → (opt_type o = OPT_TYPE_STR → ∃ t, l = Some t ∧ text_ok t) →
  swp (opt_switch mem o b n l) s (λ _ s', orep s' (<[opt_name o := val_of o b n (default [] l)]> m)).
Proof.
  intros Hm Ho Hl. unfold opt_switch, val_of. destruct (opt_type o).
  - unfold opt_bool_set. eapply swp_mono; [by apply num_set_spec|]. intros ? s' Hs. by destruct (b =? 0).
  - by apply num_set_spec.
  - destruct Hl as (t & -> & Ht); [done|]. by apply str_set_spec.
Qed.

(** ** Loops *)
Lemma for_each_spec {A} (f : A → SM S unit) (g : A → (list byte → sval) → list byte → sval) l s m :
  orep s m → (∀ x s m, x ∈ l → orep s m → swp (f x) s (λ _ s', orep s' (g x m))) →
  swp (for_each f l) s (λ _ s', orep s' (foldl (λ m x, g x m) m l)).
Proof.
  intros Hm Hf. revert s m Hm. induction l as [|x l IH]; intros s m Hm; cbn [for_each foldl]; [by apply swp_ret|].
  apply swp_bind. eapply swp_mono; [apply Hf; [left|done]|]. intros ? s' Hs'. apply IH; [|done].
  intros y s0 m0 Hy. apply Hf. by right.
Qed.

(** A loop that gives each option its own value. *)
Lemma foldl_names (h : opt_t → sval → sval) l m : NoDup (opt_name <$> l) →
  (∀ o, o ∈ l → foldl (λ m o, <[opt_name o := h o (m (opt_name o))]> m) m l (opt_name o) = h o (m (opt_name o))) ∧
  (∀ n, n ∉ opt_name <$> l → foldl (λ m o, <[opt_name o := h o (m (opt_name o))]> m) m l n = m n).
Proof.
  revert m. induction l as [|o l IH]; intros m Hnd; cbn [foldl fmap list_fmap] in *.
  - split; [intros o Ho; by apply not_elem_of_nil in Ho|done].
  - apply NoDup_cons in Hnd as [Hno Hnd]. destruct (IH (<[opt_name o := h o (m (opt_name o))]> m) Hnd) as [IH1 IH2]. split.
    + intros o' [->|Ho']%elem_of_cons.
      * rewrite IH2 by done. by rewrite fn_lookup_insert.
      * rewrite IH1 by done. rewrite fn_lookup_insert_ne; [done|]. intros E. apply Hno. rewrite E. by apply list_elem_of_fmap_2.
    + intros n Hn. rewrite not_elem_of_cons in Hn. rewrite IH2 by apply Hn. rewrite fn_lookup_insert_ne; [done|]. naive_solver.
Qed.
Lemma names_nodup : NoDup (opt_name <$> tab).
Proof.
  pose proof (tk_names _ Htab) as Hn. change (λ o, tolower <$> opt_name o) with (fmap tolower ∘ opt_name) in Hn.
  rewrite list_fmap_compose in Hn. by apply NoDup_fmap_1 in Hn.
Qed.

(** Equal values of the options of the table. *)
Definition agree (m m' : list byte → sval) : Prop := ∀ o, o ∈ tab → m (opt_name o) = m' (opt_name o).
Lemma orep_agree s m m' : orep s m → agree m m' → orep s m'.
Proof. intros (km & Hs & Hkm) Ha. exists km. split; [done|]. intros o Ho. by rewrite Hkm, Ha. Qed.

(** A stage that gives each option the value [h]. *)
Lemma stage_spec (f : opt_t → SM S unit) (h : opt_t → sval → sval) s (v : opt_t → sval) m :
  orep s m → (∀ o, o ∈ tab → m (opt_name o) = v o) →
  (∀ o s m, o ∈ tab → orep s m → swp (f o) s (λ _ s', orep s' (<[opt_name o := h o (m (opt_name o))]> m))) →
  swp (for_each f tab) s (λ _ s', ∃ m', orep s' m' ∧ ∀ o, o ∈ tab → m' (opt_name o) = h o (v o)).
Proof.
  intros Hm Hv Hf. eapply swp_mono; [by apply (for_each_spec f (λ o m, <[opt_name o := h o (m (opt_name o))]> m))|].
  intros ? s' Hs'. eexists. split; [exact Hs'|]. intros o Ho.
  rewrite (proj1 (foldl_names h tab m names_nodup)) by done. by rewrite Hv.
Qed.

Lemma name_inj o o' : o ∈ tab → o' ∈ tab → opt_name o = opt_name o' → o = o'.
Proof. intros Ho Ho' E. apply tab_inj; [done..|]. by rewrite E. Qed.
Lemma insert_same (m : list byte → sval) n s : orep s m → orep s (<[n := m n]> m).
Proof. intros Hm. eapply orep_agree; [done|]. intros o Ho. destruct (decide (opt_name o = n)) as [->|]; [by rewrite fn_lookup_insert|by rewrite fn_lookup_insert_ne]. Qed.

(** ** Lines of a file *)
Lemma find_option (p : list byte → bool) (t : list byte) :
  (∀ n, p n = bool_decide ((tolower <$> n) = t)) →
  match List.find (λ o, p (opt_name o)) tab with
  | Some o => o ∈ tab ∧ ∀ o', o' ∈ tab → p (opt_name o') = bool_decide (o' = o)
  | None => ∀ o', o' ∈ tab → p (opt_name o') = false
  end.
Proof.
  intros Hp. destruct (List.find _ tab) as [o|] eqn:Ef.
  - apply find_some in Ef as [Ho Hpo]. apply list_elem_of_In in Ho. split; [done|]. intros o' Ho'.
    rewrite Hp in *. apply bool_decide_eq_true in Hpo. destruct (decide (o' = o)) as [->|Hne].
    + by rewrite !bool_decide_true.
    + rewrite !bool_decide_false; [done|done|]. intros E. apply Hne.
      apply list_elem_of_lookup in Ho as [i Hi]. apply list_elem_of_lookup in Ho' as [j Hj].
      assert (j = i) as ->; [|congruence]. eapply (NoDup_lookup _ j i t (tk_names _ Htab)).
      * by rewrite list_lookup_fmap, Hj; cbn; rewrite E.
      * by rewrite list_lookup_fmap, Hi; cbn; rewrite Hpo.
  - intros o' Ho'. eapply (find_none _ _ Ef). by apply list_elem_of_In.
Qed.

Lemma strcasecmp_fst t n : strcasecmp t n = bool_decide ((tolower <$> n) = (tolower <$> t)).
Proof. unfold strcasecmp. by apply bool_decide_ext. Qed.

Lemma line_spec line s m : orep s m → text_ok line →
  swp (datfile_line mem tab line) s (λ _ s', ∃ m', orep s' m' ∧ ∀ o, o ∈ tab → m' (opt_name o) = line_val o (m (opt_name o)) line).
Proof.
  intros Hm Hl. unfold datfile_line, line_val, parse_line. destruct line as [|c line]; [apply swp_ret; eauto|].
  destruct (decide (c = chr 35)); [apply swp_ret; eauto|].
  destruct (strchr (chr 61) (c :: line)) as [[tok val]|] eqn:Es; [|apply swp_ret; eauto].
  assert (text_ok val) as Hval by (eapply strchr_text; done).
  pose proof (find_option (λ n, strcasecmp tok n) (tolower <$> tok) (strcasecmp_fst tok)) as Hf.
  destruct (List.find _ tab) as [o|].
  - destruct Hf as [Ho Hf]. eapply swp_mono; [apply switch_spec; [done|done|eauto]|]. intros ? s' Hs'. eexists. split; [exact Hs'|].
    intros o' Ho'. rewrite Hf by done. destruct (decide (o' = o)) as [->|Hne].
    + rewrite bool_decide_true by done. by rewrite fn_lookup_insert.
    + rewrite bool_decide_false by done. rewrite fn_lookup_insert_ne; [done|]. intros E. apply Hne. by apply (name_inj o' o).
  - apply swp_ret. exists m. split; [done|]. intros o Ho. by rewrite Hf.
Qed.
Lemma lines_spec l s m v : orep s m → (∀ o, o ∈ tab → m (opt_name o) = v o) → Forall text_ok l →
  swp (for_each (datfile_line mem tab) l) s (λ _ s', ∃ m', orep s' m' ∧ ∀ o, o ∈ tab → m' (opt_name o) = foldl (line_val o) (v o) l).
Proof.
  intros Hm Hv Hl. revert s m v Hm Hv. induction Hl as [|x l Hx Hl IH]; intros s m v Hm Hv; cbn [for_each foldl]; [apply swp_ret; eauto|].
  apply swp_bind. eapply swp_mono; [by apply line_spec|]. intros ? s' (m' & Hs' & Hm').
  eapply swp_mono; [by apply (IH s' m' (λ o, line_val o (m (opt_name o)) x))|]. intros ? s2 (m2 & Hs2 & Hm2).
  exists m2. split; [done|]. intros o Ho. by rewrite Hm2, Hv.
Qed.

(** A file that is absent, or text. *)
Definition file_ok (data : option (list byte)) : Prop := match data with None => True | Some d => d ≠ [] ∧ zlen d < 2 ^ 63 end.
Lemma datfile_spec data s m v : orep s m → (∀ o, o ∈ tab → m (opt_name o) = v o) → file_ok data →
  swp (opt_set_defaults_datfile mem tab data) s (λ e s', e = (match data with Some _ => 0 | None => ERR_NOENT end) ∧
    ∃ m', orep s' m' ∧ ∀ o, o ∈ tab → m' (opt_name o) = file_val o (v o) data).
Proof.
  intros Hm Hv Hd. unfold opt_set_defaults_datfile, file_val. destruct data as [d|]; [|apply swp_ret; eauto].
  destruct Hd as [Hne Hlen]. destruct d as [|c d]; [done|]. apply swp_bind.
  eapply swp_mono; [apply (lines_spec _ s m v); [done|done|]|].
  - by apply lines_text.
  - intros ? s' Hs'. by apply swp_ret.
Qed.

(** ** The other sources *)
Lemma pref_spec pref s m v : orep s m → (∀ o, o ∈ tab → m (opt_name o) = v o) → (∀ n, x00 ∉ pref n) →
  swp (opt_set_defaults_system mem tab pref) s (λ _ s', ∃ m', orep s' m' ∧ ∀ o, o ∈ tab → m' (opt_name o) = pref_val pref o (v o)).
Proof.
  intros Hm Hv Hp. unfold opt_set_defaults_system. apply (stage_spec (system_opt mem pref) (pref_val pref) s v m); [done..|].
  intros o s1 m1 Ho Hm1. unfold system_opt, pref_val. set (buf := take 255 (pref (pref_name o))).
  assert (text_ok buf) as Hb.
  { split; [|unfold buf; rewrite length_take; lia]. intros Hin. apply (Hp (pref_name o)).
    unfold buf in Hin. rewrite <-(take_drop 255 (pref _)). by apply elem_of_app; left. }
  destruct buf as [|c b] eqn:Eb; [apply swp_ret; by apply insert_same|]. unfold val_of. destruct (opt_type o).
  - destruct (decide _); [|apply swp_ret; by apply insert_same]. unfold opt_bool_set. by apply (num_set_spec o s1 m1 1).
  - by apply num_set_spec.
  - by apply str_set_spec.
Qed.
Lemma env_spec getenv s m v : orep s m → (∀ o, o ∈ tab → m (opt_name o) = v o) → (∀ n e, getenv n = Some e → text_ok e) →
  swp (opt_set_environment_settings mem tab getenv) s (λ _ s', ∃ m', orep s' m' ∧ ∀ o, o ∈ tab → m' (opt_name o) = env_val getenv o (v o)).
Proof.
  intros Hm Hv He. unfold opt_set_environment_settings. apply (stage_spec (env_opt mem getenv) (env_val getenv) s v m); [done..|].
  intros o s1 m1 Ho Hm1. unfold env_opt, env_val. destruct (getenv _) as [e|] eqn:Ee; [|apply swp_ret; by apply insert_same].
  eapply swp_mono; [apply switch_spec; [done|done|eauto]|]. intros ? s' Hs'. unfold val_of in *. cbn [default] in Hs'.
  destruct (opt_type o); [|done..]. by destruct (atoi e =? 0).
Qed.
Lemma defaults_spec s m : orep s m →
  swp (for_each (λ o, opt_switch mem o (opt_def o) (opt_def o) (opt_strdef o)) tab) s
    (λ _ s', ∃ m', orep s' m' ∧ ∀ o, o ∈ tab → m' (opt_name o) = default_val o).
Proof.
  intros Hm. apply (stage_spec _ (λ o _, default_val o) s (λ o, m (opt_name o)) m); [done..|].
  intros o s1 m1 Ho Hm1. apply switch_spec; [done|done|]. intros Ht.
  pose proof (tk_str _ Htab) as Hs. rewrite Forall_forall in Hs. destruct (Hs o Ho Ht) as [d Hd]. exists d. split; [done|].
  pose proof (tk_def _ Htab) as Hdef. rewrite Forall_forall in Hdef. destruct (Hdef o Ho) as [Hd1 Hd2]. rewrite Hd in Hd1, Hd2. cbn in *.
  split; [done|lia].
Qed.
Lemma rpc_spec key s m v o : orep s m → (∀ o, o ∈ tab → m (opt_name o) = v o) → o ∈ tab → opt_name o = OPT_RPC_KEY →
  opt_type o = OPT_TYPE_STR → (∃ l, v o = SStr l) → text_ok (shkey_hex (Some key)) →
  swp (opt_set_default_rpc_key mem key) s (λ _ s', ∃ m', orep s' m' ∧ ∀ o, o ∈ tab → m' (opt_name o) = rpc_val key o (v o)).
Proof.
  intros Hm Hv Ho Hn Ht [l Hl] Hk. unfold opt_set_default_rpc_key. apply swp_bind. rewrite <-Hn.
  eapply swp_mono; [apply (str_get_spec o s m l); [done|done|by rewrite Hv]|]. intros r s' [-> ->].
  assert (∀ o', o' ∈ tab → opt_name o' = OPT_RPC_KEY → o' = o) as Huniq by (intros o' Ho' E; apply (name_inj o' o); congruence).
  destruct l as [|c l].
  - eapply swp_mono; [by apply str_set_spec|]. intros ? s' Hs'. eexists. split; [exact Hs'|]. intros o' Ho'. unfold rpc_val.
    destruct (decide (opt_name o' = OPT_RPC_KEY)) as [E|E].
    + rewrite (Huniq o') by done. by rewrite fn_lookup_insert, Hl.
    + rewrite fn_lookup_insert_ne by congruence. by apply Hv.
  - apply swp_ret. exists m. split; [done|]. intros o' Ho'. rewrite Hv by done. unfold rpc_val.
    destruct (decide (opt_name o' = OPT_RPC_KEY)) as [E|E]; [|done]. rewrite (Huniq o'), Hl by done. done.
Qed.

(** ** Arguments *)
Lemma arg_spec arg s m : orep s m → text_ok arg →
  swp (arg_opt mem tab arg) s (λ _ s', ∃ m', orep s' m' ∧ ∀ o, o ∈ tab → m' (opt_name o) = arg_val o (m (opt_name o)) arg).
Proof.
  intros Hm Ha. unfold arg_opt, arg_val, arg_split.
  destruct arg as [|a [|b rest]]; [apply swp_ret; eauto..|]. destruct (_ && _); [|apply swp_ret; eauto].
  set (buf := take 255 rest).
  assert (text_ok buf) as Hb.
  { destruct Ha as [Ha _]. split; [|unfold buf; rewrite length_take; lia]. intros Hin. apply Ha. do 2 right.
    rewrite <-(take_drop 255 rest). by apply elem_of_app; left. }
  assert (∃ tok val, (match strchr (chr 61) buf with None => (buf, None) | Some (t, v) => (t, Some v) end) = (tok, val) ∧
    text_ok (default [] val)) as (tok & val & -> & Hval).
  { destruct (strchr (chr 61) buf) as [[t v]|] eqn:E; eexists _, _; (split; [done|]); [by eapply strchr_text|].
    split; [by apply not_elem_of_nil|simpl; lia]. }
  cbv zeta. set (no := bool_decide _). set (name := if no then drop 3 tok else tok).
  pose proof (find_option (λ n, strcasecmp n name) (tolower <$> name) (λ n, eq_refl)) as Hf.
  destruct (List.find _ tab) as [o|].
  - destruct Hf as [Ho Hf]. eapply swp_mono; [apply switch_spec; [done|done|eauto]|]. intros ? s' Hs'. eexists. split; [exact Hs'|].
    intros o' Ho'. rewrite Hf by done. destruct (decide (o' = o)) as [->|Hne].
    + rewrite bool_decide_true by done. by rewrite fn_lookup_insert.
    + rewrite bool_decide_false by done. rewrite fn_lookup_insert_ne; [done|]. intros E. apply Hne. by apply (name_inj o' o).
  - apply swp_ret. exists m. split; [done|]. intros o Ho. by rewrite Hf.
Qed.
Lemma args_spec l s m v : orep s m → (∀ o, o ∈ tab → m (opt_name o) = v o) → Forall text_ok l →
  swp (opt_arg_interp mem tab l) s (λ _ s', ∃ m', orep s' m' ∧ ∀ o, o ∈ tab → m' (opt_name o) = foldl (arg_val o) (v o) l).
Proof.
  intros Hm Hv Hl. unfold opt_arg_interp. revert s m v Hm Hv.
  induction Hl as [|x l Hx Hl IH]; intros s m v Hm Hv; cbn [for_each foldl]; [apply swp_ret; eauto|].
  apply swp_bind. eapply swp_mono; [by apply arg_spec|]. intros ? s' (m' & Hs' & Hm').
  eapply swp_mono; [by apply (IH s' m' (λ o, arg_val o (m (opt_name o)) x))|]. intros ? s2 (m2 & Hs2 & Hm2).
  exists m2. split; [done|]. intros o Ho. by rewrite Hm2, Hv.
Qed.
End spec.

(** * The option table

    No two options of the table share a key of the map or a name. *)

(** Two keys differ when one of their words does. *)
Lemma KEYB_word n n' i : KEYB n = KEYB n' → (i < SHKEY_WORDS)%nat → KEY_word n i = KEY_word n' i.
Proof.
  intros E Hi.
  assert (∀ x, take 4 (drop (i * 4) (drop 4 (KEYB x))) = le_enc 4 (KEY_word x i)) as Hw.
  { intros x. unfold KEYB, key_bytes, KEY. cbn [k_alg k_crc k_code].
    rewrite (assoc_L (++)), drop_app_length' by done. apply concat_pick.
    - apply Forall_fmap, Forall_true. intros. apply length_le_enc.
    - rewrite !list_lookup_fmap, lookup_seq_lt by done. done. }
  pose proof (Hw n) as Hn. rewrite E, (Hw n') in Hn. apply (f_equal le_dec) in Hn. rewrite !le_dec_enc in Hn.
  assert (∀ x, 0 ≤ KEY_word x i < 2 ^ 32) as Hr by (intros x; apply shcrc32_range).
  change (256 ^ Z.of_nat 4) with (2 ^ 32) in Hn. by rewrite !Z.mod_small in Hn by apply Hr.
Qed.

(** The words that tell the names apart: word 3, and word 0 for the two names
    whose piece 3 is the same. *)
Definition probe (n : list byte) : option Z * option Z :=
  (key_word (zeros 64) n 3, if bool_decide (n ∈ [OPT_RPC_PORT; OPT_SHC_PORT]) then key_word (zeros 64) n 0 else None).
Definition differ (a b : option Z * option Z) : bool :=
  bool_decide (a.1 ≠ b.1) || match a.2, b.2 with Some x, Some y => bool_decide (x ≠ y) | _, _ => false end.
Fixpoint all_differ (l : list (option Z * option Z)) : bool :=
  match l with [] => true | a :: l => forallb (differ a) l && all_differ l end.

Lemma differ_key n n' : zlen n < 2 ^ 32 → zlen n' < 2 ^ 32 → differ (probe n) (probe n') = true → KEYB n ≠ KEYB n'.
Proof.
  intros Hn Hn' Hd E.
  assert (∀ i, (i < SHKEY_WORDS)%nat → key_word (zeros 64) n i = key_word (zeros 64) n' i) as Hw.
  { intros i Hi. rewrite (key_word_spec (zeros 64) n i (le_n _) Hn Hi), (key_word_spec (zeros 64) n' i (le_n _) Hn' Hi).
    f_equal. by apply KEYB_word. }
  unfold differ, probe in Hd. cbn [fst snd] in Hd. rewrite (Hw 3%nat), (Hw 0%nat) in Hd by (unfold SHKEY_WORDS; lia).
  clear Hw. revert Hd. generalize (key_word (zeros 64) n' 3) as b. generalize (key_word (zeros 64) n' 0) as a. intros a b Hd.
  rewrite (bool_decide_eq_false_2 (b ≠ b)) in Hd by tauto. cbn [orb] in Hd.
  destruct (bool_decide (n ∈ [OPT_RPC_PORT; OPT_SHC_PORT])), (bool_decide (n' ∈ [OPT_RPC_PORT; OPT_SHC_PORT])), a as [a|]; try discriminate Hd.
  rewrite (bool_decide_eq_false_2 (a ≠ a)) in Hd by tauto. discriminate Hd.
Qed.
Lemma all_differ_keys l : Forall (λ n : list byte, zlen n < 2 ^ 32) l → all_differ (probe <$> l) = true → NoDup (KEYB <$> l).
Proof.
  induction 1 as [|n l Hn Hl IH]; intros Hd; [constructor|]. cbn [fmap list_fmap all_differ] in *.
  apply andb_true_iff in Hd as [Hd Hd']. constructor; [|by apply IH].
  intros (n' & E & Hn')%list_elem_of_fmap. rewrite forallb_forall in Hd. rewrite Forall_forall in Hl.
  apply (differ_key n n'); [done|by apply Hl| |done]. apply Hd, list_elem_of_In. by apply list_elem_of_fmap_2.
Qed.

Abbreviation full := (_option_table all_services).
Lemma full_keys : all_differ (probe <$> (opt_name <$> full)) = true.
Proof. vm_compute. reflexivity. Qed.
Lemma full_facts : forallb (λ o,
    (0 <? length (opt_name o))%nat && (length (opt_name o) <? 256)%nat &&
    match opt_type o, opt_strdef o with OPT_TYPE_STR, None => false | _, _ => true end &&
    bool_decide (x00 ∉ default [] (opt_strdef o)) && (length (default [] (opt_strdef o)) <? 256)%nat) full = true ∧
  bool_decide (NoDup ((λ o, tolower <$> opt_name o) <$> full)) = true.
Proof. by vm_compute. Qed.

Lemma full_ok : tab_ok full.
Proof.
  destruct full_facts as [Hf Hn]. rewrite forallb_forall in Hf.
  assert (∀ o, o ∈ full → (0 < length (opt_name o) < 256)%nat ∧ (opt_type o = OPT_TYPE_STR → is_Some (opt_strdef o)) ∧
    x00 ∉ default [] (opt_strdef o) ∧ (length (default [] (opt_strdef o)) < 256)%nat) as Hall.
  { intros o Ho. apply list_elem_of_In, Hf in Ho. rewrite !andb_true_iff, !Nat.ltb_lt, bool_decide_eq_true in Ho.
    destruct Ho as [[[[H1 H2] H3] H4] H5]. split; [exact (conj H1 H2)|]. split; [|exact (conj H4 H5)].
    intros Ht. rewrite Ht in H3. by destruct (opt_strdef o). }
  constructor; try (apply Forall_forall; intros o Ho; by apply Hall).
  - change (λ o, KEYB (opt_name o)) with (KEYB ∘ opt_name). rewrite list_fmap_compose. apply all_differ_keys; [|apply full_keys].
    apply Forall_fmap, Forall_forall. intros o Ho. cbn. destruct (Hall o Ho) as [? _]. lia.
  - by eapply bool_decide_eq_true.
Qed.

(** A build has part of the table. *)
Lemma when_sublist b l : sublist (when b l) l.
Proof. destruct b; [done|apply sublist_nil_l]. Qed.
Lemma table_sublist b : sublist (_option_table b) full.
Proof.
  unfold _option_table. repeat first [apply sublist_app|apply when_sublist|reflexivity].
Qed.
Lemma fmap_sublist {A B} (f : A → B) l k : sublist l k → sublist (f <$> l) (f <$> k).
Proof. induction 1; cbn [fmap list_fmap]; by constructor. Qed.
Lemma tab_ok_sublist l k : sublist l k → tab_ok k → tab_ok l.
Proof.
  intros Hs [H1 H2 H3 H4 H5].
  assert (∀ P, Forall P k → Forall P l) as Hsub.
  { intros P HP. rewrite Forall_forall in *. intros o Ho. apply HP. by eapply elem_of_sublist. }
  constructor; [eapply sublist_NoDup; [exact H1|by apply fmap_sublist]|eapply sublist_NoDup; [exact H2|by apply fmap_sublist]|by apply Hsub..].
Qed.
Lemma table_ok b : tab_ok (_option_table b).
Proof. eapply tab_ok_sublist; [apply table_sublist|apply full_ok]. Qed.

(** * The configuration file

    The text that [opt_config_default_print] writes, line by line, and what
    reading it does to each option. *)

(** ** Lines *)
Definition clean (l : list byte) : Prop := Forall (λ c, newline c = false ∧ c ≠ x00) l.
#[global] Instance clean_dec l : Decision (clean l).
Proof. unfold clean. apply _. Defined.
Definition unlines (ls : list (list byte)) : list byte := concat ((λ l, l ++ nl) <$> ls).

Lemma unlines_app a b : unlines (a ++ b) = unlines a ++ unlines b.
Proof. unfold unlines. by rewrite fmap_app, concat_app. Qed.
Lemma unlines_concat {A} (f : A → list (list byte)) l : unlines (concat (f <$> l)) = concat ((λ x, unlines (f x)) <$> l).
Proof. induction l as [|x l IH]; [done|]. cbn [fmap list_fmap concat]. by rewrite unlines_app, IH. Qed.

Lemma split_clean l tok rest : clean l → split_lines (l ++ x0a :: rest) tok =
  if decide (tok ++ l = []) then split_lines rest [] else (tok ++ l) :: split_lines rest [].
Proof.
  intros Hl. revert tok. induction Hl as [|c l [Hc _] Hl IH]; intros tok; cbn [app split_lines].
  - rewrite app_nil_r. cbn [newline]. by destruct (decide (tok = [])).
  - rewrite Hc, IH. rewrite <-(assoc_L (++)). done.
Qed.
Lemma split_unlines ls : Forall clean ls → split_lines (unlines ls) [] = filter (λ l : list byte, l ≠ []) ls.
Proof.
  induction 1 as [|l ls Hl Hls IH]; [done|]. unfold unlines. cbn [fmap list_fmap concat]. unfold nl at 1. rewrite <-(assoc_L (++)).
  cbn [app]. rewrite split_clean by done. rewrite app_nil_l. fold (unlines ls). rewrite IH, filter_cons.
  destruct (decide (l = [])) as [->|]; [by rewrite decide_False by tauto|by rewrite decide_True].
Qed.
Lemma unlines_nul ls : Forall clean ls → x00 ∉ unlines ls.
Proof.
  induction 1 as [|l ls Hl Hls IH]; [apply not_elem_of_nil|]. unfold unlines. cbn [fmap list_fmap concat]. fold (unlines ls).
  rewrite !not_elem_of_app. split; [|done]. split; [|by apply not_elem_of_cons; split; [|apply not_elem_of_nil]].
  intros Hin. unfold clean in Hl. rewrite Forall_forall in Hl. by destruct (Hl _ Hin).
Qed.
Lemma cstring_id l : x00 ∉ l → cstring l = l.
Proof.
  intros Hl. unfold cstring. apply take_ge. induction l as [|c l IH]; cbn [strlen]; [done|].
  rewrite not_elem_of_cons in Hl. rewrite decide_False by (intros ->; by destruct Hl). cbn [length]. apply le_n_S, IH, Hl.
Qed.
Lemma lines_unlines ls : Forall clean ls → strtok_lines (unlines ls) = filter (λ l : list byte, l ≠ []) ls.
Proof. intros Hls. unfold strtok_lines. rewrite cstring_id by (by apply unlines_nul). by apply split_unlines. Qed.

(** Empty lines and comments change nothing. *)
Definition comment (l : list byte) : Prop := match l with [] => True | c :: _ => c = chr 35 end.
Lemma comment_val o v l : comment l → line_val o v l = v.
Proof. destruct l as [|c l]; [done|]. cbn [comment]. intros ->. unfold line_val, parse_line. by rewrite decide_True. Qed.
Lemma comments_val o v ls : Forall comment ls → foldl (line_val o) v (filter (λ l : list byte, l ≠ []) ls) = v.
Proof.
  intros Hls. induction Hls as [|l ls Hl Hls IH] in v |- *; [done|]. rewrite filter_cons. destruct (decide (l ≠ [])); [|apply IH].
  cbn [foldl]. by rewrite comment_val.
Qed.

(** ** Entries *)
Definition head_lines (o : opt_t) : list (list byte) :=
  [[]; bytes "## Name: " ++ [x22] ++ opt_name o ++ [x22]; bytes "## " ++ opt_desc o].
(** The lines of the option [o] with value [v]. *)
Definition entry_lines (o : opt_t) (v : list byte) : list (list byte) :=
  head_lines o ++
  match opt_type o with
  | OPT_TYPE_BOOL =>
     if opt_def o =? 0 then [bytes "## Default: 0 (false)"; bytes "#" ++ opt_name o ++ bytes "=0"]
     else [bytes "## Default: 1 (true)"; bytes "#" ++ opt_name o ++ bytes "=1"]
  | OPT_TYPE_NUM => [bytes "## Default: " ++ dec (opt_def o); bytes "#" ++ opt_name o ++ bytes "=" ++ dec (opt_def o)]
  | OPT_TYPE_STR =>
     let d := default [] (opt_strdef o) in
     (if decide (d = []) then [] else [bytes "## Default: " ++ d]) ++
     [if decide (d = v) then bytes "#" ++ opt_name o ++ bytes "=" ++ d else opt_name o ++ bytes "=" ++ v]
  end.
Definition str_of (v : sval) : list byte := match v with SStr l => l | SNum _ => [] end.

(** Concatenations to the right. *)
Ltac app_norm := cbn [app fmap list_fmap concat]; repeat (rewrite ?app_nil_r, <-?(assoc_L (++)); cbn [app]).

Section conf.
Context {S : Type} `{OptStoreOk S}.
Variables (mem : list byte) (tab : list opt_t).
Hypothesis Hmem : (64 ≤ length mem)%nat.
Hypothesis Htab : tab_ok tab.

Lemma conf_entry_spec o s m : orep tab s m → o ∈ tab → (opt_type o = OPT_TYPE_STR → ∃ l, m (opt_name o) = SStr l) →
  swp (conf_entry mem o) s (λ t s', s' = s ∧ t = unlines (entry_lines o (str_of (m (opt_name o))))).
Proof.
  intros Hm Ho Ht. unfold conf_entry, entry_lines, conf_head, head_lines, unlines, nl.
  destruct (opt_type o) eqn:Et.
  - apply swp_ret. split; [done|]. destruct (opt_def o =? 0); app_norm; done.
  - apply swp_ret. split; [done|]. app_norm. done.
  - destruct Ht as [v Hv]; [done|]. pose proof (tk_str _ Htab) as Hs. rewrite Forall_forall in Hs. destruct (Hs o Ho Et) as [d Hd].
    apply swp_bind. eapply swp_mono; [by apply (str_get_spec mem tab Hmem Htab o s m v)|]. intros r s' [-> ->]. rewrite Hd, Hv. cbn [default str_of].
    destruct d as [|c d]; destruct (decide (_ = v)); apply swp_ret; (split; [done|]);
      destruct (decide (_ = [])) as [E|E]; try discriminate E; try (by destruct E); app_norm; done.
Qed.
Lemma conf_print_spec s m : orep tab s m → (∀ o, o ∈ tab → opt_type o = OPT_TYPE_STR → ∃ l, m (opt_name o) = SStr l) →
  swp (opt_config_default_print mem tab) s (λ t s', s' = s ∧
    t = unlines (concat ((λ o, entry_lines o (str_of (m (opt_name o)))) <$> tab))).
Proof.
  intros Hm Ht. unfold opt_config_default_print.
  assert (∀ l, (∀ o, o ∈ l → o ∈ tab) → swp (conf_entries mem l) s (λ t s', s' = s ∧
    t = unlines (concat ((λ o, entry_lines o (str_of (m (opt_name o)))) <$> l)))) as Hl; [|by apply Hl].
  induction l as [|o l IH]; intros Hin; cbn [conf_entries]; [by apply swp_ret|]. apply swp_bind.
  eapply swp_mono; [apply conf_entry_spec; [done|apply Hin; left|apply Ht, Hin; left]|]. intros t s' [-> ->]. apply swp_bind.
  eapply swp_mono; [apply IH; intros; apply Hin; by right|]. intros t s' [-> ->]. apply swp_ret. split; [done|].
  cbn [fmap list_fmap concat]. by rewrite unlines_app.
Qed.
End conf.

(** ** Reading it back *)

(** Names without an equals sign that do not start a comment. *)
Definition name_ok (n : list byte) : Prop := chr 61 ∉ n ∧ match n with [] => False | c :: _ => c ≠ chr 35 end.
#[global] Instance name_ok_dec n : Decision (name_ok n).
Proof. unfold name_ok. destruct n; apply _. Defined.
Record conf_ok (tab : list opt_t) : Prop := {
  ck_name : Forall (λ o, name_ok (opt_name o) ∧ clean (opt_name o)) tab;
  ck_desc : Forall (λ o, clean (opt_desc o)) tab;
  ck_def : Forall (λ o, clean (default [] (opt_strdef o)) ∧ clean (dec (opt_def o))) tab;
}.

Lemma strchr_app n v : chr 61 ∉ n → strchr (chr 61) (n ++ bytes "=" ++ v) = Some (n, v).
Proof.
  intros Hn. induction n as [|c n IH]; [done|]. rewrite not_elem_of_cons in Hn. cbn [app strchr].
  rewrite decide_False by (intros ->; by destruct Hn). rewrite IH by apply Hn. done.
Qed.
Lemma parse_assign n v : name_ok n → parse_line (n ++ bytes "=" ++ v) = Some (n, v).
Proof.
  intros [Hn Hc]. destruct n as [|c n]; [done|]. unfold parse_line. cbn [app]. rewrite decide_False by done.
  exact (strchr_app (c :: n) v Hn).
Qed.

(** What a file written for the values [m] says of an option. *)
Definition kept (o : opt_t) (m v : sval) : sval :=
  match opt_type o with
  | OPT_TYPE_STR => if decide (default [] (opt_strdef o) = str_of m) then v else SStr (str_of m)
  | _ => v
  end.

Section read.
Variables (tab : list opt_t) (m : opt_t → sval).
Hypothesis Htab : tab_ok tab.
Hypothesis Hconf : conf_ok tab.
Hypothesis Hm : ∀ o, o ∈ tab → clean (str_of (m o)).

Lemma clean_app a b : clean a → clean b → clean (a ++ b).
Proof. intros. by apply Forall_app. Qed.
Lemma entry_clean o : o ∈ tab → Forall clean (entry_lines o (str_of (m o))).
Proof.
  intros Ho. destruct Hconf as [H1 H2 H3]. rewrite Forall_forall in H1, H2, H3.
  destruct (H1 o Ho) as [_ Hn]. pose proof (H2 o Ho) as Hd. destruct (H3 o Ho) as [Hs Hz]. pose proof (Hm o Ho) as Hv.
  assert (clean (bytes "## Name: ") ∧ clean [x22] ∧ clean (bytes "## ") ∧ clean (bytes "## Default: 0 (false)") ∧
    clean (bytes "## Default: 1 (true)") ∧ clean (bytes "#") ∧ clean (bytes "=") ∧ clean (bytes "=0") ∧ clean (bytes "=1") ∧
    clean (bytes "## Default: ")) as (? & ? & ? & ? & ? & ? & ? & ? & ? & ?) by (apply (bool_decide_unpack _); by vm_compute).
  assert (clean []) by constructor.
  unfold entry_lines, head_lines. apply Forall_app. split; [rewrite !Forall_cons; auto 12 using clean_app|].
  destruct (opt_type o); [destruct (opt_def o =? 0)| |cbv zeta; destruct (decide (default [] (opt_strdef o) = [])), (decide (default [] (opt_strdef o) = str_of (m o)))];
    cbn [app]; rewrite ?Forall_cons; auto 12 using clean_app.
Qed.

(** Only the lines of the same option matter. *)
Lemma entry_val o o' v : o ∈ tab → o' ∈ tab →
  foldl (line_val o) v (filter (λ l : list byte, l ≠ []) (entry_lines o' (str_of (m o')))) =
  if decide (o' = o) then kept o (m o) v else v.
Proof.
  intros Ho Ho'. unfold entry_lines. rewrite filter_app, foldl_app, (comments_val o v (head_lines o')) by (by repeat constructor). unfold kept.
  destruct (opt_type o') eqn:Et.
  - destruct (opt_def o' =? 0); rewrite comments_val by (by repeat constructor); destruct (decide (o' = o)) as [->|]; by rewrite ?Et.
  - rewrite comments_val by (by repeat constructor). destruct (decide (o' = o)) as [->|]; by rewrite ?Et.
  - cbv zeta. rewrite filter_app, foldl_app, (comments_val o v (if decide (_ = []) then [] else _))
      by (destruct (decide (_ = [])); by repeat constructor).
    destruct (decide (default [] (opt_strdef o') = str_of (m o'))) as [E|E].
    + rewrite comments_val by (by repeat constructor). destruct (decide (o' = o)) as [->|]; [|done]. rewrite Et. by rewrite decide_True.
    + pose proof (ck_name _ Hconf) as Hn. rewrite Forall_forall in Hn. destruct (Hn o' Ho') as [Hno _].
      rewrite filter_cons_True by (destruct Hno as [_ Hno]; by destruct (opt_name o')).
      cbn [filter list_filter foldl]. unfold line_val. rewrite parse_assign by done.
      pose proof (find_option tab Htab (λ n, strcasecmp (opt_name o') n) (tolower <$> opt_name o') (strcasecmp_fst _)) as Hf.
      destruct (decide (o' = o)) as [->|Hne].
      * unfold strcasecmp. rewrite bool_decide_true by done. rewrite Et, decide_False by done. unfold val_of. by rewrite Et.
      * unfold strcasecmp. rewrite bool_decide_false; [done|]. intros E'. apply Hne.
        apply list_elem_of_lookup in Ho as [i Hi]. apply list_elem_of_lookup in Ho' as [j Hj].
        assert (j = i) as ->; [|congruence]. eapply (NoDup_lookup _ j i (tolower <$> opt_name o) (tk_names _ Htab)).
        -- by rewrite list_lookup_fmap, Hj; cbn; rewrite E'.
        -- by rewrite list_lookup_fmap, Hi.
Qed.

Lemma conf_text_val o v : o ∈ tab →
  file_val o v (Some (unlines (concat ((λ o, entry_lines o (str_of (m o))) <$> tab)))) = kept o (m o) v.
Proof.
  intros Ho. unfold file_val. rewrite lines_unlines.
  2:{ apply Forall_concat, Forall_fmap, Forall_forall. intros o' Ho'. by apply entry_clean. }
  assert (∀ l v, (∀ o', o' ∈ l → o' ∈ tab) → NoDup l →
    foldl (line_val o) v (filter (λ l : list byte, l ≠ []) (concat ((λ o, entry_lines o (str_of (m o))) <$> l))) =
    if decide (o ∈ l) then kept o (m o) v else v) as Hl.
  { intros l. induction l as [|o' l IH]; intros v' Hin Hnd; [done|]. cbn [fmap list_fmap concat]. rewrite filter_app, foldl_app.
    apply NoDup_cons in Hnd as [Hno Hnd]. rewrite entry_val by (done || (apply Hin; left)).
    rewrite IH by (done || (intros; apply Hin; by right)). destruct (decide (o' = o)) as [->|Hne].
    - rewrite decide_False by done. rewrite decide_True by left. done.
    - destruct (decide (o ∈ l)); [by rewrite decide_True by (by right)|]. rewrite decide_False; [done|]. rewrite elem_of_cons. naive_solver. }
  rewrite Hl; [by rewrite decide_True|done|]. apply (NoDup_fmap_1 opt_name). by apply names_nodup.
Qed.
End read.
