(* ===== verification/Clients.v ===== *)
(** * Client lists and their requests

    The stratum, API and RPC services keep their connections the same way: a
    singly linked list of client records behind a static head, filled by the
    accept callback, marked by the close callback and swept by the timer, which
    also takes one line per connection from the read queue of the descriptor
    table.  This file holds the loops the three services share; Services.v
    instantiates them with the records and tests of each service. *)

From S2P Require Import Prelude Errors Shbuf Descriptor Hmac Key Opt Links.

(** ** Records and state

    What the loops use of a client record. *)
Class Client (N : Type) := {
  c_fd : N → Z;
  c_next : N → Z;
  c_set_fd : Z → N → N;
  c_set_next : Z → N → N;
  c_size : Z;
}.
Class ClientOk (N : Type) `{Client N} : Prop := {
  c_fd_set n z : c_fd (c_set_fd z n) = z;
  c_fd_next n z : c_fd (c_set_next z n) = c_fd n;
  c_next_set n z : c_next (c_set_next z n) = z;
  c_next_fd n z : c_next (c_set_fd z n) = c_next n;
  c_next_next n z z' : c_set_next z (c_set_next z' n) = c_set_next z n;
  c_fd_comm n z z' : c_set_fd z (c_set_next z' n) = c_set_next z' (c_set_fd z n);
  c_next_id n : c_set_next (c_next n) n = n;
}.

(** The records, the next free address, the head of the list and the
    descriptor table. *)
Record cst (N : Type) := CSt {
  cs_users : gmap Z N;
  cs_brk : Z;
  cs_list : Z;
  cs_desc : dtab;
}.
Arguments CSt {_} _ _ _ _.
Arguments cs_users {_} _.
Arguments cs_brk {_} _.
Arguments cs_list {_} _.
Arguments cs_desc {_} _.

(** What a sweep does with a record. *)
Inductive verdict := VSkip | VFree | VKeep.
#[global] Instance verdict_eq_dec : EqDecision verdict.
Proof. solve_decision. Defined.

Section state.
Context {N : Type}.
Implicit Types s : cst N.
Definition set_users (u : gmap Z N) s : cst N := CSt u (cs_brk s) (cs_list s) (cs_desc s).
Definition set_brk (z : Z) s : cst N := CSt (cs_users s) z (cs_list s) (cs_desc s).
Definition set_list (p : Z) s : cst N := CSt (cs_users s) (cs_brk s) p (cs_desc s).
Definition set_desc (dt : dtab) s : cst N := CSt (cs_users s) (cs_brk s) (cs_list s) dt.
End state.

Section ops.
Context {N : Type} `{Client N} `{Heap}.
Abbreviation C := (SM (cst N)).

(** ** Memory *)
Definition node_load (p : Z) : C N := sopt (λ s, cs_users s !! p).
Definition node_store (p : Z) (n : N) : C unit :=
  _ ← node_load p; smod (λ s, set_users (<[p := n]> (cs_users s)) s).
(** [calloc]: 0 when the heap is full. *)
Definition node_alloc (n : N) : C Z :=
  if heap_ok c_size then
    p ← sgets cs_brk;
    _ ← smod (λ s, set_brk (p + 1) (set_users (<[p := n]> (cs_users s)) s));
    mret p
  else mret 0.
Definition node_free (p : Z) : C unit :=
  _ ← node_load p; smod (λ s, set_users (delete p (cs_users s)) s).

(** ** Lists

    The number of records bounds the length of a list. *)
Definition on_list {A} (f : nat → Z → C A) : C A := s ← sget; f (size (cs_users s)) (cs_list s).

(** [for (user = list; user; user = user->next) if (test) break;] *)
Fixpoint find_node (fuel : nat) (test : N → bool) (p : Z) : C Z :=
  if p =? 0 then mret 0
  else match fuel with
       | O => sfault
       | S fuel => n ← node_load p; if test n then mret p else find_node fuel test (c_next n)
       end.

(** A loop over the list that only reads. *)
Fixpoint fold_nodes {A} (fuel : nat) (f : A → N → A) (acc : A) (p : Z) : C A :=
  if p =? 0 then mret acc
  else match fuel with
       | O => sfault
       | S fuel => n ← node_load p; fold_nodes fuel f (f acc n) (c_next n)
       end.

(** A loop over the list whose body does not relink. *)
Fixpoint each_node (fuel : nat) (body : Z → C unit) (p : Z) : C unit :=
  if p =? 0 then mret tt
  else match fuel with
       | O => sfault
       | S fuel => _ ← body p; n ← node_load p; each_node fuel body (c_next n)
       end.

(** [user->next = list; list = user]. *)
Definition link_node (p : Z) : C unit :=
  n ← node_load p;
  s ← sget;
  _ ← node_store p (c_set_next (cs_list s) n);
  smod (set_list p).

(** The close callback: the record of the descriptor is marked with -1. *)
Definition close_node (fd : Z) : C unit :=
  if fd <? 0 then mret tt
  else
    p ← on_list (λ fuel, find_node fuel (λ n, c_fd n =? fd));
    if p =? 0 then mret tt else n ← node_load p; node_store p (c_set_fd (-1) n).

(** The sweep: a skipped record is passed over without becoming [peer_last]. *)
Fixpoint sweep_list (fuel : nat) (judge : N → verdict) (last p : Z) : C unit :=
  if p =? 0 then mret tt
  else match fuel with
       | O => sfault
       | S fuel =>
          n ← node_load p;
          let peer_next := c_next n in
          match judge n with
          | VSkip => sweep_list fuel judge last peer_next
          | VFree =>
             _ ← (if last =? 0 then smod (set_list peer_next)
                  else m ← node_load last; node_store last (c_set_next peer_next m));
             _ ← node_free p;
             sweep_list fuel judge last peer_next
          | VKeep => sweep_list fuel judge p peer_next
          end
       end.
Definition close_free (judge : N → verdict) : C unit := on_list (λ fuel, sweep_list fuel judge 0).

(** [*_user_free]: unlink and free one record. *)
Fixpoint free_node (fuel : nat) (f_user p_user p : Z) : C unit :=
  if p =? 0 then mret tt
  else match fuel with
       | O => sfault
       | S fuel =>
          n ← node_load p;
          if p =? f_user then
            s ← sget;
            _ ← (if p =? cs_list s then smod (set_list (c_next n))
                 else m ← node_load p_user; node_store p_user (c_set_next (c_next n) m));
            node_free f_user
          else free_node fuel f_user p (c_next n)
       end.

Section desc.
Context (max_fd : Z).

(** [*_close_all]: [kind] says what [fstat] knows of a descriptor. *)
Fixpoint close_list (fuel : nat) (kind : Z → fd_kind) (skip : N → bool) (p : Z) : C unit :=
  if p =? 0 then mret tt
  else match fuel with
       | O => sfault
       | S fuel =>
          n ← node_load p;
          if skip n || (c_fd n =? -1) then close_list fuel kind skip (c_next n)
          else
            '(dt, _) ← sopt (λ s, descriptor_release max_fd (kind (c_fd n)) (c_fd n) (cs_desc s));
            _ ← smod (set_desc dt);
            _ ← node_free p;
            close_list fuel kind skip (c_next n)
       end.
Definition close_all (kind : Z → fd_kind) (skip : N → bool) : C unit :=
  _ ← on_list (λ fuel, close_list fuel kind skip); smod (set_list 0).

(** ** Requests

    One line of a read queue: no line, a line that is dropped, or a line.  The
    second search of the code stops at a zero byte. *)
Definition next_line (max : Z) (b : shbuf_t) : option (list byte) * shbuf_t :=
  let len := shbuf_idx (Some b) x0a in
  if len =? u64 (-1) then (None, if max <? data_of b then shbuf_trim b (data_of b) else b)
  else if max <? len then (None, shbuf_trim b (u64 (len + 1)))
  else
    let l := default [] (data b) in
    let len := stridx (cstring l) x0a in
    if len =? -1 then (None, b) else (Some (take (Z.to_nat len) l), shbuf_trim b (len + 1)).

Definition put_rbuff (fd : Z) (d : desc_t) (b : shbuf_t) : C unit :=
  smod (λ s, set_desc (dt_put (cs_desc s) fd
    (Desc (d_mode d) (d_flag d) (d_total d) (d_cstamp d) (d_stamp d) (Some b) (d_wbuff d) (d_net_addr d))) s).

(** The body of the timer's loop: the line that was taken, if any. *)
Definition take_request (max : Z) (skip : N → bool) (p : Z) : C (option (list byte)) :=
  n ← node_load p;
  if (c_fd n =? -1) || skip n then mret None
  else
    let fd := c_fd n in
    t ← sopt (λ s, descriptor_get max_fd fd (cs_desc s));
    match t with
    | None => mret None
    | Some d =>
       match d_rbuff d with
       | None => mret None
       | Some b =>
          let '(line, b') := next_line max b in
          _ ← put_rbuff fd d b';
          mret line
       end
    end.

(** The loop itself, with the requests it handled: [handle] answers whether the
    loop goes on. *)
Fixpoint serve_list (fuel : nat) (max : Z) (skip : N → bool) (handle : Z → list byte → C bool) (p : Z)
  : C (list (Z * list byte) * bool) :=
  if p =? 0 then mret ([], true)
  else match fuel with
       | O => sfault
       | S fuel =>
          line ← take_request max skip p;
          go ← (match line with None => mret true | Some l => handle p l end);
          let here := match line with None => [] | Some l => [(p, l)] end in
          if go : bool then
            n ← node_load p;
            '(rest, go) ← serve_list fuel max skip handle (c_next n);
            mret (here ++ rest, go)
          else mret (here, false)
       end.
Definition serve (max : Z) (skip : N → bool) (handle : Z → list byte → C bool) : C (list (Z * list byte) * bool) :=
  on_list (λ fuel, serve_list fuel max skip handle).
End desc.
End ops.
