(* ===== verification/Services.v ===== *)
(** * The stratum, API and RPC services: connections

    [stratum.c], [stratum_user.c] and the integer part of [stratum_task.c],
    [shapi/shapi.c] and [shapi_user.c], and the connections of
    [shcoind_rpc.c], on the loops of Clients.v.  Arithmetic on C doubles (shares
    and balances) is the class [Double]; parsed messages, their handlers, the
    clock and the addresses of sockets are arguments. *)

From S2P Require Import Prelude Errors Shbuf Descriptor Hmac Key Opt Links Clients.

Definition MAX_MESSAGE_SIZE : Z := 16000000.
Definition MAX_COIN_IFACE : nat := 7.
Definition MAX_ROUNDS_PER_HOUR : nat := 6.
Definition MAX_SPEED_STEP : nat := 60.
Definition MAX_STRATUM_USERS : Z := 32.
Definition USER_SYSTEM : Z := 1.
Definition USER_AUTH : Z := 2.
Definition USER_SUBSCRIBE : Z := 4.
Definition USER_SYNC : Z := 8.
Definition USER_CLIENT : Z := 16.
Definition USER_REMOTE : Z := 32.
Definition USER_RPC : Z := 64.
Definition USER_ELEVATE : Z := 128.

(** The operations on doubles that the code performs. *)
Class Double := {
  F : Type;
  f0 : F;
  fadd : F → F → F;
  fmul : F → F → F;
  fdiv : F → F → F;
  f_of : Z → F;
  fsub : F → F → F;
  fltb : F → F → bool;
  feqb : F → F → bool;
  f_inf : F;
  (** [(int)x] *)
  fint : F → Z;
}.

(** ** Records: the fields that the modelled functions use.

    The fields of [user_t] that only the protocol and the rewards use are a record of their own. *)
Record session_t `{Double} := Session {
  ss_cur_id : list byte;
  ss_cli_id : list byte;
  ss_cli_ver : list byte;
  ss_work_diff : Z;
  ss_block_hash : list byte;
  ss_block_height : Z;
  ss_block_tm : F;
  ss_block_freq : F;
  ss_speed : list F;
  ss_reward_time : Z;
  ss_reward_height : Z;
  ss_balance_avg : list F;
}.
Arguments Session {_} _ _ _ _ _ _ _ _ _ _ _ _.
Record user_t `{Double} := User {
  u_worker : list byte;
  u_fd : Z;
  u_flags : Z;
  u_height : Z;
  u_block_tot : F;
  u_block_cnt : Z;
  u_block_avg : list F;
  u_block_acc : Z;
  u_balance : list F;
  u_round_stamp : Z;
  u_work_stamp : Z;
  u_ifaceIndex : Z;
  u_netid : shkey_t;
  u_alg : Z;
  u_next : Z;
  u_sess : session_t;
}.
Arguments User {_} _ _ _ _ _ _ _ _ _ _ _ _ _ _ _ _.
Record shapi_t := Shapi { a_fd : Z; a_next : Z; a_cur_id : list byte }.

Section user.
Context `{Double}.
(** [calloc]. *)
Definition session_zero : session_t := Session [] [] [] 0 [] 0 f0 f0 (replicate MAX_SPEED_STEP f0) 0 0 (replicate MAX_COIN_IFACE f0).
Definition user_zero : user_t :=
  User [] 0 0 0 f0 0 (replicate MAX_ROUNDS_PER_HOUR f0) 0 (replicate MAX_COIN_IFACE f0) 0 0 0 _shkey_blank 0 0 session_zero.
Definition u_set_fd (z : Z) (u : user_t) : user_t :=
  User (u_worker u) z (u_flags u) (u_height u) (u_block_tot u) (u_block_cnt u) (u_block_avg u) (u_block_acc u) (u_balance u)
    (u_round_stamp u) (u_work_stamp u) (u_ifaceIndex u) (u_netid u) (u_alg u) (u_next u) (u_sess u).
Definition u_set_next (z : Z) (u : user_t) : user_t :=
  User (u_worker u) (u_fd u) (u_flags u) (u_height u) (u_block_tot u) (u_block_cnt u) (u_block_avg u) (u_block_acc u) (u_balance u)
    (u_round_stamp u) (u_work_stamp u) (u_ifaceIndex u) (u_netid u) (u_alg u) z (u_sess u).
Definition u_set_flags (z : Z) (u : user_t) : user_t :=
  User (u_worker u) (u_fd u) z (u_height u) (u_block_tot u) (u_block_cnt u) (u_block_avg u) (u_block_acc u) (u_balance u)
    (u_round_stamp u) (u_work_stamp u) (u_ifaceIndex u) (u_netid u) (u_alg u) (u_next u) (u_sess u).
Definition u_set_alg (z : Z) (u : user_t) : user_t :=
  User (u_worker u) (u_fd u) (u_flags u) (u_height u) (u_block_tot u) (u_block_cnt u) (u_block_avg u) (u_block_acc u) (u_balance u)
    (u_round_stamp u) (u_work_stamp u) (u_ifaceIndex u) (u_netid u) z (u_next u) (u_sess u).
Definition u_set_worker (w : list byte) (u : user_t) : user_t :=
  User w (u_fd u) (u_flags u) (u_height u) (u_block_tot u) (u_block_cnt u) (u_block_avg u) (u_block_acc u) (u_balance u)
    (u_round_stamp u) (u_work_stamp u) (u_ifaceIndex u) (u_netid u) (u_alg u) (u_next u) (u_sess u).
Definition u_set_netid (k : shkey_t) (u : user_t) : user_t :=
  User (u_worker u) (u_fd u) (u_flags u) (u_height u) (u_block_tot u) (u_block_cnt u) (u_block_avg u) (u_block_acc u) (u_balance u)
    (u_round_stamp u) (u_work_stamp u) (u_ifaceIndex u) k (u_alg u) (u_next u) (u_sess u).
Definition u_set_round (now : Z) (u : user_t) : user_t :=
  User (u_worker u) (u_fd u) (u_flags u) (u_height u) (u_block_tot u) (u_block_cnt u) (u_block_avg u) (u_block_acc u) (u_balance u)
    now (u_work_stamp u) (u_ifaceIndex u) (u_netid u) (u_alg u) (u_next u) (u_sess u).
Definition u_set_work (height now iface : Z) (u : user_t) : user_t :=
  User (u_worker u) (u_fd u) (u_flags u) height (u_block_tot u) (u_block_cnt u) (u_block_avg u) (u_block_acc u) (u_balance u)
    (u_round_stamp u) now iface (u_netid u) (u_alg u) (u_next u) (u_sess u).

Definition u_set_sess (x : session_t) (u : user_t) : user_t :=
  User (u_worker u) (u_fd u) (u_flags u) (u_height u) (u_block_tot u) (u_block_cnt u) (u_block_avg u) (u_block_acc u) (u_balance u)
    (u_round_stamp u) (u_work_stamp u) (u_ifaceIndex u) (u_netid u) (u_alg u) (u_next u) x.
Definition u_set_freq (f : F) (u : user_t) : user_t :=
  let x := u_sess u in
  u_set_sess (Session (ss_cur_id x) (ss_cli_id x) (ss_cli_ver x) (ss_work_diff x) (ss_block_hash x) (ss_block_height x) (ss_block_tm x) f (ss_speed x) (ss_reward_time x) (ss_reward_height x) (ss_balance_avg x)) u.

#[global] Instance user_client : Client user_t :=
  {| c_fd := u_fd; c_next := u_next; c_set_fd := u_set_fd; c_set_next := u_set_next; c_size := 2640 |}.
#[global] Instance user_client_ok : ClientOk user_t.
Proof. split; try done. by intros []. Qed.
End user.
#[global] Instance shapi_client : Client shapi_t :=
  {| c_fd := a_fd; c_next := a_next; c_set_fd z a := Shapi z (a_next a) (a_cur_id a); c_set_next z a := Shapi (a_fd a) z (a_cur_id a); c_size := 272 |}.
#[global] Instance shapi_client_ok : ClientOk shapi_t.
Proof. split; try done. by intros []. Qed.

Definition user_flag_label : list (list byte) :=
  [bytes "system"; bytes "auth"; bytes "subscribe"; bytes "sync"; bytes "client"; bytes "remote"; bytes "rpc"; bytes "elevate"; bytes "extranonce"].
Fixpoint flag_label (i : Z) (flag : Z) (l : list (list byte)) : list byte :=
  match l with [] => [] | x :: l => if Z.testbit flag i then x else flag_label (i + 1) flag l end.
Definition get_user_flag_label (flag : Z) : list byte := flag_label 0 flag user_flag_label.

(** The address bytes of a [struct sockaddr_in]. *)
Definition sin_addr (a : sockaddr) : list byte := take 4 (drop 4 a).

Section stratum.
Context `{Double} `{Heap} (max_fd : Z).
(** [shaddr] of the open sockets, and the memory the digests start from. *)
Context (shaddr : Z → option sockaddr) (mem : list byte).
Abbreviation C := (SM (cst user_t)).

(** ** [stratum_user.c] *)
Definition stratum_user_find (username : list byte) : C Z :=
  on_list (λ fuel, find_node fuel (λ u, strcasecmp username (u_worker u))).
Definition stratum_user_get (fd : Z) : C Z :=
  if fd <? 0 then mret 0 else on_list (λ fuel, find_node fuel (λ u, u_fd u =? fd)).

(** [shaddr] of the user itself is only read when there is a comparison. *)
Fixpoint count_list (fuel : nat) (addr : option sockaddr) (p cnt : Z) : C Z :=
  if p =? 0 then mret cnt
  else match fuel with
       | O => sfault
       | S fuel =>
          u ← node_load p;
          if (u_fd u =? -1) || negb (has_flag (u_flags u) USER_CLIENT) then count_list fuel addr (u_next u) cnt
          else match shaddr (u_fd u), addr with
               | None, _ => count_list fuel addr (u_next u) cnt
               | Some _, None => sfault
               | Some t, Some a => count_list fuel addr (u_next u) (if bool_decide (sin_addr a = sin_addr t) then cnt + 1 else cnt)
               end
       end.
Definition stratum_user_count (p : Z) : C Z :=
  u ← node_load p; on_list (λ fuel q, count_list fuel (shaddr (u_fd u)) q 0).

(** The shares and rewards of [t], which is left with none. *)
Definition transfer (u t : user_t) : user_t :=
  User (u_worker u) (u_fd u) (u_flags u) (u_height u) (fadd (u_block_tot u) (u_block_tot t)) (u64 (u_block_cnt u + u_block_cnt t))
    (zip_with fadd (u_block_avg u) (u_block_avg t)) (u_block_acc u)
    (match u_balance u, u_balance t with b :: bs, _ :: ts => b :: zip_with fadd bs ts | bs, _ => bs end)
    (u_round_stamp u) (u_work_stamp u) (u_ifaceIndex u) (u_netid u) (u_alg u) (u_next u) (u_sess u).
Definition emptied (t : user_t) : user_t :=
  User (u_worker t) (u_fd t) (u_flags t) (u_height t) f0 0 (replicate MAX_ROUNDS_PER_HOUR f0) (u_block_acc t)
    (match u_balance t with b :: ts => b :: replicate (length ts) f0 | [] => [] end)
    (u_round_stamp t) 0 (u_ifaceIndex t) (u_netid t) (u_alg t) (u_next t) (u_sess t).
Definition merge_one (p t : Z) : C unit :=
  n ← node_load t;
  if (t =? p) || negb (has_flag (u_flags n) USER_CLIENT) || negb (u_fd n =? -1) then mret tt
  else
    u ← node_load p;
    if bool_decide (u_worker u = u_worker n) then
      _ ← node_store p (transfer u n);
      node_store t (emptied n)
    else mret tt.
Definition merge_idle_worker (p : Z) : C unit := on_list (λ fuel, each_node fuel (merge_one p)).

(** The new name of the user, or 0 when it is refused. *)
Definition stratum_user (p : Z) (username : list byte) : C Z :=
  if bool_decide (chr 64 ∈ username) then mret 0
  else
    cli_cnt ← stratum_user_count p;
    if MAX_STRATUM_USERS <=? cli_cnt then mret 0
    else
      u ← node_load p;
      _ ← node_store p (u_set_worker (take 127 username) u);
      _ ← merge_idle_worker p;
      mret p.

Definition stratum_user_init (now fd : Z) : C Z :=
  p ← node_alloc user_zero;
  u ← node_load p;
  _ ← node_store p (u_set_freq (f_of 2) (u_set_round now (u_set_fd fd u)));
  _ ← (if 0 <? fd then
         u ← node_load p;
         key ← sopt (λ _, shkey_bin mem (shaddr fd));
         node_store p (u_set_netid key (u_set_flags (Z.lor (u_flags u) USER_CLIENT) u))
       else mret tt);
  mret p.

(** [send] is [stratum_send_task]: whether the notice was queued. *)
Definition broadcast_one (send : Z → bool → C Z) (now height alg iface : Z) (p : Z) : C unit :=
  u ← node_load p;
  if (u_fd u =? -1) || negb (has_flag (u_flags u) USER_SUBSCRIBE) || negb (u_alg u =? alg) then mret tt
  else
    err ← send p (negb (u_height u =? height));
    if err =? 0 then u ← node_load p; node_store p (u_set_work height now iface u) else mret tt.
Definition stratum_user_broadcast_task (send : Z → bool → C Z) (now height alg iface : Z) : C unit :=
  on_list (λ fuel, each_node fuel (broadcast_one send now height alg iface)).

Definition stratum_user_free (f_user : Z) : C unit := on_list (λ fuel, free_node fuel f_user 0).

(** ** [stratum_task.c] *)
Definition round_one (stamp : Z) (p : Z) : C unit :=
  u ← node_load p;
  if has_flag (u_flags u) USER_RPC || has_flag (u_flags u) USER_SYNC || bool_decide (u_worker u = []) then mret tt
  else
    let hour := Z.to_nat ((stamp / 3600) mod Z.of_nat MAX_ROUNDS_PER_HOUR) in
    let avg := alter (λ a, fdiv (fadd a (fmul (u_block_tot u) (f_of 2))) (f_of 3)) hour (u_block_avg u) in
    node_store p (User (u_worker u) (u_fd u) (u_flags u) (u_height u) f0 0 avg 0 (u_balance u) stamp (u_work_stamp u)
      (u_ifaceIndex u) (u_netid u) (u_alg u) (u_next u) (u_sess u)).
Definition stratum_round_reset (stamp : Z) : C unit := on_list (λ fuel, each_node fuel (round_one stamp)).
(** The record of the built-in miner, made on first use ([stratum_task_work]). *)
Definition system_user (now : Z) : C Z :=
  p ← stratum_user_init now (-1);
  u ← node_load p;
  _ ← node_store p (u_set_flags (Z.lor (u_flags u) USER_SYSTEM) (u_set_worker (bytes "system.anonymous") u));
  _ ← link_node p;
  mret p.

(** ** [stratum.c] *)
Definition stratum_register_client (now fd : Z) : C Z :=
  p ← stratum_user_init now fd; _ ← link_node p; mret p.
(** The callback of a stratum port; the ports of the algorithms store theirs. *)
Definition stratum_accept (now fd : Z) (net_addr : option sockaddr) : C unit :=
  match net_addr with
  | None => mret tt
  | Some _ => if fd <? 1 then mret tt else _ ← stratum_register_client now fd; mret tt
  end.
Definition stratum_alg_accept (alg : Z) (now fd : Z) (net_addr : option sockaddr) : C unit :=
  match net_addr with
  | None => mret tt
  | Some _ =>
     if fd <? 1 then mret tt
     else p ← stratum_register_client now fd; u ← node_load p; node_store p (u_set_alg alg u)
  end.
Definition stratum_close (fd : Z) : C unit := close_node fd.

Definition stratum_judge (now : Z) (u : user_t) : verdict :=
  if negb (has_flag (u_flags u) USER_CLIENT) && negb (has_flag (u_flags u) USER_REMOTE) then VSkip
  else if has_flag (u_flags u) USER_SYNC then VSkip
  else if u_fd u =? -1 then if now <=? u_work_stamp u + 3000 then VSkip else VFree
  else VKeep.
Definition stratum_close_free (now : Z) : C unit := close_free (stratum_judge now).

Section requests.
(** [shjson_init], [stratum_request_message] and [stratum_http_request]. *)
Context {J : Type} (json : list byte → option J) (request : Z → J → C Z) (http : Z → list byte → C Z).

Definition stratum_register_client_task (p : Z) (text : list byte) : C Z :=
  match text with
  | [] => mret 0
  | _ => match json text with None => mret ERR_INVAL | Some tree => request p tree end
  end.
(** [strtok(html_text, " ")] cuts the text behind the first word. *)
Fixpoint first_word (l : list byte) : list byte :=
  match l with [] => [] | c :: l => if decide (c = chr 32) then [] else c :: first_word l end.
Fixpoint skip_spaces (l : list byte) : list byte :=
  match l with [] => [] | c :: r => if decide (c = chr 32) then skip_spaces r else l end.
Definition html_text (l : list byte) : list byte :=
  match skip_spaces l with
  | [] => l
  | w => take (length l - length w) l ++ first_word w
  end.
Definition stratum_register_html_task (p : Z) (text : list byte) : C Z :=
  u ← node_load p; http (u_fd u) (html_text text).

Definition stratum_handle (p : Z) (line : list byte) : C bool :=
  _ ← (if bool_decide (take 4 line = bytes "GET ") then stratum_register_html_task p (drop 4 line)
       else match line with
            | c :: _ =>
               if bool_decide (c = chr 123) then
                 u ← node_load p;
                 if has_flag (u_flags u) USER_SYNC then mret 0 else stratum_register_client_task p line
               else mret 0
            | [] => mret 0
            end);
  mret true.
(** The timer up to the generation of work. *)
Definition stratum_timer (now : Z) : C (list (Z * list byte)) :=
  '(l, _) ← serve max_fd MAX_MESSAGE_SIZE (λ u, has_flag (u_flags u) USER_RPC) stratum_handle;
  _ ← stratum_close_free now;
  mret l.
End requests.

(** What [stratum_request_message] does when a user is granted RPC access. *)
Definition grant_rpc (p : Z) : C unit :=
  u ← node_load p;
  _ ← node_store p (u_set_flags (Z.lor (u_flags u) USER_RPC) u);
  u ← node_load p;
  node_store p (u_set_flags (Z.lor (u_flags u) USER_ELEVATE) u).

Definition stratum_close_all (kind : Z → fd_kind) : C unit :=
  close_all max_fd kind (λ u, negb (has_flag (u_flags u) USER_CLIENT) && negb (has_flag (u_flags u) USER_REMOTE)).

(** ** [shcoind_rpc.c] *)
Definition rpc_user_init (fd : Z) : C Z :=
  p ← node_alloc user_zero;
  u ← node_load p;
  _ ← node_store p (u_set_fd fd u);
  _ ← (if 0 <? fd then
         u ← node_load p;
         key ← sopt (λ _, shkey_bin mem (shaddr fd));
         node_store p (u_set_netid key (u_set_flags (Z.lor (u_flags u) USER_CLIENT) u))
       else mret tt);
  mret p.
Definition rpc_register_client (fd : Z) : C Z := p ← rpc_user_init fd; _ ← link_node p; mret p.
Definition rpc_accept (fd : Z) (net_addr : option sockaddr) : C unit :=
  match net_addr with
  | None => mret tt
  | Some _ =>
     if fd <? 1 then mret tt
     else p ← rpc_register_client fd; u ← node_load p; node_store p (u_set_flags (Z.lor (u_flags u) USER_RPC) u)
  end.
Definition rpc_close (fd : Z) : C unit := close_node fd.
Definition rpc_close_free : C unit :=
  close_free (λ u, if negb (has_flag (u_flags u) USER_RPC) then VSkip else if u_fd u =? -1 then VFree else VKeep).

Section rpc.
(** [shjson_init], the interface a message names, [GetCoinByIndex] and
    [rpc_register_client_task]. *)
Context {J : Type} (json : list byte → option J) (iface_of : J → list byte) (coins : nat → option (list byte)).
Context (task : Z → Z → J → C Z).

Fixpoint iface_loop (n : nat) (idx : nat) (iface_str : list byte) : Z :=
  match n with
  | O => -1
  | S n => match coins idx with
           | Some name => if strcasecmp name iface_str then Z.of_nat idx else iface_loop n (S idx) iface_str
           | None => iface_loop n (S idx) iface_str
           end
  end.
Definition rpc_get_iface (iface_str : list byte) : Z :=
  match iface_str with [] => 0 | _ => iface_loop (MAX_COIN_IFACE - 1) 1 iface_str end.
Definition rpc_handle (p : Z) (line : list byte) : C bool :=
  match line with
  | c :: _ =>
     if bool_decide (c = chr 123) then
       match json line with
       | None => mret false
       | Some tree =>
          u ← node_load p;
          let i := rpc_get_iface (take 255 (iface_of tree)) in
          let i := if i <? 1 then u_ifaceIndex u else i in
          let i := if i <? 1 then 1 else i in
          _ ← task i p tree;
          mret true
       end
     else mret true
  | [] => mret true
  end.
Definition rpc_timer : C (list (Z * list byte)) :=
  '(l, go) ← serve max_fd MAX_MESSAGE_SIZE (λ u, negb (has_flag (u_flags u) USER_RPC)) rpc_handle;
  _ ← (if go : bool then rpc_close_free else mret tt);
  mret l.
End rpc.
End stratum.

(** ** [shapi/] *)
Section shapi.
Context `{Heap} (max_fd : Z) (shaddr : Z → option sockaddr).
Abbreviation C := (SM (cst shapi_t)).

Definition shapi_user_get (fd : Z) : C Z :=
  if fd <? 0 then mret 0 else on_list (λ fuel, find_node fuel (λ u, a_fd u =? fd)).
Fixpoint shapi_count (fuel : nat) (addr : option sockaddr) (p cnt : Z) : C Z :=
  if p =? 0 then mret cnt
  else match fuel with
       | O => sfault
       | S fuel =>
          u ← node_load p;
          if a_fd u =? -1 then shapi_count fuel addr (a_next u) cnt
          else match shaddr (a_fd u), addr with
               | None, _ => shapi_count fuel addr (a_next u) cnt
               | Some _, None => sfault
               | Some t, Some a => shapi_count fuel addr (a_next u) (if bool_decide (sin_addr a = sin_addr t) then cnt + 1 else cnt)
               end
       end.
Definition shapi_user_count (p : Z) : C Z :=
  u ← node_load p; on_list (λ fuel q, shapi_count fuel (shaddr (a_fd u)) q 0).
Definition shapi_user_init (fd : Z) : C Z := node_alloc (Shapi fd 0 []).
Definition shapi_user_free (f_user : Z) : C unit := on_list (λ fuel, free_node fuel f_user 0).
Definition shapi_register_client (fd : Z) : C Z := p ← shapi_user_init fd; _ ← link_node p; mret p.
Definition shapi_accept (fd : Z) (net_addr : option sockaddr) : C unit :=
  match net_addr with
  | None => mret tt
  | Some _ => if fd <? 1 then mret tt else _ ← shapi_register_client fd; mret tt
  end.
Definition shapi_close (fd : Z) : C unit := close_node fd.
Definition shapi_close_free : C unit := close_free (λ u, if a_fd u =? -1 then VFree else VKeep).

Section requests.
Context {J : Type} (json : list byte → option J) (request : Z → J → C Z).
Definition shapi_register_client_task (p : Z) (text : list byte) : C Z :=
  match text with
  | [] => mret 0
  | _ => match json text with None => mret ERR_INVAL | Some tree => request p tree end
  end.
Definition shapi_handle (p : Z) (line : list byte) : C bool :=
  _ ← (match line with
       | c :: _ => if bool_decide (c = chr 123) then shapi_register_client_task p line else mret 0
       | [] => mret 0
       end);
  mret true.
Definition shapi_timer : C (list (Z * list byte)) :=
  '(l, _) ← serve max_fd MAX_MESSAGE_SIZE (λ _, false) shapi_handle;
  _ ← shapi_close_free;
  mret l.
End requests.
Definition shapi_close_all (kind : Z → fd_kind) : C unit := close_all max_fd kind (λ _, false).
End shapi.
