(* ===== verification/ClientsSpec.v ===== *)
(** * Client lists: specifications

    A state represents a list of clients, each an address and its record; the
    loops of Clients.v are specified as functions on that list. *)

From S2P Require Import Prelude Errors Shbuf Descriptor Hmac Key Opt Links Clients.

Section spec.
Context {N : Type} `{ClientOk N} `{Heap}.
Implicit Types (s : cst N) (cl : list (Z * N)).

(** Records without their links. *)
Definition body (n : N) : N := c_set_next 0 n.
Definition bodies s : gmap Z N := body <$> cs_users s.
Record rep s cl : Prop := {
  rep_chain : chain c_next (cs_users s) (cs_list s) cl.*1;
  rep_body : ∀ p n, (p, n) ∈ cl → bodies s !! p = Some n;
  rep_brk : 0 < cs_brk s ∧ ∀ p, is_Some (cs_users s !! p) → 0 < p < cs_brk s;
}.

Lemma body_next n z : body (c_set_next z n) = body n.
Proof. apply c_next_next. Qed.
Lemma body_fd n : c_fd (body n) = c_fd n.
Proof. apply c_fd_next. Qed.
Lemma bodies_lookup s p n : cs_users s !! p = Some n → bodies s !! p = Some (body n).
Proof. intros Hp. unfold bodies. by rewrite lookup_fmap, Hp. Qed.
Lemma bodies_Some s p b : bodies s !! p = Some b → ∃ n, cs_users s !! p = Some n ∧ b = body n.
Proof. unfold bodies. rewrite lookup_fmap. destruct (cs_users s !! p) as [n|]; [|done]. intros [= <-]. eauto. Qed.
Lemma body_body n : body (body n) = body n.
Proof. apply c_next_next. Qed.

Lemma rep_elem s cl p : rep s cl → p ∈ cl.*1 → ∃ n, cs_users s !! p = Some n ∧ (p, body n) ∈ cl ∧ p ≠ 0.
Proof.
  intros Hr ([p' b] & -> & Hin)%list_elem_of_fmap. cbn [fst]. destruct (lseg_lookup _ _ _ _ _ _ (rep_chain _ _ Hr) (list_elem_of_fmap_2 fst _ _ Hin)) as [Hp _].
  pose proof (rep_body _ _ Hr _ _ Hin) as Hb. apply bodies_Some in Hb as (n & Hn & ->). eauto.
Qed.
Lemma rep_nodup s cl : rep s cl → NoDup cl.*1.
Proof. intros Hr. eapply chain_NoDup, rep_chain, Hr. Qed.
Lemma rep_uniq s cl p n n' : rep s cl → (p, n) ∈ cl → (p, n') ∈ cl → n = n'.
Proof. intros Hr Hn Hn'. pose proof (rep_body _ _ Hr _ _ Hn). pose proof (rep_body _ _ Hr _ _ Hn'). congruence. Qed.

(** The pointer to a list. *)
Definition first cl : Z := match cl with [] => 0 | (p, _) :: _ => p end.
Lemma rep_first s cl : rep s cl → cs_list s = first cl.
Proof. intros Hr. pose proof (rep_chain _ _ Hr) as Hc. destruct cl as [|[p b] cl]; [done|]. by destruct Hc as (-> & _). Qed.
(** The record at a place of the list, and where it links to. *)
Lemma rep_at s l1 p b l2 : rep s (l1 ++ (p, b) :: l2) →
  ∃ n, cs_users s !! p = Some n ∧ b = body n ∧ p ≠ 0 ∧ c_next n = first l2.
Proof.
  intros Hr. pose proof (rep_chain _ _ Hr) as Hc. rewrite fmap_app in Hc. cbn [fmap list_fmap fst] in Hc.
  destruct (lseg_lookup _ _ _ _ _ p Hc) as [Hp _]; [set_solver|]. apply lseg_mid in Hc as (n & Hn & _ & Hc).
  exists n. split; [done|]. split; [|split; [done|]].
  - pose proof (rep_body _ _ Hr p b ltac:(set_solver)) as Hb. rewrite (bodies_lookup _ _ _ Hn) in Hb. congruence.
  - destruct l2 as [|[q c] l2]; [by rewrite Hc|]. by destruct Hc as (-> & _).
Qed.

(** ** Elementary commands *)
Lemma swp_load s p n (Q : N → cst N → Prop) : cs_users s !! p = Some n → Q n s → swp (node_load p) s Q.
Proof. intros Hn HQ. by eapply swp_opt. Qed.
Lemma swp_store s p n m (Q : unit → cst N → Prop) : cs_users s !! p = Some n →
  Q tt (set_users (<[p := m]> (cs_users s)) s) → swp (node_store p m) s Q.
Proof. intros Hn HQ. unfold node_store. apply swp_bind. eapply swp_load; [done|]. by apply swp_mod. Qed.
Lemma swp_free s p n (Q : unit → cst N → Prop) : cs_users s !! p = Some n →
  Q tt (set_users (delete p (cs_users s)) s) → swp (node_free p) s Q.
Proof. intros Hn HQ. unfold node_free. apply swp_bind. eapply swp_load; [done|]. by apply swp_mod. Qed.
Lemma swp_on_list {A} (f : nat → Z → SM (cst N) A) s cl Q : rep s cl →
  (∀ fuel, (length cl ≤ fuel)%nat → swp (f fuel (cs_list s)) s Q) → swp (on_list f) s Q.
Proof.
  intros Hr HQ. unfold on_list. apply swp_bind, swp_get. apply HQ. etrans; [|eapply chain_size, rep_chain, Hr]. by rewrite length_fmap.
Qed.

(** Storing a record in place. *)
Definition put_body (p : Z) (n : N) (x : Z * N) : Z * N := if decide (x.1 = p) then (p, n) else x.
Lemma put_fst p n cl : (put_body p n <$> cl).*1 = cl.*1.
Proof.
  rewrite <-list_fmap_compose. apply list_fmap_ext. intros i [q m] _. unfold compose, put_body. cbn [fst].
  destruct (decide (q = p)) as [->|]; done.
Qed.
Lemma rep_store s cl p n m : rep s cl → cs_users s !! p = Some n → c_next m = c_next n →
  rep (set_users (<[p := m]> (cs_users s)) s) (put_body p (body m) <$> cl).
Proof.
  intros [Hc Hb [Hk Hk']] Hn Hm. split.
  - rewrite put_fst. cbn. eapply lseg_links; [|exact Hc]. intros a. destruct (decide (a = p)) as [->|].
    + rewrite lookup_insert_eq, Hn. cbn. by rewrite Hm.
    + by rewrite lookup_insert_ne.
  - intros q b ([q' b'] & E & Hin)%list_elem_of_fmap. unfold put_body in E. cbn [fst] in E. unfold bodies. cbn. rewrite fmap_insert.
    destruct (decide (q' = p)); simplify_eq; [by rewrite lookup_insert_eq|]. rewrite lookup_insert_ne by done. by apply Hb.
  - split; [done|]. cbn. intros a. rewrite lookup_insert_is_Some. intros [<-|[_ Ha]]; [|auto]. apply Hk'. by rewrite Hn.
Qed.

(** ** Searches *)
Definition find_client (test : N → bool) (cl : list (Z * N)) : Z :=
  match List.find (λ x, test x.2) cl with Some (p, _) => p | None => 0 end.
Lemma find_node_spec fuel test s cl done rest : rep s cl → (∀ n z, test (c_set_next z n) = test n) → cl = done ++ rest → (length rest ≤ fuel)%nat →
  swp (find_node fuel test (first rest)) s (λ r s', s' = s ∧ r = find_client test rest).
Proof.
  intros Hr Ht. revert done rest. induction fuel as [|fuel IH]; intros dn [|[p b] rest] E Hl; try (by simpl in Hl; lia).
  1,2: cbn; by apply swp_ret.
  cbn [first]. subst cl. destruct (rep_at _ _ _ _ _ Hr) as (n & Hn & -> & Hp0 & Hnx). cbn [find_node].
  rewrite (proj2 (Z.eqb_neq p 0) Hp0). apply swp_bind. eapply swp_load; [done|]. unfold find_client. cbn [List.find snd].
  unfold body at 1. rewrite Ht. destruct (test n); [by apply swp_ret|]. rewrite Hnx.
  apply (IH (dn ++ [(p, body n)])); [by rewrite <-(assoc_L (++))|cbn in Hl; lia].
Qed.
Lemma client_find_spec test s cl : rep s cl → (∀ n z, test (c_set_next z n) = test n) →
  swp (on_list (λ fuel, find_node fuel test)) s (λ r s', s' = s ∧ r = find_client test cl).
Proof.
  intros Hr Ht. eapply swp_on_list; [done|]. intros fuel Hf.
  rewrite (rep_first s cl) by done. by apply (find_node_spec fuel test s cl [] cl).
Qed.
Lemma fold_nodes_spec {A} (f : A → N → A) fuel acc s cl done rest : rep s cl → (∀ a n z, f a (c_set_next z n) = f a n) → cl = done ++ rest → (length rest ≤ fuel)%nat →
  swp (fold_nodes fuel f acc (first rest)) s (λ r s', s' = s ∧ r = foldl f acc rest.*2).
Proof.
  intros Hr Hf. revert acc done rest. induction fuel as [|fuel IH]; intros acc dn [|[p b] rest] E Hl; try (by simpl in Hl; lia).
  1,2: cbn; by apply swp_ret.
  cbn [first]. subst cl. destruct (rep_at _ _ _ _ _ Hr) as (n & Hn & -> & Hp0 & Hnx). cbn [fold_nodes].
  rewrite (proj2 (Z.eqb_neq p 0) Hp0). apply swp_bind. eapply swp_load; [done|]. cbn [fmap list_fmap snd foldl]. unfold body at 1.
  rewrite Hf, Hnx. apply (IH _ (dn ++ [(p, body n)])); [by rewrite <-(assoc_L (++))|cbn in Hl; lia].
Qed.
Lemma fold_list_spec {A} (f : A → N → A) acc s cl : rep s cl → (∀ a n z, f a (c_set_next z n) = f a n) →
  swp (on_list (λ fuel, fold_nodes fuel f acc)) s (λ r s', s' = s ∧ r = foldl f acc cl.*2).
Proof.
  intros Hr Hf. eapply swp_on_list; [done|]. intros fuel Hl. rewrite (rep_first s cl) by done. by apply (fold_nodes_spec f fuel acc s cl [] cl).
Qed.
Lemma find_client_elem test cl : find_client test cl ≠ 0 → ∃ n, (find_client test cl, n) ∈ cl ∧ test n = true.
Proof.
  unfold find_client. destruct (List.find _ cl) as [[p n]|] eqn:E; [|done]. intros _.
  apply List.find_some in E as [E1 E2]. apply list_elem_of_In in E1. eauto.
Qed.

(** ** Loops over the list

    [ps] are the addresses of the list; [I k] holds after [k] rounds. *)
Lemma each_spec fuel (f : Z → SM (cst N) unit) (I : nat → list (Z * N) → cst N → Prop) (ps : list Z) k s cl :
  (∀ k cl s, I k cl s → rep s cl ∧ cl.*1 = ps) →
  (∀ k p cl s, ps !! k = Some p → I k cl s → swp (f p) s (λ _ s', ∃ cl', I (S k) cl' s')) →
  I k cl s → (length ps ≤ k + fuel)%nat → (k ≤ length ps)%nat →
  swp (each_node fuel f (first (drop k cl))) s (λ _ s', ∃ cl', I (length ps) cl' s').
Proof.
  intros Hrep Hf. revert k s cl. induction fuel as [|fuel IH]; intros k s cl HI Hl Hk; destruct (Hrep _ _ _ HI) as [Hr Hps].
  - rewrite drop_ge by (rewrite <-(length_fmap fst cl), Hps; lia). apply swp_ret. replace (length ps) with k by lia. eauto.
  - destruct (drop k cl) as [|[p b] rest] eqn:E.
    { apply swp_ret. assert (length ps ≤ k)%nat; [|replace (length ps) with k by lia; eauto].
      apply (f_equal length) in E. rewrite length_drop in E. cbn in E. rewrite <-Hps, length_fmap. lia. }
    cbn [first each_node]. pose proof (take_drop k cl) as Etd. rewrite E in Etd. rewrite <-Etd in Hr.
    destruct (rep_at _ _ _ _ _ Hr) as (n & Hn & -> & Hp0 & _). rewrite (proj2 (Z.eqb_neq p 0) Hp0).
    assert (k < length cl)%nat as Hlt.
    { apply (f_equal length) in E. rewrite length_drop in E. cbn in E. lia. }
    assert (ps !! k = Some p) as Hpk.
    { rewrite <-Hps, <-Etd, fmap_app. rewrite lookup_app_r by (rewrite length_fmap, length_take; lia).
      rewrite length_fmap, length_take. replace (k - k `min` length cl)%nat with 0%nat by lia. done. }
    apply swp_bind. eapply swp_mono; [by apply (Hf k p cl s)|]. intros ? s' [cl' HI']. destruct (Hrep _ _ _ HI') as [Hr' Hps'].
    apply swp_bind. assert (drop k cl' = (p, default n (bodies s' !! p)) :: drop (S k) cl') as E'.
    { rewrite <-Hps' in Hpk. rewrite list_lookup_fmap in Hpk. destruct (cl' !! k) as [[q c]|] eqn:Eq; [|done]. injection Hpk as ->.
      rewrite (drop_S cl' (p, c) k) by done. f_equal. by rewrite (rep_body _ _ Hr' p c) by (by eapply list_elem_of_lookup_2). }
    pose proof (take_drop k cl') as Etd'. rewrite E' in Etd'. rewrite <-Etd' in Hr'.
    destruct (rep_at _ _ _ _ _ Hr') as (n' & Hn' & _ & _ & Hnx). eapply swp_load; [done|]. rewrite Hnx.
    apply IH; [done|lia|]. rewrite <-Hps, length_fmap. lia.
Qed.
Lemma each_list_spec (f : Z → SM (cst N) unit) (I : nat → list (Z * N) → cst N → Prop) s cl :
  (∀ k cl' s, I k cl' s → rep s cl' ∧ cl'.*1 = cl.*1) →
  (∀ k p cl' s, cl.*1 !! k = Some p → I k cl' s → swp (f p) s (λ _ s', ∃ cl'', I (S k) cl'' s')) →
  I 0%nat cl s → swp (on_list (λ fuel, each_node fuel f)) s (λ _ s', ∃ cl', I (length cl) cl' s').
Proof.
  intros Hrep Hf HI. destruct (Hrep _ _ _ HI) as [Hr _]. eapply swp_on_list; [done|]. intros fuel Hl. rewrite (rep_first s cl) by done.
  rewrite <-(length_fmap fst cl). eapply (each_spec fuel f I cl.*1 0 s cl); [done|done|done|rewrite length_fmap; lia|lia].
Qed.

(** ** New records *)
Lemma alloc_spec s cl n (Q : Z → cst N → Prop) : rep s cl → heap_ok c_size = true →
  (∀ s', rep s' cl → cs_users s' = <[cs_brk s := n]> (cs_users s) → cs_desc s' = cs_desc s → cs_list s' = cs_list s →
    cs_users s !! cs_brk s = None → Q (cs_brk s) s') →
  swp (node_alloc n) s Q.
Proof.
  intros [Hc Hb [Hk Hk']] Hh HQ. unfold node_alloc. rewrite Hh. apply swp_bind, swp_gets, swp_bind, swp_mod, swp_ret.
  assert (cs_users s !! cs_brk s = None) as Hnone.
  { destruct (cs_users s !! cs_brk s) eqn:E; [|done]. destruct (Hk' (cs_brk s)); [by rewrite E|lia]. }
  apply HQ; [|done..]. split; cbn.
  - apply lseg_insert_ne; [|done]. intros Hin. destruct (lseg_lookup _ _ _ _ _ _ Hc Hin) as [_ [? Hs]]. congruence.
  - intros p b Hin. unfold bodies. cbn. rewrite fmap_insert, lookup_insert_ne; [by apply Hb|]. intros <-.
    apply Hb, bodies_Some in Hin as (? & ? & _). congruence.
  - split; [lia|]. intros p. rewrite lookup_insert_is_Some. intros [<-|[_ Hp]]; [lia|]. destruct (Hk' p Hp). lia.
Qed.
Lemma link_spec s cl p n (Q : unit → cst N → Prop) : rep s cl → cs_users s !! p = Some n → p ∉ cl.*1 →
  (∀ s', rep s' ((p, body n) :: cl) → bodies s' = bodies s → cs_desc s' = cs_desc s → Q tt s') →
  swp (link_node p) s Q.
Proof.
  intros [Hc Hb [Hk Hk']] Hn Hp HQ. unfold link_node. apply swp_bind. eapply swp_load; [done|].
  apply swp_bind, swp_get, swp_bind. eapply swp_store; [done|]. apply swp_mod.
  assert (bodies (set_list p (set_users (<[p := c_set_next (cs_list s) n]> (cs_users s)) s)) = bodies s) as Eb.
  { unfold bodies. cbn. rewrite fmap_insert, body_next. apply insert_id. by rewrite lookup_fmap, Hn. }
  destruct (Hk' p) as [Hp0 _]; [by rewrite Hn|].
  apply HQ; [|done..]. split.
  - cbn. split_and!; [done|lia|]. eexists. split; [apply lookup_insert_eq|]. rewrite c_next_set. by apply lseg_insert_ne.
  - rewrite Eb. intros q b [[= -> ->]|Hin]%elem_of_cons; [by apply bodies_lookup|by apply Hb].
  - cbn. split; [done|]. intros q. rewrite lookup_insert_is_Some. intros [<-|[_ Hq]]; [|auto]. apply Hk'. by rewrite Hn.
Qed.

(** ** The close callback *)
Definition closed (fd : Z) cl : list (Z * N) :=
  if fd <? 0 then cl
  else let p := find_client (λ n, c_fd n =? fd) cl in
       (λ x, if decide (x.1 = p) then (x.1, c_set_fd (-1) x.2) else x) <$> cl.
Lemma close_spec fd s cl : rep s cl → swp (close_node fd) s (λ _ s', rep s' (closed fd cl) ∧ cs_desc s' = cs_desc s).
Proof.
  intros Hr. unfold close_node, closed. destruct (fd <? 0); [by apply swp_ret|]. apply swp_bind.
  eapply swp_mono; [apply (client_find_spec (λ n, c_fd n =? fd) s cl Hr); intros; by rewrite c_fd_next|]. intros p s' [-> ->].
  cbv zeta. set (p := find_client _ cl). destruct (Z.eqb_spec p 0) as [Hp|Hp].
  - apply swp_ret. split; [|done]. replace ((λ x : Z * N, if decide (x.1 = p) then (x.1, c_set_fd (-1) x.2) else x) <$> cl) with cl; [done|].
    symmetry. rewrite <-(list_fmap_id cl) at 2. apply list_fmap_ext. intros i x Hx. rewrite decide_False; [done|]. rewrite Hp. intros E.
    destruct (rep_elem s cl x.1 Hr) as (_ & _ & _ & Hx0); [|done]. apply list_elem_of_fmap_2. by eapply list_elem_of_lookup_2.
  - destruct (find_client_elem _ _ Hp) as (b & Hin & _). fold p in Hin.
    destruct (rep_elem s cl p Hr) as (n & Hn & Hnin & _); [by apply (list_elem_of_fmap_2 fst cl (p, b))|].
    apply swp_bind. eapply swp_load; [done|]. eapply swp_store; [done|]. split; [|done].
    pose proof (rep_store s cl p n (c_set_fd (-1) n) Hr Hn (c_next_fd n (-1))) as Hs.
    replace ((λ x : Z * N, if decide (x.1 = p) then (x.1, c_set_fd (-1) x.2) else x) <$> cl) with (put_body p (body (c_set_fd (-1) n)) <$> cl); [done|].
    apply list_fmap_ext. intros i [q c] Hq. unfold put_body. cbn [fst snd]. destruct (decide (q = p)) as [->|]; [|done].
    rewrite (rep_uniq s cl p c (body n)) by (done || by eapply list_elem_of_lookup_2). unfold body. by rewrite c_fd_comm.
Qed.

(** ** The sweep

    [pend] are the records skipped since the last one that was kept: freeing a
    record takes them off the list. *)
Fixpoint sweep (judge : N → verdict) (pend cl : list (Z * N)) : list (Z * N) :=
  match cl with
  | [] => pend
  | x :: cl =>
     match judge x.2 with
     | VSkip => sweep judge (pend ++ [x]) cl
     | VFree => sweep judge [] cl
     | VKeep => pend ++ x :: sweep judge [] cl
     end
  end.
Definition freed (judge : N → verdict) cl : list Z := (filter (λ x, judge x.2 = VFree) cl).*1.

(** What the sweep leaves was there, and what it keeps it leaves. *)
Lemma sweep_sub j pend cl x : x ∈ sweep j pend cl → x ∈ pend ++ cl.
Proof.
  revert pend. induction cl as [|y cl IH]; intros pend; cbn [sweep]; [by rewrite app_nil_r|]. destruct (j y.2).
  - intros Hx%IH. by rewrite <-(assoc_L (++)) in Hx.
  - intros Hx%IH. cbn in Hx. set_solver.
  - rewrite elem_of_app, elem_of_cons. intros [Hx|[->|Hx%IH]]; cbn in *; set_solver.
Qed.
Lemma sweep_keep j pend cl x : x ∈ cl → j x.2 = VKeep → x ∈ sweep j pend cl.
Proof.
  intros Hx Hj. revert pend. induction cl as [|y cl IH]; intros pend; [by apply not_elem_of_nil in Hx|]. cbn [sweep].
  apply elem_of_cons in Hx as [<-|Hx]; [rewrite Hj; set_solver|]. destruct (j y.2); [by apply IH..|].
  apply elem_of_app. right. right. by apply IH.
Qed.

(** Unlinking the records between the end of [l1] and [l2]. *)
Lemma rep_cut s l1 p l2 l3 : rep s (l1 ++ l2 ++ l3) → last l1.*1 = Some p → ∃ m, cs_users s !! p = Some m ∧
  rep (set_users (<[p := c_set_next (first l3) m]> (cs_users s)) s) (l1 ++ l3).
Proof.
  intros Hr Hl. destruct l1 as [|[q c] l1'] using rev_ind; [done|]. clear IHl1'. rewrite fmap_app in Hl. cbn [fmap list_fmap fst] in Hl. rewrite last_snoc in Hl. injection Hl as ->.
  rewrite <-(assoc_L (++)) in Hr. destruct (rep_at s l1' p c (l2 ++ l3)) as (m & Hm & -> & Hp0 & Hnx); [exact Hr|].
  exists m. split; [done|]. pose proof (rep_nodup _ _ Hr) as Hnd. rewrite !fmap_app in Hnd. cbn [fmap list_fmap fst] in Hnd.
  cbn [app] in Hnd. split.
  - cbn. rewrite !fmap_app. cbn [fmap list_fmap fst]. rewrite <-(assoc_L (++)). cbn [app].
    pose proof (rep_chain _ _ Hr) as Hc. rewrite !fmap_app in Hc. cbn [fmap list_fmap fst] in Hc. cbn [app] in Hc.
    apply lseg_app in Hc as (r & Hc1 & -> & _ & m' & Hm' & Hc2). rewrite Hm in Hm'. injection Hm' as <-.
    apply lseg_app in Hc2 as (r & _ & Hc3). apply NoDup_app in Hnd as (_ & Hd & Hnd). apply NoDup_cons in Hnd as [Hp _].
    apply lseg_app. exists p. split; [apply lseg_insert_ne; [|done]; intros Hin; apply (Hd p Hin); left|].
    cbn. split_and!; [done..|]. eexists. split; [apply lookup_insert_eq|]. rewrite c_next_set.
    apply lseg_insert_ne; [intros Hin; apply Hp; set_solver|].
    destruct l3 as [|[q c] l3]; [done|]. cbn [first]. by destruct Hc3 as (-> & Hc3).
  - intros a b Hin. assert (bodies (set_users (<[p := c_set_next (first l3) m]> (cs_users s)) s) = bodies s) as ->.
    { unfold bodies. cbn. rewrite fmap_insert, body_next. apply insert_id. by rewrite lookup_fmap, Hm. }
    apply (rep_body _ _ Hr). set_solver.
  - destruct (rep_brk _ _ Hr) as [Hk Hk']. split; [done|]. cbn. intros a. rewrite lookup_insert_is_Some. intros [<-|[_ Ha]]; [|auto].
    apply Hk'. by rewrite Hm.
Qed.
(** Unlinking from the head. *)
Lemma rep_cut_head s l2 l3 : rep s (l2 ++ l3) → rep (set_list (first l3) s) l3.
Proof.
  intros [Hc Hb Hk]. split; [|intros; apply Hb; set_solver|done]. cbn. rewrite fmap_app in Hc. apply lseg_app in Hc as (r & _ & Hc).
  destruct l3 as [|[q c] l3]; [done|]. cbn [first]. by destruct Hc as (-> & Hc).
Qed.
(** Freeing a record that is not on the list. *)
Lemma rep_free s cl p : rep s cl → p ∉ cl.*1 → rep (set_users (delete p (cs_users s)) s) cl.
Proof.
  intros [Hc Hb [Hk Hk']] Hp. split.
  - by apply lseg_delete_ne.
  - intros a b Hin. unfold bodies. cbn. rewrite fmap_delete, lookup_delete_ne; [by apply Hb|]. intros <-. apply Hp.
    by apply (list_elem_of_fmap_2 fst cl (p, b)).
  - split; [done|]. cbn. intros a. rewrite lookup_delete_is_Some. intros [_ Ha]. auto.
Qed.

Section sweep.
Variable judge : N → verdict.
Hypothesis judge_next : ∀ n z, judge (c_set_next z n) = judge n.

Definition keeps_bodies s s' (gone : list Z) : Prop :=
  ∀ a, bodies s' !! a = if decide (a ∈ gone) then None else bodies s !! a.

Lemma sweep_list_spec fuel s l1 pend rest : rep s (l1 ++ pend ++ rest) → (length rest ≤ fuel)%nat →
  swp (sweep_list fuel judge (default 0 (last l1.*1)) (first rest)) s
    (λ _ s', rep s' (l1 ++ sweep judge pend rest) ∧ keeps_bodies s s' (freed judge rest) ∧ cs_desc s' = cs_desc s).
Proof.
  revert s l1 pend rest. induction fuel as [|fuel IH]; intros s l1 pend [|[p b] rest] Hr Hl; try (by cbn in Hl; lia).
  1,2: apply swp_ret; cbn [sweep]; rewrite app_nil_r in Hr; split; [done|]; split; [|done]; intros a; by rewrite decide_False by apply not_elem_of_nil.
  cbn in Hl. assert (rep s ((l1 ++ pend) ++ (p, b) :: rest)) as Hr' by (by rewrite <-(assoc_L (++))).
  destruct (rep_at _ _ _ _ _ Hr') as (n & Hn & -> & Hp0 & Hnx). cbn [first sweep_list]. rewrite (proj2 (Z.eqb_neq p 0) Hp0).
  apply swp_bind. eapply swp_load; [done|]. cbv zeta. rewrite Hnx. cbn [sweep snd]. unfold freed. rewrite filter_cons. cbn [snd].
  assert (judge (body n) = judge n) as -> by apply judge_next. destruct (judge n) eqn:Ej.
  - rewrite decide_False by done. apply IH; [|lia]. by rewrite <-!(assoc_L (++)).
  - rewrite decide_True by done. pose proof (rep_nodup _ _ Hr') as Hnd. rewrite !fmap_app in Hnd. cbn [fmap list_fmap fst] in Hnd.
    apply NoDup_app in Hnd as (_ & Hd & Hnd). apply NoDup_cons in Hnd as [Hprest _].
    assert (p ∉ l1.*1) as Hpl by (intros Hin; apply (Hd p); [by apply elem_of_app; left|left]).
    apply swp_bind. apply swp_mono with (Q := λ _ s', rep s' (l1 ++ rest) ∧ bodies s' = bodies s ∧ cs_desc s' = cs_desc s).
    { destruct (last l1.*1) as [q|] eqn:El.
      - assert (rep s (l1 ++ (pend ++ [(p, body n)]) ++ rest)) as Hr2 by (by rewrite <-!(assoc_L (++))).
        destruct (rep_cut s l1 q _ rest Hr2 El) as (m & Hm & Hrm). cbn [default from_option id].
        destruct (rep_elem s _ q Hr2) as (_ & _ & _ & Hq0).
        { rewrite fmap_app. apply elem_of_app. left. by apply last_Some_elem_of. }
        rewrite (proj2 (Z.eqb_neq q 0) Hq0). apply swp_bind. eapply swp_load; [done|]. eapply swp_store; [done|].
        split; [done|]. split; [|done]. unfold bodies. cbn. rewrite fmap_insert, body_next. apply insert_id. by rewrite lookup_fmap, Hm.
      - apply last_None, fmap_nil_inv in El as ->. cbn [default app]. apply swp_mod. split; [|done].
        apply (rep_cut_head s (pend ++ [(p, body n)])). by rewrite <-(assoc_L (++)). }
    intros ? s1 (Hr1 & Eb & Ed). apply bodies_lookup in Hn. rewrite <-Eb in Hn. apply bodies_Some in Hn as (n1 & Hn1 & _).
    apply swp_bind. eapply swp_free; [done|].
    eapply swp_mono; [apply (IH _ l1 [] rest); [|lia]|].
    { cbn [app]. apply rep_free; [done|]. rewrite fmap_app. rewrite not_elem_of_app. done. }
    intros ? s2 (Hr2 & Hk2 & Ed2). split; [done|]. split; [|by rewrite Ed2]. intros x. rewrite (Hk2 x). unfold bodies at 1. cbn.
    rewrite fmap_delete. fold (bodies s1). rewrite Eb. destruct (decide (x ∈ freed judge rest)) as [Ha|Ha].
    + rewrite decide_True; [done|]. by right.
    + destruct (decide (x = p)) as [->|Hne]; [by rewrite lookup_delete_eq, decide_True by left|].
      rewrite lookup_delete_ne by done. rewrite decide_False; [done|]. intros [->|?]%elem_of_cons; [done|]. done.
  - rewrite decide_False by done.
    assert (p = default 0 (last (l1 ++ pend ++ [(p, body n)]).*1)) as Elast
      by (rewrite (assoc_L (++)), fmap_app; cbn [fmap list_fmap fst]; by rewrite last_snoc).
    rewrite Elast at 1. eapply swp_mono; [apply (IH s (l1 ++ pend ++ [(p, body n)]) [] rest); [|lia]|].
    { cbn [app]. by rewrite <-!(assoc_L (++)). }
    rewrite <-!(assoc_L (++)). cbn [app]. intros ? s' Hs'. exact Hs'.
Qed.
Lemma close_free_spec s cl : rep s cl →
  swp (close_free judge) s (λ _ s', rep s' (sweep judge [] cl) ∧ keeps_bodies s s' (freed judge cl) ∧ cs_desc s' = cs_desc s).
Proof.
  intros Hr. unfold close_free. eapply swp_on_list; [done|]. intros fuel Hl. rewrite (rep_first s cl Hr).
  by apply (sweep_list_spec fuel s [] [] cl).
Qed.
(** Without skipped records the sweep removes exactly what it frees. *)
Lemma sweep_filter cl : Forall (λ x, judge x.2 ≠ VSkip) cl → sweep judge [] cl = filter (λ x, judge x.2 ≠ VFree) cl.
Proof.
  induction 1 as [|x cl Hx Hcl IH]; [done|]. cbn [sweep]. rewrite filter_cons. destruct (judge x.2); [done| |].
  - by rewrite decide_False by tauto.
  - rewrite decide_True by done. cbn [app]. by rewrite IH.
Qed.
End sweep.

Lemma filter_id {A} (P : A → Prop) `{∀ x, Decision (P x)} (l : list A) : (∀ x, x ∈ l → P x) → filter P l = l.
Proof.
  induction l as [|x l IH]; intros HP; [done|]. rewrite filter_cons, decide_True by (apply HP; left). f_equal. apply IH.
  intros y Hy. apply HP. by right.
Qed.
Lemma filter_iff_in {A} (P Q : A → Prop) `{∀ x, Decision (P x), ∀ x, Decision (Q x)} (l : list A) : (∀ x, x ∈ l → P x ↔ Q x) → filter P l = filter Q l.
Proof.
  induction l as [|x l IH]; intros HPQ; [done|]. rewrite !filter_cons, IH by (intros y Hy; apply HPQ; by right).
  specialize (HPQ x ltac:(left)). destruct (decide (P x)), (decide (Q x)); tauto.
Qed.

(** ** One record *)
Lemma free_node_spec fuel f s l1 rest : rep s (l1 ++ rest) → (length rest ≤ fuel)%nat → f ∉ l1.*1 →
  swp (free_node fuel f (default 0 (last l1.*1)) (first rest)) s
    (λ _ s', rep s' (l1 ++ filter (λ x, x.1 ≠ f) rest) ∧ cs_desc s' = cs_desc s ∧
      keeps_bodies s s' (if decide (f ∈ rest.*1) then [f] else [])).
Proof.
  revert s l1. induction fuel as [|fuel IH] in rest |- *; intros s l1; destruct rest as [|[p b] rest]; intros Hr Hl Hf; try (by cbn in Hl; lia).
  1,2: apply swp_ret; split; [done|]; split; [done|]; rewrite decide_False by apply not_elem_of_nil; intros a; by rewrite decide_False by apply not_elem_of_nil.
  cbn in Hl. destruct (rep_at _ _ _ _ _ Hr) as (n & Hn & -> & Hp0 & Hnx). cbn [first free_node]. rewrite (proj2 (Z.eqb_neq p 0) Hp0).
  pose proof (rep_nodup _ _ Hr) as Hnd. rewrite fmap_app in Hnd. cbn [fmap list_fmap fst] in Hnd.
  apply NoDup_app in Hnd as (_ & Hd & Hnd). apply NoDup_cons in Hnd as [Hprest _].
  apply swp_bind. eapply swp_load; [done|]. rewrite filter_cons. cbn [fst]. destruct (Z.eqb_spec p f) as [->|Hpf].
  - rewrite decide_False by tauto. assert (filter (λ x, x.1 ≠ f) rest = rest) as ->.
    { apply filter_id. intros x Hx E. apply Hprest. rewrite <-E. by apply list_elem_of_fmap_2. }
    cbn [fmap list_fmap fst]. rewrite decide_True by left. apply swp_bind, swp_get, swp_bind.
    apply swp_mono with (Q := λ _ s', rep s' (l1 ++ rest) ∧ bodies s' = bodies s ∧ cs_desc s' = cs_desc s).
    { rewrite Hnx. destruct (last l1.*1) as [q|] eqn:El.
      - pose proof (rep_first _ _ Hr) as Ef. assert (q ∈ l1.*1) as Hq by (by apply last_Some_elem_of).
        assert (f ≠ cs_list s) as Hne.
        { rewrite Ef. destruct l1 as [|[q' c] l1]; [done|]. cbn [app first]. intros ->. apply Hf. left. }
        rewrite (proj2 (Z.eqb_neq f _) Hne). destruct (rep_cut s l1 q [(f, body n)] rest Hr El) as (m & Hm & Hrm). cbn [default from_option id].
        apply swp_bind. eapply swp_load; [done|]. eapply swp_store; [done|]. split; [done|]. split; [|done].
        unfold bodies. cbn. rewrite fmap_insert, body_next. apply insert_id. by rewrite lookup_fmap, Hm.
      - apply last_None, fmap_nil_inv in El as ->. rewrite (rep_first _ _ Hr). cbn [app first]. rewrite Z.eqb_refl. apply swp_mod.
        split; [|done]. by apply (rep_cut_head s [(f, body n)]). }
    intros ? s1 (Hr1 & Eb & Ed). apply bodies_lookup in Hn. rewrite <-Eb in Hn. apply bodies_Some in Hn as (n1 & Hn1 & _).
    eapply swp_free; [done|]. split; [apply rep_free; [done|]|].
    { rewrite fmap_app, not_elem_of_app. done. }
    split; [done|]. intros x. unfold bodies at 1. cbn. rewrite fmap_delete. fold (bodies s1). rewrite Eb.
    destruct (decide (x = f)) as [->|Hne]; [by rewrite lookup_delete_eq, decide_True by left|].
    rewrite lookup_delete_ne by done. rewrite decide_False; [done|]. by intros ->%list_elem_of_singleton.
  - rewrite decide_True by done. rewrite Hnx. assert (p = default 0 (last (l1 ++ [(p, body n)]).*1)) as Elast
      by (rewrite fmap_app; cbn [fmap list_fmap fst]; by rewrite last_snoc).
    rewrite Elast at 1. eapply swp_mono; [apply (IH rest s (l1 ++ [(p, body n)])); [|lia|]|].
    { by rewrite <-(assoc_L (++)). }
    { rewrite fmap_app, not_elem_of_app. split; [done|]. cbn. by intros ->%list_elem_of_singleton. }
    rewrite <-(assoc_L (++)). cbn [app]. intros ? s' (Hr' & Ed & Hk). split; [done|]. split; [done|].
    intros x. rewrite (Hk x). destruct (decide (f ∈ rest.*1)) as [Hin|Hin].
    + rewrite (decide_True _ _ (P := f ∈ ((p, body n) :: rest).*1)); [done|]. by right.
    + rewrite (decide_False _ _ (P := f ∈ ((p, body n) :: rest).*1)); [done|]. cbn. rewrite not_elem_of_cons. done.
Qed.
Lemma user_free_spec f s cl : rep s cl → swp (on_list (λ fuel, free_node fuel f 0)) s
  (λ _ s', rep s' (filter (λ x, x.1 ≠ f) cl) ∧ cs_desc s' = cs_desc s ∧ keeps_bodies s s' (if decide (f ∈ cl.*1) then [f] else [])).
Proof.
  intros Hr. eapply swp_on_list; [done|]. intros fuel Hl. rewrite (rep_first s cl Hr).
  apply (free_node_spec fuel f s [] cl); [done|done|apply not_elem_of_nil].
Qed.
End spec.
