(* ===== verification/ClientsServe.v ===== *)
(** * Requests of clients: specification

    A read queue is a list of bytes and a request is its first line.  The timer
    of a service takes one line from each connection; any interleaving of
    arriving bytes and timer rounds hands over the lines of the stream in
    order. *)

From stdpp Require Import functions.
From S2P Require Import Prelude Errors Shbuf Descriptor Links Hmac Key Opt Clients ClientsSpec.

(** ** Lines *)
Fixpoint cut_line (l : list byte) : option (list byte * list byte) :=
  match l with
  | [] => None
  | c :: l => if decide (c = x0a) then Some ([], l) else match cut_line l with Some (a, b) => Some (c :: a, b) | None => None end
  end.
Definition take_line (max : Z) (l : list byte) : option (list byte) * list byte :=
  match cut_line l with
  | None => (None, if max <? zlen l then [] else l)
  | Some (a, b) =>
     if max <? zlen a then (None, b)
     else if decide (x00 ∈ a) then (None, l) else (Some a, b)
  end.

Lemma cut_line_spec l a b : cut_line l = Some (a, b) → l = a ++ x0a :: b ∧ x0a ∉ a.
Proof.
  revert a. induction l as [|c l IH]; intros a; cbn [cut_line]; [done|]. destruct (decide (c = x0a)) as [->|Hc].
  - intros [= <- <-]. split; [done|apply not_elem_of_nil].
  - destruct (cut_line l) as [[a' b']|]; [|done]. intros [= <- <-]. destruct (IH a') as [-> Ha]; [done|].
    split; [done|]. by apply not_elem_of_cons.
Qed.
Lemma cut_line_None l : cut_line l = None → x0a ∉ l.
Proof.
  induction l as [|c l IH]; cbn [cut_line]; intros E; [apply not_elem_of_nil|]. destruct (decide (c = x0a)); [done|].
  destruct (cut_line l) as [[??]|]; [done|]. apply not_elem_of_cons. auto.
Qed.
Lemma cut_line_app a b : x0a ∉ a → cut_line (a ++ x0a :: b) = Some (a, b).
Proof.
  induction a as [|c a IH]; intros Ha; cbn [app cut_line]; [by rewrite decide_True|]. apply not_elem_of_cons in Ha as [Hc Ha].
  rewrite decide_False by done. by rewrite IH.
Qed.

Lemma shbuf_idx_cut i l : shbuf_idx_from i l x0a = match cut_line l with None => u64 (-1) | Some (a, _) => i + zlen a end.
Proof.
  revert i. induction l as [|c l IH]; intros i; cbn [shbuf_idx_from cut_line]; [done|]. destruct (decide (c = x0a)); [cbn; lia|].
  rewrite IH. destruct (cut_line l) as [[a b]|]; [|done]. cbn [length]. lia.
Qed.
Lemma stridx_cut i l : stridx_from i (cstring l) x0a =
  match cut_line l with None => -1 | Some (a, _) => if decide (x00 ∈ a) then -1 else i + zlen a end.
Proof.
  revert i. induction l as [|c l IH]; intros i; unfold cstring; cbn [strlen cut_line]; [done|].
  destruct (decide (c = x00)) as [->|H0]; cbn [take stridx_from].
  - rewrite decide_False by done. destruct (cut_line l) as [[a b]|]; [|done]. by rewrite decide_True by left.
  - fold (cstring l). destruct (decide (c = x0a)) as [->|Ha].
    + rewrite decide_False by apply not_elem_of_nil. cbn. lia.
    + rewrite IH. destruct (cut_line l) as [[a b]|]; [|done]. destruct (decide (x00 ∈ a)) as [Hin|Hin].
      * by rewrite decide_True by (by right).
      * rewrite decide_False by (by rewrite not_elem_of_cons). cbn [length]. lia.
Qed.

Lemma next_line_spec max b : 0 ≤ max → shbuf_wf b →
  ∃ b', next_line max b = ((take_line max (default [] (data b))).1, b') ∧ shbuf_wf b' ∧
    default [] (data b') = (take_line max (default [] (data b))).2.
Proof.
  intros Hm Hwf. unfold next_line, shbuf_idx, stridx, take_line. rewrite shbuf_idx_cut, stridx_cut.
  destruct (data b) as [l|] eqn:Ed.
  2:{ change (default [] None) with (@nil byte). unfold data_of. rewrite Ed. change (default [] None) with (@nil byte). cbn [cut_line length]. change (Z.of_nat 0) with 0.
      rewrite (proj2 (Z.ltb_ge max 0) Hm), Z.eqb_refl. exists b. split; [done|]. split; [done|]. by rewrite Ed. }
  change (default [] (Some l)) with l. destruct Hwf as [Hf Hd]. rewrite Ed in Hd.
  assert (shbuf_wf b) as Hwf by (split; [done|by rewrite Ed]).
  destruct (cut_line l) as [[a r]|] eqn:Ec.
  - apply cut_line_spec in Ec as [-> Ha]. rewrite length_app in Hd. cbn [length] in Hd. rewrite Z.add_0_l.
    destruct (Z.eqb_spec (zlen a) (u64 (-1))) as [E|_]; [change (u64 (-1)) with (2 ^ 64 - 1) in E; lia|].
    assert (∀ n, n = zlen a + 1 → shbuf_wf (shbuf_trim b n) ∧ default [] (data (shbuf_trim b n)) = r) as Htrim.
    { intros n ->. split; [by apply shbuf_trim_wf|]. rewrite (shbuf_trim_data b _ (a ++ x0a :: r)) by (done || (unfold MAX_SHBUF_SIZE; lia)).
      change (default [] (Some ?x)) with x. replace (Z.to_nat (zlen a + 1)) with (S (length a)) by lia.
      replace (a ++ x0a :: r) with ((a ++ [x0a]) ++ r) by (by rewrite <-(assoc_L (++))).
      rewrite drop_app_length'; [done|]. rewrite length_app. cbn. lia. }
    destruct (max <? zlen a).
    + eexists. split; [reflexivity|]. apply Htrim. rewrite u64_small by lia. done.
    + destruct (decide (x00 ∈ a)) as [Hin|Hin].
      * change (-1 =? -1) with true. exists b. split; [done|]. split; [done|]. by rewrite Ed.
      * rewrite (proj2 (Z.eqb_neq (zlen a) (-1))) by lia. eexists. split; [|by apply Htrim].
        do 2 f_equal. rewrite Nat2Z.id. by rewrite take_app_length.
  - rewrite Z.eqb_refl. unfold data_of. rewrite Ed. change (default [] (Some l)) with l. eexists. split; [reflexivity|].
    destruct (max <? zlen l); [|split; [done|by rewrite Ed]]. split; [by apply shbuf_trim_wf|].
    rewrite (shbuf_trim_data b _ l) by (done || (unfold MAX_SHBUF_SIZE; lia)). cbn. by rewrite Nat2Z.id, drop_all.
Qed.

(** ** Queues of the descriptor table *)
Section serve.
Context {N : Type} `{ClientOk N} `{Heap} (max_fd : Z).
Implicit Types (s : cst N) (cl : list (Z * N)) (dt : dtab) (q : Z → option (list byte)).

Definition rdata (d : desc_t) : list byte := default [] (d_rbuff d ≫= data).
(** The bytes that wait on a descriptor in use. *)
Definition queue dt (fd : Z) : option (list byte) :=
  if max_fd <=? fd then None
  else let d := dt_slot (dt_alloc dt) fd in if d_flag d =? 0 then None else Some (rdata d).
Record desc_ok dt : Prop := {
  do_table : is_Some (dt_table dt);
  do_wf : ∀ fd b, d_rbuff (dt_slot (dt_alloc dt) fd) = Some b → shbuf_wf b;
}.

Lemma dt_put_slot dt fd d fd' : dt_slot (dt_alloc (dt_put dt fd d)) fd' = if decide (fd = fd') then d else dt_slot (dt_alloc dt) fd'.
Proof. unfold dt_put, dt_alloc. cbn. by rewrite dt_slot_insert. Qed.
Lemma put_rbuff_ok dt fd d b :
  desc_ok dt → dt_slot (dt_alloc dt) fd = d → shbuf_wf b →
  let dt' := dt_put dt fd (Desc (d_mode d) (d_flag d) (d_total d) (d_cstamp d) (d_stamp d) (Some b) (d_wbuff d) (d_net_addr d)) in
  desc_ok dt' ∧ ∀ fd', queue dt' fd' = if decide (fd' = fd ∧ is_Some (queue dt fd)) then Some (default [] (data b)) else queue dt fd'.
Proof.
  intros [Ht Hw] Hd Hb dt'. split.
  - split; [done|]. intros fd' b'. unfold dt'. rewrite dt_put_slot. destruct (decide (fd = fd')); [|by apply Hw]. cbn. by intros [= <-].
  - intros fd'. unfold queue, dt'. rewrite dt_put_slot. destruct (decide (fd = fd')) as [<-|Hne].
    + destruct (max_fd <=? fd); [by rewrite decide_False by (intros [_ [? [=]]])|]. cbn [d_flag]. rewrite Hd.
      destruct (d_flag d =? 0); [by rewrite decide_False by (intros [_ [? [=]]])|]. by rewrite decide_True.
    + rewrite decide_False; [done|]. intros [E _]. by apply Hne.
Qed.

Section timer.
Variables (max : Z) (skip : N → bool).
Hypothesis Hmax : 0 ≤ max.
Hypothesis skip_next : ∀ n z, skip (c_set_next z n) = skip n.

(** A client as the timer sees it: its address and the descriptor it reads. *)
Definition conn (x : Z * N) : Z * option Z := (x.1, if (c_fd x.2 =? -1) || skip x.2 then None else Some (c_fd x.2)).
(** One client, on the queues. *)
Definition take_q (fd : option Z) q : option (list byte) * (Z → option (list byte)) :=
  match fd with
  | None => (None, q)
  | Some fd =>
     match q fd with
     | None => (None, q)
     | Some l => let '(line, rest) := take_line max l in (line, <[fd := Some rest]> q)
     end
  end.
Definition frame s s' : Prop := cs_users s' = cs_users s ∧ cs_brk s' = cs_brk s ∧ cs_list s' = cs_list s.
Lemma frame_rep s s' cl : frame s s' → rep s cl → rep s' cl.
Proof. intros (Eu & Eb & El) [Hc Hb Hk]. split; unfold bodies in *; rewrite ?Eu, ?Eb, ?El; done. Qed.

(** A client is connected on a descriptor, or on none, which is -1. *)
Definition fds_ok cl : Prop := Forall (λ x, -1 ≤ c_fd x.2) cl.
Lemma take_request_spec s p n : cs_users s !! p = Some n → -1 ≤ c_fd n → desc_ok (cs_desc s) →
  let r := take_q (conn (p, body n)).2 (queue (cs_desc s)) in
  swp (take_request max_fd max skip p) s (λ line s', line = r.1 ∧ frame s s' ∧ desc_ok (cs_desc s') ∧ ∀ fd, queue (cs_desc s') fd = r.2 fd).
Proof.
  intros Hn Hfd Hok r. unfold take_request. apply swp_bind. eapply swp_load; [done|]. subst r. unfold conn. cbn [snd].
  rewrite body_fd. assert (skip (body n) = skip n) as -> by apply skip_next.
  destruct ((c_fd n =? -1) || skip n) eqn:Esk; [by apply swp_ret|]. apply orb_false_iff in Esk as [Eneg%Z.eqb_neq _]. set (fd := c_fd n) in *. cbv zeta. apply swp_bind.
  destruct Hok as [[t Ht] Hw]. assert (desc_ok (cs_desc s)) as Hok by (split; [by rewrite Ht|done]).
  assert (dt_alloc (cs_desc s) = t) as Ea by (unfold dt_alloc; by rewrite Ht).
  assert (queue (cs_desc s) fd = if max_fd <=? fd then None else if d_flag (dt_slot t fd) =? 0 then None else Some (rdata (dt_slot t fd))) as Eq
    by (unfold queue; by rewrite Ea). unfold take_q. rewrite Eq.
  eapply (swp_opt _ (if max_fd <=? fd then None else if d_flag (dt_slot t fd) =? 0 then None else Some (dt_slot t fd)));
    [unfold descriptor_get; rewrite Ht, (proj2 (Z.ltb_ge fd 0)) by lia; by destruct (max_fd <=? fd)|].
  destruct (max_fd <=? fd) eqn:Emax; [by apply swp_ret|]. set (d := dt_slot t fd) in *.
  destruct (d_flag d =? 0) eqn:Ef; [by apply swp_ret|]. unfold rdata. destruct (d_rbuff d) as [b|] eqn:Eb.
  2:{ cbn [mbind option_bind default]. assert (take_line max [] = (None, [])) as Enil by (unfold take_line; cbn [cut_line length]; change (Z.of_nat 0) with 0; by rewrite (proj2 (Z.ltb_ge max 0) Hmax)).
     
      rewrite Enil. apply swp_ret. split; [done|]. split; [done|]. split; [done|]. intros fd'. cbn [snd].
      destruct (decide (fd = fd')) as [<-|]; [rewrite fn_lookup_insert|by rewrite fn_lookup_insert_ne].
      rewrite Eq. unfold rdata. by rewrite Eb. }
  assert (shbuf_wf b) as Hb by (apply (Hw fd); by rewrite Ea). cbn [mbind option_bind].
  destruct (next_line_spec max b Hmax Hb) as (b' & En & Hb' & Ed). rewrite En.
  destruct (take_line max (default [] (data b))) as [line rest] eqn:Et. cbn [fst snd] in *.
  apply swp_bind, swp_mod, swp_ret. split; [done|]. split; [done|]. cbn [cs_desc set_desc].
  destruct (put_rbuff_ok (cs_desc s) fd d b' Hok) as [Hok' Hq]; [by rewrite Ea|done|]. split; [done|]. intros fd'. rewrite Hq, Ed.
  destruct (decide (fd' = fd ∧ _)) as [[-> _]|Hne]; [by rewrite fn_lookup_insert|].
  rewrite fn_lookup_insert_ne; [done|]. intros <-. apply Hne. split; [done|]. by rewrite Eq.
Qed.

(** ** One round

    [R] relates a record to what a handler may make of it; a handler keeps the
    list, the connections and the queues, and stops the loop on the lines for
    which [stop] holds. *)
Variable R : N → N → Prop.
Hypothesis R_refl : ∀ n, R n n.
Hypothesis R_trans : ∀ a b c, R a b → R b c → R a c.
Hypothesis R_fd : ∀ n n', R n n' → c_fd n' = c_fd n ∧ skip n' = skip n.
Definition related cl cl' : Prop := Forall2 (λ x y, y.1 = x.1 ∧ R x.2 y.2) cl cl'.
Definition handler_ok (handle : Z → list byte → SM (cst N) bool) (stop : list byte → bool) : Prop :=
  ∀ p l s cl, rep s cl → desc_ok (cs_desc s) → p ∈ cl.*1 →
    swp (handle p l) s (λ go s', go = negb (stop l) ∧ (∃ cl', rep s' cl' ∧ related cl cl') ∧
      desc_ok (cs_desc s') ∧ ∀ fd, queue (cs_desc s') fd = queue (cs_desc s) fd).

Lemma related_refl cl : related cl cl.
Proof. apply Forall2_same_length_lookup_2; [done|]. intros i x y -> [= ->]. auto. Qed.
Lemma related_trans a b c : related a b → related b c → related a c.
Proof.
  intros Hab. revert c. induction Hab as [|x y a b [E HR] Hab IH]; intros c Hbc.
  - apply Forall2_nil_inv_l in Hbc as ->. constructor.
  - apply Forall2_cons_inv_l in Hbc as (z & c' & [E' HR'] & Hbc & ->). constructor; [|by apply IH]. split; [congruence|eauto].
Qed.
Lemma related_conn cl cl' : related cl cl' → conn <$> cl' = conn <$> cl.
Proof.
  induction 1 as [|[p n] [p' n'] cl cl' [E HR] Hr IH]; [done|]. cbn [fmap list_fmap]. cbn [fst snd] in *. f_equal; [|done].
  unfold conn. cbn [fst snd]. destruct (R_fd n n' HR) as [-> ->]. by rewrite E.
Qed.
Lemma related_fds cl cl' : related cl cl' → fds_ok cl → fds_ok cl'.
Proof.
  unfold fds_ok. induction 1 as [|x y cl cl' [_ HR] _ IH]; [done|]. intros [Hx Hcl]%Forall_cons. constructor; [|by apply IH]. by rewrite (proj1 (R_fd _ _ HR)).
Qed.

Fixpoint serve_q (stop : list byte → bool) (conns : list (Z * option Z)) q
  : list (Z * list byte) * bool * (Z → option (list byte)) :=
  match conns with
  | [] => ([], true, q)
  | (p, fd) :: conns =>
     let '(line, q) := take_q fd q in
     match line with
     | None => serve_q stop conns q
     | Some l =>
        if stop l then ([(p, l)], false, q)
        else let '(rest, go, q) := serve_q stop conns q in ((p, l) :: rest, go, q)
     end
  end.
(** Only the values of the queues matter. *)
Lemma take_q_ext fd q q' : (∀ x, q x = q' x) → (take_q fd q).1 = (take_q fd q').1 ∧ ∀ x, (take_q fd q).2 x = (take_q fd q').2 x.
Proof.
  intros E. unfold take_q. destruct fd as [fd|]; [|done]. rewrite E. destruct (q' fd) as [l|]; [|done].
  destruct (take_line max l) as [o r]. split; [done|]. intros x. cbn [snd].
  destruct (decide (fd = x)) as [<-|]; [by rewrite !fn_lookup_insert|by rewrite !fn_lookup_insert_ne].
Qed.
Lemma serve_q_ext stop conns q q' : (∀ x, q x = q' x) →
  (serve_q stop conns q).1 = (serve_q stop conns q').1 ∧ ∀ x, (serve_q stop conns q).2 x = (serve_q stop conns q').2 x.
Proof.
  revert q q'. induction conns as [|[p fd] conns IH]; intros q q' E; [done|]. cbn [serve_q].
  destruct (take_q_ext fd q q' E) as [E1 E2]. destruct (take_q fd q) as [o q1], (take_q fd q') as [o' q1']. cbn [fst snd] in *. subst o'.
  destruct o as [l|]; [|by apply IH]. destruct (stop l); [done|]. destruct (IH q1 q1' E2) as [E3 E4].
  destruct (serve_q stop conns q1) as [[r g] q2], (serve_q stop conns q1') as [[r' g'] q2']. cbn [fst snd] in *. by simplify_eq.
Qed.

Section handled.
Variables (handle : Z → list byte → SM (cst N) bool) (stop : list byte → bool).
Hypothesis Hh : handler_ok handle stop.

Lemma serve_list_spec fuel s l1 rest : rep s (l1 ++ rest) → fds_ok rest → desc_ok (cs_desc s) → (length rest ≤ fuel)%nat →
  let r := serve_q stop (conn <$> rest) (queue (cs_desc s)) in
  swp (serve_list max_fd fuel max skip handle (first rest)) s (λ a s', a = r.1 ∧ (∃ cl', rep s' cl' ∧ related (l1 ++ rest) cl') ∧
    desc_ok (cs_desc s') ∧ ∀ fd, queue (cs_desc s') fd = r.2 fd).
Proof.
  revert s l1 rest. induction fuel as [|fuel IH]; intros s l1 [|[p b] rest] Hr Hfds Hok Hl; try (by cbn in Hl; lia).
  1,2: apply swp_ret; split; [done|]; split; [exists (l1 ++ []); split; [done|apply related_refl]|done].
  cbn in Hl. destruct (rep_at _ _ _ _ _ Hr) as (n & Hn & -> & Hp0 & _). apply Forall_cons in Hfds as [Hfd Hfds]. cbn [snd] in Hfd. rewrite body_fd in Hfd. cbn [first serve_list]. rewrite (proj2 (Z.eqb_neq p 0) Hp0).
  cbn [fmap list_fmap]. cbv zeta. set (x := conn (p, body n)). assert (x = (p, x.2)) as Ex by done. rewrite Ex. cbn [serve_q].
  apply swp_bind. eapply swp_mono; [by apply (take_request_spec s p n)|]. cbv zeta. fold x.
  intros line s1 (-> & Hfr & Hok1 & Hq1). destruct (take_q x.2 (queue (cs_desc s))) as [line q1]. cbn [fst snd] in Hq1 |- *.
  pose proof (frame_rep _ _ _ Hfr Hr) as Hr1. apply swp_bind.
  apply swp_mono with (Q := λ go s', go = (match line with None => true | Some l => negb (stop l) end) ∧
    (∃ cl', rep s' cl' ∧ related (l1 ++ (p, body n) :: rest) cl') ∧ desc_ok (cs_desc s') ∧ ∀ fd, queue (cs_desc s') fd = q1 fd).
  { destruct line as [l|].
    - eapply swp_mono; [apply (Hh p l s1 _ Hr1 Hok1); rewrite fmap_app; set_solver|]. intros go s2 (-> & Hcl & Hok2 & Hq2).
      split; [done|]. split; [done|]. split; [done|]. intros fd. by rewrite Hq2.
    - apply swp_ret. split; [done|]. split; [|done]. eexists. split; [done|apply related_refl]. }
  intros go s2 (-> & (cl2 & Hr2 & Hrel) & Hok2 & Hq2).
  assert (match line with None => true | Some l => negb (stop l) end = false → ∃ l, line = Some l ∧ stop l = true) as Hstop.
  { destruct line as [l|]; [|done]. intros E%negb_false_iff. eauto. }
  destruct (match line with None => true | Some l => negb (stop l) end) eqn:Ego.
  2:{ destruct Hstop as (l & -> & ->); [done|]. apply swp_ret. split; [done|]. split; [eauto|done]. }
  apply Forall2_app_inv_l in Hrel as (l2 & r2 & Hrel1 & Hrel2 & ->). apply Forall2_cons_inv_l in Hrel2 as ([p2 b2] & rest2 & [E2 HR2] & Hrel2 & ->).
  cbn [fst snd] in *. subst p2. destruct (rep_at _ _ _ _ _ Hr2) as (n2 & Hn2 & -> & _ & Hnx). apply swp_bind. eapply swp_load; [done|]. rewrite Hnx.
  assert (rep s2 ((l2 ++ [(p, body n2)]) ++ rest2)) as Hr3 by (by rewrite <-(assoc_L (++))).
  pose proof (Forall2_length _ _ _ Hrel2) as Hlen. apply swp_bind. eapply swp_mono; [apply (IH s2 _ _ Hr3 (related_fds _ _ Hrel2 Hfds) Hok2); lia|]. cbv zeta.
  rewrite (related_conn rest rest2 Hrel2). destruct (serve_q_ext stop (conn <$> rest) _ q1 Hq2) as [E3 E4]. rewrite E3.
  assert (line = None ∨ ∃ l, line = Some l ∧ stop l = false) as Hline.
  { destruct line as [l|]; [|by left]. right. apply negb_true_iff in Ego. eauto. }
  destruct (serve_q stop (conn <$> rest) q1) as [[ls g] q2]. cbn [fst snd] in E4 |- *.
  intros [ls' g'] s3 ([= -> ->] & (cl3 & Hr4 & Hrel4) & Hok3 & Hq3). apply swp_ret.
  split; [destruct Hline as [->|(l & -> & ->)]; done|]. split.
  - exists cl3. split; [done|]. eapply related_trans; [|exact Hrel4]. rewrite <-(assoc_L (++)). apply Forall2_app; [done|].
    cbn [app]. constructor; [done|done].
  - split; [done|]. intros fd. rewrite Hq3, E4. destruct Hline as [->|(l & -> & ->)]; done.
Qed.
Lemma serve_spec s cl : rep s cl → fds_ok cl → desc_ok (cs_desc s) →
  let r := serve_q stop (conn <$> cl) (queue (cs_desc s)) in
  swp (serve max_fd max skip handle) s (λ a s', a = r.1 ∧ (∃ cl', rep s' cl' ∧ related cl cl') ∧
    desc_ok (cs_desc s') ∧ ∀ fd, queue (cs_desc s') fd = r.2 fd).
Proof.
  intros Hr Hfds Hok. unfold serve. eapply swp_on_list; [done|]. intros fuel Hl. rewrite (rep_first s cl Hr).
  by apply (serve_list_spec fuel s [] cl).
Qed.
End handled.
End timer.
End serve.

(** * Streams of requests

    Bytes arrive and timer rounds run in any order; this file follows one
    connection through them. *)

(** ** One connection by itself

    [Some bs] is the arrival of [bs], [None] a round of the timer. *)
Definition olist {A} (o : option A) : list A := match o with Some a => [a] | None => [] end.
Fixpoint line_run (max : Z) (q : list byte) (evs : list (option (list byte))) : list (list byte) * list byte :=
  match evs with
  | [] => ([], q)
  | Some bs :: evs => line_run max (q ++ bs) evs
  | None :: evs =>
     let '(line, q) := take_line max q in
     let '(ls, q) := line_run max q evs in
     (olist line ++ ls, q)
  end.
Definition arrived (evs : list (option (list byte))) : list byte := concat (omap id evs).
Definition rounds (evs : list (option (list byte))) : nat := length (filter (λ e, e = None) evs).
Definition lines_text (ls : list (list byte)) : list byte := concat ((λ l, l ++ [x0a]) <$> ls).
Definition newlines (l : list byte) : nat := length (filter (λ c, c = x0a) l).

Lemma newlines_0 l : x0a ∉ l → newlines l = 0%nat.
Proof.
  intros Hl. unfold newlines. induction l as [|c l IH]; [done|]. apply not_elem_of_cons in Hl as [Hc Hl].
  rewrite filter_cons_False by done. auto.
Qed.
Lemma newlines_app l l' : newlines (l ++ l') = (newlines l + newlines l')%nat.
Proof. unfold newlines. by rewrite filter_app, length_app. Qed.

(** Streams without zero bytes whose queue stays below the limit. *)
Lemma take_line_text max l : x00 ∉ l → zlen l ≤ max →
  let '(o, r) := take_line max l in
  l = lines_text (olist o) ++ r ∧ (x0a ∈ l → o ≠ None) ∧ newlines l = (length (olist o) + newlines r)%nat ∧ (o = None → x0a ∉ r).
Proof.
  intros H0 Hl. unfold take_line. destruct (cut_line l) as [[a b]|] eqn:E.
  - apply cut_line_spec in E as [-> Ha]. rewrite length_app in Hl. cbn in Hl. rewrite (proj2 (Z.ltb_ge max (zlen a))) by lia.
    rewrite decide_False by (intros Hin; apply H0; set_solver). cbn [olist lines_text fmap list_fmap concat].
    split; [by rewrite app_nil_r, <-(assoc_L (++))|]. split; [done|]. split; [|done].
    rewrite newlines_app, (newlines_0 a Ha). unfold newlines at 1. rewrite filter_cons_True by done. done.
  - apply cut_line_None in E. rewrite (proj2 (Z.ltb_ge max (zlen l))) by lia. cbn. done.
Qed.
Lemma take_line_le max l : (length (take_line max l).2 ≤ length l)%nat.
Proof.
  unfold take_line. destruct (cut_line l) as [[a b]|] eqn:E.
  - apply cut_line_spec in E as [-> _]. destruct (max <? zlen a); [|destruct (decide _)]; cbn [snd]; rewrite length_app; cbn; lia.
  - destruct (max <? zlen l); cbn; lia.
Qed.

Lemma line_run_text max q evs : x00 ∉ q ++ arrived evs → zlen (q ++ arrived evs) ≤ max →
  q ++ arrived evs = lines_text (line_run max q evs).1 ++ (line_run max q evs).2.
Proof.
  revert q. induction evs as [|[bs|] evs IH]; intros q H0 Hl; cbn [line_run].
  - unfold arrived. cbn. by rewrite app_nil_r.
  - unfold arrived in *. cbn [omap list_omap id concat] in *. rewrite (assoc_L (++)) in *. by apply IH.
  - unfold arrived in *. cbn [omap list_omap id] in *. rewrite length_app in Hl.
    pose proof (take_line_text max q) as Ht. destruct (take_line max q) as [o r]. destruct Ht as (Eq & _); [set_solver|lia|].
    assert (x00 ∉ r ++ concat (omap id evs)) as H0' by (rewrite Eq in H0; set_solver).
    assert (zlen (r ++ concat (omap id evs)) ≤ max) as Hl'.
    { rewrite length_app. apply (f_equal length) in Eq. rewrite length_app in Eq. lia. }
    specialize (IH r H0' Hl'). destruct (line_run max r evs) as [ls q']. cbn [fst snd] in *. rewrite Eq, <-(assoc_L (++)), IH.
    unfold lines_text. rewrite fmap_app, concat_app. by rewrite <-(assoc_L (++)).
Qed.
Lemma line_run_nl max q evs : Forall (λ l, x0a ∉ l) (line_run max q evs).1.
Proof.
  revert q. induction evs as [|[bs|] evs IH]; intros q; cbn [line_run]; [constructor|apply IH|].
  destruct (take_line max q) as [o r] eqn:Et. specialize (IH r). destruct (line_run max r evs) as [ls q']. cbn [fst] in *.
  apply Forall_app. split; [|done]. destruct o as [l|]; [|constructor]. constructor; [|constructor]. unfold take_line in Et.
  destruct (cut_line q) as [[a b]|] eqn:Ec; [|done]. apply cut_line_spec in Ec as [_ Ha]. destruct (max <? zlen a); [done|].
  by destruct (decide (x00 ∈ a)); simplify_eq.
Qed.
(** A line with a zero byte before its end stays at the head of the queue. *)
Lemma line_run_stuck max a r evs : x0a ∉ a → x00 ∈ a → zlen a ≤ max →
  line_run max (a ++ x0a :: r) evs = ([], (a ++ x0a :: r) ++ arrived evs).
Proof.
  intros Ha H0 Hl. revert r. induction evs as [|[bs|] evs IH]; intros r; cbn [line_run].
  - unfold arrived. cbn. by rewrite app_nil_r.
  - unfold arrived. cbn [omap list_omap id concat]. rewrite <-(assoc_L (++)). cbn [app]. rewrite IH. f_equal. rewrite <-!(assoc_L (++)). cbn [app].
    by rewrite <-!(assoc_L (++)).
  - unfold take_line. rewrite cut_line_app by done. rewrite (proj2 (Z.ltb_ge max (zlen a))) by lia. rewrite decide_True by done.
    rewrite IH. done.
Qed.
(** Enough rounds empty the queue of lines. *)
Lemma line_run_rounds max q evs k : x00 ∉ q ++ arrived evs → zlen (q ++ arrived evs) ≤ max → (newlines (q ++ arrived evs) ≤ k)%nat →
  x0a ∉ (line_run max q (evs ++ replicate k None)).2.
Proof.
  intros H0 Hl Hk. assert (∀ k q, x00 ∉ q → zlen q ≤ max → (newlines q ≤ k)%nat → x0a ∉ (line_run max q (replicate k None)).2) as Hrep.
  { clear. induction k as [|k IH]; intros q H0 Hl Hk.
    - cbn. unfold newlines in Hk. intros Hin. assert (x0a ∈ filter (λ c, c = x0a) q) as Hf by (by apply list_elem_of_filter).
      apply list_elem_of_lookup_1 in Hf as [i Hi]. apply lookup_lt_Some in Hi. lia.
    - cbn [replicate line_run]. pose proof (take_line_text max q H0 Hl) as Ht. pose proof (take_line_le max q) as Hle.
      destruct (take_line max q) as [o r]. destruct Ht as (Eq & Hin & Hn & Hnone). cbn [snd] in Hle.
      assert (x0a ∉ (line_run max r (replicate k None)).2) as Hr; [|by destruct (line_run max r _)].
      apply IH; [rewrite Eq in H0; set_solver|lia|]. destruct o as [l|]; [cbn in Hn; lia|].
      rewrite newlines_0 by (by apply Hnone). lia. }
  revert q H0 Hl Hk. induction evs as [|[bs|] evs IH]; intros q H0 Hl Hk; cbn [app line_run].
  - unfold arrived in *. cbn in *. rewrite app_nil_r in *. by apply Hrep.
  - unfold arrived in *. cbn [omap list_omap id concat] in *. rewrite (assoc_L (++)) in *. by apply IH.
  - unfold arrived in *. cbn [omap list_omap id] in *. rewrite length_app in Hl. pose proof (take_line_text max q) as Ht.
    pose proof (take_line_le max q) as Hle. destruct (take_line max q) as [o r]. destruct Ht as (Eq & _ & Hn & _); [set_solver|lia|]. cbn [snd] in Hle.
    assert (x0a ∉ (line_run max r (evs ++ replicate k None)).2) as Hr; [|by destruct (line_run max r _)].
    apply IH; [rewrite Eq in H0; set_solver|rewrite length_app; lia|]. rewrite newlines_app in *. lia.
Qed.

(** ** The service as a whole *)
Inductive event := EData (fd : Z) (bs : list byte) | ETick (now : Z).
(** What the connection on [f] sees of the events. *)
Definition seen (f : Z) (e : event) : option (option (list byte)) :=
  match e with EData fd bs => if decide (fd = f) then Some (Some bs) else None | ETick _ => Some None end.
Definition view (f : Z) (evs : list event) : list (option (list byte)) := omap (seen f) evs.
Fixpoint traffic (evs : list event) : Z :=
  match evs with [] => 0 | EData _ bs :: evs => zlen bs + traffic evs | ETick _ :: evs => traffic evs end.
Lemma traffic_nonneg evs : 0 ≤ traffic evs.
Proof. induction evs as [|[]]; cbn [traffic]; lia. Qed.
Lemma traffic_ticks evs n now : traffic (evs ++ replicate n (ETick now)) = traffic evs.
Proof. induction evs as [|[]]; cbn [app traffic]; [|lia|done]. induction n; cbn [replicate traffic]; done. Qed.
Lemma view_ticks f evs n now : view f (evs ++ replicate n (ETick now)) = view f evs ++ replicate n None.
Proof. unfold view. rewrite omap_app. f_equal. induction n; [done|]. cbn. by f_equal. Qed.
Lemma arrived_ticks evs n : arrived (evs ++ replicate n None) = arrived evs.
Proof. unfold arrived. rewrite omap_app. assert (omap id (replicate n (None (A := list byte))) = []) as -> by (by induction n). by rewrite app_nil_r. Qed.
Definition requests (p : Z) (ls : list (Z * list byte)) : list (list byte) := (filter (λ x, x.1 = p) ls).*2.
Lemma requests_app p ls ls' : requests p (ls ++ ls') = requests p ls ++ requests p ls'.
Proof. unfold requests. by rewrite filter_app, fmap_app. Qed.

(** *** Queues *)
Definition smaller (q q' : Z → option (list byte)) : Prop :=
  ∀ fd l', q' fd = Some l' → ∃ l, q fd = Some l ∧ (length l' ≤ length l)%nat.
Lemma smaller_refl q : smaller q q.
Proof. intros fd l Hl. eauto. Qed.
Lemma smaller_trans q q' q'' : smaller q q' → smaller q' q'' → smaller q q''.
Proof. intros H1 H2 fd l (l' & Hl' & ?)%H2. apply H1 in Hl' as (l'' & ? & ?). exists l''. split; [done|lia]. Qed.
Lemma take_q_smaller max fd q : smaller q (take_q max fd q).2.
Proof.
  unfold take_q. destruct fd as [fd|]; [|apply smaller_refl]. destruct (q fd) as [l|] eqn:E; [|apply smaller_refl].
  pose proof (take_line_le max l) as Hle. destruct (take_line max l) as [o r]. cbn [snd] in *. intros fd' l'.
  destruct (decide (fd = fd')) as [<-|]; [rewrite fn_lookup_insert; intros [= <-]; eauto|].
  rewrite fn_lookup_insert_ne by done. eauto.
Qed.
Lemma serve_q_smaller max stop conns q : smaller q (serve_q max stop conns q).2.
Proof.
  revert q. induction conns as [|[p fd] conns IH]; intros q; [apply smaller_refl|]. cbn [serve_q].
  pose proof (take_q_smaller max fd q) as Ht. destruct (take_q max fd q) as [o q1]. cbn [snd] in Ht.
  destruct o as [l|]; [|by eapply smaller_trans]. destruct (stop l); [done|]. specialize (IH q1).
  destruct (serve_q max stop conns q1) as [[r g] q2]. by eapply smaller_trans.
Qed.
(** A round touches the queues of the connections only. *)
Lemma take_q_other max fd q f : fd ≠ Some f → (take_q max fd q).2 f = q f.
Proof.
  intros Hne. unfold take_q. destruct fd as [fd|]; [|done]. destruct (q fd) as [l|]; [|done]. destruct (take_line max l).
  cbn. apply fn_lookup_insert_ne. congruence.
Qed.
Lemma serve_q_other max conns q p f : p ∉ conns.*1 → Some f ∉ conns.*2 →
  let '(ls, go, q') := serve_q max (λ _, false) conns q in requests p ls = [] ∧ q' f = q f ∧ go = true.
Proof.
  revert q. induction conns as [|[p' fd] conns IH]; intros q Hp Hf; [done|]. cbn [serve_q fmap list_fmap fst snd] in *.
  apply not_elem_of_cons in Hp as [Hp Hps]. apply not_elem_of_cons in Hf as [Hf Hfs].
  pose proof (take_q_other max fd q f ltac:(congruence)) as Ho. destruct (take_q max fd q) as [o q1]. cbn [snd] in Ho.
  specialize (IH q1 Hps Hfs). destruct (serve_q max _ conns q1) as [[ls go] q2]. destruct IH as (Hls & Hq & Hgo).
  destruct o as [l|]; (split; [|split; [congruence|done]]); [|done]. unfold requests. rewrite filter_cons_False by (cbn; congruence). done.
Qed.
(** The connection on [f], held by the client at [p]. *)
Lemma serve_q_track max c1 c2 p f q l : NoDup (c1 ++ (p, Some f) :: c2).*1 → Some f ∉ c1.*2 → Some f ∉ c2.*2 → q f = Some l →
  let '(ls, go, q') := serve_q max (λ _, false) (c1 ++ (p, Some f) :: c2) q in
  requests p ls = olist (take_line max l).1 ∧ q' f = Some (take_line max l).2 ∧ go = true.
Proof.
  intros Hnd Hf1 Hf2. revert q. induction c1 as [|[p' fd] c1 IH]; intros q Hq; cbn [app serve_q fmap list_fmap fst snd] in *.
  - apply NoDup_cons in Hnd as [Hp _]. unfold take_q. rewrite Hq. destruct (take_line max l) as [o r]. cbn [fst snd].
    pose proof (serve_q_other max c2 (<[f := Some r]> q) p f Hp Hf2) as Ho.
    destruct (serve_q max _ c2 _) as [[ls go] q2]. destruct Ho as (Hls & Hqf & ->). rewrite fn_lookup_insert in Hqf.
    destruct o as [x|]; cbn [olist]; (split; [|done]); [|done]. unfold requests in *. rewrite filter_cons_True by done.
    cbn [fmap list_fmap snd]. by f_equal.
  - apply NoDup_cons in Hnd as [Hp Hnd]. apply not_elem_of_cons in Hf1 as [Hf Hf1].
    pose proof (take_q_other max fd q f ltac:(congruence)) as Ho. destruct (take_q max fd q) as [o q1]. cbn [snd] in Ho.
    specialize (IH Hnd Hf1 q1 ltac:(congruence)). destruct (serve_q max _ _ q1) as [[ls go] q2]. destruct IH as (Hls & Hqf & ->).
    destruct o as [x|]; [|done]. split; [|done]. unfold requests in *. rewrite filter_cons_False; [done|]. cbn. intros ->.
    apply Hp. rewrite fmap_app. cbn. set_solver.
Qed.

Section stream.
Context {N : Type} `{ClientOk N} `{Heap} (max_fd : Z).
Implicit Types (s : cst N) (cl : list (Z * N)).
Hypothesis heap_full : ∀ n, heap_ok n = true.

(** The network layer puts bytes on the read queue of a descriptor. *)
Definition rbuff_add (fd : Z) (bs : list byte) : SM (cst N) unit :=
  dt ← sopt (λ s, descriptor_rbuff_add max_fd fd bs (cs_desc s)); smod (set_desc dt).
Fixpoint run (tick : Z → SM (cst N) (list (Z * list byte))) (evs : list event) : SM (cst N) (list (Z * list byte)) :=
  match evs with
  | [] => mret []
  | EData fd bs :: evs => _ ← rbuff_add fd bs; run tick evs
  | ETick now :: evs => l ← tick now; ls ← run tick evs; mret (l ++ ls)
  end.

(** Bytes arrive on descriptors. *)
Definition evs_ok (evs : list event) : Prop := Forall (λ e, match e with EData fd _ => 0 ≤ fd | ETick _ => True end) evs.
Definition bounded (dt : dtab) (k : Z) : Prop := ∀ fd l, queue max_fd dt fd = Some l → zlen l ≤ k.

Lemma rbuff_add_spec fd bs s k : 0 ≤ fd → desc_ok (cs_desc s) → bounded (cs_desc s) k → k + zlen bs + 1 < 2 ^ 31 - 32768 →
  swp (rbuff_add fd bs) s (λ _ s', frame s s' ∧ desc_ok (cs_desc s') ∧
    ∀ fd', queue max_fd (cs_desc s') fd' = if decide (fd' = fd) then (λ l, l ++ bs) <$> queue max_fd (cs_desc s) fd else queue max_fd (cs_desc s) fd').
Proof.
  intros Hfd Hok Hb Hk. destruct (do_table _ Hok) as [t Ht]. unfold rbuff_add.
  assert (dt_alloc (cs_desc s) = t) as Ea by (unfold dt_alloc; by rewrite Ht).
  assert (∀ fd', (if decide (fd' = fd) then (λ l : list byte, l ++ []) <$> queue max_fd (cs_desc s) fd else queue max_fd (cs_desc s) fd') = queue max_fd (cs_desc s) fd') as Hnil.
  { intros fd'. destruct (decide (fd' = fd)) as [->|]; [|done]. destruct (queue max_fd (cs_desc s) fd); [|done]. cbn. by rewrite app_nil_r. }
  assert (∀ fd', queue max_fd (cs_desc s) fd = None →
    (if decide (fd' = fd) then (λ l : list byte, l ++ bs) <$> queue max_fd (cs_desc s) fd else queue max_fd (cs_desc s) fd') = queue max_fd (cs_desc s) fd') as Hnone.
  { intros fd' E. destruct (decide (fd' = fd)) as [->|]; [|done]. by rewrite E. }
  apply swp_bind. unfold descriptor_rbuff_add. destruct (max_fd <=? fd) eqn:Em.
  { eapply swp_opt; [done|]. apply swp_mod. split; [done|]. split; [done|]. intros fd'. symmetry. apply Hnone. unfold queue. by rewrite Em. }
  destruct (Z.leb_spec (zlen bs) 0) as [Hz|Hz].
  { eapply swp_opt; [done|]. apply swp_mod. split; [done|]. split; [done|]. intros fd'. symmetry.
    assert (bs = []) as -> by (apply nil_length_inv; lia). apply Hnil. }
  rewrite (proj2 (Z.ltb_ge fd 0) Hfd). set (d := dt_slot t fd). destruct (d_flag d =? 0) eqn:Ef.
  { eapply swp_opt; [by rewrite Ht; fold d; rewrite Ef|]. apply swp_mod. split; [done|]. split; [done|]. intros fd'. symmetry. apply Hnone.
    unfold queue. rewrite Em, Ea. fold d. by rewrite Ef. }
  eapply swp_opt; [by rewrite Ht; fold d; rewrite Ef|]. apply swp_mod. split; [done|]. cbn [cs_desc set_desc].
  assert (queue max_fd (cs_desc s) fd = Some (rdata d)) as Eq by (unfold queue; rewrite Em, Ea; fold d; by rewrite Ef).
  pose proof (Hb _ _ Eq) as Hle. set (b := default shbuf_init (d_rbuff d)).
  assert (shbuf_wf b ∧ default [] (data b) = rdata d) as [Hwf Eb].
  { unfold b, rdata. destruct (d_rbuff d) as [b'|] eqn:Er; [|split; [apply shbuf_init_wf|done]]. split; [|done].
    apply (do_wf _ Hok fd). by rewrite Ea. }
  destruct (put_rbuff_ok max_fd (cs_desc s) fd d (shbuf_cat b bs) Hok) as [Hok' Hq'].
  { by rewrite Ea. }
  { apply shbuf_cat_wf; [done|]. unfold data_of. rewrite Eb. lia. }
  split; [done|]. intros fd'. rewrite Hq', Eq. rewrite shbuf_cat_data; [|done|unfold data_of; rewrite Eb; lia|done].
  rewrite Eb. destruct (decide (fd' = fd)) as [->|]; [|by rewrite decide_False by tauto]. rewrite decide_True by (split; [done|by eexists]). done.
Qed.

Section service.
Variables (max : Z) (skip : N → bool) (judge : Z → N → verdict).
Hypothesis Hmax : 0 ≤ max.
Hypothesis skip_next : ∀ n z, skip (c_set_next z n) = skip n.
Hypothesis judge_next : ∀ now n z, judge now (c_set_next z n) = judge now n.
Variable R : N → N → Prop.
Hypothesis R_refl : ∀ n, R n n.
Hypothesis R_trans : ∀ a b c, R a b → R b c → R a c.
Hypothesis R_fd : ∀ n n', R n n' → c_fd n' = c_fd n ∧ skip n' = skip n.
Hypothesis R_judge : ∀ n n', R n n' → (∀ now, judge now n = VKeep) → ∀ now, judge now n' = VKeep.
Variable handle : Z → list byte → SM (cst N) bool.
Hypothesis Hh : handler_ok max_fd R handle (λ _, false).

Definition tick (now : Z) : SM (cst N) (list (Z * list byte)) :=
  '(l, _) ← serve max_fd max skip handle; _ ← close_free (judge now); mret l.

(** The client at [p] is served and holds the connection [f] alone. *)
Definition held cl p f : Prop :=
  (∃ n, (p, n) ∈ cl ∧ c_fd n = f ∧ skip n = false ∧ ∀ now, judge now n = VKeep) ∧ f ≠ -1 ∧
  ∀ q m, (q, m) ∈ cl → c_fd m = f → q = p.

Lemma related_elem cl cl' p n : related R cl cl' → (p, n) ∈ cl → ∃ n', (p, n') ∈ cl' ∧ R n n'.
Proof.
  intros Hr Hin. apply list_elem_of_lookup_1 in Hin as [i Hi]. destruct (Forall2_lookup_l _ _ _ _ _ Hr Hi) as ([p' n'] & Hi' & E & HR).
  cbn [fst snd] in *. subst p'. exists n'. split; [by eapply list_elem_of_lookup_2|done].
Qed.
Lemma related_elem_r cl cl' p n' : related R cl cl' → (p, n') ∈ cl' → ∃ n, (p, n) ∈ cl ∧ R n n'.
Proof.
  intros Hr Hin. apply list_elem_of_lookup_1 in Hin as [i Hi]. destruct (Forall2_lookup_r _ _ _ _ _ Hr Hi) as ([p' n] & Hi' & E & HR).
  cbn [fst snd] in *. subst p'. exists n. split; [by eapply list_elem_of_lookup_2|done].
Qed.
Lemma held_related cl cl' p f : related R cl cl' → held cl p f → held cl' p f.
Proof.
  intros Hr ((n & Hin & Hfd & Hs & Hj) & Hf & Hu). destruct (related_elem _ _ _ _ Hr Hin) as (n' & Hin' & HR).
  destruct (R_fd _ _ HR) as [Efd Es]. split; [exists n'; split_and!; [done|congruence|congruence|by apply (R_judge n)]|]. split; [done|].
  intros q m' Hm' Ef. destruct (related_elem_r _ _ _ _ Hr Hm') as (m & Hm & HRm). destruct (R_fd _ _ HRm) as [Em _].
  apply (Hu q m); [done|congruence].
Qed.
Lemma held_sweep now cl p f : held cl p f → held (sweep (judge now) [] cl) p f.
Proof.
  intros ((n & Hin & Hfd & Hs & Hj) & Hf & Hu). split; [|split; [done|]].
  - exists n. split; [by apply sweep_keep|done].
  - intros q m Hm. apply Hu. by apply sweep_sub in Hm.
Qed.
Lemma sweep_fds now cl : fds_ok cl → fds_ok (sweep (judge now) [] cl).
Proof. unfold fds_ok. rewrite !Forall_forall. intros Hf [q m] Hm. apply sweep_sub in Hm. by apply (Hf (q, m)). Qed.
(** The connections around the one on [f]. *)
Lemma held_conns cl p f : NoDup cl.*1 → held cl p f →
  ∃ c1 c2, conn skip <$> cl = c1 ++ (p, Some f) :: c2 ∧ Some f ∉ c1.*2 ∧ Some f ∉ c2.*2 ∧ NoDup (c1 ++ (p, Some f) :: c2).*1.
Proof.
  intros Hnd ((n & Hin & Hfd & Hs & _) & Hf & Hu). apply list_elem_of_split in Hin as (l1 & l2 & ->).
  exists (conn skip <$> l1), (conn skip <$> l2). assert (conn skip (p, n) = (p, Some f)) as Ec.
  { unfold conn. cbn [fst snd]. rewrite Hs, Hfd, (proj2 (Z.eqb_neq f (-1)) Hf). done. }
  assert (conn skip <$> (l1 ++ (p, n) :: l2) = (conn skip <$> l1) ++ (p, Some f) :: (conn skip <$> l2)) as E.
  { rewrite fmap_app. cbn [fmap list_fmap]. by rewrite Ec. }
  assert (∀ l : list (Z * N), (conn skip <$> l).*1 = l.*1) as Efst by (intros l; rewrite <-list_fmap_compose; by apply list_fmap_ext).
  split; [done|]. rewrite <-E, Efst. rewrite fmap_app in Hnd. cbn [fmap list_fmap fst] in Hnd.
  pose proof Hnd as (_ & Hd & Hnd2)%NoDup_app. apply NoDup_cons in Hnd2 as [Hp2 _].
  assert (∀ l, (∀ x, x ∈ l → x ∈ l1 ++ (p, n) :: l2) → p ∉ l.*1 → Some f ∉ (conn skip <$> l).*2) as Hother.
  { intros l Hsub Hp. intros ([a o] & Ea & ([q m] & Eq & Hin)%list_elem_of_fmap)%list_elem_of_fmap. cbn [snd] in Ea. subst o.
    unfold conn in Eq. cbn [fst snd] in Eq. destruct (_ || _); [done|]. injection Eq as -> Eq. apply Hp.
    rewrite <-(Hu q m); [by apply (list_elem_of_fmap_2 fst l (q, m))|by apply Hsub|done]. }
  split_and!; [apply Hother; [set_solver|]|apply Hother; [set_solver|done]|by rewrite fmap_app].
  intros Hin. apply (Hd p Hin). left.
Qed.

Lemma tick_spec now s cl p f l k : rep s cl → fds_ok cl → desc_ok (cs_desc s) → held cl p f → queue max_fd (cs_desc s) f = Some l → bounded (cs_desc s) k →
  swp (tick now) s (λ ls s', requests p ls = olist (take_line max l).1 ∧ queue max_fd (cs_desc s') f = Some (take_line max l).2 ∧
    (∃ cl', rep s' cl' ∧ fds_ok cl' ∧ held cl' p f) ∧ desc_ok (cs_desc s') ∧ bounded (cs_desc s') k).
Proof.
  intros Hr Hfds Hok Hheld Hq Hb. unfold tick. apply swp_bind.
  eapply swp_mono; [apply (serve_spec max_fd max skip Hmax skip_next R R_refl R_trans R_fd handle (λ _, false) Hh s cl Hr Hfds Hok)|].
  cbv zeta. destruct (held_conns cl p f (rep_nodup _ _ Hr) Hheld) as (c1 & c2 & -> & Hf1 & Hf2 & Hnd).
  pose proof (serve_q_track max c1 c2 p f (queue max_fd (cs_desc s)) l Hnd Hf1 Hf2 Hq) as Ht.
  pose proof (serve_q_smaller max (λ _, false) (c1 ++ (p, Some f) :: c2) (queue max_fd (cs_desc s))) as Hsm.
  destruct (serve_q max _ _ _) as [[ls go] q']. destruct Ht as (Hls & Hqf & ->). cbn [fst snd] in *.
  intros [ls' go'] s1 ([= -> ->] & (cl1 & Hr1 & Hrel) & Hok1 & Hq1). apply swp_bind.
  eapply swp_mono; [apply (close_free_spec (judge now) (judge_next now) s1 cl1 Hr1)|]. intros ? s2 (Hr2 & _ & Ed). apply swp_ret.
  rewrite Ed. split; [done|]. split; [by rewrite Hq1|]. split; [|split; [done|]].
  - eexists. split; [done|]. split; [by apply sweep_fds, (related_fds skip R R_fd cl)|]. apply held_sweep. by eapply held_related.
  - intros fd l'. rewrite Hq1. intros (l0 & Hl0 & Hle)%Hsm. apply Hb in Hl0. lia.
Qed.

(** Whatever the order of arrivals and rounds, the requests of a connection
    are those of its own stream. *)
Lemma run_spec evs s cl p f q k : rep s cl → fds_ok cl → evs_ok evs → desc_ok (cs_desc s) → held cl p f → queue max_fd (cs_desc s) f = Some q → bounded (cs_desc s) k →
  k + traffic evs + 1 < 2 ^ 31 - 32768 →
  swp (run tick evs) s (λ ls s', requests p ls = (line_run max q (view f evs)).1 ∧
    queue max_fd (cs_desc s') f = Some (line_run max q (view f evs)).2 ∧ (∃ cl', rep s' cl' ∧ held cl' p f) ∧ desc_ok (cs_desc s')).
Proof.
  revert s cl q k. induction evs as [|e evs IH]; intros s cl q k Hr Hfds Hevs Hok Hheld Hq Hb Hk; cbn [run].
  { apply swp_ret. split; [done|]. split; [done|]. split; [eauto|done]. }
  apply Forall_cons in Hevs as [He Hevs].
  pose proof (traffic_nonneg evs) as Hpos. destruct e as [fd bs|now]; apply swp_bind.
  - cbn [traffic] in Hk. eapply swp_mono; [apply (rbuff_add_spec fd bs s k He Hok Hb); lia|]. intros ? s1 (Hfr & Hok1 & Hq1).
    assert (bounded (cs_desc s1) (k + zlen bs)) as Hb1.
    { intros fd' l. rewrite Hq1. destruct (decide (fd' = fd)) as [->|]; [|intros Hl%Hb; lia].
      destruct (queue max_fd (cs_desc s) fd) as [l0|] eqn:E; [|done]. cbn. intros [= <-]. apply Hb in E. rewrite length_app. lia. }
    pose proof (frame_rep _ _ _ Hfr Hr) as Hr1. unfold view. cbn [omap list_omap seen]. destruct (decide (fd = f)) as [->|Hne].
    + cbn [line_run]. apply (IH s1 cl (q ++ bs) (k + zlen bs)); try done; [|lia]. rewrite Hq1, decide_True by done. by rewrite Hq.
    + apply (IH s1 cl q (k + zlen bs)); try done; [|lia]. rewrite Hq1, decide_False by congruence. done.
  - cbn [traffic] in Hk. eapply swp_mono; [by apply (tick_spec now s cl p f q k)|]. intros l s1 (Hl & Hq1 & (cl1 & Hr1 & Hfds1 & Hheld1) & Hok1 & Hb1).
    apply swp_bind. eapply swp_mono; [by apply (IH s1 cl1 (take_line max q).2 k)|]. intros ls s2 (Hls & Hq2 & Hcl & Hok2). apply swp_ret.
    unfold view. cbn [omap list_omap seen line_run]. rewrite requests_app, Hl, Hls. fold (view f evs).
    destruct (take_line max q) as [o r]. cbn [fst snd] in *. destruct (line_run max r (view f evs)) as [ls' q']. done.
Qed.

(** Once all has arrived, as many rounds as there are lines hand over every
    line, in order and once. *)
Lemma service_delivers evs n now s cl p f q k : rep s cl → fds_ok cl → evs_ok evs → desc_ok (cs_desc s) → held cl p f → queue max_fd (cs_desc s) f = Some q → bounded (cs_desc s) k →
  k + traffic evs + 1 < 2 ^ 31 - 32768 → let stream := q ++ arrived (view f evs) in
  x00 ∉ stream → zlen stream ≤ max → (newlines stream ≤ n)%nat →
  ∃ ls s' rest, run tick (evs ++ replicate n (ETick now)) s = Some (ls, s') ∧
    stream = lines_text (requests p ls) ++ rest ∧ Forall (λ l, x0a ∉ l) (requests p ls) ∧ x0a ∉ rest ∧
    queue max_fd (cs_desc s') f = Some rest ∧ ∃ cl', rep s' cl' ∧ held cl' p f.
Proof.
  intros Hr Hfds Hevs Hok Hheld Hq Hb Hk stream Hz Hl Hn. subst stream. rewrite <-(traffic_ticks evs n now) in Hk.
  assert (evs_ok (evs ++ replicate n (ETick now))) as Hevs' by (apply Forall_app; split; [exact Hevs|by apply Forall_replicate]).
  destruct (swp_run _ _ _ (run_spec _ s cl p f q k Hr Hfds Hevs' Hok Hheld Hq Hb Hk)) as (ls & s' & E & Hls & Hq' & Hcl & _).
  rewrite view_ticks in Hls, Hq'. exists ls, s', (line_run max q (view f evs ++ replicate n None)).2. split; [done|]. rewrite Hls.
  rewrite <-(arrived_ticks (view f evs) n) in Hz, Hl, Hn |- *. split; [by apply line_run_text|]. split; [apply line_run_nl|].
  split; [|done]. rewrite arrived_ticks in Hz, Hl, Hn. by apply line_run_rounds.
Qed.

(** A client that the service passes over has no requests. *)
Lemma serve_q_none stop conns q p : (∀ o, (p, o) ∈ conns → o = None) → requests p (serve_q max stop conns q).1.1 = [].
Proof.
  revert q. induction conns as [|[p' fd] conns IH]; intros q Hp; [done|]. cbn [serve_q].
  assert (∀ q, requests p (serve_q max stop conns q).1.1 = []) as Hrest by (intros q'; apply IH; intros o Ho; apply Hp; by right).
  destruct (decide (p' = p)) as [->|Hne].
  - rewrite (Hp fd) by left. cbn [take_q]. apply Hrest.
  - destruct (take_q max fd q) as [[l|] q1]; [|apply Hrest]. specialize (Hrest q1). destruct (stop l).
    + cbn [fst]. unfold requests. by rewrite filter_cons_False.
    + destruct (serve_q max stop conns q1) as [[ls go] q2]. cbn [fst] in *. unfold requests in *. by rewrite filter_cons_False.
Qed.
Lemma run_skipped evs s cl p k : rep s cl → fds_ok cl → evs_ok evs → desc_ok (cs_desc s) → (∀ n, (p, n) ∈ cl → skip n = true) → bounded (cs_desc s) k →
  k + traffic evs + 1 < 2 ^ 31 - 32768 →
  swp (run tick evs) s (λ ls s', requests p ls = []).
Proof.
  revert s cl k. induction evs as [|e evs IH]; intros s cl k Hr Hfds Hevs Hok Hs Hb Hk; cbn [run]; [by apply swp_ret|].
  apply Forall_cons in Hevs as [He Hevs].
  pose proof (traffic_nonneg evs) as Hpos. destruct e as [fd bs|now]; cbn [traffic] in Hk; apply swp_bind.
  - eapply swp_mono; [apply (rbuff_add_spec fd bs s k He Hok Hb); lia|]. intros ? s1 (Hfr & Hok1 & Hq1).
    apply (IH s1 cl (k + zlen bs)); [by eapply frame_rep|done|done|done|done| |lia]. intros fd' l. rewrite Hq1.
    destruct (decide (fd' = fd)) as [->|]; [|intros Hl%Hb; lia].
    destruct (queue max_fd (cs_desc s) fd) as [l0|] eqn:E; [|done]. cbn. intros [= <-]. apply Hb in E. rewrite length_app. lia.
  - unfold tick at 1. apply swp_bind.
    eapply swp_mono; [apply (serve_spec max_fd max skip Hmax skip_next R R_refl R_trans R_fd handle (λ _, false) Hh s cl Hr Hfds Hok)|].
    cbv zeta. pose proof (serve_q_none (λ _, false) (conn skip <$> cl) (queue max_fd (cs_desc s)) p) as Hnone.
    pose proof (serve_q_smaller max (λ _, false) (conn skip <$> cl) (queue max_fd (cs_desc s))) as Hsm.
    destruct (serve_q max _ _ _) as [[ls go] q']. cbn [fst snd] in *.
    intros [ls' go'] s1 ([= -> ->] & (cl1 & Hr1 & Hrel) & Hok1 & Hq1). apply swp_bind.
    eapply swp_mono; [apply (close_free_spec (judge now) (judge_next now) s1 cl1 Hr1)|]. intros ? s2 (Hr2 & _ & Ed). apply swp_ret.
    apply swp_bind. eapply swp_mono; [apply (IH s2 (sweep (judge now) [] cl1) k); [done|by apply sweep_fds, (related_fds skip R R_fd cl)|done|by rewrite Ed| | |done]|].
    + intros n Hn. apply sweep_sub in Hn. destruct (related_elem_r _ _ _ _ Hrel Hn) as (n0 & Hn0 & HR). destruct (R_fd _ _ HR) as [_ ->]. auto.
    + rewrite Ed. intros fd l'. rewrite Hq1. intros (l0 & Hl0 & Hle)%Hsm. apply Hb in Hl0. lia.
    + intros ls2 s3 Hls2. apply swp_ret. rewrite requests_app, Hls2, app_nil_r. apply Hnone.
      intros o ([q n] & E & Hin)%list_elem_of_fmap. unfold conn in E. cbn [fst snd] in E. injection E as -> ->. rewrite (Hs n Hin). by rewrite orb_true_r.
Qed.
End service.
End stream.
