(* ===== verification/ServSpec.v ===== *)
(** * The services: specifications

    What a request handler promises to the timers ([Keeps]), and the users of
    the stratum service: how many come from one address, and how the shares of
    idle workers are merged. *)

From stdpp Require Import functions.
From S2P Require Import Prelude Errors Shbuf Descriptor Hmac Key Opt Links Clients Services ClientsSpec ClientsServe.

(** ** Handlers

    A handler that runs for the client at [p] keeps the list, relates each
    record to what it was, and leaves the read queues alone. *)
Section keeps.
Context {N : Type} `{ClientOk N} `{Heap} (max_fd : Z) (R : N → N → Prop).
Implicit Types (s : cst N) (cl : list (Z * N)).
Definition kept s cl s' : Prop :=
  (∃ cl', rep s' cl' ∧ related R cl cl') ∧ desc_ok (cs_desc s') ∧ ∀ fd, queue max_fd (cs_desc s') fd = queue max_fd (cs_desc s) fd.
Class Keeps (p : Z) {A} (m : SM (cst N) A) : Prop :=
  keeps s cl : rep s cl → desc_ok (cs_desc s) → p ∈ cl.*1 → swp m s (λ _ s', kept s cl s').

Hypothesis R_refl : ∀ n, R n n.
Hypothesis R_trans : ∀ a b c, R a b → R b c → R a c.
Lemma related_fst cl cl' : related R cl cl' → cl'.*1 = cl.*1.
Proof. induction 1 as [|x y cl cl' [E _] Hr IH]; [done|]. cbn. by rewrite E, IH. Qed.
Lemma kept_refl s cl : rep s cl → desc_ok (cs_desc s) → kept s cl s.
Proof. intros Hr Hok. split; [|done]. exists cl. split; [done|by apply related_refl]. Qed.
Lemma keeps_ret p {A} (a : A) : Keeps p (mret a).
Proof. intros s cl Hr Hok _. apply swp_ret. by apply kept_refl. Qed.
Lemma keeps_bind p {A B} (m : SM (cst N) A) (k : A → SM (cst N) B) : Keeps p m → (∀ a, Keeps p (k a)) → Keeps p (m ≫= k).
Proof.
  intros Hm Hk s cl Hr Hok Hp. apply swp_bind. eapply swp_mono; [by apply Hm|]. intros a s1 ((cl1 & Hr1 & Hrel1) & Hok1 & Hq1).
  eapply swp_mono; [apply (Hk a s1 cl1 Hr1 Hok1); by rewrite (related_fst _ _ Hrel1)|].
  intros b s2 ((cl2 & Hr2 & Hrel2) & Hok2 & Hq2). split; [|split; [done|]].
  - exists cl2. split; [done|]. by eapply related_trans.
  - intros fd. by rewrite Hq2.
Qed.
Lemma keeps_load p : Keeps p (node_load p).
Proof.
  intros s cl Hr Hok Hp. destruct (rep_elem s cl p Hr Hp) as (n & Hn & _). eapply swp_load; [done|]. by apply kept_refl.
Qed.
Lemma keeps_handler (handle : Z → list byte → SM (cst N) bool) :
  (∀ p l, Keeps p (handle p l)) → (∀ p l s b s', handle p l s = Some (b, s') → b = true) → handler_ok max_fd R handle (λ _, false).
Proof.
  intros Hk Ht p l s cl Hr Hok Hp. specialize (Hk p l s cl Hr Hok Hp). apply swp_run in Hk as (b & s' & E & Hkept).
  apply (swp_of_run _ _ b s'); [done|]. split; [by eapply Ht|done].
Qed.
End keeps.

(** ** Users *)
Section rel.
Context `{Double}.
(** What a request may change of a record: not the connection, nor the flags
    that say who serves it. *)
Definition user_rel (u u' : user_t) : Prop :=
  u_fd u' = u_fd u ∧ Forall (λ b, has_flag (u_flags u') b = has_flag (u_flags u) b) [USER_CLIENT; USER_REMOTE; USER_SYNC; USER_RPC].
Lemma user_rel_refl u : user_rel u u.
Proof. split; [done|]. by repeat constructor. Qed.
Lemma user_rel_trans a b c : user_rel a b → user_rel b c → user_rel a c.
Proof.
  intros [Ef Hf] [Ef' Hf']. split; [congruence|]. rewrite Forall_forall in *. intros x Hx. rewrite Hf', Hf by done. done.
Qed.
Lemma user_rel_flag u u' b : user_rel u u' → b ∈ [USER_CLIENT; USER_REMOTE; USER_SYNC; USER_RPC] → has_flag (u_flags u') b = has_flag (u_flags u) b.
Proof. intros [_ Hf]. rewrite Forall_forall in Hf. auto. Qed.
Lemma user_rel_skip u u' : user_rel u u' → u_fd u' = u_fd u ∧ has_flag (u_flags u') USER_RPC = has_flag (u_flags u) USER_RPC.
Proof. intros HR. split; [apply HR|]. apply (user_rel_flag u u'); [done|]. set_solver. Qed.
Lemma user_rel_judge u u' : user_rel u u' → (∀ now, stratum_judge now u = VKeep) → ∀ now, stratum_judge now u' = VKeep.
Proof.
  intros HR Hj now. specialize (Hj now). unfold stratum_judge in *. rewrite (proj1 HR).
  rewrite !(user_rel_flag u u') by (done || set_solver).
  destruct (negb _ && negb _); [done|]. destruct (has_flag _ USER_SYNC); [done|]. destruct (u_fd u =? -1); [|done]. destruct (_ <=? _); done.
Qed.
(** A connection that is served. *)
Lemma live_judge u : has_flag (u_flags u) USER_CLIENT = true → has_flag (u_flags u) USER_SYNC = false → u_fd u ≠ -1 →
  ∀ now, stratum_judge now u = VKeep.
Proof. intros Hc Hs Hf now. unfold stratum_judge. rewrite Hc, Hs. cbn. by rewrite (proj2 (Z.eqb_neq _ _) Hf). Qed.

Lemma due_judge now u : has_flag (u_flags u) USER_CLIENT = true → has_flag (u_flags u) USER_SYNC = false → u_fd u = -1 →
  u_work_stamp u + 3000 < now → stratum_judge now u = VFree.
Proof. intros Hc Hs Hf Hn. unfold stratum_judge. rewrite Hc, Hs, Hf. cbn [negb andb]. change (-1 =? -1) with true. by rewrite (proj2 (Z.leb_gt _ _) Hn). Qed.
End rel.

Section users.
Context `{Double} `{Heap} (max_fd : Z).
Context (shaddr : Z → option sockaddr) (mem : list byte).
Implicit Types (s : cst user_t) (cl : list (Z * user_t)).

(** *** Users of one address *)
Definition from_addr (a : sockaddr) (x : Z * user_t) : Prop :=
  u_fd x.2 ≠ -1 ∧ has_flag (u_flags x.2) USER_CLIENT = true ∧ sin_addr <$> shaddr (u_fd x.2) = Some (sin_addr a).
#[global] Instance from_addr_dec a x : Decision (from_addr a x).
Proof. unfold from_addr. apply _. Defined.
Definition users_from (a : sockaddr) cl : Z := zlen (filter (from_addr a) cl).

Lemma count_list_spec fuel s a l1 rest cnt : rep s (l1 ++ rest) → (length rest ≤ fuel)%nat →
  swp (count_list shaddr fuel (Some a) (first rest) cnt) s (λ r s', s' = s ∧ r = cnt + users_from a rest).
Proof.
  unfold users_from. revert l1 rest cnt. induction fuel as [|fuel IH]; intros l1 [|[p b] rest] cnt Hr Hl; try (by cbn in Hl; lia).
  1,2: apply swp_ret; split; [done|]; cbn; lia.
  cbn in Hl. destruct (rep_at _ _ _ _ _ Hr) as (n & Hn & -> & Hp0 & Hnx). cbn [first count_list]. rewrite (proj2 (Z.eqb_neq p 0) Hp0).
  apply swp_bind. eapply swp_load; [done|]. change (c_next n) with (u_next n) in Hnx. rewrite Hnx. rewrite filter_cons.
  assert (rep s ((l1 ++ [(p, body n)]) ++ rest)) as Hr2 by (by rewrite <-(assoc_L (++))).
  assert (∀ c, swp (count_list shaddr fuel (Some a) (first rest) c) s (λ r s', s' = s ∧ r = c + zlen (filter (from_addr a) rest))) as Hrest
    by (intros c; apply (IH _ rest c Hr2); lia).
  assert (from_addr a (p, body n) ↔ u_fd n ≠ -1 ∧ has_flag (u_flags n) USER_CLIENT = true ∧ sin_addr <$> shaddr (u_fd n) = Some (sin_addr a)) as Hfa by done.
  destruct (Z.eqb_spec (u_fd n) (-1)) as [Hf|Hf]; cbn [orb]; [by rewrite decide_False by (rewrite Hfa; by intros [? _])|].
  destruct (has_flag (u_flags n) USER_CLIENT) eqn:Ec; cbn [negb]; [|by rewrite decide_False by (rewrite Hfa; by intros (_ & [=] & _))].
  destruct (shaddr (u_fd n)) as [t|] eqn:Et; [|by rewrite decide_False by (rewrite Hfa; by intros (_ & _ & [=]))].
  destruct (decide (sin_addr a = sin_addr t)) as [E|E].
  - rewrite bool_decide_eq_true_2 by done. rewrite decide_True by (rewrite Hfa; cbn; by rewrite E).
    eapply swp_mono; [apply Hrest|]. intros r s' [-> ->]. split; [done|]. cbn [length]. lia.
  - rewrite bool_decide_eq_false_2 by done. rewrite decide_False; [done|]. rewrite Hfa. intros (_ & _ & [= E']). by apply E.
Qed.
Lemma user_count_spec s cl p n a : rep s cl → cs_users s !! p = Some n → shaddr (u_fd n) = Some a →
  swp (stratum_user_count shaddr p) s (λ r s', s' = s ∧ r = users_from a cl).
Proof.
  intros Hr Hn Ha. unfold stratum_user_count. apply swp_bind. eapply swp_load; [done|]. rewrite Ha.
  eapply swp_on_list; [done|]. intros fuel Hl. rewrite (rep_first s cl Hr). by apply (count_list_spec fuel s a [] cl 0).
Qed.

(** *** Idle workers

    The records that were left by earlier connections of the worker [w]. *)
Definition idle (p : Z) (w : list byte) (x : Z * user_t) : bool :=
  negb (x.1 =? p) && has_flag (u_flags x.2) USER_CLIENT && (u_fd x.2 =? -1) && bool_decide (w = u_worker x.2).
Definition drain (p : Z) (w : list byte) (x : Z * user_t) : Z * user_t := if idle p w x then (x.1, emptied x.2) else x.
Definition gain (p : Z) (w : list byte) (u : user_t) cl : user_t :=
  foldl (λ u x, if idle p w x then transfer u x.2 else u) u cl.
Definition merged (p : Z) (u : user_t) cl : list (Z * user_t) :=
  put_body p (gain p (u_worker u) u cl) <$> (drain p (u_worker u) <$> cl).

Lemma put_put p u u' (x : Z * user_t) : put_body p u' (put_body p u x) = put_body p u' x.
Proof. unfold put_body at 2. destruct (decide (x.1 = p)) as [<-|]; [|done]. unfold put_body. cbn. by rewrite !decide_True. Qed.
Lemma put_ne p u (x : Z * user_t) : x.1 ≠ p → put_body p u x = x.
Proof. intros Hx. unfold put_body. by rewrite decide_False. Qed.
Lemma put_key p u (x : Z * user_t) : (put_body p u x).1 = x.1.
Proof. unfold put_body. destruct (decide (x.1 = p)) as [<-|]; done. Qed.
Lemma put_other p u (l : list (Z * user_t)) : p ∉ l.*1 → put_body p u <$> l = l.
Proof.
  intros Hp. rewrite <-(list_fmap_id l) at 2. apply list_fmap_ext. intros i x Hx. apply put_ne. intros <-. apply Hp.
  apply list_elem_of_fmap_2. by eapply list_elem_of_lookup_2.
Qed.
Lemma drain_fst p w l : (drain p w <$> l).*1 = l.*1.
Proof. rewrite <-list_fmap_compose. apply list_fmap_ext. intros i x _. unfold compose, drain. by destruct (idle p w x). Qed.
Lemma gain_snoc p w u l x : gain p w u (l ++ [x]) = if idle p w x then transfer (gain p w u l) x.2 else gain p w u l.
Proof. unfold gain. by rewrite foldl_app. Qed.
Lemma gain_worker p w u l : u_worker (gain p w u l) = u_worker u.
Proof. induction l as [|x l IH] using rev_ind; [done|]. rewrite gain_snoc. by destruct (idle p w x). Qed.

(** After the records [l1] of the list. *)
Definition merging (p : Z) (u : user_t) l1 l2 : list (Z * user_t) :=
  put_body p (gain p (u_worker u) u l1) <$> ((drain p (u_worker u) <$> l1) ++ l2).
Lemma merging_fst p u l1 l2 : (merging p u l1 l2).*1 = (l1 ++ l2).*1.
Proof. unfold merging. by rewrite put_fst, !fmap_app, drain_fst. Qed.
Lemma merging_skip p u l1 x l2 : idle p (u_worker u) x = false → merging p u (l1 ++ [x]) l2 = merging p u l1 (x :: l2).
Proof.
  intros Hi. unfold merging. rewrite gain_snoc, Hi. f_equal. rewrite fmap_app, <-(assoc_L (++)). cbn [fmap list_fmap app].
  unfold drain at 2. by rewrite Hi.
Qed.
Lemma merging_idle p u l1 q b l2 : idle p (u_worker u) (q, b) = true → NoDup (l1 ++ (q, b) :: l2).*1 →
  put_body q (emptied b) <$> (put_body p (transfer (gain p (u_worker u) u l1) b) <$> merging p u l1 ((q, b) :: l2)) = merging p u (l1 ++ [(q, b)]) l2.
Proof.
  intros Hi Hnd. unfold merging. set (w := u_worker u) in *. set (g := gain p w u l1). rewrite gain_snoc. fold g. rewrite Hi. cbn [snd].
  rewrite fmap_app in Hnd. cbn [fmap list_fmap fst] in Hnd. apply NoDup_app in Hnd as (_ & Hd & Hnd). apply NoDup_cons in Hnd as [Hq2 _].
  assert (q ≠ p) as Hqp by (intros ->; unfold idle in Hi; cbn [fst] in Hi; by rewrite Z.eqb_refl in Hi).
  rewrite !fmap_app, <-!(assoc_L (++)). cbn [fmap list_fmap app].
  assert (∀ l : list (Z * user_t), put_body p (transfer g b) <$> (put_body p g <$> l) = put_body p (transfer g b) <$> l) as Hpp.
  { intros l. rewrite <-list_fmap_compose. apply list_fmap_ext. intros i x _. apply put_put. }
  change (list_fmap _ _ ?f ?l) with (f <$> l). rewrite !Hpp, put_put. f_equal; [|f_equal].
  - apply put_other. rewrite put_fst, drain_fst. intros Hin. apply (Hd q Hin). left.
  - unfold drain. rewrite Hi. rewrite !(put_ne p) by done. unfold put_body. cbn. by rewrite decide_True.
  - apply put_other. by rewrite put_fst.
Qed.
(** The record of the user itself. *)
Lemma merging_user p u l1 l2 : p ∈ (l1 ++ l2).*1 → (p, gain p (u_worker u) u l1) ∈ merging p u l1 l2.
Proof.
  rewrite <-(merging_fst p u), list_elem_of_fmap. intros ([p' x] & E & (y & Ey & Hy)%list_elem_of_fmap). cbn [fst] in E. subst p'.
  set (g := gain p (u_worker u) u l1) in *. pose proof (put_key p g y) as Ek. rewrite <-Ey in Ek. cbn in Ek.
  apply list_elem_of_fmap. exists y. split; [|done]. fold g. unfold put_body. by rewrite decide_True.
Qed.
Lemma merge_one_spec p u s l1 q b l2 : rep s (merging p u l1 ((q, b) :: l2)) → p ∈ (l1 ++ (q, b) :: l2).*1 →
  swp (merge_one p q) s (λ _ s', rep s' (merging p u (l1 ++ [(q, b)]) l2) ∧ cs_desc s' = cs_desc s).
Proof.
  intros Hr Hp. pose proof (rep_nodup _ _ Hr) as Hnd. rewrite merging_fst in Hnd.
  pose proof (merging_user p u l1 _ Hp) as Hpg. pose proof (merging_skip p u l1 (q, b) l2) as Hsame.
  pose proof (merging_idle p u l1 q b l2) as Hidle. set (w := u_worker u) in *. set (g := gain p w u l1) in *.
  assert (merging p u l1 ((q, b) :: l2) = (put_body p g <$> (drain p w <$> l1)) ++ put_body p g (q, b) :: (put_body p g <$> l2)) as Esplit
    by (unfold merging; rewrite fmap_app; done).
  destruct (put_body p g (q, b)) as [q' b'] eqn:Eb. assert (q' = q) as -> by (pose proof (put_key p g (q, b)) as E; rewrite Eb in E; exact E).
  pose proof Hr as Hr'. rewrite Esplit in Hr'. destruct (rep_at _ _ _ _ _ Hr') as (n & Hn & -> & Hq0 & _).
  assert (idle p w (q, b) = false → swp (mret tt) s (λ _ s', rep s' (merging p u (l1 ++ [(q, b)]) l2) ∧ cs_desc s' = cs_desc s)) as Hskip
    by (intros Hi; apply swp_ret; by rewrite Hsame).
  unfold merge_one. apply swp_bind. eapply swp_load; [done|]. unfold idle in Hskip, Hidle. cbn [fst snd] in Hskip, Hidle.
  destruct (Z.eqb_spec q p) as [->|Hqp]; cbn [orb negb andb] in *; [auto|].
  assert (b = body n) as -> by (rewrite put_ne in Eb by done; congruence). change (u_flags (body n)) with (u_flags n) in *.
  change (u_fd (body n)) with (u_fd n) in *. change (u_worker (body n)) with (u_worker n) in *.
  destruct (has_flag (u_flags n) USER_CLIENT) eqn:Ec; cbn [orb negb andb] in *; [|auto].
  destruct (u_fd n =? -1) eqn:Ef; cbn [orb negb andb] in *; [|auto].
  pose proof (rep_body _ _ Hr _ _ Hpg) as Hg. apply bodies_Some in Hg as (u' & Hu' & Eg).
  apply swp_bind. eapply swp_load; [done|]. assert (u_worker u' = w) as Ew.
  { change (u_worker u') with (u_worker (body u')). rewrite <-Eg. apply gain_worker. }
  rewrite Ew. destruct (bool_decide (w = u_worker n)); [|auto].
  apply swp_bind. eapply swp_store; [done|]. eapply (swp_store _ q n); [cbn; by rewrite lookup_insert_ne|]. split; [|done].
  rewrite <-(Hidle eq_refl Hnd). rewrite Eg. pose proof (rep_store s _ p u' (transfer u' n) Hr Hu' eq_refl) as Hr1.
  exact (rep_store _ _ q n (emptied n) Hr1 ltac:(cbn; by rewrite lookup_insert_ne) eq_refl).
Qed.
Lemma merge_spec p u s cl : rep s cl → (p, u) ∈ cl →
  swp (merge_idle_worker p) s (λ _ s', rep s' (merged p u cl) ∧ cs_desc s' = cs_desc s).
Proof.
  intros Hr Hp. unfold merge_idle_worker.
  set (I k cl' s' := cl' = merging p u (take k cl) (drop k cl) ∧ rep s' cl' ∧ cs_desc s' = cs_desc s).
  eapply swp_mono; [apply (each_list_spec (merge_one p) I s cl)|].
  - intros k cl' s' (-> & Hr' & _). split; [done|]. by rewrite merging_fst, take_drop.
  - intros k q cl' s' Hq (-> & Hr' & Ed). rewrite list_lookup_fmap in Hq. destruct (cl !! k) as [[q' b]|] eqn:Ek; [|done]. injection Hq as ->.
    rewrite (drop_S cl (q, b) k Ek) in Hr'. eapply swp_mono; [apply (merge_one_spec p u s' _ q b _ Hr')|].
    { rewrite <-(drop_S cl (q, b) k Ek), take_drop. by apply (list_elem_of_fmap_2 fst cl (p, u)). }
    intros ? s2 [Hr2 Ed2]. eexists. split; [reflexivity|]. rewrite (take_S_r cl k (q, b) Ek). split; [done|congruence].
  - split; [|done]. unfold merging. change (cl = put_body p u <$> cl). rewrite <-(list_fmap_id cl) at 1.
    apply list_fmap_ext. intros i [q b] Hi. unfold put_body. cbn [fst]. destruct (decide (q = p)) as [->|]; [|done].
    cbn. f_equal. symmetry. apply (rep_uniq s cl p u b Hr Hp). by eapply list_elem_of_lookup_2.
  - intros ? s' (cl' & -> & Hr' & Ed). rewrite firstn_all, drop_all in Hr'. unfold merging in Hr'. rewrite app_nil_r in Hr'. done.
Qed.

(** *** [stratum_user] *)
Definition renamed (p : Z) (u : user_t) (name : list byte) cl : list (Z * user_t) :=
  let u := u_set_worker (take 127 name) u in merged p u (put_body p u <$> cl).
Lemma stratum_user_spec p u name a s cl : rep s cl → (p, u) ∈ cl → shaddr (u_fd u) = Some a →
  swp (stratum_user shaddr p name) s (λ r s',
    if bool_decide (chr 64 ∈ name) || (MAX_STRATUM_USERS <=? users_from a cl) then r = 0 ∧ s' = s
    else r = p ∧ rep s' (renamed p u name cl) ∧ cs_desc s' = cs_desc s).
Proof.
  intros Hr Hp Ha. pose proof (rep_body _ _ Hr _ _ Hp) as Hb. apply bodies_Some in Hb as (n & Hn & ->).
  unfold stratum_user. destruct (bool_decide (chr 64 ∈ name)); [by apply swp_ret|]. cbn [orb].
  apply swp_bind. eapply swp_mono; [by apply (user_count_spec s cl p n a)|]. intros c s' [-> ->].
  destruct (MAX_STRATUM_USERS <=? users_from a cl); [by apply swp_ret|].
  apply swp_bind. eapply swp_load; [done|]. apply swp_bind. eapply swp_store; [done|]. apply swp_bind.
  set (u := u_set_worker (take 127 name) n). eapply swp_mono; [apply (merge_spec p (body u) _ (put_body p (body u) <$> cl))|].
  - by apply (rep_store s cl p n u).
  - apply list_elem_of_fmap. exists (p, body n). split; [|done]. unfold put_body. by rewrite decide_True.
  - intros ? s' [Hr' Ed]. apply swp_ret. split; [done|]. split; [exact Hr'|done].
Qed.

(** *** Shares

    The number of shares is kept, on 64 bits. *)
Definition shares cl : Z := foldr (λ x n, u_block_cnt x.2 + n) 0 cl.
Lemma shares_app l l' : shares (l ++ l') = shares l + shares l'.
Proof. unfold shares. induction l as [|x l IH]; [done|]. cbn [app foldr]. rewrite IH. lia. Qed.
Lemma shares_cons x l : shares (x :: l) = u_block_cnt x.2 + shares l.
Proof. done. Qed.
Lemma shares_put p u g cl : NoDup cl.*1 → (p, u) ∈ cl → shares (put_body p g <$> cl) = shares cl - u_block_cnt u + u_block_cnt g.
Proof.
  intros Hnd (l1 & l2 & ->)%list_elem_of_split. rewrite fmap_app in Hnd. cbn [fmap list_fmap fst] in Hnd.
  apply NoDup_app in Hnd as (_ & Hd & [Hp _]%NoDup_cons). rewrite fmap_app. cbn [fmap list_fmap].
  change (list_fmap _ _ ?f ?l) with (f <$> l). rewrite !put_other; [|done|intros Hin; apply (Hd p Hin); left].
  rewrite !shares_app, !shares_cons. unfold put_body. cbn [fst]. rewrite decide_True by done. cbn [snd]. lia.
Qed.
Lemma shares_drain p w cl : shares (drain p w <$> cl) = shares cl - shares (filter (λ x, idle p w x = true) cl).
Proof.
  induction cl as [|x cl IH]; [done|]. rewrite filter_cons, fmap_cons, !shares_cons, IH. unfold drain. destruct (idle p w x) eqn:Ei.
  - rewrite decide_True by done. rewrite shares_cons. cbn [snd emptied u_block_cnt]. lia.
  - rewrite decide_False by done. lia.
Qed.
Lemma shares_gain p w u cl : u64 (u_block_cnt (gain p w u cl)) = u64 (u_block_cnt u + shares (filter (λ x, idle p w x = true) cl)).
Proof.
  induction cl as [|x cl IH] using rev_ind; [cbn; by rewrite Z.add_0_r|]. rewrite gain_snoc, filter_app, shares_app, filter_cons.
  destruct (idle p w x) eqn:Ei.
  - rewrite decide_True by done. rewrite shares_cons. cbn [transfer u_block_cnt]. unfold u64 in *.
    rewrite Zmod_mod. rewrite <-Z.add_mod_idemp_l, IH, Z.add_mod_idemp_l by done. f_equal. unfold filter. cbn. lia.
  - rewrite decide_False by done. rewrite IH. f_equal. unfold filter. cbn. lia.
Qed.
Lemma merged_shares p u cl : NoDup cl.*1 → (p, u) ∈ cl → u64 (shares (merged p u cl)) = u64 (shares cl).
Proof.
  intros Hnd Hp. unfold merged. set (w := u_worker u). rewrite (shares_put p u).
  - rewrite shares_drain. pose proof (shares_gain p w u cl) as Hg. unfold u64 in *. set (f := shares (filter _ cl)) in *.
    rewrite <-Z.add_mod_idemp_r, Hg, Z.add_mod_idemp_r by done. f_equal. lia.
  - by rewrite drain_fst.
  - apply list_elem_of_fmap. exists (p, u). split; [|done]. unfold drain, idle. cbn [fst]. by rewrite Z.eqb_refl.
Qed.
Lemma renamed_shares p u name cl : NoDup cl.*1 → (p, u) ∈ cl → u64 (shares (renamed p u name cl)) = u64 (shares cl).
Proof.
  intros Hnd Hp. unfold renamed. set (u' := u_set_worker (take 127 name) u). cbv zeta. rewrite merged_shares.
  - rewrite (shares_put p u) by done. f_equal. cbn. lia.
  - by rewrite put_fst.
  - apply list_elem_of_fmap. exists (p, u). split; [|done]. unfold put_body. by rewrite decide_True.
Qed.

(** *** The promise to the timer *)
Lemma related_of_same cl cl' (f : Z * user_t → Z * user_t) : cl' = f <$> cl → (∀ x, (f x).1 = x.1) → (∀ x, x ∈ cl → user_rel x.2 (f x).2) → related user_rel cl cl'.
Proof.
  intros -> Hf HR. apply Forall2_fmap_r, Forall2_same_length_lookup_2; [done|]. intros i x y Hx Hy. simplify_eq.
  split; [done|]. apply HR. by eapply list_elem_of_lookup_2.
Qed.
Lemma gain_rel p w u cl : user_rel u (gain p w u cl).
Proof.
  induction cl as [|x cl IH] using rev_ind; [apply user_rel_refl|]. rewrite gain_snoc. destruct (idle p w x); [|done].
  eapply user_rel_trans; [exact IH|]. split; [done|]. by repeat constructor.
Qed.
Lemma put_related p u u' cl : NoDup cl.*1 → (p, u) ∈ cl → user_rel u u' → related user_rel cl (put_body p u' <$> cl).
Proof.
  intros Hnd Hp HR. eapply related_of_same; [done|intros x; apply put_key|]. intros [q b] Hq. unfold put_body. cbn [fst].
  destruct (decide (q = p)) as [->|]; [|apply user_rel_refl]. cbn [snd].
  apply list_elem_of_lookup_1 in Hp as [i Hi]. apply list_elem_of_lookup_1 in Hq as [j Hj].
  assert (i = j) as ->; [|congruence]. apply (NoDup_lookup cl.*1 i j p Hnd); rewrite list_lookup_fmap; by rewrite ?Hi, ?Hj.
Qed.
Lemma renamed_related p u name cl : NoDup cl.*1 → (p, u) ∈ cl → related user_rel cl (renamed p u name cl).
Proof.
  intros Hnd Hp. unfold renamed. set (u' := u_set_worker (take 127 name) u). cbv zeta.
  eapply (related_trans user_rel user_rel_trans); [apply (put_related p u u' cl Hnd Hp); split; [done|by repeat constructor]|].
  assert ((p, u') ∈ put_body p u' <$> cl) as Hp' by (apply list_elem_of_fmap; exists (p, u); split; [|done]; unfold put_body; by rewrite decide_True).
  unfold merged. set (w := u_worker u'). set (cl' := put_body p u' <$> cl) in *.
  assert (NoDup cl'.*1) as Hnd' by (unfold cl'; by rewrite put_fst).
  eapply (related_trans user_rel user_rel_trans _ (drain p w <$> cl')).
  - eapply related_of_same; [done|intros x; unfold drain; by destruct (idle p w x)|]. intros x _. unfold drain.
    destruct (idle p w x); [|apply user_rel_refl]. split; [done|]. by repeat constructor.
  - apply (put_related p u'); [by rewrite drain_fst| |apply gain_rel]. apply list_elem_of_fmap. exists (p, u'). split; [|done].
    unfold drain, idle. cbn [fst]. by rewrite Z.eqb_refl.
Qed.
#[global] Instance stratum_user_keeps p name : (∀ fd, is_Some (shaddr fd)) → Keeps max_fd user_rel p (stratum_user shaddr p name).
Proof.
  intros Hall s cl Hr Hok Hp. destruct (rep_elem s cl p Hr Hp) as (n & Hn & Hin & _). destruct (Hall (u_fd (body n))) as [a Ha].
  eapply swp_mono; [apply (stratum_user_spec p (body n) name a s cl Hr Hin Ha)|]. intros r s'.
  destruct (bool_decide _ || _); intros Hs.
  - destruct Hs as [_ ->]. apply kept_refl; [apply user_rel_refl|done..].
  - destruct Hs as (_ & Hr' & Ed). unfold kept. rewrite Ed. split; [|done]. eexists. split; [done|].
    apply renamed_related; [by eapply rep_nodup|done].
Qed.
End users.

(** ** The handlers of the three services *)
Section stratum.
Context `{Double} `{Heap} (max_fd : Z) {J : Type} (json : list byte → option J).
Abbreviation C := (SM (cst user_t)).

Section requests.
Context (request : Z → J → C Z) (http : Z → list byte → C Z).
Context `{Hreq : ∀ p t, Keeps max_fd user_rel p (request p t)} `{Hhttp : ∀ p fd l, Keeps max_fd user_rel p (http fd l)}.
Lemma stratum_handle_keeps p l : Keeps max_fd user_rel p (stratum_handle json request http p l).
Proof.
  assert (∀ A (a : A), Keeps max_fd user_rel p (mret (M := C) a)) as Hret by (intros; apply keeps_ret, user_rel_refl).
  assert (∀ A B (m : C A) (k : A → C B), Keeps max_fd user_rel p m → (∀ a, Keeps max_fd user_rel p (k a)) → Keeps max_fd user_rel p (m ≫= k)) as Hbind
    by (intros; apply keeps_bind; [apply user_rel_trans|done..]).
  assert (Keeps max_fd user_rel p (node_load (N := user_t) p)) as Hload by (apply keeps_load, user_rel_refl).
  unfold stratum_handle. apply Hbind; [|auto]. destruct (bool_decide _); [by apply Hbind|]. destruct l as [|c l]; [auto|].
  destruct (bool_decide _); [|auto]. apply Hbind; [done|]. intros u. destruct (has_flag _ _); [auto|].
  unfold stratum_register_client_task. destruct (json _); auto.
Qed.
Lemma stratum_handle_ok : handler_ok max_fd user_rel (stratum_handle json request http) (λ _, false).
Proof.
  apply keeps_handler; [apply stratum_handle_keeps|]. intros p l s b s'. unfold stratum_handle, mbind, SM_bind.
  destruct (_ s) as [[??]|]; [|done]. by intros [= <- _].
Qed.
End requests.

Section rpc.
Context (iface_of : J → list byte) (coins : nat → option (list byte)) (task : Z → Z → J → C Z).
Context `{Htask : ∀ i p t, Keeps max_fd user_rel p (task i p t)}.
(** The lines that end a round of the RPC timer. *)
Definition malformed (l : list byte) : bool :=
  match l with c :: _ => bool_decide (c = chr 123) && match json l with None => true | Some _ => false end | [] => false end.
Lemma rpc_handle_ok : handler_ok max_fd user_rel (rpc_handle json iface_of coins task) malformed.
Proof.
  intros p l s cl Hr Hok Hp. assert (kept max_fd user_rel s cl s) as Hrefl by (apply kept_refl; [apply user_rel_refl|done..]).
  unfold rpc_handle, malformed. destruct l as [|c l]; [by apply swp_ret|].
  destruct (bool_decide _); [|by apply swp_ret]. cbn [andb]. destruct (json (c :: l)) as [t|]; [|by apply swp_ret].
  destruct (rep_elem s cl p Hr Hp) as (n & Hn & _). apply swp_bind. eapply swp_load; [done|]. cbv zeta. apply swp_bind.
  eapply swp_mono; [by apply Htask|]. intros r s' Hk. by apply swp_ret.
Qed.
End rpc.
End stratum.

Section shapi.
Context `{Heap} (max_fd : Z) {J : Type} (json : list byte → option J) (request : Z → J → SM (cst shapi_t) Z).
Definition shapi_rel (a a' : shapi_t) : Prop := a_fd a' = a_fd a.
Lemma shapi_rel_trans a b c : shapi_rel a b → shapi_rel b c → shapi_rel a c.
Proof. unfold shapi_rel. congruence. Qed.
Context `{Hreq : ∀ p t, Keeps max_fd shapi_rel p (request p t)}.
Lemma shapi_handle_ok : handler_ok max_fd shapi_rel (shapi_handle json request) (λ _, false).
Proof.
  apply keeps_handler.
  - intros p l. assert (∀ A (a : A), Keeps max_fd shapi_rel p (mret (M := SM (cst shapi_t)) a)) as Hret by (intros; by apply keeps_ret).
    unfold shapi_handle. apply keeps_bind; [apply shapi_rel_trans| |auto]. destruct l as [|c l]; [auto|]. destruct (bool_decide _); [|auto].
    unfold shapi_register_client_task. destruct (json _); auto.
  - intros p l s b s'. unfold shapi_handle, mbind, SM_bind. destruct (_ s) as [[??]|]; [|done]. by intros [= <- _].
Qed.
End shapi.

(** ** Sweeps

    A sweep that judges by the descriptor alone. *)
Lemma sweep_by_fd {N} `{Client N} (judge : N → verdict) cl : (∀ p n, (p, n) ∈ cl → judge n = if c_fd n =? -1 then VFree else VKeep) →
  sweep judge [] cl = filter (λ x, c_fd x.2 ≠ -1) cl ∧ freed judge cl = (filter (λ x, c_fd x.2 = -1) cl).*1.
Proof.
  intros Hj. rewrite sweep_filter.
  - unfold freed. split; [|f_equal]; apply filter_iff_in; intros [p n] Hin; cbn [snd]; rewrite (Hj p n Hin); destruct (Z.eqb_spec (c_fd n) (-1)); naive_solver.
  - apply Forall_forall. intros [p n] Hin. cbn [snd]. rewrite (Hj p n Hin). by destruct (c_fd n =? -1).
Qed.

(** ** The state of a list of clients *)
Section of_list.
Context {N : Type} `{ClientOk N}.
Fixpoint linked (cl : list (Z * N)) : gmap Z N :=
  match cl with [] => ∅ | (p, n) :: cl => <[p := c_set_next (first cl) n]> (linked cl) end.
Definition of_list (cl : list (Z * N)) (brk : Z) (dt : dtab) : cst N := CSt (linked cl) brk (first cl) dt.
Lemma of_list_rep cl brk dt : 0 < brk → NoDup cl.*1 → Forall (λ x, 0 < x.1 < brk ∧ body x.2 = x.2) cl → rep (of_list cl brk dt) cl.
Proof.
  intros Hb Hnd Hall.
  assert (chain c_next (linked cl) (first cl) cl.*1 ∧ (∀ p n, (p, n) ∈ cl → (body <$> linked cl) !! p = Some n) ∧ (∀ p, is_Some (linked cl !! p) → 0 < p < brk))
    as (Hc & Hbody & Hk); [|by split].
  induction Hall as [|[p n] cl [Hp En] Hall IH].
  { split; [done|]. split; [by intros p n ?%not_elem_of_nil|]. intros p [? [=]]. }
  cbn [fmap list_fmap fst snd] in *. apply NoDup_cons in Hnd as [Hpn Hnd]. destruct (IH Hnd) as (Hc & Hbody & Hk). split_and!.
  - cbn [linked first chain lseg]. split_and!; [done|lia|]. eexists. split; [apply lookup_insert_eq|]. rewrite c_next_set. by apply lseg_insert_ne.
  - intros q m [[= -> ->]|Hin]%elem_of_cons; cbn [linked]; rewrite fmap_insert.
    + rewrite lookup_insert_eq, body_next. by f_equal.
    + rewrite lookup_insert_ne; [by apply Hbody|]. intros <-. apply Hpn. by apply (list_elem_of_fmap_2 fst cl (p, m)).
  - intros q. cbn [linked]. rewrite lookup_insert_is_Some. intros [<-|[_ Hq]]; [done|auto].
Qed.
End of_list.

(** ** Granting access *)
Lemma grant_spec `{Double} p s cl : rep s cl → p ∈ cl.*1 →
  swp (grant_rpc p) s (λ _ s', (∃ cl', rep s' cl' ∧ (fds_ok cl → fds_ok cl') ∧ ∀ u : user_t, (p, u) ∈ cl' → has_flag (u_flags u) USER_RPC = true) ∧ cs_desc s' = cs_desc s).
Proof.
  intros Hr Hp. destruct (rep_elem s cl p Hr Hp) as (n & Hn & Hin & _). unfold grant_rpc. apply swp_bind. eapply swp_load; [done|].
  apply swp_bind. eapply swp_store; [done|]. set (n1 := u_set_flags _ n). pose proof (rep_store s cl p n n1 Hr Hn eq_refl) as Hr1.
  set (s1 := set_users _ s) in *. assert (cs_users s1 !! p = Some n1) as Hn1 by apply lookup_insert_eq.
  apply swp_bind. eapply swp_load; [done|]. eapply swp_store; [done|]. split; [|done].
  set (n2 := u_set_flags _ n1). eexists. split; [exact (rep_store s1 _ p n1 n2 Hr1 Hn1 eq_refl)|].
  split.
  { unfold fds_ok. rewrite !Forall_forall. intros Hf x (y & -> & (z & -> & Hz)%list_elem_of_fmap)%list_elem_of_fmap.
    pose proof (Hf _ Hz) as Hfz. pose proof (Hf _ Hin) as Hfn. unfold put_body. destruct z as [q b]. cbn [fst snd] in *.
    destruct (decide (q = p)); cbn [fst snd]; [rewrite decide_True by done; exact Hfn|by rewrite decide_False]. }
  intros u ([q b] & E & _)%list_elem_of_fmap. unfold put_body in E. cbn [fst] in E. destruct (decide (q = p)); simplify_eq.
  change (has_flag (Z.lor (Z.lor (u_flags n) USER_RPC) USER_ELEVATE) USER_RPC = true).
  unfold has_flag. apply negb_true_iff, Z.eqb_neq. intros E. apply (f_equal (λ z, Z.testbit z 6)) in E.
  rewrite Z.land_spec, !Z.lor_spec, Z.bits_0 in E. change (Z.testbit USER_RPC 6) with true in E. by rewrite !orb_true_r in E.
Qed.

(** ** The life of a connection *)
Section connection.
Context `{Double} `{Heap} (shaddr : Z → option sockaddr) (mem : list byte).
Implicit Types (s : cst user_t) (cl : list (Z * user_t)).
Definition new_user (now fd : Z) (key : shkey_t) : user_t :=
  u_set_netid key (u_set_flags USER_CLIENT (u_set_freq (f_of 2) (u_set_round now (u_set_fd fd user_zero)))).
(** Storing a record that is not on the list. *)
Lemma store_off s cl p n m : rep s cl → p ∉ cl.*1 → cs_users s !! p = Some n → u_next m = u_next n → rep (set_users (<[p := m]> (cs_users s)) s) cl.
Proof. intros Hr Hp Hn Hm. rewrite <-(put_other p (body m) cl Hp). by apply (rep_store s cl p n m). Qed.
Lemma user_init_spec now fd key s cl (Q : Z → cst user_t → Prop) : rep s cl → heap_ok (@c_size user_t _) = true → 0 < fd → shkey_bin mem (shaddr fd) = Some key →
  (∀ p s', rep s' cl → p ∉ cl.*1 → cs_users s' !! p = Some (new_user now fd key) → cs_desc s' = cs_desc s → Q p s') →
  swp (stratum_user_init shaddr mem now fd) s Q.
Proof.
  intros Hr Hh Hf Hk HQ. unfold stratum_user_init. apply swp_bind. apply (alloc_spec s cl user_zero _ Hr Hh).
  intros s1 Hr1 Eu Ed _ Hfresh. set (p := cs_brk s) in *. assert (p ∉ cl.*1) as Hp.
  { intros Hin. destruct (rep_elem s cl p Hr Hin) as (n & Hn & _). congruence. }
  assert (cs_users s1 !! p = Some user_zero) as Hp1 by (rewrite Eu; apply lookup_insert_eq).
  apply swp_bind. eapply swp_load; [done|]. apply swp_bind. eapply swp_store; [done|]. apply swp_bind. rewrite (proj2 (Z.ltb_lt 0 fd) Hf).
  set (s2 := set_users _ _). assert (cs_users s2 !! p = Some (u_set_freq (f_of 2) (u_set_round now (u_set_fd fd user_zero)))) as Hp2 by apply lookup_insert_eq.
  apply swp_bind. eapply swp_load; [done|]. apply swp_bind. eapply swp_opt; [done|]. eapply swp_store; [done|]. apply swp_ret. apply HQ.
  - eapply store_off; [eapply store_off; [exact Hr1|done|exact Hp1|done]|done|exact Hp2|done].
  - done.
  - apply lookup_insert_eq.
  - done.
Qed.
Lemma register_spec now fd key s cl (Q : Z → cst user_t → Prop) : rep s cl → heap_ok (@c_size user_t _) = true → 0 < fd → shkey_bin mem (shaddr fd) = Some key →
  (∀ p s', rep s' ((p, new_user now fd key) :: cl) → cs_desc s' = cs_desc s → Q p s') →
  swp (stratum_register_client shaddr mem now fd) s Q.
Proof.
  intros Hr Hh Hf Hk HQ. unfold stratum_register_client. apply swp_bind. eapply user_init_spec; [done..|].
  intros p s1 Hr1 Hp Hu Ed. apply swp_bind. eapply link_spec; [done..|]. intros s2 Hr2 _ Ed2. apply swp_ret. apply HQ; [done|congruence].
Qed.
Lemma get_spec fd s cl : rep s cl → 0 ≤ fd → swp (stratum_user_get fd) s (λ r s', s' = s ∧ r = find_client (λ u, u_fd u =? fd) cl).
Proof. intros Hr Hf. unfold stratum_user_get. rewrite (proj2 (Z.ltb_ge fd 0) Hf). by apply client_find_spec. Qed.
Lemma find_absent fd cl : (∀ q u, (q, u) ∈ cl → u_fd u ≠ fd) → find_client (λ u, u_fd u =? fd) cl = 0.
Proof.
  intros Hn. unfold find_client. destruct (List.find _ cl) as [[q u]|] eqn:E; [|done]. apply List.find_some in E as [Hin Ht].
  apply list_elem_of_In in Hin. apply Hn in Hin. cbn in Ht. lia.
Qed.
Lemma closed_head fd p u cl : 0 ≤ fd → u_fd u = fd → p ∉ cl.*1 → closed fd ((p, u) :: cl) = (p, u_set_fd (-1) u) :: cl.
Proof.
  intros Hf Hu Hp. unfold closed. rewrite (proj2 (Z.ltb_ge fd 0) Hf). cbv zeta.
  assert (find_client (λ n, c_fd n =? fd) ((p, u) :: cl) = p) as ->.
  { unfold find_client. cbn [List.find snd]. change (c_fd u) with (u_fd u). by rewrite Hu, Z.eqb_refl. }
  cbn [fmap list_fmap fst snd]. rewrite decide_True by done. f_equal. rewrite <-(list_fmap_id cl) at 2. apply list_fmap_ext. intros i x Hx.
  rewrite decide_False; [done|]. intros <-. apply Hp. apply list_elem_of_fmap_2. by eapply list_elem_of_lookup_2.
Qed.
End connection.
