(* ===== verification/Json.v ===== *)
(** * JSON

    [mem/shmem_json.c] of libshare, with which the services read requests and
    write replies.

    A pointer into a text is the list of bytes from there to the end of its
    memory: a read behind the end is a fault, as is a write behind the end of an
    allocation.  The items of an array or object are the list [j_child] (the
    [next] and [prev] links).  Arithmetic on doubles and the formats of numbers
    that are not 32-bit integers are the class [Real].  Strings are shorter than
    2^31 bytes, so that the [int] lengths of the code do not overflow. *)

From S2P Require Import Prelude Errors Shbuf Crc Hmac Key Opt.

(** ** Results

    A null pointer is [Fail]; [NoFuel] ends a recursion that was given too
    little fuel. *)
Inductive res (A : Type) := Ok (a : A) | Fail | Fault | NoFuel.
Arguments Ok {_} _.
Arguments Fail {_}.
Arguments Fault {_}.
Arguments NoFuel {_}.
#[global] Instance res_ret : MRet res := λ A a, Ok a.
#[global] Instance res_bind : MBind res := λ A B k m, match m with Ok a => k a | Fail => Fail | Fault => Fault | NoFuel => NoFuel end.

Class Real := {
  R : Type;
  r_of : Z → R;
  radd : R → R → R;
  rmul : R → R → R;
  (** [pow(10.0, x)] *)
  rpow10 : R → R;
  (** [(int)x] and [(uint32_t)x] *)
  rint : R → Z;
  ru32 : R → Z;
  (** [fabs(((double)i)-d)<=DBL_EPSILON && d<=INT_MAX && d>=INT_MIN] *)
  rnear : Z → R → bool;
  (** The bytes of the double. *)
  rbytes : R → list byte;
  (** What [print_number] prints of other numbers. *)
  rfmt : R → list byte;
}.

Definition SHJSON_FALSE : Z := 0.
Definition SHJSON_TRUE : Z := 1.
Definition SHJSON_NULL : Z := 2.
Definition SHJSON_NUMBER : Z := 3.
Definition SHJSON_STRING : Z := 4.
Definition SHJSON_ARRAY : Z := 5.
Definition SHJSON_OBJECT : Z := 6.
Definition SHJSON_REFERENCE : Z := 256.
Definition SHJSON_BOOLEAN : Z := 257.
Definition JSON_SIZE : Z := 64.

Inductive shjson_t `{Real} := Json {
  j_type : Z;
  j_valuestring : option (list byte);
  j_valueint : Z;
  j_valuedouble : R;
  j_string : option (list byte);
  j_child : list shjson_t;
}.
Arguments Json {_} _ _ _ _ _ _.
Arguments j_type {_} _.
Arguments j_valuestring {_} _.
Arguments j_valueint {_} _.
Arguments j_valuedouble {_} _.
Arguments j_string {_} _.
Arguments j_child {_} _.

(** ** Characters *)
Definition c_quote : byte := chr 34.
Definition c_back : byte := chr 92.
Definition is_c (n : Z) (c : byte) : bool := bool_decide (c = chr n).
Definition is_digit (c : byte) : bool := let z := Z_of_byte c in (48 <=? z) && (z <=? 57).
Definition blank (c : byte) : bool := negb (bool_decide (c = x00)) && (Z_of_byte c <=? 32).

(** [*ptr] *)
Definition rd (l : list byte) : res byte := match l with c :: _ => Ok c | [] => Fault end.

(** The digits that four characters stand for, [0] when one is not a digit. *)
Definition hex_digit (c : byte) : option Z :=
  let z := Z_of_byte c in
  if (48 <=? z) && (z <=? 57) then Some (z - 48)
  else if (65 <=? z) && (z <=? 70) then Some (z - 55)
  else if (97 <=? z) && (z <=? 102) then Some (z - 87)
  else None.
Fixpoint parse_hex (n : nat) (h : Z) (l : list byte) : res Z :=
  match n with
  | O => Ok h
  | S n => c ← rd l; match hex_digit c with Some d => parse_hex n (Z.shiftl h 4 + d) (tail l) | None => Ok 0 end
  end.
Definition parse_hex4 (l : list byte) : res Z := parse_hex 4 0 l.

(** ** Strings *)

(** The first pass: how long the string will be, roughly. *)
Fixpoint scan_len (len : Z) (l : list byte) : res Z :=
  match l with
  | [] => Fault
  | c :: l =>
     if is_c 34 c || bool_decide (c = x00) then Ok len
     else if is_c 92 c then match l with [] => Fault | _ :: l => scan_len (len + 1) l end
     else scan_len (len + 1) l
  end.

(** Writing to an allocation of [cap] bytes. *)
Definition emit (cap : Z) (out bs : list byte) : res (list byte) :=
  if zlen out + zlen bs <=? cap then Ok (out ++ bs) else Fault.

Definition firstByteMark : list Z := [0; 0; 0xC0; 0xE0; 0xF0; 0xF8; 0xFC].
Fixpoint utf8_tail (n : nat) (uc : Z) (acc : list byte) : Z * list byte :=
  match n with
  | O => (uc, acc)
  | S n => utf8_tail n (Z.shiftr uc 6) (chr (Z.land (Z.lor uc 0x80) 0xBF) :: acc)
  end.
Definition utf8 (uc : Z) : list byte :=
  let len := if uc <? 0x80 then 1%nat else if uc <? 0x800 then 2%nat else if uc <? 0x10000 then 3%nat else 4%nat in
  let '(uc, acc) := utf8_tail (len - 1) uc [] in
  chr (Z.lor uc (nth len firstByteMark 0)) :: acc.

(** [\u] and what follows it, [l] being behind the [u]: the bytes it stands
    for and where the text goes on. *)
Definition parse_uni (l : list byte) : res (list byte * list byte) :=
  uc ← parse_hex4 l;
  let q := drop 4 l in
  if ((0xDC00 <=? uc) && (uc <=? 0xDFFF)) || (uc =? 0) then Ok ([], q)
  else if (0xD800 <=? uc) && (uc <=? 0xDBFF) then
    c1 ← rd q;
    if negb (is_c 92 c1) then Ok ([], q)
    else
      c2 ← rd (tail q);
      if negb (is_c 117 c2) then Ok ([], q)
      else
        uc2 ← parse_hex4 (drop 2 q);
        if (uc2 <? 0xDC00) || (0xDFFF <? uc2) then Ok ([], drop 6 q)
        else Ok (utf8 (0x10000 + Z.lor (Z.shiftl (Z.land uc 0x3FF) 10) (Z.land uc2 0x3FF)), drop 6 q)
  else Ok (utf8 uc, q).
Definition unescape (c : byte) : byte :=
  if is_c 98 c then chr 8 else if is_c 102 c then chr 12 else if is_c 110 c then chr 10
  else if is_c 114 c then chr 13 else if is_c 116 c then chr 9 else c.

(** The second pass, which fills the allocation. *)
Fixpoint copy_loop (fuel : nat) (cap : Z) (out l : list byte) : res (list byte * list byte) :=
  c ← rd l;
  if is_c 34 c || bool_decide (c = x00) then Ok (out, l)
  else match fuel with
       | O => NoFuel
       | S fuel =>
          if negb (is_c 92 c) then out ← emit cap out [c]; copy_loop fuel cap out (tail l)
          else
            e ← rd (tail l);
            if is_c 117 e then
              '(bs, l) ← parse_uni (drop 2 l);
              out ← emit cap out bs;
              copy_loop fuel cap out l
            else
              out ← emit cap out [unescape e];
              copy_loop fuel cap out (drop 2 l)
       end.

Section json.
Context `{Real} `{Heap}.

Definition alloc (n : Z) : res unit := if heap_ok n then Ok tt else Fail.

(** The string at a quote, and where the text goes on. *)
Definition parse_string (l : list byte) : res (list byte * list byte) :=
  c ← rd l;
  if negb (is_c 34 c) then Fail
  else
    let l := tail l in
    len ← scan_len 0 l;
    _ ← alloc (len + 1);
    '(out, l) ← copy_loop (length l) (len + 1) [] l;
    _ ← emit (len + 1) out [x00];
    c ← rd l;
    Ok (out, if is_c 34 c then tail l else l).

(** ** Numbers *)
Fixpoint read_digits (n scale : R) (frac : bool) (l : list byte) : res (R * R * list byte) :=
  match l with
  | [] => Fault
  | c :: l' =>
     if is_digit c then
       read_digits (radd (rmul n (r_of 10)) (r_of (Z_of_byte c - 48))) (if frac then radd scale (r_of (-1)) else scale) frac l'
     else Ok (n, scale, l)
  end.
Fixpoint exp_digits (sub : Z) (l : list byte) : res (Z * list byte) :=
  match l with
  | [] => Fault
  | c :: l' => if is_digit c then exp_digits (i32 (sub * 10 + (Z_of_byte c - 48))) l' else Ok (sub, l)
  end.
(** The number and where the text goes on. *)
Definition parse_number (l : list byte) : res (R * list byte) :=
  c ← rd l;
  let '(sign, l) := if is_c 45 c then (r_of (-1), tail l) else (r_of 1, l) in
  c ← rd l;
  let l := if is_c 48 c then tail l else l in
  c ← rd l;
  '(n, scale, l) ← (if is_digit c && negb (is_c 48 c) then read_digits (r_of 0) (r_of 0) false l else Ok (r_of 0, r_of 0, l));
  c ← rd l;
  '(n, scale, l) ← (if is_c 46 c then
                      c ← rd (tail l);
                      if is_digit c then read_digits n scale true (tail l) else Ok (n, scale, l)
                    else Ok (n, scale, l));
  c ← rd l;
  '(subscale, signsubscale, l) ← (if is_c 101 c || is_c 69 c then
      let l := tail l in
      c ← rd l;
      let '(s, l) := if is_c 43 c then (1, tail l) else if is_c 45 c then (-1, tail l) else (1, l) in
      '(sub, l) ← exp_digits 0 l;
      Ok (sub, s, l)
    else Ok (0, 1, l));
  Ok (rmul (rmul sign n) (rpow10 (radd scale (r_of (i32 (subscale * signsubscale))))), l).

(** ** Values *)
Fixpoint skip (l : list byte) : res (list byte) :=
  match l with [] => Fault | c :: l' => if blank c then skip l' else Ok l end.
(** [strncmp] with a literal. *)
Fixpoint strn_eq (pat l : list byte) : res bool :=
  match pat with
  | [] => Ok true
  | p :: pat => c ← rd l; if bool_decide (c = p) then strn_eq pat (tail l) else Ok false
  end.

(** An item that [memset] has cleared, but for its name. *)
Definition item (name : option (list byte)) (type : Z) : shjson_t := Json type None 0 (r_of 0) name [].

(** [parse_value] fills an item that has its name already; [parse_items] and
    [parse_members] are the loops of [parse_array] and [parse_object]. *)
Fixpoint parse_value (fuel : nat) (name : option (list byte)) (l : list byte) {struct fuel} : res (shjson_t * list byte) :=
  match fuel with
  | O => NoFuel
  | S fuel =>
     b ← strn_eq (bytes "null") l;
     if b : bool then Ok (item name SHJSON_NULL, drop 4 l) else
     b ← strn_eq (bytes "false") l;
     if b : bool then Ok (item name SHJSON_FALSE, drop 5 l) else
     b ← strn_eq (bytes "true") l;
     if b : bool then Ok (Json SHJSON_TRUE None 1 (r_of 0) name [], drop 4 l) else
     c ← rd l;
     if is_c 34 c then
       '(s, l) ← parse_string l;
       Ok (Json SHJSON_STRING (Some s) 0 (r_of 0) name [], l)
     else if is_c 45 c || is_digit c then
       '(n, l) ← parse_number l;
       Ok (Json SHJSON_NUMBER None (rint n) n name [], l)
     else if is_c 91 c then
       l ← skip (tail l);
       c ← rd l;
       if is_c 93 c then Ok (item name SHJSON_ARRAY, tail l)
       else
         '(items, l) ← parse_items fuel l;
         c ← rd l;
         if is_c 93 c then Ok (Json SHJSON_ARRAY None 0 (r_of 0) name items, tail l) else Fail
     else if is_c 123 c then
       l ← skip (tail l);
       c ← rd l;
       if is_c 125 c then Ok (item name SHJSON_OBJECT, tail l)
       else
         '(items, l) ← parse_members fuel l;
         c ← rd l;
         if is_c 125 c then Ok (Json SHJSON_OBJECT None 0 (r_of 0) name items, tail l) else Fail
     else Fail
  end
with parse_items (fuel : nat) (l : list byte) {struct fuel} : res (list shjson_t * list byte) :=
  match fuel with
  | O => NoFuel
  | S fuel =>
     _ ← alloc JSON_SIZE;
     l ← skip l;
     '(t, l) ← parse_value fuel None l;
     l ← skip l;
     c ← rd l;
     if is_c 44 c then '(ts, l) ← parse_items fuel (tail l); Ok (t :: ts, l) else Ok ([t], l)
  end
with parse_members (fuel : nat) (l : list byte) {struct fuel} : res (list shjson_t * list byte) :=
  match fuel with
  | O => NoFuel
  | S fuel =>
     _ ← alloc JSON_SIZE;
     l ← skip l;
     '(name, l) ← parse_string l;
     l ← skip l;
     c ← rd l;
     if negb (is_c 58 c) then Fail
     else
       l ← skip (tail l);
       '(t, l) ← parse_value fuel (Some name) l;
       l ← skip l;
       c ← rd l;
       if is_c 44 c then '(ts, l) ← parse_members fuel (tail l); Ok (t :: ts, l) else Ok ([t], l)
  end.

(** The fuel is enough for any text ([parse_value_fuel]). *)
Definition parse_fuel (l : list byte) : nat := 2 * length l + 1.
Definition shjson_ParseWithOpts (value : list byte) (require_null_terminated : bool) : res (shjson_t * list byte) :=
  _ ← alloc JSON_SIZE;
  l ← skip value;
  '(c, end_) ← parse_value (parse_fuel l) None l;
  if require_null_terminated then
    end_ ← skip end_;
    e ← rd end_;
    if bool_decide (e = x00) then Ok (c, end_) else Fail
  else Ok (c, end_).
(** On a C string. *)
Definition shjson_Parse (text : list byte) : res shjson_t :=
  '(t, _) ← shjson_ParseWithOpts (text ++ [x00]) false; Ok t.

(** ** Printing

    A text that is written to an allocation of [cap] bytes, with its
    terminator. *)
Definition alloc_text (cap : Z) (s : list byte) : res (list byte) :=
  _ ← alloc cap; if zlen s + 1 <=? cap then Ok s else Fault.
Definition shjson_strdup (s : list byte) : res (list byte) := alloc_text (zlen s + 1) s.

Definition esc_short (c : byte) : bool :=
  is_c 34 c || is_c 92 c || is_c 8 c || is_c 12 c || is_c 10 c || is_c 13 c || is_c 9 c.
Definition esc_count (c : byte) : Z := if esc_short c then 2 else if Z_of_byte c <? 32 then 6 else 1.
Definition escape (c : byte) : list byte :=
  if (31 <? Z_of_byte c) && negb (is_c 34 c) && negb (is_c 92 c) then [c]
  else c_back ::
    (if is_c 92 c then [c_back] else if is_c 34 c then [c_quote] else if is_c 8 c then [chr 98] else if is_c 12 c then [chr 102]
     else if is_c 10 c then [chr 110] else if is_c 13 c then [chr 114] else if is_c 9 c then [chr 116]
     else chr 117 :: hex_fmt 4 (Z_of_byte c)).
Definition print_string_ptr (str : option (list byte)) : res (list byte) :=
  match str with
  | None => shjson_strdup [c_quote; c_quote]
  | Some s => alloc_text (foldr (λ c n, esc_count c + n) 0 s + 3) (c_quote :: concat (escape <$> s) ++ [c_quote])
  end.

Definition print_number (i : Z) (d : R) : res (list byte) :=
  if rnear i d then alloc_text 21 (dec i) else alloc_text 64 (rfmt d).

Fixpoint join (sep : list byte) (l : list (list byte)) : list byte :=
  match l with [] => [] | [x] => x | x :: l => x ++ sep ++ join sep l end.
Definition only (b : bool) (l : list byte) : list byte := if b then l else [].
Definition b2z (b : bool) : Z := if b then 1 else 0.
Definition tabs (n : nat) : list byte := replicate n (chr 9).
Definition compose_array (fmt : bool) (entries : list (list byte)) : list byte :=
  [chr 91] ++ join (chr 44 :: only fmt [chr 32]) entries ++ [chr 93].
(** [depth] is that of the members. *)
Definition compose_member (fmt : bool) (depth : nat) (e : list byte * list byte) : list byte :=
  only fmt (tabs depth) ++ e.1 ++ [chr 58] ++ only fmt [chr 9] ++ e.2.
Definition compose_object (fmt : bool) (depth : nat) (entries : list (list byte * list byte)) : list byte :=
  [chr 123] ++ only fmt [chr 10] ++ join (chr 44 :: only fmt [chr 10]) (compose_member fmt depth <$> entries) ++
  only fmt ([chr 10] ++ tabs (depth - 1)) ++ [chr 125].

Definition array_len (fmt : bool) (entries : list (list byte)) : Z :=
  foldr (λ e n, zlen e + 2 + b2z fmt + n) 5 entries.
Definition object_len (fmt : bool) (depth : nat) (entries : list (list byte * list byte)) : Z :=
  foldr (λ e n, zlen e.2 + zlen e.1 + 2 + (if fmt then 2 + Z.of_nat depth else 0) + n) (7 + if fmt then Z.of_nat depth else 0) entries.

Fixpoint print_value (fmt : bool) (depth : nat) (t : shjson_t) {struct t} : res (list byte) :=
  match t with
  | Json type valuestring valueint valuedouble _ child =>
     let type := Z.land type 255 in
     if type =? SHJSON_NULL then shjson_strdup (bytes "null")
     else if type =? SHJSON_FALSE then shjson_strdup (bytes "false")
     else if type =? SHJSON_TRUE then shjson_strdup (bytes "true")
     else if type =? SHJSON_NUMBER then print_number valueint valuedouble
     else if type =? SHJSON_STRING then print_string_ptr valuestring
     else if type =? SHJSON_ARRAY then
       match child with
       | [] => alloc_text 3 (bytes "[]")
       | _ =>
          _ ← alloc (zlen child * 8);
          entries ← (fix print_items l := match l with
                                           | [] => Ok []
                                           | c :: l => e ← print_value fmt (S depth) c; es ← print_items l; Ok (e :: es)
                                           end) child;
          alloc_text (array_len fmt entries) (compose_array fmt entries)
       end
     else if type =? SHJSON_OBJECT then
       match child with
       | [] => alloc_text (if fmt then Z.of_nat depth + 4 else 3) ([chr 123] ++ only fmt ([chr 10] ++ tabs (depth - 1)) ++ [chr 125])
       | _ =>
          _ ← alloc (zlen child * 8);
          _ ← alloc (zlen child * 8);
          entries ← (fix print_members l := match l with
                                             | [] => Ok []
                                             | c :: l =>
                                                n ← print_string_ptr (j_string c); e ← print_value fmt (S depth) c;
                                                es ← print_members l; Ok ((n, e) :: es)
                                             end) child;
          alloc_text (object_len fmt (S depth) entries) (compose_object fmt (S depth) entries)
       end
     else Fail
  end.
Definition shjson_Print (t : shjson_t) : res (list byte) := print_value true 0 t.
Definition shjson_PrintUnformatted (t : shjson_t) : res (list byte) := print_value false 0 t.
Definition shjson_print (t : shjson_t) : res (list byte) := shjson_PrintUnformatted t.
Definition shjson_init (json_str : option (list byte)) : res shjson_t :=
  match json_str with
  | None => if heap_ok JSON_SIZE then Ok (item None SHJSON_OBJECT) else Fault
  | Some text => shjson_Parse text
  end.
End json.
