(* ===== verification/JsonTree.v ===== *)
(** * JSON trees

    The operations of [mem/shmem_json.c] on items: creation, look-up, adding,
    removing and copying.  A function that changes the tree behind its argument
    returns the changed tree.  Items that refer to the memory of other items
    ([create_reference]) are not used by the program. *)

From S2P Require Import Prelude Errors Shbuf Crc Hmac Key Opt Json.

Section tree.
Context `{Real} `{Heap}.
Implicit Types (t : shjson_t) (name : option (list byte)).

Definition set_child (l : list shjson_t) t : shjson_t := Json (j_type t) (j_valuestring t) (j_valueint t) (j_valuedouble t) (j_string t) l.
Definition set_name (s : option (list byte)) t : shjson_t := Json (j_type t) (j_valuestring t) (j_valueint t) (j_valuedouble t) s (j_child t).
Definition strdup (s : list byte) : option (list byte) := if heap_ok (zlen s + 1) then Some s else None.

(** ** Creation *)
Definition shjson_New_Item : option shjson_t := if heap_ok JSON_SIZE then Some (item None 0) else None.
Definition create (type : Z) : option shjson_t :=
  t ← shjson_New_Item; Some (Json type (j_valuestring t) (j_valueint t) (j_valuedouble t) (j_string t) (j_child t)).
Definition shjson_CreateNull : option shjson_t := create SHJSON_NULL.
Definition shjson_CreateBool (b : bool) : option shjson_t := create (if b then SHJSON_TRUE else SHJSON_FALSE).
Definition shjson_CreateNumber (num : R) : option shjson_t :=
  t ← shjson_New_Item; Some (Json SHJSON_NUMBER (j_valuestring t) (rint num) num (j_string t) (j_child t)).
Definition shjson_CreateString (s : list byte) : option shjson_t :=
  t ← shjson_New_Item; Some (Json SHJSON_STRING (strdup s) (j_valueint t) (j_valuedouble t) (j_string t) (j_child t)).
Definition shjson_CreateArray : option shjson_t := create SHJSON_ARRAY.
Definition shjson_CreateObject : option shjson_t := create SHJSON_OBJECT.

(** ** Look-up *)
(** [shjson_strcasecmp] finds the name. *)
Definition has_name (string : list byte) t : bool := match j_string t with Some s => strcasecmp s string | None => false end.
Definition shjson_GetArraySize t : Z := zlen (j_child t).
Definition shjson_GetArrayItem t (i : Z) : option shjson_t := j_child t !! Z.to_nat i.
Definition shjson_GetObjectItem t (string : list byte) : option shjson_t := List.find (has_name string) (j_child t).
(** The item itself, or the one of that name. *)
Definition pick t name : option shjson_t := match name with Some n => shjson_GetObjectItem t n | None => Some t end.
Definition num_of t : R := if rnear (j_valueint t) (j_valuedouble t) then r_of (j_valueint t) else j_valuedouble t.
Definition shjson_num (json : option shjson_t) name (def : R) : R :=
  match json with None => r_of 0 | Some t => match pick t name with None => def | Some i => num_of i end end.
Definition shjson_bool (json : option shjson_t) name (def : Z) : Z :=
  match json with
  | None => 0
  | Some t => match pick t name with None => def | Some i => if j_type i =? SHJSON_TRUE then 1 else 0 end
  end.
(** [json] is not tested when there is a name. *)
Definition shjson_type (json : option shjson_t) name : option Z :=
  let kind (o : option shjson_t) := match o with
    | None => SHJSON_NULL
    | Some i => let type := Z.land (j_type i) 255 in
                if (type =? SHJSON_TRUE) || (type =? SHJSON_FALSE) then SHJSON_BOOLEAN else type
    end in
  match name, json with
  | Some n, None => None
  | Some n, Some t => Some (kind (shjson_GetObjectItem t n))
  | None, _ => Some (kind json)
  end.
Definition shjson_astr (json : option shjson_t) name (def : option (list byte)) : option (list byte) :=
  match json with None => None | Some t => match pick t name with None => def | Some i => j_valuestring i end end.
Definition shjson_str (json : option shjson_t) name (def : option (list byte)) : option (list byte) :=
  shjson_astr json name def ≫= strdup.
Definition shjson_obj (json : option shjson_t) name : option shjson_t := t ← json; pick t name.
Definition shjson_obj_get (json : option shjson_t) (n : list byte) : option shjson_t := t ← json; shjson_GetObjectItem t n.
Definition shjson_array_get (json : option shjson_t) (i : Z) : option shjson_t := t ← json; shjson_GetArrayItem t i.
Definition shjson_strlen (json : option shjson_t) name : Z :=
  match shjson_astr json name (Some []) with None => 0 | Some s => zlen s end.
(** [json] is not tested. *)
Definition shjson_crc (json : option shjson_t) name : option Z :=
  t ← (match name with Some n => shjson_obj_get json n | None => json end);
  if j_type t =? SHJSON_STRING then s ← j_valuestring t; Some (shcrc s)
  else if j_type t =? SHJSON_NUMBER then Some (shcrc (rbytes (num_of t)))
  else Some (shcrc (le_enc 4 (j_type t))).
Definition shjson_array_astr t name (idx : Z) : option (list byte) :=
  i ← pick t name;
  if (idx <? 0) || (shjson_GetArraySize i <? idx) then None
  else e ← shjson_GetArrayItem i idx; j_valuestring e.
Definition shjson_array_str t name (idx : Z) : option (list byte) := shjson_array_astr t name idx ≫= strdup.
Definition shjson_array_num t name (idx : Z) : R :=
  match pick t name with
  | None => r_of 0
  | Some i => if (idx <? 0) || (shjson_GetArraySize i <? idx) then r_of 0
              else match shjson_GetArrayItem i idx with None => r_of 0 | Some e => num_of e end
  end.
Definition shjson_array_count t name : Z := match pick t name with None => 0 | Some i => shjson_GetArraySize i end.

(** ** Adding and removing *)
Definition shjson_AddItemToArray t (o : option shjson_t) : shjson_t :=
  match o with None => t | Some i => set_child (j_child t ++ [i]) t end.
Definition shjson_AddItemToObject t (string : list byte) (o : option shjson_t) : shjson_t :=
  match o with None => t | Some i => shjson_AddItemToArray t (Some (set_name (strdup string) i)) end.
Definition shjson_DetachItemFromArray t (which : Z) : option shjson_t * shjson_t :=
  let i := Z.to_nat which in
  match j_child t !! i with
  | None => (None, t)
  | Some c => (Some c, set_child (take i (j_child t) ++ drop (S i) (j_child t)) t)
  end.
(** The place of the first item of that name. *)
Fixpoint find_index (i : Z) (string : list byte) (l : list shjson_t) : option Z :=
  match l with [] => None | c :: l => if has_name string c then Some i else find_index (i + 1) string l end.
Definition shjson_DetachItemFromObject t (string : list byte) : option shjson_t * shjson_t :=
  match find_index 0 string (j_child t) with Some i => shjson_DetachItemFromArray t i | None => (None, t) end.
Definition shjson_DeleteItemFromArray t (which : Z) : shjson_t := (shjson_DetachItemFromArray t which).2.
Definition shjson_DeleteItemFromObject t (string : list byte) : shjson_t := (shjson_DetachItemFromObject t string).2.
Definition shjson_ReplaceItemInArray t (which : Z) (new : shjson_t) : shjson_t :=
  set_child (<[Z.to_nat which := new]> (j_child t)) t.
Definition shjson_ReplaceItemInObject t (string : list byte) (new : shjson_t) : shjson_t :=
  match find_index 0 string (j_child t) with
  | Some i => shjson_ReplaceItemInArray t i (set_name (strdup string) new)
  | None => t
  end.

Definition del_name t name : shjson_t := match name with Some n => shjson_DeleteItemFromObject t n | None => t end.
Definition add_name t name (o : option shjson_t) : shjson_t :=
  match name with Some n => shjson_AddItemToObject t n o | None => shjson_AddItemToArray t o end.
Definition shjson_num_add t name (num : R) : shjson_t := add_name (del_name t name) name (shjson_CreateNumber num).
Definition shjson_null_add t name : shjson_t := add_name (del_name t name) name shjson_CreateNull.
Definition shjson_bool_add t name (b : bool) : shjson_t := add_name (del_name t name) name (shjson_CreateBool b).
Definition shjson_str_add t name (val : option (list byte)) : shjson_t :=
  match val with None => shjson_null_add t name | Some v => add_name (del_name t name) name (shjson_CreateString v) end.
(** These two leave an item of that name where it is. *)
Definition shjson_array_add t name : shjson_t := add_name t name shjson_CreateArray.
Definition shjson_obj_add t name : shjson_t := add_name t name shjson_CreateObject.

(** ** Copies *)
(** The members of [item] are added to [obj]; a container that could not be
    allocated is a null pointer, to which nothing can be added. *)
Fixpoint shjson_obj_append (item : shjson_t) (obj : shjson_t) {struct item} : res shjson_t :=
  match item with
  | Json _ _ _ _ _ child =>
     (fix loop (l : list shjson_t) (obj : shjson_t) : res shjson_t :=
        match l with
        | [] => Ok obj
        | node :: l =>
           let name := j_string node in
           let type := Z.land (j_type node) 255 in
           let nested (o : option shjson_t) : res shjson_t :=
             match o with
             | Some a => a ← shjson_obj_append node a; Ok (add_name obj name (Some a))
             | None => match j_child node with [] => Ok obj | _ => Fault end
             end in
           obj ←
             (if type =? SHJSON_NULL then Ok (shjson_null_add obj name)
              else if type =? SHJSON_FALSE then Ok (shjson_bool_add obj name false)
              else if type =? SHJSON_TRUE then Ok (shjson_bool_add obj name true)
              else if type =? SHJSON_NUMBER then Ok (shjson_num_add obj name (num_of node))
              else if type =? SHJSON_STRING then Ok (shjson_str_add obj name (shjson_str (Some node) None (Some [])))
              else if type =? SHJSON_ARRAY then nested shjson_CreateArray
              else if type =? SHJSON_OBJECT then nested shjson_CreateObject
              else Ok obj);
           loop l obj
        end) child obj
  end.
Fixpoint shjson_Duplicate (recurse : bool) t {struct t} : option shjson_t :=
  match t with
  | Json type vs vi vd str child =>
     if heap_ok JSON_SIZE then
       vs' ← (match vs with Some s => s' ← strdup s; Some (Some s') | None => Some None end);
       str' ← (match str with Some s => s' ← strdup s; Some (Some s') | None => Some None end);
       child' ← (if recurse then
                   (fix dup_list l := match l with [] => Some [] | c :: l => c' ← shjson_Duplicate true c; l' ← dup_list l; Some (c' :: l') end) child
                 else Some []);
       Some (Json (Z.land type (Z.lnot SHJSON_REFERENCE)) vs' vi vd str' child')
     else None
  end.
End tree.

(** ** Minifying

    [into] never overtakes [json], so that the text can be changed in place. *)
Fixpoint line_comment (l : list byte) : res (list byte) :=
  c ← rd l;
  if bool_decide (c = x00) || is_c 10 c then Ok l else match l with _ :: l => line_comment l | [] => Fault end.
Fixpoint block_comment (l : list byte) : res (list byte) :=
  match l with
  | [] => Fault
  | c :: r =>
     if bool_decide (c = x00) then Ok l
     else if is_c 42 c then d ← rd r; if is_c 47 d then Ok l else block_comment r
     else block_comment r
  end.
(** Behind the quote: what is copied, up to the closing quote or the end, and
    where the text goes on. *)
Fixpoint string_literal (l : list byte) : res (list byte * list byte) :=
  match l with
  | [] => Fault
  | c :: r =>
     if bool_decide (c = x00) || is_c 34 c then Ok ([c], r)
     else if is_c 92 c then
       match r with [] => Fault | d :: r => '(out, l) ← string_literal r; Ok (c :: d :: out, l) end
     else '(out, l) ← string_literal r; Ok (c :: out, l)
  end.
Definition white (c : byte) : bool := is_c 32 c || is_c 9 c || is_c 13 c || is_c 10 c.
Fixpoint minify (fuel : nat) (l : list byte) : res (list byte) :=
  c ← rd l;
  if bool_decide (c = x00) then Ok []
  else match fuel with
       | O => NoFuel
       | S fuel =>
          let r := tail l in
          let other := out ← minify fuel r; Ok (c :: out) in
          if white c then minify fuel r
          else if is_c 47 c then
            d ← rd r;
            if is_c 47 d then l ← line_comment l; minify fuel l
            else if is_c 42 d then l ← block_comment l; if (length l <? 2)%nat then Fault else minify fuel (drop 2 l)
            else other
          else if is_c 34 c then
            '(out, l) ← string_literal r; rest ← minify fuel l; Ok (c :: out ++ rest)
          else other
       end.
(** On a C string. *)
Definition shjson_Minify (text : list byte) : res (list byte) := minify (S (length text)) (text ++ [x00]).
