(* ===== verification/JsonSafe.v ===== *)
(** * The JSON parser ends and stays in its memory

    [rwp true] excludes that the fuel runs out; [rwp false] also excludes
    accesses outside the text and the allocations, for texts whose escapes are
    complete ([escapes_ok]). *)

From S2P Require Import Prelude Errors Shbuf Hmac Key Opt Json.

Definition rwp {A} (b : bool) (m : res A) (Q : A → Prop) : Prop :=
  match m with Ok a => Q a | Fail => True | Fault => b = true | NoFuel => False end.
Lemma rwp_mono {A} b (m : res A) (Q Q' : A → Prop) : rwp b m Q → (∀ a, Q a → Q' a) → rwp b m Q'.
Proof. unfold rwp. destruct m; auto. Qed.
Lemma rwp_bind {A B} b (m : res A) (k : A → res B) Q : rwp b m (λ a, rwp b (k a) Q) → rwp b (m ≫= k) Q.
Proof. unfold rwp, mbind, res_bind. by destruct m. Qed.
Lemma rwp_ok {A} b (a : A) (Q : A → Prop) : Q a → rwp b (Ok a) Q.
Proof. done. Qed.
Lemma rwp_fail {A} b (Q : A → Prop) : rwp b Fail Q.
Proof. done. Qed.
#[global] Hint Resolve rwp_fail : bc.

(** ** Texts *)
Definition hex4 (l : list byte) : Prop := ∃ a b c d r, l = a :: b :: c :: d :: r ∧ Forall (λ x, is_Some (hex_digit x)) [a; b; c; d].
(** What follows a backslash. *)
Definition esc_ok (l : list byte) : Prop := ∃ e r, l = e :: r ∧ e ≠ x00 ∧ (is_c 117 e = true → hex4 r).
Record escapes_ok (l : list byte) : Prop := {
  tx_end : last l = Some x00;
  tx_esc : ∀ l1 l2, l = l1 ++ c_back :: l2 → esc_ok l2;
}.
Definition good (b : bool) (l : list byte) : Prop := b = false → escapes_ok l.

Lemma is_c_spec n c : is_c n c = true ↔ c = chr n.
Proof. unfold is_c. apply bool_decide_eq_true. Qed.
Lemma good_tail b c l : good b (c :: l) → c ≠ x00 → good b l.
Proof.
  intros Hg Hc E. destruct (Hg E) as [Hl He]. split.
  - destruct l as [|d l]; [by injection Hl as ->|]. exact Hl.
  - intros l1 l2 ->. by apply (He (c :: l1)).
Qed.
Lemma good_app b l1 l2 : good b (l1 ++ l2) → x00 ∉ l1 → good b l2.
Proof.
  induction l1 as [|c l1 IH]; intros Hg Hn; [done|]. apply not_elem_of_cons in Hn as [Hc Hn]. apply IH; [|done]. by eapply good_tail.
Qed.
Lemma good_esc b l : good b (c_back :: l) → b = false → esc_ok l.
Proof. intros Hg E. apply (tx_esc _ (Hg E) []). done. Qed.
Lemma rwp_rd b l Q : good b l → (∀ c r, l = c :: r → Q c) → rwp b (rd l) Q.
Proof.
  intros Hg HQ. destruct l as [|c r]; cbn; [|by eapply HQ]. destruct b; [done|]. destruct (Hg eq_refl) as [Hl _]. done.
Qed.
Lemma hex_not c d : hex_digit c = Some d → c ≠ x00 ∧ is_c 34 c = false ∧ is_c 92 c = false ∧ 0 ≤ d < 16.
Proof.
  intros Hd. split_and!; try (destruct c; by vm_compute in Hd).
  - unfold hex_digit in Hd. destruct (_ && _) eqn:E1; [injection Hd as <-; lia|]. destruct ((65 <=? _) && _) eqn:E2; [injection Hd as <-; lia|].
    destruct ((97 <=? _) && _) eqn:E3; [injection Hd as <-; lia|done].
  - unfold hex_digit in Hd. destruct (_ && _) eqn:E1; [injection Hd as <-; lia|]. destruct ((65 <=? _) && _) eqn:E2; [injection Hd as <-; lia|].
    destruct ((97 <=? _) && _) eqn:E3; [injection Hd as <-; lia|done].
Qed.
Lemma hex4_digits l : hex4 l → ∃ h q, l = h ++ q ∧ length h = 4%nat ∧ Forall (λ x, is_Some (hex_digit x)) h.
Proof. intros (a & b & c & d & r & -> & Hh). by exists [a; b; c; d], r. Qed.
Lemma digits_nul h : Forall (λ x, is_Some (hex_digit x)) h → x00 ∉ h.
Proof. rewrite Forall_forall. intros Hh [d Hd]%Hh. by apply hex_not in Hd as [? _]. Qed.

(** ** The two passes over a string *)
Lemma scan_len_mono k l n : scan_len k l = Ok n → k ≤ n.
Proof.
  remember (length l) as m eqn:Em. revert k l Em. induction m as [m IH] using lt_wf_ind. intros k [|c l] ->; [done|]. cbn [scan_len].
  destruct (_ || _); [intros [= ->]; lia|]. destruct (is_c 92 c).
  - destruct l as [|e l]; [done|]. intros E. apply (IH (length l)) in E; [lia|cbn; lia|done].
  - intros E. apply (IH (length l)) in E; [lia|cbn; lia|done].
Qed.
Lemma scan_ok k l : good false l → ∃ n, scan_len k l = Ok n.
Proof.
  remember (length l) as m eqn:Em. revert k l Em. induction m as [m IH] using lt_wf_ind. intros k [|c l] -> Hg.
  - destruct (Hg eq_refl) as [Hl _]. done.
  - cbn [scan_len]. destruct (is_c 34 c || bool_decide (c = x00)) eqn:Eq; [eauto|]. apply orb_false_iff in Eq as [_ Hc%bool_decide_eq_false].
    destruct (is_c 92 c) eqn:Eb.
    + apply is_c_spec in Eb as ->. destruct (good_esc false l Hg eq_refl) as (e & r & -> & He & _).
      apply (IH (length r)); [cbn; lia|done|]. eapply good_tail; [|done]. by eapply good_tail.
    + apply (IH (length l)); [cbn; lia|done|]. by eapply good_tail.
Qed.
Lemma scan_digits k h q : Forall (λ x, is_Some (hex_digit x)) h → scan_len k (h ++ q) = scan_len (k + zlen h) q.
Proof.
  intros Hh. revert k. induction Hh as [|c h [d Hd] Hh IH]; intros k; cbn [app]; [f_equal; cbn; lia|]. cbn [scan_len].
  destruct (hex_not c d Hd) as (Hc & -> & -> & _). rewrite bool_decide_eq_false_2 by done. cbn [orb]. rewrite IH. f_equal. cbn [length]. lia.
Qed.
Lemma parse_hex_suffix b n h l : good b l → rwp b (parse_hex n h l) (λ _, True).
Proof.
  revert h l. induction n as [|n IH]; intros h l Hg; [done|]. cbn [parse_hex]. apply rwp_bind, rwp_rd; [done|]. intros c r ->.
  destruct (hex_digit c) as [d|] eqn:Ed; [|done]. apply IH. eapply good_tail; [done|]. by apply hex_not in Ed as [? _].
Qed.
Lemma parse_hex_range h n l v : parse_hex n h l = Ok v → 0 ≤ h → 0 ≤ v < (h + 1) * 16 ^ Z.of_nat n.
Proof.
  revert h l. induction n as [|n IH]; intros h l; cbn [parse_hex]; [intros [= <-]; cbn; lia|]. unfold mbind, res_bind.
  destruct (rd l) as [c| | |]; try done. destruct (hex_digit c) as [d|] eqn:Ed.
  - intros E Hh. apply hex_not in Ed as (_ & _ & _ & Hd). apply IH in E; [|rewrite Z.shiftl_mul_pow2; lia]. rewrite Z.shiftl_mul_pow2 in E by lia.
    rewrite Nat2Z.inj_succ, Z.pow_succ_r by lia. nia.
  - intros [= <-] Hh. assert (0 < 16 ^ Z.of_nat (S n)) by (apply Z.pow_pos_nonneg; lia). nia.
Qed.
Lemma parse_hex4_spec b l : good b l → rwp b (parse_hex4 l) (λ v, 0 ≤ v < 65536).
Proof.
  intros Hg. pose proof (parse_hex_suffix b 4 0 l Hg) as Hx. unfold parse_hex4. destruct (parse_hex 4 0 l) as [uc| | |] eqn:Eu; try done.
  apply parse_hex_range in Eu; [|done]. cbn in *. lia.
Qed.
Lemma length_utf8 uc : 0 ≤ uc → (length (utf8 uc) ≤ 4)%nat ∧ (uc < 0x10000 → (length (utf8 uc) ≤ 3)%nat).
Proof.
  assert (∀ n u acc, length (utf8_tail n u acc).2 = (n + length acc)%nat) as Ht.
  { induction n as [|n IH]; intros u acc; [done|]. cbn [utf8_tail]. rewrite IH. cbn. lia. }
  intros Hu. unfold utf8. set (len := if uc <? 0x80 then _ else _). specialize (Ht (len - 1)%nat uc []).
  destruct (utf8_tail (len - 1) uc []) as [u acc]. cbn [snd] in Ht. cbn [length] in *. rewrite Ht. subst len.
  destruct (uc <? 0x80); [lia|]. destruct (uc <? 0x800); [lia|]. destruct (Z.ltb_spec uc 0x10000); lia.
Qed.

Lemma hex_step b l : good b l → (b = false → hex4 l) →
  good b (drop 4 l) ∧ (b = false → ∀ k, scan_len k l = scan_len (k + 4) (drop 4 l)).
Proof.
  intros Hg Hh. destruct b; [by split|]. destruct (hex4_digits l (Hh eq_refl)) as (h & q & -> & Hl & Hd).
  rewrite drop_app_length' by done. split; [eapply good_app; [done|by apply digits_nul]|]. intros _ k. rewrite scan_digits by done. by rewrite Hl.
Qed.
Lemma scan_back k e r : e ≠ x00 → scan_len k (c_back :: e :: r) = scan_len (k + 1) r.
Proof. done. Qed.
Definition consumes (b : bool) (l : list byte) (x : list byte * list byte) : Prop :=
  (length x.2 ≤ length l)%nat ∧ good b x.2 ∧ (b = false → ∃ c, zlen x.1 ≤ c ∧ ∀ k, scan_len k l = scan_len (k + c) x.2).
Lemma parse_uni_spec b l : good b l → (b = false → hex4 l) → rwp b (parse_uni l) (consumes b l).
Proof.
  intros Hg Hh. unfold parse_uni. destruct (hex_step b l Hg Hh) as [Hq Hs]. set (q := drop 4 l) in *.
  assert (length q ≤ length l)%nat as Hlen by (unfold q; rewrite length_drop; lia).
  assert (∀ bs, zlen bs ≤ 4 → consumes b l (bs, q)) as Hdone.
  { intros bs Hb. split; [done|]. split; [done|]. intros E. exists 4. split; [done|]. by apply Hs. }
  apply rwp_bind. eapply rwp_mono; [by apply parse_hex4_spec|]. intros uc Eu. cbv beta zeta in *.
  destruct (_ || _); [apply rwp_ok, Hdone; cbn; lia|]. destruct ((0xD800 <=? uc) && (uc <=? 0xDBFF)).
  2:{ apply rwp_ok, Hdone. pose proof (length_utf8 uc ltac:(lia)) as [? _]. lia. }
  apply rwp_bind, rwp_rd; [done|]. intros c1 q1 Eq1. destruct (negb (is_c 92 c1)) eqn:E1; [apply rwp_ok, Hdone; cbn; lia|].
  apply negb_false_iff, is_c_spec in E1 as ->. rewrite Eq1 in Hq, Hs, Hlen |- *. cbn [tail]. pose proof (good_tail b _ _ Hq ltac:(done)) as Hq1.
  apply rwp_bind, rwp_rd; [done|]. intros c2 q2 Eq2. subst q1. destruct (negb (is_c 117 c2)) eqn:E2.
  { rewrite Eq1 in Hdone. apply rwp_ok, Hdone. cbn; lia. }
  apply negb_false_iff in E2. assert (c2 ≠ x00) as Hc2 by (apply is_c_spec in E2 as ->; done).
  pose proof (good_tail b _ _ Hq1 Hc2) as Hq2. assert (b = false → hex4 q2) as Hh2.
  { intros E. destruct (good_esc b _ Hq E) as (e & r & [= <- <-] & _ & Hhex). auto. }
  cbn [drop]. destruct (hex_step b q2 Hq2 Hh2) as [Hr Hsr].
  assert (∀ bs, zlen bs ≤ 4 → consumes b l (bs, drop 4 q2)) as Hdone2.
  { intros bs Hb. split; [|split; [done|]].
    - cbn [snd]. rewrite length_drop. cbn in Hlen. lia.
    - intros E. exists 9. split; [cbn; lia|]. intros k. rewrite (Hs E), (scan_back _ c2 q2 Hc2), (Hsr E). cbn [snd]. f_equal. lia. }
  apply rwp_bind. eapply rwp_mono; [by apply parse_hex4_spec|]. intros uc2 Eu2. cbv beta in Eu2. destruct (_ || _); apply rwp_ok, Hdone2; [cbn; lia|].
  assert (0 ≤ Z.lor (Z.shiftl (Z.land uc 0x3FF) 10) (Z.land uc2 0x3FF)) as Hnn.
  { apply Z.lor_nonneg. split; [apply Z.shiftl_nonneg|]; apply Z.land_nonneg; lia. }
  pose proof (length_utf8 (0x10000 + Z.lor (Z.shiftl (Z.land uc 0x3FF) 10) (Z.land uc2 0x3FF)) ltac:(lia)) as [? _]. lia.
Qed.

Definition shorter (l r : list byte) : Prop := (length r ≤ length l)%nat.
Lemma shorter_refl l : shorter l l.
Proof. unfold shorter. lia. Qed.
#[global] Hint Resolve shorter_refl : core.
Lemma emit_spec b cap out bs : (b = false → zlen out + zlen bs ≤ cap) → rwp b (emit cap out bs) (λ o, zlen o = zlen out + zlen bs).
Proof.
  intros Hc. unfold emit. destruct (Z.leb_spec (zlen out + zlen bs) cap).
  - apply rwp_ok. rewrite length_app. lia.
  - destruct b; [done|]. specialize (Hc eq_refl). lia.
Qed.
(** The room that is left for what the first pass counts from here. *)
Definition fits (b : bool) (cap : Z) (out l : list byte) : Prop :=
  b = false → ∃ k n, scan_len k l = Ok n ∧ zlen out + (n - k) + 1 ≤ cap.
Lemma copy_spec b fuel cap out l : good b l → (length l ≤ fuel)%nat → fits b cap out l →
  rwp b (copy_loop fuel cap out l) (λ x, shorter l x.2 ∧ good b x.2 ∧ (b = false → zlen x.1 + 1 ≤ cap)).
Proof.
  revert out l. induction fuel as [|fuel IH]; intros out l Hg Hl Hf; cbn [copy_loop].
  { destruct l; [|cbn in Hl; lia]. apply rwp_bind, rwp_rd; [done|]. done. }
  apply rwp_bind, rwp_rd; [done|]. intros c r ->. destruct (is_c 34 c || bool_decide (c = x00)) eqn:Estop.
  { apply rwp_ok. split; [done|]. split; [done|]. intros E. destruct (Hf E) as (k & n & Hs & Hn). cbn [scan_len] in Hs. rewrite Estop in Hs.
    injection Hs as <-. cbn [fst]. lia. }
  pose proof Estop as [_ Hc%bool_decide_eq_false]%orb_false_iff. pose proof (good_tail b _ _ Hg Hc) as Hgr. cbn [length] in Hl.
  destruct (is_c 92 c) eqn:Eb; cbn [negb tail drop].
  2:{ apply rwp_bind. eapply rwp_mono; [apply emit_spec|].
      - intros E. destruct (Hf E) as (k & n & Hs & Hn). cbn [scan_len] in Hs. rewrite Estop, Eb in Hs. apply scan_len_mono in Hs. cbn. lia.
      - intros o Ho. cbv beta in Ho. eapply rwp_mono; [apply (IH o r Hgr); [lia|]|].
        + intros E. destruct (Hf E) as (k & n & Hs & Hn). cbn [scan_len] in Hs. rewrite Estop, Eb in Hs. exists (k + 1), n. split; [done|]. cbn in Ho. lia.
        + intros x (Hx & Hrest). split; [unfold shorter in *; cbn [length]; lia|done]. }
  apply is_c_spec in Eb as ->. apply rwp_bind, rwp_rd; [done|]. intros e r2 ->. cbn [length] in Hl.
  assert (b = false → e ≠ x00 ∧ (is_c 117 e = true → hex4 r2)) as Hesc.
  { intros E. destruct (good_esc b _ Hg E) as (e' & r' & [= <- <-] & He & Hhex). done. }
  assert (good b r2) as Hg2. { destruct b; [done|]. eapply good_tail; [exact Hgr|]. by apply Hesc. }
  assert (b = false → ∃ k n, scan_len k r2 = Ok n ∧ zlen out + (n - k) + 2 ≤ cap) as Hf2.
  { intros E. destruct (Hf E) as (k & n & Hs & Hn). destruct (Hesc E) as [He _]. change (chr 92) with c_back in Hs. rewrite scan_back in Hs by done.
    exists (k + 1), n. split; [done|]. lia. }
  destruct (is_c 117 e) eqn:Eu.
  - apply rwp_bind. eapply rwp_mono; [apply (parse_uni_spec b r2 Hg2); intros E; by apply Hesc|]. intros [bs l2] (Hl2 & Hgl2 & Hc2). cbn [fst snd] in *.
    apply rwp_bind. eapply rwp_mono; [apply emit_spec|].
    + intros E. destruct (Hf2 E) as (k & n & Hs & Hn). destruct (Hc2 E) as (d & Hd & Hsd). rewrite (Hsd k) in Hs. apply scan_len_mono in Hs. lia.
    + intros o Ho. cbv beta in Ho. eapply rwp_mono; [apply (IH o l2 Hgl2); [lia|]|].
      * intros E. destruct (Hf2 E) as (k & n & Hs & Hn). destruct (Hc2 E) as (d & Hd & Hsd). rewrite (Hsd k) in Hs. exists (k + d), n. split; [done|]. lia.
      * intros x (Hx & Hrest). split; [unfold shorter in *; cbn [length]; lia|done].
  - apply rwp_bind. eapply rwp_mono; [apply emit_spec|].
    + intros E. destruct (Hf2 E) as (k & n & Hs & Hn). apply scan_len_mono in Hs. cbn. lia.
    + intros o Ho. cbv beta in Ho. eapply rwp_mono; [apply (IH o r2 Hg2); [lia|]|].
      * intros E. destruct (Hf2 E) as (k & n & Hs & Hn). exists k, n. split; [done|]. cbn in Ho. lia.
      * intros x (Hx & Hrest). split; [unfold shorter in *; cbn [length]; lia|done].
Qed.

Section safe.
Context `{Real} `{Heap}.
Lemma json_alloc_spec b n (Q : unit → Prop) : Q tt → rwp b (alloc n) Q.
Proof. intros HQ. unfold alloc. by destruct (heap_ok n). Qed.
Definition reads {A} (b : bool) (l : list byte) (x : A * list byte) : Prop := shorter l x.2 ∧ good b x.2.
Lemma parse_string_spec b l : good b l → rwp b (parse_string l) (reads b l).
Proof.
  intros Hg. unfold parse_string. apply rwp_bind, rwp_rd; [done|]. intros c r ->. destruct (negb (is_c 34 c)) eqn:E; [done|].
  apply negb_false_iff, is_c_spec in E as ->. pose proof (good_tail b _ _ Hg ltac:(done)) as Hr. cbn [tail]. cbv zeta. apply rwp_bind.
  apply rwp_mono with (Q := λ n, scan_len 0 r = Ok n).
  { destruct b; [|destruct (scan_ok 0 r Hr) as [n ->]; done]. clear Hg Hr.
    assert (∀ k, scan_len k r ≠ NoFuel ∧ scan_len k r ≠ Fail) as Hn.
    { remember (length r) as m eqn:Em. revert r Em. induction m as [m IH] using lt_wf_ind. intros [|c r] -> k; [done|]. cbn [scan_len].
      destruct (_ || _); [done|]. destruct (is_c 92 c); [destruct r as [|e r]; [done|]|]; (eapply IH; [|reflexivity]; cbn; lia). }
    destruct (Hn 0). by destruct (scan_len 0 r). }
  intros n Hn. cbv beta in Hn. apply rwp_bind, json_alloc_spec. apply rwp_bind. eapply rwp_mono; [apply (copy_spec b (length r) (n + 1) [] r Hr); [done|]|].
  { intros _. exists 0, n. split; [done|]. cbn. lia. }
  intros [out l2] (Hl & Hg2 & Hcap). cbn [fst snd] in *. apply rwp_bind. eapply rwp_mono; [apply emit_spec; intros E; specialize (Hcap E); cbn; lia|].
  intros _ _. apply rwp_bind, rwp_rd; [done|]. intros c r2 ->. apply rwp_ok. unfold reads, shorter in *. cbn [length] in *.
  destruct (is_c 34 c) eqn:Eq; cbn [snd tail length]; [|split; [lia|done]]. split; [lia|]. apply is_c_spec in Eq as ->. by eapply good_tail.
Qed.
Lemma skip_spec b l : good b l → rwp b (skip l) (λ r, shorter l r ∧ good b r).
Proof.
  induction l as [|c l IH]; intros Hg; cbn [skip]; [by apply (rwp_rd b [] (λ _, True)) in Hg|].
  destruct (blank c) eqn:Eb; [|by apply rwp_ok]. eapply rwp_mono; [apply IH|].
  - eapply good_tail; [done|]. intros ->. done.
  - intros r [Hs Hr]. split; [unfold shorter in *; cbn; lia|done].
Qed.
Lemma strn_eq_spec b pat l : good b l → x00 ∉ pat → rwp b (strn_eq pat l) (λ r, r = true → good b (drop (length pat) l)).
Proof.
  revert l. induction pat as [|p pat IH]; intros l Hg Hp; cbn [strn_eq]; [by apply rwp_ok|]. apply not_elem_of_cons in Hp as [Hp Hps].
  apply rwp_bind, rwp_rd; [done|]. intros c r ->. destruct (bool_decide_reflect (c = p)) as [->|]; [|by apply rwp_ok].
  cbn [tail length drop]. apply IH; [|done]. by eapply good_tail.
Qed.
Lemma is_digit_nul c : is_digit c = true → c ≠ x00.
Proof. by intros Hc ->. Qed.
Lemma digits_spec b n sc fr l : good b l → rwp b (read_digits n sc fr l) (reads b l).
Proof.
  revert n sc. induction l as [|c l IH]; intros n sc Hg; cbn [read_digits]; [by apply (rwp_rd b [] (λ _, True)) in Hg|].
  destruct (is_digit c) eqn:Ed; [|by apply rwp_ok]. eapply rwp_mono; [apply IH; eapply good_tail; [done|by apply is_digit_nul]|].
  intros x [Hs Hr]. split; [unfold shorter in *; cbn; lia|done].
Qed.
Lemma exp_digits_spec b sub l : good b l → rwp b (exp_digits sub l) (reads b l).
Proof.
  revert sub. induction l as [|c l IH]; intros sub Hg; cbn [exp_digits]; [by apply (rwp_rd b [] (λ _, True)) in Hg|].
  destruct (is_digit c) eqn:Ed; [|by apply rwp_ok]. eapply rwp_mono; [apply IH; eapply good_tail; [done|by apply is_digit_nul]|].
  intros x [Hs Hr]. split; [unfold shorter in *; cbn; lia|done].
Qed.

Lemma reads_tail {A} b c r (a : A) : good b (c :: r) → c ≠ x00 → reads b (c :: r) (a, r).
Proof. intros Hg Hc. split; [unfold shorter; cbn; lia|by eapply good_tail]. Qed.
Lemma reads_refl {A} b l (a : A) : good b l → reads b l (a, l).
Proof. by split. Qed.
Lemma reads_trans {A B} b l (x : A * list byte) (y : B * list byte) : reads b l x → reads b x.2 y → reads b l y.
Proof. intros [H1 _] [H2 Hg]. split; [unfold shorter in *; lia|done]. Qed.
(** An optional character. *)
Lemma opt_tail {A} b n c r (x y : A) : good b (c :: r) → chr n ≠ x00 →
  reads b (c :: r) (if is_c n c then (x, r) else (y, c :: r)).
Proof. intros Hg Hn. destruct (is_c n c) eqn:E; [|by apply reads_refl]. apply is_c_spec in E as ->. by apply reads_tail. Qed.
Lemma parse_number_spec b l : good b l → rwp b (parse_number l) (reads b l).
Proof.
  intros Hg. unfold parse_number. apply rwp_bind, rwp_rd; [done|]. intros c r ->. cbn [tail].
  pose proof (opt_tail b 45 c r (r_of (-1)) (r_of 1) Hg ltac:(done)) as Hs. destruct (if is_c 45 c then _ else _) as [sign l1].
  apply (rwp_mono b _ (reads b l1)); [|intros x Hx; by eapply reads_trans]. destruct Hs as [_ Hg1]. cbn [snd] in Hg1.
  apply rwp_bind, rwp_rd; [done|]. intros c1 r1 ->. cbn [tail].
  pose proof (opt_tail b 48 c1 r1 tt tt Hg1 ltac:(done)) as Hs. cbv zeta. 
  assert ((if is_c 48 c1 then r1 else c1 :: r1) = (if is_c 48 c1 then (tt, r1) else (tt, c1 :: r1)).2) as -> by (by destruct (is_c 48 c1)).
  set (l2 := (if is_c 48 c1 then (tt, r1) else (tt, c1 :: r1)).2) in *.
  apply (rwp_mono b _ (reads b l2)); [|intros x Hx; by eapply reads_trans]. destruct Hs as [_ Hg2]. fold l2 in Hg2.
  apply rwp_bind, rwp_rd; [done|]. intros c2 r2 E2. apply rwp_bind. apply rwp_mono with (Q := reads b l2).
  { destruct (_ && _); [by apply digits_spec|]. by apply rwp_ok, reads_refl. }
  intros [[n1 sc1] l3] H3. apply (rwp_mono b _ (reads b l3)); [|intros x Hx; by eapply reads_trans]. destruct H3 as [_ Hg3]. cbn [snd] in Hg3.
  apply rwp_bind, rwp_rd; [done|]. intros c3 r3 ->. cbn [tail]. apply rwp_bind. apply rwp_mono with (Q := reads b (c3 :: r3)).
  { destruct (is_c 46 c3) eqn:E3; [|by apply rwp_ok, reads_refl]. apply is_c_spec in E3 as ->. pose proof (good_tail b _ _ Hg3 ltac:(done)) as Hr3.
    apply rwp_bind, rwp_rd; [done|]. intros c4 r4 ->. destruct (is_digit c4); [|by apply rwp_ok, reads_refl].
    eapply rwp_mono; [by apply digits_spec|]. intros x Hx. eapply reads_trans; [by apply (reads_tail b _ _ tt)|done]. }
  intros [[n2 sc2] l4] H4. apply (rwp_mono b _ (reads b l4)); [|intros x Hx; by eapply reads_trans]. destruct H4 as [_ Hg4]. cbn [snd] in Hg4.
  apply rwp_bind, rwp_rd; [done|]. intros c5 r5 ->. cbn [tail]. apply rwp_bind. apply rwp_mono with (Q := reads b (c5 :: r5)).
  { destruct (is_c 101 c5 || is_c 69 c5) eqn:E5; [|by apply rwp_ok, reads_refl].
    assert (c5 ≠ x00) as Hc5 by (intros ->; done). pose proof (good_tail b _ _ Hg4 Hc5) as Hr5.
    apply (rwp_mono b _ (reads b r5)); [|intros x Hx; eapply reads_trans; [by apply (reads_tail b _ _ tt)|done]].
    apply rwp_bind, rwp_rd; [done|]. intros c6 r6 ->. cbn [tail].
    assert (reads b (c6 :: r6) (if is_c 43 c6 then (1, r6) else if is_c 45 c6 then (-1, r6) else (1, c6 :: r6))) as H6.
    { destruct (is_c 43 c6) eqn:E6; [apply is_c_spec in E6 as ->; by apply reads_tail|]. by apply opt_tail. }
    destruct (if is_c 43 c6 then _ else _) as [sg l6]. apply (rwp_mono b _ (reads b l6)); [|intros x Hx; by eapply reads_trans].
    destruct H6 as [_ Hg6]. cbn [snd] in Hg6. apply rwp_bind. eapply rwp_mono; [by apply exp_digits_spec|]. intros [sub l7] H7. apply rwp_ok.
    destruct H7 as [H7 H7']. by split. }
  intros [[sub sg] l5] H5. apply rwp_ok. destruct H5 as [H5 H5']. by split.
Qed.

(** ** Values *)
Lemma parse_spec b fuel :
  (∀ name l, good b l → (2 * length l + 1 ≤ fuel)%nat → rwp b (parse_value fuel name l) (reads b l)) ∧
  (∀ l, good b l → (2 * length l + 2 ≤ fuel)%nat → rwp b (parse_items fuel l) (reads b l)) ∧
  (∀ l, good b l → (2 * length l + 2 ≤ fuel)%nat → rwp b (parse_members fuel l) (reads b l)).
Proof.
  induction fuel as [|fuel (IHv & IHi & IHm)]; [split_and!; intros; lia|]. split_and!.
  - intros name l Hg Hf. cbn [parse_value].
    assert (∀ pat t (k : res (shjson_t * list byte)), x00 ∉ pat → rwp b k (reads b l) →
      rwp b (r ← strn_eq pat l; if r : bool then Ok (t, drop (length pat) l) else k) (reads b l)) as Hlit.
    { intros pat t k Hp Hk. apply rwp_bind. eapply rwp_mono; [by apply strn_eq_spec|]. intros [] Hr; [|done]. apply rwp_ok.
      split; [unfold shorter; cbn [snd]; rewrite length_drop; lia|by apply Hr]. }
    apply (Hlit (bytes "null")); [by vm_compute; set_solver|]. apply (Hlit (bytes "false")); [by vm_compute; set_solver|].
    apply (Hlit (bytes "true")); [by vm_compute; set_solver|]. clear Hlit.
    apply rwp_bind, rwp_rd; [done|]. intros c r ->. cbn [length] in Hf. cbn [tail]. destruct (is_c 34 c).
    { apply rwp_bind. eapply rwp_mono; [by apply parse_string_spec|]. intros [s l2] H2. apply rwp_ok. exact H2. }
    destruct (is_c 45 c || is_digit c).
    { apply rwp_bind. eapply rwp_mono; [by apply parse_number_spec|]. intros [s l2] H2. apply rwp_ok. exact H2. }
    assert (∀ (open : Z) close ty (par : nat → list byte → res (list shjson_t * list byte)), chr open ≠ x00 → chr close ≠ x00 → c = chr open →
      (∀ l, good b l → (2 * length l + 2 ≤ fuel)%nat → rwp b (par fuel l) (reads b l)) →
      rwp b (l ← skip r; c ← rd l; if is_c close c then Ok (item name ty, tail l) else
        '(items, l) ← par fuel l; c ← rd l; if is_c close c then Ok (Json ty None 0 (r_of 0) name items, tail l) else Fail) (reads b (c :: r))) as Hbr.
    { intros open close ty par Ho Hc -> IH. pose proof (good_tail b _ _ Hg Ho) as Hr.
      apply (rwp_mono b _ (reads b r)); [|intros x Hx; eapply reads_trans; [by apply (reads_tail b _ _ tt)|done]].
      apply rwp_bind. eapply rwp_mono; [by apply skip_spec|]. intros l2 [Hs Hg2]. unfold shorter in Hs.
      apply rwp_bind, rwp_rd; [done|]. intros c2 r2 ->. cbn [tail length] in *. destruct (is_c close c2) eqn:E2.
      - apply rwp_ok. apply is_c_spec in E2 as ->. split; [unfold shorter; cbn; lia|by eapply good_tail].
      - apply rwp_bind. eapply rwp_mono; [apply (IH _ Hg2); cbn; lia|]. intros [items l3] [H3 Hg3]. unfold shorter in H3. cbn [snd] in *.
        apply rwp_bind, rwp_rd; [done|]. intros c3 r3 ->. cbn [tail length] in *. destruct (is_c close c3) eqn:E3; [|done].
        apply rwp_ok. apply is_c_spec in E3 as ->. split; [unfold shorter; cbn; lia|by eapply good_tail]. }
    destruct (is_c 91 c) eqn:E91; [apply (Hbr 91 93 SHJSON_ARRAY parse_items); [done|done|by apply is_c_spec|done]|].
    destruct (is_c 123 c) eqn:E123; [apply (Hbr 123 125 SHJSON_OBJECT parse_members); [done|done|by apply is_c_spec|done]|]. done.
  - intros l Hg Hf. cbn [parse_items]. apply rwp_bind, json_alloc_spec. apply rwp_bind. eapply rwp_mono; [by apply skip_spec|]. intros l1 [H1 Hg1].
    unfold shorter in H1. apply rwp_bind. eapply rwp_mono; [apply (IHv None l1 Hg1); lia|]. intros [t l2] [H2 Hg2]. unfold shorter in H2. cbn [snd] in *.
    apply rwp_bind. eapply rwp_mono; [by apply skip_spec|]. intros l3 [H3 Hg3]. unfold shorter in H3. apply rwp_bind, rwp_rd; [done|].
    intros c r ->. cbn [tail length] in *. destruct (is_c 44 c) eqn:E; [|apply rwp_ok; split; [unfold shorter; cbn; lia|done]].
    apply is_c_spec in E as ->. apply rwp_bind. eapply rwp_mono; [apply IHi; [by eapply good_tail|lia]|]. intros [ts l4] [H4 Hg4]. apply rwp_ok.
    split; [unfold shorter in *; cbn in *; lia|done].
  - intros l Hg Hf. cbn [parse_members]. apply rwp_bind, json_alloc_spec. apply rwp_bind. eapply rwp_mono; [by apply skip_spec|]. intros l1 [H1 Hg1].
    unfold shorter in H1. apply rwp_bind. eapply rwp_mono; [by apply parse_string_spec|]. intros [nm l2] [H2 Hg2]. unfold shorter in H2. cbn [snd] in *.
    apply rwp_bind. eapply rwp_mono; [by apply skip_spec|]. intros l3 [H3 Hg3]. unfold shorter in H3. apply rwp_bind, rwp_rd; [done|].
    intros c r ->. cbn [tail length] in *. destruct (negb (is_c 58 c)) eqn:E; [done|]. apply negb_false_iff, is_c_spec in E as ->.
    apply rwp_bind. eapply rwp_mono; [apply skip_spec; by eapply good_tail|]. intros l4 [H4 Hg4]. unfold shorter in H4.
    apply rwp_bind. eapply rwp_mono; [apply (IHv (Some nm) l4 Hg4); lia|]. intros [t l5] [H5 Hg5]. unfold shorter in H5. cbn [snd] in *.
    apply rwp_bind. eapply rwp_mono; [by apply skip_spec|]. intros l6 [H6 Hg6]. unfold shorter in H6. apply rwp_bind, rwp_rd; [done|].
    intros c2 r2 ->. cbn [tail length] in *. destruct (is_c 44 c2) eqn:E; [|apply rwp_ok; split; [unfold shorter; cbn; lia|done]].
    apply is_c_spec in E as ->. apply rwp_bind. eapply rwp_mono; [apply IHm; [by eapply good_tail|lia]|]. intros [ts l7] [H7 Hg7]. apply rwp_ok.
    split; [unfold shorter in *; cbn in *; lia|done].
Qed.
Lemma parse_opts_spec b l term : good b l → rwp b (shjson_ParseWithOpts l term) (reads b l).
Proof.
  intros Hg. unfold shjson_ParseWithOpts. apply rwp_bind, json_alloc_spec. apply rwp_bind. eapply rwp_mono; [by apply skip_spec|].
  intros l1 [H1 Hg1]. apply rwp_bind. eapply rwp_mono; [apply (parse_spec b (parse_fuel l1)); [done|unfold parse_fuel; lia]|].
  intros [t l2] [H2 Hg2]. unfold shorter in *. cbn [snd] in *. destruct term; [|apply rwp_ok; split; [unfold shorter; cbn; lia|done]].
  apply rwp_bind. eapply rwp_mono; [by apply skip_spec|]. intros l3 [H3 Hg3]. unfold shorter in H3. apply rwp_bind, rwp_rd; [done|]. intros c r ->.
  destruct (bool_decide _); [|done]. apply rwp_ok. split; [unfold shorter; cbn in *; lia|done].
Qed.
End safe.
