(* ===== verification/JsonSpec.v ===== *)
(** * JSON: printing and parsing

    [jval] is what an item stands for; printing an item gives the text of its
    value, and parsing that text, formatted or not, gives an item of that
    value. *)

From S2P Require Import Prelude Errors Shbuf Hmac Key Opt ShmapSpec Json JsonSafe.

(** ** Values *)
#[local] Unset Elimination Schemes.
Inductive jval :=
  | VNull
  | VBool (b : bool)
  | VNum (z : Z)
  | VStr (s : list byte)
  | VArr (l : list jval)
  | VObj (l : list (list byte * jval)).
#[local] Set Elimination Schemes.
Section ind.
Variable P : jval → Prop.
Hypothesis Hnull : P VNull.
Hypothesis Hbool : ∀ b, P (VBool b).
Hypothesis Hnum : ∀ z, P (VNum z).
Hypothesis Hstr : ∀ s, P (VStr s).
Hypothesis Harr : ∀ l, Forall P l → P (VArr l).
Hypothesis Hobj : ∀ l, Forall (λ e, P e.2) l → P (VObj l).
Fixpoint jval_ind (v : jval) : P v :=
  match v with
  | VNull => Hnull
  | VBool b => Hbool b
  | VNum z => Hnum z
  | VStr s => Hstr s
  | VArr l => Harr l ((fix go l := match l return Forall P l with [] => @List.Forall_nil _ P | x :: l => @List.Forall_cons _ P x l (jval_ind x) (go l) end) l)
  | VObj l => Hobj l ((fix go l := match l return Forall (λ e, P e.2) l with
                                    | [] => @List.Forall_nil _ (λ e, P e.2)
                                    | x :: l => @List.Forall_cons _ (λ e, P e.2) x l (jval_ind x.2) (go l)
                                    end) l)
  end.
End ind.

Fixpoint jwf (v : jval) : Prop :=
  match v with
  | VNum z => - 2 ^ 31 ≤ z < 2 ^ 31
  | VStr s => x00 ∉ s
  | VArr l => (fix go l := match l with [] => True | x :: l => jwf x ∧ go l end) l
  | VObj l => (fix go l := match l with [] => True | e :: l => ((x00 ∉ e.1) ∧ jwf e.2) ∧ go l end) l
  | _ => True
  end.
Lemma jwf_arr l : jwf (VArr l) ↔ Forall jwf l.
Proof. induction l as [|x l IH]; [done|]. rewrite Forall_cons, <-IH. done. Qed.
Lemma jwf_obj l : jwf (VObj l) ↔ Forall (λ e, (x00 ∉ e.1) ∧ jwf e.2) l.
Proof. induction l as [|x l IH]; [done|]. rewrite Forall_cons, <-IH. done. Qed.

(** Doubles hold the integers of 32 bits exactly. *)
Class RealOk `{Real} : Prop := {
  real_step a d : 0 ≤ a → 0 ≤ d ≤ 9 → 10 * a + d < 2 ^ 53 → radd (rmul (r_of a) (r_of 10)) (r_of d) = r_of (10 * a + d);
  real_pos n : 0 ≤ n < 2 ^ 53 → rmul (r_of 1) (r_of n) = r_of n;
  real_neg n : 0 < n < 2 ^ 53 → rmul (r_of (-1)) (r_of n) = r_of (- n);
  real_scale n : - 2 ^ 53 < n < 2 ^ 53 → rmul (r_of n) (rpow10 (radd (r_of 0) (r_of 0))) = r_of n;
  real_int n : - 2 ^ 31 ≤ n < 2 ^ 31 → rint (r_of n) = n;
  real_u32 n : 0 ≤ n < 2 ^ 32 → ru32 (r_of n) = n;
  real_near n : - 2 ^ 31 ≤ n < 2 ^ 31 → rnear n (r_of n) = true;
  real_range n d : rnear n d = true → - 2 ^ 31 ≤ n < 2 ^ 31;
  real_fmt d : zlen (rfmt d) ≤ 63;
}.

(** ** Texts *)
Definition quoted (s : list byte) : list byte := c_quote :: concat (escape <$> s) ++ [c_quote].
Fixpoint jtext (fmt : bool) (depth : nat) (v : jval) : list byte :=
  match v with
  | VNull => bytes "null"
  | VBool b => if b then bytes "true" else bytes "false"
  | VNum z => dec z
  | VStr s => quoted s
  | VArr [] => bytes "[]"
  | VArr l => compose_array fmt (jtext fmt (S depth) <$> l)
  | VObj [] => [chr 123] ++ only fmt ([chr 10] ++ tabs (depth - 1)) ++ [chr 125]
  | VObj l => compose_object fmt (S depth) ((λ e, (quoted e.1, jtext fmt (S depth) e.2)) <$> l)
  end.

(** ** Running the parser *)
Lemma bind_ok {A B} (a : A) (k : A → res B) : Ok a ≫= k = k a.
Proof. done. Qed.
Lemma bind_rd {B} c l (k : byte → res B) : rd (c :: l) ≫= k = k c.
Proof. done. Qed.
Ltac run := repeat first
  [ rewrite bind_ok | rewrite bind_rd
  | match goal with E : ?b = true |- context [?b] => rewrite E | E : ?b = false |- context [?b] => rewrite E end
  | progress cbn [tail drop negb orb andb app] ].

(** ** Decimal numbers *)
Definition dval (ds : list byte) (a : Z) : Z := foldl (λ a c, 10 * a + (Z_of_byte c - 48)) a ds.
Record numeral (x : Z) (ds : list byte) : Prop := {
  nu_digits : Forall (λ c, is_digit c = true) ds;
  nu_head : ∃ c r, ds = c :: r ∧ is_c 48 c = false;
  nu_val : dval ds 0 = x;
  nu_len : x < 10 ^ 19 → (length ds ≤ 19)%nat;
}.
Lemma byte_digit (d : N) : (d < 10)%N → ∃ c, bytes (String (pretty_N_char d) "") = [c] ∧ is_digit c = true ∧ Z_of_byte c - 48 = Z.of_N d ∧ (is_c 48 c = true → d = 0%N).
Proof.
  intros Hd. assert (d = 0 ∨ d = 1 ∨ d = 2 ∨ d = 3 ∨ d = 4 ∨ d = 5 ∨ d = 6 ∨ d = 7 ∨ d = 8 ∨ d = 9)%N as Hc by lia.
  destruct_or! Hc; subst d; (eexists; split; [reflexivity|]; split; [reflexivity|]; split; [reflexivity|]; done).
Qed.
Lemma pretty_go_spec (x : N) : (0 < x)%N → ∃ ds, (∀ s, bytes (pretty_N_go x s) = ds ++ bytes s) ∧
  Forall (λ c, is_digit c = true) ds ∧ (∃ c r, ds = c :: r ∧ is_c 48 c = false) ∧ dval ds 0 = Z.of_N x ∧ ∀ k, (x < 10 ^ k)%N → (length ds ≤ N.to_nat k)%nat.
Proof.
  induction (N.lt_wf_0 x) as [x _ IH]. intros Hx. destruct (byte_digit (x `mod` 10)) as (c & Ec & Hdc & Hvc & Hzc); [by apply N.mod_lt|].
  assert (∀ s, bytes (String (pretty_N_char (x `mod` 10)) s) = c :: bytes s) as Es.
  { intros s. unfold bytes in *. cbn in *. by injection Ec as ->. }
  destruct (decide (x < 10)%N) as [Hlt|Hge].
  - exists [c]. split; [|split; [by constructor|split; [|split]]].
    + intros s. rewrite pretty_N_go_step by done. rewrite N.div_small by done. rewrite pretty_N_go_0. apply Es.
    + exists c, []. split; [done|]. destruct (is_c 48 c) eqn:E; [|done]. specialize (Hzc eq_refl). rewrite N.mod_small in Hzc by done. lia.
    + unfold dval. cbn [foldl]. rewrite N.mod_small in Hvc by done. lia.
    + intros k Hk. cbn. destruct (decide (k = 0)%N) as [->|]; [cbn in Hk; lia|lia].
  - destruct (IH (x `div` 10)%N) as (ds & Hs & Hd & Hh & Hv & Hl).
    { apply N.div_lt; lia. } { apply N.div_str_pos. lia. }
    exists (ds ++ [c]). split; [|split; [|split; [|split]]].
    + intros s. rewrite pretty_N_go_step by done. rewrite Hs, Es. by rewrite <-(assoc_L (++)).
    + apply Forall_app. split; [done|]. by constructor.
    + destruct Hh as (c0 & r & -> & Hc0). by exists c0, (r ++ [c]).
    + unfold dval in *. rewrite foldl_app. cbn [foldl]. rewrite Hv, Hvc. rewrite (N.div_mod x 10) at 3 by done. lia.
    + intros k Hk. rewrite length_app. cbn [length]. destruct (decide (k = 0)%N) as [->|]; [cbn in Hk; lia|].
      assert (length ds ≤ N.to_nat (k - 1))%nat; [|lia]. apply Hl. apply N.Div0.div_lt_upper_bound.
      rewrite <-N.pow_succ_r'. by replace (N.succ (k - 1)) with k by lia.
Qed.
Lemma dec_spec z : ∃ ds, dec z = only (z <? 0) [chr 45] ++ ds ∧ (numeral (Z.abs z) ds ∨ z = 0 ∧ ds = [x30]).
Proof.
  assert (∀ p, ∃ ds, bytes (pretty_N_go (Npos p) "") = ds ∧ numeral (Z.pos p) ds) as Hp.
  { intros p. destruct (pretty_go_spec (Npos p) ltac:(done)) as (ds & Hs & Hd & Hh & Hv & Hl). exists ds. split.
    - rewrite Hs. by rewrite app_nil_r.
    - split; [done|done|done|]. intros Hx. apply (Hl 19%N). change (10 ^ 19)%N with (Z.to_N (10 ^ 19)). lia. }
  destruct z as [|p|p]; [exists [x30]; split; [done|by right]|..]; destruct (Hp p) as (ds & <- & Hn);
    (exists (bytes (pretty_N_go (Npos p) "")); split; [done|by left]).
Qed.

Section number.
Context `{RealOk}.
Lemma dval_mono ds a : Forall (λ c, is_digit c = true) ds → 0 ≤ a → a ≤ dval ds a.
Proof.
  intros Hd. revert a. induction Hd as [|c ds Hc Hd IH]; intros a Ha; [done|]. unfold dval in *. cbn [foldl]. unfold is_digit in Hc.
  specialize (IH (10 * a + (Z_of_byte c - 48)) ltac:(lia)). lia.
Qed.
Lemma digits_run ds sc c rest a : Forall (λ c, is_digit c = true) ds → is_digit c = false → 0 ≤ a → dval ds a < 2 ^ 53 →
  read_digits (r_of a) sc false (ds ++ c :: rest) = Ok (r_of (dval ds a), sc, c :: rest).
Proof.
  intros Hd Hc. revert a. induction Hd as [|d ds Hdd Hd IH]; intros a Ha Hv; cbn [app read_digits]; [by rewrite Hc|]. rewrite Hdd.
  unfold dval in *. cbn [foldl] in *. unfold is_digit in Hdd. pose proof (dval_mono ds (10 * a + (Z_of_byte d - 48)) Hd ltac:(lia)) as Hm. unfold dval in Hm.
  rewrite real_step by lia. apply IH; lia.
Qed.
(** A character behind which a number ends. *)
Definition ends_number (c : byte) : bool := negb (is_digit c || is_c 46 c || is_c 101 c || is_c 69 c).
Lemma parse_dec z c rest : - 2 ^ 31 ≤ z < 2 ^ 31 → ends_number c = true → parse_number (dec z ++ c :: rest) = Ok (r_of z, c :: rest).
Proof.
  intros Hz Hc. unfold ends_number in Hc. apply negb_true_iff in Hc. rewrite !orb_false_iff in Hc. destruct Hc as [[[Hc1 Hc2] Hc3] Hc4].
  destruct (dec_spec z) as (ds & -> & Hds).
  assert (rmul (r_of (if z <? 0 then -1 else 1)) (r_of (Z.abs z)) = r_of z) as Hsg.
  { destruct (Z.ltb_spec z 0); [rewrite real_neg by lia|rewrite real_pos by lia]; f_equal; lia. }
  pose proof (real_scale z ltac:(lia)) as Hsc. unfold parse_number. destruct Hds as [[Hd (d & r & -> & Hd0) Hv _]|[-> ->]].
  - pose proof Hd as [Hdd _]%Forall_cons. assert (is_c 45 d = false) as Hm by (destruct d; done).
    pose proof (digits_run (d :: r) (r_of 0) c rest 0 Hd Hc1 ltac:(lia) ltac:(lia)) as Hrun. rewrite Hv in Hrun. cbn [app] in Hrun.
    destruct (Z.ltb_spec z 0) as [Hneg|Hpos]; cbn [only app]; assert (is_c 45 (chr 45) = true) as H45 by done; run; cbv zeta beta; run; rewrite ?Hrun; run; change (i32 (0 * 1)) with 0; by rewrite Hsg, Hsc.
  - assert (is_c 45 x30 = false ∧ is_c 48 x30 = true) as [H45 H48] by done. change (Z.abs 0) with 0 in Hsg. cbn [only app Z.ltb Z.compare Z.abs] in *. run. change (i32 (0 * 1)) with 0; by rewrite Hsg, Hsc.
Qed.
End number.

(** ** Strings *)
Lemma scan_escape k c r : c ≠ x00 → ∃ n, 1 ≤ n ∧ scan_len k (escape c ++ r) = scan_len (k + n) r.
Proof.
  intros Hc. assert (scan_len k (escape c ++ r) = scan_len (k + 1) r ∨ scan_len k (escape c ++ r) = scan_len (k + 1 + 1 + 1 + 1 + 1) r) as [Hs|Hs].
  { destruct c; try done; by first [left; reflexivity | right; reflexivity]. }
  - by exists 1.
  - exists 5. split; [done|]. rewrite Hs. f_equal. lia.
Qed.
Lemma copy_escape fuel cap out c r : c ≠ x00 → copy_loop (S fuel) cap out (escape c ++ r) = (out ← emit cap out [c]; copy_loop fuel cap out r).
Proof. intros Hc. destruct c; try done; reflexivity. Qed.
Lemma emit_ok cap out bs : zlen out + zlen bs ≤ cap → emit cap out bs = Ok (out ++ bs).
Proof. intros Hc. unfold emit. by rewrite (proj2 (Z.leb_le _ _)). Qed.
Definition escaped (s : list byte) : list byte := concat (escape <$> s).
Lemma scan_escaped s k r : x00 ∉ s → ∃ n, zlen s ≤ n ∧ scan_len k (escaped s ++ c_quote :: r) = Ok (k + n).
Proof.
  unfold escaped. revert k. induction s as [|c s IH]; intros k Hs; [exists 0; split; [done|]; cbn; f_equal; lia|].
  apply not_elem_of_cons in Hs as [Hc Hs]. cbn [fmap list_fmap concat]. rewrite <-(assoc_L (++)).
  destruct (scan_escape k c (concat (escape <$> s) ++ c_quote :: r) (not_eq_sym Hc)) as (n & Hn & ->). destruct (IH (k + n) Hs) as (m & Hm & ->).
  exists (n + m). split; [cbn; lia|]. f_equal. lia.
Qed.
Lemma copy_escaped s fuel cap out r : x00 ∉ s → (length s ≤ fuel)%nat → zlen out + zlen s ≤ cap →
  copy_loop fuel cap out (escaped s ++ c_quote :: r) = Ok (out ++ s, c_quote :: r).
Proof.
  unfold escaped. revert fuel out. induction s as [|c s IH]; intros fuel out Hs Hf Hc; [rewrite app_nil_r; by destruct fuel|].
  apply not_elem_of_cons in Hs as [Hc0 Hs]. cbn [length] in *. destruct fuel as [|fuel]; [lia|]. cbn [fmap list_fmap concat]. rewrite <-(assoc_L (++)).
  rewrite copy_escape by done. rewrite emit_ok by (cbn; lia). rewrite bind_ok. rewrite IH; [|done|lia|rewrite length_app; cbn; lia].
  by rewrite <-(assoc_L (++)).
Qed.
Lemma escape_length c : (1 ≤ length (escape c))%nat.
Proof. unfold escape. destruct (_ && _); cbn; lia. Qed.
Lemma escaped_length s : (length s ≤ length (escaped s))%nat.
Proof.
  unfold escaped. induction s as [|c s IH]; [done|]. cbn [fmap list_fmap concat length]. rewrite length_app. pose proof (escape_length c). cbn in *. lia.
Qed.
Lemma alloc_ok `{HeapOk} n : alloc n = Ok tt.
Proof. unfold alloc. by rewrite heap_always. Qed.
Lemma parse_quoted `{HeapOk} s rest : x00 ∉ s → parse_string (quoted s ++ rest) = Ok (s, rest).
Proof.
  intros Hs. unfold parse_string, quoted. fold (escaped s). cbn [app]. rewrite <-(assoc_L (++)). cbn [app]. assert (is_c 34 c_quote = true) as Hq by done. run.
  destruct (scan_escaped s 0 rest Hs) as (n & Hn & ->). run. rewrite alloc_ok. run.
  rewrite (copy_escaped s); [|done|rewrite length_app; pose proof (escaped_length s); lia|cbn; lia]. run.
  rewrite emit_ok by (cbn; lia). run. done.
Qed.

(** ** Parsing a text *)
Section parse.
Context `{RealOk} `{HeapOk}.
Fixpoint tree (name : option (list byte)) (v : jval) : shjson_t :=
  match v with
  | VNull => item name SHJSON_NULL
  | VBool false => item name SHJSON_FALSE
  | VBool true => Json SHJSON_TRUE None 1 (r_of 0) name []
  | VNum z => Json SHJSON_NUMBER None z (r_of z) name []
  | VStr s => Json SHJSON_STRING (Some s) 0 (r_of 0) name []
  | VArr l => Json SHJSON_ARRAY None 0 (r_of 0) name (tree None <$> l)
  | VObj l => Json SHJSON_OBJECT None 0 (r_of 0) name ((λ e, tree (Some e.1) e.2) <$> l)
  end.

Lemma skip_blanks w c l : Forall (λ c, blank c = true) w → blank c = false → skip (w ++ c :: l) = Ok (c :: l).
Proof. intros Hw Hc. induction Hw as [|d w Hd Hw IH]; cbn [app skip]; [by rewrite Hc|]. by rewrite Hd. Qed.
Lemma skip_none c l : blank c = false → skip (c :: l) = Ok (c :: l).
Proof. intros Hc. cbn [skip]. by rewrite Hc. Qed.
Lemma strn_false p pat c l : c ≠ p → strn_eq (p :: pat) (c :: l) = Ok false.
Proof. intros Hc. cbn [strn_eq]. run. by rewrite bool_decide_eq_false_2. Qed.
Lemma no_literal c l : c ≠ x6e → c ≠ x66 → c ≠ x74 →
  (strn_eq (bytes "null") (c :: l) = Ok false ∧ strn_eq (bytes "false") (c :: l) = Ok false) ∧ strn_eq (bytes "true") (c :: l) = Ok false.
Proof. intros Hn Hf Ht. by rewrite (strn_false x6e (bytes "ull")), (strn_false x66 (bytes "alse")), (strn_false x74 (bytes "rue")). Qed.
(** Texts of values start with a character that is not a space, nor one that
    closes an array or object. *)
Definition starts (l : list byte) : Prop := ∃ c r, l = c :: r ∧ blank c = false ∧ is_c 93 c = false ∧ is_c 125 c = false.
Lemma dec_head z : ∃ c r, dec z = c :: r ∧ is_c 45 c || is_digit c = true.
Proof.
  destruct (dec_spec z) as (ds & -> & Hds). destruct (z <? 0); cbn [only app]; [by exists (chr 45), ds|].
  destruct Hds as [[Hd (c & r & -> & _) _ _]|[_ ->]]; [|by exists x30, []]. exists c, r. split; [done|]. apply Forall_cons in Hd as [-> _].
  apply orb_true_r.
Qed.
Lemma jtext_starts fmt d v : starts (jtext fmt d v).
Proof.
  destruct v as [|[]|z|s|[|v l]|[|e l]]; try (by eexists _, _; split; [reflexivity|]).
  cbn [jtext]. destruct (dec_head z) as (c & r & -> & Hc). exists c, r. split; [done|]. by destruct c.
Qed.
Lemma skip_starts w l r : Forall (λ c, blank c = true) w → starts l → skip (w ++ l ++ r) = Ok (l ++ r).
Proof. intros Hw (c & l' & -> & Hb & _). cbn [app]. by apply skip_blanks. Qed.

(** One round of the parser. *)
Lemma parse_value_S fuel name l : parse_value (S fuel) name l =
  (b ← strn_eq (bytes "null") l;
  if b : bool then Ok (item name SHJSON_NULL, drop 4 l) else
  b ← strn_eq (bytes "false") l;
  if b : bool then Ok (item name SHJSON_FALSE, drop 5 l) else
  b ← strn_eq (bytes "true") l;
  if b : bool then Ok (Json SHJSON_TRUE None 1 (r_of 0) name [], drop 4 l) else
  c ← rd l;
  if is_c 34 c then
    '(s, l) ← parse_string l;
    Ok (Json SHJSON_STRING (Some s) 0 (r_of 0) name [], l)
  else if is_c 45 c || is_digit c then
    '(n, l) ← parse_number l;
    Ok (Json SHJSON_NUMBER None (rint n) n name [], l)
  else if is_c 91 c then
    l ← skip (tail l);
    c ← rd l;
    if is_c 93 c then Ok (item name SHJSON_ARRAY, tail l)
    else
      '(items, l) ← parse_items fuel l;
      c ← rd l;
      if is_c 93 c then Ok (Json SHJSON_ARRAY None 0 (r_of 0) name items, tail l) else Fail
  else if is_c 123 c then
    l ← skip (tail l);
    c ← rd l;
    if is_c 125 c then Ok (item name SHJSON_OBJECT, tail l)
    else
      '(items, l) ← parse_members fuel l;
      c ← rd l;
      if is_c 125 c then Ok (Json SHJSON_OBJECT None 0 (r_of 0) name items, tail l) else Fail
  else Fail).
Proof. reflexivity. Qed.
Lemma parse_items_S fuel l : parse_items (S fuel) l =
  (_ ← alloc JSON_SIZE;
  l ← skip l;
  '(t, l) ← parse_value fuel None l;
  l ← skip l;
  c ← rd l;
  if is_c 44 c then '(ts, l) ← parse_items fuel (tail l); Ok (t :: ts, l) else Ok ([t], l)).
Proof. reflexivity. Qed.
Lemma parse_members_S fuel l : parse_members (S fuel) l =
  (_ ← alloc JSON_SIZE;
  l ← skip l;
  '(name, l) ← parse_string l;
  l ← skip l;
  c ← rd l;
  if negb (is_c 58 c) then Fail
  else
    l ← skip (tail l);
    '(t, l) ← parse_value fuel (Some name) l;
    l ← skip l;
    c ← rd l;
    if is_c 44 c then '(ts, l) ← parse_members fuel (tail l); Ok (t :: ts, l) else Ok ([t], l)).
Proof. reflexivity. Qed.

Lemma join_starts sep x l : starts x → starts (join sep (x :: l)).
Proof. intros (c & r & -> & Hc). destruct l as [|y l]; [by eexists _, _|]. by eexists _, _. Qed.
Lemma bracket : is_c 34 (chr 91) = false ∧ is_c 45 (chr 91) || is_digit (chr 91) = false ∧ is_c 91 (chr 91) = true ∧
  (is_c 34 (chr 123) = false ∧ is_c 45 (chr 123) || is_digit (chr 123) = false ∧ is_c 91 (chr 123) = false ∧ is_c 123 (chr 123) = true) ∧
  is_c 93 (chr 93) = true ∧ is_c 125 (chr 125) = true.
Proof. done. Qed.

(** A text of the value is read as that value, whatever follows. *)
Definition reads_as (fmt : bool) (d : nat) (v : jval) : Prop := ∀ fuel name c rest,
  ends_number c = true → (2 * length (jtext fmt d v ++ c :: rest) + 1 ≤ fuel)%nat →
  parse_value fuel name (jtext fmt d v ++ c :: rest) = Ok (tree name v, c :: rest).

Lemma items_read fmt d l w rest fuel : l ≠ [] → Forall (reads_as fmt d) l → Forall (λ c, blank c = true) w →
  let text := w ++ join (chr 44 :: only fmt [chr 32]) (jtext fmt d <$> l) ++ chr 93 :: rest in
  (2 * length text + 2 ≤ fuel)%nat → parse_items fuel text = Ok (tree None <$> l, chr 93 :: rest).
Proof.
  intros Hne Hl. revert w fuel Hne. induction Hl as [|v l Hv Hl IH]; intros w fuel Hne Hw text Hf; [done|]. subst text.
  destruct fuel as [|fuel]; [lia|]. rewrite parse_items_S, alloc_ok, bind_ok. rewrite length_app in Hf.
  assert (is_c 44 (chr 93) = false ∧ is_c 44 (chr 44) = true) as [H93 H44] by done. destruct l as [|v2 l].
  - cbn [fmap list_fmap join] in *. rewrite skip_starts by (auto using jtext_starts). rewrite bind_ok, Hv; [|done|lia]. rewrite bind_ok.
    rewrite (skip_none (chr 93)) by done. by run.
  - change (join (chr 44 :: only fmt [chr 32]) (jtext fmt d <$> v :: v2 :: l)) with
      (jtext fmt d v ++ (chr 44 :: only fmt [chr 32]) ++ join (chr 44 :: only fmt [chr 32]) (jtext fmt d <$> v2 :: l)) in *.
    set (tl := join _ (jtext fmt d <$> v2 :: l)) in *. rewrite <-!(assoc_L (++)) in *. cbn [app] in *.
    rewrite skip_starts by (auto using jtext_starts). rewrite bind_ok, Hv; [|done|lia]. rewrite bind_ok.
    rewrite (skip_none (chr 44)) by done. run. subst tl. rewrite IH; [by run|done|by destruct fmt; repeat constructor|].
    rewrite !length_app in *. cbn [length] in *. rewrite !length_app in Hf. cbn [length] in *. lia.
Qed.
Definition named_text (fmt : bool) (d : nat) (e : list byte * jval) : list byte * list byte := (quoted e.1, jtext fmt d e.2).
Lemma member_read {B} (k : shjson_t * list byte → res B) fmt d e w c rest fuel : reads_as fmt d e.2 → (x00 ∉ e.1) → Forall (λ c, blank c = true) w → ends_number c = true →
  let text := w ++ compose_member fmt d (named_text fmt d e) ++ c :: rest in
  (2 * length text + 1 ≤ fuel)%nat →
  (l ← skip text; '(name, l) ← parse_string l; l ← skip l; c ← rd l;
   if negb (is_c 58 c) then Fail else l ← skip (tail l); x ← parse_value fuel (Some name) l; k x) = k (tree (Some e.1) e.2, c :: rest).
Proof.
  intros Hv Hn Hw Hc text Hf. subst text. unfold compose_member, named_text in *. cbn [fst snd] in *. rewrite <-!(assoc_L (++)) in *.
  rewrite (assoc_L (++) w) in *. assert (Forall (λ c, blank c = true) (w ++ only fmt (tabs d))) as Hw2.
  { apply Forall_app. split; [done|]. destruct fmt; [|constructor]. by apply Forall_replicate. }
  assert (starts (quoted e.1)) as Hq by (by eexists _, _; split; [reflexivity|]).
  rewrite skip_starts by done. rewrite bind_ok, parse_quoted, bind_ok by done. cbn [app]. rewrite (skip_none (chr 58)) by done.
  assert (is_c 58 (chr 58) = true) as H58 by done. run. rewrite skip_starts; [|by destruct fmt; repeat constructor|by apply jtext_starts].
  rewrite bind_ok, Hv; [done|done|]. rewrite !length_app in *. cbn [length] in *. lia.
Qed.
Lemma members_read fmt d l w w' rest fuel : l ≠ [] → Forall (λ e, (x00 ∉ e.1) ∧ reads_as fmt d e.2) l → Forall (λ c, blank c = true) w →
  Forall (λ c, blank c = true) w' →
  let text := w ++ join (chr 44 :: only fmt [chr 10]) (compose_member fmt d <$> (named_text fmt d <$> l)) ++ w' ++ chr 125 :: rest in
  (2 * length text + 2 ≤ fuel)%nat → parse_members fuel text = Ok ((λ e, tree (Some e.1) e.2) <$> l, chr 125 :: rest).
Proof.
  intros Hne Hl. revert w fuel Hne. induction Hl as [|e l [Hn Hv] Hl IH]; intros w fuel Hne Hw Hw' text Hf; [done|]. subst text.
  destruct fuel as [|fuel]; [lia|]. rewrite parse_members_S, alloc_ok, bind_ok.
  assert (is_c 44 (chr 125) = false ∧ is_c 44 (chr 44) = true) as [H125 H44] by done.
  destruct l as [|e2 l].
  - cbn [fmap list_fmap join] in *. assert (∃ c r, w' ++ chr 125 :: rest = c :: r ∧ ends_number c = true) as (c & r & E & Hc).
    { destruct Hw' as [|c w' Hc Hw']; [by eexists _, _|]. exists c, (w' ++ chr 125 :: rest). split; [done|]. by destruct c. }
    rewrite E in *. etrans; [apply (member_read _ fmt d e w c r fuel Hv Hn Hw Hc); lia|]. cbv beta iota. rewrite <-E.
    rewrite (skip_blanks w') by done. by run.
  - change (join (chr 44 :: only fmt [chr 10]) (compose_member fmt d <$> (named_text fmt d <$> e :: e2 :: l))) with
      (compose_member fmt d (named_text fmt d e) ++ (chr 44 :: only fmt [chr 10]) ++
       join (chr 44 :: only fmt [chr 10]) (compose_member fmt d <$> (named_text fmt d <$> e2 :: l))) in *.
    set (tl := join _ (compose_member fmt d <$> (named_text fmt d <$> e2 :: l))) in *. rewrite <-!(assoc_L (++)) in *. cbn [app] in *.
    etrans; [apply (member_read _ fmt d e w (chr 44) _ fuel Hv Hn Hw ltac:(done)); lia|]. cbv beta iota.
    rewrite (skip_none (chr 44)) by done. run. subst tl. rewrite IH; [by run|done|by destruct fmt; repeat constructor|done|].
    rewrite !length_app in *. cbn [length] in *. rewrite !length_app in Hf. cbn [length] in *. lia.
Qed.

Lemma skip_idem l l' : skip l = Ok l' → skip l' = Ok l'.
Proof.
  induction l as [|c l IH]; cbn [skip]; [done|]. destruct (blank c) eqn:E; [done|]. intros [= <-]. by apply skip_none.
Qed.
Lemma skip_members fuel l l' : skip l = Ok l' → parse_members fuel l' = parse_members fuel l.
Proof. intros Hs. destruct fuel as [|fuel]; [done|]. rewrite !parse_members_S, Hs. by rewrite (skip_idem _ _ Hs). Qed.
Lemma members_skip fmt d e l w tl : Forall (λ c, blank c = true) w →
  ∃ r, skip (w ++ join (chr 44 :: only fmt [chr 10]) (compose_member fmt d <$> (named_text fmt d <$> e :: l)) ++ tl) = Ok (c_quote :: r).
Proof.
  intros Hw. assert (∃ r, join (chr 44 :: only fmt [chr 10]) (compose_member fmt d <$> (named_text fmt d <$> e :: l)) ++ tl =
    only fmt (tabs d) ++ c_quote :: r) as [r ->].
  { destruct l as [|e2 l]; cbn [fmap list_fmap join]; unfold compose_member at 1; cbn [named_text fst snd]; unfold quoted at 1;
      rewrite <-!(assoc_L (++)); cbn [app]; eauto. }
  exists r. rewrite (assoc_L (++)). apply skip_blanks; [|done]. apply Forall_app. split; [done|]. destruct fmt; [|done]. by apply Forall_replicate.
Qed.
Lemma value_reads fmt v : jwf v → ∀ d, reads_as fmt d v.
Proof.
  induction v as [|b|z|s|l IH|l IH] using jval_ind; intros Hwf d [|fuel] name c rest Hc Hf; try lia; rewrite parse_value_S.
  - done.
  - by destruct b.
  - cbn [jtext jwf] in *. destruct (dec_head z) as (x & r & E & Hx). pose proof (parse_dec z c rest Hwf Hc) as Hp. rewrite E in *. cbn [app] in *.
    destruct (no_literal x (r ++ c :: rest)) as [[-> ->] ->]; [intros ->; done..|]. assert (is_c 34 x = false) as Hx2 by (by destruct x). run. rewrite Hp. run. by rewrite real_int.
  - cbn [jtext jwf] in *. pose proof (parse_quoted s (c :: rest) Hwf) as Hp.
    change (quoted s ++ c :: rest) with (c_quote :: (escaped s ++ [c_quote]) ++ c :: rest) in *.
    destruct (no_literal c_quote ((escaped s ++ [c_quote]) ++ c :: rest)) as [[-> ->] ->]; [done..|]. assert (is_c 34 c_quote = true) as Hq by done. run. rewrite Hp. by run.
  - apply jwf_arr in Hwf. assert (Forall (reads_as fmt (S d)) l) as Hl.
    { apply Forall_forall. intros v Hv. rewrite Forall_forall in IH, Hwf. by apply IH, Hwf. }
    destruct l as [|v l]; [done|].
    change (jtext fmt d (VArr (v :: l))) with (chr 91 :: join (chr 44 :: only fmt [chr 32]) (jtext fmt (S d) <$> v :: l) ++ [chr 93]) in *.
    destruct (join_starts (chr 44 :: only fmt [chr 32]) (jtext fmt (S d) v) (jtext fmt (S d) <$> l) (jtext_starts _ _ _)) as (x & r & E & Hb & H93 & _).
    pose proof (items_read fmt (S d) (v :: l) [] (c :: rest) fuel ltac:(done) Hl ltac:(done)) as Hr.
    cbn [app] in *. rewrite <-!(assoc_L (++)) in *. change (jtext fmt (S d) v :: (jtext fmt (S d) <$> l)) with (jtext fmt (S d) <$> v :: l) in E.
    rewrite E in *. cbn [app length] in *. destruct (no_literal (chr 91) (x :: r ++ chr 93 :: c :: rest)) as [[-> ->] ->]; [done..|].
    destruct bracket as (B34 & Bnum & B91 & _ & B93 & _). run. rewrite skip_none by done. run. rewrite Hr by lia. by run.
  - apply jwf_obj in Hwf. assert (Forall (λ e, (x00 ∉ e.1) ∧ reads_as fmt (S d) e.2) l) as Hl.
    { apply Forall_forall. intros v Hv. rewrite Forall_forall in IH, Hwf. split; [by apply Hwf|]. by apply IH, Hwf. }
    destruct bracket as (_ & _ & _ & (B34 & Bnum & B91 & B123) & _ & B125).
    destruct (no_literal (chr 123)) with (l := tail (jtext fmt d (VObj l) ++ c :: rest)) as [[E1 E2] E3]; [done..|]. destruct l as [|e l].
    + cbn [jtext app tail] in *. rewrite <-!(assoc_L (++)) in *. cbn [app] in *. rewrite E1, E2, E3. run.
      rewrite (skip_blanks _ (chr 125)); [by run| |done]. destruct fmt; [|done]. constructor; [done|]. by apply Forall_replicate.
    + set (mid := join (chr 44 :: only fmt [chr 10]) (compose_member fmt (S d) <$> (named_text fmt (S d) <$> e :: l))).
      set (w' := only fmt ([chr 10] ++ tabs (S d - 1))).
      assert (jtext fmt d (VObj (e :: l)) ++ c :: rest = chr 123 :: only fmt [chr 10] ++ mid ++ w' ++ chr 125 :: c :: rest) as Et.
      { change (jtext fmt d (VObj (e :: l))) with ([chr 123] ++ only fmt [chr 10] ++ mid ++ w' ++ [chr 125]). cbn [app]. by rewrite <-!(assoc_L (++)). }
      rewrite Et in *. cbn [tail length] in *. rewrite E1, E2, E3. run. assert (Forall (λ c, blank c = true) w') as Hw'.
      { unfold w'. destruct fmt; [|done]. constructor; [done|]. by apply Forall_replicate. }
      assert (Forall (λ c, blank c = true) (only fmt [chr 10])) as Hw by (by destruct fmt; repeat constructor).
      destruct (members_skip fmt (S d) e l (only fmt [chr 10]) (w' ++ chr 125 :: c :: rest) Hw) as [r Er]. fold mid in Er. rewrite Er. run.
      change (is_c 125 c_quote) with false. cbn iota. rewrite (skip_members _ _ _ Er).
      pose proof (members_read fmt (S d) (e :: l) (only fmt [chr 10]) w' (c :: rest) fuel ltac:(done) Hl Hw Hw') as Hr. cbv zeta in Hr.
      fold mid in Hr. rewrite Hr by lia. by run.
Qed.
End parse.
