(* ===== verification/JsonPrint.v ===== *)
(** * JSON: what is printed

    The value of an item, and that printing the item gives the text of its
    value: the lengths that [print_array] and [print_object] compute are
    enough. *)

From S2P Require Import Prelude Errors Shbuf Crc ShmapSpec Hmac Key Opt Json JsonTree JsonSafe JsonSpec.

Lemma Forall2_with {A B} (P : A → B → Prop) (Q R : B → Prop) (T : A → B → Prop) l k :
  Forall2 P l k → Forall Q k → Forall R k → (∀ x y, P x y → Q y → R y → T x y) → Forall2 T l k.
Proof.
  intros Hl HQ HR HT. induction Hl as [|x y l k Hxy Hl IH]; [constructor|]. apply Forall_cons in HQ as [? ?], HR as [? ?]. constructor; auto.
Qed.

Section value.
Context `{Real}.
(** The items of an array or object, of which each has a value. *)
Definition collect {A} (f : shjson_t → option A) : list shjson_t → option (list A) :=
  fix go l := match l with [] => Some [] | c :: l => v ← f c; vs ← go l; Some (v :: vs) end.
(** The value of an item that [print_value] prints: numbers are 32-bit
    integers. *)
Fixpoint value_of (t : shjson_t) : option jval :=
  match t with
  | Json type valuestring valueint valuedouble _ child =>
     let type := Z.land type 255 in
     if type =? SHJSON_NULL then Some VNull
     else if type =? SHJSON_FALSE then Some (VBool false)
     else if type =? SHJSON_TRUE then Some (VBool true)
     else if type =? SHJSON_NUMBER then if rnear valueint valuedouble then Some (VNum valueint) else None
     else if type =? SHJSON_STRING then Some (VStr (default [] valuestring))
     else if type =? SHJSON_ARRAY then VArr <$> collect value_of child
     else if type =? SHJSON_OBJECT then VObj <$> collect (λ c, v ← value_of c; Some (default [] (j_string c), v)) child
     else None
  end.
Lemma collect_Forall2 {A} (f : shjson_t → option A) l vs : collect f l = Some vs ↔ Forall2 (λ c v, f c = Some v) l vs.
Proof.
  revert vs. induction l as [|c l IH]; intros vs; cbn.
  - split; [intros [= <-]; constructor|]. by intros ->%Forall2_nil_inv_l.
  - split.
    + destruct (f c) as [v|] eqn:E; [|done]. cbn. fold (collect f l). destruct (collect f l) as [ws|]; [|done]. intros [= <-].
      constructor; [done|]. by apply IH.
    + intros (v & ws & Hv & Hws & ->)%Forall2_cons_inv_l. rewrite Hv. cbn. fold (collect f l). apply IH in Hws as ->. done.
Qed.
End value.

(** ** The lengths that the code computes *)
Lemma escape_count c : zlen (escape c) ≤ esc_count c.
Proof. by destruct c. Qed.
Lemma quoted_room s : zlen (quoted s) + 1 ≤ foldr (λ c n, esc_count c + n) 0 s + 3.
Proof.
  unfold quoted. cbn [length]. rewrite length_app. cbn [length].
  enough (zlen (concat (escape <$> s)) ≤ foldr (λ c n, esc_count c + n) 0 s) by lia.
  induction s as [|c s IH]; [done|]. cbn [fmap list_fmap concat foldr]. rewrite length_app. pose proof (escape_count c).
  change (list_fmap _ _ escape s) with (escape <$> s). lia.
Qed.
Lemma dec_room z : - 2 ^ 31 ≤ z < 2 ^ 31 → zlen (dec z) + 1 ≤ 21.
Proof.
  intros Hz. destruct (dec_spec z) as (ds & -> & Hds). rewrite length_app.
  assert (zlen (only (z <? 0) [chr 45]) ≤ 1) by (destruct (z <? 0); cbn; lia).
  assert (length ds ≤ 19)%nat; [|lia]. destruct Hds as [[_ _ _ Hl]|[_ ->]]; [apply Hl; lia|cbn; lia].
Qed.
Lemma array_room fmt l : zlen (compose_array fmt l) + 1 ≤ array_len fmt l.
Proof.
  unfold compose_array, array_len. rewrite !length_app. cbn [length].
  assert (zlen (join (chr 44 :: only fmt [chr 32]) l) + 5 ≤ foldr (λ e n, zlen e + 2 + b2z fmt + n) 5 l); [|lia].
  induction l as [|x l IH]; [done|]. cbn [foldr]. destruct l as [|y l].
  - cbn [join foldr]. destruct fmt; cbn; lia.
  - change (join _ (x :: y :: l)) with (x ++ (chr 44 :: only fmt [chr 32]) ++ join (chr 44 :: only fmt [chr 32]) (y :: l)).
    rewrite !length_app. destruct fmt; cbn [b2z only length app] in *; lia.
Qed.
Lemma object_room fmt d l : zlen (compose_object fmt (S d) l) + 1 ≤ object_len fmt (S d) l.
Proof.
  unfold compose_object, object_len. rewrite !length_app. cbn [length].
  assert (zlen (join (chr 44 :: only fmt [chr 10]) (compose_member fmt (S d) <$> l)) + 7 + (if fmt then Z.of_nat (S d) else 0) ≤
    foldr (λ e n, zlen e.2 + zlen e.1 + 2 + (if fmt then 2 + Z.of_nat (S d) else 0) + n) (7 + if fmt then Z.of_nat (S d) else 0) l).
  2:{ destruct fmt; cbn [only length] in *; rewrite ?length_app; unfold tabs; rewrite ?length_replicate; cbn [length]; lia. }
  induction l as [|x l IH]; [cbn; lia|]. cbn [foldr].
  assert (zlen (compose_member fmt (S d) x) = zlen x.1 + zlen x.2 + 1 + (if fmt then 1 + Z.of_nat (S d) else 0)) as Hx.
  { unfold compose_member. rewrite !length_app. destruct fmt; cbn [only length]; unfold tabs; rewrite ?length_replicate; lia. }
  destruct l as [|y l].
  - cbn [fmap list_fmap join foldr]. destruct fmt; lia.
  - change (join _ (compose_member fmt (S d) <$> x :: y :: l)) with
      (compose_member fmt (S d) x ++ (chr 44 :: only fmt [chr 10]) ++ join (chr 44 :: only fmt [chr 10]) (compose_member fmt (S d) <$> y :: l)).
    rewrite !length_app. destruct fmt; cbn [only length app] in *; lia.
Qed.
(** [print_array] and [print_object]. *)
Section loops.
Context `{Real} `{Heap}.
Definition print_list (f : shjson_t → res (list byte)) : list shjson_t → res (list (list byte)) :=
  fix go l := match l with [] => Ok [] | c :: l => e ← f c; es ← go l; Ok (e :: es) end.
Definition print_pairs (f : shjson_t → res (list byte)) : list shjson_t → res (list (list byte * list byte)) :=
  fix go l := match l with [] => Ok [] | c :: l => n ← print_string_ptr (j_string c); e ← f c; es ← go l; Ok ((n, e) :: es) end.
End loops.

(** ** Printing stays in its allocations *)
Section safe.
Context `{RealOk} `{Heap}.
Fixpoint json_ind (P : shjson_t → Prop) (HP : ∀ ty vs vi vd n l, Forall P l → P (Json ty vs vi vd n l)) (t : shjson_t) : P t :=
  match t with
  | Json ty vs vi vd n l =>
     HP ty vs vi vd n l ((fix go l := match l return Forall P l with [] => @List.Forall_nil _ P | x :: l => @List.Forall_cons _ P x l (json_ind P HP x) (go l) end) l)
  end.
Lemma alloc_text_safe cap s : zlen s + 1 ≤ cap → rwp false (alloc_text cap s) (λ _, True).
Proof. intros Hc. unfold alloc_text. apply rwp_bind, json_alloc_spec. by rewrite (proj2 (Z.leb_le _ _)). Qed.
Lemma print_string_safe s : rwp false (print_string_ptr s) (λ _, True).
Proof. destruct s as [s|]; [|by apply alloc_text_safe]. apply alloc_text_safe, quoted_room. Qed.
Lemma print_number_safe i d : rwp false (print_number i d) (λ _, True).
Proof.
  unfold print_number. destruct (rnear i d) eqn:E; apply alloc_text_safe; [by eapply dec_room, real_range|]. pose proof (real_fmt d). lia.
Qed.
Lemma print_list_safe f l : Forall (λ c, rwp false (f c) (λ _, True)) l → rwp false (print_list f l) (λ _, True).
Proof.
  induction 1 as [|c l Hc Hl IH]; [done|]. cbn. apply rwp_bind. eapply rwp_mono; [exact Hc|]. intros e _. apply rwp_bind.
  fold (print_list f l). eapply rwp_mono; [exact IH|]. done.
Qed.
Lemma print_pairs_safe f l : Forall (λ c, rwp false (f c) (λ _, True)) l → rwp false (print_pairs f l) (λ _, True).
Proof.
  induction 1 as [|c l Hc Hl IH]; [done|]. cbn. apply rwp_bind. eapply rwp_mono; [apply print_string_safe|]. intros n _. apply rwp_bind.
  eapply rwp_mono; [exact Hc|]. intros e _. apply rwp_bind. fold (print_pairs f l). eapply rwp_mono; [exact IH|]. done.
Qed.
Lemma print_safe fmt t : ∀ d, rwp false (print_value fmt d t) (λ _, True).
Proof.
  induction t as [type vs vi vd name l IH] using json_ind; intros d. cbn [print_value]. cbv zeta.
  destruct (_ =? SHJSON_NULL); [by apply alloc_text_safe|]. destruct (_ =? SHJSON_FALSE); [by apply alloc_text_safe|].
  destruct (_ =? SHJSON_TRUE); [by apply alloc_text_safe|]. destruct (_ =? SHJSON_NUMBER); [apply print_number_safe|].
  destruct (_ =? SHJSON_STRING); [apply print_string_safe|].
  assert (Forall (λ c, rwp false (print_value fmt (S d) c) (λ _, True)) l) as Hl by (eapply Forall_impl; [exact IH|]; auto).
  destruct (_ =? SHJSON_ARRAY).
  - destruct l as [|c l]; [by apply alloc_text_safe|]. apply rwp_bind, json_alloc_spec. apply rwp_bind.
    eapply rwp_mono; [exact (print_list_safe _ _ Hl)|]. intros es _. apply alloc_text_safe, array_room.
  - destruct (_ =? SHJSON_OBJECT); [|done]. destruct l as [|c l].
    + apply alloc_text_safe. rewrite !length_app. destruct fmt; cbn [only length]; rewrite ?length_app; unfold tabs; rewrite ?length_replicate; cbn [length]; lia.
    + apply rwp_bind, json_alloc_spec. apply rwp_bind, json_alloc_spec. apply rwp_bind.
      eapply rwp_mono; [exact (print_pairs_safe _ _ Hl)|]. intros es _. apply alloc_text_safe, object_room.
Qed.
End safe.

Section print.
Context `{RealOk} `{HeapOk}.
Lemma tree_name name v : j_string (tree name v) = name.
Proof. by destruct v as [|[]| | | |]. Qed.
Lemma value_tree name v : jwf v → value_of (tree name v) = Some v.
Proof.
  revert name. induction v as [|b|z|s|l IH|l IH] using jval_ind; intros name Hwf; [done|by destruct b|cbn in *; by rewrite real_near|done|..].
  - apply jwf_arr in Hwf. cbn. rewrite (proj2 (collect_Forall2 value_of (tree None <$> l) l)); [done|]. apply Forall2_fmap_l, Forall_Forall2_diag.
    rewrite Forall_forall in *. auto.
  - apply jwf_obj in Hwf. cbn. rewrite (proj2 (collect_Forall2 _ ((λ e, tree (Some e.1) e.2) <$> l) l)); [done|].
    apply Forall2_fmap_l, Forall_Forall2_diag. rewrite Forall_forall in *. intros [n v] Hv. cbn. rewrite tree_name. destruct (Hwf _ Hv) as [_ Hw].
    pose proof (IH _ Hv (Some n) Hw) as E. cbn in E. by rewrite E.
Qed.

Lemma alloc_text_ok cap s : zlen s + 1 ≤ cap → alloc_text cap s = Ok s.
Proof. intros Hc. unfold alloc_text. rewrite alloc_ok, bind_ok. by rewrite (proj2 (Z.leb_le _ _)). Qed.
Lemma print_quoted s : print_string_ptr s = Ok (quoted (default [] s)).
Proof. destruct s as [s|]; [|by apply alloc_text_ok]. change (default [] (Some s)) with s. apply alloc_text_ok, quoted_room. Qed.
Lemma print_dec z d : - 2 ^ 31 ≤ z < 2 ^ 31 → rnear z d = true → print_number z d = Ok (dec z).
Proof. intros Hz Hd. unfold print_number. rewrite Hd. by apply alloc_text_ok, dec_room. Qed.
Lemma print_list_ok f l vs : Forall2 (λ c s, f c = Ok s) l vs → print_list f l = Ok vs.
Proof. induction 1 as [|c s l vs Hc Hl IH]; [done|]. cbn. rewrite Hc. cbn. fold (print_list f l). by rewrite IH. Qed.
Lemma print_pairs_ok f l vs : Forall2 (λ c e, print_string_ptr (j_string c) = Ok e.1 ∧ f c = Ok e.2) l vs → print_pairs f l = Ok vs.
Proof.
  induction 1 as [|c [n s] l vs [Hn Hc] Hl IH]; [done|]. cbn in *. rewrite Hn. cbn. rewrite Hc. cbn. fold (print_pairs f l). by rewrite IH.
Qed.

Lemma value_prints fmt v : jwf v → ∀ d t, value_of t = Some v → print_value fmt d t = Ok (jtext fmt d v).
Proof.
  induction v as [|b|z|s|l IH|l IH] using jval_ind; intros Hwf d [type vs vi vd name child]; cbn [value_of print_value]; cbv zeta;
    (destruct (Z.land type 255 =? SHJSON_NULL); [intros Ev; simplify_eq; by apply alloc_text_ok|]);
    (destruct (Z.land type 255 =? SHJSON_FALSE); [intros Ev; simplify_eq; by apply alloc_text_ok|]);
    (destruct (Z.land type 255 =? SHJSON_TRUE); [intros Ev; simplify_eq; by apply alloc_text_ok|]);
    (destruct (Z.land type 255 =? SHJSON_NUMBER); [destruct (rnear vi vd) eqn:En; [|done]; intros Ev; simplify_eq; by apply print_dec|]);
    (destruct (Z.land type 255 =? SHJSON_STRING); [intros Ev; simplify_eq; by apply print_quoted|]);
    (destruct (Z.land type 255 =? SHJSON_ARRAY); [intros (l' & Hc & E)%fmap_Some; simplify_eq|]);
    try (destruct (Z.land type 255 =? SHJSON_OBJECT); [intros (l' & Hc & E)%fmap_Some; simplify_eq|done]).
  - apply jwf_arr in Hwf. apply collect_Forall2 in Hc. assert (Forall2 (λ c s, print_value fmt (S d) c = Ok s) child (jtext fmt (S d) <$> l')) as Hp.
    { apply Forall2_fmap_r. eapply Forall2_with; [exact Hc|exact IH|exact Hwf|]. auto. }
    destruct Hc as [|c v child l' Hv Hl]; [by apply alloc_text_ok|]. rewrite alloc_ok, bind_ok.
    apply print_list_ok in Hp. unfold print_list in Hp. rewrite Hp, bind_ok. apply alloc_text_ok, array_room.
  - apply jwf_obj in Hwf. apply collect_Forall2 in Hc.
    assert (Forall2 (λ c e, print_string_ptr (j_string c) = Ok e.1 ∧ print_value fmt (S d) c = Ok e.2) child (named_text fmt (S d) <$> l')) as Hp.
    { apply Forall2_fmap_r. eapply Forall2_with; [exact Hc|exact IH|exact Hwf|]. cbv beta. intros c [n v] (w & Hv & [= <- <-])%bind_Some Hi [_ Hw].
      split; [apply print_quoted|by apply Hi]. }
    destruct Hc as [|c v child l' Hv Hl].
    + cbn [jtext]. apply alloc_text_ok. rewrite !length_app. destruct fmt; cbn [only length]; rewrite ?length_app; unfold tabs; rewrite ?length_replicate; cbn [length]; lia.
    + rewrite alloc_ok, !bind_ok. apply print_pairs_ok in Hp. unfold print_pairs in Hp. rewrite Hp, bind_ok. apply alloc_text_ok, object_room.
Qed.
Lemma print_parse fmt v : jwf v → shjson_Parse (jtext fmt 0 v) = Ok (tree None v).
Proof.
  intros Hwf. unfold shjson_Parse, shjson_ParseWithOpts. rewrite alloc_ok, bind_ok.
  pose proof (skip_starts [] (jtext fmt 0 v) [x00] ltac:(done) (jtext_starts _ _ _)) as Hs. cbn [app] in Hs. rewrite Hs, bind_ok, value_reads; [done|done|done|]. unfold parse_fuel. lia.
Qed.
End print.

(** * JSON: minifying

    [minify] turns the formatted text of a value into the unformatted one. *)

(** [l] becomes [out], whatever follows. *)
Definition mini (l out : list byte) : Prop := ∀ r fuel, (length (l ++ r) ≤ fuel)%nat →
  ∃ fuel', (length r ≤ fuel')%nat ∧ minify fuel (l ++ r) = (o ← minify fuel' r; Ok (out ++ o)).
Definition plain (c : byte) : bool := negb (bool_decide (c = x00) || white c || is_c 47 c || is_c 34 c).

Lemma mini_nil : mini [] [].
Proof. intros r fuel Hf. exists fuel. split; [done|]. cbn. by destruct (minify fuel r). Qed.
Lemma mini_app l1 o1 l2 o2 : mini l1 o1 → mini l2 o2 → mini (l1 ++ l2) (o1 ++ o2).
Proof.
  intros H1 H2 r fuel Hf. rewrite <-(assoc_L (++)) in *. destruct (H1 (l2 ++ r) fuel Hf) as (f1 & Hf1 & ->).
  destruct (H2 r f1 Hf1) as (f2 & Hf2 & ->). exists f2. split; [done|]. destruct (minify f2 r); [|done..]. cbn. by rewrite <-(assoc_L (++)).
Qed.
Lemma minify_S fuel c r : c ≠ x00 → minify (S fuel) (c :: r) =
  (if white c then minify fuel r
   else if is_c 47 c then
     d ← rd r;
     if is_c 47 d then l ← line_comment (c :: r); minify fuel l
     else if is_c 42 d then l ← block_comment (c :: r); if (length l <? 2)%nat then Fault else minify fuel (drop 2 l)
     else out ← minify fuel r; Ok (c :: out)
   else if is_c 34 c then '(out, l) ← string_literal r; rest ← minify fuel l; Ok (c :: out ++ rest)
   else out ← minify fuel r; Ok (c :: out)).
Proof. intros Hc. cbn [minify]. rewrite bind_rd. by rewrite bool_decide_eq_false_2. Qed.
Lemma mini_white c : white c = true → mini [c] [].
Proof.
  intros Hw r [|fuel] Hf; cbn [app length] in *; [lia|]. exists fuel. split; [lia|]. rewrite minify_S by (by intros ->). rewrite Hw.
  by destruct (minify fuel r).
Qed.
Lemma mini_plain c : plain c = true → mini [c] [c].
Proof.
  unfold plain. rewrite negb_true_iff, !orb_false_iff. intros [[[Hz%bool_decide_eq_false Hw] Hs] Hq] r [|fuel] Hf; cbn [app length] in *; [lia|].
  exists fuel. split; [lia|]. rewrite minify_S by done. by rewrite Hw, Hs, Hq.
Qed.
Lemma mini_whites l : Forall (λ c, white c = true) l → mini l [].
Proof. induction 1 as [|c l Hc Hl IH]; [apply mini_nil|]. apply (mini_app [c] [] l []); [by apply mini_white|done]. Qed.
Lemma mini_plains l : Forall (λ c, plain c = true) l → mini l l.
Proof. induction 1 as [|c l Hc Hl IH]; [apply mini_nil|]. apply (mini_app [c] [c] l l); [by apply mini_plain|done]. Qed.

(** A character that a string literal is not ended by, nor an escape started. *)
Definition inert (c : byte) : bool := negb (bool_decide (c = x00) || is_c 34 c || is_c 92 c).
Lemma escape_shape c : c ≠ x00 → escape c = [c] ∧ inert c = true ∨ ∃ d l, escape c = c_back :: d :: l ∧ Forall (λ x, inert x = true) l.
Proof.
  intros Hc. destruct c; try done; first [left; split; reflexivity | right; eexists _, _; split; [vm_compute; reflexivity|by repeat constructor]].
Qed.
Lemma literal_inert l r : Forall (λ x, inert x = true) l → string_literal (l ++ r) = ('(o, m) ← string_literal r; Ok (l ++ o, m)).
Proof.
  induction 1 as [|c l Hc Hl IH]; cbn [app]; [by destruct (string_literal r) as [[]| | |]|]. cbn [string_literal]. unfold inert in Hc.
  apply negb_true_iff, orb_false_iff in Hc as [-> ->]. rewrite IH. by destruct (string_literal r) as [[]| | |].
Qed.
Lemma literal_escape c r : c ≠ x00 → string_literal (escape c ++ r) = ('(o, l) ← string_literal r; Ok (escape c ++ o, l)).
Proof.
  intros Hc. destruct (escape_shape c Hc) as [[-> Hi]|(d & l & -> & Hl)]; [by apply literal_inert; constructor|]. cbn [app].
  change (string_literal (c_back :: d :: l ++ r)) with ('(o, m) ← string_literal (l ++ r); Ok (c_back :: d :: o, m)).
  rewrite literal_inert by done. by destruct (string_literal r) as [[]| | |].
Qed.
Lemma literal_escaped s r : x00 ∉ s → string_literal (escaped s ++ c_quote :: r) = Ok (escaped s ++ [c_quote], r).
Proof.
  unfold escaped. induction s as [|c s IH]; intros Hs; [done|]. apply not_elem_of_cons in Hs as [Hc Hs]. cbn [fmap list_fmap concat].
  rewrite <-!(assoc_L (++)), literal_escape by done. rewrite IH by done. done.
Qed.
Lemma mini_quoted s : x00 ∉ s → mini (quoted s) (quoted s).
Proof.
  intros Hs r [|fuel] Hf; [cbn in Hf; lia|]. unfold quoted in *. fold (escaped s) in *. cbn [app length] in *. rewrite <-(assoc_L (++)) in *. cbn [app] in *.
  exists fuel. split; [rewrite length_app in Hf; cbn in Hf; lia|]. rewrite minify_S by done. change (white c_quote) with false.
  change (is_c 47 c_quote) with false. change (is_c 34 c_quote) with true. cbn iota. rewrite literal_escaped by done. rewrite bind_ok. done.
Qed.
Lemma mini_dec z : mini (dec z) (dec z).
Proof.
  apply mini_plains. destruct (dec_spec z) as (ds & -> & Hds). apply Forall_app. split; [destruct (z <? 0); by repeat constructor|].
  destruct Hds as [[Hd _ _ _]|[_ ->]]; [|by repeat constructor]. eapply Forall_impl; [exact Hd|]. intros c Hc. by destruct c.
Qed.
Lemma mini_join sep sep' ls os : mini sep sep' → Forall2 mini ls os → mini (join sep ls) (join sep' os).
Proof.
  intros Hs. induction 1 as [|l o ls os Hl Hls IH]; [apply mini_nil|]. destruct Hls as [|l2 o2 ls os Hl2 Hls]; [done|].
  apply mini_app; [done|]. apply mini_app; [done|]. exact IH.
Qed.
Lemma mini_sep c w : plain c = true → Forall (λ c, white c = true) w → mini (c :: only true w) (c :: only false w).
Proof. intros Hc Hw. apply (mini_app [c] [c] w []); [by apply mini_plain|by apply mini_whites]. Qed.
Lemma white_tabs d : Forall (λ c, white c = true) (tabs d).
Proof. by apply Forall_replicate. Qed.
Lemma mini_jtext v : jwf v → ∀ d d', mini (jtext true d v) (jtext false d' v).
Proof.
  induction v as [|b|z|s|l IH|l IH] using jval_ind; intros Hwf d d'; cbn [jtext].
  - apply mini_plains. by repeat constructor.
  - apply mini_plains. destruct b; by repeat constructor.
  - apply mini_dec.
  - by apply mini_quoted.
  - apply jwf_arr in Hwf. destruct l as [|v l]; [apply mini_plains; by repeat constructor|]. unfold compose_array.
    apply mini_app; [by apply mini_plain|]. apply mini_app; [|by apply mini_plain]. apply mini_join; [apply mini_sep; [done|by repeat constructor]|].
    apply Forall2_fmap, Forall_Forall2_diag. rewrite Forall_forall in *. intros x Hx. by apply IH, Hwf.
  - apply jwf_obj in Hwf. destruct l as [|e l].
    + apply (mini_app [_] [_]); [by apply mini_plain|]. apply (mini_app _ []); [|by apply mini_plain]. apply mini_whites. constructor; [done|]. apply white_tabs.
    + unfold compose_object. apply mini_app; [by apply mini_plain|]. apply (mini_app _ []); [by apply mini_white|].
      apply mini_app; [|apply (mini_app _ []); [|by apply mini_plain]; apply mini_whites; constructor; [done|apply white_tabs]].
      apply mini_join; [apply mini_sep; [done|by repeat constructor]|]. rewrite <-!list_fmap_compose. apply Forall2_fmap, Forall_Forall2_diag.
      rewrite Forall_forall in *. intros x Hx. destruct (Hwf _ Hx) as [Hn Hx2]. unfold compose_member. cbn [fst snd compose].
      apply (mini_app _ []); [apply mini_whites, white_tabs|]. apply mini_app; [by apply mini_quoted|]. apply mini_app; [by apply mini_plain|].
      apply (mini_app _ []); [by apply mini_white|]. by apply IH.
Qed.
Lemma minify_text v d d' : jwf v → shjson_Minify (jtext true d v) = Ok (jtext false d' v).
Proof.
  intros Hwf. unfold shjson_Minify. destruct (mini_jtext v Hwf d d' [x00] (S (length (jtext true d v)))) as (f & _ & ->); [rewrite length_app; cbn; lia|].
  assert (minify f [x00] = Ok []) as -> by (by destruct f). by rewrite bind_ok, app_nil_r.
Qed.

(** Copying more characters than the allocation holds. *)
Lemma emit_full cap out bs : cap < zlen out + zlen bs → emit cap out bs = Fault.
Proof. intros Hc. unfold emit. by rewrite (proj2 (Z.leb_gt _ _)). Qed.
Lemma copy_overflow s fuel cap out r : Forall (λ x, inert x = true) s → zlen out ≤ cap → cap < zlen out + zlen s + 1 → (length s ≤ fuel)%nat →
  (x ← copy_loop fuel cap out (s ++ c_quote :: r); emit cap x.1 [x00]) = Fault.
Proof.
  intros Hs. revert fuel out. induction Hs as [|c s Hc Hs IH]; intros fuel out Ho Hcap Hf.
  - cbn [app length] in *. assert (copy_loop fuel cap out (c_quote :: r) = Ok (out, c_quote :: r)) as -> by (by destruct fuel). rewrite bind_ok.
    by apply emit_full; cbn; lia.
  - cbn [app length] in *. destruct fuel as [|fuel]; [lia|]. cbn [copy_loop]. rewrite bind_rd. unfold inert in Hc.
    apply negb_true_iff in Hc. rewrite !orb_false_iff in Hc. destruct Hc as [[Hz Hq] Hb]. rewrite Hz, Hq, Hb. cbn [orb negb].
    destruct (Z.leb_spec (zlen out + 1) cap).
    + rewrite emit_ok by (cbn; lia). rewrite bind_ok. apply IH; [rewrite length_app; cbn; lia..|lia].
    + by rewrite emit_full by (cbn; lia).
Qed.
Lemma unicode_string `{HeapOk} a b c s r : Forall (λ x, inert x = true) s → (2 ≤ length s)%nat →
  parse_string (c_quote :: c_back :: chr 117 :: c_quote :: a :: b :: c :: s ++ c_quote :: r) = Fault.
Proof.
  intros Hs Hl. unfold parse_string. rewrite bind_rd. cbn [tail]. change (negb (is_c 34 c_quote)) with false. cbn iota zeta.
  change (scan_len 0 (c_back :: chr 117 :: c_quote :: a :: b :: c :: s ++ c_quote :: r)) with (Ok 1). rewrite bind_ok, alloc_ok, bind_ok. cbn [length].
  set (f := S (S (S (S (S (length (s ++ c_quote :: r))))))).
  change (copy_loop (S f) (1 + 1) [] (c_back :: chr 117 :: c_quote :: a :: b :: c :: s ++ c_quote :: r)) with (copy_loop f 2 [] (s ++ c_quote :: r)).
  assert (length s ≤ f)%nat as Hf by (unfold f; rewrite length_app; lia). change (1 + 1) with 2.
  pose proof (copy_overflow s f 2 [] r Hs ltac:(cbn; lia) ltac:(cbn; lia) Hf) as Hc.
  destruct (copy_loop f 2 [] (s ++ c_quote :: r)) as [[out l]| | |]; [|done..]. cbn in Hc. rewrite bind_ok. by rewrite Hc.
Qed.
