(* ===== verification/JsonMap.v ===== *)
(** * JSON objects as maps

    An object whose names differ, whatever their case, stands for a map; the
    look-up, adding and removing of members are those of the map.  Appending a
    parsed object to an empty one copies it. *)

From S2P Require Import Prelude Errors Shbuf Crc Hmac Key Opt ShmapSpec ShmapInv Json JsonTree JsonSafe JsonSpec JsonPrint.

Definition fold_name (s : list byte) : list byte := tolower <$> s.

Section map.
Context `{Real}.
Definition entry (c : shjson_t) : option (list byte * shjson_t) := (λ s, (fold_name s, c)) <$> j_string c.
Definition entries (l : list shjson_t) : list (list byte * shjson_t) := omap entry l.
Definition obj_map (t : shjson_t) : gmap (list byte) shjson_t := list_to_map (entries (j_child t)).
Record represents (t : shjson_t) (m : gmap (list byte) shjson_t) : Prop := {
  rp_names : NoDup (entries (j_child t)).*1;
  rp_map : obj_map t = m;
}.

Lemma has_name_entry n c : has_name n c = true ↔ entry c = Some (fold_name n, c).
Proof.
  unfold has_name, entry, strcasecmp, fold_name. destruct (j_string c) as [s|]; [|done]. cbn. rewrite bool_decide_eq_true. split; [by intros ->|].
  by intros [= ->].
Qed.
Lemma entry_other n c k d : has_name n c = false → entry c = Some (k, d) → k ≠ fold_name n ∧ d = c.
Proof.
  intros Hn He. pose proof He as (s & Hs & [= -> ->])%fmap_Some. split; [|done]. intros E.
  rewrite (proj2 (has_name_entry n c)) in Hn; [done|]. by rewrite He, E.
Qed.
Lemma lookup_entry n l : List.find (has_name n) l = (list_to_map (entries l) : gmap _ _) !! fold_name n.
Proof.
  unfold entries. induction l as [|c l IH]; [done|]. cbn [List.find omap list_omap]. destruct (has_name n c) eqn:En.
  - rewrite (proj1 (has_name_entry n c)) by done. cbn. by rewrite lookup_insert_eq.
  - destruct (entry c) as [[k d]|] eqn:Ee; [|done]. destruct (entry_other _ _ _ _ En Ee) as [Hk ->]. cbn. by rewrite lookup_insert_ne.
Qed.
Lemma find_index_spec k n l : (∃ l1 c l2, l = l1 ++ c :: l2 ∧ has_name n c = true ∧ find_index k n l = Some (k + zlen l1)) ∨
  (Forall (λ c, has_name n c = false) l ∧ find_index k n l = None).
Proof.
  revert k. induction l as [|c l IH]; intros k; [by right|]. cbn [find_index]. destruct (has_name n c) eqn:En.
  - left. exists [], c, l. split; [done|]. split; [done|]. f_equal. cbn. lia.
  - destruct (IH (k + 1)) as [(l1 & d & l2 & -> & Hd & ->)|[Hl ->]].
    + left. exists (c :: l1), d, l2. split; [done|]. split; [done|]. f_equal. cbn. lia.
    + right. split; [by constructor|done].
Qed.
Lemma absent_entry n l : Forall (λ c, has_name n c = false) l → fold_name n ∉ (entries l).*1.
Proof.
  intros Hl ([k d] & Hk & (c & Hc & He)%list_elem_of_omap)%list_elem_of_fmap. rewrite Forall_forall in Hl.
  destruct (entry_other _ _ _ _ (Hl _ Hc) He) as [Hne _]. done.
Qed.

Lemma entries_app l1 l2 : entries (l1 ++ l2) = entries l1 ++ entries l2.
Proof. apply omap_app. Qed.
Lemma entries_mid n l1 c l2 : has_name n c = true → entries (l1 ++ c :: l2) ≡ₚ (fold_name n, c) :: entries (l1 ++ l2).
Proof.
  intros Hc. rewrite !entries_app. unfold entries at 2. cbn [omap list_omap]. rewrite (proj1 (has_name_entry n c)) by done.
  symmetry. apply Permutation_middle.
Qed.
Lemma remove_represents t m n l1 c l2 : represents t m → j_child t = l1 ++ c :: l2 → has_name n c = true →
  m !! fold_name n = Some c ∧ represents (set_child (l1 ++ l2) t) (delete (fold_name n) m).
Proof.
  intros [Hd <-] Ht Hc. unfold obj_map. rewrite Ht in *. pose proof (entries_mid n l1 c l2 Hc) as Hp.
  rewrite (list_to_map_proper _ _ Hd Hp). rewrite Hp in Hd. cbn in Hd. apply NoDup_cons in Hd as [Hn Hd]. cbn [list_to_map foldr fst snd uncurry].
  split; [by rewrite lookup_insert_eq|]. split; [done|]. unfold obj_map. cbn [j_child set_child].
  rewrite delete_insert_id; [done|]. by apply not_elem_of_list_to_map_1.
Qed.
Lemma detach_represents t m n : represents t m →
  (shjson_DetachItemFromObject t n).1 = m !! fold_name n ∧ represents (shjson_DetachItemFromObject t n).2 (delete (fold_name n) m).
Proof.
  intros Hr. unfold shjson_DetachItemFromObject. destruct (find_index_spec 0 n (j_child t)) as [(l1 & c & l2 & El & Hc & ->)|[Hl ->]].
  - destruct (remove_represents t m n l1 c l2 Hr El Hc) as [Hm Hr']. unfold shjson_DetachItemFromArray. cbv zeta.
    replace (Z.to_nat (0 + zlen l1)) with (length l1) by lia. rewrite El.
    rewrite list_lookup_middle by done. cbn [fst snd]. split; [done|]. rewrite take_app_length, cons_middle, (assoc_L (++)), drop_app_length'; [done|].
    rewrite length_app. cbn. lia.
  - cbn [fst snd]. assert (m !! fold_name n = None) as Hm.
    { destruct Hr as [_ <-]. apply not_elem_of_list_to_map_1. by apply absent_entry. }
    split; [done|]. by rewrite delete_id.
Qed.
Lemma del_absent t n : fold_name n ∉ (entries (j_child t)).*1 → shjson_DeleteItemFromObject t n = t.
Proof.
  intros Hn. unfold shjson_DeleteItemFromObject, shjson_DetachItemFromObject.
  destruct (find_index_spec 0 n (j_child t)) as [(l1 & c & l2 & El & Hc & _)|[_ ->]]; [|done].
  destruct Hn. rewrite El, (entries_mid n) by done. left.
Qed.
Lemma entries_snoc l i : (entries (l ++ [i])).*1 = (entries l).*1 ++ option_list (fold_name <$> j_string i).
Proof. rewrite entries_app, fmap_app. f_equal. unfold entries, entry. cbn [omap list_omap]. by destruct (j_string i). Qed.
Context `{HeapOk}.
Lemma strdup_ok s : strdup s = Some s.
Proof. unfold strdup. by rewrite heap_always. Qed.
Lemma add_represents t m n i : represents t m → represents (add_name (del_name t (Some n)) (Some n) (Some i)) (<[fold_name n := set_name (Some n) i]> m).
Proof.
  intros Hr. destruct (detach_represents t m n Hr) as [_ [Hd Hm]]. cbn [add_name del_name shjson_AddItemToObject shjson_AddItemToArray]. rewrite strdup_ok.
  fold (shjson_DeleteItemFromObject t n) in *. set (t' := shjson_DeleteItemFromObject t n) in *.
  assert (fold_name n ∉ (entries (j_child t')).*1) as Hn.
  { apply (not_elem_of_list_to_map_2 (M := gmap (list byte))). fold (obj_map t'). rewrite Hm. apply lookup_delete_eq. }
  assert (has_name n (set_name (Some n) i) = true) as Hi by (by apply has_name_entry).
  pose proof (entries_mid n (j_child t') _ [] Hi) as Hp. rewrite app_nil_r in Hp. split; cbn [j_child set_child].
  - rewrite Hp. cbn. apply NoDup_cons. split; [done|]. done.
  - unfold obj_map. cbn [j_child set_child]. rewrite <-insert_delete_eq, <-Hm. unfold obj_map. rewrite (list_to_map_proper _ _) with (2 := Hp); [done|].
    rewrite Hp. cbn. by apply NoDup_cons.
Qed.
Lemma add_fresh t m n i : represents t m → m !! fold_name n = None → represents (add_name t (Some n) (Some i)) (<[fold_name n := set_name (Some n) i]> m).
Proof.
  intros Hr Hm. pose proof (add_represents t m n i Hr) as Ha. cbn [del_name] in Ha. rewrite del_absent in Ha; [done|].
  destruct Hr as [_ <-]. by apply (not_elem_of_list_to_map_2 (M := gmap (list byte))).
Qed.
(** An item under a name that is in use is not found. *)
Lemma add_shadowed t n n' i c : shjson_GetObjectItem t n = Some c →
  shjson_GetObjectItem (add_name t (Some n) (Some i)) n' = shjson_GetObjectItem t n'.
Proof.
  unfold shjson_GetObjectItem. cbn [add_name shjson_AddItemToObject shjson_AddItemToArray j_child set_child]. rewrite strdup_ok. rewrite !lookup_entry.
  intros Hc. rewrite entries_app, list_to_map_app. unfold entries at 2. cbn [omap list_omap entry set_name j_string fmap option_fmap option_map].
  destruct (decide (fold_name n' = fold_name n)) as [->|Hne]; [rewrite Hc; by apply lookup_union_Some_l|].
  rewrite lookup_union_l; [done|]. cbn. by rewrite lookup_insert_ne.
Qed.
End map.

(** ** Appending *)
(** The names of every object differ. *)
Fixpoint junique (v : jval) : Prop :=
  match v with
  | VArr l => (fix go l := match l with [] => True | x :: l => junique x ∧ go l end) l
  | VObj l => NoDup (fold_name <$> l.*1) ∧ (fix go l := match l with [] => True | e :: l => junique e.2 ∧ go l end) l
  | _ => True
  end.
Lemma junique_arr l : junique (VArr l) ↔ Forall junique l.
Proof. induction l as [|x l IH]; [done|]. rewrite Forall_cons, <-IH. done. Qed.
Lemma junique_obj l : junique (VObj l) ↔ NoDup (fold_name <$> l.*1) ∧ Forall (λ e, junique e.2) l.
Proof.
  cbn. apply and_iff_compat_l. induction l as [|x l IH]; [done|]. rewrite Forall_cons, <-IH. done.
Qed.

Section append.
Context `{RealOk} `{HeapOk}.
(** One round of the loop of [shjson_obj_append]. *)
Definition append_node (node obj : shjson_t) : res shjson_t :=
  let name := j_string node in
  let type := Z.land (j_type node) 255 in
  let nested (o : option shjson_t) : res shjson_t :=
    match o with
    | Some a => a ← shjson_obj_append node a; Ok (add_name obj name (Some a))
    | None => match j_child node with [] => Ok obj | _ => Fault end
    end in
  if type =? SHJSON_NULL then Ok (shjson_null_add obj name)
  else if type =? SHJSON_FALSE then Ok (shjson_bool_add obj name false)
  else if type =? SHJSON_TRUE then Ok (shjson_bool_add obj name true)
  else if type =? SHJSON_NUMBER then Ok (shjson_num_add obj name (num_of node))
  else if type =? SHJSON_STRING then Ok (shjson_str_add obj name (shjson_str (Some node) None (Some [])))
  else if type =? SHJSON_ARRAY then nested shjson_CreateArray
  else if type =? SHJSON_OBJECT then nested shjson_CreateObject
  else Ok obj.
Fixpoint append_nodes (l : list shjson_t) (obj : shjson_t) : res shjson_t :=
  match l with [] => Ok obj | node :: l => obj ← append_node node obj; append_nodes l obj end.
Lemma append_loop t obj : shjson_obj_append t obj = append_nodes (j_child t) obj.
Proof.
  destruct t as [ty vs vi vd n child]. revert obj. induction child as [|c l IH]; intros obj; [done|].
  change (shjson_obj_append (Json ty vs vi vd n (c :: l)) obj) with (obj ← append_node c obj; shjson_obj_append (Json ty vs vi vd n l) obj).
  cbn [j_child append_nodes] in *. destruct (append_node c obj) as [o| | |]; [|done..]. rewrite !bind_ok. apply IH.
Qed.

Lemma new_item_ok : shjson_New_Item = Some (item None 0).
Proof. unfold shjson_New_Item. by rewrite heap_always. Qed.
Lemma value_set_name s t : value_of (set_name s t) = value_of t.
Proof. by destruct t. Qed.
(** A copy of the value under that name. *)
Definition copy_of (name : option (list byte)) (v : jval) (c : shjson_t) : Prop := value_of c = Some v ∧ j_string c = name.
Definition absent (name : option (list byte)) (t : shjson_t) : Prop := ∀ n, name = Some n → fold_name n ∉ (entries (j_child t)).*1.
Lemma add_copy obj name v i : value_of i = Some v → j_string i = None →
  ∃ c, add_name obj name (Some i) = set_child (j_child obj ++ [c]) obj ∧ copy_of name v c.
Proof.
  intros Hv Hs. destruct name as [n|]; cbn [add_name shjson_AddItemToObject shjson_AddItemToArray].
  - rewrite strdup_ok. eexists. split; [done|]. split; [by rewrite value_set_name|done].
  - by exists i.
Qed.
Lemma del_copy obj name : absent name obj → del_name obj name = obj.
Proof. intros Ha. destruct name as [n|]; [|done]. by apply del_absent, Ha. Qed.

Definition copies (v : jval) : Prop := ∀ name obj, absent name obj →
  ∃ c, append_node (tree name v) obj = Ok (set_child (j_child obj ++ [c]) obj) ∧ copy_of name v c.
Lemma nodes_copy (l : list (option (list byte) * jval)) obj : Forall (λ e, copies e.2) l →
  NoDup ((entries (j_child obj)).*1 ++ omap (λ e, fold_name <$> e.1) l) →
  ∃ cs, append_nodes ((λ e, tree e.1 e.2) <$> l) obj = Ok (set_child (j_child obj ++ cs) obj) ∧ Forall2 (λ c e, copy_of e.1 e.2 c) cs l.
Proof.
  intros Hl. revert obj. induction Hl as [|[name v] l Hc Hl IH]; intros obj Hd.
  - exists []. split; [|constructor]. rewrite app_nil_r. by destruct obj.
  - cbn [fst snd fmap list_fmap append_nodes] in *. destruct (Hc name obj) as (c & -> & Hcopy).
    { intros n ->. cbn in Hd. apply NoDup_app in Hd as (_ & Hd & _). intros Hin. apply (Hd _ Hin). left. }
    rewrite bind_ok. destruct (IH (set_child (j_child obj ++ [c]) obj)) as (cs & Hcs & HF).
    { cbn [j_child set_child]. rewrite entries_snoc. destruct Hcopy as [_ ->]. rewrite <-(assoc_L (++)). cbn in Hd. by destruct name. }
    exists (c :: cs). split; [|by constructor]. rewrite Hcs. cbn [j_child set_child]. rewrite <-(assoc_L (++)). done.
Qed.
Lemma container_copies ty v (l : list (option (list byte) * jval)) : Z.land ty 255 = ty →
  (∀ name, tree name v = Json ty None 0 (r_of 0) name ((λ e, tree e.1 e.2) <$> l)) →
  Forall (λ e, copies e.2) l → NoDup (omap (λ e, fold_name <$> e.1) l) →
  (∀ cs, Forall2 (λ c e, copy_of e.1 e.2 c) cs l → value_of (Json ty None 0 (r_of 0) None cs) = Some v) →
  ∀ name, ∃ a, shjson_obj_append (tree name v) (item None ty) = Ok a ∧ copy_of None v a.
Proof.
  intros Hty Ht Hl Hd Hv name. rewrite append_loop, Ht. destruct (nodes_copy l (item None ty) Hl Hd) as (cs & Hcs & HF).
  exists (set_child cs (item None ty)). split; [exact Hcs|]. split; [by apply Hv|done].
Qed.
Lemma copies_nested v ty name obj (c : option shjson_t) : c = Some (item None ty) → (∃ a, shjson_obj_append (tree name v) (item None ty) = Ok a ∧ copy_of None v a) →
  ∃ i, match c with
       | Some a => a ← shjson_obj_append (tree name v) a; Ok (add_name obj name (Some a))
       | None => match j_child (tree name v) with [] => Ok obj | _ => Fault end
       end = Ok (set_child (j_child obj ++ [i]) obj) ∧ copy_of name v i.
Proof.
  intros -> (a & -> & Ha & Hs). rewrite bind_ok. destruct (add_copy obj name v a Ha Hs) as (i & -> & Hi). by exists i.
Qed.
Lemma leaf_copies v name obj (o : option shjson_t) i : absent name obj → o = Some i → value_of i = Some v → j_string i = None →
  ∃ c, Ok (add_name (del_name obj name) name o) = Ok (set_child (j_child obj ++ [c]) obj) ∧ copy_of name v c.
Proof.
  intros Ha -> Hv Hs. rewrite del_copy by done. destruct (add_copy obj name v i Hv Hs) as (c & -> & Hc). by exists c.
Qed.
Lemma collect_copies {A B} (f : shjson_t → option B) (g : A → option (list byte) * jval) (h : A → B) cs l :
  (∀ c a, copy_of (g a).1 (g a).2 c → f c = Some (h a)) → Forall2 (λ c e, copy_of e.1 e.2 c) cs (g <$> l) → collect f cs = Some (h <$> l).
Proof. intros Hf Hcs. apply collect_Forall2, Forall2_fmap_r. rewrite Forall2_fmap_r in Hcs. eapply Forall2_impl; [exact Hcs|]. auto. Qed.
Lemma object_copies l : Forall (λ e, copies e.2) l → NoDup (fold_name <$> l.*1) →
  ∀ name, ∃ a, shjson_obj_append (tree name (VObj l)) (item None SHJSON_OBJECT) = Ok a ∧ copy_of None (VObj l) a.
Proof.
  intros Hl Hd. apply (container_copies SHJSON_OBJECT (VObj l) ((λ e, (Some e.1, e.2)) <$> l)).
  - done.
  - intros nm. cbn. f_equal. by rewrite <-list_fmap_compose.
  - by apply Forall_fmap.
  - assert (omap (λ e : option (list byte) * jval, fold_name <$> e.1) ((λ e, (Some e.1, e.2)) <$> l) = fold_name <$> l.*1) as ->; [|done].
    clear. induction l as [|e l IH]; [done|]. cbn. f_equal. exact IH.
  - intros cs Hcs. cbn. rewrite (collect_copies _ (λ e, (Some e.1, e.2)) id cs l); [by rewrite list_fmap_id| |done].
    intros c [n v] [Hv Hn]. cbn in *. by rewrite Hv, Hn.
Qed.
Lemma value_copies v : jwf v → junique v → copies v.
Proof.
  induction v as [|b|z|s|l IH|l IH] using jval_ind; intros Hwf Hu name obj Ha.
  - apply (leaf_copies VNull name obj _ (item None SHJSON_NULL) Ha); [|done|done]. unfold shjson_CreateNull, create. by rewrite new_item_ok.
  - assert (∀ b, shjson_CreateBool b = Some (item None (if b then SHJSON_TRUE else SHJSON_FALSE))) as Hb.
    { intros []; unfold shjson_CreateBool, create; by rewrite new_item_ok. }
    destruct b; by apply (leaf_copies (VBool _) name obj _ _ Ha (Hb _)).
  - change (append_node (tree name (VNum z)) obj) with (Ok (shjson_num_add obj name (num_of (tree name (VNum z))))).
    apply (leaf_copies (VNum z) name obj _ (tree None (VNum z)) Ha); [|by apply (value_tree None (VNum z))|done].
    unfold shjson_CreateNumber, num_of. rewrite new_item_ok. cbn in *. by rewrite real_near, real_int.
  - change (append_node (tree name (VStr s)) obj) with (Ok (shjson_str_add obj name (strdup s))). rewrite strdup_ok.
    apply (leaf_copies (VStr s) name obj _ (tree None (VStr s)) Ha); [|done|done]. unfold shjson_CreateString. by rewrite new_item_ok, strdup_ok.
  - apply jwf_arr in Hwf. apply junique_arr in Hu. apply (copies_nested (VArr l) SHJSON_ARRAY).
    { unfold shjson_CreateArray, create. by rewrite new_item_ok. }
    apply (container_copies SHJSON_ARRAY (VArr l) (pair None <$> l)).
    + done.
    + intros nm. cbn. f_equal. by rewrite <-list_fmap_compose.
    + apply Forall_fmap. rewrite Forall_forall in *. intros x Hx. by apply IH; [|apply Hwf|apply Hu].
    + assert (omap (λ e : option (list byte) * jval, fold_name <$> e.1) (pair None <$> l) = []) as -> by (clear; by induction l). constructor.
    + intros cs Hcs. cbn. rewrite (collect_copies value_of (pair None) id cs l); [by rewrite list_fmap_id| |done]. by intros c a [Hv _].
  - apply jwf_obj in Hwf. apply junique_obj in Hu as [Hd Hu]. apply (copies_nested (VObj l) SHJSON_OBJECT).
    { unfold shjson_CreateObject, create. by rewrite new_item_ok. }
    apply object_copies; [|done]. rewrite Forall_forall in *. intros x Hx. by apply IH; [|apply Hwf|apply Hu].
Qed.
Lemma append_copy l name : jwf (VObj l) → junique (VObj l) →
  ∃ t, shjson_obj_append (tree name (VObj l)) (item None SHJSON_OBJECT) = Ok t ∧ value_of t = Some (VObj l).
Proof.
  intros Hwf%jwf_obj [Hd Hu]%junique_obj. destruct (object_copies l) with (name := name) as (t & Ht & Hv & _); [|done|by exists t].
  rewrite Forall_forall in *. intros x Hx. by apply value_copies; [apply Hwf|apply Hu].
Qed.
End append.
