(* ===== verification/Codec.v ===== *)
(** * Text forms of binary data

    The hexadecimal, base 32, base 58, base 64 and 56-letter forms of libshare:
    [shmem_base32.c], [shmem_base58.c], [shmem_base64.c], [shalg_encode] and
    [shalg_decode] of [shmem_alg.c], and the two-factor secrets in base 32 of
    [shmem_alg_sha.c].

    A text is the list of bytes before its terminator; a buffer that a function
    fills is given by its size, and writing behind its end is a fault, as is
    reading behind the end of the data.  A text that fills its buffer has no
    terminator, and what reads it runs over the end: this is a fault as well.
    Lengths are below 2^31. *)

From S2P Require Import Prelude Errors Shbuf Crc Sha Hmac Key Opt Json.

Definition SHFMT_HEX : Z := 0.
Definition SHFMT_BASE32 : Z := 1.
Definition SHFMT_BASE58 : Z := 2.
Definition SHFMT_BASE64 : Z := 3.
Definition SHFMT_SHR56 : Z := 4.
Definition SECRET_2FA_SIZE : Z := 10.
Definition c_pad : byte := chr 61.
(** Entry [i] of a table, and byte [i] of a block. *)
Definition entry_of (table : list byte) (i : Z) : byte := nth (Z.to_nat i) table x00.
Definition at_b (l : list byte) (i : nat) : Z := Z_of_byte (nth i l x00).
(** A text in a buffer of [size] bytes. *)
Definition terminated (size : Z) (text : list byte) : res (list byte) := if zlen text <? size then Ok text else Fault.

(** ** Base 64 *)
Definition _shbase64_decode_table : list Z :=
  replicate 43 64 ++ [62; 64; 64; 64; 63] ++ seqZ 52 10 ++ replicate 7 64 ++ seqZ 0 26 ++ replicate 6 64 ++ seqZ 26 26 ++ replicate 133 64.
Definition _shbase64_encode_table : list byte := bytes "ABCDEFGHIJKLMNOPQRSTUVWXYZabcdefghijklmnopqrstuvwxyz0123456789+/".
Definition t64 (c : byte) : Z := nth (Z.to_nat (Z_of_byte c)) _shbase64_decode_table 64.
Definition e64 (i : Z) : byte := entry_of _shbase64_encode_table i.
Definition shbase64_encode_len (len : Z) : Z := (len + 2) / 3 * 4 + 1.
(** The number of letters before another character. *)
Fixpoint letters64 (text : list byte) : nat := match text with [] => O | c :: text => if t64 c <=? 63 then S (letters64 text) else O end.
Definition shbase64_decode_len (text : list byte) : Z := (Z.of_nat (letters64 text) + 3) / 4 * 3 + 1.
(** [for (i = 0; i < data_len - 2; i += 3)]: [limit] is [data_len - 2], which is
    unsigned. *)
Fixpoint b64_groups (limit i : Z) (l : list byte) : res (list byte * list byte) :=
  if i <? limit then
    match l with
    | a :: b :: c :: l =>
       let a := Z_of_byte a in let b := Z_of_byte b in let c := Z_of_byte c in
       '(out, l) ← b64_groups limit (i + 3) l;
       Ok (e64 (Z.land (Z.shiftr a 2) 0x3F) :: e64 (Z.lor (Z.shiftl (Z.land a 3) 4) (Z.shiftr (Z.land b 0xF0) 4)) ::
           e64 (Z.lor (Z.shiftl (Z.land b 0xF) 2) (Z.shiftr (Z.land c 0xC0) 6)) :: e64 (Z.land c 0x3F) :: out, l)
    | _ => Fault
    end
  else Ok ([], l).
(** [l] is what the loop left. *)
Definition b64_tail (l : list byte) : list byte :=
  match l with
  | [] => []
  | a :: l =>
     let a := Z_of_byte a in
     e64 (Z.land (Z.shiftr a 2) 0x3F) ::
     match l with
     | [] => [e64 (Z.shiftl (Z.land a 3) 4); c_pad]
     | b :: _ => let b := Z_of_byte b in
                 [e64 (Z.lor (Z.shiftl (Z.land a 3) 4) (Z.shiftr (Z.land b 0xF0) 4)); e64 (Z.shiftl (Z.land b 0xF) 2)]
     end ++ [c_pad]
  end.
Section base64.
Context `{Heap}.
Definition shbase64_encode (data : list byte) : res (list byte) :=
  _ ← alloc (shbase64_encode_len (zlen data) + 1);
  '(out, l) ← b64_groups (u64 (zlen data - 2)) 0 data;
  Ok (out ++ b64_tail l).
Definition byte64 (hi lo : Z) : byte := byte_of_Z (Z.lor hi lo).
(** [n] letters are left. *)
Fixpoint b64_read (n : nat) (l : list byte) : list byte :=
  match l with
  | a :: b :: c :: d :: r =>
     let a := t64 a in let b := t64 b in let c := t64 c in let d := t64 d in
     let o1 := byte64 (Z.shiftl a 2) (Z.shiftr b 4) in
     let o2 := byte64 (Z.shiftl b 4) (Z.shiftr c 2) in
     let o3 := byte64 (Z.shiftl c 6) d in
     if (4 <? n)%nat then o1 :: o2 :: o3 :: b64_read (n - 4) r
     else (if (1 <? n)%nat then [o1] else []) ++ (if (2 <? n)%nat then [o2] else []) ++ (if (3 <? n)%nat then [o3] else [])
  | a :: b :: r =>
     let a := t64 a in let b := t64 b in
     (if (1 <? n)%nat then [byte64 (Z.shiftl a 2) (Z.shiftr b 4)] else []) ++
     (if (2 <? n)%nat then match r with c :: _ => [byte64 (Z.shiftl b 4) (Z.shiftr (t64 c) 2)] | [] => [] end else [])
  | _ => []
  end.
(** The letters that the loop leaves. *)
Definition rest64 (n : Z) : Z := if n =? 0 then 0 else (n - 1) mod 4 + 1.
(** The bytes of the buffer before its terminator, and the length. *)
Definition shbase64_decode (text : list byte) : res (list byte * Z) :=
  _ ← alloc (shbase64_decode_len text + 1);
  let n := letters64 text in
  Ok (b64_read n text, (Z.of_nat n + 3) / 4 * 3 - Z.land (4 - rest64 (Z.of_nat n)) 3).
End base64.

(** ** Base 32 *)
Definition b32str : list byte := bytes "ABCDEFGHIJKLMNOPQRSTUVWXYZ234567".
Definition e32 (i : Z) : byte := entry_of b32str (Z.land i 0x1f).
(** The eight letters of up to five bytes; [letter c x] is [c ? b32str[x] : '=']. *)
Definition b32_group (l : list byte) : list byte :=
  let g := at_b l in
  let more (i : nat) := (i <? length l)%nat in
  let letter (c : bool) (x : Z) := if c then e32 x else c_pad in
  let carry (i : nat) (x : Z) := if more i then x else 0 in
  [ e32 (Z.shiftr (g 0%nat) 3);
    e32 (Z.shiftl (g 0%nat) 2 + carry 1%nat (Z.shiftr (g 1%nat) 6));
    letter (more 1%nat) (Z.shiftr (g 1%nat) 1);
    letter (more 1%nat) (Z.shiftl (g 1%nat) 4 + carry 2%nat (Z.shiftr (g 2%nat) 4));
    letter (more 2%nat) (Z.shiftl (g 2%nat) 1 + carry 3%nat (Z.shiftr (g 3%nat) 7));
    letter (more 3%nat) (Z.shiftr (g 3%nat) 2);
    letter (more 3%nat) (Z.shiftl (g 3%nat) 3 + carry 4%nat (Z.shiftr (g 4%nat) 5));
    letter (more 4%nat) (g 4%nat) ].
Fixpoint b32_text (l : list byte) : list byte :=
  match l with
  | [] => []
  | a :: b :: c :: d :: e :: l => b32_group [a; b; c; d; e] ++ b32_text l
  | _ => b32_group l
  end.
(** What is written to a buffer of [outlen] bytes, the terminator included. *)
Definition shbase32_encode (data : list byte) (outlen : nat) : list byte :=
  let text := b32_text data in
  take outlen text ++ (if (length text <? outlen)%nat then [x00] else []).
Definition B32 (c : byte) : Z :=
  let z := Z_of_byte c in
  if (65 <=? z) && (z <=? 90) then z - 65 else if (50 <=? z) && (z <=? 55) then z - 24 else -1.
Definition isbase32 (c : byte) : bool := 0 <=? B32 c.
(** A byte of output, when there is room: [*out++ = x; --*outleft]. *)
Definition put (x : Z) (st : list byte * nat) : list byte * nat :=
  match st.2 with O => st | S room => (st.1 ++ [byte_of_Z x], room) end.
Definition is_pad (c : byte) : bool := bool_decide (c = c_pad).
Definition decode_8 (l : list byte) (st : list byte * nat) : bool * (list byte * nat) :=
  match l with
  | c0 :: c1 :: c2 :: c3 :: c4 :: c5 :: c6 :: c7 :: _ =>
     if negb (isbase32 c0) || negb (isbase32 c1) then (false, st)
     else
       let st := put (Z.lor (Z.shiftl (B32 c0) 3) (Z.shiftr (B32 c1) 2)) st in
       if is_pad c2 then (is_pad c3 && is_pad c4 && is_pad c5 && is_pad c6 && is_pad c7, st)
       else if negb (isbase32 c2) || negb (isbase32 c3) then (false, st)
       else
         let st := put (Z.lor (Z.lor (Z.shiftl (B32 c1) 6) (Z.shiftl (B32 c2) 1)) (Z.shiftr (B32 c3) 4)) st in
         if is_pad c4 then (is_pad c5 && is_pad c6 && is_pad c7, st)
         else if negb (isbase32 c4) then (false, st)
         else
           let st := put (Z.lor (Z.shiftl (B32 c3) 4) (Z.shiftr (B32 c4) 1)) st in
           if is_pad c5 then (is_pad c6 && is_pad c7, st)
           else if negb (isbase32 c5) || negb (isbase32 c6) then (false, st)
           else
             let st := put (Z.lor (Z.lor (Z.shiftl (B32 c4) 7) (Z.shiftl (B32 c5) 2)) (Z.shiftr (B32 c6) 3)) st in
             if is_pad c7 then (true, st)
             else if negb (isbase32 c7) then (false, st)
             else (true, put (Z.lor (Z.shiftl (B32 c6) 5) (B32 c7)) st)
  | _ => (false, st)
  end.
(** [shbase32_decode_ctx] without a context: at a block that cannot be decoded
    its output is taken back and it is decoded again. *)
Fixpoint b32_loop (fuel : nat) (l : list byte) (st : list byte * nat) : bool * (list byte * nat) :=
  match fuel with
  | O => (false, st)
  | S fuel =>
     match decode_8 l st with
     | (true, st) => b32_loop fuel (drop 8 l) st
     | (false, _) => match l with [] => (true, st) | _ => (false, (decode_8 l st).2) end
     end
  end.
(** The success and the bytes that were written. *)
Definition shbase32_decode (text : list byte) (outlen : nat) : bool * list byte :=
  let '(ok, st) := b32_loop (S (length text)) text ([], outlen) in (ok, st.1).

(** ** Base 58 *)
Definition b58digits_ordered : list byte := bytes "123456789ABCDEFGHJKLMNPQRSTUVWXYZabcdefghijkmnopqrstuvwxyz".
Definition b58digits_map : list Z :=
  replicate 49 (-1) ++ seqZ 0 9 ++ replicate 7 (-1) ++ seqZ 9 8 ++ [-1] ++ seqZ 17 5 ++ [-1] ++ seqZ 22 11 ++ replicate 6 (-1) ++
  seqZ 33 11 ++ [-1] ++ seqZ 44 14 ++ replicate 5 (-1).
(** Entry [c] of the table of 128. *)
Definition d58 (c : byte) : option Z := b58digits_map !! Z.to_nat (Z_of_byte c).
(** [buf] from its last digit; [touched] of its digits were used before. *)
Fixpoint b58_byte (touched : nat) (carry : Z) (buf : list Z) : res (list Z * nat) :=
  if (touched =? 0)%nat && (carry =? 0) then Ok (buf, O)
  else match buf with
       | [] => Fault
       | d :: buf => let carry := carry + 256 * d in
                     '(buf, n) ← b58_byte (pred touched) (carry / 58) buf; Ok (carry mod 58 :: buf, S n)
       end.
Fixpoint b58_bytes (bin : list byte) (touched : nat) (buf : list Z) : res (list Z) :=
  match bin with
  | [] => Ok buf
  | b :: bin => '(buf, touched) ← b58_byte touched (Z_of_byte b) buf; b58_bytes bin touched buf
  end.
Fixpoint strip {A} (zero : A → bool) (l : list A) : list A := match l with [] => [] | x :: r => if zero x then strip zero r else l end.
Definition is_nul (c : byte) : bool := bool_decide (c = x00).
(** [Fail] when the buffer of [b58sz] bytes is too small. *)
Definition shbase58_encode (b58sz : Z) (data : list byte) : res (list byte) :=
  let bin := strip is_nul data in
  let zcount := (length data - length bin)%nat in
  buf ← b58_bytes bin 0 (replicate (length bin * 138 / 100 + 1) 0);
  let digits := strip (Z.eqb 0) (reverse buf) in
  if b58sz <=? Z.of_nat (zcount + length digits) then Fail
  else Ok (replicate zcount (chr 49) ++ (entry_of b58digits_ordered <$> digits)).
(** [for (i = 0; i < b58sz && !b58digits_map[b58u[i]]; ++i)] *)
Fixpoint b58_ones (text : list byte) : res (nat * list byte) :=
  match text with
  | [] => Ok (O, [])
  | c :: r => match d58 c with
              | None => Fault
              | Some d => if d =? 0 then '(n, r) ← b58_ones r; Ok (S n, r) else Ok (O, text)
              end
  end.
(** [outi] from its last word: its words and the carry. *)
Fixpoint b58_digit (c : Z) (outi : list Z) : list Z * Z :=
  match outi with
  | [] => ([], c)
  | w :: outi => let t := w * 58 + c in
                 let '(outi, c) := b58_digit (Z.shiftr (Z.land t 0x3f00000000) 32) outi in (Z.land t 0xffffffff :: outi, c)
  end.
Fixpoint b58_digits (zeromask : Z) (text : list byte) (outi : list Z) : res (list Z) :=
  match text with
  | [] => Ok outi
  | ch :: text =>
     match d58 ch with
     | None => Fail
     | Some c =>
        if c =? -1 then Fail
        else
          let '(outi, c) := b58_digit c outi in
          if negb (c =? 0) then Fail
          else match last outi with
               | None => Fault
               | Some w => if negb (Z.land w zeromask =? 0) then Fail else b58_digits zeromask text outi
               end
     end
  end.
(** The [binsz] bytes that are written, and the canonical number of bytes. *)
Definition shbase58_decode (binsz : Z) (text : list byte) : res (list byte * Z) :=
  let bytesleft := binsz mod 4 in
  let zeromask := if bytesleft =? 0 then 0 else u32 (Z.shiftl 0xffffffff (bytesleft * 8)) in
  '(zerocount, text) ← b58_ones text;
  outi ← b58_digits zeromask text (replicate (Z.to_nat (u64 (binsz + 3) / 4)) 0);
  let data := drop (Z.to_nat ((4 - bytesleft) mod 4)) (concat (be_enc 4 <$> reverse outi)) in
  Ok (data, zlen (strip is_nul data) + Z.of_nat zerocount).
(** -1 for a text that cannot be decoded. *)
Definition shbase58_decode_size (text : list byte) (max_size : Z) : res Z :=
  match shbase58_decode max_size text with Ok (_, n) => Ok n | Fail => Ok (-1) | Fault => Fault | NoFuel => NoFuel end.

Section check.
Context (mem : list byte).
Definition sha256 (data : list byte) : res (list byte) := match sh_sha256 mem (Some data) (zlen data) with Some d => Ok d | None => Fault end.
Definition checksum (data : list byte) : res (list byte) := h ← sha256 data; h ← sha256 h; Ok (take 4 h).
(** The first place where the zeros of [bin] and the ones of the text end. *)
Fixpoint b58_zeros (bin text : list byte) : res bool :=
  match bin with
  | [] => Fault
  | b :: bin =>
     let one := match text with c :: _ => bool_decide (c = chr 49) | [] => false end in
     if is_nul b && one then b58_zeros bin (tail text) else Ok (is_nul b || one)
  end.
Definition b58check (bin text : list byte) : res Z :=
  if zlen bin <? 4 then Ok (-4)
  else
    sum ← checksum (take (length bin - 4) bin);
    if negb (bool_decide (drop (length bin - 4) bin = sum)) then Ok (-1)
    else bad ← b58_zeros bin text; if bad : bool then Ok (-3) else Ok (at_b bin 0).
(** The result is the size with the terminator, or 0. *)
Definition shbase58_encode_check (data : list byte) (strsize : Z) : res (Z * list byte) :=
  if 128 <? zlen data then Ok (0, [])
  else
    sum ← checksum data;
    match shbase58_encode strsize (data ++ sum) with
    | Ok text => Ok (zlen text + 1, text)
    | Fail => Ok (0, [])
    | r => Fault
    end.
Definition shbase58_decode_check (text : list byte) (datalen : Z) : res (Z * list byte) :=
  if 128 <? datalen then Ok (0, [])
  else match shbase58_decode (datalen + 4) text with
       | Fail => Ok (0, [])
       | Ok (d, n) =>
          if negb (n =? datalen + 4) then Ok (0, [])
          else r ← b58check d text; if r <? 0 then Ok (0, []) else Ok (datalen, take (Z.to_nat datalen) d)
       | _ => Fault
       end.
End check.

(** ** Hexadecimal *)
Definition hex_string (data : list byte) : list byte := concat ((λ b, hex_fmt 2 (Z_of_byte b)) <$> data).
(** The test allows four times what the buffer holds. *)
Definition _shalg_encode_hex (ret_buf_max : Z) (data : list byte) : res (list byte) :=
  if ret_buf_max * 2 <=? zlen data then Fail else terminated ret_buf_max (hex_string data).
Fixpoint hex_bytes (text : list byte) : list byte :=
  match text with
  | [] => []
  | [a] => [byte_of_Z (strtoll16 [a])]
  | a :: b :: text => byte_of_Z (strtoll16 [a; b]) :: hex_bytes text
  end.
Definition _shalg_decode_hex (text : list byte) (data_max : Z) : res (list byte) :=
  let out := hex_bytes text in if zlen out <=? data_max then Ok out else Fault.

(** ** Words of six letters *)
(** A word of up to four bytes; the others keep what the variable held. *)
Definition shr56_word (val : Z) (l : list byte) : Z := le_dec (take 4 l ++ drop (length (take 4 l)) (le_enc 4 val)).
Fixpoint shr56_words (val : Z) (l : list byte) : list byte :=
  match l with
  | [] => []
  | a :: b :: c :: d :: r => let val := shr56_word val [a; b; c; d] in fmt6 (shcrcstr val) ++ shr56_words val r
  | _ => fmt6 (shcrcstr (shr56_word val l))
  end.
Definition _shalg_encode_shr56 (val0 : Z) (ret_buf_max : Z) (data : list byte) : res (list byte) :=
  let pad_len := (length data mod 4)%nat in
  terminated ret_buf_max (dots (shr56_words val0 data) ++ (if (pad_len =? 0)%nat then [] else replicate (4 - pad_len) (chr 46))).
(** The blocks are written at [of]; behind [ret_len] a whole word is written. *)
Fixpoint shr56_blocks (blks : nat) (ret_len data_max of_ : Z) (text : list byte) : res (list byte) :=
  match blks with
  | O => Ok []
  | S blks =>
     let val := u32 (shcrcgen (skip_dots (take 6 text))) in
     let n := if ret_len <? of_ then 4 else Z.min 4 (ret_len - of_) in
     if data_max <? of_ + n then Fault
     else out ← shr56_blocks blks ret_len data_max (of_ + 4) (drop 6 text); Ok (take (Z.to_nat n) (le_enc 4 val) ++ out)
  end.
Definition _shalg_decode_shr56 (text : list byte) (data_max : Z) : res (Z * list byte) :=
  let in_len := zlen text in
  let pad_len := in_len mod 6 in
  let blks := in_len / 6 in
  let ret_len := blks * 4 - pad_len in
  if (ret_len <? 0) || (data_max <? ret_len) then Ok (ERR_INVAL, [])
  else out ← shr56_blocks (Z.to_nat blks) ret_len data_max 0 text; Ok (0, take (Z.to_nat ret_len) out).

(** ** [shalg_encode] and [shalg_decode] *)
Definition RET_BUF : Z := 4096.
Section shalg.
Context `{Heap}.
Definition _shalg_encode_b32 (ret_buf_max : Z) (data : list byte) : res (list byte) :=
  terminated ret_buf_max (cstring (shbase32_encode data (Z.to_nat ret_buf_max))).
Definition _shalg_encode_b58 (ret_buf_max : Z) (data : list byte) : res (list byte) := shbase58_encode ret_buf_max data.
(** [strncpy] *)
Definition _shalg_encode_b64 (ret_buf_max : Z) (data : list byte) : res (list byte) :=
  enc_data ← shbase64_encode data; terminated ret_buf_max (take (Z.to_nat ret_buf_max) enc_data).
(** What could not be decoded is not told. *)
Definition _shalg_decode_b32 (text : list byte) (data_max : Z) : list byte := (shbase32_decode text (Z.to_nat data_max)).2.
Definition _shalg_decode_b58 (text : list byte) (data_max : Z) : res (Z * list byte) :=
  n ← shbase58_decode_size text data_max;
  match shbase58_decode (u64 n) text with
  | Ok (data, len) => if data_max <? n then Fault else Ok (0, take (Z.to_nat len) data)
  | Fail => Ok (ERR_INVAL, [])
  | Fault => Fault
  | NoFuel => NoFuel
  end.
Definition _shalg_decode_b64 (text : list byte) (data_max : Z) : res (Z * list byte) :=
  match shbase64_decode text with
  | Ok (data, len) => if data_max <? len then Ok (ERR_INVAL, []) else Ok (0, take (Z.to_nat len) data)
  | Fail => Ok (ERR_NOMEM, [])
  | Fault => Fault
  | NoFuel => NoFuel
  end.
(** [val0] is the local variable of the six-letter form before it is set. *)
Definition shalg_encode (val0 : Z) (fmt : Z) (data : list byte) : res (list byte) :=
  if fmt =? SHFMT_HEX then _shalg_encode_hex RET_BUF data
  else if fmt =? SHFMT_BASE32 then _shalg_encode_b32 RET_BUF data
  else if fmt =? SHFMT_BASE58 then _shalg_encode_b58 RET_BUF data
  else if fmt =? SHFMT_BASE64 then _shalg_encode_b64 RET_BUF data
  else if fmt =? SHFMT_SHR56 then _shalg_encode_shr56 val0 RET_BUF data
  else Fail.
(** The error code, and the bytes of the result. *)
Definition shalg_decode (fmt : Z) (text : list byte) (data_max : Z) : res (Z * list byte) :=
  if fmt =? SHFMT_HEX then out ← _shalg_decode_hex text data_max; Ok (0, out)
  else if fmt =? SHFMT_BASE32 then Ok (0, _shalg_decode_b32 text data_max)
  else if fmt =? SHFMT_BASE58 then _shalg_decode_b58 text data_max
  else if fmt =? SHFMT_BASE64 then _shalg_decode_b64 text data_max
  else if fmt =? SHFMT_SHR56 then _shalg_decode_shr56 text data_max
  else Ok (ERR_OPNOTSUPP, []).
End shalg.

(** ** Two-factor secrets in base 32

    [smem] is the memory of the local secret, [str] the text of the secret in
    its memory. *)
Definition read_secret (smem str : list byte) : list byte :=
  let out := (shbase32_decode (take 16 str) (Z.to_nat SECRET_2FA_SIZE)).2 in
  out ++ drop (length out) smem.
Definition shsha_2fa (mem hash smem : list byte) (now : Z) (secret_str : option (list byte)) : option Z :=
  match secret_str with
  | None => Some 0
  | Some str =>
     if negb (length str =? 16)%nat then Some 0
     else shsha_2fa_bin mem hash now SHALG_SHA1 (Some (take (Z.to_nat SECRET_2FA_SIZE) (read_secret smem str))) SECRET_2FA_SIZE 30
  end.
(** The text is not tested: a short one is read up to its terminator. *)
Definition shsha_2fa_verify (mem hash smem : list byte) (now : Z) (str : list byte) (pin : Z) : option Z :=
  err ← shsha_2fa_bin_verify mem hash now SHALG_SHA1
    (Some (take (Z.to_nat SECRET_2FA_SIZE) (read_secret smem (str ++ zeros 16)))) SECRET_2FA_SIZE 30 pin;
  Some err.
Definition shsha_2fa_secret (rand : nat → Z) : list byte :=
  cstring (shbase32_encode (shsha_2fa_secret_bin rand SECRET_2FA_SIZE) 16 ++ zeros 48).
