(* ===== verification/CodecSpec.v ===== *)
(** * Text forms: what decoding an encoded text gives

    For each form the text of a list of bytes, and that it is read back. *)

From S2P Require Import Prelude Errors Shbuf Crc ShmapInv ShmapSpec Sha ShaSpec Hmac HmacSpec Key KeyThm Opt Json JsonSpec Codec.

(** ** Bit operations as arithmetic *)
Lemma land_apart k x y : 0 ≤ k → 0 ≤ y < 2 ^ k → Z.land (Z.shiftl x k) y = 0.
Proof.
  intros Hk Hy. rewrite Z.shiftl_mul_pow2 by done. destruct (decide (y = 0)) as [->|Hne]; [apply Z.land_0_r|].
  apply Z.bits_inj'. intros i Hi. rewrite Z.land_spec, Z.bits_0. destruct (Z.lt_ge_cases i k).
  - by rewrite Z.mul_pow2_bits_low.
  - rewrite (Z.bits_above_log2 y i); [by rewrite andb_false_r|lia|]. apply Z.log2_lt_pow2; [lia|]. eapply Z.lt_le_trans; [apply Hy|]. apply Z.pow_le_mono_r; lia.
Qed.
Lemma lor_add k x y : 0 ≤ k → 0 ≤ y < 2 ^ k → Z.lor (Z.shiftl x k) y = x * 2 ^ k + y.
Proof. intros Hk Hy. rewrite <-Z.shiftl_mul_pow2 by done. rewrite <-Z.add_lor_land, land_apart by done. by rewrite Z.add_0_r. Qed.
Lemma byte_mod x b : x mod 256 = Z_of_byte b → byte_of_Z x = b.
Proof. intros E. rewrite <-(byte_of_Z_of_byte b), <-E. unfold byte_of_Z. by rewrite Z.mod_mod. Qed.
Lemma chunk_ind {A} (n : nat) (P : list A → Prop) : (0 < n)%nat → (∀ l, (length l < n)%nat → P l) → (∀ h l, length h = n → P l → P (h ++ l)) → ∀ l, P l.
Proof.
  intros Hn Hs Hl l. induction l as [l IH] using (induction_ltof1 _ (@length A)). destruct (decide (length l < n)%nat) as [Hlt|Hge]; [by apply Hs|].
  rewrite <-(take_drop n l). apply Hl; [rewrite length_take; lia|]. apply IH. unfold ltof. rewrite length_drop. lia.
Qed.
(** Goals on shifts and masks of bytes. *)
Lemma shiftr_div x k : 0 ≤ k → Z.shiftr x k = x / 2 ^ k.
Proof. apply Z.shiftr_div_pow2. Qed.
Ltac dlia := Z.to_euclidean_division_equations; lia.

(** ** Base 64 *)
Lemma t64_e64 i : 0 ≤ i < 64 → t64 (e64 i) = i ∧ e64 i ≠ x00 ∧ e64 i ≠ c_pad.
Proof.
  intros Hi. assert (forallb (λ i, (t64 (e64 i) =? i) && bool_decide (e64 i ≠ x00) && bool_decide (e64 i ≠ c_pad)) (seqZ 0 64) = true) as Hf by (vm_compute; reflexivity).
  rewrite List.forallb_forall in Hf. specialize (Hf i). rewrite !andb_true_iff, Z.eqb_eq, !bool_decide_eq_true in Hf.
  destruct Hf as [[? ?] ?]; [apply list_elem_of_In, elem_of_seqZ; lia|done].
Qed.
Definition quad (a b c : byte) : list byte :=
  let a := Z_of_byte a in let b := Z_of_byte b in let c := Z_of_byte c in
  [e64 (a / 4); e64 (a mod 4 * 16 + b / 16); e64 (b mod 16 * 4 + c / 64); e64 (c mod 64)].
Definition tail64 (l : list byte) : list byte :=
  match l with
  | [] => []
  | [a] => [e64 (Z_of_byte a / 4); e64 (Z_of_byte a mod 4 * 16); c_pad; c_pad]
  | a :: b :: _ => [e64 (Z_of_byte a / 4); e64 (Z_of_byte a mod 4 * 16 + Z_of_byte b / 16); e64 (Z_of_byte b mod 16 * 4); c_pad]
  end.
Lemma b64_letters a b c : let a := Z_of_byte a in let b := Z_of_byte b in let c := Z_of_byte c in
  Z.land (Z.shiftr a 2) 0x3F = a / 4 ∧ Z.lor (Z.shiftl (Z.land a 3) 4) (Z.shiftr (Z.land b 0xF0) 4) = a mod 4 * 16 + b / 16 ∧
  Z.lor (Z.shiftl (Z.land b 0xF) 2) (Z.shiftr (Z.land c 0xC0) 6) = b mod 16 * 4 + c / 64 ∧ Z.land c 0x3F = c mod 64 ∧
  Z.shiftl (Z.land a 3) 4 = a mod 4 * 16 ∧ Z.shiftl (Z.land b 0xF) 2 = b mod 16 * 4.
Proof.
  cbv zeta. pose proof (Z_of_byte_range a). pose proof (Z_of_byte_range b). pose proof (Z_of_byte_range c). cbv zeta.
  change 0x3F with (Z.ones 6). change 3 with (Z.ones 2). change 0xF with (Z.ones 4). change 0xF0 with (Z.shiftl (Z.ones 4) 4). change 0xC0 with (Z.shiftl (Z.ones 2) 6).
  rewrite !Z.shiftr_land, !Z.shiftr_shiftl_l, !Z.land_ones, !shiftr_div by lia. change (Z.shiftl (Z.ones 4) (4 - 4)) with (Z.ones 4). change (Z.shiftl (Z.ones 2) (6 - 6)) with (Z.ones 2).
  rewrite !Z.land_ones by lia. change (2 ^ 2) with 4. change (2 ^ 4) with 16. change (2 ^ 6) with 64.
  rewrite !lor_add by (change (2 ^ 2) with 4; change (2 ^ 4) with 16; dlia). rewrite !Z.shiftl_mul_pow2 by lia. change (2 ^ 2) with 4. change (2 ^ 4) with 16.
  split_and!; dlia.
Qed.
Fixpoint b64_text (l : list byte) : list byte := match l with a :: b :: c :: l => quad a b c ++ b64_text l | _ => tail64 l end.
Lemma tail_eq l : (length l < 3)%nat → b64_tail l = tail64 l ∧ b64_text l = tail64 l.
Proof.
  intros Hl. destruct l as [|a [|b [|c l]]]; [done|..|cbn in Hl; lia]; (split; [|done]).
  - destruct (b64_letters a a a) as (E1 & _ & _ & _ & E5 & _). cbn [b64_tail tail64 app]. by rewrite E1, E5.
  - destruct (b64_letters a b a) as (E1 & E2 & _ & _ & _ & E6). cbn [b64_tail tail64 app]. by rewrite E1, E2, E6.
Qed.
Lemma groups_text limit i l : limit = i + zlen l - 2 → ∃ out l', b64_groups limit i l = Ok (out, l') ∧ out ++ b64_tail l' = b64_text l.
Proof.
  revert i. pattern l. apply (chunk_ind 3); clear l; [lia|intros l Hl i Hi|intros h l Hh IH i Hi].
  - exists [], l. destruct (tail_eq l Hl) as [E1 E2]. split; [|by rewrite E1, E2].
    destruct l as [|a l]; cbn [b64_groups]; rewrite (proj2 (Z.ltb_ge i limit)); done || (cbn in *; lia).
  - destruct h as [|a [|b [|c [|]]]]; try done. cbn [app] in *. cbn [b64_groups length] in *. rewrite (proj2 (Z.ltb_lt i limit)) by lia.
    destruct (IH (i + 3)) as (out & l' & -> & E); [lia|]. cbn [mbind res_bind]. eexists _, l'. split; [done|]. cbn [app b64_text]. unfold quad. cbn [app].
    destruct (b64_letters a b c) as (-> & -> & -> & -> & _). by rewrite E.
Qed.
Lemma encode64_spec `{HeapOk} data : (2 ≤ length data)%nat → zlen data < 2 ^ 63 → shbase64_encode data = Ok (b64_text data).
Proof.
  intros Hl Hb. unfold shbase64_encode. rewrite alloc_ok. cbn [mbind res_bind]. rewrite u64_small by lia.
  destruct (groups_text (zlen data - 2) 0 data ltac:(lia)) as (out & l' & -> & E). cbn [mbind res_bind]. by rewrite E.
Qed.
Lemma letter_in i : 0 ≤ i < 64 → (t64 (e64 i) <=? 63) = true.
Proof. intros Hi. destruct (t64_e64 i Hi) as [-> _]. apply Z.leb_le. lia. Qed.
Lemma quad_read a b c : let l := quad a b c in let t i := t64 (nth i l x00) in
  Forall (λ c, (t64 c <=? 63) = true ∧ c ≠ x00) l ∧ byte64 (Z.shiftl (t 0%nat) 2) (Z.shiftr (t 1%nat) 4) = a ∧
  byte64 (Z.shiftl (t 1%nat) 4) (Z.shiftr (t 2%nat) 2) = b ∧ byte64 (Z.shiftl (t 2%nat) 6) (t 3%nat) = c.
Proof.
  pose proof (Z_of_byte_range a). pose proof (Z_of_byte_range b). pose proof (Z_of_byte_range c). cbv zeta. unfold quad. cbn [nth].
  destruct (t64_e64 (Z_of_byte a / 4)) as (E1 & N1 & _); [dlia|]. destruct (t64_e64 (Z_of_byte a mod 4 * 16 + Z_of_byte b / 16)) as (E2 & N2 & _); [dlia|].
  destruct (t64_e64 (Z_of_byte b mod 16 * 4 + Z_of_byte c / 64)) as (E3 & N3 & _); [dlia|]. destruct (t64_e64 (Z_of_byte c mod 64)) as (E4 & N4 & _); [dlia|].
  split; [repeat (constructor; [split; [apply letter_in; dlia|done]|]); constructor|]. rewrite E1, E2, E3, E4. unfold byte64. rewrite !shiftr_div by lia.
  change (2 ^ 4) with 16. change (2 ^ 2) with 4. split_and!; apply byte_mod; rewrite lor_add by (change (2 ^ 2) with 4; change (2 ^ 4) with 16; change (2 ^ 6) with 64; dlia).
  all: change (2 ^ 2) with 4; change (2 ^ 4) with 16; change (2 ^ 6) with 64; dlia.
Qed.
Lemma tail_letters a b : let x := Z_of_byte a in let y := Z_of_byte b in
  letters64 (tail64 [a]) = 2%nat ∧ b64_read 2 (tail64 [a]) = [a] ∧ letters64 (tail64 [a; b]) = 3%nat ∧ b64_read 3 (tail64 [a; b]) = [a; b].
Proof.
  cbv zeta. pose proof (Z_of_byte_range a). pose proof (Z_of_byte_range b). unfold tail64. cbn [letters64 b64_read]. rewrite !letter_in by dlia.
  change (t64 c_pad <=? 63) with false. cbn [Nat.ltb Nat.leb app].
  destruct (t64_e64 (Z_of_byte a / 4)) as (E1 & _); [dlia|]. destruct (t64_e64 (Z_of_byte a mod 4 * 16 + Z_of_byte b / 16)) as (E2 & _); [dlia|].
  destruct (t64_e64 (Z_of_byte a mod 4 * 16)) as (E3 & _); [dlia|]. destruct (t64_e64 (Z_of_byte b mod 16 * 4)) as (E4 & _); [dlia|].
  rewrite E1, E2, E3, E4. unfold byte64. rewrite !shiftr_div by lia. change (2 ^ 4) with 16. change (2 ^ 2) with 4.
  split_and!; try done; repeat f_equal; apply byte_mod; rewrite lor_add by (change (2 ^ 2) with 4; change (2 ^ 4) with 16; dlia).
  all: change (2 ^ 2) with 4; change (2 ^ 4) with 16; dlia.
Qed.
Lemma text64_spec l : letters64 (b64_text l) = ((4 * length l + 2) / 3)%nat ∧ b64_read (letters64 (b64_text l)) (b64_text l) = l.
Proof.
  pattern l. apply (chunk_ind 3); clear l; [lia|intros l Hl|intros h l Hh [En Er]].
  - destruct l as [|a [|b [|c l]]]; [done|..|cbn in Hl; lia]; cbn [b64_text].
    + destruct (tail_letters a a) as (E1 & E2 & _). by rewrite E1, E2.
    + destruct (tail_letters a b) as (_ & _ & E1 & E2). by rewrite E1, E2.
  - destruct h as [|a [|b [|c [|]]]]; try done. cbn [app b64_text]. destruct (quad_read a b c) as (HF & R1 & R2 & R3). unfold quad in *. cbn [app nth] in *.
    repeat (apply Forall_cons in HF as [[? _] HF]). cbn [letters64]. repeat match goal with E : (t64 _ <=? 63) = true |- _ => rewrite E; clear E end.
    split; [rewrite En; cbn [length]; replace (4 * S (S (S (length l))) + 2)%nat with (4 * 3 + (4 * length l + 2))%nat by lia; by rewrite Nat.div_add_l by lia|].
    cbn [b64_read]. rewrite R1, R2, R3. destruct (letters64 (b64_text l)) as [|m] eqn:Em.
    + destruct l as [|? l]; [done|]. symmetry in En. apply Nat.div_small_iff in En; [|lia]. cbn in En. lia.
    + rewrite (proj2 (Nat.ltb_lt 4 _)) by lia. replace (S (S (S (S (S m)))) - 4)%nat with (S m) by lia. by rewrite Er.
Qed.
Lemma land3 x : Z.land x 3 = x mod 4.
Proof. by apply (Z.land_ones x 2). Qed.
Lemma decode64_spec `{HeapOk} l : shbase64_decode (b64_text l) = Ok (l, zlen l).
Proof.
  unfold shbase64_decode. rewrite alloc_ok. cbn [mbind res_bind]. destruct (text64_spec l) as [En Er]. rewrite Er, En. do 2 f_equal.
  rewrite Nat2Z.inj_div, Nat2Z.inj_add, Nat2Z.inj_mul. change (Z.of_nat 4) with 4. change (Z.of_nat 2) with 2. change (Z.of_nat 3) with 3.
  set (n := zlen l). assert (0 ≤ n) by lia. unfold rest64. rewrite land3.
  destruct (Z.eqb_spec ((4 * n + 2) / 3) 0) as [E|E]; dlia.
Qed.
Lemma text64_chars l : (x00 ∉ b64_text l) ∧ length (b64_text l) = (4 * ((length l + 2) / 3))%nat.
Proof.
  pattern l. apply (chunk_ind 3); clear l; [lia|intros l Hl|intros h l Hh [En Er]].
  - destruct l as [|a [|b [|c l]]]; [split; [apply not_elem_of_nil|done]|..|cbn in Hl; lia]; cbn [b64_text tail64]; (split; [|done]);
      pose proof (Z_of_byte_range a); try pose proof (Z_of_byte_range b);
      repeat (apply not_elem_of_cons; split; [first [done | apply not_eq_sym, t64_e64; dlia]|]); apply not_elem_of_nil.
  - destruct h as [|a [|b [|c [|]]]]; try done. cbn [app b64_text]. destruct (quad_read a b c) as (HF & _). split.
    + rewrite elem_of_app. intros [Hx|Hx]; [|done]. rewrite Forall_forall in HF. by destruct (HF _ Hx).
    + rewrite length_app, Er. cbn [length quad]. replace (S (S (S (length l))) + 2)%nat with (1 * 3 + (length l + 2))%nat by lia. rewrite Nat.div_add_l by lia. lia.
Qed.

(** ** Base 32 *)
Lemma e32_spec x : B32 (e32 x) = x mod 32 ∧ isbase32 (e32 x) = true ∧ is_pad (e32 x) = false ∧ e32 x ≠ x00.
Proof.
  unfold e32. change 0x1f with (Z.ones 5). rewrite Z.land_ones by lia. change (2 ^ 5) with 32. pose proof (Z.mod_pos_bound x 32 ltac:(lia)) as Hb.
  generalize dependent (x mod 32). intros i Hi.
  assert (forallb (λ i, (B32 (entry_of b32str i) =? i) && isbase32 (entry_of b32str i) && negb (is_pad (entry_of b32str i)) && bool_decide (entry_of b32str i ≠ x00)) (seqZ 0 32) = true) as Hf
    by (vm_compute; reflexivity).
  rewrite List.forallb_forall in Hf. specialize (Hf i). rewrite !andb_true_iff, Z.eqb_eq, negb_true_iff, bool_decide_eq_true in Hf.
  destruct Hf as [[[? ?] ?] ?]; [apply list_elem_of_In, elem_of_seqZ; lia|done].
Qed.
Lemma e32_facts x : isbase32 (e32 x) = true ∧ is_pad (e32 x) = false.
Proof. by destruct (e32_spec x) as (_ & ? & ? & _). Qed.
Lemma B32_e32 x : B32 (e32 x) = x mod 32.
Proof. apply e32_spec. Qed.
Lemma put_room x o r : put x (o, S r) = (o ++ [byte_of_Z x], r).
Proof. done. Qed.
Ltac pows := change (2 ^ 1) with 2; change (2 ^ 2) with 4; change (2 ^ 3) with 8; change (2 ^ 4) with 16; change (2 ^ 5) with 32; change (2 ^ 6) with 64; change (2 ^ 7) with 128.
(** The bytes that eight letters of up to five bytes give. *)
Lemma join32_3 c1 c2 c3 : 0 ≤ c1 → 0 ≤ c2 < 32 → 0 ≤ c3 < 32 → Z.lor (Z.lor (Z.shiftl c1 6) (Z.shiftl c2 1)) (Z.shiftr c3 4) = c1 * 64 + c2 * 2 + c3 / 16.
Proof.
  intros H1 H2 H3. rewrite (Z.shiftl_mul_pow2 c2) by lia. rewrite lor_add by (pows; lia). pows.
  replace (c1 * 64 + c2 * 2) with (Z.shiftl (c1 * 32 + c2) 1) by (rewrite Z.shiftl_mul_pow2 by lia; pows; lia).
  rewrite shiftr_div by lia. rewrite lor_add by (pows; dlia). rewrite Z.shiftl_mul_pow2 by lia. pows. lia.
Qed.
Lemma join32_4 c4 c5 c6 : 0 ≤ c4 → 0 ≤ c5 < 32 → 0 ≤ c6 < 32 → Z.lor (Z.lor (Z.shiftl c4 7) (Z.shiftl c5 2)) (Z.shiftr c6 3) = c4 * 128 + c5 * 4 + c6 / 8.
Proof.
  intros H1 H2 H3. rewrite (Z.shiftl_mul_pow2 c5) by lia. rewrite lor_add by (pows; lia). pows.
  replace (c4 * 128 + c5 * 4) with (Z.shiftl (c4 * 32 + c5) 2) by (rewrite Z.shiftl_mul_pow2 by lia; pows; lia).
  rewrite shiftr_div by lia. rewrite lor_add by (pows; dlia). rewrite Z.shiftl_mul_pow2 by lia. pows. lia.
Qed.
Lemma back0 a s : 0 ≤ a < 256 → 0 ≤ s < 4 → Z.lor (Z.shiftl (Z.shiftr a 3 mod 32) 3) (Z.shiftr ((Z.shiftl a 2 + s) mod 32) 2) mod 256 = a.
Proof. intros Ha Hs. rewrite (Z.shiftl_mul_pow2 a), !shiftr_div by lia. rewrite lor_add by (pows; dlia). pows. dlia. Qed.
Lemma back1 a b s : 0 ≤ a < 256 → 0 ≤ b < 256 → 0 ≤ s < 16 →
  Z.lor (Z.lor (Z.shiftl ((Z.shiftl a 2 + Z.shiftr b 6) mod 32) 6) (Z.shiftl (Z.shiftr b 1 mod 32) 1)) (Z.shiftr ((Z.shiftl b 4 + s) mod 32) 4) mod 256 = b.
Proof. intros Ha Hb Hs. rewrite (Z.shiftl_mul_pow2 a), (Z.shiftl_mul_pow2 b), (shiftr_div b 6), (shiftr_div b 1) by lia. pows. rewrite join32_3 by dlia. dlia. Qed.
Lemma back2 b c s : 0 ≤ b < 256 → 0 ≤ c < 256 → 0 ≤ s < 2 →
  Z.lor (Z.shiftl ((Z.shiftl b 4 + Z.shiftr c 4) mod 32) 4) (Z.shiftr ((Z.shiftl c 1 + s) mod 32) 1) mod 256 = c.
Proof. intros Hb Hc Hs. rewrite (Z.shiftl_mul_pow2 b), (Z.shiftl_mul_pow2 c), !shiftr_div by lia. rewrite lor_add by (pows; dlia). pows. dlia. Qed.
Lemma back3 c d s : 0 ≤ c < 256 → 0 ≤ d < 256 → 0 ≤ s < 8 →
  Z.lor (Z.lor (Z.shiftl ((Z.shiftl c 1 + Z.shiftr d 7) mod 32) 7) (Z.shiftl (Z.shiftr d 2 mod 32) 2)) (Z.shiftr ((Z.shiftl d 3 + s) mod 32) 3) mod 256 = d.
Proof. intros Hc Hd Hs. rewrite (Z.shiftl_mul_pow2 c), (Z.shiftl_mul_pow2 d), (shiftr_div d 7), (shiftr_div d 2) by lia. pows. rewrite join32_4 by dlia. dlia. Qed.
Lemma back4 d e : 0 ≤ d < 256 → 0 ≤ e < 256 → Z.lor (Z.shiftl ((Z.shiftl d 3 + Z.shiftr e 5) mod 32) 5) (e mod 32) mod 256 = e.
Proof. intros Hd He. rewrite (Z.shiftl_mul_pow2 d), shiftr_div by lia. pows. rewrite lor_add by (pows; dlia). pows. dlia. Qed.
Lemma byte_shift x k : 0 ≤ k ≤ 8 → 0 ≤ Z.shiftr (Z_of_byte x) k < 2 ^ (8 - k).
Proof.
  intros Hk. pose proof (Z_of_byte_range x). rewrite shiftr_div by lia. split; [apply Z.div_pos; lia|]. apply Z.div_lt_upper_bound; [lia|].
  rewrite <-Z.pow_add_r by lia. replace (k + (8 - k)) with 8 by lia. lia.
Qed.
Lemma group_read g rest o room : (0 < length g ≤ 5)%nat → (length g ≤ room)%nat →
  decode_8 (b32_group g ++ rest) (o, room) = (true, (o ++ g, (room - length g)%nat)).
Proof.
  intros Hg Hr. assert (∀ x, 0 ≤ Z_of_byte x < 256) as HB by apply Z_of_byte_range.
  destruct g as [|a [|b [|c [|d [|e [|? g]]]]]]; try (cbn in Hg; lia); cbn [length] in Hr; do 5 (try (destruct room as [|room]; [lia|])).
  all: try pose proof (byte_shift b 6 ltac:(lia)); try pose proof (byte_shift c 4 ltac:(lia)); try pose proof (byte_shift d 7 ltac:(lia)); try pose proof (byte_shift e 5 ltac:(lia)).
  all: unfold b32_group, at_b; cbn [nth length Nat.ltb Nat.leb app decode_8]; rewrite ?(proj1 (e32_facts _)), ?(proj2 (e32_facts _)); cbn [negb orb];
    rewrite ?put_room, ?B32_e32; change (is_pad c_pad) with true; cbn [andb].
  all: f_equal; f_equal; [rewrite <-?(assoc_L (++)); cbn [app]; repeat f_equal; apply byte_mod; (apply back0 || apply back1 || apply back2 || apply back3 || apply back4); auto; lia|lia].
Qed.
Lemma group_chars g : (0 < length g)%nat → x00 ∉ b32_group g.
Proof.
  intros _. unfold b32_group. assert (∀ x, x00 ≠ e32 x) as He by (intros x; apply not_eq_sym, e32_spec).
  repeat (apply not_elem_of_cons; split; [repeat case_match; done|]). apply not_elem_of_nil.
Qed.
Lemma b32_text_app h l : length h = 5%nat → b32_text (h ++ l) = b32_group h ++ b32_text l.
Proof. by destruct h as [|a [|b [|c [|d [|e [|]]]]]]. Qed.
Lemma b32_text_short l : (0 < length l < 5)%nat → b32_text l = b32_group l.
Proof. destruct l as [|a [|b [|c [|d [|e l]]]]]; cbn; (done || lia). Qed.
Lemma text32_chars l : (x00 ∉ b32_text l) ∧ length (b32_text l) = (8 * ((length l + 4) / 5))%nat.
Proof.
  pattern l. apply (chunk_ind 5); clear l; [lia|intros l Hl|intros h l Hh [En Er]].
  - destruct (decide (length l = 0)%nat) as [E|E]; [apply nil_length_inv in E as ->; split; [apply not_elem_of_nil|done]|].
    rewrite b32_text_short by lia. split; [apply group_chars; lia|]. destruct l as [|a [|b [|c [|d [|e l]]]]]; cbn in Hl, E; (done || lia).
  - rewrite b32_text_app by done. split; [rewrite elem_of_app; intros [Hx|Hx]; [by apply (group_chars h); [lia|]|done]|].
    rewrite !length_app, Er, Hh. replace (5 + length l + 4)%nat with (1 * 5 + (length l + 4))%nat by lia. rewrite Nat.div_add_l by lia. cbn [b32_group length]. lia.
Qed.
Lemma text32_read l o room fuel : (length l ≤ room)%nat → (length (b32_text l) < fuel)%nat →
  b32_loop fuel (b32_text l) (o, room) = (true, (o ++ l, (room - length l)%nat)).
Proof.
  revert o room fuel. pattern l. apply (chunk_ind 5); clear l; [lia|intros l Hl o room fuel Hr Hf|intros h l Hh IH o room fuel Hr Hf].
  - destruct fuel as [|fuel]; [lia|]. destruct (decide (length l = 0)%nat) as [E|E].
    + apply nil_length_inv in E as ->. cbn. by rewrite app_nil_r, Nat.sub_0_r.
    + rewrite b32_text_short in * by lia. cbn [b32_loop]. rewrite <-(app_nil_r (b32_group l)). rewrite group_read by lia.
      rewrite app_nil_r. change (drop 8 (b32_group l)) with (@nil byte). destruct fuel as [|fuel]; [cbn in Hf; lia|done].
  - rewrite length_app in Hr. rewrite b32_text_app in * by done. rewrite length_app in Hf. destruct fuel as [|fuel]; [lia|]. cbn [b32_loop].
    rewrite group_read by lia. change (drop 8 (b32_group h ++ b32_text l)) with (b32_text l). cbn [b32_group length] in Hf.
    rewrite IH by lia. rewrite (assoc_L (++)), length_app. do 2 f_equal. lia.
Qed.
Lemma decode32_spec l outlen : (length l ≤ outlen)%nat → shbase32_decode (b32_text l) outlen = (true, l).
Proof. intros Hl. unfold shbase32_decode. rewrite text32_read by lia. done. Qed.

(** * Numbers in base 58, hexadecimal and words of six letters

    The digits that base 58 writes are those of the number that the bytes are,
    and the words that it reads hold the number that the digits are: so bytes
    are read back.  The same for hexadecimal bytes and six-letter words. *)

(** ** Numbers by their digits *)
(** From the least significant digit, and from the most significant one. *)
Fixpoint num (base : Z) (l : list Z) : Z := match l with [] => 0 | d :: l => d + base * num base l end.
Definition horner (base : Z) (l : list Z) : Z := foldl (λ v d, v * base + d) 0 l.
Definition digits_in (base : Z) (l : list Z) : Prop := Forall (λ d, 0 ≤ d < base) l.
Lemma num_app b l1 l2 : num b (l1 ++ l2) = num b l1 + b ^ zlen l1 * num b l2.
Proof.
  induction l1 as [|d l1 IH]; cbn [app num length]; [change (b ^ Z.of_nat 0) with 1; lia|]. rewrite IH, Nat2Z.inj_succ, Z.pow_succ_r by lia. lia.
Qed.
Lemma num_range b l : 0 < b → digits_in b l → 0 ≤ num b l < b ^ zlen l.
Proof.
  intros Hb Hl. induction Hl as [|d l Hd Hl IH]; cbn [num length]; [by change (b ^ Z.of_nat 0) with 1|]. rewrite Nat2Z.inj_succ, Z.pow_succ_r by lia. nia.
Qed.
Lemma num_zeros b n : num b (replicate n 0) = 0.
Proof. induction n as [|n IH]; [done|]. cbn [replicate num]. lia. Qed.
Lemma horner_snoc b l d : horner b (l ++ [d]) = horner b l * b + d.
Proof. unfold horner. by rewrite foldl_app. Qed.
Lemma horner_num b l : horner b (reverse l) = num b l.
Proof. induction l as [|d l IH]; [done|]. rewrite reverse_cons, horner_snoc, IH. cbn [num]. lia. Qed.
Lemma horner_strip b l : horner b (strip (Z.eqb 0) l) = horner b l.
Proof. induction l as [|d l IH]; [done|]. cbn [strip]. destruct (Z.eqb_spec 0 d) as [<-|]; [|done]. rewrite IH. unfold horner. cbn [foldl]. by rewrite Z.mul_0_l. Qed.
Lemma horner_cons b l v : foldl (λ v d, v * b + d) v l = v * b ^ zlen l + horner b l.
Proof.
  revert v. induction l as [|d l IH]; intros v; cbn [foldl length]; [change (b ^ Z.of_nat 0) with 1; unfold horner; cbn; lia|].
  unfold horner. cbn [foldl]. rewrite (IH (v * b + d)), (IH (0 * b + d)), Nat2Z.inj_succ, Z.pow_succ_r by lia. lia.
Qed.
Lemma strip_split {A} (z : A → bool) l : ∃ p, l = p ++ strip z l ∧ Forall (λ x, z x = true) p.
Proof.
  induction l as [|x l (p & E & Hp)]; [by exists []|]. cbn [strip]. destruct (z x) eqn:Hz; [|by exists []].
  exists (x :: p). split; [by rewrite E at 1|]. by constructor.
Qed.
Lemma strip_head {A} (z : A → bool) l : match strip z l with [] => True | x :: _ => z x = false end.
Proof. induction l as [|x l IH]; [done|]. cbn [strip]. destruct (z x) eqn:Hz; [done|by rewrite Hz]. Qed.
Lemma strip_nul l : ∃ n, l = zeros n ++ strip is_nul l ∧ (n + length (strip is_nul l))%nat = length l.
Proof.
  destruct (strip_split is_nul l) as (p & E & Hp). exists (length p). split; [|by rewrite <-length_app, <-E]. rewrite E at 1. f_equal. clear E.
  induction Hp as [|x p Hx Hp IH]; [done|]. unfold is_nul in Hx. rewrite bool_decide_eq_true in Hx. subst x. cbn [length zeros replicate]. f_equal. exact IH.
Qed.
Lemma strip_zeros n l : match l with [] => True | x :: _ => is_nul x = false end → strip is_nul (zeros n ++ l) = l.
Proof.
  intros Hl. induction n as [|n IH]; [|by cbn]. destruct l as [|x l]; [done|]. cbn [zeros replicate app strip]. by rewrite Hl.
Qed.
(** Bytes as a number. *)
Lemma be_dec_snoc l b : be_dec (l ++ [b]) = be_dec l * 256 + Z_of_byte b.
Proof. unfold be_dec. rewrite reverse_app. cbn. lia. Qed.
Lemma be_dec_horner l : be_dec l = horner 256 (Z_of_byte <$> l).
Proof. induction l as [|b l IH] using rev_ind; [done|]. rewrite be_dec_snoc, fmap_app. cbn [fmap list_fmap]. by rewrite horner_snoc, IH. Qed.
Lemma be_dec_zeros n l : be_dec (zeros n ++ l) = be_dec l.
Proof.
  induction n as [|n IH]; [done|]. rewrite !be_dec_horner in *. cbn [zeros replicate app fmap list_fmap]. unfold horner in *. cbn [foldl]. by rewrite Z.mul_0_l.
Qed.
Lemma be_enc_dec l : be_enc (length l) (be_dec l) = l.
Proof. unfold be_enc, be_dec. rewrite <-(length_reverse l), le_enc_dec. apply reverse_involutive. Qed.
Lemma be_dec_range l : 0 ≤ be_dec l < 256 ^ zlen l.
Proof. unfold be_dec. rewrite <-(length_reverse l). apply le_dec_range. Qed.
Lemma be_enc_pad n l : (length l ≤ n)%nat → be_enc n (be_dec l) = zeros (n - length l) ++ l.
Proof.
  intros Hl. rewrite <-(be_dec_zeros (n - length l)). rewrite <-(be_enc_dec (zeros (n - length l) ++ l)) at 2. f_equal.
  unfold zeros. rewrite length_app, length_replicate. lia.
Qed.

(** ** Base 58 *)
Lemma b58_byte_spec buf : ∀ touched carry, digits_in 58 buf → 0 ≤ carry → (touched ≤ length buf)%nat → Forall (Z.eq 0) (drop touched buf) →
  carry + 256 * num 58 buf < 58 ^ zlen buf →
  ∃ buf' n, b58_byte touched carry buf = Ok (buf', n) ∧ num 58 buf' = carry + 256 * num 58 buf ∧ digits_in 58 buf' ∧
    length buf' = length buf ∧ (n ≤ length buf')%nat ∧ Forall (Z.eq 0) (drop n buf').
Proof.
  induction buf as [|d buf IH]; intros touched carry Hd Hc Ht Hz Hv.
  - cbn in *. assert (carry = 0) as -> by lia. assert (touched = 0%nat) as -> by lia. cbn. by eexists [], O.
  - cbn [b58_byte]. destruct ((touched =? 0)%nat && (carry =? 0)) eqn:E.
    + apply andb_true_iff in E as [->%Nat.eqb_eq ->%Z.eqb_eq]. rewrite drop_0 in Hz. eexists _, O. split_and!; try done.
      assert (num 58 (d :: buf) = 0) as ->; [|lia]. clear -Hz. induction Hz as [|x l Hx Hz IH]; [done|]. cbn [num]. unfold Z.eq in Hx. lia.
    + apply Forall_cons in Hd as [Hd Hds]. cbn [num length] in *. rewrite Nat2Z.inj_succ, Z.pow_succ_r in Hv by lia.
      pose proof (num_range 58 buf ltac:(lia) Hds). destruct (IH (pred touched) ((carry + 256 * d) / 58)) as (buf' & n & -> & E1 & E2 & E3 & E4 & E5); try done.
      { apply Z.div_pos; lia. } { lia. } { destruct touched as [|touched]; [|done]. cbn in Hz. by apply Forall_cons in Hz as [_ Hz]. } { dlia. }
      cbn [mbind res_bind]. eexists _, _. split; [done|]. cbn [num length drop]. split_and!; [rewrite E1; dlia|constructor; [apply Z.mod_pos_bound; lia|done]|lia|lia|done].
Qed.
Lemma b58_bytes_spec bin : ∀ touched buf, digits_in 58 buf → (touched ≤ length buf)%nat → Forall (Z.eq 0) (drop touched buf) →
  num 58 buf * 256 ^ zlen bin + be_dec bin < 58 ^ zlen buf →
  ∃ buf', b58_bytes bin touched buf = Ok buf' ∧ num 58 buf' = num 58 buf * 256 ^ zlen bin + be_dec bin ∧ digits_in 58 buf' ∧ length buf' = length buf.
Proof.
  induction bin as [|b bin IH]; intros touched buf Hd Ht Hz Hv; [exists buf; split_and!; try done; cbn; lia|].
  cbn [b58_bytes]. assert (be_dec (b :: bin) = Z_of_byte b * 256 ^ zlen bin + be_dec bin) as Eb.
  { rewrite !be_dec_horner. cbn [fmap list_fmap]. unfold horner at 1. cbn [foldl]. rewrite horner_cons, length_fmap. f_equal. }
  rewrite Eb in *. cbn [length] in *. rewrite Nat2Z.inj_succ, Z.pow_succ_r in * by lia. pose proof (be_dec_range bin). pose proof (Z_of_byte_range b).
  pose proof (num_range 58 buf ltac:(lia) Hd).
  destruct (b58_byte_spec buf touched (Z_of_byte b)) as (buf' & n & -> & E1 & E2 & E3 & E4 & E5); try done; [lia|nia|].
  cbn [mbind res_bind]. destruct (IH n buf') as (buf2 & -> & F1 & F2 & F3); try done; [rewrite E1, E3; lia|].
  exists buf2. split_and!; [done|rewrite F1, E1; lia|done|lia].
Qed.
Lemma size58 (n : nat) : 256 ^ Z.of_nat n ≤ 58 ^ Z.of_nat (n * 138 / 100 + 1).
Proof.
  set (k := Z.of_nat (n * 138 / 100 + 1)). assert (138 * Z.of_nat n ≤ 100 * k) as Hk.
  { subst k. pose proof (Nat.div_mod (n * 138) 100 ltac:(lia)). pose proof (Nat.mod_upper_bound (n * 138) 100 ltac:(lia)). lia. }
  apply Z.nlt_ge. intros Hlt. assert ((58 ^ k) ^ 100 < (256 ^ Z.of_nat n) ^ 100) as Hp by (apply Z.pow_lt_mono_l; [lia|split; [apply Z.pow_nonneg; lia|done]]).
  rewrite <-!Z.pow_mul_r in Hp by lia. rewrite (Z.mul_comm (Z.of_nat n) 100), (Z.pow_mul_r 256) in Hp by lia.
  assert ((256 ^ 100) ^ Z.of_nat n ≤ (58 ^ 138) ^ Z.of_nat n) as H1 by (apply Z.pow_le_mono_l; split; [apply Z.pow_nonneg; lia|by vm_compute]).
  rewrite <-(Z.pow_mul_r 58) in H1 by lia. assert (58 ^ (138 * Z.of_nat n) ≤ 58 ^ (k * 100)) by (apply Z.pow_le_mono_r; lia). lia.
Qed.
Lemma d58_entry i : 0 ≤ i < 58 → d58 (entry_of b58digits_ordered i) = Some i ∧ entry_of b58digits_ordered i ≠ x00.
Proof.
  intros Hi. assert (forallb (λ i, bool_decide (d58 (entry_of b58digits_ordered i) = Some i) && bool_decide (entry_of b58digits_ordered i ≠ x00)) (seqZ 0 58) = true) as Hf
    by (vm_compute; reflexivity).
  rewrite List.forallb_forall in Hf. specialize (Hf i). rewrite andb_true_iff, !bool_decide_eq_true in Hf. apply Hf, list_elem_of_In, elem_of_seqZ. lia.
Qed.
Definition letters58 (ds : list Z) : list byte := entry_of b58digits_ordered <$> ds.
Definition ones (n : nat) : list byte := replicate n (chr 49).
(** The text of [data]: [bin] are its bytes behind [z] zeros, [ds] its digits. *)
Record text58 (data text : list byte) (z : nat) (bin : list byte) (ds : list Z) : Prop := {
  t_data : data = zeros z ++ bin;
  t_text : text = ones z ++ letters58 ds;
  t_head : match bin with [] => True | x :: _ => is_nul x = false end;
  t_first : match ds with [] => True | d :: _ => (0 =? d) = false end;
  t_digits : digits_in 58 ds;
  t_value : horner 58 ds = be_dec bin;
  t_size : (length text ≤ length data * 138 / 100 + 1)%nat
}.
Lemma div138 a b : (a + (b * 138 / 100 + 1) ≤ (a + b) * 138 / 100 + 1)%nat.
Proof. pose proof (Nat.div_le_mono (a * 100 + b * 138) ((a + b) * 138) 100 ltac:(lia) ltac:(lia)) as Hm. rewrite Nat.div_add_l in Hm by lia. lia. Qed.
Lemma length_strip {A} (z : A → bool) l : (length (strip z l) ≤ length l)%nat.
Proof. destruct (strip_split z l) as (p & E & _). rewrite E at 2. rewrite length_app. lia. Qed.
Lemma encode58_spec b58sz data : Z.of_nat (length data * 138 / 100 + 1) < b58sz → ∃ text z bin ds, shbase58_encode b58sz data = Ok text ∧ text58 data text z bin ds.
Proof.
  intros Hsz. destruct (strip_nul data) as (z & Ez & El). set (bin := strip is_nul data) in *.
  destruct (b58_bytes_spec bin 0 (replicate (length bin * 138 / 100 + 1) 0)) as (buf & Eb & Ev & Hd & Hl).
  { apply Forall_replicate. lia. } { lia. } { apply Forall_replicate. done. }
  { rewrite num_zeros, length_replicate. pose proof (be_dec_range bin). pose proof (size58 (length bin)). lia. }
  rewrite num_zeros, Z.mul_0_l, Z.add_0_l in Ev. rewrite length_replicate in Hl. pose proof (length_strip (Z.eqb 0) (reverse buf)) as Hs. rewrite length_reverse in Hs.
  pose proof (div138 z (length bin)) as Hb. rewrite El in Hb. eexists _, z, bin, _. split.
  - unfold shbase58_encode. fold bin. rewrite Eb. cbn [mbind res_bind]. replace (length data - length bin)%nat with z by lia.
    rewrite (proj2 (Z.leb_gt b58sz _)); [done|]. lia.
  - split; [done|done|apply strip_head|apply strip_head| |by rewrite horner_strip, horner_num|].
    + destruct (strip_split (Z.eqb 0) (reverse buf)) as (p & E & _). assert (digits_in 58 (reverse buf)) as Hr by (by apply Forall_reverse). rewrite E in Hr. by apply Forall_app in Hr as [_ Hr].
    + rewrite length_app, length_fmap, length_replicate. lia.
Qed.
Lemma ones_read z rest ds : digits_in 58 ds → match ds with [] => True | d :: _ => (0 =? d) = false end → rest = letters58 ds → b58_ones (ones z ++ rest) = Ok (z, rest).
Proof.
  intros Hd Hh ->. induction z as [|z IH].
  - destruct ds as [|d ds]; [done|]. apply Forall_cons in Hd as [Hd _]. cbn [ones replicate app letters58 fmap list_fmap b58_ones]. rewrite (proj1 (d58_entry d Hd)).
    rewrite Z.eqb_sym in Hh. by rewrite Hh.
  - unfold ones in *. cbn [replicate app b58_ones]. change (d58 (chr 49)) with (Some 0). cbn [Z.eqb]. by rewrite IH.
Qed.
Lemma word_carry t : 0 ≤ t < 2 ^ 32 * 58 → Z.shiftr (Z.land t 0x3f00000000) 32 = t / 2 ^ 32 ∧ Z.land t 0xffffffff = t mod 2 ^ 32.
Proof.
  intros Ht. split; [|by apply (Z.land_ones t 32)]. rewrite Z.shiftr_land. change (Z.shiftr 0x3f00000000 32) with (Z.ones 6).
  rewrite Z.land_ones, shiftr_div by lia. apply Z.mod_small. change (2 ^ 6) with 64. dlia.
Qed.
Lemma b58_digit_spec outi : ∀ c, digits_in (2 ^ 32) outi → 0 ≤ c < 58 →
  ∃ o' c', b58_digit c outi = (o', c') ∧ digits_in (2 ^ 32) o' ∧ 0 ≤ c' < 58 ∧ length o' = length outi ∧
    num (2 ^ 32) o' + (2 ^ 32) ^ zlen outi * c' = 58 * num (2 ^ 32) outi + c.
Proof.
  induction outi as [|w outi IH]; intros c Hd Hc; [exists [], c; cbn; split_and!; (done || lia)|]. apply Forall_cons in Hd as [Hw Hd].
  cbn [b58_digit]. destruct (word_carry (w * 58 + c)) as [-> ->]; [lia|]. destruct (IH ((w * 58 + c) / 2 ^ 32) Hd) as (o' & c' & -> & H1 & H2 & H3 & H4); [dlia|].
  eexists _, c'. split; [done|]. split; [constructor; [apply Z.mod_pos_bound; lia|done]|]. split; [done|]. split; [cbn; lia|]. cbn [num length].
  rewrite Nat2Z.inj_succ, Z.pow_succ_r by lia. pose proof (Z.div_mod (w * 58 + c) (2 ^ 32) ltac:(lia)). lia.
Qed.
(** The mask tests that the number has no more than [m] bytes. *)
Definition mask58 (m : Z) : Z := if m mod 4 =? 0 then 0 else u32 (Z.shiftl 0xffffffff (m mod 4 * 8)).
Lemma mask_spec m w : 0 ≤ w < 256 ^ ((m - 1) mod 4 + 1) → Z.land w (mask58 m) = 0.
Proof.
  intros Hw. unfold mask58. assert (m mod 4 = 0 ∨ m mod 4 = 1 ∨ m mod 4 = 2 ∨ m mod 4 = 3) as Hm by dlia.
  assert ((m - 1) mod 4 = (m mod 4 + 3) mod 4) as E by dlia. rewrite E in Hw. rewrite Z.land_comm.
  destruct Hm as [Hm|[Hm|[Hm|Hm]]]; rewrite Hm in *; [done|..].
  - apply (land_apart 8 0xffffff w); [lia|exact Hw].
  - apply (land_apart 16 0xffff w); [lia|exact Hw].
  - apply (land_apart 24 0xff w); [lia|exact Hw].
Qed.
Lemma top_word m outi : digits_in (2 ^ 32) outi → 0 < m → zlen outi = (m + 3) / 4 → num (2 ^ 32) outi < 256 ^ m → ∃ w, last outi = Some w ∧ Z.land w (mask58 m) = 0.
Proof.
  intros Hd Hm Hl Hn. destruct (last outi) as [w|] eqn:El.
  2:{ rewrite last_None in El. subst. cbn in Hl. dlia. }
  exists w. split; [done|]. apply last_Some in El as (p & ->). apply Forall_app in Hd as [Hp Hw]. apply Forall_cons in Hw as [Hw _].
  rewrite num_app in Hn. cbn [num] in Hn. rewrite length_app in Hl. cbn [length] in Hl. pose proof (num_range (2 ^ 32) p ltac:(lia) Hp) as Hr.
  apply mask_spec. split; [lia|]. assert (m = 4 * zlen p + ((m - 1) mod 4 + 1)) as Em by dlia. rewrite Em in Hn at 1.
  rewrite Z.pow_add_r, Z.pow_mul_r in Hn by dlia. change (256 ^ 4) with (2 ^ 32) in Hn. pose proof (Z.pow_pos_nonneg (2 ^ 32) (zlen p) ltac:(lia) ltac:(lia)). nia.
Qed.
Lemma horner_mono b l x : 1 ≤ b → 0 ≤ x → digits_in b l → x ≤ foldl (λ v d, v * b + d) x l.
Proof.
  intros Hb Hx Hl. revert x Hx. induction Hl as [|d l Hd Hl IH]; intros x Hx; cbn [foldl]; [done|]. etrans; [|apply IH]; nia.
Qed.
Lemma b58_digits_spec m ds : 0 < m → digits_in 58 ds → ∀ outi, digits_in (2 ^ 32) outi → zlen outi = (m + 3) / 4 →
  foldl (λ v d, v * 58 + d) (num (2 ^ 32) outi) ds < 256 ^ m →
  ∃ o', b58_digits (mask58 m) (letters58 ds) outi = Ok o' ∧ digits_in (2 ^ 32) o' ∧ length o' = length outi ∧
    num (2 ^ 32) o' = foldl (λ v d, v * 58 + d) (num (2 ^ 32) outi) ds.
Proof.
  intros Hm Hds. induction Hds as [|d ds Hd Hds IH]; intros outi Ho Hl Hv; [by exists outi|].
  cbn [letters58 fmap list_fmap b58_digits foldl] in *. rewrite (proj1 (d58_entry d Hd)), (proj2 (Z.eqb_neq d (-1))) by lia.
  destruct (b58_digit_spec outi d Ho Hd) as (o' & c' & -> & H1 & H2 & H3 & H4). pose proof (num_range (2 ^ 32) o' ltac:(lia) H1). pose proof (num_range (2 ^ 32) outi ltac:(lia) Ho).
  pose proof (horner_mono 58 ds (num (2 ^ 32) outi * 58 + d) ltac:(lia) ltac:(lia) Hds).
  assert (256 ^ m ≤ (2 ^ 32) ^ zlen outi) by (change (2 ^ 32) with (256 ^ 4); rewrite <-Z.pow_mul_r by lia; apply Z.pow_le_mono_r; dlia).
  assert (c' = 0) as -> by nia. cbn [Z.eqb negb]. destruct (top_word m o') as (w & -> & ->); try done; [lia|lia|]. cbn [Z.eqb negb].
  assert (num (2 ^ 32) o' = num (2 ^ 32) outi * 58 + d) as E by lia. rewrite <-E in *. destruct (IH o') as (o2 & E1 & E2 & E3 & E4); try done; [lia|].
  exists o2. split; [done|]. split; [done|]. split; [lia|done].
Qed.
Lemma words_le outi : digits_in (2 ^ 32) outi → concat (le_enc 4 <$> outi) = le_enc (4 * length outi) (num (2 ^ 32) outi).
Proof.
  induction 1 as [|w outi Hw Ho IH]; [done|]. cbn [fmap list_fmap concat length num]. rewrite IH. replace (4 * S (length outi))%nat with (4 + 4 * length outi)%nat by lia.
  rewrite le_enc_app. change (256 ^ Z.of_nat 4) with (2 ^ 32). f_equal.
  - rewrite <-(le_enc_mod 4 (w + _)). change (256 ^ Z.of_nat 4) with (2 ^ 32). rewrite (Z.mul_comm (2 ^ 32)), Z.mod_add, Z.mod_small by lia. done.
  - f_equal. rewrite (Z.mul_comm (2 ^ 32)), Z.div_add, Z.div_small by lia. done.
Qed.
Lemma reverse_words outi : concat (be_enc 4 <$> reverse outi) = reverse (concat (le_enc 4 <$> outi)).
Proof.
  induction outi as [|w outi IH]; [done|]. rewrite reverse_cons, fmap_app, concat_app, IH. cbn [fmap list_fmap concat]. by rewrite reverse_app, app_nil_r.
Qed.
Lemma le_enc_take n k v : (n ≤ k)%nat → take n (le_enc k v) = le_enc n v.
Proof. intros Hn. replace k with (n + (k - n))%nat by lia. rewrite le_enc_app. apply take_app_length'. symmetry. apply length_le_enc. Qed.
Lemma be_enc_drop n k v : (n ≤ k)%nat → drop (k - n) (be_enc k v) = be_enc n v.
Proof. intros Hn. unfold be_enc. by rewrite <-(le_enc_take n k v Hn), reverse_take, length_le_enc. Qed.
Lemma decode58_spec m z ds : 0 < m < 2 ^ 63 → digits_in 58 ds → match ds with [] => True | d :: _ => (0 =? d) = false end → horner 58 ds < 256 ^ m →
  let data := be_enc (Z.to_nat m) (horner 58 ds) in
  shbase58_decode m (ones z ++ letters58 ds) = Ok (data, zlen (strip is_nul data) + Z.of_nat z).
Proof.
  intros Hm Hd Hh Hv. cbv zeta. unfold shbase58_decode. fold (mask58 m). rewrite (ones_read z _ ds) by done. cbn [mbind res_bind].
  assert (0 ≤ m + 3 < 2 ^ 64) as Hu by lia. rewrite u64_small by done. set (k := Z.to_nat ((m + 3) / 4)).
  assert (Z.of_nat k = (m + 3) / 4) as Ek by (subst k; dlia).
  destruct (b58_digits_spec m ds ltac:(lia) Hd (replicate k 0)) as (o' & -> & Ho & Hl & Hn).
  { apply Forall_replicate. lia. } { by rewrite length_replicate. } { by rewrite num_zeros. }
  cbn [mbind res_bind]. rewrite num_zeros in Hn. fold (horner 58 ds) in Hn. rewrite length_replicate in Hl.
  rewrite reverse_words, words_le, Hn, Hl by done. fold (be_enc (4 * k) (horner 58 ds)).
  replace (Z.to_nat ((4 - m mod 4) mod 4)) with (4 * k - Z.to_nat m)%nat by dlia. rewrite be_enc_drop by dlia. done.
Qed.
Lemma read58 data text z bin ds m : text58 data text z bin ds → zlen data ≤ m < 2 ^ 63 → 0 < m →
  shbase58_decode m text = Ok (zeros (Z.to_nat m - length bin) ++ bin, zlen data).
Proof.
  intros [Ed Et Hh Hf Hds Hv _] Hm H0. assert (length data = z + length bin)%nat as El by (rewrite Ed, length_app; unfold zeros; by rewrite length_replicate).
  rewrite Et. pose proof decode58_spec as D; cbv zeta in D; rewrite D; clear D; try done; [|lia|rewrite Hv; pose proof (be_dec_range bin); assert (256 ^ zlen bin ≤ 256 ^ m) by (apply Z.pow_le_mono_r; lia); lia].
  rewrite Hv, be_enc_pad by lia. rewrite strip_zeros by done. do 2 f_equal. lia.
Qed.

(** ** Hexadecimal *)
Lemma hex_byte b : ∃ c d, hex_fmt 2 (Z_of_byte b) = [c; d] ∧ byte_of_Z (strtoll16 [c; d]) = b ∧ c ≠ x00 ∧ d ≠ x00.
Proof.
  assert (forallb (λ i, match hex_fmt 2 i with
                        | [c; d] => bool_decide (byte_of_Z (strtoll16 [c; d]) = byte_of_Z i) && bool_decide (c ≠ x00) && bool_decide (d ≠ x00)
                        | _ => false
                        end) (seqZ 0 256) = true) as Hf by (vm_compute; reflexivity).
  rewrite List.forallb_forall in Hf. specialize (Hf (Z_of_byte b)). cbv beta in Hf. pose proof (Z_of_byte_range b) as Hb.
  lapply Hf; [clear Hf; intros Hf|apply list_elem_of_In, elem_of_seqZ; lia]. destruct (hex_fmt 2 (Z_of_byte b)) as [|c [|d [|]]]; try done.
  rewrite !andb_true_iff, !bool_decide_eq_true, byte_of_Z_of_byte in Hf. exists c, d. tauto.
Qed.
Lemma hex_read_back data : hex_bytes (hex_string data) = data ∧ length (hex_string data) = (2 * length data)%nat ∧ x00 ∉ hex_string data.
Proof.
  induction data as [|b data (IH1 & IH2 & IH3)]; [split_and!; [done|done|apply not_elem_of_nil]|]. unfold hex_string in *. cbn [fmap list_fmap concat].
  destruct (hex_byte b) as (c & d & -> & Eb & Hc & Hd). cbn [app hex_bytes length]. rewrite IH1, Eb. split; [done|]. split; [lia|].
  by rewrite !not_elem_of_cons.
Qed.

(** ** Words of six letters *)
Lemma word56 val l : (0 < length l ≤ 4)%nat → 0 ≤ shr56_word val l < 2 ^ 32 ∧ take (length l) (le_enc 4 (shr56_word val l)) = l.
Proof.
  intros Hl. unfold shr56_word. rewrite (take_ge l 4) by lia. set (w := l ++ _). assert (length w = 4%nat) as Hw by (unfold w; rewrite length_app, length_drop, length_le_enc; lia).
  split; [pose proof (le_dec_range w) as Hr; by rewrite Hw in Hr|]. rewrite <-Hw, le_enc_dec. unfold w. apply take_app_length.
Qed.
Lemma text_word v : 0 ≤ v < 2 ^ 32 → length (dots (fmt6 (shcrcstr v))) = 6%nat ∧ x00 ∉ dots (fmt6 (shcrcstr v)).
Proof.
  intros Hv. destruct (dots_word v Hv) as [-> Hl]. rewrite length_app, length_replicate. split; [lia|]. rewrite elem_of_app. intros [Hx|Hx].
  - apply elem_of_replicate in Hx as [Hx _]. done.
  - destruct (crcstr_spec 65 v) as [Hc _]; [change (64 ^ Z.of_nat 65) with (2 ^ 390); lia|]. fold (shcrcstr v) in Hc. rewrite Forall_forall in Hc. destruct (Hc _ Hx) as [[H0 H1] _]. vm_compute in H0, H1. first [by destruct H0 | done].
Qed.
Lemma words56_app val h l : length h = 4%nat → shr56_words val (h ++ l) = fmt6 (shcrcstr (shr56_word val h)) ++ shr56_words (shr56_word val h) l.
Proof. by destruct h as [|a [|b [|c [|d [|]]]]]. Qed.
Lemma words56_short val l : (0 < length l < 4)%nat → shr56_words val l = fmt6 (shcrcstr (shr56_word val l)).
Proof. destruct l as [|a [|b [|c [|d l]]]]; cbn [length]; (done || lia). Qed.
Lemma text56_chars l : ∀ val, length (dots (shr56_words val l)) = (6 * ((length l + 3) / 4))%nat ∧ x00 ∉ dots (shr56_words val l).
Proof.
  pattern l. apply (chunk_ind 4); clear l; [lia|intros l Hl val|intros h l Hh IH val].
  - destruct (decide (length l = 0)%nat) as [E|E]; [apply nil_length_inv in E as ->; split; [done|apply not_elem_of_nil]|].
    rewrite words56_short by lia. destruct (text_word (shr56_word val l)) as [-> Hx]; [apply word56; lia|]. split; [|done].
    destruct l as [|a [|b [|c [|d l]]]]; cbn in Hl, E; (done || lia).
  - rewrite words56_app, dots_app, !length_app by done. destruct (text_word (shr56_word val h)) as [-> Hx]; [apply word56; lia|]. destruct (IH (shr56_word val h)) as [-> Hy].
    rewrite Hh. replace (4 + length l + 3)%nat with (1 * 4 + (length l + 3))%nat by lia. rewrite Nat.div_add_l by lia. split; [lia|]. by rewrite elem_of_app; intros [|].
Qed.
Lemma block56 blks ret_len data_max o v l rest : 0 ≤ v < 2 ^ 32 → (0 < length l ≤ 4)%nat → take (length l) (le_enc 4 v) = l → 0 ≤ o → Z.min 4 (ret_len - o) = zlen l →
  ret_len ≤ data_max →
  shr56_blocks (S blks) ret_len data_max o (dots (fmt6 (shcrcstr v)) ++ rest) = out ← shr56_blocks blks ret_len data_max (o + 4) rest; Ok (l ++ out).
Proof.
  intros Hv Hl Et Ho Hn Hm. destruct (text_word v Hv) as [H6 _]. cbn [shr56_blocks]. rewrite take_app_length', drop_app_length' by done. rewrite word_text by done.
  rewrite (proj2 (Z.ltb_ge ret_len o)) by lia. rewrite Hn. rewrite (proj2 (Z.ltb_ge data_max _)) by lia. by rewrite Nat2Z.id, Et.
Qed.
Lemma blocks56 l : ∀ val ret_len data_max o pad, 0 ≤ o → ret_len = o + zlen l → ret_len ≤ data_max →
  shr56_blocks ((length l + 3) / 4) ret_len data_max o (dots (shr56_words val l) ++ pad) = Ok l.
Proof.
  pattern l. apply (chunk_ind 4); clear l; [lia|intros l Hl val rl dm o pad Ho Hr Hm|intros h l Hh IH val rl dm o pad Ho Hr Hm].
  - destruct (decide (length l = 0)%nat) as [E|E]; [by apply nil_length_inv in E as ->|].
    replace ((length l + 3) / 4)%nat with 1%nat by (destruct l as [|a [|b [|c [|d l]]]]; cbn in Hl, E; (done || lia)).
    rewrite words56_short by lia. destruct (word56 val l ltac:(lia)). rewrite (block56 _ _ _ _ _ l) by (done || lia). cbn. by rewrite app_nil_r.
  - rewrite length_app in *. rewrite Hh in *. replace (4 + length l + 3)%nat with (1 * 4 + (length l + 3))%nat by lia. rewrite Nat.div_add_l by lia.
    rewrite words56_app, dots_app, <-(assoc_L (++)) by done. destruct (word56 val h ltac:(lia)). cbn [Nat.add]. rewrite (block56 _ _ _ _ _ h) by (done || lia).
    rewrite (IH _ rl dm (o + 4)) by lia. done.
Qed.
