(* ===== verification/Stratum.v ===== *)
(** * The stratum and API protocols

    [stratum_message.c], [stratum_protocol.c], [stratum_command.c], the shares
    of [stratum_user.c], [shapi_protocol.c] and the keys of [shcoind_rpc.c]: what
    a request does to the record of its client, and the replies it puts into the
    write queue of the descriptor.

    A message is an item of Json.v; what is added to an item after it was linked
    into a message is added before, to the same effect.  The coin server, which
    is C++, answers a request through the class [Server]. *)

From S2P Require Import Prelude Errors Shbuf Descriptor Crc Sha Hmac Key Opt Links Clients Services Json JsonTree Codec.

Definition SHC_COIN_IFACE : Z := 1.
Definition TESTNET_COIN_IFACE : nat := 5.
Definition COLOR_COIN_IFACE : nat := 6.
Definition WORK_ROUND_OFFSET : Z := 400000.
Definition USER_EXTRANONCE : Z := 256.
Definition BLKERR_BAD_SESSION : Z := 61.
Definition ERR_TIME : Z := -62.
Definition ERR_PROTO : Z := -71.
Definition ERR_ALREADY : Z := -114.
Definition ERR_NOMETHOD : Z := -1006.
Definition RPC_AUTH_FREQ : Z := 300.
Definition DEFAULT_WORK_DIFFICULTY : Z := 1024.
Definition MIN_USER_WORK_DIFFICULTY : Z := 32.
Definition MAX_USER_WORK_DIFFICULTY : Z := 1024000.

(** ** The coin server *)

(** The functions that answer with the text of a reply. *)
Inductive call `{Real} :=
  | stratum_create_account (iface : Z) (account : list byte)
  | stratum_getaddressinfo (iface : Z) (hash : list byte)
  | stratum_error_get (id : Z)
  | getaccounttransactioninfo (iface : Z) (account : list byte) (pkey : option (list byte))
  | stratum_create_transaction (iface : Z) (account pkey dest : list byte) (amount : R)
  | stratum_verify_transaction (iface : Z) (account pkey dest : list byte) (amount : R)
  | stratum_getaccountinfo (iface : Z) (account pkey : list byte)
  | stratum_accountalias (iface : Z) (account pkey : list byte) (mode : option (list byte)) (name addr : list byte)
  | stratum_accountcontext (iface : Z) (account pkey : list byte) (mode : option (list byte)) (name value : list byte)
  | stratum_accountcertificate (iface : Z) (account pkey : list byte) (mode : option (list byte)) (name issuer : list byte) (fee : R)
  | getmininginfo (iface : Z)
  | getchaininfo (iface : Z)
  | getblockinfo (iface : Z) (hash : list byte)
  | gettransactioninfo (iface : Z) (hash : list byte)
  | getlastblockinfo (iface : Z) (height : Z).
Class Server `{Real} `{Double} := {
  (** [GetCoinByIndex]: the name and whether it is enabled. *)
  sv_coin : nat → option (list byte * bool);
  sv_text : call → option (list byte);
  (** [stratum_miner_submitblock]: the error, the hash and the share. *)
  sv_submit : Z → Z → Z → list byte → Z * list byte * F;
  sv_height : Z → Z;
  sv_factor : Z → Z;
  sv_nonce : list byte;
  (** [stratum_request_api] and [shapi_request_api] *)
  sv_api : Z → list byte → option shjson_t → option shjson_t → option shjson_t;
  sv_shapi : Z → list byte → option shjson_t → option shjson_t → option shjson_t;
  (** [stratum_miner_get_transactions] *)
  sv_transactions : option shjson_t → Z * option shjson_t;
  sv_errstr : Z → list byte;
  (** [ExecuteRPC] and [ExecuteStratumRPC]: the error and the contents of the buffer. *)
  sv_rpc : bool → Z → shjson_t → Z * option (list byte);
  (** [stratum_addr_crc] and [stratum_ext_addr_crc] *)
  sv_addr_crc : nat → list byte → Z;
  sv_ext_addr_crc : nat → list byte → Z;
  (** The doubles of shares and those of messages are the same type in C. *)
  sv_real : F → R;
}.

(** ** Keys of RPC users: [get_rpc_dat_password]

    [rpc_key] is the option, [dat] the contents of rpc.dat and [is_local] is
    [unet_local_verify]. *)
Fixpoint strtok (sep : list byte) (cur : list byte) (l : list byte) : list (list byte) :=
  match l with
  | [] => match cur with [] => [] | _ => [cur] end
  | c :: l => if bool_decide (c ∈ sep) then (match cur with [] => [] | _ => [cur] end) ++ strtok sep [] l else strtok sep (cur ++ [c]) l
  end.
(** [strchr(tok, ' ')] cuts the token in two. *)
Fixpoint cut_space (acc l : list byte) : option (list byte * list byte) :=
  match l with [] => None | c :: l => if bool_decide (c = x20) then Some (acc, l) else cut_space (acc ++ [c]) l end.
Definition localhost : list byte := bytes "127.0.0.1".
Fixpoint dat_loop (is_local : list byte → bool) (host : list byte) (toks : list (list byte)) : option shkey_t :=
  match toks with
  | [] => None
  | tok :: toks =>
     match cut_space [] tok with
     | None => dat_loop is_local host toks
     | Some (name, key_str) =>
        if bool_decide (host = localhost) && is_local name then shkey_gen (Some key_str)
        else if strcasecmp host name then shkey_gen (Some key_str)
        else dat_loop is_local host toks
     end
  end.
Definition get_rpc_dat_password (rpc_key dat : option (list byte)) (is_local : list byte → bool) (host : option (list byte)) : option shkey_t :=
  let host := default localhost host in
  let file := match dat with None => None | Some raw => dat_loop is_local host (strtok [x0d; x0a] [] (cstring raw)) end in
  if bool_decide (host = localhost) then match shkey_hexgen rpc_key with Some key => Some key | None => file end else file.
Definition get_rpc_password (rpc_key dat : option (list byte)) (is_local : list byte → bool) (host : option (list byte)) : option (list byte) :=
  key ← get_rpc_dat_password rpc_key dat is_local host; Some (take 255 (shkey_print (Some key))).

(** [shsha_hex], with the memory of the local context. *)
Definition shsha_hex (ctx : sh_sha_t) (mem : list byte) (alg : Z) (data : list byte) : option (Z * list byte) :=
  '(err, d) ← shsha ctx mem alg (Some data) (zlen data);
  if negb (err =? 0) then Some (err, []) else Some (0, hex_string d).

(** [(uint32_t)strtoll(s, NULL, 16)] *)
Definition hex_u32 (s : list byte) : Z := u32 (Z.max (- 2 ^ 63) (Z.min (2 ^ 63 - 1) (strtoll16 s))).

(** [stratum_request_id]: the counter afterwards is its result. *)
Definition stratum_request_id (rand idx : Z) : Z :=
  u32 ((if idx =? 0 then u32 (Z.land rand 0xFFFF + 0xFF) else idx) + 1).

(** ** Messages *)
Section message.
Context `{Real} `{Heap}.
(** The identifier of a request, as [user->cur_id] keeps it. *)
Definition request_id (json : shjson_t) : list byte :=
  let val := ru32 (shjson_num (Some json) (Some (bytes "id")) (r_of 0)) in
  if negb (val =? 0) then dec val
  else match shjson_astr (Some json) (Some (bytes "id")) (Some []) with Some text => take 255 text | None => [] end.
(** The identifier of a reply. *)
Definition reply_id (cur_id : list byte) (msg : shjson_t) : shjson_t :=
  match cur_id with
  | [] => shjson_null_add msg (Some (bytes "id"))
  | _ =>
     let val := u32 (atoi cur_id) in
     if negb (val =? 0) then shjson_num_add msg (Some (bytes "id")) (r_of val)
     else shjson_str_add msg (Some (bytes "id")) (Some cur_id)
  end.
End message.

Section send.
Context {N : Type} `{Client N} `{Real} `{Heap} (max_fd : Z).
Abbreviation C := (SM (cst N)).
(** [unet_write], whose result the messages ignore. *)
Definition write_fd (fd : Z) (data : list byte) : C unit :=
  if zlen data =? 0 then mret tt
  else
    t ← sopt (λ s, descriptor_get max_fd fd (cs_desc s));
    match t with
    | None => mret tt
    | Some d =>
       if negb (has_flag (d_flag d) DF_SERVICE) then mret tt
       else dt ← sopt (λ s, descriptor_wbuff_add max_fd fd data (cs_desc s)); smod (set_desc dt)
    end.
(** A null pointer is [None]. *)
Definition lift_res {A} (r : res A) : C (option A) := match r with Ok a => mret (Some a) | Fail => mret None | _ => sfault end.
Definition new_reply : C shjson_t := match shjson_init None with Ok t => mret t | _ => sfault end.
(** [shjson_array_add], and what is then added to the array. *)
Definition array_with (t : shjson_t) (name : option (list byte)) (items : shjson_t → shjson_t) : C shjson_t :=
  match shjson_CreateArray with None => sfault | Some a => mret (add_name t name (Some (items a))) end.
(** The end of [stratum_send_message] and of [shapi_send_message]. *)
Definition send_line (fd : Z) (cur_id : list byte) (msg : shjson_t) : C Z :=
  text ← lift_res (shjson_print (reply_id cur_id msg));
  _ ← (match text with
       | None => mret tt
       | Some text => _ ← write_fd fd text; write_fd fd [x0a]
       end);
  mret 0.
Definition set_stratum_error (reply : shjson_t) (code : Z) (str : list byte) : C shjson_t :=
  array_with reply (Some (bytes "error"))
    (λ e, shjson_null_add (shjson_str_add (shjson_num_add e None (r_of code)) None (Some str)) None).
End send.

Section iface.
Context (coin : nat → option (list byte * bool)).
Definition stratum_get_iface (iface_str : list byte) : Z := rpc_get_iface (λ i, fst <$> coin i) iface_str.
(** Whether [GetCoinByIndex(i)] is a coin that is enabled. *)
Definition coin_enabled (i : Z) : bool :=
  if (i <? 1) || (Z.of_nat MAX_COIN_IFACE <=? i) then false else match coin (Z.to_nat i) with Some (_, e) => e | None => false end.
End iface.

Definition quote_word (s : list byte) : list byte := c_quote :: s ++ [c_quote].
(** [{"result":true,"error":null}] *)
Definition result_true : list byte :=
  bytes "{" ++ quote_word (bytes "result") ++ bytes ":true," ++ quote_word (bytes "error") ++ bytes ":null}".
(** [{"result":null,"error":null}] *)
Definition result_null : list byte :=
  bytes "{" ++ quote_word (bytes "result") ++ bytes ":null," ++ quote_word (bytes "error") ++ bytes ":null}".

Section stratum.
Context `{Real} `{Double} `{Heap} `{!Server} (max_fd : Z).
Context (shaddr : Z → option sockaddr).
Abbreviation C := (SM (cst user_t)).

(** ** [stratum_message.c] *)
Definition stratum_send_message (p : Z) (msg : shjson_t) : C Z :=
  u ← node_load p;
  if has_flag (u_flags u) USER_SYSTEM then mret 0
  else if u_fd u =? -1 then mret 0
  else send_line max_fd (u_fd u) (ss_cur_id (u_sess u)) msg.
Definition err_msg (err_code : Z) : list byte :=
  if err_code =? 21 then bytes "Job not found" else if err_code =? 22 then bytes "Duplicate share"
  else if err_code =? 23 then bytes "Low difficulty" else if err_code =? 24 then bytes "Unauthorized worker"
  else if err_code =? 25 then bytes "Not subscribed" else if err_code =? 61 then bytes "Bad session id"
  else if err_code =? 62 then bytes "Job not found" else bytes "Other/Unknown".
Definition stratum_send_error (p : Z) (err_code : Z) : C Z :=
  reply ← new_reply;
  reply ← set_stratum_error reply err_code (err_msg err_code);
  stratum_send_message p (shjson_bool_add reply (Some (bytes "result")) false).
(** [key_str] is the text of the key of the nonce. *)
Definition stratum_send_subscribe (key_str : list byte) (p : Z) : C Z :=
  reply ← new_reply;
  let reply := shjson_null_add reply (Some (bytes "error")) in
  data2 ← (match shjson_CreateArray with
           | None => sfault
           | Some a => mret (shjson_str_add (shjson_str_add a None (Some (bytes "mining.notify"))) None (Some key_str))
           end);
  reply ← array_with reply (Some (bytes "result"))
    (λ data, shjson_num_add (shjson_str_add (add_name data None (Some data2)) None (Some sv_nonce)) None (r_of 4));
  stratum_send_message p reply.

(** ** Sessions *)
Definition sess_mod (p : Z) (f : session_t → session_t) : C unit :=
  u ← node_load p; node_store p (u_set_sess (f (u_sess u)) u).
Definition set_cur_id (id : list byte) (x : session_t) : session_t :=
  Session id (ss_cli_id x) (ss_cli_ver x) (ss_work_diff x) (ss_block_hash x) (ss_block_height x) (ss_block_tm x) (ss_block_freq x) (ss_speed x) (ss_reward_time x) (ss_reward_height x) (ss_balance_avg x).
Definition set_cli_id (id : list byte) (x : session_t) : session_t :=
  Session (ss_cur_id x) id (ss_cli_ver x) (ss_work_diff x) (ss_block_hash x) (ss_block_height x) (ss_block_tm x) (ss_block_freq x) (ss_speed x) (ss_reward_time x) (ss_reward_height x) (ss_balance_avg x).
Definition set_cli_ver (v : list byte) (x : session_t) : session_t :=
  Session (ss_cur_id x) (ss_cli_id x) v (ss_work_diff x) (ss_block_hash x) (ss_block_height x) (ss_block_tm x) (ss_block_freq x) (ss_speed x) (ss_reward_time x) (ss_reward_height x) (ss_balance_avg x).
Definition set_work_diff (d : Z) (x : session_t) : session_t :=
  Session (ss_cur_id x) (ss_cli_id x) (ss_cli_ver x) d (ss_block_hash x) (ss_block_height x) (ss_block_tm x) (ss_block_freq x) (ss_speed x) (ss_reward_time x) (ss_reward_height x) (ss_balance_avg x).
Definition set_block_hash (hash : list byte) (height : Z) (x : session_t) : session_t :=
  Session (ss_cur_id x) (ss_cli_id x) (ss_cli_ver x) (ss_work_diff x) hash height (ss_block_tm x) (ss_block_freq x) (ss_speed x) (ss_reward_time x) (ss_reward_height x) (ss_balance_avg x).
Definition set_tm (tm : F) (x : session_t) : session_t :=
  Session (ss_cur_id x) (ss_cli_id x) (ss_cli_ver x) (ss_work_diff x) (ss_block_hash x) (ss_block_height x) tm (ss_block_freq x) (ss_speed x) (ss_reward_time x) (ss_reward_height x) (ss_balance_avg x).
Definition set_freq (freq : F) (speed : list F) (x : session_t) : session_t :=
  Session (ss_cur_id x) (ss_cli_id x) (ss_cli_ver x) (ss_work_diff x) (ss_block_hash x) (ss_block_height x) (ss_block_tm x) freq speed (ss_reward_time x) (ss_reward_height x) (ss_balance_avg x).
Definition u_add_share (tot : F) (cnt : Z) (u : user_t) : user_t :=
  User (u_worker u) (u_fd u) (u_flags u) (u_height u) tot cnt (u_block_avg u) (u_block_acc u) (u_balance u)
    (u_round_stamp u) (u_work_stamp u) (u_ifaceIndex u) (u_netid u) (u_alg u) (u_next u) (u_sess u).
Definition u_set_acc (acc : Z) (u : user_t) : user_t :=
  User (u_worker u) (u_fd u) (u_flags u) (u_height u) (u_block_tot u) (u_block_cnt u) (u_block_avg u) acc (u_balance u)
    (u_round_stamp u) (u_work_stamp u) (u_ifaceIndex u) (u_netid u) (u_alg u) (u_next u) (u_sess u).

(** ** Difficulty and shares *)
Definition stratum_send_difficulty (p : Z) : C Z :=
  _ ← sess_mod p (set_cur_id []);
  reply ← new_reply;
  let reply := shjson_str_add reply (Some (bytes "method")) (Some (bytes "mining.set_difficulty")) in
  u ← node_load p;
  reply ← array_with reply (Some (bytes "params")) (λ data, shjson_num_add data None (r_of (ss_work_diff (u_sess u))));
  stratum_send_message p reply.
Definition stratum_set_difficulty (p : Z) (diff : Z) : C Z :=
  let diff := Z.min 1024000 (Z.max 32 diff) in
  _ ← sess_mod p (set_work_diff diff);
  stratum_send_difficulty p.
(** [cur_t] is the time as a double. *)
Definition stratum_user_block (cur_t : F) (p : Z) (share_diff : F) : C unit :=
  u ← node_load p;
  _ ← (if negb (feqb share_diff f_inf) then
         node_store p (u_add_share (fadd (u_block_tot u) (fdiv share_diff (f_of (sv_factor (u_alg u))))) (u64 (u_block_cnt u + 1)) u)
       else mret tt);
  u ← node_load p;
  let x := u_sess u in
  _ ← (if negb (feqb (ss_block_tm x) f0) then
         let span := fsub cur_t (ss_block_tm x) in
         let step := Z.to_nat (Z.rem (fint cur_t) (Z.of_nat MAX_SPEED_STEP)) in
         let speed := fdiv (fmul (fdiv (f_of (ss_work_diff x)) span) (f_of (2 ^ 32))) (f_of 0xffff) in
         let steps := if fltb (f_of 1) span then alter (λ a, fdiv (fadd a (fdiv speed (f_of 1000))) (f_of 2)) step (ss_speed x) else ss_speed x in
         let freq := fdiv (fadd span (ss_block_freq x)) (f_of 2) in
         _ ← sess_mod p (set_freq freq steps);
         if fltb freq (f_of 1) then
           if ss_work_diff x <? MAX_USER_WORK_DIFFICULTY
           then _ ← stratum_set_difficulty p (Z.min MAX_USER_WORK_DIFFICULTY (ss_work_diff x + 256)); mret tt else mret tt
         else if fltb (f_of 30) freq then
           if MIN_USER_WORK_DIFFICULTY <? ss_work_diff x
           then _ ← stratum_set_difficulty p (Z.max MIN_USER_WORK_DIFFICULTY (ss_work_diff x - 256)); mret tt else mret tt
         else mret tt
       else mret tt);
  sess_mod p (set_tm cur_t).

(** A pointer that the code uses without testing it; to print a null string is
    undefined. *)
Definition deref {A} (o : option A) : C A := match o with Some a => mret a | None => sfault end.
(** [sprintf] into an array of [size] bytes. *)
Definition fits_array (size : Z) (s : list byte) : C unit := if zlen s <? size then mret tt else sfault.
Definition stratum_validate_submit (cur_t : F) (p : Z) (json : shjson_t) : C Z :=
  let param := shjson_array_astr json (Some (bytes "params")) in
  match param 1 with
  | None => mret ERR_INVAL
  | Some job_id =>
     ntime ← deref (param 3);
     nonce ← deref (param 4);
     worker ← deref (param 0);
     _ ← stratum_user shaddr p worker;
     extranonce2 ← deref (param 2);
     _ ← fits_array 256 extranonce2;
     let '(ret_err, submit_hash, share_diff) := sv_submit (hex_u32 job_id) (hex_u32 ntime) (hex_u32 nonce) extranonce2 in
     if negb (ret_err =? 0) then mret ret_err
     else
       u ← node_load p;
       if negb (bool_decide (submit_hash = [])) && bool_decide (ss_block_hash (u_sess u) = submit_hash) then mret ERR_ALREADY
       else
         _ ← stratum_user_block cur_t p share_diff;
         u ← node_load p;
         _ ← (if negb (bool_decide (submit_hash = [])) && coin_enabled sv_coin (u_ifaceIndex u) then
                _ ← node_store p (u_set_acc (i32 (u_block_acc u + 1)) u);
                sess_mod p (set_block_hash (take 255 submit_hash) (u64 (sv_height (u_ifaceIndex u) - 1)))
              else mret tt);
         mret 0
  end.

(** ** Accounts *)
Definition stratum_json (text : option (list byte)) : C (option shjson_t) :=
  match text with None => mret None | Some t => lift_res (shjson_init (strdup t)) end.
Definition stratum_generic_error : C shjson_t :=
  reply ← new_reply;
  reply ← set_stratum_error reply (-5) (bytes "invalid");
  mret (shjson_null_add reply (Some (bytes "result"))).
Definition error_text (p : Z) : C (option (list byte)) :=
  u ← node_load p; mret (sv_text (stratum_error_get (atoi (ss_cur_id (u_sess u))))).
(** [stratum_request_account_create] and [_address]. *)
Definition account_reply (iface : Z) (p : Z) (c : option call) : C Z :=
  reply ← (match c with
           | Some c =>
              if coin_enabled sv_coin iface then
                text ← (match sv_text c with Some t => mret (Some t) | None => error_text p end);
                stratum_json text
              else mret None
           | None => mret None
           end);
  reply ← (match reply with Some r => mret r | None => stratum_generic_error end);
  stratum_send_message p reply.
Definition stratum_request_account_create (iface : Z) (p : Z) (account : option (list byte)) : C Z :=
  account_reply iface p (stratum_create_account iface <$> account).
Definition stratum_request_account_address (iface : Z) (p : Z) (hash : option (list byte)) : C Z :=
  account_reply iface p (stratum_getaddressinfo iface <$> hash).
(** The others: a reply that is null is used. *)
Definition private_reply (p : Z) (c : option call) : C shjson_t :=
  match c with
  | Some c =>
     reply ← stratum_json (sv_text c);
     match reply with
     | Some r => mret r
     | None => text ← error_text p; reply ← stratum_json text; deref reply
     end
  | None => stratum_generic_error
  end.
Definition private_request (p : Z) (c : option call) : C Z := reply ← private_reply p c; stratum_send_message p reply.
Definition stratum_request_account_tx (iface : Z) (p : Z) (account pkey_str : option (list byte)) : C Z :=
  u ← node_load p;
  let idx := atoi (ss_cur_id (u_sess u)) in
  reply ← private_reply p ((λ a, getaccounttransactioninfo iface a pkey_str) <$> account);
  stratum_send_message p (shjson_num_add reply (Some (bytes "id")) (r_of idx)).
Definition stratum_request_account_transfer (iface : Z) (p : Z) (account pkey_str dest : option (list byte)) (amount : R) : C Z :=
  private_request p (a ← account; k ← pkey_str; d ← dest; Some (stratum_create_transaction iface a k d amount)).
Definition stratum_request_account_verify_transfer (iface : Z) (p : Z) (account pkey_str dest : option (list byte)) (amount : R) : C Z :=
  private_request p (a ← account; k ← pkey_str; d ← dest; Some (stratum_verify_transaction iface a k d amount)).
Definition stratum_request_account_info (iface : Z) (p : Z) (account pkey_str : option (list byte)) : C Z :=
  private_request p (a ← account; k ← pkey_str; Some (stratum_getaccountinfo iface a k)).
Definition stratum_request_account_alias (iface : Z) (p : Z) (account pkey_str mode name addr : option (list byte)) : C Z :=
  private_request p (a ← account; k ← pkey_str; Some (stratum_accountalias iface a k mode (default [] name) (default [] addr))).
Definition stratum_request_account_context (iface : Z) (p : Z) (account pkey_str mode name value : option (list byte)) : C Z :=
  private_request p (a ← account; k ← pkey_str; Some (stratum_accountcontext iface a k mode (default [] name) (default [] value))).
Definition stratum_request_account_certificate (iface : Z) (p : Z) (account pkey_str mode name issuer : option (list byte)) (fee : R) : C Z :=
  private_request p (a ← account; k ← pkey_str; Some (stratum_accountcertificate iface a k mode (default [] name) (default [] issuer) fee)).

(** ** Statistics *)
Definition stratum_user_speed (u : user_t) : F :=
  let '(speed, cnt) := foldl (λ '(speed, cnt) x, if fltb f0 x then (fadd speed x, cnt + 1) else (speed, cnt)) (f0, 0) (ss_speed (u_sess u)) in
  if cnt =? 0 then f0 else fdiv speed (f_of cnt).
Definition listed_ifaces : list nat := filter (λ i, i ≠ TESTNET_COIN_IFACE ∧ i ≠ COLOR_COIN_IFACE) (seq 1 (MAX_COIN_IFACE - 1)).
Definition num_items (l : list R) (t : shjson_t) : shjson_t := foldl (λ t x, shjson_num_add t None x) t l.
Definition str_item (str : list byte) (t : shjson_t) : shjson_t := shjson_str_add t None (Some str).
(** A row of [mining.shares]. *)
Definition share_row (u : user_t) : option shjson_t :=
  let x := u_sess u in
  let avg := foldl fadd f0 (u_block_avg u) in
  let avg := if feqb avg f0 then avg else fdiv avg (f_of 3600) in
  row ← shjson_CreateArray;
  let row := num_items [r_of (u_round_stamp u); r_of (u_block_cnt u); sv_real (u_block_tot u); sv_real avg; r_of (ss_work_diff x); sv_real (stratum_user_speed u)]
               (str_item (u_worker u) row) in
  let row := num_items [r_of (ss_reward_time x); r_of (ss_reward_height x)] (str_item (ss_cli_ver x) (str_item (ss_block_hash x) row)) in
  let row := str_item (shkey_print (Some (u_netid u))) row in
  crcs ← shjson_CreateArray;
  ext ← shjson_CreateArray;
  Some (add_name (add_name row None (Some (num_items ((λ i, r_of (sv_addr_crc i (u_worker u))) <$> listed_ifaces) crcs)))
         None (Some (num_items ((λ i, r_of (sv_ext_addr_crc i (u_worker u))) <$> listed_ifaces) ext))).
(** [strtok] leaves the first byte of the name, so that only an empty name is
    passed over. *)
Definition share_add (data : option shjson_t) (u : user_t) : option shjson_t :=
  t ← data;
  if has_flag (u_flags u) USER_REMOTE || has_flag (u_flags u) USER_SYNC || bool_decide (u_worker u = []) then Some t
  else row ← share_row u; Some (add_name t None (Some row)).
Definition req_shares (p : Z) : C Z :=
  reply ← new_reply;
  data ← on_list (λ fuel, fold_nodes fuel share_add shjson_CreateArray);
  data ← deref data;
  stratum_send_message p (shjson_null_add (add_name reply (Some (bytes "result")) (Some data)) (Some (bytes "error"))).

Definition round_hour (now : Z) : Z := Z.rem (Z.quot now 3600) (Z.of_nat MAX_ROUNDS_PER_HOUR).
Definition round_index (hour : Z) (idx : nat) : nat :=
  let r_idx := hour - Z.of_nat idx in
  Z.to_nat (if r_idx <? 0 then Z.of_nat MAX_ROUNDS_PER_HOUR + r_idx else r_idx).
Definition round_add (idx r_idx : nat) (acc : list F * list Z) (u : user_t) : list F * list Z :=
  let avg := default f0 (u_block_avg u !! idx) in
  if fltb avg (fdiv (f_of 1) (f_of 1000000)) then acc
  else (alter (λ a, fadd a avg) r_idx acc.1, alter (λ n, n + 1) r_idx acc.2).
Fixpoint rounds_loop (hour : Z) (idxs : list nat) (acc : list F * list Z) : C (list F * list Z) :=
  match idxs with
  | [] => mret acc
  | idx :: idxs => acc ← on_list (λ fuel, fold_nodes fuel (round_add idx (round_index hour idx)) acc); rounds_loop hour idxs acc
  end.
Definition round_node (now : Z) (rounds : list F) (miners : list Z) (speed : F) (idx : nat) : option shjson_t :=
  let hours := Z.quot now 3600 - Z.of_nat idx in
  node ← shjson_CreateObject;
  let node := shjson_num_add node (Some (bytes "round")) (r_of (hours - WORK_ROUND_OFFSET)) in
  let node := shjson_num_add node (Some (bytes "stamp")) (r_of (hours * 3600)) in
  let node := shjson_num_add node (Some (bytes "shares")) (sv_real (default f0 (rounds !! idx))) in
  let node := shjson_num_add node (Some (bytes "workers")) (r_of (default 0 (miners !! idx))) in
  Some (if (idx =? 0)%nat then shjson_num_add node (Some (bytes "speed")) (sv_real speed) else node).
Definition round_nodes (now : Z) (rounds : list F) (miners : list Z) (speed : F) : option shjson_t :=
  foldl (λ data idx, t ← data; node ← round_node now rounds miners speed idx; Some (add_name t None (Some node)))
    shjson_CreateArray (seq 0 MAX_ROUNDS_PER_HOUR).
Definition getminingroundsinfo (now : Z) : C shjson_t :=
  reply ← new_reply;
  let reply := shjson_null_add reply (Some (bytes "error")) in
  '(rounds, miners) ← rounds_loop (round_hour now) (seq 0 MAX_ROUNDS_PER_HOUR) (replicate MAX_ROUNDS_PER_HOUR f0, replicate MAX_ROUNDS_PER_HOUR 0);
  speed ← on_list (λ fuel, fold_nodes fuel (λ speed u, fadd speed (stratum_user_speed u)) f0);
  data ← deref (round_nodes now rounds miners speed);
  mret (add_name reply (Some (bytes "result")) (Some data)).

(** ** [stratum_command.c] *)
Inductive command_f := cmd_none | cmd_extranonce_subscribe | cmd_get_transactions.
Definition stratum_command_table : list (list byte * command_f) :=
  [(bytes "mining.capabilities", cmd_none); (bytes "mining.extranonce.subscribe", cmd_extranonce_subscribe);
   (bytes "mining.get_transactions", cmd_get_transactions); (bytes "mining.suggest_difficulty", cmd_none);
   (bytes "mining.suggest_target", cmd_none)].
(** 1 when the command is not known. *)
Definition stratum_command_api (iface : Z) (p : Z) (method : list byte) (param : option shjson_t) : C Z :=
  if negb (coin_enabled sv_coin iface) then mret 1
  else match List.find (λ e, strcasecmp e.1 method) stratum_command_table with
       | None => mret 1
       | Some (_, f) =>
          '(err, reply) ← (match f with
                           | cmd_none => mret (0, None)
                           | cmd_extranonce_subscribe =>
                              u ← node_load p; _ ← node_store p (u_set_flags (Z.lor (u_flags u) USER_EXTRANONCE) u); mret (0, None)
                           | cmd_get_transactions => mret (sv_transactions param)
                           end);
          reply ← (if negb (err =? 0) then
                     reply ← new_reply;
                     reply ← set_stratum_error reply err (sv_errstr err);
                     mret (shjson_null_add reply (Some (bytes "result")))
                   else match reply with
                        | Some r => mret r
                        | None => reply ← lift_res (shjson_init (Some result_true)); deref reply
                        end);
          _ ← stratum_send_message p reply;
          mret err
       end.

(** ** [stratum_request_message]

    What a request finds: the clock, the next request id, the session, the text
    of the key of the nonce, [inet_ntoa], the sources of the RPC keys, and the
    memory of the digests. *)
Record req_env := ReqEnv {
  q_now : Z;
  q_cur_t : F;
  q_rid : Z;
  q_session : list byte;
  q_key_str : list byte;
  q_ntoa : list byte → list byte;
  q_rpc_key : option (list byte);
  q_dat : option (list byte);
  q_is_local : list byte → bool;
  q_ctx : sh_sha_t;
  q_mem : list byte;
  q_hash : list byte;
}.
Context (q : req_env).

Definition set_flag (p : Z) (flag : Z) : C unit := u ← node_load p; node_store p (u_set_flags (Z.lor (u_flags u) flag) u).
Definition clear_flag (p : Z) (flag : Z) : C unit := u ← node_load p; node_store p (u_set_flags (Z.land (u_flags u) (Z.lnot flag)) u).
Definition ok_reply (result : shjson_t → shjson_t) : C shjson_t :=
  reply ← new_reply; mret (shjson_null_add (result reply) (Some (bytes "error"))).
Definition error_reply (code : Z) (str : list byte) : C shjson_t :=
  reply ← new_reply; reply ← set_stratum_error reply code str; mret (shjson_null_add reply (Some (bytes "result"))).
Definition add_true (t : shjson_t) : shjson_t := shjson_bool_add t (Some (bytes "result")) true.

Definition req_ping (p : Z) : C Z :=
  reply ← new_reply;
  stratum_send_message p (shjson_null_add (shjson_null_add reply (Some (bytes "error"))) (Some (bytes "result"))).
Definition stratum_subscribe (p : Z) : C Z :=
  err ← stratum_send_subscribe (q_key_str q) p;
  _ ← (if err =? 0 then set_flag p USER_SUBSCRIBE else mret tt);
  mret err.
Definition req_subscribe (p : Z) : C Z :=
  err ← stratum_subscribe p;
  _ ← (if err =? 0 then
         u ← node_load p;
         if sv_factor (u_alg u) =? 0 then sfault
         else
           let diff := Z.quot DEFAULT_WORK_DIFFICULTY (sv_factor (u_alg u)) in
           _ ← stratum_set_difficulty p ((Z.quot (diff - 1) 64 + 1) * 64); mret tt
       else mret tt);
  mret err.
Definition stratum_send_client_ver (p : Z) : C Z :=
  _ ← sess_mod p (set_cli_id (dec (q_rid q)));
  _ ← sess_mod p (set_cur_id (dec (q_rid q)));
  reply ← new_reply;
  stratum_send_message p (shjson_str_add reply (Some (bytes "method")) (Some (bytes "client.get_version"))).
Definition req_authorize (p : Z) (json : shjson_t) : C Z :=
  let username := take 1023 (default [] (shjson_array_astr json (Some (bytes "params")) 0)) in
  t_user ← (match username with [] => mret 0 | _ => stratum_user shaddr p username end);
  if t_user =? 0 then
    reply ← new_reply;
    reply ← set_stratum_error (shjson_bool_add reply (Some (bytes "result")) false) (-2) (bytes "unknown user");
    stratum_send_message p reply
  else
    reply ← ok_reply add_true;
    err ← stratum_send_message p reply;
    _ ← stratum_send_client_ver p;
    _ ← sess_mod p (set_work_diff DEFAULT_WORK_DIFFICULTY);
    mret err.
Definition req_resume (p : Z) (json : shjson_t) : C Z :=
  sess_id ← deref (shjson_array_astr json (Some (bytes "params")) 0);
  if negb (bool_decide (sess_id = q_session q)) then stratum_send_error p BLKERR_BAD_SESSION
  else reply ← ok_reply add_true; stratum_send_message p reply.
Definition submit_error (err : Z) : list byte :=
  if err =? ERR_ALREADY then bytes "duplicate" else if err =? ERR_TIME then bytes "stale"
  else if err =? ERR_PROTO then bytes "H-not-zero" else if err =? ERR_INVAL then bytes "unknown task id" else bytes "invalid".
Definition req_submit (p : Z) (json : shjson_t) : C Z :=
  err ← stratum_validate_submit (q_cur_t q) p json;
  reply ← (if err =? 0 then ok_reply add_true
           else
             reply ← new_reply;
             set_stratum_error (shjson_bool_add reply (Some (bytes "result")) false) (-2) (submit_error err));
  _ ← stratum_send_message p reply;
  _ ← (if err =? ERR_PROTO then stratum_send_difficulty p else mret 0);
  mret 0.

(** The user is granted RPC access when it names itself by its address and
    knows the key of that host and the current pin. *)
Definition elevate_key (worker : list byte) : option shkey_t :=
  match worker with [] => None | _ => get_rpc_dat_password (q_rpc_key q) (q_dat q) (q_is_local q) (Some worker) end.
Definition elevate_ok (worker : list byte) (json : shjson_t) : C bool :=
  match elevate_key worker with
  | None => mret false
  | Some skey =>
     '(_, lcl_auth) ← deref (shsha_hex (q_ctx q) (q_mem q) SHALG_SHA256 (key_bytes skey));
     lcl_pin ← deref (shsha_2fa_bin (q_mem q) (q_hash q) (q_now q) SHALG_SHA256 (Some (key_bytes skey)) 32 RPC_AUTH_FREQ);
     let rem_auth := take 255 (default [] (shjson_array_astr json (Some (bytes "params")) 0)) in
     let rem_pin := ru32 (shjson_array_num json (Some (bytes "params")) 1) in
     mret (strcasecmp lcl_auth rem_auth && (lcl_pin =? rem_pin))
  end.
Definition req_elevate (p : Z) (json : shjson_t) : C Z :=
  u ← node_load p;
  if bool_decide (u_worker u = localhost) || bool_decide (u_worker u = bytes "::1") then mret ERR_INVAL
  else
    let ipaddr := match shaddr (u_fd u) with Some a => take 255 (q_ntoa q (sin_addr a)) | None => [] end in
    if bool_decide (ipaddr = []) || negb (bool_decide (ipaddr = u_worker u)) then mret ERR_ACCESS
    else
      b ← elevate_ok (u_worker u) json;
      if negb b then
        reply ← error_reply ERR_ACCESS (bytes "stratum.elevate");
        stratum_send_message p reply
      else
        _ ← set_flag p USER_RPC;
        _ ← set_flag p USER_ELEVATE;
        reply ← new_reply;
        _ ← stratum_send_message p (shjson_null_add (shjson_null_add reply (Some (bytes "result"))) (Some (bytes "error")));
        mret 0.

Definition req_mining_info (iface : Z) (p : Z) : C Z :=
  reply ← lift_res (shjson_init (sv_text (getmininginfo iface)));
  reply ← (match reply with Some r => mret r
           | None =>
              reply ← new_reply;
              set_stratum_error (shjson_null_add reply (Some (bytes "result"))) (-5) (bytes "invalid")
           end);
  stratum_send_message p reply.
(** [getminingroundsinfo] does not return null. *)
Definition req_rounds (p : Z) : C Z := reply ← getminingroundsinfo (q_now q); stratum_send_message p reply.
Definition send_text (p : Z) (text : option (list byte)) : C Z :=
  reply ← (match text with
           | None => error_reply (-5) (bytes "invalid")
           | Some t => r ← lift_res (shjson_init (Some t)); deref r
           end);
  stratum_send_message p reply.
Definition req_block_info (iface : Z) (p : Z) (json : shjson_t) : C Z :=
  let mode := rint (shjson_array_num json (Some (bytes "params")) 0) in
  let hash := shjson_array_astr json (Some (bytes "params")) 1 in
  send_text p
    (if mode =? 1 then match hash with Some h => sv_text (getblockinfo iface h) | None => Some result_null end
     else if mode =? 2 then match hash with Some h => sv_text (gettransactioninfo iface h) | None => Some result_null end
     else if mode =? 3 then sv_text (getlastblockinfo iface (rint (shjson_array_num json (Some (bytes "params")) 1)))
     else Some result_null).
Definition req_rpc (iface : Z) (p : Z) (json : shjson_t) : C Z :=
  u ← node_load p;
  let '(err, text) := sv_rpc (has_flag (u_flags u) USER_RPC) iface json in
  if negb (err =? 0) then
    reply ← error_reply err (bytes "invalid syntax");
    _ ← stratum_send_message p reply;
    mret err
  else
    reply ← lift_res (shjson_init text);
    match reply with
    | None => mret ERR_INVAL
    | Some reply =>
       _ ← (if has_flag (u_flags u) USER_RPC && has_flag (u_flags u) USER_ELEVATE
            then _ ← clear_flag p USER_RPC; clear_flag p USER_ELEVATE else mret tt);
       _ ← stratum_send_message p reply;
       mret 0
    end.

(** The requests that are known by name. *)
Definition method_table (iface : Z) (p : Z) (json : shjson_t) : list (list byte * C Z) :=
  let str := shjson_array_astr json (Some (bytes "params")) in
  let num := shjson_array_num json (Some (bytes "params")) in
  [ (bytes "mining.ping", req_ping p);
    (bytes "mining.subscribe", req_subscribe p);
    (bytes "mining.authorize", req_authorize p json);
    (bytes "stratum.authorize", req_authorize p json);
    (bytes "mining.resume", req_resume p json);
    (bytes "mining.submit", req_submit p json);
    (bytes "stratum.elevate", req_elevate p json);
    (bytes "mining.shares", req_shares p);
    (bytes "mining.info", req_mining_info iface p);
    (bytes "mining.rounds", req_rounds p);
    (bytes "chain.info", send_text p (sv_text (getchaininfo iface)));
    (bytes "block.info", req_block_info iface p json);
    (bytes "account.create", stratum_request_account_create iface p (str 0));
    (bytes "account.tx", stratum_request_account_tx iface p (str 0) (str 1));
    (bytes "account.address", stratum_request_account_address iface p (str 0));
    (bytes "account.transfer", stratum_request_account_transfer iface p (str 0) (str 1) (str 2) (num 3));
    (bytes "account.verify_transfer", stratum_request_account_verify_transfer iface p (str 0) (str 1) (str 2) (num 3));
    (bytes "account.info", stratum_request_account_info iface p (str 0) (str 1));
    (bytes "account.alias", stratum_request_account_alias iface p (str 0) (str 1) (str 2) (str 3) (str 4));
    (bytes "account.context", stratum_request_account_context iface p (str 0) (str 1) (str 2) (str 3) (str 4));
    (bytes "account.certificate", stratum_request_account_certificate iface p (str 0) (str 1) (str 2) (str 3) (str 4) (num 5)) ].
Definition request_iface (u : user_t) (json : shjson_t) : Z :=
  let i := stratum_get_iface sv_coin (take 255 (default [] (shjson_astr (Some json) (Some (bytes "iface")) None))) in
  let i := if i <? 1 then u_ifaceIndex u else i in
  if i <? 1 then SHC_COIN_IFACE else i.
Definition stratum_dispatch (iface : Z) (p : Z) (json : shjson_t) (method : list byte) : C Z :=
  match List.find (λ e, bool_decide (e.1 = method)) (method_table iface p json) with
  | Some (_, m) => m
  | None =>
     if bool_decide (take 4 method = bytes "api.") then
       match sv_api iface method (shjson_obj (Some json) (Some (bytes "params"))) (shjson_obj (Some json) (Some (bytes "auth"))) with
       | None => mret ERR_INVAL
       | Some reply => _ ← stratum_send_message p reply; mret 0
       end
     else
       err ← stratum_command_api iface p method (shjson_obj (Some json) (Some (bytes "params")));
       if negb (err =? 1) then mret err else req_rpc iface p json
  end.
Definition stratum_request_message (p : Z) (json : shjson_t) : C Z :=
  _ ← sess_mod p (set_cur_id (request_id json));
  u ← node_load p;
  if bool_decide (ss_cur_id (u_sess u) = ss_cli_id (u_sess u)) && negb (shjson_strlen (Some json) (Some (bytes "result")) =? 0) then
    _ ← sess_mod p (set_cli_ver (take 128 (default [] (shjson_astr (Some json) (Some (bytes "result")) (Some [])))));
    mret 0
  else
    let iface := request_iface u json in
    match shjson_astr (Some json) (Some (bytes "method")) None with
    | None => mret ERR_INVAL
    | Some method => if has_flag (u_flags u) USER_RPC then req_rpc iface p json else stratum_dispatch iface p json method
    end.
End stratum.

(** ** [shapi_protocol.c] *)
Section shapi.
Context `{Real} `{Double} `{Heap} `{!Server} (max_fd : Z).
Abbreviation C := (SM (cst shapi_t)).
Definition a_set_cur_id (id : list byte) (a : shapi_t) : shapi_t := Shapi (a_fd a) (a_next a) id.
Definition shapi_send_message (p : Z) (msg : shjson_t) : C Z :=
  a ← node_load p;
  if a_fd a =? -1 then mret 0 else send_line max_fd (a_fd a) (a_cur_id a) msg.
Definition shapi_request_message (p : Z) (json : shjson_t) : C Z :=
  a ← node_load p;
  _ ← node_store p (a_set_cur_id (request_id json) a);
  let i := stratum_get_iface sv_coin (take 255 (default [] (shjson_astr (Some json) (Some (bytes "iface")) None))) in
  let iface := if i <? 1 then SHC_COIN_IFACE else i in
  match shjson_astr (Some json) (Some (bytes "method")) None with
  | None => mret ERR_INVAL
  | Some method =>
     if bool_decide (take 4 method = bytes "api.") then
       match sv_shapi iface method (shjson_obj (Some json) (Some (bytes "params"))) (shjson_obj (Some json) (Some (bytes "auth"))) with
       | None => mret ERR_INVAL
       | Some reply => _ ← shapi_send_message p reply; mret 0
       end
     else
       reply ← new_reply;
       reply ← set_stratum_error reply ERR_NOMETHOD (bytes "invalid command");
       shapi_send_message p (shjson_null_add reply (Some (bytes "result")))
  end.
End shapi.
