(* ===== verification/StratumSpec.v ===== *)
(** * The stratum protocol: requests keep the service going

    A well-formed request of a client without RPC access does not fault and
    leaves the list of clients, the connections and flags of their records and
    the read queues as the timers need them. *)

From S2P Require Import Prelude Errors Shbuf Descriptor Crc Sha Hmac Key Opt Links ShmapSpec Clients Services ClientsSpec ClientsServe ServSpec Json JsonTree JsonSafe JsonSpec JsonPrint JsonMap Codec Stratum.

(** ** Writing leaves the read queues alone *)
Lemma wbuff_add_ok `{Heap} max_fd fd bs dt : 0 ≤ fd → desc_ok dt →
  ∃ dt', descriptor_wbuff_add max_fd fd bs dt = Some dt' ∧ desc_ok dt' ∧ ∀ fd', queue max_fd dt' fd' = queue max_fd dt fd'.
Proof.
  intros Hfd Hok. pose proof Hok as [[t Ht] Hwf]. unfold descriptor_wbuff_add. destruct (max_fd <=? fd); [by exists dt|]. destruct (zlen bs <=? 0); [by exists dt|].
  rewrite Ht, (proj2 (Z.ltb_ge fd 0) Hfd). destruct (d_flag (dt_slot t fd) =? 0) eqn:Ef; [by exists dt|]. eexists. split; [done|].
  assert (dt_slot t fd = dt_slot (dt_alloc dt) fd) as Es by (unfold dt_alloc; by rewrite Ht). rewrite Es in *. split; [split|].
  - by eexists.
  - intros fd' b. rewrite dt_put_slot. case_decide as E; [subst|]; apply Hwf.
  - intros fd'. unfold queue. destruct (max_fd <=? fd'); [done|]. rewrite dt_put_slot. case_decide as E; [subst|done]. cbn [d_flag]. done.
Qed.
Section write.
Context {N : Type} `{ClientOk N} `{Heap} (max_fd : Z) (R : N → N → Prop) (R_refl : ∀ n, R n n).
Lemma set_desc_kept s cl dt : rep s cl → desc_ok dt → (∀ fd, queue max_fd dt fd = queue max_fd (cs_desc s) fd) → kept max_fd R s cl (set_desc dt s).
Proof. intros [Hc Hb Hk] Hok Hq. split; [|done]. exists cl. split; [by split|by apply related_refl]. Qed.
Lemma get_some fd dt : 0 ≤ fd → desc_ok dt → ∃ t, descriptor_get max_fd fd dt = Some t.
Proof. intros Hfd [[t Ht] _]. unfold descriptor_get. rewrite Ht, (proj2 (Z.ltb_ge fd 0) Hfd). destruct (_ <=? _); eauto. Qed.
Lemma write_keeps p fd bs : 0 ≤ fd → Keeps max_fd R p (write_fd max_fd fd bs).
Proof.
  intros Hfd s cl Hr Hok Hp. unfold write_fd. destruct (zlen bs =? 0); [apply swp_ret; by apply kept_refl|].
  destruct (get_some fd (cs_desc s) Hfd Hok) as [t Ht].
  apply swp_bind. eapply swp_opt; [exact Ht|]. destruct t as [d|]; [|apply swp_ret; by apply kept_refl].
  destruct (negb _); [apply swp_ret; by apply kept_refl|]. destruct (wbuff_add_ok max_fd fd bs (cs_desc s) Hfd Hok) as (dt & Hdt & Hok' & Hq).
  apply swp_bind. eapply swp_opt; [exact Hdt|]. apply swp_mod. by apply set_desc_kept.
Qed.
End write.

(** ** Computations for a client without RPC access *)
Section keep.
Context `{Double} `{Heap} (max_fd : Z).
Abbreviation C := (SM (cst user_t)).
Definition quiet (u : user_t) : Prop := has_flag (u_flags u) USER_RPC = false ∧ -1 ≤ u_fd u.
Definition K (p : Z) {A} (m : C A) : Prop := ∀ s cl u, rep s cl → desc_ok (cs_desc s) → p ∈ cl.*1 → cs_users s !! p = Some u → quiet u →
  swp m s (λ _ s', kept max_fd user_rel s cl s').
(** The record of the client is [u]. *)
Definition KAt (p : Z) (u : user_t) {A} (m : C A) : Prop := ∀ s cl, rep s cl → desc_ok (cs_desc s) → p ∈ cl.*1 → cs_users s !! p = Some u → quiet u →
  swp m s (λ _ s', kept max_fd user_rel s cl s').

Lemma user_rel_body u u' : user_rel (body u) (body u') ↔ user_rel u u'.
Proof. done. Qed.
Lemma quiet_rel u u' : user_rel u u' → quiet u → quiet u'.
Proof. intros HR [Hq Hf]. split; [rewrite (user_rel_flag u u' USER_RPC HR) by set_solver; done|]. by rewrite (proj1 HR). Qed.
Lemma kept_quiet s cl s' p u : rep s cl → p ∈ cl.*1 → cs_users s !! p = Some u → quiet u → kept max_fd user_rel s cl s' →
  ∃ cl' u', rep s' cl' ∧ desc_ok (cs_desc s') ∧ p ∈ cl'.*1 ∧ cs_users s' !! p = Some u' ∧ quiet u' ∧ user_rel u u'.
Proof.
  intros Hr Hp Hu Hq ((cl' & Hr' & Hrel) & Hok & _). assert (p ∈ cl'.*1) as Hp' by (by rewrite (related_fst _ _ _ Hrel)).
  destruct (rep_elem s' cl' p Hr' Hp') as (u' & Hu' & Hin & _). exists cl', u'. assert (user_rel u u') as HR.
  { destruct (rep_elem s cl p Hr Hp) as (u0 & Hu0 & Hin0 & _). rewrite Hu in Hu0. injection Hu0 as <-.
    apply list_elem_of_lookup_1 in Hin as [i Hi]. pose proof Hrel as Hrel2. unfold related in Hrel2.
    destruct (Forall2_lookup_r _ _ _ _ _ Hrel2 Hi) as ([p0 b0] & Hi0 & E & HR). cbn [fst snd] in *. subst p0.
    apply list_elem_of_lookup_1 in Hin0 as [j Hj]. assert (i = j) as ->; [|by rewrite Hj in Hi0; injection Hi0 as <-].
    apply (NoDup_lookup cl.*1 i j p); [by eapply rep_nodup|..]; rewrite list_lookup_fmap; by rewrite ?Hi0, ?Hj. }
  split_and!; try done. by apply (quiet_rel u).
Qed.
Lemma KAt_of_K p u {A} (m : C A) : K p m → KAt p u m.
Proof. intros Hm s cl Hr Hok Hp Hu Hq. by eapply Hm. Qed.
Lemma K_of_keeps p {A} (m : C A) : Keeps max_fd user_rel p m → K p m.
Proof. intros Hm s cl u Hr Hok Hp _ _. by apply Hm. Qed.
Lemma K_ret p {A} (a : A) : K p (mret (M := C) a).
Proof. apply K_of_keeps, keeps_ret, user_rel_refl. Qed.
Lemma kept_trans s cl s1 cl1 s2 : kept max_fd user_rel s cl s1 → related user_rel cl cl1 → kept max_fd user_rel s1 cl1 s2 → kept max_fd user_rel s cl s2.
Proof.
  intros (_ & _ & Hq1) Hrel1 ((cl2 & Hr2 & Hrel2) & Hok2 & Hq2). split; [|split; [done|]].
  - exists cl2. split; [done|]. eapply related_trans; [apply user_rel_trans|done..].
  - intros fd. by rewrite Hq2.
Qed.
Lemma KAt_bind p u {A B} (m : C A) (k : A → C B) : KAt p u m → (∀ a, K p (k a)) → KAt p u (m ≫= k).
Proof.
  intros Hm Hk s cl Hr Hok Hp Hu Hq. apply swp_bind. eapply swp_mono; [by apply Hm|]. intros a s1 Hkept.
  pose proof Hkept as ((cl1 & Hr1 & Hrel1) & Hok1 & Hq1). destruct (kept_quiet s cl s1 p u Hr Hp Hu Hq Hkept) as (_ & u1 & _ & _ & _ & Hu1 & Hqu1 & _).
  eapply swp_mono; [eapply (Hk a s1 cl1 u1 Hr1 Hok1); [by rewrite (related_fst _ _ _ Hrel1)|done|done]|].
  intros b s2 Hk2. eapply kept_trans; [exact Hkept|exact Hrel1|exact Hk2].
Qed.
Lemma K_bind p {A B} (m : C A) (k : A → C B) : K p m → (∀ a, K p (k a)) → K p (m ≫= k).
Proof. intros Hm Hk s cl u Hr Hok Hp Hu Hq. apply (KAt_bind p u); try done. by apply KAt_of_K. Qed.
(** With what is known of the result. *)
Definition KR (p : Z) {A} (m : C A) (P : A → Prop) : Prop := ∀ s cl u, rep s cl → desc_ok (cs_desc s) → p ∈ cl.*1 → cs_users s !! p = Some u → quiet u →
  swp m s (λ a s', P a ∧ kept max_fd user_rel s cl s').
Lemma KR_bind p {A B} (m : C A) (k : A → C B) P : KR p m P → (∀ a, P a → K p (k a)) → K p (m ≫= k).
Proof.
  intros Hm Hk s cl u Hr Hok Hp Hu Hq. apply swp_bind. eapply swp_mono; [by eapply Hm|]. intros a s1 [HP Hkept].
  pose proof Hkept as ((cl1 & Hr1 & Hrel1) & Hok1 & Hq1). destruct (kept_quiet s cl s1 p u Hr Hp Hu Hq Hkept) as (_ & u1 & _ & _ & _ & Hu1 & Hqu1 & _).
  eapply swp_mono; [eapply (Hk a HP s1 cl1 u1 Hr1 Hok1); [by rewrite (related_fst _ _ _ Hrel1)|done|done]|].
  intros b s2 Hk2. eapply kept_trans; [exact Hkept|exact Hrel1|exact Hk2].
Qed.
Lemma KR_K p {A} (m : C A) P : KR p m P → K p m.
Proof. intros Hm s cl u Hr Hok Hp Hu Hq. eapply swp_mono; [by eapply Hm|]. by intros a s' [_ Hk]. Qed.
Lemma KR_ret p {A} (a : A) (P : A → Prop) : P a → KR p (mret a) P.
Proof. intros HP s cl u Hr Hok Hp _ _. apply swp_ret. split; [done|]. apply kept_refl; [apply user_rel_refl|done..]. Qed.
Lemma KR_load p {A} (f : user_t → A) (P : A → Prop) : (∀ u, P (f u)) → KR p (u ← node_load p; mret (f u)) P.
Proof.
  intros HP s cl u Hr Hok Hp Hu _. apply swp_bind. eapply swp_load; [done|]. apply swp_ret. split; [done|].
  apply kept_refl; [apply user_rel_refl|done..].
Qed.
Lemma K_load p {A} (k : user_t → C A) : (∀ u, quiet u → KAt p u (k u)) → K p (node_load p ≫= k).
Proof. intros Hk s cl u Hr Hok Hp Hu Hq. apply swp_bind. eapply swp_load; [done|]. by apply Hk. Qed.
Lemma KAt_load p u {A} (k : user_t → C A) : KAt p u (k u) → KAt p u (node_load p ≫= k).
Proof. intros Hk s cl Hr Hok Hp Hu Hq. apply swp_bind. eapply swp_load; [done|]. by apply Hk. Qed.
Lemma KAt_ret p u {A B} (a : A) (k : A → C B) : KAt p u (k a) → KAt p u (mret a ≫= k).
Proof. intros Hk. exact Hk. Qed.
Lemma store_kept s cl p u u' : rep s cl → desc_ok (cs_desc s) → cs_users s !! p = Some u → p ∈ cl.*1 → u_next u' = u_next u → user_rel u u' →
  kept max_fd user_rel s cl (set_users (<[p := u']> (cs_users s)) s).
Proof.
  intros Hr Hok Hu Hp Hn HR. split; [|done]. exists (put_body p (body u') <$> cl). split; [by apply (rep_store s cl p u u')|].
  destruct (rep_elem s cl p Hr Hp) as (u0 & Hu0 & Hin & _). rewrite Hu in Hu0. injection Hu0 as <-.
  apply (put_related p (body u)); [by eapply rep_nodup|done|by apply user_rel_body].
Qed.
Lemma KAt_store p u u' {A} (k : unit → C A) : u_next u' = u_next u → user_rel u u' → KAt p u' (k tt) → KAt p u (node_store p u' ≫= k).
Proof.
  intros Hn HR Hk s cl Hr Hok Hp Hu Hq. apply swp_bind. eapply swp_store; [done|].
  pose proof (store_kept s cl p u u' Hr Hok Hu Hp Hn HR) as Hkept. set (s1 := set_users _ s) in *.
  pose proof Hkept as ((cl1 & Hr1 & Hrel1) & Hok1 & _). eapply swp_mono.
  - apply (Hk s1 cl1 Hr1 Hok1); [by rewrite (related_fst _ _ _ Hrel1)|apply lookup_insert_eq|]. by apply (quiet_rel u).
  - intros b s2 Hk2. eapply kept_trans; [exact Hkept|exact Hrel1|exact Hk2].
Qed.
Lemma KAt_store_end p u u' : u_next u' = u_next u → user_rel u u' → KAt p u (node_store p u').
Proof. intros Hn HR s cl Hr Hok Hp Hu Hq. eapply swp_store; [done|]. by apply (store_kept s cl p u u'). Qed.
Lemma K_update p (f : user_t → user_t) : (∀ u, u_next (f u) = u_next u) → (∀ u, user_rel u (f u)) → K p (u ← node_load p; node_store p (f u)).
Proof. intros Hn HR. apply K_load. intros u _. by apply KAt_store_end. Qed.
End keep.

Lemma u_rel_sess `{Double} x u : user_rel u (u_set_sess x u).
Proof. split; [done|]. by repeat constructor. Qed.
Lemma flag_rel `{Double} u flags : (∀ b, b ∈ [USER_CLIENT; USER_REMOTE; USER_SYNC; USER_RPC] → has_flag flags b = has_flag (u_flags u) b) → user_rel u (u_set_flags flags u).
Proof. intros Hf. split; [done|]. apply Forall_forall. exact Hf. Qed.
Lemma or_flag_rel `{Double} u k : (k = USER_SUBSCRIBE ∨ k = USER_EXTRANONCE) → user_rel u (u_set_flags (Z.lor (u_flags u) k) u).
Proof.
  intros Hk. apply flag_rel. intros b Hb. unfold has_flag. rewrite Z.land_lor_distr_l.
  assert (Z.land k b = 0) as ->; [|by rewrite Z.lor_0_r].
  repeat (apply elem_of_cons in Hb as [->|Hb]; [by destruct Hk as [->| ->]|]). by apply not_elem_of_nil in Hb.
Qed.

(** ** The protocol *)
(** What the server promises: its texts are JSON, it has a text for every
    error, and its work factors are not zero. *)
Class ServerOk `{Real} `{Double} `{Heap} `{!Server} : Prop := {
  so_text c t : sv_text c = Some t → ∃ j, shjson_Parse t = Ok j;
  so_error i : is_Some (sv_text (stratum_error_get i));
  so_rpc b i j : rwp false (shjson_init (sv_rpc b i j).2) (λ _, True);
  so_factor a : sv_factor a ≠ 0;
}.

Lemma result_wf : jwf (VObj [(bytes "result", VBool true); (bytes "error", VNull)]) ∧ jwf (VObj [(bytes "result", VNull); (bytes "error", VNull)]).
Proof. cbn. repeat split; vm_compute; set_solver. Qed.

Section proto.
Context `{RealOk} `{Double} `{HeapOk} `{!Server} `{!ServerOk} (max_fd : Z) (shaddr : Z → option sockaddr).
Context (Hall : ∀ fd, is_Some (shaddr fd)).
Abbreviation C := (SM (cst user_t)).
#[local] Abbreviation K := (K max_fd).
#[local] Abbreviation KAt := (KAt max_fd).

Lemma K_res p {A} (r : res A) : rwp false r (λ _, True) → K p (lift_res r : C _).
Proof. intros Hr. unfold lift_res. destruct r; try done; apply K_ret. Qed.
Lemma new_reply_eq {N} : new_reply (N := N) = mret (item None SHJSON_OBJECT).
Proof. unfold new_reply, shjson_init. by rewrite heap_always. Qed.
Lemma create_array_eq : shjson_CreateArray = Some (item None SHJSON_ARRAY).
Proof. unfold shjson_CreateArray, create, shjson_New_Item. by rewrite heap_always. Qed.
Lemma array_with_eq {N} t name items : array_with (N := N) t name items = mret (add_name t name (Some (items (item None SHJSON_ARRAY)))).
Proof. unfold array_with. by rewrite create_array_eq. Qed.
Lemma K_send_line p fd id msg : 0 ≤ fd → K p (send_line max_fd fd id msg : C _).
Proof.
  intros Hfd. unfold send_line. apply K_bind; [apply K_res, print_safe|]. intros text. apply K_bind; [|intros; apply K_ret].
  destruct text as [text|]; [|apply K_ret]. apply K_bind; [|intros _]; apply K_of_keeps; by apply (write_keeps max_fd user_rel user_rel_refl).
Qed.
Lemma K_send p msg : K p (stratum_send_message max_fd p msg).
Proof.
  unfold stratum_send_message. apply K_load. intros u [_ Hf]. apply KAt_of_K. destruct (has_flag _ _); [apply K_ret|].
  destruct (Z.eqb_spec (u_fd u) (-1)); [apply K_ret|]. apply K_send_line. lia.
Qed.
Lemma K_sess p f : K p (sess_mod p f).
Proof. apply K_update; [done|]. intros u. apply u_rel_sess. Qed.
Lemma K_new p : K p (new_reply : C _).
Proof. rewrite new_reply_eq. apply K_ret. Qed.
Lemma K_array p t name items : K p (array_with t name items : C _).
Proof. rewrite array_with_eq. apply K_ret. Qed.
Lemma K_error p t code str : K p (set_stratum_error t code str : C _).
Proof. apply K_array. Qed.
Lemma K_deref p {A} (o : option A) : is_Some o → K p (deref o : C _).
Proof. intros [a ->]. apply K_ret. Qed.
Lemma K_some p {A B} (a : A) (k : A → C B) : K p (k a) → K p (deref (Some a) ≫= k).
Proof. intros Hk. exact Hk. Qed.
Lemma K_user p name : K p (stratum_user shaddr p name).
Proof. apply K_of_keeps. by apply stratum_user_keeps. Qed.
Ltac kk := repeat first
  [ apply K_ret | apply K_send | apply K_sess | apply K_new | apply K_error | apply K_array | apply K_user
  | apply K_load; intros ? _ | apply K_bind; [|intros ?] | apply KAt_of_K ].

(** *** Difficulty and shares *)
Lemma K_send_difficulty p : K p (stratum_send_difficulty max_fd p).
Proof. unfold stratum_send_difficulty. kk. Qed.
Lemma K_set_difficulty p d : K p (stratum_set_difficulty max_fd p d).
Proof. unfold stratum_set_difficulty. cbv zeta. apply K_bind; [apply K_sess|intros _; apply K_send_difficulty]. Qed.
Lemma K_user_block p t share : K p (stratum_user_block max_fd t p share).
Proof.
  unfold stratum_user_block. apply K_load. intros u _.
  destruct (negb (feqb share f_inf)); [apply KAt_store; [done|split; [done|by repeat constructor]|]|apply KAt_ret].
  all: apply KAt_of_K, K_load; intros u' _; apply KAt_of_K, K_bind; [|intros _; apply K_sess].
  all: destruct (negb _); [|apply K_ret]; apply K_bind; [apply K_sess|intros _].
  all: destruct (fltb _ (f_of 1)); [|destruct (fltb (f_of 30) _); [|apply K_ret]];
    (destruct (_ <? _); [|apply K_ret]); (apply K_bind; [apply K_set_difficulty|intros; apply K_ret]).
Qed.
(** What a request to submit a share must have. *)
Definition submit_ok (json : shjson_t) : Prop :=
  let param := shjson_array_astr json (Some (bytes "params")) in
  param 1 = None ∨ (is_Some (param 0) ∧ is_Some (param 3) ∧ is_Some (param 4) ∧ ∃ xn, param 2 = Some xn ∧ zlen xn < 256).
Lemma K_validate p t json : submit_ok json → K p (stratum_validate_submit max_fd shaddr t p json).
Proof.
  intros Hok. unfold stratum_validate_submit. cbv zeta. destruct (shjson_array_astr json _ 1) as [job|] eqn:Ej; [|apply K_ret].
  destruct Hok as [Hn|(H0' & H3' & H4' & xn & Exn & Hxn)]; [congruence|].
  apply K_bind; [by apply K_deref|intros ntime]. apply K_bind; [by apply K_deref|intros nonce]. apply K_bind; [by apply K_deref|intros worker].
  apply K_bind; [apply K_user|intros _]. rewrite Exn. apply K_some.
  apply K_bind; [unfold fits_array; rewrite (proj2 (Z.ltb_lt _ _) Hxn); apply K_ret|intros _].
  destruct (sv_submit _ _ _ _) as [[err hash] share]. destruct (negb _); [apply K_ret|]. apply K_load. intros u _. apply KAt_of_K.
  destruct (_ && _); [apply K_ret|]. apply K_bind; [apply K_user_block|intros _]. apply K_load. intros u' _.
  destruct (_ && _); [|apply KAt_ret, KAt_of_K, K_ret].
  apply KAt_bind; [|intros; apply K_ret]. apply KAt_store; [done|split; [done|by repeat constructor]|]. apply KAt_of_K, K_sess.
Qed.

(** *** Accounts *)
Definition answer (text : option (list byte)) : Prop := ∃ c, text = sv_text c.
Lemma KR_json p text : answer text → KR max_fd p (stratum_json text : C _) (λ o, is_Some text → is_Some o).
Proof.
  intros [c ->]. unfold stratum_json. destruct (sv_text c) as [t|] eqn:Et; [|apply KR_ret; by intros [? ?]].
  destruct (so_text c t Et) as [j Hj]. rewrite strdup_ok. unfold shjson_init. rewrite Hj. by apply KR_ret.
Qed.
Lemma KR_error p : KR max_fd p (error_text p : C _) (λ t, answer t ∧ is_Some t).
Proof. apply KR_load. intros u. split; [by eexists|apply so_error]. Qed.
Lemma K_generic p : K p (stratum_generic_error : C _).
Proof. unfold stratum_generic_error. kk. Qed.
Lemma K_account p iface c : K p (account_reply max_fd iface p c).
Proof.
  unfold account_reply. apply K_bind.
  - destruct c as [c|]; [|apply K_ret]. destruct (coin_enabled _ _); [|apply K_ret]. apply (KR_bind _ _ _ _ answer).
    + destruct (sv_text c) as [t|] eqn:Et; [apply KR_ret; by exists c|]. intros s cl u Hr Hok Hp Hu Hq.
      eapply swp_mono; [by eapply (KR_error p)|]. intros a s' [[Ha _] Hk]. done.
    + intros text Ht. apply (KR_K _ _ _ _ (KR_json p text Ht)).
  - intros reply. kk. destruct reply; [apply K_ret|apply K_generic].
Qed.
Lemma K_private p c : K p (private_reply p c : C _).
Proof.
  unfold private_reply. destruct c as [c|]; [|apply K_generic]. apply (KR_bind _ _ _ _ _ (KR_json p (sv_text c) ltac:(by eexists))).
  intros [r|] _; [apply K_ret|]. apply (KR_bind _ _ _ _ _ (KR_error p)). intros text [Ha Ht]. apply (KR_bind _ _ _ _ _ (KR_json p text Ha)).
  intros o Ho. apply K_deref. auto.
Qed.
Lemma K_private_request p c : K p (private_request max_fd p c).
Proof. unfold private_request. apply K_bind; [apply K_private|intros; apply K_send]. Qed.

(** *** Requests *)
Lemma result_true_text : result_true = jtext false 0 (VObj [(bytes "result", VBool true); (bytes "error", VNull)]).
Proof. reflexivity. Qed.
Lemma result_null_text : result_null = jtext false 0 (VObj [(bytes "result", VNull); (bytes "error", VNull)]).
Proof. reflexivity. Qed.
Lemma text_parses fmt v : jwf v → shjson_init (Some (jtext fmt 0 v)) = Ok (tree None v).
Proof. intros Hv. unfold shjson_init. by apply print_parse. Qed.
Lemma K_command p iface method param : K p (stratum_command_api max_fd iface p method param).
Proof.
  unfold stratum_command_api. destruct (negb _); [apply K_ret|]. destruct (List.find _ _) as [[n f]|]; [|apply K_ret].
  apply K_bind.
  - destruct f; [apply K_ret| |apply K_ret]. apply K_load. intros u _. apply KAt_store; [done|by apply or_flag_rel; right|]. apply KAt_of_K, K_ret.
  - intros [err reply]. apply K_bind; [|intros; kk]. destruct (negb _); [kk|]. destruct reply; [apply K_ret|].
    rewrite result_true_text, text_parses by apply result_wf. apply K_some, K_ret.
Qed.
Lemma K_text p text : answer text ∨ text = Some result_null → K p (send_text max_fd p text).
Proof.
  intros Ht. unfold send_text. apply K_bind; [|intros; apply K_send]. destruct text as [t|]; [|unfold error_reply; kk].
  assert (∃ j, shjson_init (Some t) = Ok j) as [j ->].
  { destruct Ht as [[c Hc]|[= ->]]; [by apply (so_text c)|]. rewrite result_null_text, text_parses by apply result_wf. eauto. }
  apply K_some, K_ret.
Qed.
Lemma K_rpc p iface json : K p (req_rpc max_fd iface p json).
Proof.
  unfold req_rpc. apply K_load. intros u [Hq _]. apply KAt_of_K. rewrite Hq. pose proof (so_rpc false iface json) as Hj.
  destruct (sv_rpc false iface json) as [err text]. cbn [snd] in Hj. destruct (negb _); [unfold error_reply; kk|].
  apply K_bind; [by apply K_res|]. intros [reply|]; [|apply K_ret]. cbn [andb]. kk.
Qed.
Context (q : req_env).
Lemma K_subscribe p : K p (req_subscribe max_fd q p).
Proof.
  unfold req_subscribe, stratum_subscribe, stratum_send_subscribe. rewrite create_array_eq. kk.
  - destruct (_ =? 0); [|apply K_ret]. apply K_update; [done|]. intros u. apply or_flag_rel. by left.
  - destruct (_ =? 0); [|apply K_ret]. apply K_load. intros u _. apply KAt_of_K.
    rewrite (proj2 (Z.eqb_neq _ _) (so_factor (u_alg u))). apply K_bind; [apply K_set_difficulty|intros; apply K_ret].
Qed.
Lemma K_authorize p json : K p (req_authorize max_fd shaddr q p json).
Proof.
  unfold req_authorize. cbv zeta. apply K_bind; [destruct (take _ _); [apply K_ret|apply K_user]|intros t]. destruct (t =? 0); [kk|].
  unfold ok_reply, stratum_send_client_ver. kk.
Qed.
Lemma K_resume p json : is_Some (shjson_array_astr json (Some (bytes "params")) 0) → K p (req_resume max_fd q p json).
Proof.
  intros Hs. unfold req_resume. apply K_bind; [by apply K_deref|intros id]. destruct (negb _); [unfold stratum_send_error|unfold ok_reply]; kk.
Qed.
Lemma K_submit p json : submit_ok json → K p (req_submit max_fd shaddr q p json).
Proof.
  intros Hs. unfold req_submit. apply K_bind; [by apply K_validate|intros err]. apply K_bind; [destruct (err =? 0); [unfold ok_reply|]; kk|intros r].
  apply K_bind; [apply K_send|intros _]. apply K_bind; [|intros; apply K_ret]. destruct (_ =? _); [apply K_send_difficulty|apply K_ret].
Qed.
Lemma K_block_info p iface json : K p (req_block_info max_fd iface p json).
Proof.
  unfold req_block_info. cbv zeta. apply K_text. destruct (_ =? 1); [destruct (shjson_array_astr _ _ _); [left; by eexists|by right]|].
  destruct (_ =? 2); [destruct (shjson_array_astr _ _ _); [left; by eexists|by right]|]. destruct (_ =? 3); [left; by eexists|by right].
Qed.
Lemma K_mining_info p iface : K p (req_mining_info max_fd iface p).
Proof.
  unfold req_mining_info. apply K_bind.
  - apply K_res. destruct (sv_text _) as [t|] eqn:Et; [|unfold shjson_init; by rewrite heap_always]. apply so_text in Et as [j Hj].
    unfold shjson_init. by rewrite Hj.
  - intros [r|]; kk.
Qed.
Lemma K_fold p {A} (f : A → user_t → A) acc : (∀ a n z, f a (u_set_next z n) = f a n) → K p (on_list (λ fuel, fold_nodes fuel f acc) : C _).
Proof.
  intros Hf s cl u Hr Hok Hp Hu Hq. eapply swp_mono; [by apply (fold_list_spec f acc s cl)|]. intros a s' [-> _]. apply kept_refl; [apply user_rel_refl|done..].
Qed.
Lemma row_some u : is_Some (share_row u).
Proof. unfold share_row. rewrite create_array_eq. by eexists. Qed.
Lemma shares_some l acc : is_Some acc → is_Some (foldl share_add acc l).
Proof.
  revert acc. induction l as [|u l IH]; intros acc [t ->]; [by eexists|]. cbn [foldl]. apply IH. cbn [share_add mbind option_bind].
  destruct (_ || _); [by eexists|]. destruct (row_some u) as [row ->]. by eexists.
Qed.
Lemma nodes_some now rounds miners speed : is_Some (round_nodes now rounds miners speed).
Proof.
  unfold round_nodes. rewrite create_array_eq. assert (∀ idx, is_Some (round_node now rounds miners speed idx)) as Hn.
  { intros idx. unfold round_node, shjson_CreateObject, create. rewrite new_item_ok. by eexists. }
  generalize (seq 0 MAX_ROUNDS_PER_HOUR). intros l. assert (is_Some (Some (item None SHJSON_ARRAY))) as Ha by (by eexists). revert Ha.
  generalize (Some (item None SHJSON_ARRAY)). induction l as [|i l IH]; intros acc [t ->]; [by eexists|]. cbn [foldl]. apply IH.
  cbn [mbind option_bind]. destruct (Hn i) as [node ->]. by eexists.
Qed.
Lemma K_shares p : K p (req_shares max_fd p).
Proof.
  unfold req_shares. apply K_bind; [apply K_new|intros reply]. apply (KR_bind _ _ _ _ is_Some).
  - intros s cl u Hr Hok Hp Hu Hq. eapply swp_mono; [by apply (fold_list_spec share_add _ s cl)|]. intros a s' [-> ->]. split.
    + apply shares_some. rewrite create_array_eq. by eexists.
    + apply kept_refl; [apply user_rel_refl|done..].
  - intros data Hd. apply K_bind; [by apply K_deref|intros; apply K_send].
Qed.
Lemma K_rounds_loop p hour idxs acc : K p (rounds_loop hour idxs acc).
Proof. revert acc. induction idxs as [|i idxs IH]; intros acc; [apply K_ret|]. cbn [rounds_loop]. apply K_bind; [by apply K_fold|done]. Qed.
Lemma K_rounds p : K p (req_rounds max_fd q p).
Proof.
  unfold req_rounds, getminingroundsinfo. apply K_bind; [|intros; apply K_send]. apply K_bind; [apply K_new|intros reply]. cbv zeta.
  apply K_bind; [apply K_rounds_loop|intros [rounds miners]]. apply K_bind; [by apply K_fold|intros speed].
  apply K_bind; [apply K_deref, nodes_some|intros; apply K_ret].
Qed.
Lemma K_tx p iface a k : K p (stratum_request_account_tx max_fd iface p a k).
Proof. unfold stratum_request_account_tx. apply K_load. intros u _. apply KAt_of_K, K_bind; [apply K_private|intros; apply K_send]. Qed.

(** A request that names a method the way the code expects it. *)
Definition request_ok (json : shjson_t) : Prop := ∀ m, shjson_astr (Some json) (Some (bytes "method")) None = Some m →
  m ≠ bytes "stratum.elevate" ∧ (m = bytes "mining.resume" → is_Some (shjson_array_astr json (Some (bytes "params")) 0)) ∧
  (m = bytes "mining.submit" → submit_ok json).
Lemma K_dispatch p iface json m : shjson_astr (Some json) (Some (bytes "method")) None = Some m → request_ok json →
  K p (stratum_dispatch max_fd shaddr q iface p json m).
Proof.
  intros Hm Hok. destruct (Hok m Hm) as (He & Hres & Hsub).
  assert (Forall (λ e, e.1 = m → K p e.2) (method_table max_fd shaddr q iface p json)) as HF.
  { unfold method_table. cbv zeta. repeat (apply Forall_cons; split; [intros Em; cbn [fst snd] in *|]); [..|constructor].
    all: first [ by destruct He | apply K_send | apply K_subscribe | apply K_authorize | apply K_resume; by apply Hres | apply K_submit; by apply Hsub
      | apply K_mining_info | apply K_shares | apply K_rounds | apply K_text; left; by eexists | apply K_block_info | apply K_tx | apply K_account | apply K_private_request
      | unfold req_ping; kk ]. }
  unfold stratum_dispatch. destruct (List.find _ _) as [[n f]|] eqn:Ef.
  - apply List.find_some in Ef as [Hin Hn%bool_decide_eq_true]. rewrite List.Forall_forall in HF. by apply (HF _ Hin).
  - destruct (bool_decide _).
    + destruct (sv_api _ _ _ _); [kk|apply K_ret].
    + apply K_bind; [apply K_command|intros err]. destruct (negb _); [apply K_ret|apply K_rpc].
Qed.
Lemma K_request p json : request_ok json → K p (stratum_request_message max_fd shaddr q p json).
Proof.
  intros Hok. unfold stratum_request_message. apply K_bind; [apply K_sess|intros _]. apply K_load. intros u [Hq _]. apply KAt_of_K.
  destruct (_ && _); [kk|]. cbv zeta. destruct (shjson_astr _ _ None) as [m|] eqn:Em; [|apply K_ret].
  rewrite Hq. by apply K_dispatch.
Qed.
End proto.
