(* ===== verification/StratumReply.v ===== *)
(** * The stratum protocol: replies

    What a reply puts into the write queue, and that it carries the identifier
    of its request. *)

From S2P Require Import Prelude Errors Shbuf Descriptor Crc Sha Hmac Key Opt Links ShmapSpec ShmapInv OptSpec Clients Services ClientsSpec ClientsServe ServSpec Json JsonTree JsonSafe JsonSpec JsonPrint JsonMap Codec Stratum StratumSpec.

(** A decidable proposition on closed terms. *)
Ltac compute_dec := apply (bool_decide_unpack _); vm_compute; exact I.

(** ** Write queues *)
Definition wdata (d : desc_t) : list byte := default [] (d_wbuff d ≫= data).
(** A connection whose write queue holds [w], with room for [n] bytes. *)
Record open_conn (max_fd : Z) (dt : dtab) (fd : Z) (w : list byte) (n : Z) : Prop := {
  oc_fd : 0 ≤ fd < max_fd;
  oc_flag : d_flag (dt_slot (dt_alloc dt) fd) ≠ 0;
  oc_service : has_flag (d_flag (dt_slot (dt_alloc dt) fd)) DF_SERVICE = true;
  oc_wf : ∀ b, d_wbuff (dt_slot (dt_alloc dt) fd) = Some b → shbuf_wf b;
  oc_data : wdata (dt_slot (dt_alloc dt) fd) = w;
  oc_room : zlen w + n + 1 < 2 ^ 31 - 32768;
}.
(** Only that descriptor changes. *)
Definition others (dt dt' : dtab) (fd : Z) : Prop := ∀ fd', fd' ≠ fd → dt_slot (dt_alloc dt') fd' = dt_slot (dt_alloc dt) fd'.

Lemma wbuff_add_spec `{HeapOk} max_fd dt fd w n bs : desc_ok dt → open_conn max_fd dt fd w n → zlen bs ≤ n → bs ≠ [] →
  ∃ dt', descriptor_wbuff_add max_fd fd bs dt = Some dt' ∧ desc_ok dt' ∧ open_conn max_fd dt' fd (w ++ bs) (n - zlen bs) ∧ others dt dt' fd.
Proof.
  intros Hok [[Hf0 Hfd] Hfl Hsv Hwf Hw Hroom] Hn Hbs. destruct (wbuff_add_ok max_fd fd bs dt Hf0 Hok) as (dt' & Hdt & Hok' & _). exists dt'. split; [done|]. split; [done|].
  assert (0 < zlen bs) by (destruct bs; [done|cbn; lia]).
  unfold descriptor_wbuff_add in Hdt. rewrite (proj2 (Z.leb_gt _ _) Hfd), (proj2 (Z.leb_gt _ _)), (proj2 (Z.ltb_ge fd 0) Hf0) in Hdt by lia. destruct Hok as [[t Ht] _].
  assert (dt_slot t fd = dt_slot (dt_alloc dt) fd) as Es by (unfold dt_alloc; by rewrite Ht). rewrite Ht, Es in Hdt.
  rewrite (proj2 (Z.eqb_neq _ _) Hfl) in Hdt. injection Hdt as <-. set (d := dt_slot (dt_alloc dt) fd) in *.
  set (b := default shbuf_init (d_wbuff d)). assert (shbuf_wf b ∧ default [] (data b) = w) as [Hb Hbw].
  { unfold b, wdata in *. destruct (d_wbuff d) as [b0|] eqn:E; [split; [by apply Hwf|done]|]. split; [apply shbuf_init_wf|done]. }
  assert (zlen w = data_of b) as Hlen by (rewrite <-Hbw; unfold data_of; by destruct (data b)).
  split; [|intros fd' Hne; rewrite dt_put_slot; by rewrite decide_False by congruence].
  split; rewrite ?dt_put_slot, ?decide_True by done; cbn [d_flag d_wbuff]; try done.
  - intros b' [= <-]. apply shbuf_cat_wf; [done|]. lia.
  - unfold wdata. cbn [d_wbuff]. cbn. rewrite shbuf_cat_data; [by rewrite Hbw|done|lia|apply heap_always].
  - rewrite length_app. lia.
Qed.

Section write.
Context {N : Type} `{Client N} `{HeapOk} (max_fd : Z).
Implicit Type s : cst N.
(** After [bs] was written to the connection. *)
Definition wrote (fd : Z) (w : list byte) (n : Z) (bs : list byte) s s' : Prop :=
  cs_users s' = cs_users s ∧ cs_brk s' = cs_brk s ∧ cs_list s' = cs_list s ∧
  desc_ok (cs_desc s') ∧ open_conn max_fd (cs_desc s') fd (w ++ bs) (n - zlen bs) ∧ others (cs_desc s) (cs_desc s') fd.
Lemma write_spec s fd w n bs : desc_ok (cs_desc s) → open_conn max_fd (cs_desc s) fd w n → zlen bs ≤ n → bs ≠ [] →
  swp (write_fd max_fd fd bs) s (λ _ s', wrote fd w n bs s s').
Proof.
  intros Hok Hoc Hn Hbs. destruct (wbuff_add_spec max_fd (cs_desc s) fd w n bs Hok Hoc Hn Hbs) as (dt & Hdt & Hok' & Hoc' & Hot).
  unfold write_fd. rewrite (proj2 (Z.eqb_neq _ _)) by (destruct bs; [done|cbn; lia]).
  assert (descriptor_get max_fd fd (cs_desc s) = Some (Some (dt_slot (dt_alloc (cs_desc s)) fd))) as Hg.
  { unfold descriptor_get, dt_alloc. destruct (oc_fd _ _ _ _ _ Hoc) as [Hf0 Hfd]. rewrite (proj2 (Z.leb_gt _ _) Hfd), (proj2 (Z.ltb_ge _ _) Hf0). destruct Hok as [[t Ht] _]. pose proof (oc_flag _ _ _ _ _ Hoc) as Hf.
    unfold dt_alloc in Hf. rewrite Ht in *. cbn in *. by rewrite (proj2 (Z.eqb_neq _ _) Hf). }
  apply swp_bind. eapply swp_opt; [exact Hg|]. cbv beta iota. rewrite (oc_service _ _ _ _ _ Hoc). cbn [negb].
  apply swp_bind. eapply swp_opt; [exact Hdt|]. apply swp_mod. done.
Qed.
Lemma wrote_trans fd w n b1 b2 s s1 s2 : wrote fd w n b1 s s1 → wrote fd (w ++ b1) (n - zlen b1) b2 s1 s2 → wrote fd w n (b1 ++ b2) s s2.
Proof.
  intros (Hu & Hb & Hl & _ & _ & Ho) (Hu' & Hb' & Hl' & Hok & Hoc & Ho'). split_and!; try congruence; try done.
  - rewrite length_app, Nat2Z.inj_add, (assoc_L (++)). replace (n - (zlen b1 + zlen b2)) with (n - zlen b1 - zlen b2) by lia. done.
  - intros fd' Hne. rewrite Ho', Ho by done. done.
Qed.
Context `{RealOk}.
Lemma send_spec s fd w n id msg v : desc_ok (cs_desc s) → value_of (reply_id id msg) = Some v → jwf v →
  let text := jtext false 0 v ++ [x0a] in
  open_conn max_fd (cs_desc s) fd w n → zlen text ≤ n → swp (send_line max_fd fd id msg) s (λ r s', r = 0 ∧ wrote fd w n text s s').
Proof.
  intros Hok Hv Hwf text Hoc Hn. subst text. rewrite length_app in Hn. cbn [length] in Hn. unfold send_line.
  rewrite (value_prints false v Hwf 0 _ Hv : shjson_print _ = _). cbn [lift_res]. apply swp_bind, swp_ret. apply swp_bind.
  destruct (jtext_starts false 0 v) as (c & r & Ec & _).
  apply swp_bind. eapply swp_mono; [apply (write_spec s fd w n (jtext false 0 v) Hok Hoc); [lia|by rewrite Ec]|]. intros ? s1 Hw1.
  eapply swp_mono; [apply (write_spec s1 fd (w ++ jtext false 0 v) (n - zlen (jtext false 0 v)) [x0a]); [apply Hw1|apply Hw1|cbn; lia|done]|].
  intros ? s2 Hw2. apply swp_ret. split; [done|]. exact (wrote_trans _ _ _ _ _ _ _ _ Hw1 Hw2).
Qed.
End write.

(** ** Messages *)
Section msg.
Context `{RealOk} `{HeapOk}.
(** The item is an object with these members. *)
Definition holds (t : shjson_t) (l : list (list byte * jval)) : Prop :=
  j_type t = SHJSON_OBJECT ∧ Forall2 (λ c e, copy_of (Some e.1) e.2 c) (j_child t) l.
Lemma holds_value t l : holds t l → value_of t = Some (VObj l).
Proof.
  destruct t as [ty vs vi vd nm cs]. intros [Hty Hcs]. cbn in *. subst ty. cbn.
  rewrite (proj2 (collect_Forall2 (λ c, v ← value_of c; Some (default [] (j_string c), v)) cs l)); [done|].
  eapply Forall2_impl; [exact Hcs|]. intros c [n v] [Hv Hn]. cbn in *. by rewrite Hv, Hn.
Qed.
Lemma holds_entries t l : holds t l → (entries (j_child t)).*1 = fold_name <$> l.*1.
Proof.
  intros [_ Hcs]. unfold entries, entry. induction Hcs as [|c e cs l [_ Hn] Hcs IH]; [done|]. cbn [omap list_omap]. rewrite Hn. cbn. f_equal. exact IH.
Qed.
Definition fresh (n : list byte) (l : list (list byte * jval)) : Prop := fold_name n ∉ fold_name <$> l.*1.
Lemma holds_new : holds (item None SHJSON_OBJECT) [].
Proof. split; [done|constructor]. Qed.
Lemma holds_snoc t l n v c : holds t l → copy_of (Some n) v c → holds (set_child (j_child t ++ [c]) t) (l ++ [(n, v)]).
Proof. intros [Ht Hcs] Hc. split; [done|]. apply Forall2_app; [done|]. constructor; [done|constructor]. Qed.
Lemma holds_leaf t l n v o i : holds t l → fresh n l → o = Some i → value_of i = Some v → j_string i = None →
  holds (add_name (del_name t (Some n)) (Some n) o) (l ++ [(n, v)]).
Proof.
  intros Ht Hf Ho Hv Hs. destruct (leaf_copies v (Some n) t o i) as (c & Ec & Hc); [|done..|].
  - intros n' [= <-]. by rewrite (holds_entries t l Ht).
  - assert (add_name (del_name t (Some n)) (Some n) o = set_child (j_child t ++ [c]) t) as -> by congruence. by apply holds_snoc.
Qed.
Lemma holds_null t l n : holds t l → fresh n l → holds (shjson_null_add t (Some n)) (l ++ [(n, VNull)]).
Proof. intros Ht Hf. eapply holds_leaf; [done|done|unfold shjson_CreateNull, create; by rewrite new_item_ok|done|done]. Qed.
Lemma holds_bool t l n b : holds t l → fresh n l → holds (shjson_bool_add t (Some n) b) (l ++ [(n, VBool b)]).
Proof.
  intros Ht Hf. eapply holds_leaf; [done|done|unfold shjson_CreateBool, create; by rewrite new_item_ok| |done]. by destruct b.
Qed.
Lemma holds_num t l n z : holds t l → fresh n l → - 2 ^ 31 ≤ z < 2 ^ 31 → holds (shjson_num_add t (Some n) (r_of z)) (l ++ [(n, VNum z)]).
Proof.
  intros Ht Hf Hz. eapply holds_leaf; [done|done|unfold shjson_CreateNumber; by rewrite new_item_ok| |done]. cbn. by rewrite real_int, real_near.
Qed.
Lemma holds_str t l n s : holds t l → fresh n l → holds (shjson_str_add t (Some n) (Some s)) (l ++ [(n, VStr s)]).
Proof. intros Ht Hf. eapply holds_leaf; [done|done|unfold shjson_CreateString; by rewrite new_item_ok, strdup_ok|done|done]. Qed.
Lemma holds_array t l n a v : holds t l → value_of a = Some v → j_string a = None → holds (add_name t (Some n) (Some a)) (l ++ [(n, v)]).
Proof. intros Ht Hv Hs. destruct (add_copy t (Some n) v a Hv Hs) as (c & -> & Hc). by apply holds_snoc. Qed.
Lemma error_value code str : - 2 ^ 31 ≤ code < 2 ^ 31 →
  value_of (shjson_null_add (shjson_str_add (shjson_num_add (item None SHJSON_ARRAY) None (r_of code)) None (Some str)) None) =
  Some (VArr [VNum code; VStr str; VNull]).
Proof.
  intros Hc. unfold shjson_null_add, shjson_str_add, shjson_num_add, shjson_CreateNull, shjson_CreateString, shjson_CreateNumber, create.
  rewrite !new_item_ok, strdup_ok. cbn. by rewrite real_int, (real_near code).
Qed.
Lemma error_holds {N} t l code str (k : shjson_t → SM (cst N) Z) s Q : holds t l → - 2 ^ 31 ≤ code < 2 ^ 31 →
  (∀ t', holds t' (l ++ [(bytes "error", VArr [VNum code; VStr str; VNull])]) → swp (k t') s Q) → swp (set_stratum_error t code str ≫= k) s Q.
Proof.
  intros Ht Hc Hk. unfold set_stratum_error. rewrite array_with_eq. apply swp_bind, swp_ret, Hk. apply holds_array; [done|by apply error_value|].
  unfold shjson_null_add, shjson_str_add, shjson_num_add, shjson_CreateNull, shjson_CreateString, shjson_CreateNumber, create.
  by rewrite !new_item_ok, strdup_ok.
Qed.

(** ** Identifiers *)
(** The value of a member, names compared without case. *)
Definition member (n : list byte) (l : list (list byte * jval)) : option jval := snd <$> List.find (λ e, strcasecmp e.1 n) l.
(** What the identifier of a request becomes in the reply. *)
Inductive echoes : option jval → jval → Prop :=
  | echo_num z : 0 < z < 2 ^ 31 → echoes (Some (VNum z)) (VNum z)
  | echo_str t : t ≠ [] → zlen t ≤ 255 → atoi t = 0 → echoes (Some (VStr t)) (VStr t)
  | echo_digits t z : t ≠ [] → zlen t ≤ 255 → atoi t = z → 0 < z → echoes (Some (VStr t)) (VNum z)
  | echo_null o : o ∈ [None; Some VNull; Some (VNum 0); Some (VStr [])] → echoes o VNull.
Lemma get_member n l : shjson_GetObjectItem (tree None (VObj l)) n = (λ e, tree (Some e.1) e.2) <$> List.find (λ e, strcasecmp e.1 n) l.
Proof.
  unfold shjson_GetObjectItem. cbn [tree j_child]. induction l as [|e l IH]; [done|]. cbn [fmap list_fmap List.find]. unfold has_name at 1. rewrite tree_name.
  destruct (strcasecmp e.1 n); [done|apply IH].
Qed.
Lemma dval_read ds a : Forall (λ c, is_digit c = true) ds → dec_read a ds = dval ds a.
Proof.
  intros Hd. revert a. induction Hd as [|c ds Hc Hd IH]; intros a; [done|]. cbn [dec_read]. unfold dval. cbn [foldl].
  unfold digit. unfold is_digit in Hc. rewrite Hc. apply IH.
Qed.
Lemma atoi_dec z : 0 < z < 2 ^ 31 → atoi (dec z) = z.
Proof.
  intros Hz. destruct (dec_spec z) as (ds & -> & [[Hd (c & r & -> & _) Hv _]|[-> _]]); [|lia].
  rewrite (proj2 (Z.ltb_ge z 0)) by lia. cbn [only app]. rewrite Z.abs_eq in Hv by lia.
  assert (isspace c = false ∧ c ≠ chr 45 ∧ c ≠ chr 43) as (Hsp & Hm & Hp).
  { apply Forall_cons in Hd as [Hc _]. destruct c; try done. all: split_and!; by vm_compute. }
  unfold atoi. cbn [skip_space]. rewrite Hsp. rewrite !decide_False by done. rewrite dval_read, Hv by done.
  rewrite Z.min_r, Z.max_r by lia. apply i32_small. lia.
Qed.
Lemma echo_reply l v msg m : echoes (member (bytes "id") l) v → holds msg m → fresh (bytes "id") m →
  holds (reply_id (request_id (tree None (VObj l))) msg) (m ++ [(bytes "id", v)]).
Proof.
  intros He Hm Hf. unfold request_id, shjson_num, shjson_astr, pick, num_of. rewrite get_member. unfold member in He.
  destruct (List.find _ l) as [[n x]|]; cbn [fmap option_fmap option_map fst snd] in *.
  - inversion He as [z Hz E|t Ht Hl Ha E|t z Ht Hl Ha Hz E|o Ho E]; subst; cbn [tree j_valueint j_valuedouble j_valuestring].
    + rewrite real_near, real_u32 by lia. rewrite (proj2 (Z.eqb_neq z 0)) by lia. cbn [negb]. unfold reply_id.
      destruct (dec_head z) as (c & r & E' & _). rewrite E'. rewrite <-E'. rewrite atoi_dec by done. unfold u32. rewrite Z.mod_small by lia.
      rewrite (proj2 (Z.eqb_neq z 0)) by lia. cbn [negb]. apply holds_num; [done..|lia].
    + rewrite real_near, real_u32 by lia. cbn [Z.eqb negb]. rewrite take_ge by lia. destruct t as [|c t]; [done|]. unfold reply_id. rewrite Ha.
      by apply holds_str.
    + rewrite real_near, real_u32 by lia. cbn [Z.eqb negb]. rewrite take_ge by lia. destruct t as [|c t]; [done|]. unfold reply_id.
      pose proof (atoi_range (c :: t)). unfold u32. rewrite Z.mod_small by lia. rewrite (proj2 (Z.eqb_neq _ 0)) by lia. cbn [negb].
      apply holds_num; [done..|lia].
    + repeat (apply elem_of_cons in Ho as [[= Ho]|Ho]); [subst x..|by apply not_elem_of_nil in Ho]; cbn [tree item j_valueint j_valuedouble j_valuestring];
        rewrite real_near, real_u32 by lia; by apply holds_null.
  - inversion He; subst. rewrite real_u32 by lia. by apply holds_null.
Qed.
End msg.

(** ** Requests whose reply is known *)
(** What the request is answered with, but for the identifier. *)
Inductive answers (session : list byte) (l : list (list byte * jval)) : list (list byte * jval) → Prop :=
  | ans_ping : member (bytes "method") l = Some (VStr (bytes "mining.ping")) →
      answers session l [(bytes "error", VNull); (bytes "result", VNull)]
  | ans_resume params : member (bytes "method") l = Some (VStr (bytes "mining.resume")) → member (bytes "params") l = Some (VArr (VStr session :: params)) →
      answers session l [(bytes "result", VBool true); (bytes "error", VNull)]
  | ans_session t params : member (bytes "method") l = Some (VStr (bytes "mining.resume")) → member (bytes "params") l = Some (VArr (VStr t :: params)) → t ≠ session →
      answers session l [(bytes "error", VArr [VNum 61; VStr (bytes "Bad session id"); VNull]); (bytes "result", VBool false)]
  | ans_nobody m : member (bytes "method") l = Some (VStr m) → m ∈ [bytes "mining.authorize"; bytes "stratum.authorize"] → member (bytes "params") l = None →
      answers session l [(bytes "result", VBool false); (bytes "error", VArr [VNum (-2); VStr (bytes "unknown user"); VNull])].
(** A client that gets replies: it is connected, and not by RPC. *)
Record talks `{Double} (u : user_t) : Prop := {
  ta_system : has_flag (u_flags u) USER_SYSTEM = false;
  ta_rpc : has_flag (u_flags u) USER_RPC = false;
  ta_fd : u_fd u ≠ -1;
}.

Section answers.
Context `{RealOk} `{Double} `{HeapOk} `{!Server} (max_fd : Z) (shaddr : Z → option sockaddr) (q : req_env).
Implicit Type s : cst user_t.
Lemma astr_member l n d : shjson_astr (Some (tree None (VObj l))) (Some n) d =
  match member n l with None => d | Some (VStr t) => Some t | Some _ => None end.
Proof.
  unfold shjson_astr, pick, member. rewrite get_member. destruct (List.find _ l) as [[k v]|]; [|done]. cbn [fmap option_fmap option_map fst snd].
  by destruct v as [|[]| | | |].
Qed.
Lemma array_member l n : shjson_array_astr (tree None (VObj l)) (Some n) 0 =
  match member n l with Some (VArr (VStr t :: _)) => Some t | Some (VObj ((_, VStr t) :: _)) => Some t | _ => None end.
Proof.
  unfold shjson_array_astr, pick, member. rewrite get_member. destruct (List.find _ l) as [[k v]|]; [|done]. cbn [fmap option_fmap option_map fst snd].
  destruct v as [|[]| | |[|[|[]| | | |] ?]|[|[? [|[]| | | |]] ?]]; try done; cbn [tree fmap list_fmap mbind option_bind fst snd]; unfold shjson_GetArraySize, shjson_GetArrayItem; cbn [j_child length];
    rewrite (proj2 (Z.ltb_ge _ 0)) by lia; done.
Qed.
Lemma send_holds s p u w l v msg m : desc_ok (cs_desc s) → cs_users s !! p = Some u → talks u → ss_cur_id (u_sess u) = request_id (tree None (VObj l)) →
  echoes (member (bytes "id") l) v → holds msg m → fresh (bytes "id") m → jwf (VObj (m ++ [(bytes "id", v)])) →
  let text := jtext false 0 (VObj (m ++ [(bytes "id", v)])) ++ [x0a] in
  open_conn max_fd (cs_desc s) (u_fd u) w (zlen text) →
  swp (stratum_send_message max_fd p msg) s (λ r s', r = 0 ∧ wrote max_fd (u_fd u) w (zlen text) text s s').
Proof.
  intros Hok Hu [Hs Hr Hfd] Hid He Hm Hf Hwf text Hoc. unfold stratum_send_message. apply swp_bind. eapply swp_load; [done|]. rewrite Hs, Hid.
  rewrite (proj2 (Z.eqb_neq _ _) Hfd). eapply send_spec; [done|apply holds_value; by apply echo_reply|done|done|done].
Qed.
Lemma echo_wf l v m : jwf (VObj l) → echoes (member (bytes "id") l) v → jwf (VObj m) → jwf (VObj (m ++ [(bytes "id", v)])).
Proof.
  intros Hl He Hm. apply jwf_obj. apply jwf_obj in Hm. apply Forall_app. split; [done|]. constructor; [|constructor]. split; [compute_dec|].
  assert (∀ o, member (bytes "id") l = Some o → jwf o) as Ho.
  { intros o Eo. unfold member in Eo. destruct (List.find _ l) as [[k x]|] eqn:Ef; [|done]. injection Eo as <-. apply List.find_some in Ef as [Hin _].
    apply jwf_obj in Hl. rewrite List.Forall_forall in Hl. by destruct (Hl _ Hin). }
  cbn [snd]. destruct He as [z Hz|t Ht Hlt Ha|t z Ht Hlt Ha Hz|o Hin]; [by apply Ho|by apply Ho| |done]. cbn. pose proof (atoi_range t). lia.
Qed.
Lemma answer_wf session l a : answers session l a → jwf (VObj a) ∧ fresh (bytes "id") a.
Proof. intros Ha. destruct Ha; (split; [cbn; repeat split; first [lia|compute_dec]|unfold fresh; compute_dec]). Qed.
Lemma method_find iface p json m f : NoDup (method_table max_fd shaddr q iface p json).*1 → (m, f) ∈ method_table max_fd shaddr q iface p json →
  stratum_dispatch max_fd shaddr q iface p json m = f.
Proof.
  intros Hnd Hin. unfold stratum_dispatch. assert (List.find (λ e, bool_decide (e.1 = m)) (method_table max_fd shaddr q iface p json) = Some (m, f)) as ->; [|done].
  revert Hnd Hin. generalize (method_table max_fd shaddr q iface p json). intros t. induction t as [|[k g] t IH]; intros Hnd Hin; [by apply not_elem_of_nil in Hin|].
  cbn [fmap list_fmap fst] in Hnd. apply NoDup_cons in Hnd as [Hk Hnd]. cbn [List.find fst]. apply elem_of_cons in Hin as [[= -> ->]|Hin]; [by rewrite bool_decide_true|].
  rewrite bool_decide_false; [by apply IH|]. intros ->. apply Hk. by apply (list_elem_of_fmap_2 fst _ (m, f)).
Qed.
Lemma methods_differ iface p json : NoDup (method_table max_fd shaddr q iface p json).*1.
Proof.
  assert ((method_table max_fd shaddr q iface p json).*1 =
    [bytes "mining.ping"; bytes "mining.subscribe"; bytes "mining.authorize"; bytes "stratum.authorize"; bytes "mining.resume"; bytes "mining.submit";
     bytes "stratum.elevate"; bytes "mining.shares"; bytes "mining.info"; bytes "mining.rounds"; bytes "chain.info"; bytes "block.info"; bytes "account.create";
     bytes "account.tx"; bytes "account.address"; bytes "account.transfer"; bytes "account.verify_transfer"; bytes "account.info"; bytes "account.alias";
     bytes "account.context"; bytes "account.certificate"]) as -> by reflexivity.
  apply (bool_decide_unpack _). vm_compute. exact I.
Qed.
(** The handler that a request is answered by. *)
Lemma answer_run s p l a (Q : Z → cst user_t → Prop) iface m : answers (q_session q) l a → member (bytes "method") l = Some (VStr m) →
  (∀ msg, holds msg a → swp (stratum_send_message max_fd p msg) s Q) → swp (stratum_dispatch max_fd shaddr q iface p (tree None (VObj l)) m) s Q.
Proof.
  intros Ha Em Hk. set (json := tree None (VObj l)).
  assert (∀ f, (m, f) ∈ method_table max_fd shaddr q iface p json → swp f s Q → swp (stratum_dispatch max_fd shaddr q iface p json m) s Q) as Hgo.
  { intros f Hin Hf. by rewrite (method_find iface p json m f (methods_differ _ _ _) Hin). }
  destruct Ha as [Em'|params Em' Hp|t params Em' Hp Hne|m' Em' Hin Hp]; rewrite Em in Em'; injection Em' as ->.
  - apply (Hgo (req_ping max_fd p)); [by apply (list_elem_of_lookup_2 _ 0)|]. unfold req_ping. rewrite new_reply_eq. apply Hk.
    apply (holds_null _ [_]); [apply (holds_null _ []); [apply holds_new|]|]; unfold fresh; compute_dec.
  - apply (Hgo (req_resume max_fd q p json)); [by apply (list_elem_of_lookup_2 _ 4)|]. unfold req_resume, json. rewrite array_member, Hp. apply swp_bind, swp_ret.
    rewrite bool_decide_true by done. cbn [negb]. unfold ok_reply. rewrite new_reply_eq. apply Hk.
    apply (holds_null _ [_]); [apply (holds_bool _ []); [apply holds_new|]|]; unfold fresh; compute_dec.
  - apply (Hgo (req_resume max_fd q p json)); [by apply (list_elem_of_lookup_2 _ 4)|]. unfold req_resume, json. rewrite array_member, Hp. apply swp_bind, swp_ret.
    rewrite bool_decide_false by done. cbn [negb]. unfold stratum_send_error. rewrite new_reply_eq. apply swp_bind, swp_ret.
    apply (error_holds _ []); [apply holds_new|done|]. intros t' Ht'. apply Hk. apply (holds_bool _ [_]); [done|]. unfold fresh; compute_dec.
  - apply (Hgo (req_authorize max_fd shaddr q p json)).
    { apply elem_of_cons in Hin as [->|[->|Hin%not_elem_of_nil]%elem_of_cons]; [by apply (list_elem_of_lookup_2 _ 2)|by apply (list_elem_of_lookup_2 _ 3)|done]. }
    unfold req_authorize, json. rewrite array_member, Hp. apply swp_bind, swp_ret. cbn [Z.eqb]. rewrite new_reply_eq. apply swp_bind, swp_ret.
    apply (error_holds _ [(bytes "result", VBool false)]); [|done|intros t' Ht'; by apply Hk]. apply (holds_bool _ []); [apply holds_new|]. unfold fresh; compute_dec.
Qed.
End answers.
