(* ===== verification/Scrypt.v ===== *)
(** * Proof of work: scrypt

    The two scrypt implementations of the program: that of the built-in miner in
    libshare ([shmem_scrypt_gen.c], specialised to block headers of 80 bytes, with
    the padding of each digest written out), and that of the coin server
    ([libalgo/scrypt.c]), on a SHA-256 library that is the class [SHA256lib].

    An array of [uint32_t] is the list of its words; the bytes in memory are their
    little-endian encodings. *)

From S2P Require Import Prelude Errors Crc Sha Hmac.

Definition words_mem (ws : list Z) : list byte := concat (le_enc 4 <$> ws).
(** The [n] words at a pointer. *)
Fixpoint mem_words (n : nat) (l : list byte) : list Z := match n with O => [] | S n => le_dec (take 4 l) :: mem_words n (drop 4 l) end.
(** [memcpy(p + n, l, len)] *)
Definition copy_at (p : list byte) (n : nat) (l : list byte) : list byte := take n p ++ l ++ drop (n + length l) p.
Definition htobe32 (x : Z) : Z := htonl x.
Definition be32enc_vect (src : list Z) : list Z := htobe32 <$> src.

(** ** SHA-256 blocks

    The macros [Ch], [Maj], [S0], [S1], [s0] and [s1] have the text of those in
    [shmem_alg_sha.h], and the constants of the rounds are its table. *)
Definition W_pair (W : list Z) (i : nat) : list Z :=
  let W := W ++ [u32 (SHA256_sigma1 (at_t W (i - 2)) + at_t W (i - 7) + SHA256_sigma0 (at_t W (i - 15)) + at_t W (i - 16))] in
  W ++ [u32 (SHA256_sigma1 (at_t W (i - 1)) + at_t W (i - 6) + SHA256_sigma0 (at_t W (i - 14)) + at_t W (i - 15))].
Definition RNDr (W : list Z) (S : list Z) (i : nat) : list Z :=
  let s (n : nat) := at_t S ((n - i) mod 8) in
  let t0 := u32 (s 71%nat + SHA256_SIGMA1 (s 68%nat) + SHA_Ch (s 68%nat) (s 69%nat) (s 70%nat) + u32 (at_t W i + at_t SHA256_K i)) in
  let t1 := u32 (SHA256_SIGMA0 (s 64%nat) + SHA_Maj (s 64%nat) (s 65%nat) (s 66%nat)) in
  <[((71 - i) mod 8)%nat := u32 (t0 + t1)]> (<[((67 - i) mod 8)%nat := u32 (s 67%nat + t0)]> S).
Definition SHA256_Transform (state block : list Z) (swap : bool) : list Z :=
  let W := take 16 (if swap then be32enc_vect block else block) in
  let W := foldl W_pair W ((λ k, (16 + 2 * k)%nat) <$> seq 0 24) in
  let S := foldl (RNDr W) state (seq 0 64) in
  zip_with (λ a b, u32 (a + b)) state S.

(** ** PBKDF2 for a password of 80 bytes *)
Definition passwdpad : list Z := 0x80 :: replicate 10 0 ++ [0x80020000].
Definition outerpad : list Z := 0x80000000 :: replicate 6 0 ++ [0x300].
Definition innerpad : list Z := 0x80 :: replicate 9 0 ++ [0xa0040000].
Definition ihash_finalblk : list Z := 1 :: 0x80000000 :: replicate 13 0 ++ [0x620].
Definition xor_pad (v : Z) (ihash : list Z) : list Z := ((λ w, Z.lxor w v) <$> ihash) ++ replicate 8 v.
Definition key_hash (passwd : list Z) : list Z :=
  SHA256_Transform (SHA256_Transform SHA256_H0 passwd true) (take 4 (drop 16 passwd) ++ passwdpad) true.
Definition PBKDF2_SHA256_80_128 (passwd : list Z) : list Z :=
  let ihash := key_hash passwd in
  let istate := SHA256_Transform (SHA256_Transform SHA256_H0 (xor_pad 0x36363636 ihash) false) passwd true in
  let ibuf (i : Z) := be32enc_vect (take 4 (drop 16 passwd)) ++ [i] ++ be32enc_vect innerpad in
  let ostate := SHA256_Transform SHA256_H0 (xor_pad 0x5c5c5c5c ihash) false in
  concat ((λ i : nat, be32enc_vect (SHA256_Transform ostate (SHA256_Transform istate (ibuf (Z.of_nat i + 1)) false ++ outerpad) false)) <$> seq 0 4).
Definition PBKDF2_SHA256_80_128_32 (passwd salt : list Z) : list Z :=
  let ihash := key_hash passwd in
  let ostate := SHA256_Transform SHA256_H0 (xor_pad 0x5c5c5c5c ihash) false in
  let tstate := SHA256_Transform SHA256_H0 (xor_pad 0x36363636 ihash) false in
  let tstate := SHA256_Transform tstate salt true in
  let tstate := SHA256_Transform tstate (drop 16 salt) true in
  let tstate := SHA256_Transform tstate ihash_finalblk false in
  SHA256_Transform ostate (tstate ++ outerpad) false.

(** ** Salsa20/8

    [(d, a, b, k)] is [xd ^= R(xa + xb, k)]. *)
Definition qr_op (x : list Z) (op : nat * nat * nat * nat) : list Z :=
  let '(d, a, b, k) := op in <[d := Z.lxor (at_t x d) (ROTL 32 (Z.of_nat k) (u32 (at_t x a + at_t x b)))]> x.
Definition salsa_columns : list (nat * nat * nat * nat) :=
  [(4,0,12,7); (9,5,1,7); (14,10,6,7); (3,15,11,7); (8,4,0,9); (13,9,5,9); (2,14,10,9); (7,3,15,9);
   (12,8,4,13); (1,13,9,13); (6,2,14,13); (11,7,3,13); (0,12,8,18); (5,1,13,18); (10,6,2,18); (15,11,7,18)]%nat.
Definition salsa_rows : list (nat * nat * nat * nat) :=
  [(1,0,3,7); (6,5,4,7); (11,10,9,7); (12,15,14,7); (2,1,0,9); (7,6,5,9); (8,11,10,9); (13,12,15,9);
   (3,2,1,13); (4,7,6,13); (9,8,11,13); (14,13,12,13); (0,3,2,18); (5,4,7,18); (10,9,8,18); (15,14,13,18)]%nat.
Definition salsa_double (x : list Z) : list Z := foldl qr_op (foldl qr_op x salsa_columns) salsa_rows.
Definition salsa20_8 (B Bx : list Z) : list Z :=
  let B := zip_with Z.lxor B Bx in
  zip_with (λ a b, u32 (a + b)) B (Nat.iter 4 salsa_double B).

(** ** Scrypt with N = 1024, r = 1, p = 1

    [V] is the list of its 1024 rows of 32 words. *)
Definition mix (X : list Z) : list Z :=
  let X0 := salsa20_8 (take 16 X) (drop 16 X) in
  X0 ++ salsa20_8 (drop 16 X) X0.
Definition xor_row (V : list (list Z)) (X : list Z) : list Z :=
  zip_with Z.lxor X (nth (Z.to_nat (Z.land (at_t X 16) 1023)) V []).
Definition fill_two (VX : list (list Z) * list Z) (i : nat) : list (list Z) * list Z :=
  let '(V, X) := VX in
  let V := <[i := X]> V in
  let X := mix X in
  let V := <[(i + 1)%nat := X]> V in
  (V, mix X).
Definition scrypt_sp (input : list Z) : list Z :=
  let X := PBKDF2_SHA256_80_128 input in
  let '(V, X) := foldl fill_two (replicate 1024 [], X) ((λ k, (2 * k)%nat) <$> seq 0 512) in
  let X := Nat.iter 512 (λ X, let X := mix (xor_row V X) in mix (xor_row V X)) X in
  PBKDF2_SHA256_80_128_32 input X.

(** ** [libalgo/scrypt.c] *)
Class SHA256lib := {
  SHA256_CTX : Type;
  SHA256_Init : SHA256_CTX;
  SHA256_Update : SHA256_CTX → list byte → SHA256_CTX;
  SHA256_Final : SHA256_CTX → list byte;
}.
Definition be32enc (x : Z) : list byte :=
  byte_of_Z <$> [Z.land (Z.shiftr x 24) 0xff; Z.land (Z.shiftr x 16) 0xff; Z.land (Z.shiftr x 8) 0xff; Z.land x 0xff].
Definition le32enc (x : Z) : list byte :=
  byte_of_Z <$> [Z.land x 0xff; Z.land (Z.shiftr x 8) 0xff; Z.land (Z.shiftr x 16) 0xff; Z.land (Z.shiftr x 24) 0xff].
Definition le32dec (p : list byte) : Z :=
  let b i := Z_of_byte (nth i p x00) in
  u32 (b 0%nat + Z.shiftl (b 1%nat) 8 + Z.shiftl (b 2%nat) 16 + Z.shiftl (b 3%nat) 24).
Section libalgo.
Context `{SHA256lib}.
Definition HMAC_SHA256_CTX : Type := SHA256_CTX * SHA256_CTX.
(** [pad[i] ^= K[i]] on a block of [v]. *)
Definition hmac_pad (v : Z) (K : list byte) : list byte := (xor_byte v <$> K) ++ replicate (64 - length K) (byte_of_Z v).
Definition HMAC_SHA256_Init (K : list byte) : HMAC_SHA256_CTX :=
  let K := if 64 <? zlen K then SHA256_Final (SHA256_Update SHA256_Init K) else K in
  (SHA256_Update SHA256_Init (hmac_pad 0x36 K), SHA256_Update SHA256_Init (hmac_pad 0x5c K)).
Definition HMAC_SHA256_Update (ctx : HMAC_SHA256_CTX) (data : list byte) : HMAC_SHA256_CTX := (SHA256_Update ctx.1 data, ctx.2).
Definition HMAC_SHA256_Final (ctx : HMAC_SHA256_CTX) : list byte := SHA256_Final (SHA256_Update ctx.2 (SHA256_Final ctx.1)).
Definition xor_bytes (T U : list byte) : list byte := zip_with (λ a b, byte_of_Z (Z.lxor (Z_of_byte a) (Z_of_byte b))) T U.
(** The rounds behind the first, on [T] and [U]. *)
Fixpoint pbkdf2_rounds (n : nat) (passwd T U : list byte) : list byte :=
  match n with
  | O => T
  | S n => let U := HMAC_SHA256_Final (HMAC_SHA256_Update (HMAC_SHA256_Init passwd) U) in pbkdf2_rounds n passwd (xor_bytes T U) U
  end.
Definition pbkdf2_block (passwd : list byte) (PShctx : HMAC_SHA256_CTX) (c : Z) (i : nat) : list byte :=
  let U := HMAC_SHA256_Final (HMAC_SHA256_Update PShctx (be32enc (Z.of_nat i + 1))) in
  pbkdf2_rounds (Z.to_nat (c - 1)) passwd U U.
Definition PBKDF2_SHA256 (passwd salt : list byte) (c : Z) (dkLen : nat) : list byte :=
  let PShctx := HMAC_SHA256_Update (HMAC_SHA256_Init passwd) salt in
  take dkLen (concat (pbkdf2_block passwd PShctx c <$> seq 0 ((dkLen + 31) / 32))).
(** [xor_salsa8] has the text of [salsa20_8]. *)
Definition xor_salsa8 (B Bx : list Z) : list Z := salsa20_8 B Bx.
Definition algo_mix (X : list Z) : list Z :=
  let X0 := xor_salsa8 (take 16 X) (drop 16 X) in X0 ++ xor_salsa8 (drop 16 X) X0.
Definition scrypt_1024_1_1_256_sp (input : list byte) : list byte :=
  let B := PBKDF2_SHA256 (take 80 input) (take 80 input) 1 128 in
  let X := (λ k, le32dec (drop (4 * k) B)) <$> seq 0 32 in
  let '(V, X) := foldl (λ '(V, X) i, (<[i := X]> V, algo_mix X)) (replicate 1024 [], X) (seq 0 1024) in
  let X := Nat.iter 1024 (λ X, algo_mix (xor_row V X)) X in
  PBKDF2_SHA256 (take 80 input) (concat (le32enc <$> X)) 1 32.
End libalgo.
