(* ===== verification/ScryptSpec.v ===== *)
(** * RFC 7914, and that the code computes it: digests and mixing

    The definitions of PBKDF2 (RFC 8018), Salsa20/8 and scrypt, and that the
    unrolled and specialised functions of Scrypt.v compute them. *)

From S2P Require Import Prelude Errors Crc Sha ShaSpec Hmac HmacSpec Scrypt.

(** ** The standards *)
Fixpoint PBKDF2_U (P S : list byte) (i j : nat) : list byte :=
  match j with O => HMAC K256 P (S ++ be_enc 4 (Z.of_nat i)) | Datatypes.S j => HMAC K256 P (PBKDF2_U P S i j) end.
Definition PBKDF2_T (P S : list byte) (c i : nat) : list byte := foldl (λ T j, xor_bytes T (PBKDF2_U P S i j)) (PBKDF2_U P S i 0) (seq 1 (c - 1)).
Definition PBKDF2 (P S : list byte) (c dkLen : nat) : list byte := take dkLen (concat (PBKDF2_T P S c <$> seq 1 ((dkLen + 31) / 32))).

(** A quarter round of four entries of the matrix, the rounds of its columns
    and rows. *)
Definition quarter (y : list Z) (i0 i1 i2 i3 : nat) : list Z :=
  let z1 := Z.lxor (at_t y i1) (ROTL 32 7 (u32 (at_t y i0 + at_t y i3))) in
  let z2 := Z.lxor (at_t y i2) (ROTL 32 9 (u32 (z1 + at_t y i0))) in
  let z3 := Z.lxor (at_t y i3) (ROTL 32 13 (u32 (z2 + z1))) in
  let z0 := Z.lxor (at_t y i0) (ROTL 32 18 (u32 (z3 + z2))) in
  <[i0 := z0]> (<[i1 := z1]> (<[i2 := z2]> (<[i3 := z3]> y))).
Definition columnround (x : list Z) : list Z := quarter (quarter (quarter (quarter x 0 4 8 12) 5 9 13 1) 10 14 2 6) 15 3 7 11.
Definition rowround (x : list Z) : list Z := quarter (quarter (quarter (quarter x 0 1 2 3) 5 6 7 4) 10 11 8 9) 15 12 13 14.
Definition Salsa20_8 (x : list Z) : list Z := zip_with (λ a b, u32 (a + b)) x (Nat.iter 4 (λ x, rowround (columnround x)) x).
Definition xor_words (a b : list Z) : list Z := zip_with Z.lxor a b.
(** [r = 1]: two blocks of 16 words. *)
Definition BlockMix (B : list Z) : list Z :=
  let Y0 := Salsa20_8 (xor_words (drop 16 B) (take 16 B)) in
  Y0 ++ Salsa20_8 (xor_words Y0 (drop 16 B)).
Definition Integerify (B : list Z) : Z := le_dec (words_mem (drop 16 B)).
Definition ROMix (N : nat) (B : list Z) : list Z :=
  Nat.iter N (λ X, BlockMix (xor_words X (Nat.iter (Z.to_nat (Integerify X mod Z.of_nat N)) BlockMix B))) (Nat.iter N BlockMix B).
Definition scrypt (P S : list byte) (N dkLen : nat) : list byte :=
  PBKDF2 P (words_mem (ROMix N (mem_words 32 (PBKDF2 P S 1 128)))) 1 dkLen.

(** ** Words *)
Definition word (w : Z) : Prop := 0 ≤ w < 2 ^ 32.
Abbreviation words l := (Forall word l).
Definition words_be (ws : list Z) : list byte := concat (be_enc 4 <$> ws).
Lemma word_u32 x : word (u32 x).
Proof. apply u32_range. Qed.
Lemma u32_add_r a b : u32 (a + u32 b) = u32 (a + b).
Proof. unfold u32. apply Zplus_mod_idemp_r. Qed.
Lemma length_words_mem ws : length (words_mem ws) = (4 * length ws)%nat.
Proof. unfold words_mem. induction ws as [|w ws IH]; [done|]. cbn [fmap list_fmap concat]. rewrite length_app, length_le_enc, IH. cbn [length]. lia. Qed.
Lemma length_words_be ws : length (words_be ws) = (4 * length ws)%nat.
Proof. unfold words_be. induction ws as [|w ws IH]; [done|]. cbn [fmap list_fmap concat]. rewrite length_app, length_be_enc, IH. cbn [length]. lia. Qed.
Lemma words_mem_app a b : words_mem (a ++ b) = words_mem a ++ words_mem b.
Proof. unfold words_mem. by rewrite fmap_app, concat_app. Qed.
Lemma words_be_app a b : words_be (a ++ b) = words_be a ++ words_be b.
Proof. unfold words_be. by rewrite fmap_app, concat_app. Qed.
Lemma mem_words_mem ws rest : words ws → mem_words (length ws) (words_mem ws ++ rest) = ws.
Proof.
  induction 1 as [|w ws Hw Hws IH]; [done|]. unfold words_mem in *. cbn [length mem_words fmap list_fmap concat].
  rewrite <-(assoc_L (++)), take_app_length', drop_app_length' by (by rewrite length_le_enc). rewrite IH, le_dec_enc. change (256 ^ Z.of_nat 4) with (2 ^ 32).
  by rewrite Z.mod_small.
Qed.
Lemma words_mem_words n l : (4 * n ≤ length l)%nat → words_mem (mem_words n l) = take (4 * n) l.
Proof.
  revert l. induction n as [|n IH]; intros l Hl; [done|]. unfold words_mem in *. cbn [mem_words fmap list_fmap concat]. rewrite IH by (rewrite length_drop; lia).
  assert (length (take 4 l) = 4%nat) as H4 by (rewrite length_take; lia). rewrite <-H4 at 1. rewrite le_enc_dec.
  replace (4 * S n)%nat with (4 + 4 * n)%nat by lia. apply take_take_drop.
Qed.
Lemma mem_words_range n l : (4 * n ≤ length l)%nat → words (mem_words n l) ∧ length (mem_words n l) = n.
Proof.
  revert l. induction n as [|n IH]; intros l Hl; [done|]. cbn [mem_words length]. destruct (IH (drop 4 l)) as [H1 H2]; [rewrite length_drop; lia|]. split; [|lia].
  constructor; [|done]. pose proof (le_dec_range (take 4 l)) as Hr. rewrite length_take in Hr. replace (4 `min` length l)%nat with 4%nat in Hr by lia. exact Hr.
Qed.
Lemma htobe_mem ws : words_mem (be32enc_vect ws) = words_be ws.
Proof. unfold words_mem, words_be, be32enc_vect. rewrite <-list_fmap_compose. f_equal. apply list_fmap_ext. intros i w _. apply htonl_enc. Qed.
Lemma word_htobe x : word (htobe32 x).
Proof. unfold htobe32. rewrite htonl_dec. pose proof (le_dec_range (be_enc 4 x)) as Hr. rewrite length_be_enc in Hr. exact Hr. Qed.
Lemma words_htobe ws : words (be32enc_vect ws).
Proof. apply Forall_fmap, Forall_true. intros. apply word_htobe. Qed.

Lemma htobe_twice w : word w → htobe32 (htobe32 w) = w.
Proof.
  intros Hw. unfold htobe32. rewrite (htonl_dec w), htonl_le_dec by apply length_be_enc. unfold be_dec, be_enc. rewrite reverse_involutive, le_dec_enc. by apply Z.mod_small.
Qed.
Lemma be_htobe ws : words ws → words_be (be32enc_vect ws) = words_mem ws.
Proof.
  intros Hw. rewrite <-htobe_mem. f_equal. unfold be32enc_vect. rewrite <-list_fmap_compose. etrans; [|apply list_fmap_id]. apply list_fmap_ext. intros j w Hj. cbn [compose id].
  apply htobe_twice. by eapply Forall_lookup in Hj.
Qed.

Lemma byte_mod_eq x y : x mod 256 = y mod 256 → byte_of_Z x = byte_of_Z y.
Proof. unfold byte_of_Z. by intros ->. Qed.

(** ** The block function of SHA-256 *)
Lemma W_pairs W m : foldl W_pair W ((λ k, (16 + 2 * k)%nat) <$> seq 0 m) = extend (sha2_next 32 SHA256_sigma0 SHA256_sigma1) (2 * m) W.
Proof.
  induction m as [|m IH]; [done|]. replace (2 * S m)%nat with (S (S (2 * m))) by lia. rewrite seq_S, fmap_app, foldl_app, IH. unfold extend. rewrite !seq_S, !foldl_app.
  cbn [foldl fmap list_fmap]. rewrite Nat.add_0_l. set (V := foldl _ W _). unfold W_pair, sha2_next. replace (16 + S (2 * m))%nat with (S (16 + 2 * m)) by lia.
  set (i := (16 + 2 * m)%nat). assert (16 ≤ i)%nat by (unfold i; lia). replace (S i - 2)%nat with (i - 1)%nat by lia. replace (S i - 7)%nat with (i - 6)%nat by lia.
  replace (S i - 15)%nat with (i - 14)%nat by lia. replace (S i - 16)%nat with (i - 15)%nat by lia. done.
Qed.
(** The registers of the rotating state before round [i]. *)
Definition regs_at (i : nat) (S : list Z) : regs2 :=
  let s (n : nat) := at_t S ((n - i) mod 8) in
  Regs2 (s 64%nat) (s 65%nat) (s 66%nat) (s 67%nat) (s 68%nat) (s 69%nat) (s 70%nat) (s 71%nat).
Lemma t0_eq a b c w k : u32 (a + b + c + u32 (w + k)) = (a + b + c + k + w) mod 2 ^ 32.
Proof. rewrite u32_add_r. unfold u32. f_equal. lia. Qed.
Lemma round_step W S i : length S = 8%nat → (i < 64)%nat →
  regs_at (Datatypes.S i) (RNDr W S i) = sha2_step 32 SHA256_K SHA256_SIGMA0 SHA256_SIGMA1 W (regs_at i S) i ∧ length (RNDr W S i) = 8%nat.
Proof.
  intros Hl Hi. split; [|unfold RNDr; by rewrite !length_insert].
  set (r := ((64 - i) mod 8)%nat). assert (r < 8)%nat as Hr by (apply Nat.mod_upper_bound; lia).
  assert (∀ n, (64 ≤ n)%nat → ((n - i) mod 8 = (r + (n - 64)) mod 8)%nat) as E0.
  { intros n Hn. unfold r. rewrite Nat.Div0.add_mod_idemp_l. f_equal. lia. }
  assert (∀ n, (64 ≤ n)%nat → ((n - Datatypes.S i) mod 8 = (r + 7 + (n - 64)) mod 8)%nat) as E1.
  { intros n Hn. replace (r + 7 + (n - 64))%nat with (r + (7 + (n - 64)))%nat by lia. unfold r. rewrite Nat.Div0.add_mod_idemp_l.
    replace (64 - i + (7 + (n - 64)))%nat with (n - Datatypes.S i + 1 * 8)%nat by lia. by rewrite Nat.Div0.mod_add. }
  unfold regs_at, RNDr, sha2_step. rewrite !E0, !E1 by lia. clearbody r. clear E0 E1 Hi.
  destruct S as [|s0 [|s1 [|s2 [|s3 [|s4 [|s5 [|s6 [|s7 [|]]]]]]]]]; try done.
  do 8 (destruct r as [|r]; [cbv [at_t nth insert list_insert Nat.modulo Nat.divmod Nat.sub Nat.add fst snd]; rewrite !t0_eq; reflexivity|]); lia.
Qed.
Lemma rounds_spec W S n : length S = 8%nat → (n ≤ 64)%nat →
  regs_at n (foldl (RNDr W) S (seq 0 n)) = foldl (sha2_step 32 SHA256_K SHA256_SIGMA0 SHA256_SIGMA1 W) (load_regs2 S) (seq 0 n) ∧
  length (foldl (RNDr W) S (seq 0 n)) = 8%nat.
Proof.
  intros Hl. induction n as [|n IH]; intros Hn; [done|]. destruct IH as [E El]; [lia|]. rewrite seq_S, !foldl_app. cbn [foldl]. rewrite Nat.add_0_l.
  rewrite <-E. apply round_step; [done|lia].
Qed.
Lemma chunk_at (f : Z → list byte) ws i : (∀ w, length (f w) = 4%nat) → (i < length ws)%nat → take 4 (drop (i * 4) (concat (f <$> ws))) = f (at_t ws i).
Proof.
  intros Hf. revert i. induction ws as [|w ws IH]; intros i Hi; [cbn in Hi; lia|]. cbn [fmap list_fmap concat]. destruct i as [|i].
  - rewrite drop_0. apply take_app_length'. by rewrite Hf.
  - cbn [length] in Hi. rewrite drop_app_ge by (rewrite Hf; lia). rewrite Hf. replace (S i * 4 - 4)%nat with (i * 4)%nat by lia. apply IH. lia.
Qed.
Lemma list_at_t (l : list Z) n : length l = n → l = (λ i, at_t l i) <$> seq 0 n.
Proof.
  intros Hl. apply list_eq. intros i. destruct (decide (i < n)%nat) as [Hi|Hi].
  - rewrite list_lookup_fmap, lookup_seq_lt by done. cbn [fmap option_fmap option_map]. rewrite Nat.add_0_l. destruct (lookup_lt_is_Some_2 l i ltac:(lia)) as [z Hz].
    rewrite Hz. unfold at_t. by rewrite (nth_lookup_Some _ _ _ _ Hz).
  - rewrite !lookup_ge_None_2; [done|rewrite length_fmap, length_seq; lia|lia].
Qed.
Lemma at_word ws i : words ws → (i < length ws)%nat → word (at_t ws i).
Proof. intros Hw Hi. destruct (lookup_lt_is_Some_2 ws i Hi) as [z Hz]. unfold at_t. rewrite (nth_lookup_Some _ _ _ _ Hz). by eapply Forall_lookup in Hz. Qed.
Lemma load_gen (g : Z → Z) (e : Z → list byte) block : (∀ w, length (e w) = 4%nat) → (∀ w, word w → be_dec (e w) = g w) → (16 ≤ length block)%nat → words block →
  take 16 (g <$> block) = load_words 4 (concat (e <$> take 16 block)).
Proof.
  intros He Hg Hb Hw. rewrite <-fmap_take. set (l := take 16 block). assert (length l = 16%nat) as Hl by (unfold l; rewrite length_take; lia).
  assert (words l) as Hwl by (by apply Forall_take). rewrite (list_at_t l 16) at 1 by done. rewrite <-list_fmap_compose. apply list_fmap_ext. intros i j Hj.
  apply lookup_seq in Hj as [-> Hj]. cbn [compose]. rewrite chunk_at by (done || lia). rewrite Nat.add_0_l. symmetry. apply Hg, at_word; [done|lia].
Qed.
Lemma load_mem block : (16 ≤ length block)%nat → words block → take 16 (be32enc_vect block) = load_words 4 (words_mem (take 16 block)).
Proof.
  intros Hb Hw. apply (load_gen htobe32 (le_enc 4)); [intros; apply length_le_enc| |done|done]. intros w Hx. rewrite <-htonl_le_dec by apply length_le_enc.
  rewrite le_dec_enc. change (256 ^ Z.of_nat 4) with (2 ^ 32). by rewrite Z.mod_small.
Qed.
Lemma load_be block : (16 ≤ length block)%nat → words block → take 16 block = load_words 4 (words_be (take 16 block)).
Proof.
  intros Hb Hw. rewrite <-(list_fmap_id block) at 1. apply (load_gen id (be_enc 4)); [intros; apply length_be_enc| |done|done]. intros w Hx.
  unfold be_dec, be_enc. rewrite reverse_involutive, le_dec_enc. change (256 ^ Z.of_nat 4) with (2 ^ 32). by rewrite Z.mod_small.
Qed.
Lemma transform_process st block swap : length st = 8%nat → (16 ≤ length block)%nat → words block →
  SHA256_Transform st block swap = P256 st (if swap then words_mem (take 16 block) else words_be (take 16 block)).
Proof.
  intros Hs Hb Hw. unfold P256. rewrite <-sha2_process_eq. unfold SHA256_Transform, sha2_process.
  set (M := if swap then words_mem _ else words_be _).
  assert (take 16 (if swap then be32enc_vect block else block) = load_words (Z.to_nat (32 / 8)) M) as ->.
  { unfold M. destruct swap; [apply load_mem|apply load_be]; done. }
  rewrite W_pairs. change (2 * 24)%nat with 48%nat. set (W := extend _ 48 _). change (16 + 48)%nat with 64%nat.
  destruct (rounds_spec W st 64 Hs ltac:(lia)) as [E El]. rewrite <-E. clear E. generalize dependent (foldl (RNDr W) st (seq 0 64)). intros Sx El. clearbody W.
  destruct Sx as [|s0 [|s1 [|s2 [|s3 [|s4 [|s5 [|s6 [|s7 [|]]]]]]]]]; try discriminate El.
  destruct st as [|t0 [|t1 [|t2 [|t3 [|t4 [|t5 [|t6 [|t7 [|]]]]]]]]]; try discriminate Hs. reflexivity.
Qed.

(** ** Digests of whole blocks *)
Lemma process256 h b : f_process (kind_fam K256) h b = P256 h b.
Proof. apply sha2_process_eq. Qed.
Lemma P256_wf st M : length (P256 st M) = 8%nat ∧ words (P256 st M).
Proof.
  unfold P256, fips2. destruct (iter_t _ _ _). split; [by rewrite length_fmap, length_seq|]. apply Forall_fmap, Forall_true. intros i. apply Z.mod_pos_bound. lia.
Qed.
Lemma absorb_blocks P H bs : Forall (λ b : list byte, length b = 64%nat) bs → absorb P 64 (length bs) H (concat bs) = foldl P H bs.
Proof.
  intros Hb. revert H. induction Hb as [|b bs Hb Hbs IH]; intros H; [done|]. cbn [length absorb concat foldl]. rewrite take_app_length', drop_app_length' by done. apply IH.
Qed.
Lemma foldl_P256_wf bs st : length st = 8%nat → words st → length (foldl P256 st bs) = 8%nat ∧ words (foldl P256 st bs).
Proof. revert st. induction bs as [|b bs IH]; intros st Hl Hw; [done|]. cbn [foldl]. apply IH; apply P256_wf. Qed.
Lemma SHS_blocks msg bs : Forall (λ b : list byte, length b = 64%nat) bs → pad 64 4 msg = concat bs → SHS K256 msg = words_be (foldl P256 SHA256_H0 bs).
Proof.
  intros Hb Hp. unfold SHS, fips_digest, fips_hash. rewrite Hp.
  assert (length (concat bs) = length bs * 64)%nat as Hl. { clear Hp. induction Hb as [|b bs Hb Hbs IH]; [done|]. cbn [concat length]. rewrite length_app, IH, Hb. lia. }
  rewrite Hl, Nat.div_mul, absorb_blocks by done. fold (words_be (foldl P256 SHA256_H0 bs)). apply take_ge. rewrite length_words_be.
  destruct (foldl_P256_wf bs SHA256_H0) as [-> _]; [done| |lia]. repeat constructor; by vm_compute.
Qed.
Lemma pad_known n k msg tail : length msg = n → ((64 - (n + 1 + 8) mod 64) mod 64 = k)%nat → [x80] ++ replicate k x00 ++ be_enc 8 (8 * Z.of_nat n) = tail → pad 64 4 msg = msg ++ tail.
Proof. intros Hn Hk <-. unfold pad. rewrite Hn. change (2 * 4)%nat with 8%nat. by rewrite Hk. Qed.
Lemma transform_mem st block : length st = 8%nat → (16 ≤ length block)%nat → words block → SHA256_Transform st block true = P256 st (words_mem (take 16 block)).
Proof. apply transform_process. Qed.
Lemma transform_be st block : length st = 8%nat → length block = 16%nat → words block → SHA256_Transform st block false = P256 st (words_be block).
Proof. intros Hs Hb Hw. rewrite transform_process by (done || lia). by rewrite take_ge by lia. Qed.

Lemma transform_len st block swap : length st = 8%nat → length (SHA256_Transform st block swap) = 8%nat.
Proof.
  intros Hs. unfold SHA256_Transform. set (W := foldl W_pair _ _). rewrite length_zip_with. destruct (rounds_spec W st 64 Hs ltac:(lia)) as [_ ->]. lia.
Qed.

Lemma words_transform st b sw : words (SHA256_Transform st b sw).
Proof.
  unfold SHA256_Transform. set (W := foldl W_pair _ _). clearbody W. apply Forall_lookup. intros i w Hi. apply lookup_zip_with_Some in Hi as (a & c & -> & _). apply word_u32.
Qed.

(** ** HMAC of the specialised functions *)
Lemma words_const l : forallb (λ w, (0 <=? w) && (w <? 2 ^ 32)) l = true → words l.
Proof.
  intros Hl. rewrite List.forallb_forall in Hl. apply Forall_forall. intros w Hw%list_elem_of_In. specialize (Hl w Hw).
  rewrite andb_true_iff, Z.leb_le, Z.ltb_lt in Hl. exact Hl.
Qed.
Lemma lxor_mod k a b : 0 ≤ k → Z.lxor a b mod 2 ^ k = Z.lxor (a mod 2 ^ k) (b mod 2 ^ k).
Proof.
  intros Hk. apply Z.bits_inj'. intros n Hn. rewrite Z.lxor_spec. destruct (Z.lt_ge_cases n k).
  - by rewrite !Z.mod_pow2_bits_low, Z.lxor_spec by lia.
  - by rewrite !Z.mod_pow2_bits_high by lia.
Qed.
Lemma xor_le_enc n w v : le_enc n (Z.lxor w v) = zip_with (λ a b, xor_byte (Z_of_byte b) a) (le_enc n w) (le_enc n v).
Proof.
  revert w v. induction n as [|n IH]; intros w v; [done|]. cbn [le_enc zip_with]. f_equal.
  - unfold xor_byte. rewrite !Z_of_byte_of_Z. apply byte_mod_eq. change 256 with (2 ^ 8). rewrite !lxor_mod by lia. by rewrite !Z.mod_mod.
  - rewrite <-IH. f_equal. change 256 with (2 ^ 8). by rewrite <-!Z.shiftr_div_pow2, Z.shiftr_lxor.
Qed.
Lemma xor_be_word v w : 0 ≤ v < 256 → be_enc 4 (Z.lxor w (v * 0x1010101)) = xor_byte v <$> be_enc 4 w.
Proof.
  intros Hv. unfold be_enc. rewrite xor_le_enc.
  assert (le_enc 4 (v * 0x1010101) = replicate 4 (byte_of_Z v)) as ->.
  { cbn [le_enc replicate]. do 4 (apply f_equal2; [apply byte_mod_eq; Z.to_euclidean_division_equations; lia|]). done. }
  cbn [le_enc zip_with replicate reverse]. rewrite Z_of_byte_of_Z, Z.mod_small by done. done.
Qed.
Lemma xor_pad_spec v ihash : 0 ≤ v < 256 → words ihash → length ihash = 8%nat →
  words_be (xor_pad (v * 0x1010101) ihash) = (xor_byte v <$> words_be ihash ++ zeros 32) ∧ words (xor_pad (v * 0x1010101) ihash) ∧ length (xor_pad (v * 0x1010101) ihash) = 16%nat.
Proof.
  intros Hv Hw Hl. unfold xor_pad. split_and!.
  - rewrite words_be_app, fmap_app. f_equal.
    + unfold words_be. clear Hl. induction Hw as [|w ws Hx Hw IH]; [done|]. cbn [fmap list_fmap concat]. rewrite fmap_app, xor_be_word by done. f_equal. exact IH.
    + unfold zeros. rewrite fmap_replicate, xor_byte_0 by done. unfold words_be. rewrite fmap_replicate.
      replace (be_enc 4 (v * 0x1010101)) with (replicate 4 (byte_of_Z v)); [done|]. rewrite <-(Z.lxor_0_l (v * 0x1010101)), xor_be_word by done.
      change (be_enc 4 0) with (replicate 4 x00). by rewrite fmap_replicate, xor_byte_0.
  - apply Forall_app. split; [apply Forall_fmap|apply Forall_replicate; unfold word; lia]. eapply Forall_impl; [exact Hw|]. intros w Hx. cbn [compose].
    unfold word in *. split; [apply Z.lxor_nonneg; lia|]. destruct (decide (Z.lxor w (v * 16843009) = 0)) as [->|Hne]; [lia|].
    apply Z.log2_lt_pow2; [pose proof (proj2 (Z.lxor_nonneg w (v * 16843009)) ltac:(lia)); lia|]. eapply Z.le_lt_trans; [apply Z.log2_lxor; lia|].
    apply Z.max_lub_lt; [destruct (decide (w = 0)) as [->|]; [by vm_compute|apply Z.log2_lt_pow2; lia]|destruct (decide (v = 0)) as [->|]; [by vm_compute|apply Z.log2_lt_pow2; lia]].
  - rewrite length_app, length_fmap, length_replicate, Hl. done.
Qed.

(** * RFC 7914: key derivation and the whole function

    PBKDF2 with the padding of each digest written out, the array of the memory
    loop, and the two scrypt functions against the standard. *)

#[local] Opaque P256 SHA256_Transform SHS.

(** ** PBKDF2 of 80 bytes *)
Section header.
Context (passwd : list Z).
Hypothesis Hlen : length passwd = 20%nat.
Hypothesis Hwords : words passwd.
Abbreviation hdr := (words_mem passwd).
Abbreviation padded v := (xor_byte v <$> hmac_K0 K256 hdr).
Lemma H0_wf : length SHA256_H0 = 8%nat ∧ words SHA256_H0.
Proof. split; [done|]. by apply words_const. Qed.
Lemma drop_words n : words (drop n passwd) ∧ length (drop n passwd) = (20 - n)%nat.
Proof. split; [by apply Forall_drop|]. by rewrite length_drop, Hlen. Qed.
Lemma take4 : take 4 (drop 16 passwd) = drop 16 passwd.
Proof. apply take_ge. destruct (drop_words 16). lia. Qed.
Lemma length_hdr : length hdr = 80%nat.
Proof. by rewrite length_words_mem, Hlen. Qed.
Lemma key_hash_spec : words_be (key_hash passwd) = SHS K256 hdr ∧ length (key_hash passwd) = 8%nat ∧ words (key_hash passwd).
Proof.
  destruct H0_wf as [H8 HwH]. destruct (drop_words 16) as [Hd Hdl]. unfold key_hash. rewrite take4.
  assert (words (drop 16 passwd ++ passwdpad)) as Hw by (apply Forall_app; split; [done|by apply words_const]).
  assert (length (drop 16 passwd ++ passwdpad) = 16%nat) as H16 by (rewrite length_app, Hdl; done).
  rewrite (transform_mem SHA256_H0) by (done || lia). rewrite transform_mem by (apply P256_wf || done || lia). rewrite (take_ge (drop 16 passwd ++ _)) by lia.
  split; [|apply P256_wf]. symmetry. apply (SHS_blocks _ [words_mem (take 16 passwd); words_mem (drop 16 passwd ++ passwdpad)]).
  - repeat constructor; rewrite length_words_mem; [rewrite length_take; lia|lia].
  - rewrite (pad_known 80 39 _ (words_mem passwdpad)); [|apply length_hdr|done|by vm_compute]. cbn [concat]. rewrite app_nil_r, words_mem_app, (assoc_L (++)). f_equal. by rewrite <-words_mem_app, take_drop.
Qed.
Lemma padded_spec v : 0 ≤ v < 256 → words_be (xor_pad (v * 0x1010101) (key_hash passwd)) = padded v ∧
  words (xor_pad (v * 0x1010101) (key_hash passwd)) ∧ length (xor_pad (v * 0x1010101) (key_hash passwd)) = 16%nat.
Proof.
  intros Hv. destruct key_hash_spec as (Ek & Hl & Hw). destruct (xor_pad_spec v _ Hv Hw Hl) as (E & E1 & E2). split_and!; [|done..].
  rewrite E, Ek. unfold hmac_K0. rewrite length_hdr. change (kind_block K256 <? 80)%nat with true. cbv iota. rewrite length_SHS. done.
Qed.
Lemma length_padded v : length (padded v) = 64%nat.
Proof. by rewrite length_fmap, length_hmac_K0. Qed.
Lemma pad_start_spec v : 0 ≤ v < 256 → SHA256_Transform SHA256_H0 (xor_pad (v * 0x1010101) (key_hash passwd)) false = P256 SHA256_H0 (padded v).
Proof. intros Hv. destruct (padded_spec v Hv) as (E & Hw & Hl). destruct H0_wf. rewrite transform_be by done. by rewrite E. Qed.
(** The outer digest, over the state of the inner one. *)
Lemma outer_spec st : length st = 8%nat → words st →
  words_be (SHA256_Transform (SHA256_Transform SHA256_H0 (xor_pad 0x5c5c5c5c (key_hash passwd)) false) (st ++ outerpad) false) = SHS K256 (padded 0x5c ++ words_be st).
Proof.
  intros Hl Hw. change 0x5c5c5c5c with (0x5c * 0x1010101). rewrite pad_start_spec by lia.
  assert (words (st ++ outerpad)) as Hwo by (apply Forall_app; split; [done|by apply words_const]).
  rewrite transform_be; [|apply P256_wf|rewrite length_app, Hl; done|done]. symmetry. apply (SHS_blocks _ [padded 0x5c; words_be (st ++ outerpad)]).
  - repeat constructor; [apply length_padded|rewrite length_words_be, length_app, Hl; done].
  - rewrite (pad_known 96 23 _ (words_be outerpad)); [|rewrite length_app, length_padded, length_words_be, Hl; done|done|by vm_compute].
    cbn [concat]. by rewrite app_nil_r, words_be_app, (assoc_L (++)).
Qed.
(** The inner digest of 80 bytes and a block number. *)
Lemma inner_spec i : 0 ≤ i < 2 ^ 32 →
  let st := SHA256_Transform (SHA256_Transform (SHA256_Transform SHA256_H0 (xor_pad 0x36363636 (key_hash passwd)) false) passwd true)
              (be32enc_vect (take 4 (drop 16 passwd)) ++ [i] ++ be32enc_vect innerpad) false in
  words_be st = SHS K256 (padded 0x36 ++ hdr ++ be_enc 4 i) ∧ length st = 8%nat ∧ words st.
Proof.
  intros Hi. cbv zeta. change 0x36363636 with (0x36 * 0x1010101). rewrite pad_start_spec by lia. rewrite take4. destruct (drop_words 16) as [Hd Hdl].
  rewrite transform_mem by (apply P256_wf || done || lia). set (blk := be32enc_vect _ ++ _).
  assert (length blk = 16%nat) as Hb by (unfold blk, be32enc_vect; rewrite !length_app, !length_fmap, Hdl; done).
  assert (words blk) as Hw by (unfold blk; rewrite !Forall_app; split_and!; [apply words_htobe|by apply Forall_singleton|apply words_htobe]).
  rewrite transform_be; [|apply P256_wf|exact Hb|exact Hw]. split; [|apply P256_wf]. symmetry. apply (SHS_blocks _ [padded 0x36; words_mem (take 16 passwd); words_be blk]).
  - repeat constructor; [apply length_padded|rewrite length_words_mem, length_take; lia|rewrite length_words_be; lia].
  - rewrite (pad_known 148 35 _ (words_be (be32enc_vect innerpad))); [|rewrite !length_app, length_padded, length_hdr, length_be_enc; done|done|by vm_compute].
    cbn [concat]. rewrite app_nil_r. unfold blk. rewrite !words_be_app.
    rewrite (be_htobe (drop 16 passwd)) by exact Hd.
    change (words_be [i]) with (be_enc 4 i ++ []). rewrite app_nil_r, <-!(assoc_L (++)). f_equal. rewrite !(assoc_L (++)), <-words_mem_app, take_drop. done.
Qed.
Lemma kdf_128 : words_mem (PBKDF2_SHA256_80_128 passwd) = PBKDF2 hdr hdr 1 128 ∧ words (PBKDF2_SHA256_80_128 passwd) ∧ length (PBKDF2_SHA256_80_128 passwd) = 32%nat.
Proof.
  unfold PBKDF2_SHA256_80_128. set (f := λ i : nat, be32enc_vect _).
  assert (∀ i, (i < 4)%nat → words_mem (f i) = PBKDF2_T hdr hdr 1 (S i) ∧ words (f i) ∧ length (f i) = 8%nat) as Hf.
  { intros i Hi. unfold f. destruct (inner_spec (Z.of_nat i + 1) ltac:(lia)) as (E & Hl & Hw). cbv zeta in *. set (st := SHA256_Transform _ (_ ++ _ ++ _) false) in *.
    split; [|split; [apply words_htobe|]].
    - rewrite htobe_mem, outer_spec by done. rewrite E. unfold PBKDF2_T. cbn [Nat.sub seq foldl PBKDF2_U]. unfold HMAC. replace (Z.of_nat (S i)) with (Z.of_nat i + 1) by lia. done.
    - unfold be32enc_vect. rewrite length_fmap. apply transform_len, transform_len. done. }
  clearbody f. cbn [seq fmap list_fmap concat]. rewrite app_nil_r. destruct (Hf 0%nat) as (E0 & W0 & L0); [lia|]. destruct (Hf 1%nat) as (E1 & W1 & L1); [lia|].
  destruct (Hf 2%nat) as (E2 & W2 & L2); [lia|]. destruct (Hf 3%nat) as (E3 & W3 & L3); [lia|].
  split; [|split; [rewrite !Forall_app; auto|rewrite !length_app, L0, L1, L2, L3; done]].
  rewrite !words_mem_app, E0, E1, E2, E3. unfold PBKDF2. change ((128 + 31) / 32)%nat with 4%nat. cbn [seq fmap list_fmap concat]. rewrite app_nil_r. symmetry. apply take_ge.
  rewrite <-E0, <-E1, <-E2, <-E3, !length_app, !length_words_mem, L0, L1, L2, L3. done.
Qed.
(** The derivation of 32 bytes from the mixed words. *)
Lemma kdf_32 salt : length salt = 32%nat → words salt →
  words_be (PBKDF2_SHA256_80_128_32 passwd salt) = PBKDF2 hdr (words_mem salt) 1 32 ∧ length (PBKDF2_SHA256_80_128_32 passwd salt) = 8%nat.
Proof.
  intros Hs Hw. unfold PBKDF2_SHA256_80_128_32. split; [|apply transform_len, transform_len; done].
  assert (words (drop 16 salt) ∧ length (drop 16 salt) = 16%nat) as [Hd Hdl] by (split; [by apply Forall_drop|rewrite length_drop; lia]).
  assert (words ihash_finalblk) as Hf by (by apply words_const).
  set (st := SHA256_Transform _ ihash_finalblk false).
  assert (words_be st = SHS K256 (padded 0x36 ++ words_mem salt ++ be_enc 4 1) ∧ length st = 8%nat ∧ words st) as (E & Hl & Hws).
  { unfold st. change 0x36363636 with (0x36 * 0x1010101). rewrite pad_start_spec by lia. rewrite (transform_mem _ salt) by (apply P256_wf || done || lia).
    rewrite (transform_mem _ (drop 16 salt)) by (apply P256_wf || done || lia). rewrite (take_ge (drop 16 salt)) by lia.
    rewrite transform_be; [|apply P256_wf|done|exact Hf]. split; [|apply P256_wf]. symmetry.
    apply (SHS_blocks _ [padded 0x36; words_mem (take 16 salt); words_mem (drop 16 salt); words_be ihash_finalblk]).
    - repeat constructor; [apply length_padded|rewrite length_words_mem, length_take; lia|rewrite length_words_mem; lia].
    - rewrite (pad_known 196 51 _ (words_be (drop 1 ihash_finalblk))); [|rewrite !length_app, length_padded, length_words_mem, length_be_enc, Hs; done|done|by vm_compute].
      cbn [concat]. rewrite app_nil_r. change (words_be ihash_finalblk) with (be_enc 4 1 ++ words_be (drop 1 ihash_finalblk)).
      rewrite <-!(assoc_L (++)). f_equal. rewrite !(assoc_L (++)), <-words_mem_app, take_drop. done. }
  rewrite outer_spec by done. rewrite E. unfold PBKDF2. change ((32 + 31) / 32)%nat with 1%nat. cbn [seq fmap list_fmap concat]. rewrite app_nil_r.
  unfold PBKDF2_T. cbn [Nat.sub seq foldl PBKDF2_U]. rewrite take_ge; [done|]. by rewrite length_HMAC.
Qed.
End header.

(** ** Mixing *)
Ltac list16 x H := destruct x as [|?x0 [|?x1 [|?x2 [|?x3 [|?x4 [|?x5 [|?x6 [|?x7 [|?x8 [|?x9 [|?xa [|?xb [|?xc [|?xd [|?xe [|?xf [|]]]]]]]]]]]]]]]]]; try discriminate H.
Ltac unfold_rounds := cbv [foldl qr_op salsa_columns salsa_rows columnround rowround quarter insert list_insert at_t nth Z.of_nat Pos.of_succ_nat Pos.succ].
Lemma columns_spec x : length x = 16%nat → foldl qr_op x salsa_columns = columnround x.
Proof. intros Hx. list16 x Hx. unfold_rounds. reflexivity. Qed.
Lemma rows_spec x : length x = 16%nat → foldl qr_op x salsa_rows = rowround x.
Proof. intros Hx. list16 x Hx. unfold_rounds. reflexivity. Qed.
Lemma length_quarter x a b c d : length (quarter x a b c d) = length x.
Proof. unfold quarter. by rewrite !length_insert. Qed.
Lemma length_rounds x : length (rowround (columnround x)) = length x.
Proof. unfold rowround, columnround. by rewrite !length_quarter. Qed.
Lemma iter_ext {A} (f g : A → A) (Q : A → Prop) n x : (∀ x, Q x → f x = g x ∧ Q (g x)) → Q x → Nat.iter n f x = Nat.iter n g x ∧ Q (Nat.iter n g x).
Proof.
  intros Hfg Hx. induction n as [|n [E Hq]]; [done|]. cbn [Nat.iter nat_rect]. change (f (Nat.iter n f x) = g (Nat.iter n g x) ∧ Q (g (Nat.iter n g x))). rewrite E. by apply Hfg.
Qed.
Lemma salsa_spec B Bx : length B = 16%nat → length Bx = 16%nat →
  salsa20_8 B Bx = Salsa20_8 (xor_words B Bx) ∧ length (salsa20_8 B Bx) = 16%nat ∧ words (salsa20_8 B Bx).
Proof.
  intros Hb Hbx. assert (length (xor_words B Bx) = 16%nat) as Hx by (unfold xor_words; rewrite length_zip_with; lia).
  destruct (iter_ext salsa_double (λ x, rowround (columnround x)) (λ x, length x = 16%nat) 4 (xor_words B Bx)) as [E El]; [|done|].
  { intros x Hl. unfold salsa_double. rewrite columns_spec by done. assert (length (columnround x) = 16%nat) by (unfold columnround; by rewrite !length_quarter).
    rewrite rows_spec by done. split; [done|]. by rewrite length_rounds. }
  assert (salsa20_8 B Bx = Salsa20_8 (xor_words B Bx)) as Es by (unfold salsa20_8, Salsa20_8; fold (xor_words B Bx); by rewrite E).
  rewrite Es. split; [done|]. unfold Salsa20_8. split; [rewrite length_zip_with; lia|].
  apply Forall_lookup. intros i w Hi. apply lookup_zip_with_Some in Hi as (a & b & -> & _). apply word_u32.
Qed.
Lemma xor_words_comm a b : xor_words a b = xor_words b a.
Proof. unfold xor_words. revert b. induction a as [|x a IH]; intros [|y b]; try done. cbn [zip_with]. by rewrite IH, Z.lxor_comm. Qed.
Definition block32 (X : list Z) : Prop := length X = 32%nat ∧ words X.
Lemma mix_spec X : length X = 32%nat → mix X = BlockMix X ∧ block32 (BlockMix X).
Proof.
  intros Hx. assert (length (take 16 X) = 16%nat) as Ht by (rewrite length_take; lia). assert (length (drop 16 X) = 16%nat) as Hd by (rewrite length_drop; lia).
  destruct (salsa_spec _ _ Ht Hd) as (E0 & L0 & W0). destruct (salsa_spec (drop 16 X) _ Hd L0) as (E1 & L1 & W1).
  assert (mix X = BlockMix X) as E.
  { unfold mix, BlockMix. rewrite (xor_words_comm (drop 16 X)), <-E0. rewrite (xor_words_comm (salsa20_8 _ _)), <-E1. done. }
  split; [done|]. rewrite <-E. unfold mix. split; [rewrite length_app, L0, L1; done|]. by apply Forall_app.
Qed.
Lemma iter_mix n X : length X = 32%nat → Nat.iter n mix X = Nat.iter n BlockMix X ∧ length (Nat.iter n BlockMix X) = 32%nat.
Proof. apply (iter_ext mix BlockMix (λ X, length X = 32%nat)). intros x Hx. destruct (mix_spec x Hx) as [E [? _]]. done. Qed.
Lemma iter_block n X : block32 X → block32 (Nat.iter n BlockMix X).
Proof. intros Hx. apply (iter_ext BlockMix BlockMix block32); [|done]. intros x [Hl _]. split; [done|]. by apply mix_spec. Qed.
(** The array holds the iterates. *)
Definition filled (X : list Z) (m : nat) (V : list (list Z)) : Prop := length V = 1024%nat ∧ ∀ i, (i < m)%nat → nth i V [] = Nat.iter i mix X.
Lemma filled_insert X m V : filled X m V → (m < 1024)%nat → filled X (S m) (<[m := Nat.iter m mix X]> V).
Proof.
  intros [Hl HV] Hm. split; [by rewrite length_insert|]. intros i Hi. rewrite nth_lookup. destruct (decide (i = m)) as [->|Hne].
  - rewrite list_lookup_insert_eq by lia. done.
  - rewrite list_lookup_insert_ne by done. rewrite <-nth_lookup. apply HV. lia.
Qed.
Lemma fill_two_spec X n : (2 * n ≤ 1024)%nat →
  ∃ V, foldl fill_two (replicate 1024 [], X) ((λ k, (2 * k)%nat) <$> seq 0 n) = (V, Nat.iter (2 * n) mix X) ∧ filled X (2 * n) V.
Proof.
  induction n as [|n IH]; intros Hn.
  - exists (replicate 1024 []). split; [done|]. split; [apply length_replicate|lia].
  - destruct IH as (V & E & HV); [lia|]. rewrite seq_S, fmap_app, foldl_app, E. cbn [foldl fmap list_fmap]. rewrite Nat.add_0_l. unfold fill_two.
    replace (2 * S n)%nat with (S (S (2 * n))) by lia. replace (2 * n + 1)%nat with (S (2 * n)) by lia. eexists. split; [reflexivity|].
    apply (filled_insert X (S (2 * n))); [|lia]. by apply filled_insert; [|lia].
Qed.
Lemma fill_spec X n : (n ≤ 1024)%nat →
  ∃ V, foldl (λ '(V, X) i, (<[i := X]> V, algo_mix X)) (replicate 1024 [], X) (seq 0 n) = (V, Nat.iter n mix X) ∧ filled X n V.
Proof.
  induction n as [|n IH]; intros Hn.
  - exists (replicate 1024 []). split; [done|]. split; [apply length_replicate|lia].
  - destruct IH as (V & E & HV); [lia|]. rewrite seq_S, foldl_app, E. cbn [foldl]. rewrite Nat.add_0_l. eexists. split; [reflexivity|]. apply filled_insert; [done|lia].
Qed.
Lemma integerify_spec X : block32 X → Z.land (at_t X 16) 1023 = Integerify X mod 1024.
Proof.
  intros [Hl Hw]. unfold Integerify. destruct (drop 16 X) as [|w r] eqn:E; [apply (f_equal length) in E; rewrite length_drop, Hl in E; done|].
  assert (at_t X 16 = w) as ->. { unfold at_t. rewrite <-(take_drop 16 X), E, app_nth2; rewrite length_take, Hl; [done|lia]. }
  assert (word w) as Hww by (apply (Forall_drop _ 16) in Hw; rewrite E in Hw; by apply Forall_cons in Hw as [Hw _]).
  unfold words_mem. cbn [fmap list_fmap concat]. change 1023 with (Z.ones 10). rewrite Z.land_ones by lia. change (2 ^ 10) with 1024.
  assert (∀ a b, le_dec (a ++ b) = le_dec a + 256 ^ zlen a * le_dec b) as Happ.
  { intros a b. induction a as [|c a IH]; cbn [app le_dec length]; [change (256 ^ Z.of_nat 0) with 1; lia|]. rewrite IH, Nat2Z.inj_succ, Z.pow_succ_r by lia. lia. }
  rewrite Happ, le_dec_enc, length_le_enc. change (256 ^ Z.of_nat 4) with (2 ^ 32). rewrite (Z.mod_small w (2 ^ 32)) by exact Hww.
  change (2 ^ 32) with (2 ^ 22 * 1024). rewrite <-Z.mul_assoc, (Z.mul_comm 1024), Z.mul_assoc. by rewrite Z.mod_add.
Qed.
Lemma xor_row_spec X0 V X : block32 X0 → filled X0 1024 V → block32 X →
  mix (xor_row V X) = BlockMix (xor_words X (Nat.iter (Z.to_nat (Integerify X mod 1024)) BlockMix X0)) ∧ block32 (mix (xor_row V X)).
Proof.
  intros [H0 _] [_ HV] HX. unfold xor_row. rewrite integerify_spec by done. pose proof (Z.mod_pos_bound (Integerify X) 1024 ltac:(lia)) as Hj.
  set (j := Z.to_nat (Integerify X mod 1024)). rewrite HV by (unfold j; lia). destruct (iter_mix j X0 H0) as [-> Hl]. fold (xor_words X (Nat.iter j BlockMix X0)).
  destruct HX as [HX _]. destruct (mix_spec (xor_words X (Nat.iter j BlockMix X0))) as [-> Hb]; [unfold xor_words; rewrite length_zip_with, HX, Hl; done|]. done.
Qed.
Lemma iter_two {A} (g : A → A) n x : Nat.iter n (λ x, g (g x)) x = Nat.iter (2 * n) g x.
Proof. induction n as [|n IH]; [done|]. replace (2 * S n)%nat with (S (S (2 * n))) by lia. cbn [Nat.iter nat_rect]. f_equal. f_equal. exact IH. Qed.
Lemma romix_spec X0 V : block32 X0 → filled X0 1024 V →
  Nat.iter 1024 (λ X, mix (xor_row V X)) (Nat.iter 1024 mix X0) = ROMix 1024 X0 ∧ block32 (ROMix 1024 X0).
Proof.
  intros H0 HV. destruct (iter_mix 1024 X0) as [-> _]; [apply H0|]. unfold ROMix. change (Z.of_nat 1024) with 1024. apply iter_ext; [|by apply iter_block].
  intros X HX. destruct (xor_row_spec X0 V X H0 HV HX) as [E Hb]. rewrite E in *. done.
Qed.

(** ** Both functions *)
Lemma scrypt_sp_spec input : length input = 20%nat → words input →
  words_be (scrypt_sp input) = scrypt (words_mem input) (words_mem input) 1024 32 ∧ length (scrypt_sp input) = 8%nat.
Proof.
  intros Hl Hw. destruct (kdf_128 input Hl Hw) as (E & Hwk & Hlk). unfold scrypt_sp, scrypt. set (X := PBKDF2_SHA256_80_128 input) in *.
  assert (mem_words 32 (PBKDF2 (words_mem input) (words_mem input) 1 128) = X) as ->.
  { rewrite <-E, <-(app_nil_r (words_mem X)), <-Hlk. by apply mem_words_mem. }
  clearbody X. destruct (fill_two_spec X 512 ltac:(lia)) as (V & EV & HV). rewrite EV. change (2 * 512)%nat with 1024%nat in *. cbv beta iota zeta.
  pose proof (iter_two (λ X, mix (xor_row V X)) 512 (Nat.iter 1024 mix X)) as E2. cbv beta in E2. rewrite E2. change (2 * 512)%nat with 1024%nat.
  pose proof (romix_spec X V (conj Hlk Hwk) HV) as [E3 [Hr Hrw]]. rewrite E3. exact (kdf_32 input Hl Hw _ Hr Hrw).
Qed.
