(* ===== verification/Ossl.v ===== *)
(** * SHA-256 of the bundled OpenSSL

    [crypto/sha/sha256.c] (the portable block function, the schedule kept in a
    ring of 16 words) with the buffering of [crypto/md32_common.h]. It is the
    digest [libalgo] computes scrypt with. *)

From S2P Require Import Prelude Sha ShaSpec Hmac HmacSpec Scrypt ScryptSpec.

Definition SHA256_DIGEST_LENGTH : Z := 32.
(** The array [data] as its 64 bytes. *)
Record SHA256state_st := Sha256St { os_h : list Z; os_Nl : Z; os_Nh : Z; os_data : list byte; os_num : nat; os_md_len : Z }.
Definition os_set_h (c : SHA256state_st) (h : list Z) : SHA256state_st := Sha256St h (os_Nl c) (os_Nh c) (os_data c) (os_num c) (os_md_len c).
Definition os_set_data (c : SHA256state_st) (d : list byte) (num : nat) : SHA256state_st := Sha256St (os_h c) (os_Nl c) (os_Nh c) d num (os_md_len c).
Definition os_set_len (c : SHA256state_st) (l h : Z) : SHA256state_st := Sha256St (os_h c) l h (os_data c) (os_num c) (os_md_len c).

Definition os_ROTATE (a n : Z) : Z := ROTL 32 n a.
Definition os_Sigma0 (x : Z) : Z := xor3 (os_ROTATE x 30) (os_ROTATE x 19) (os_ROTATE x 10).
Definition os_Sigma1 (x : Z) : Z := xor3 (os_ROTATE x 26) (os_ROTATE x 21) (os_ROTATE x 7).
Definition os_sigma0 (x : Z) : Z := xor3 (os_ROTATE x 25) (os_ROTATE x 14) (Z.shiftr x 3).
Definition os_sigma1 (x : Z) : Z := xor3 (os_ROTATE x 15) (os_ROTATE x 13) (Z.shiftr x 10).
Definition os_Ch (x y z : Z) : Z := Z.lxor (Z.land x y) (Z.land (Z.lnot x) z).
Definition os_Maj (x y z : Z) : Z := Z.lxor (Z.lxor (Z.land x y) (Z.land x z)) (Z.land y z).
Definition os_K256 : list Z := Eval cbv in concat [
  [0x428a2f98; 0x71374491; 0xb5c0fbcf; 0xe9b5dba5]; [0x3956c25b; 0x59f111f1; 0x923f82a4; 0xab1c5ed5];
  [0xd807aa98; 0x12835b01; 0x243185be; 0x550c7dc3]; [0x72be5d74; 0x80deb1fe; 0x9bdc06a7; 0xc19bf174];
  [0xe49b69c1; 0xefbe4786; 0x0fc19dc6; 0x240ca1cc]; [0x2de92c6f; 0x4a7484aa; 0x5cb0a9dc; 0x76f988da];
  [0x983e5152; 0xa831c66d; 0xb00327c8; 0xbf597fc7]; [0xc6e00bf3; 0xd5a79147; 0x06ca6351; 0x14292967];
  [0x27b70a85; 0x2e1b2138; 0x4d2c6dfc; 0x53380d13]; [0x650a7354; 0x766a0abb; 0x81c2c92e; 0x92722c85];
  [0xa2bfe8a1; 0xa81a664b; 0xc24b8b70; 0xc76c51a3]; [0xd192e819; 0xd6990624; 0xf40e3585; 0x106aa070];
  [0x19a4c116; 0x1e376c08; 0x2748774c; 0x34b0bcb5]; [0x391c0cb3; 0x4ed8aa4a; 0x5b9cca4f; 0x682e6ff3];
  [0x748f82ee; 0x78a5636f; 0x84c87814; 0x8cc70208]; [0x90befffa; 0xa4506ceb; 0xbef9a3f7; 0xc67178f2]].

(** The registers [a .. h] are the list [S]; the call of round [i] passes them
    rotated by [i]. *)
Definition ROUND_00_15 (T1 : Z) (S : list Z) (i : nat) : list Z :=
  let r (n : nat) := ((64 + n - i) mod 8)%nat in
  let s (n : nat) := at_t S (r n) in
  let T1 := u32 (T1 + (s 7%nat + os_Sigma1 (s 4%nat) + os_Ch (s 4%nat) (s 5%nat) (s 6%nat) + at_t os_K256 i)) in
  let S := <[r 7%nat := u32 (os_Sigma0 (s 0%nat) + os_Maj (s 0%nat) (s 1%nat) (s 2%nat))]> S in
  let S := <[r 3%nat := u32 (at_t S (r 3%nat) + T1)]> S in
  <[r 7%nat := u32 (at_t S (r 7%nat) + T1)]> S.
Definition round_load (data : list byte) (SX : list Z * list Z) (i : nat) : list Z * list Z :=
  let l := be_dec (take 4 (drop (i * 4) data)) in (ROUND_00_15 l SX.1 i, <[i := l]> SX.2).
Definition ROUND_16_63 (SX : list Z * list Z) (i : nat) : list Z * list Z :=
  let X := SX.2 in
  let s0 := os_sigma0 (at_t X ((i + 1) mod 16)) in
  let s1 := os_sigma1 (at_t X ((i + 14) mod 16)) in
  let T1 := u32 (at_t X (i mod 16) + (s0 + s1 + at_t X ((i + 9) mod 16))) in
  (ROUND_00_15 T1 SX.1 i, <[(i mod 16)%nat := T1]> X).
Definition sha256_block (h : list Z) (data : list byte) : list Z :=
  let SX := foldl (round_load data) (h, replicate 16 0) (seq 0 16) in
  let SX := foldl ROUND_16_63 SX (seq 16 48) in
  zip_with (λ a b, u32 (a + b)) h SX.1.
Fixpoint sha256_block_data_order (h : list Z) (data : list byte) (num : nat) : list Z :=
  match num with O => h | S num => sha256_block_data_order (sha256_block h data) (drop 64 data) num end.

Definition SHA256_Init_ : Z * SHA256state_st := (1, Sha256St SHA256_H0 0 0 (replicate 64 x00) 0 SHA256_DIGEST_LENGTH).
(** The blocks of [data], and its rest into the empty buffer. *)
Definition update_rest (c : SHA256state_st) (data : list byte) : SHA256state_st :=
  let n := (length data / 64)%nat in
  let c := if (0 <? n)%nat then os_set_h c (sha256_block_data_order (os_h c) data n) else c in
  let data := drop (n * 64) data in
  if (length data =? 0)%nat then c else os_set_data c (copy_at (os_data c) 0 data) (length data).
Definition SHA256_Update_ (c : SHA256state_st) (data : list byte) : Z * SHA256state_st :=
  let len := zlen data in
  if len =? 0 then (1, c) else
  let l := Z.land (os_Nl c + Z.shiftl (u32 len) 3) 0xffffffff in
  let Nh := if l <? os_Nl c then u32 (os_Nh c + 1) else os_Nh c in
  let c := os_set_len c l (u32 (Nh + u32 (Z.shiftr len 29))) in
  let n := os_num c in
  if (n =? 0)%nat then (1, update_rest c data) else
  if (64 <=? length data)%nat || (64 <=? length data + n)%nat then
    let p := copy_at (os_data c) n (take (64 - n) data) in
    let c := os_set_h c (sha256_block_data_order (os_h c) p 1) in
    (1, update_rest (os_set_data c (replicate 64 x00) 0) (drop (64 - n) data))
  else (1, os_set_data c (copy_at (os_data c) n data) (n + length data)).
Definition SHA256_Final_ (c : SHA256state_st) : Z * list byte * SHA256state_st :=
  let p := <[os_num c := x80]> (os_data c) in
  let n := S (os_num c) in
  let '(n, c, p) :=
    if (64 - 8 <? n)%nat
    then let p := copy_at p n (replicate (64 - n) x00) in (0%nat, os_set_h c (sha256_block_data_order (os_h c) p 1), p)
    else (n, c, p) in
  let p := copy_at p n (replicate (64 - 8 - n) x00) in
  let p := copy_at p (64 - 8) (be_enc 4 (os_Nh c) ++ be_enc 4 (os_Nl c)) in
  let c := os_set_data (os_set_h c (sha256_block_data_order (os_h c) p 1)) (replicate 64 x00) 0 in
  if SHA256_DIGEST_LENGTH <? os_md_len c then (0, [], c)
  else (1, concat ((λ nn, be_enc 4 (at_t (os_h c) nn)) <$> seq 0 (Z.to_nat (os_md_len c / 4))), c).
#[export] Instance OpenSSL : SHA256lib := {
  SHA256_CTX := SHA256state_st;
  SHA256_Init := SHA256_Init_.2;
  SHA256_Update c l := (SHA256_Update_ c l).2;
  SHA256_Final c := (SHA256_Final_ c).1.2;
}.
