(* ===== verification/OsslSpec.v ===== *)
(** * The bundled SHA-256 computes the standard

    The block function with its ring of words, the buffer of an update, the
    padding, and the laws a client of the digest relies on. *)

From S2P Require Import Prelude Errors Crc Sha ShaSpec Hmac HmacSpec Scrypt ScryptSpec Ossl.

(** What [libalgo] relies on: a context holds the bytes it was given, and its
    result is their digest. *)
Class SHA256ok `{SHA256lib} := {
  ctx_holds : SHA256_CTX → list byte → Prop;
  Init_holds : ctx_holds SHA256_Init [];
  Update_holds c m l : ctx_holds c m → zlen (m ++ l) < 2 ^ 61 → ctx_holds (SHA256_Update c l) (m ++ l);
  Final_digest c m : ctx_holds c m → SHA256_Final c = SHS K256 m;
}.

(** ** The block function *)
Lemma ROTATE_ROTR x n : os_ROTATE x (32 - n) = ROTR 32 n x.
Proof. unfold os_ROTATE, ROTL, ROTR. rewrite Z.lor_comm. by replace (32 - (32 - n)) with n by lia. Qed.
Lemma Sigma0_eq x : os_Sigma0 x = SHA256_SIGMA0 x.
Proof. unfold os_Sigma0, SHA256_SIGMA0. by rewrite <-!ROTATE_ROTR. Qed.
Lemma Sigma1_eq x : os_Sigma1 x = SHA256_SIGMA1 x.
Proof. unfold os_Sigma1, SHA256_SIGMA1. by rewrite <-!ROTATE_ROTR. Qed.
Lemma sigma0_eq x : os_sigma0 x = SHA256_sigma0 x.
Proof. unfold os_sigma0, SHA256_sigma0. by rewrite <-!ROTATE_ROTR. Qed.
Lemma sigma1_eq x : os_sigma1 x = SHA256_sigma1 x.
Proof. unfold os_sigma1, SHA256_sigma1. by rewrite <-!ROTATE_ROTR. Qed.
Lemma K256_eq : os_K256 = SHA256_K.
Proof. by vm_compute. Qed.
Lemma round_eq W S i : length S = 8%nat → (i < 64)%nat → ROUND_00_15 (at_t W i) S i = RNDr W S i.
Proof.
  intros Hl Hi. unfold ROUND_00_15, RNDr. rewrite K256_eq, !Sigma0_eq, !Sigma1_eq. unfold os_Ch, os_Maj. fold (Ch (at_t S ((64 + 4 - i) mod 8)) (at_t S ((64 + 5 - i) mod 8)) (at_t S ((64 + 6 - i) mod 8))).
  fold (Maj (at_t S ((64 + 0 - i) mod 8)) (at_t S ((64 + 1 - i) mod 8)) (at_t S ((64 + 2 - i) mod 8))).
  rewrite <-SHA_Ch_eq, <-SHA_Maj_eq. cbn [Nat.add]. generalize (at_t W i) (at_t SHA256_K i). intros w k.
  set (r := ((64 - i) mod 8)%nat). assert (r < 8)%nat as Hr by (apply Nat.mod_upper_bound; lia).
  assert (∀ n, (64 ≤ n)%nat → ((n - i) mod 8 = (r + (n - 64)) mod 8)%nat) as E0.
  { intros n Hn. unfold r. rewrite Nat.Div0.add_mod_idemp_l. f_equal. lia. }
  rewrite !E0 by lia. clearbody r. clear E0 Hi.
  assert (∀ a b c, u32 (w + (a + b + c + k)) = u32 (a + b + c + u32 (w + k))) as Et by (intros; rewrite u32_add_r; f_equal; lia). rewrite !Et.
  destruct S as [|s0 [|s1 [|s2 [|s3 [|s4 [|s5 [|s6 [|s7 [|]]]]]]]]]; try discriminate Hl.
  do 8 (destruct r as [|r]; [cbv [at_t nth insert list_insert Nat.modulo Nat.divmod Nat.sub Nat.add fst snd]; rewrite (Z.add_comm (u32 (SHA256_SIGMA0 _ + _))); reflexivity|]); lia.
Qed.

(** The ring before round [i]: the last 16 words of the schedule. *)
Definition ring (W : list Z) (i : nat) (X : list Z) : Prop := length X = 16%nat ∧ ∀ j, (j < i)%nat → (i ≤ j + 16)%nat → at_t X (j mod 16) = at_t W j.
Lemma at_insert X i v j : (i < length X)%nat → at_t (<[i := v]> X) j = if (i =? j)%nat then v else at_t X j.
Proof.
  intros Hi. unfold at_t. rewrite !nth_lookup. destruct (Nat.eqb_spec i j) as [->|Hne]; [by rewrite list_lookup_insert_eq|by rewrite list_lookup_insert_ne].
Qed.
Lemma ring_insert W i X : ring W i X → ring W (S i) (<[(i mod 16)%nat := at_t W i]> X).
Proof.
  intros [Hl HX]. pose proof (Nat.mod_upper_bound i 16 ltac:(lia)). split; [by rewrite length_insert|]. intros j Hj Hij. rewrite at_insert by lia.
  destruct (Nat.eqb_spec (i mod 16) (j mod 16)) as [E|Hne]; [|apply HX; destruct (decide (j = i)) as [->|]; [done|lia..]].
  replace i with j; [done|]. pose proof (Nat.div_mod_eq i 16). pose proof (Nat.div_mod_eq j 16). lia.
Qed.
Section block.
Context (M : list byte).
Abbreviation W0 := (extend (sha2_next 32 SHA256_sigma0 SHA256_sigma1) 48 (load_words 4 M)).
Lemma W_load i : (i < 16)%nat → at_t W0 i = be_dec (take 4 (drop (i * 4) M)).
Proof.
  intros Hi. rewrite (extend_sched _ (rec2 32 SHA256_sigma0 SHA256_sigma1)); [|done|intros X X' t' Ht' HW; unfold rec2; by rewrite !HW by lia|lia].
  unfold W_. cbn [sched]. by rewrite (proj2 (Nat.ltb_lt i 16)).
Qed.
Lemma W_next i : (16 ≤ i < 64)%nat → at_t W0 i = u32 (SHA256_sigma1 (at_t W0 (i - 2)) + at_t W0 (i - 7) + SHA256_sigma0 (at_t W0 (i - 15)) + at_t W0 (i - 16)).
Proof.
  intros Hi. assert (∀ (X X' : nat → Z) t, (16 ≤ t)%nat → (∀ j, (j < t)%nat → X j = X' j) → rec2 32 SHA256_sigma0 SHA256_sigma1 X t = rec2 32 SHA256_sigma0 SHA256_sigma1 X' t) as Hrec.
  { intros X X' t' Ht' HW. unfold rec2. by rewrite !HW by lia. }
  rewrite !(extend_sched _ (rec2 32 SHA256_sigma0 SHA256_sigma1)); try done; try lia. unfold W_ at 1. cbn [sched]. rewrite (proj2 (Nat.ltb_ge i 16)) by lia.
  etrans; [apply Hrec; [lia|]; intros j Hj; apply (sched_fuel _ _ _ _ (S j)); [exact Hrec|lia..]|]. done.
Qed.
Lemma load_rounds h n : length h = 8%nat → (n ≤ 16)%nat →
  ∃ X, foldl (round_load M) (h, replicate 16 0) (seq 0 n) = (foldl (RNDr W0) h (seq 0 n), X) ∧ ring W0 n X.
Proof.
  intros Hh. induction n as [|n IH]; intros Hn; [exists (replicate 16 0); split; [done|]; split; [done|lia]|].
  destruct IH as (X & E & HX); [lia|]. rewrite seq_S, !foldl_app, E. cbn [foldl]. rewrite Nat.add_0_l. unfold round_load. cbn [fst snd].
  rewrite <-W_load by lia. destruct (rounds_spec W0 h n Hh ltac:(lia)) as [_ Hl]. rewrite round_eq by (exact Hl || lia). eexists. split; [reflexivity|].
  rewrite <-(Nat.mod_small n 16) at 2 by lia. by apply ring_insert.
Qed.
Lemma next_rounds h S X n : length h = 8%nat → S = foldl (RNDr W0) h (seq 0 16) → ring W0 16 X → (n ≤ 48)%nat →
  ∃ X', foldl ROUND_16_63 (S, X) (seq 16 n) = (foldl (RNDr W0) h (seq 0 (16 + n)), X') ∧ ring W0 (16 + n) X'.
Proof.
  intros Hh HS HX. induction n as [|n IH]; intros Hn; [exists X; by subst S|].
  destruct IH as (X' & E & HX'); [lia|]. rewrite Nat.add_succ_r, !seq_S, !foldl_app, E. cbn [foldl]. rewrite Nat.add_0_l. set (i := (16 + n)%nat) in *. unfold ROUND_16_63. cbn [fst snd].
  assert (∀ k, (k < 16)%nat → at_t X' ((i + k) mod 16) = at_t W0 (i - (16 - k))) as Hk.
  { intros k Hk. destruct HX' as [_ HX']. rewrite <-HX' by (unfold i; lia). f_equal. replace (i + k)%nat with (i - (16 - k) + 1 * 16)%nat by (unfold i; lia). apply Nat.Div0.mod_add. }
  pose proof (Hk 0%nat ltac:(lia)) as Hk0. rewrite Nat.add_0_r in Hk0. rewrite Hk0, !Hk by lia. clear Hk Hk0. rewrite sigma0_eq, sigma1_eq.
  assert (u32 (at_t W0 (i - (16 - 0)) + (SHA256_sigma0 (at_t W0 (i - (16 - 1))) + SHA256_sigma1 (at_t W0 (i - (16 - 14))) + at_t W0 (i - (16 - 9)))) = at_t W0 i) as ->.
  { rewrite (W_next i) by (unfold i; lia). cbn [Nat.sub]. f_equal. lia. }
  destruct (rounds_spec W0 h i Hh ltac:(unfold i; lia)) as [_ Hl]. rewrite round_eq by (exact Hl || (unfold i; lia)). eexists. split; [reflexivity|]. by apply ring_insert.
Qed.
Lemma block_rounds h : length h = 8%nat → sha256_block h M = P256 h M.
Proof.
  intros Hh. unfold sha256_block. destruct (load_rounds h 16 Hh ltac:(lia)) as (X & -> & HX). destruct (next_rounds h _ X 48 Hh eq_refl HX ltac:(lia)) as (X' & -> & _).
  cbn [fst]. change (16 + 48)%nat with 64%nat. unfold P256. rewrite <-sha2_process_eq. unfold sha2_process. change (Z.to_nat (32 / 8)) with 4%nat.
  set (W := extend _ 48 _). change (16 + 48)%nat with 64%nat. destruct (rounds_spec W h 64 Hh ltac:(lia)) as [E El]. rewrite <-E. clear E.
  generalize dependent (foldl (RNDr W) h (seq 0 64)). intros Sx El. clearbody W.
  destruct Sx as [|s0 [|s1 [|s2 [|s3 [|s4 [|s5 [|s6 [|s7 [|]]]]]]]]]; try discriminate El.
  destruct h as [|t0 [|t1 [|t2 [|t3 [|t4 [|t5 [|t6 [|t7 [|]]]]]]]]]; try discriminate Hh. reflexivity.
Qed.
End block.

(** ** The buffer *)
Lemma P256_take h M : P256 h (take 64 M) = P256 h M.
Proof.
  unfold P256. rewrite <-!sha2_process_eq. unfold sha2_process. change (Z.to_nat (32 / 8)) with 4%nat.
  assert (load_words 4 (take 64 M) = load_words 4 M) as ->; [|reflexivity]. unfold load_words. apply list_fmap_ext. intros i t Ht. apply lookup_seq in Ht as [-> Ht].
  rewrite Nat.add_0_l. f_equal. rewrite skipn_firstn_comm, take_take. f_equal. lia.
Qed.
#[local] Opaque P256.
Lemma blocks_absorb h M n : length h = 8%nat → sha256_block_data_order h M n = absorb P256 64 n h M ∧ length (absorb P256 64 n h M) = 8%nat.
Proof.
  revert h M. induction n as [|n IH]; intros h M Hh; [done|]. cbn [sha256_block_data_order absorb]. rewrite block_rounds, P256_take by done. apply IH. apply P256_wf.
Qed.
Lemma absorb_blocks_app n k h (a b : list byte) : length a = (n * 64)%nat → absorb P256 64 (n + k) h (a ++ b) = absorb P256 64 k (absorb P256 64 n h a) b.
Proof. intros Ha. rewrite absorb_add, absorb_app by lia. by rewrite drop_app_length' by lia. Qed.
(** The context has taken [m]: whole blocks into [h], the rest in [data]. *)
Record os_holds (c : SHA256state_st) (m : list byte) : Prop := OsHolds {
  oh_len : length (os_data c) = 64%nat;
  oh_md : os_md_len c = SHA256_DIGEST_LENGTH;
  oh_low : 0 ≤ os_Nl c < 2 ^ 32;
  oh_high : 0 ≤ os_Nh c;
  oh_bits : os_Nh c * 2 ^ 32 + os_Nl c = 8 * zlen m;
  oh_split : ∃ n bs rest, m = bs ++ rest ∧ length bs = (n * 64)%nat ∧ (length rest < 64)%nat ∧ os_h c = absorb P256 64 n SHA256_H0 bs ∧
    os_num c = length rest ∧ take (length rest) (os_data c) = rest;
}.
Lemma init_os_holds : os_holds SHA256_Init_.2 [].
Proof. constructor; [done..|cbn; lia|done|done|]. exists 0%nat, [], []. repeat split; cbn; lia. Qed.
Lemma H0_absorb n bs : length (absorb P256 64 n SHA256_H0 bs) = 8%nat.
Proof. by apply (blocks_absorb SHA256_H0). Qed.
Lemma length_copy p n l : (n + length l ≤ length p)%nat → length (copy_at p n l) = length p.
Proof. intros Hn. unfold copy_at. rewrite !length_app, length_take, length_drop. lia. Qed.
Lemma take_copy p n l : (n ≤ length p)%nat → take (n + length l) (copy_at p n l) = take n p ++ l.
Proof. intros Hn. unfold copy_at. rewrite (assoc_L (++)). apply take_app_length'. rewrite length_app, length_take. lia. Qed.
Lemma add_len Nl Nh n len : 0 ≤ Nl < 2 ^ 32 → 0 ≤ Nh → Nh * 2 ^ 32 + Nl = 8 * n → 0 ≤ n → 0 ≤ len → n + len < 2 ^ 61 →
  let l := Z.land (Nl + Z.shiftl (u32 len) 3) 0xffffffff in
  let h := u32 ((if l <? Nl then u32 (Nh + 1) else Nh) + u32 (Z.shiftr len 29)) in
  0 ≤ l < 2 ^ 32 ∧ 0 ≤ h ∧ h * 2 ^ 32 + l = 8 * (n + len).
Proof.
  intros Hl Hh Hb Hn Hlen Hfit. cbv zeta. rewrite Z.shiftr_div_pow2 by lia.
  set (x := 8 * (len mod 2 ^ 29)). set (q := len / 2 ^ 29). assert (8 * len = q * 2 ^ 32 + x) as Hx by (unfold q, x; pose proof (Z.div_mod len (2 ^ 29)); lia).
  assert (0 ≤ x < 2 ^ 32) as Hxr by (unfold x; pose proof (Z.mod_pos_bound len (2 ^ 29)); lia).
  assert (0 ≤ q) as Hq by (apply Z.div_pos; lia).
  assert (Z.land (Nl + Z.shiftl (u32 len) 3) 4294967295 = (Nl + x) mod 2 ^ 32) as ->.
  { change 4294967295 with (Z.ones 32). rewrite Z.land_ones, Z.shiftl_mul_pow2 by lia. unfold u32. change (2 ^ 3) with 8.
    rewrite <-(Z.add_mod_idemp_r _ (_ * 8)) by lia. rewrite Z.mul_mod_idemp_l by lia. rewrite Z.add_mod_idemp_r by lia. replace (Nl + len * 8) with (Nl + x + q * 2 ^ 32) by lia. apply Z.mod_add. lia. }
  assert (u32 q = q) as -> by (apply u32_small; lia).
  clearbody x q. destruct (Z.lt_ge_cases (Nl + x) (2 ^ 32)) as [Hc|Hc].
  - rewrite (Z.mod_small (Nl + x)) by lia. rewrite (proj2 (Z.ltb_ge (Nl + x) Nl)) by lia. rewrite u32_small by lia. lia.
  - assert ((Nl + x) mod 2 ^ 32 = Nl + x - 2 ^ 32) as -> by (symmetry; apply (Z.mod_unique _ _ 1); lia). rewrite (proj2 (Z.ltb_lt _ _)) by lia. rewrite (u32_small (Nh + 1)) by lia. rewrite u32_small by lia. lia.
Qed.
(** Whole blocks and a rest, behind whole blocks. *)
Lemma update_rest_holds c m data n : os_num c = 0%nat → length (os_data c) = 64%nat → os_md_len c = SHA256_DIGEST_LENGTH → 0 ≤ os_Nl c < 2 ^ 32 → 0 ≤ os_Nh c →
  os_Nh c * 2 ^ 32 + os_Nl c = 8 * zlen (m ++ data) → length m = (n * 64)%nat → os_h c = absorb P256 64 n SHA256_H0 m → os_holds (update_rest c data) (m ++ data).
Proof.
  intros Hnum Hd Hmd Hl Hh Hb Hm HH. pose proof (Nat.div_mod_eq (length data) 64) as Hdm. pose proof (Nat.mod_upper_bound (length data) 64 ltac:(lia)) as Hr.
  unfold update_rest. set (k := (length data / 64)%nat) in *. set (c1 := if (0 <? k)%nat then _ else c).
  assert (c1 = os_set_h c (absorb P256 64 k (os_h c) data)) as ->.
  { unfold c1. destruct (Nat.ltb_spec 0 k) as [_|H0]; [f_equal; apply blocks_absorb; rewrite HH; apply H0_absorb|]. assert (k = 0%nat) as -> by lia. by destruct c. }
  assert (absorb P256 64 k (os_h c) data = absorb P256 64 (n + k) SHA256_H0 (m ++ take (k * 64) data)) as Ha.
  { rewrite absorb_blocks_app by done. rewrite <-HH. rewrite <-(take_drop (k * 64) data) at 1. apply absorb_app. rewrite length_take. lia. }
  assert (m ++ data = (m ++ take (k * 64) data) ++ drop (k * 64) data) as Em by (by rewrite <-(assoc_L (++)), take_drop).
  assert (length (m ++ take (k * 64) data) = (n + k) * 64)%nat as Elen by (rewrite length_app, length_take; lia).
  assert (length (drop (k * 64) data) < 64)%nat as Hrest by (rewrite length_drop; lia).
  destruct (Nat.eqb_spec (length (drop (k * 64) data)) 0) as [E0|E0].
  - constructor; try done. exists (n + k)%nat, (m ++ take (k * 64) data), (drop (k * 64) data). cbn [os_h os_num os_data os_set_h]. rewrite E0, Hnum. split_and!; try done; [lia|].
    apply nil_length_inv in E0. by rewrite E0.
  - constructor; try done; cbn [os_h os_num os_data os_set_h os_set_data]; [rewrite length_copy; lia|].
    exists (n + k)%nat, (m ++ take (k * 64) data), (drop (k * 64) data). split_and!; try done. rewrite <-(Nat.add_0_l (length _)) at 1. by rewrite take_copy by lia.
Qed.
Lemma update_os_holds c m l : os_holds c m → zlen (m ++ l) < 2 ^ 61 → os_holds (SHA256_Update_ c l).2 (m ++ l).
Proof.
  intros Hc Hfit. unfold SHA256_Update_. destruct (Z.eqb_spec (zlen l) 0) as [E0|E0]; [destruct l; [by rewrite app_nil_r|done]|].
  destruct Hc as [Hd Hmd Hl Hh Hb (n & bs & rest & -> & Hbs & Hrest & HH & Hnum & Htake)].
  rewrite length_app in Hfit. destruct (add_len _ _ (zlen (bs ++ rest)) (zlen l) Hl Hh Hb) as (L1 & L2 & L3); [lia..|]. set (l1 := Z.land _ _) in *. set (h1 := u32 (_ + _)) in *.
  assert (h1 * 2 ^ 32 + l1 = 8 * zlen ((bs ++ rest) ++ l)) as L3' by (rewrite (length_app (bs ++ rest)); lia). clear L3. clearbody l1 h1. cbn [os_num os_set_len]. rewrite Hnum.
  destruct (Nat.eqb_spec (length rest) 0) as [Er|Er].
  { apply nil_length_inv in Er as ->. rewrite app_nil_r in *. by apply (update_rest_holds _ _ _ n). }
  destruct (_ || _) eqn:Ec; cbn [snd].
  - assert (64 - length rest ≤ length l)%nat as Hge by (apply orb_true_iff in Ec as [Ec%Nat.leb_le|Ec%Nat.leb_le]; lia). clear Ec.
    set (t := take (64 - length rest) l). assert (length t = 64 - length rest)%nat as Ht by (unfold t; rewrite length_take; lia).
    assert (copy_at (os_data c) (length rest) t = rest ++ t) as Ecp.
    { unfold copy_at. rewrite Htake, Ht, drop_ge, app_nil_r by lia. done. }
    cbn [os_data os_h os_set_len os_set_h]. rewrite Ecp.
    assert ((bs ++ rest) ++ l = (bs ++ rest ++ t) ++ drop (64 - length rest) l) as Em by (rewrite <-!(assoc_L (++)); unfold t; by rewrite take_drop).
    rewrite Em in *. apply (update_rest_holds _ _ _ (n + 1)); cbn [os_num os_data os_md_len os_Nl os_Nh os_h os_set_data os_set_h os_set_len]; try done.
    + rewrite !length_app, Hbs, Ht. lia.
    + rewrite HH. rewrite (proj1 (blocks_absorb _ _ 1 (H0_absorb n bs))). by rewrite absorb_blocks_app.
  - apply orb_false_iff in Ec as [Ec1%Nat.leb_gt Ec2%Nat.leb_gt]. constructor; cbn [os_num os_data os_md_len os_Nl os_Nh os_h os_set_data os_set_h os_set_len]; try done; [rewrite length_copy; lia|].
    exists n, bs, (rest ++ l). rewrite length_app. split_and!; try done; [by rewrite (assoc_L (++))|lia|]. rewrite take_copy by lia. by rewrite Htake.
Qed.

(** ** The padding *)
Lemma pad_one (rest : list byte) (m : list byte) n : length m = (n * 64 + length rest)%nat → (length rest < 56)%nat →
  pad 64 4 m = m ++ [x80] ++ replicate (55 - length rest) x00 ++ be_enc 8 (8 * zlen m).
Proof.
  intros Hm Hr. unfold pad. do 3 f_equal. f_equal. change (2 * 4)%nat with 8%nat. rewrite Hm. replace (n * 64 + length rest + 1 + 8)%nat with (length rest + 9 + n * 64)%nat by lia.
  rewrite Nat.Div0.mod_add. destruct (decide (length rest = 55%nat)) as [->|]; [done|]. rewrite (Nat.mod_small (length rest + 9)) by lia. rewrite Nat.mod_small by lia. lia.
Qed.
Lemma pad_two (rest : list byte) (m : list byte) n : length m = (n * 64 + length rest)%nat → (56 ≤ length rest < 64)%nat →
  pad 64 4 m = m ++ [x80] ++ replicate (63 - length rest) x00 ++ replicate 56 x00 ++ be_enc 8 (8 * zlen m).
Proof.
  intros Hm Hr. unfold pad. rewrite (assoc_L (++) (replicate (63 - _) _)), <-replicate_add. do 3 f_equal. f_equal. change (2 * 4)%nat with 8%nat. rewrite Hm.
  replace (n * 64 + length rest + 1 + 8)%nat with (length rest + 9 - 64 + (n + 1) * 64)%nat by lia.
  rewrite Nat.Div0.mod_add. rewrite (Nat.mod_small (length rest + 9 - 64)) by lia. rewrite Nat.mod_small by lia. lia.
Qed.
Lemma insert_rest (p rest : list byte) : take (length rest) p = rest → (length rest < length p)%nat → <[length rest := x80]> p = (rest ++ [x80]) ++ drop (S (length rest)) p.
Proof. intros Ht Hl. rewrite insert_take_drop by done. rewrite Ht. by rewrite <-(assoc_L (++)). Qed.
Lemma copy_behind (a l b : list byte) n : length a = n → copy_at (a ++ b) n l = a ++ l ++ drop (length l) b.
Proof. intros <-. unfold copy_at. rewrite take_app_length, drop_app_ge by lia. do 3 f_equal. lia. Qed.
Lemma final_hash n bs tail k : length bs = (n * 64)%nat → length tail = (k * 64)%nat →
  absorb P256 64 (length (bs ++ tail) / 64) SHA256_H0 (bs ++ tail) = absorb P256 64 k (absorb P256 64 n SHA256_H0 bs) tail.
Proof. intros Hb Ht. rewrite length_app, Hb, Ht, <-Nat.mul_add_distr_r, Nat.div_mul by lia. by apply absorb_blocks_app. Qed.
Lemma words_out h : length h = 8%nat → concat ((λ nn, be_enc 4 (at_t h nn)) <$> seq 0 8) = concat (be_enc 4 <$> h).
Proof. intros Hh. etrans; [|apply (f_equal (λ l, concat (be_enc 4 <$> l)) (eq_sym (list_at_t h 8 Hh)))]. by rewrite <-list_fmap_compose. Qed.
Lemma final_digest c m : os_holds c m → (SHA256_Final_ c).1.2 = SHS K256 m.
Proof.
  intros [Hd Hmd Hl Hh Hb (n & bs & rest & -> & Hbs & Hrest & HH & Hnum & Htake)].
  assert (be_enc 4 (os_Nh c) ++ be_enc 4 (os_Nl c) = be_enc 8 (8 * zlen (bs ++ rest))) as Elen.
  { rewrite <-Hb. symmetry. apply (be_enc_pair 4). exact Hl. }
  assert (length (bs ++ rest) = n * 64 + length rest)%nat as Hm by (rewrite length_app; lia).
  set (res := absorb P256 64 (length (pad 64 4 (bs ++ rest)) / 64) SHA256_H0 (pad 64 4 (bs ++ rest))).
  enough (∃ k tail c', SHA256_Final_ c = (1, concat ((λ nn, be_enc 4 (at_t (absorb P256 64 k (os_h c) tail) nn)) <$> seq 0 8), c') ∧
      length tail = (k * 64)%nat ∧ pad 64 4 (bs ++ rest) = bs ++ tail) as (k & tail & c' & -> & Ht & Ep).
  { cbn [fst snd]. assert (absorb P256 64 k (os_h c) tail = res) as -> by (unfold res; rewrite Ep, (final_hash n _ _ k) by done; by rewrite HH).
    assert (length res = 8%nat) as Hres by apply H0_absorb. rewrite words_out by done. unfold SHS, fips_digest, fips_hash. fold res. symmetry. apply take_ge.
    fold (words_be res). rewrite length_words_be. lia. }
  unfold SHA256_Final_. rewrite Hnum, insert_rest by (done || lia). set (ra := rest ++ [x80]). assert (length ra = S (length rest)) as Hra by (unfold ra; rewrite length_app; simpl; lia).
  set (d := drop (S (length rest)) (os_data c)). assert (length d = 63 - length rest)%nat as Hdl by (unfold d; rewrite length_drop; lia). clearbody d.
  assert (length (os_h c) = 8%nat) as H8 by (rewrite HH; apply H0_absorb).
  destruct (Nat.ltb_spec (64 - 8) (S (length rest))) as [Hlt|Hge]; cbn [os_h os_Nh os_Nl os_md_len os_set_h os_set_data]; rewrite Hmd; change (SHA256_DIGEST_LENGTH <? SHA256_DIGEST_LENGTH) with false; change (Z.to_nat (SHA256_DIGEST_LENGTH / 4)) with 8%nat; cbv iota.
  - rewrite (copy_behind ra) by done. rewrite length_replicate, drop_ge, app_nil_r by lia. replace (64 - S (length rest))%nat with (63 - length rest)%nat by lia.
    set (b1 := ra ++ _). assert (length b1 = 64%nat) as Hb1 by (unfold b1; rewrite length_app, length_replicate; lia).
    change (64 - 8 - 0)%nat with 56%nat. assert (copy_at b1 0 (replicate 56 x00) = replicate 56 x00 ++ drop 56 b1) as -> by done.
    rewrite (copy_behind (replicate 56 x00)) by apply length_replicate. rewrite Elen, drop_ge, app_nil_r by (rewrite length_drop, length_be_enc; lia).
    set (b2 := replicate 56 x00 ++ _). assert (length b2 = 64%nat) as Hb2 by (unfold b2; rewrite length_app, length_replicate, length_be_enc; done).
    destruct (blocks_absorb (os_h c) b1 1 H8) as [-> L1]. destruct (blocks_absorb _ b2 1 L1) as [-> _]. exists 2%nat, (b1 ++ b2). eexists. split_and!.
    + change 2%nat with (1 + 1)%nat. rewrite absorb_blocks_app by lia. reflexivity.
    + rewrite length_app. lia.
    + rewrite (pad_two rest _ n) by lia. unfold b1, b2, ra. by rewrite <-!(assoc_L (++)).
  - replace (64 - 8 - S (length rest))%nat with (55 - length rest)%nat by lia. rewrite (copy_behind ra) by done. rewrite length_replicate, (assoc_L (++)).
    rewrite (copy_behind (ra ++ _)) by (rewrite length_app, length_replicate; lia). rewrite Elen, (drop_ge (drop _ d)), app_nil_r by (rewrite length_drop, length_be_enc; lia).
    set (b1 := (ra ++ _) ++ _). assert (length b1 = 64%nat) as Hb1 by (unfold b1; rewrite !length_app, length_replicate, length_be_enc; lia).
    destruct (blocks_absorb (os_h c) b1 1 H8) as [-> _]. exists 1%nat, b1. eexists. split_and!; [reflexivity|lia|].
    rewrite (pad_one rest _ n) by lia. unfold b1, ra. by rewrite <-!(assoc_L (++)).
Qed.
#[export] Instance OpenSSL_ok : SHA256ok := {
  ctx_holds := os_holds;
  Init_holds := init_os_holds;
  Update_holds := update_os_holds;
  Final_digest := final_digest;
}.

(** * RFC 7914: scrypt of the coin server

    HMAC, PBKDF2 and scrypt of [libalgo] on any SHA-256 that keeps its promise
    ([SHA256ok]), and that both scrypt functions of the program compute the
    standard. *)

#[local] Opaque P256 SHA256_Transform SHS.

(** ** Words and bytes *)
Lemma byte_land x : byte_of_Z (Z.land x 0xff) = byte_of_Z x.
Proof. apply byte_mod_eq. change 0xff with (Z.ones 8). rewrite Z.land_ones by lia. change (2 ^ 8) with 256. apply Z.mod_mod. lia. Qed.
Lemma le32enc_eq x : le32enc x = le_enc 4 x.
Proof.
  unfold le32enc. cbn [fmap list_fmap le_enc]. rewrite !byte_land, !Z.shiftr_div_pow2 by lia. rewrite !Z.div_div by lia. done.
Qed.
Lemma be32enc_eq x : be32enc x = be_enc 4 x.
Proof. change (be32enc x) with (reverse (le32enc x)). by rewrite le32enc_eq. Qed.
Lemma le32dec_eq p : (4 ≤ length p)%nat → le32dec p = le_dec (take 4 p).
Proof.
  destruct p as [|a [|b [|c [|d r]]]]; cbn [length]; try lia. intros _. unfold le32dec. cbn [nth firstn le_dec]. rewrite !Z.shiftl_mul_pow2 by lia.
  pose proof (Z_of_byte_range a). pose proof (Z_of_byte_range b). pose proof (Z_of_byte_range c). pose proof (Z_of_byte_range d).
  change (2 ^ 8) with 256. change (2 ^ 16) with 65536. change (2 ^ 24) with 16777216. rewrite take_0. cbn [le_dec]. rewrite u32_small; lia.
Qed.
Lemma mem_words_seq n l : (4 * n ≤ length l)%nat → (λ k, le32dec (drop (4 * k) l)) <$> seq 0 n = mem_words n l.
Proof.
  revert l. induction n as [|n IH]; intros l Hl; [done|]. cbn [seq fmap list_fmap mem_words]. rewrite Nat.mul_0_r, drop_0, le32dec_eq by lia. f_equal.
  rewrite <-IH by (rewrite length_drop; lia). rewrite <-fmap_S_seq, <-list_fmap_compose. apply list_fmap_ext. intros i k _. cbn [compose]. rewrite drop_drop. do 2 f_equal. lia.
Qed.

Section algo.
Context `{SHA256ok}.
(** ** HMAC *)
Abbreviation padded v K := (xor_byte v <$> hmac_K0 K256 K).
Definition hmac_ctx_holds (ctx : HMAC_SHA256_CTX) (K text : list byte) : Prop := ctx_holds ctx.1 (padded 0x36 K ++ text) ∧ ctx_holds ctx.2 (padded 0x5c K).
Lemma digest_once l : zlen l < 2 ^ 61 → SHA256_Final (SHA256_Update SHA256_Init l) = SHS K256 l.
Proof. intros Hl. apply Final_digest. apply (Update_holds _ []); [apply Init_holds|done]. Qed.
Lemma hmac_pad_spec v K : zlen K < 2 ^ 61 → 0 ≤ v < 256 →
  hmac_pad v (if 64 <? zlen K then SHA256_Final (SHA256_Update SHA256_Init K) else K) = padded v K.
Proof.
  intros HK Hv. unfold hmac_K0. change (kind_block K256) with 64%nat. assert ((64 <? zlen K) = (64 <? length K)%nat) as ->.
  { destruct (Z.ltb_spec 64 (zlen K)), (Nat.ltb_spec 64 (length K)); lia. }
  set (K' := if (64 <? length K)%nat then SHS K256 K else K). assert ((if (64 <? length K)%nat then SHA256_Final (SHA256_Update SHA256_Init K) else K) = K') as ->.
  { unfold K'. by rewrite digest_once. }
  unfold hmac_pad, zeros. rewrite fmap_app, fmap_replicate, xor_byte_0 by done. done.
Qed.
Lemma length_padded_K v K : length (padded v K) = 64%nat.
Proof. by rewrite length_fmap, length_hmac_K0. Qed.
Lemma hmac_init_holds K : zlen K < 2 ^ 61 → hmac_ctx_holds (HMAC_SHA256_Init K) K [].
Proof.
  intros HK. unfold HMAC_SHA256_Init. rewrite !hmac_pad_spec by (done || lia). unfold hmac_ctx_holds. cbn [fst snd]. rewrite app_nil_r.
  split; (apply (Update_holds _ []); [apply Init_holds|rewrite app_nil_l, length_padded_K; lia]).
Qed.
Lemma hmac_update_holds ctx K text l : hmac_ctx_holds ctx K text → zlen (text ++ l) < 2 ^ 60 → hmac_ctx_holds (HMAC_SHA256_Update ctx l) K (text ++ l).
Proof.
  intros [H1 H2] Hl. split; [|done]. cbn [fst HMAC_SHA256_Update]. rewrite (assoc_L (++)). apply Update_holds; [done|]. rewrite <-(assoc_L (++)), length_app, length_padded_K. lia.
Qed.
Lemma hmac_final ctx K text : hmac_ctx_holds ctx K text → HMAC_SHA256_Final ctx = HMAC K256 K text.
Proof.
  intros [H1 H2]. unfold HMAC_SHA256_Final, HMAC. rewrite (Final_digest _ _ H1). apply Final_digest, Update_holds; [done|].
  rewrite length_app, length_padded_K, length_SHS. cbn [kind_size]. lia.
Qed.

(** ** PBKDF2 *)
Section pbkdf2.
Context (P salt : list byte).
Hypothesis HP : zlen P < 2 ^ 61.
Lemma length_U i j : length (PBKDF2_U P salt i j) = 32%nat.
Proof. destruct j; apply length_HMAC. Qed.
Lemma rounds_T i n T j : pbkdf2_rounds n P T (PBKDF2_U P salt i j) = foldl (λ T j, xor_bytes T (PBKDF2_U P salt i j)) T (seq (S j) n).
Proof.
  revert T j. induction n as [|n IH]; intros T j; [done|]. cbn [pbkdf2_rounds seq foldl].
  assert (HMAC_SHA256_Final (HMAC_SHA256_Update (HMAC_SHA256_Init P) (PBKDF2_U P salt i j)) = PBKDF2_U P salt i (S j)) as ->; [|apply IH].
  cbn [PBKDF2_U]. apply hmac_final, (hmac_update_holds _ _ []); [by apply hmac_init_holds|]. rewrite app_nil_l, length_U. lia.
Qed.
Lemma pbkdf2_spec c dkLen : zlen salt < 2 ^ 59 → PBKDF2_SHA256 P salt c dkLen = PBKDF2 P salt (Z.to_nat c) dkLen.
Proof.
  intros Hs. unfold PBKDF2_SHA256, PBKDF2. f_equal. f_equal. rewrite <-fmap_S_seq, <-list_fmap_compose. apply list_fmap_ext. intros k i _. cbn [compose].
  unfold pbkdf2_block, PBKDF2_T. set (U := HMAC_SHA256_Final _).
  assert (U = PBKDF2_U P salt (S i) 0) as ->.
  { unfold U. cbn [PBKDF2_U]. rewrite be32enc_eq. replace (Z.of_nat i + 1) with (Z.of_nat (S i)) by lia. apply hmac_final, hmac_update_holds.
    - apply (hmac_update_holds _ _ []); [by apply hmac_init_holds|]. rewrite app_nil_l. lia.
    - rewrite length_app, length_be_enc. lia. }
  replace (Z.to_nat (c - 1)) with (Z.to_nat c - 1)%nat by lia. apply rounds_T.
Qed.
End pbkdf2.
Lemma length_PBKDF2 P S c n : (0 < c)%nat → length (PBKDF2 P S c n) = n.
Proof.
  intros Hc. unfold PBKDF2. rewrite length_take. apply Nat.min_l. rewrite length_concat, <-list_fmap_compose.
  assert (∀ i, length (PBKDF2_T P S c i) = 32%nat) as HT.
  { intros i. unfold PBKDF2_T. assert (∀ l T, length T = 32%nat → length (foldl (λ T j, xor_bytes T (PBKDF2_U P S i j)) T l) = 32%nat) as Hf; [|apply Hf, length_U].
    induction l as [|j l IH]; intros T HT; [done|]. apply IH. unfold xor_bytes. rewrite length_zip_with, HT, length_U. done. }
  rewrite (sum_list_fmap_same 32); [|apply Forall_true; intros; apply HT]. rewrite length_seq. pose proof (Nat.div_mod_eq (n + 31) 32). pose proof (Nat.mod_upper_bound (n + 31) 32). lia.
Qed.

(** ** Scrypt *)
Lemma algo_scrypt input : (80 ≤ length input)%nat → scrypt_1024_1_1_256_sp input = scrypt (take 80 input) (take 80 input) 1024 32.
Proof.
  intros Hl. set (hdr := take 80 input). assert (length hdr = 80%nat) as Hh by (unfold hdr; rewrite length_take; lia).
  unfold scrypt_1024_1_1_256_sp, scrypt. fold hdr. rewrite pbkdf2_spec by lia. change (Z.to_nat 1) with 1%nat.
  set (B := PBKDF2 hdr hdr 1 128). assert (length B = 128%nat) as HB by (apply length_PBKDF2; lia). rewrite mem_words_seq by lia.
  destruct (mem_words_range 32 B) as [Hw Hwl]; [lia|]. generalize dependent (mem_words 32 B). intros X Hw Hwl. clearbody B.
  destruct (fill_spec X 1024 ltac:(lia)) as (V & EV & HV). rewrite EV. cbv beta iota zeta.
  pose proof (romix_spec X V (conj Hwl Hw) HV) as [E3 [Hr _]].
  assert (Nat.iter 1024 (λ X, algo_mix (xor_row V X)) (Nat.iter 1024 mix X) = ROMix 1024 X) as -> by exact E3.
  generalize dependent (ROMix 1024 X). intros R _ Hr. assert (concat (le32enc <$> R) = words_mem R) as ->.
  { unfold words_mem. f_equal. apply list_fmap_ext. intros. apply le32enc_eq. }
  rewrite pbkdf2_spec by (rewrite ?length_words_mem; lia). done.
Qed.
End algo.
