(* ===== verification/Work.v ===== *)
(** * Proof of work: the miner

    The work unit of [shmem_scrypt.c] (coinbase, merkle root, header, target) and
    the nonce scan of [shmem_scrypt_gen.c], with the console miner of
    [shcon_mine.c] on top. Memory is bytes; a write or read outside an array is
    [None]. The clock is an argument, doubles are the class [Double64], and the
    bytes of arrays the code does not initialise are arguments too. *)

From S2P Require Import Prelude Errors Crc Sha Hmac Key Clients Services Scrypt.

Definition SHERR_FBIG : Z := -27.
Definition TNR_GOOD : Z := 1.
Definition TNR_HIGH : Z := 0.
Definition swab32 (v : Z) : Z := htonl v.
Definition swap32yes (l : list byte) (sz : nat) : list byte := words_mem (swab32 <$> mem_words sz l).
Definition flip32 (src : list byte) : list byte := swap32yes src 8.
Definition shscrypt_swap256 (src : list byte) : list byte := words_mem ((λ i, at_t (mem_words 8 src) (7 - i)) <$> seq 0 8).
Definition swab256 (src : list byte) : list byte := words_mem ((λ i, swab32 (at_t (mem_words 8 src) (7 - i))) <$> seq 0 8).

(** ** Hexadecimal

    The bytes written, and the result; the text ends at the first NUL. *)
Definition _hex2bin_char (c : byte) : Z :=
  let z := Z_of_byte c in
  if (48 <=? z) && (z <=? 57) then z - 48
  else if (97 <=? z) && (z <=? 102) then z - 97 + 10
  else if (65 <=? z) && (z <=? 70) then z - 65 + 10
  else -1.
Fixpoint hex2bin (hexstr : list byte) (len : nat) : bool * list byte :=
  match len with
  | O => (bool_decide (default x00 (head hexstr) = x00), [])
  | S len =>
     let n := _hex2bin_char (default x00 (head hexstr)) in
     if n =? -1 then (false, []) else
     let o := _hex2bin_char (default x00 (head (drop 1 hexstr))) in
     if o =? -1 then (false, []) else
     let '(r, p) := hex2bin (drop 2 hexstr) len in (r, byte_of_Z (Z.lor (Z.shiftl n 4) o) :: p)
  end.
Definition bin2hex (bin : list byte) : list byte := concat ((λ b, hex_fmt 2 (Z_of_byte b)) <$> bin).

Section work.
Context `{Double}.
(** [ceil], and the conversions of a double to [uint64_t] and [uint32_t]. *)
Class Double64 := { fceil : F → F; fu64 : F → Z; fu32 : F → Z }.
Context `{Double64}.

(** The members these functions use. *)
Record scrypt_work := ScryptWork {
  sw_data : list byte; sw_midstate : list byte; sw_target : list byte; sw_hash : list byte;
  sw_ntime : list byte; sw_hash_nonce : Z; sw_restart : Z; sw_nonce : Z; sw_xnonce2 : list byte;
  sw_sdiff : F; sw_merkle_root : list byte; sw_pool_diff : F;
}.
Record scrypt_peer := ScryptPeer { sp_nonce1 : list byte; sp_n1_len : nat; sp_n2_len : nat; sp_diff : F }.
Definition sw_set_data (w : scrypt_work) (d : list byte) : scrypt_work :=
  ScryptWork d (sw_midstate w) (sw_target w) (sw_hash w) (sw_ntime w) (sw_hash_nonce w) (sw_restart w) (sw_nonce w) (sw_xnonce2 w) (sw_sdiff w) (sw_merkle_root w) (sw_pool_diff w).
Definition sw_set_target (w : scrypt_work) (m t : list byte) : scrypt_work :=
  ScryptWork (sw_data w) m t (sw_hash w) (sw_ntime w) (sw_hash_nonce w) (sw_restart w) (sw_nonce w) (sw_xnonce2 w) (sw_sdiff w) (sw_merkle_root w) (sw_pool_diff w).
Definition sw_set_hash (w : scrypt_work) (h : list byte) : scrypt_work :=
  ScryptWork (sw_data w) (sw_midstate w) (sw_target w) h (sw_ntime w) (sw_hash_nonce w) (sw_restart w) (sw_nonce w) (sw_xnonce2 w) (sw_sdiff w) (sw_merkle_root w) (sw_pool_diff w).
Definition sw_set_nonce (w : scrypt_work) (n : Z) : scrypt_work :=
  ScryptWork (sw_data w) (sw_midstate w) (sw_target w) (sw_hash w) (sw_ntime w) (sw_hash_nonce w) (sw_restart w) n (sw_xnonce2 w) (sw_sdiff w) (sw_merkle_root w) (sw_pool_diff w).
Definition sw_set_hash_nonce (w : scrypt_work) (n : Z) : scrypt_work :=
  ScryptWork (sw_data w) (sw_midstate w) (sw_target w) (sw_hash w) (sw_ntime w) n (sw_restart w) (sw_nonce w) (sw_xnonce2 w) (sw_sdiff w) (sw_merkle_root w) (sw_pool_diff w).
Definition sw_set_pool_diff (w : scrypt_work) (d : F) : scrypt_work :=
  ScryptWork (sw_data w) (sw_midstate w) (sw_target w) (sw_hash w) (sw_ntime w) (sw_hash_nonce w) (sw_restart w) (sw_nonce w) (sw_xnonce2 w) (sw_sdiff w) (sw_merkle_root w) d.

(** ** Scanning nonces *)

(** [data]: 19 words of the block, byte-swapped, and the nonce. *)
Definition header_words (pdata : list byte) (nonce : Z) : list Z := be32enc_vect (mem_words 19 pdata) ++ [htobe32 nonce].
Definition word_at (l : list byte) (i : nat) : Z := le_dec (take 4 (drop (4 * i) l)).
Definition scrypt_regenhash (work : scrypt_work) : scrypt_work :=
  sw_set_hash work (flip32 (words_mem (scrypt_sp (header_words (sw_data work) (word_at (sw_data work) 19))))).
Definition scrypt_test (pdata ptarget : list byte) (nonce : Z) : Z :=
  let Htarg := word_at ptarget 7 in
  let ohash := scrypt_sp (header_words pdata nonce) in
  let tmp_hash7 := htobe32 (at_t ohash 7) in
  if Htarg <? tmp_hash7 then 0 else 1.
Definition diff1targ : Z := 0x0000ffff.
(** The loop: whether a hash was found, the last nonce and [ostate]. *)
Fixpoint nonce_loop (fuel : nat) (pdata : list byte) (Htarg max_nonce n : Z) : option (bool * Z * list Z) :=
  match fuel with
  | O => None
  | S fuel =>
     let n := u32 (n + 1) in
     let ostate := scrypt_sp (header_words pdata n) in
     let tmp_hash7 := htobe32 (at_t ostate 7) in
     if tmp_hash7 <=? Htarg then Some (true, n, ostate)
     else if max_nonce <=? n then Some (false, n, ostate)
     else nonce_loop fuel pdata Htarg max_nonce n
  end.
Definition scan_fuel (max_nonce n : Z) : nat := S (Z.to_nat (max_nonce - u32 (n + 1))).
(** The result, [pdata], [phash], [*last_nonce] and [*last_diff]. *)
Definition scanhash_scrypt (pdata ptarget : list byte) (max_nonce n : Z) : option (bool * list byte * list byte * Z * F) :=
  let Htarg := word_at ptarget 7 in
  '(ret, n, ostate) ← nonce_loop (scan_fuel max_nonce n) pdata Htarg max_nonce n;
  Some (if ret : bool
        then (true, copy_at pdata 76 (le_enc 4 (htobe32 n)), flip32 (words_mem ostate), n, fdiv (f_of diff1targ) (f_of (htobe32 (at_t ostate 7))))
        else (false, copy_at pdata 76 (le_enc 4 n), words_mem ostate, n, f0)).
Definition test_nonce (work : scrypt_work) (nonce : Z) : Z * scrypt_work :=
  let work := sw_set_data work (copy_at (sw_data work) 76 (le_enc 4 nonce)) in
  (scrypt_test (sw_data work) (sw_target work) nonce, work).
(** On a copy of the work unit. *)
Definition scrypt_submit_nonce (work_in : scrypt_work) (nonce : Z) : bool :=
  let res := (test_nonce work_in nonce).1 in
  if res =? TNR_HIGH then false else true.
Definition cpu_scanhash (work : scrypt_work) (max_nonce : Z) : option (Z * scrypt_work) :=
  let first_nonce := sw_nonce work in
  let work := sw_set_hash work (replicate 32 x00) in
  '(rc, data, hash, last_nonce, last_diff) ← scanhash_scrypt (sw_data work) (sw_target work) (u32 max_nonce) (sw_nonce work);
  let work := sw_set_hash (sw_set_data work data) hash in
  let work :=
    if rc : bool
    then let _ := scrypt_submit_nonce work last_nonce in sw_set_pool_diff (sw_set_data work (copy_at (sw_data work) 76 (le_enc 4 last_nonce))) last_diff
    else work in
  Some (u32 (last_nonce - first_nonce), sw_set_nonce work last_nonce).
Definition shscrypt (work : scrypt_work) (step : Z) : option (Z * scrypt_work) :=
  '(_, work) ← cpu_scanhash work step;
  Some (0, sw_set_hash_nonce work (word_at (sw_data work) 19)).
Definition shscrypt_verify (work : scrypt_work) : Z * scrypt_work :=
  let '(err, work) := test_nonce work (sw_nonce work) in
  if err =? 0 then (SHERR_FBIG, work) else if negb (err =? 1) then (ERR_INVAL, work) else (0, work).

(** ** Work units *)
Definition strncpy_at (dst src : list byte) (n : nat) : list byte := copy_at dst 0 (take n src ++ replicate (n - length src) x00).
Definition shscrypt_peer (peer : scrypt_peer) (nonce1 : list byte) (diff : F) : scrypt_peer :=
  ScryptPeer (strncpy_at (sp_nonce1 peer) nonce1 8) 4 4 diff.
Definition shscrypt_peer_gen (peer : scrypt_peer) (now : Z) (diff : F) : scrypt_peer := shscrypt_peer peer (hex_fmt 8 (u32 now)) diff.
Definition diffone : Z := 0xFFFF000000000000.
Definition bdiff_target_leadzero (diff : F) : list byte :=
  let d64 := fceil (fdiv (f_of diffone) diff) in
  if fltb d64 (f_of (2 ^ 64)) then copy_at (replicate 32 x00) 2 (be_enc 8 (fu64 d64))
  else copy_at (copy_at (replicate 32 x00) 0 (be_enc 4 (fu32 (fdiv (f_of 65536) diff)))) 2 (replicate 30 xff).
Definition scrypt_set_target (diff : F) : list byte := swab256 (bdiff_target_leadzero diff).
Definition gen_hash (mem data : list byte) : option (list byte) :=
  hash1 ← sh_sha256 mem (Some data) (zlen data); sh_sha256 mem (Some hash1) 32.
(** The first 64 bytes, swapped, through one block; the words of its context. *)
Definition sh_calc_midstate (mem : list byte) (work : scrypt_work) : option scrypt_work :=
  '(_, ctx) ← sh_sha256_write (sh_sha256_init mem).2 (Some (swap32yes (sw_data work) 16)) 64;
  Some (sw_set_target work (words_mem (Intermediate_Hash (sha_c ctx))) (sw_target work)).
(** The strings used for those that are missing. *)
Definition or_zeros (s : option (list byte)) : list byte := match s with Some (c :: t) => c :: t | _ => replicate 64 x30 end.
(** [hex2bin(&buf[off], hex, len)] *)
Definition hex_into (buf : list byte) (off : nat) (hex : list byte) (len : nat) : option (list byte) :=
  let l := (hex2bin hex len).2 in
  if (length l =? 0)%nat then Some buf else if (off + length l <=? length buf)%nat then Some (copy_at buf off l) else None.
Definition COINBASE_SIZE : nat := 256.
Definition coinbase_of (peer : scrypt_peer) (work : scrypt_work) (coinbase1 coinbase2 : list byte) : option (list byte) :=
  let cb1_len := (length coinbase1 / 2)%nat in
  let nonce2_offset := (cb1_len + sp_n1_len peer)%nat in
  let cb2_len := (length coinbase2 / 2)%nat in
  let cb_len := (nonce2_offset + sp_n2_len peer + cb2_len)%nat in
  coinbase ← hex_into (replicate COINBASE_SIZE x00) 0 coinbase1 cb1_len;
  coinbase ← hex_into coinbase cb1_len (sp_nonce1 peer) (sp_n1_len peer);
  coinbase ← hex_into coinbase nonce2_offset (sw_xnonce2 work) (sp_n2_len peer);
  coinbase ← hex_into coinbase (nonce2_offset + sp_n2_len peer) coinbase2 cb2_len;
  if (cb_len <=? COINBASE_SIZE)%nat then Some (take cb_len coinbase) else None.
(** An entry of the merkle branch: zeros where its text is short. *)
Definition merkle_entry (m : list byte) : option (list byte) :=
  if (256 <? length m)%nat then None
  else hex_into (replicate 32 x00) 0 (copy_at (replicate 64 x30 ++ replicate 192 x00) 0 m) 32.
Fixpoint merkle_fold (mem root : list byte) (merkle_bin : list (list byte)) : option (list byte) :=
  match merkle_bin with [] => Some root | m :: ms => root ← gen_hash mem (root ++ m); merkle_fold mem root ms end.
Definition version_hex : list byte := replicate 7 x30 ++ [x31].
Definition workpadding_bin : list byte := [x00; x00; x00; x80] ++ replicate 40 x00 ++ [x80; x02; x00; x00].
(** [mem], [hash_swap] and [diffbits]: the uninitialised memory of the digests
    and of the two arrays. *)
Definition shscrypt_work (mem hash_swap diffbits : list byte) (peer : scrypt_peer) (work : scrypt_work) (merkle_list : option (list (list byte)))
    (prev_hash coinbase1 coinbase2 : option (list byte)) (nbit ntime : list byte) : option scrypt_work :=
  let coinbase1 := or_zeros coinbase1 in
  let coinbase2 := or_zeros coinbase2 in
  let prev_hash := or_zeros prev_hash in
  coinbase ← coinbase_of peer work coinbase1 coinbase2;
  merkle_bin ← mapM merkle_entry (default [] merkle_list);
  root ← gen_hash mem coinbase;
  merkle_sha ← merkle_fold mem root merkle_bin;
  let merkle_root := flip32 merkle_sha in
  diffbits ← hex_into diffbits 0 nbit 4;
  data ← hex_into (sw_data work) 0 version_hex 4;
  hash_swap ← hex_into hash_swap 0 prev_hash 32;
  let data := copy_at data 4 (shscrypt_swap256 hash_swap) in
  let data := copy_at data 36 merkle_root in
  data ← hex_into data 68 ntime 4;
  let data := copy_at data 72 diffbits in
  data ← hex_into data 76 (hex_fmt 8 (sw_nonce work)) 4;
  let data := copy_at data 80 workpadding_bin in
  let work := ScryptWork data (sw_midstate work) (sw_target work) (sw_hash work) (strncpy_at (sw_ntime work) ntime 15) (sw_hash_nonce work) 0 (sw_nonce work)
    (sw_xnonce2 work) (sp_diff peer) (copy_at (sw_merkle_root work) 0 (bin2hex merkle_root ++ [x00])) (sw_pool_diff work) in
  work ← sh_calc_midstate mem work;
  Some (sw_set_target work (sw_midstate work) (scrypt_set_target (sw_sdiff work))).

(** ** The console miner *)
Definition MAX_CYCLE_NONCE : Z := 3609.
Record share_stats := ShareStats { SHARE_LAST : Z; SHARE_COUNT : Z; SHARE_ATTEMPT : Z; SHARE_TOTAL : F; SHARE_MAX : F }.
Definition work_zero : scrypt_work := ScryptWork (replicate 128 x00) (replicate 32 x00) (replicate 32 x00) (replicate 32 x00) (replicate 16 x00) 0 0 0 (replicate 16 x00) f0 (replicate 256 x00) f0.
Definition mine_target : list byte := swab256 (replicate 2 x00 ++ replicate 30 xff).
(** The block of [raw_hex] at time [t]: nonce zero. *)
Definition mine_block (raw_hex : list byte) (t : Z) : list byte :=
  let block := copy_at (replicate 128 x00) 0 (hex2bin raw_hex 128).2 in
  let block := copy_at block 76 (le_enc 4 0) in
  copy_at block 68 (le_enc 4 (htonl (u32 t))).
Definition mine_work (mem block : list byte) : option scrypt_work :=
  let work := work_zero in
  let work := ScryptWork (copy_at (sw_data work) 0 (take 80 block)) (sw_midstate work) (sw_target work) (sw_hash work) (sw_ntime work) 0 0 0
    (copy_at (sw_xnonce2 work) 0 (hex_fmt 8 0 ++ [x00])) (fdiv (f_of 1) (f_of 8)) (copy_at (sw_merkle_root work) 0 (take 32 (drop 36 block))) f0 in
  work ← sh_calc_midstate mem work;
  Some (sw_set_target work (sw_midstate work) mine_target).
(** The counters, the result, and the text and difficulty returned. *)
Definition shcon_mine_run (mem : list byte) (st : share_stats) (t0 t1 : Z) (raw_hex : list byte) : option (share_stats * Z * option (list byte * F)) :=
  if negb (length raw_hex =? 256)%nat then Some (st, ERR_INVAL, None) else
  let block := mine_block raw_hex t0 in
  work ← mine_work mem block;
  let st := ShareStats t1 (SHARE_COUNT st) (u64 (SHARE_ATTEMPT st + 1)) (SHARE_TOTAL st) (SHARE_MAX st) in
  '(err, work) ← shscrypt work MAX_CYCLE_NONCE;
  if negb (err =? 0) || (sw_nonce work =? MAX_CYCLE_NONCE) then Some (st, ERR_AGAIN, None) else
  let st := ShareStats (SHARE_LAST st) (u64 (SHARE_COUNT st + 1)) (SHARE_ATTEMPT st) (fadd (SHARE_TOTAL st) (sw_pool_diff work))
    (if fltb (sw_pool_diff work) (SHARE_MAX st) then SHARE_MAX st else sw_pool_diff work) in
  let '(err, work) := shscrypt_verify work in
  if negb (err =? 0) then Some (st, ERR_AGAIN, None) else
  let block := copy_at block 76 (le_enc 4 (sw_nonce work)) in
  Some (st, 0, Some (bin2hex block, sw_pool_diff work)).
End work.
