(* ===== verification/WorkSpec.v ===== *)
(** * The miner: what a found nonce is

    The header a nonce is tried on, the hash and target as numbers, the scan as
    a search, and the memory of a work unit. *)

From S2P Require Import Prelude Errors Crc Sha ShaSpec Hmac HmacSpec Key KeyThm Clients Services CodecSpec Scrypt ScryptSpec Ossl OsslSpec Work.

#[local] Opaque P256 SHA256_Transform SHS.

(** The header a block of work stands for: its words are kept byte-swapped. *)
Definition block_header (data : list byte) : list byte := words_be (mem_words 20 data).
(** The hash of a header, and the high word of a 256-bit number. *)
Definition pow_hash (hdr : list byte) : list byte := scrypt hdr hdr 1024 32.
Definition high_word (l : list byte) : Z := le_dec l / 2 ^ 224.
Definition with_nonce (data : list byte) (n : Z) : list byte := copy_at data 76 (le_enc 4 n).
(** The test of a nonce. *)
Definition meets (data target : list byte) (n : Z) : bool := high_word (pow_hash (block_header (with_nonce data n))) <=? high_word target.

(** ** Bytes *)
Lemma length_copy_at p n l : (n + length l ≤ length p)%nat → length (copy_at p n l) = length p.
Proof. intros Hn. unfold copy_at. rewrite !length_app, length_take, length_drop. lia. Qed.
Lemma mem_words_app n k l : mem_words (n + k) l = mem_words n l ++ mem_words k (drop (4 * n) l).
Proof.
  revert l. induction n as [|n IH]; intros l; [done|]. cbn [Nat.add mem_words app]. rewrite IH, drop_drop. by replace (4 * S n)%nat with (4 + 4 * n)%nat by lia.
Qed.
Lemma mem_words_prefix n l k : (4 * n ≤ length l)%nat → mem_words n (l ++ k) = mem_words n l.
Proof.
  revert l. induction n as [|n IH]; intros l Hl; [done|]. cbn [mem_words]. rewrite take_app_le, drop_app_le by lia. rewrite IH; [done|]. rewrite length_drop. lia.
Qed.
Lemma mem_words_take n l m : (4 * n ≤ m)%nat → mem_words n (take m l) = mem_words n l.
Proof.
  revert l m. induction n as [|n IH]; intros l m Hm; [done|]. cbn [mem_words]. rewrite take_take, Nat.min_l by lia. f_equal.
  rewrite skipn_firstn_comm. apply IH. lia.
Qed.
Lemma with_nonce_words data n : length data = 128%nat → word n → mem_words 20 (with_nonce data n) = mem_words 19 data ++ [n].
Proof.
  intros Hl Hn. change 20%nat with (19 + 1)%nat. rewrite mem_words_app. unfold with_nonce, copy_at. change (4 * 19)%nat with 76%nat. f_equal.
  - rewrite mem_words_prefix by (rewrite length_take; lia). by apply mem_words_take.
  - rewrite drop_app_length' by (rewrite length_take; lia). cbn [mem_words]. rewrite take_app_length' by done. rewrite le_dec_enc. by rewrite Z.mod_small.
Qed.
Lemma header_mem data n : length data = 128%nat → word n → words_mem (header_words data n) = block_header (with_nonce data n).
Proof. intros Hl Hn. unfold block_header, header_words. rewrite with_nonce_words by done. change [htobe32 n] with (be32enc_vect [n]). rewrite words_mem_app, !htobe_mem, words_be_app. done. Qed.
Lemma le_dec_app a b : le_dec (a ++ b) = le_dec a + 256 ^ zlen a * le_dec b.
Proof. induction a as [|c a IH]; cbn [app le_dec length]; [change (256 ^ Z.of_nat 0) with 1; lia|]. rewrite IH, Nat2Z.inj_succ, Z.pow_succ_r by lia. lia. Qed.
Lemma high_word_dec l : length l = 32%nat → high_word l = word_at l 7.
Proof.
  intros Hl. unfold high_word, word_at. change (4 * 7)%nat with 28%nat. rewrite (take_ge (drop 28 l)) by (rewrite length_drop; lia).
  rewrite <-(take_drop 28 l) at 1. rewrite le_dec_app. pose proof (le_dec_range (take 28 l)) as Hr. rewrite length_take, Hl in *. change (256 ^ Z.of_nat (28 `min` 32)) with (2 ^ 224) in *.
  rewrite Z.mul_comm, Z.div_add, Z.div_small by lia. lia.
Qed.

(** ** Hashes *)
Section nonce.
Context (data : list byte) (n : Z).
Hypothesis Hlen : length data = 128%nat.
Hypothesis Hn : word n.
Abbreviation ostate := (scrypt_sp (header_words data n)).
Abbreviation digest := (pow_hash (block_header (with_nonce data n))).
Lemma ostate_digest : words_be ostate = digest ∧ length ostate = 8%nat ∧ words ostate.
Proof.
  destruct (mem_words_range 19 data) as [Hw Hl]; [lia|].
  destruct (scrypt_sp_spec (header_words data n)) as [E El].
  - unfold header_words, be32enc_vect. rewrite length_app, length_fmap, Hl. done.
  - unfold header_words. apply Forall_app. split; [apply words_htobe|apply Forall_singleton, word_htobe].
  - rewrite header_mem in E by done. split; [exact E|]. split; [exact El|]. unfold scrypt_sp. destruct (foldl _ _ _). apply words_transform.
Qed.
Lemma digest_mem : flip32 (words_mem ostate) = digest.
Proof.
  destruct ostate_digest as (E & Hl & Hw). unfold flip32, swap32yes. rewrite <-(app_nil_r (words_mem ostate)), <-Hl, mem_words_mem by done. rewrite <-E. apply htobe_mem.
Qed.
Lemma digest_high : htobe32 (at_t ostate 7) = high_word digest.
Proof.
  destruct ostate_digest as (E & Hl & Hw). rewrite <-E. rewrite high_word_dec by (rewrite length_words_be; lia). clear E Hw.
  unfold word_at, words_be. replace (4 * 7)%nat with (7 * 4)%nat by done. rewrite chunk_at by (intros; apply length_be_enc || lia). unfold htobe32. apply htonl_dec.
Qed.
End nonce.

(** ** The scan *)
#[local] Opaque scrypt scrypt_sp.
Lemma found_meets data target n : length data = 128%nat → length target = 32%nat → word n →
  (htobe32 (at_t (scrypt_sp (header_words data n)) 7) <=? word_at target 7) = meets data target n.
Proof. intros Hd Ht Hn. unfold meets. rewrite digest_high by assumption. rewrite (high_word_dec target) by assumption. reflexivity. Qed.
Lemma test_meets data target n : length data = 128%nat → length target = 32%nat → word n → scrypt_test data target n = if meets data target n then 1 else 0.
Proof.
  intros Hd Ht Hn. unfold scrypt_test. rewrite <-found_meets by done. rewrite Z.leb_antisym. by destruct (_ <? _).
Qed.
(** The last nonce a scan from [n] tries. *)
Definition scan_last (max_nonce n : Z) : Z := Z.max (u32 (n + 1)) max_nonce.
Record scanned (data target : list byte) (first last m : Z) (found : bool) : Prop := Scanned {
  sn_range : first ≤ m ≤ last;
  sn_before k : first ≤ k < m → meets data target k = false;
  sn_found : meets data target m = found;
  sn_last : found = false → m = last;
}.
Section scan.
Context (data target : list byte) (max_nonce : Z).
Hypothesis Hd : length data = 128%nat.
Hypothesis Ht : length target = 32%nat.
Hypothesis Hmax : word max_nonce.
Lemma nonce_loop_spec fuel n : (scan_fuel max_nonce n ≤ fuel)%nat →
  ∃ found m, nonce_loop fuel data (word_at target 7) max_nonce n = Some (found, m, scrypt_sp (header_words data m)) ∧
    scanned data target (u32 (n + 1)) (scan_last max_nonce n) m found.
Proof.
  revert n. induction fuel as [|fuel IH]; intros n Hf; [unfold scan_fuel in Hf; lia|]. cbn [nonce_loop]. pose proof (word_u32 (n + 1)) as Hw. unfold scan_last, scan_fuel in *.
  rewrite found_meets by done. set (k := u32 (n + 1)) in *. destruct (meets data target k) eqn:Em.
  { exists true, k. split; [done|]. constructor; [lia|lia|done|done]. }
  destruct (Z.leb_spec max_nonce k) as [Hle|Hlt].
  { exists false, k. split; [done|]. constructor; [lia|lia|done|lia]. }
  assert (u32 (k + 1) = k + 1) as Ek by (apply u32_small; unfold word in *; lia).
  destruct (IH k) as (found & m & E & [Hr Hb Hfm Hl]); [rewrite Ek; lia|]. rewrite Ek in *. exists found, m. split; [exact E|].
  constructor; [lia| |done|intros Hff; specialize (Hl Hff); lia]. intros j Hj. destruct (decide (j = k)) as [->|]; [done|]. apply Hb. lia.
Qed.
End scan.

Section miner.
Context `{Double}.
Lemma with_with data a b : length data = 128%nat → copy_at (copy_at data 76 (le_enc 4 a)) 76 (le_enc 4 b) = with_nonce data b.
Proof.
  intros Hd. unfold with_nonce, copy_at. rewrite !length_le_enc. change (76 + 4)%nat with 80%nat.
  rewrite take_app_length' by (rewrite length_take; lia). do 2 f_equal. rewrite (assoc_L (++)). rewrite drop_app_length'; [done|]. rewrite length_app, length_take, length_le_enc. lia.
Qed.
Lemma meets_with data target a n : length data = 128%nat → meets (with_nonce data a) target n = meets data target n.
Proof. intros Hd. unfold meets. unfold with_nonce at 1 2. rewrite with_with by assumption. reflexivity. Qed.
Lemma length_with data n : length data = 128%nat → length (with_nonce data n) = 128%nat.
Proof. intros Hd. unfold with_nonce. rewrite length_copy_at; [done|]. rewrite length_le_enc. lia. Qed.
Lemma nonce_word data n : length data = 128%nat → word n → word_at (with_nonce data n) 19 = n.
Proof.
  intros Hd Hn. unfold word_at, with_nonce, copy_at. change (4 * 19)%nat with 76%nat. rewrite drop_app_length' by (rewrite length_take; lia).
  rewrite take_app_length' by done. rewrite le_dec_enc. by rewrite Z.mod_small.
Qed.
Lemma test_nonce_spec work n : length (sw_data work) = 128%nat → length (sw_target work) = 32%nat → word n →
  test_nonce work n = (if meets (sw_data work) (sw_target work) n then 1 else 0, sw_set_data work (with_nonce (sw_data work) n)).
Proof.
  intros Hd Ht Hn. unfold test_nonce. fold (with_nonce (sw_data work) n). cbn [sw_data sw_target sw_set_data]. rewrite test_meets by (try apply length_with; done). by rewrite meets_with.
Qed.
(** What a scan leaves in the work unit. *)
Definition mined (work : scrypt_work) (m : Z) (found : bool) (work' : scrypt_work) : Prop :=
  sw_data work' = with_nonce (sw_data work) m ∧ sw_nonce work' = m ∧ sw_hash_nonce work' = m ∧ sw_target work' = sw_target work ∧
  (found = true → sw_hash work' = pow_hash (block_header (sw_data work'))).
Lemma shscrypt_spec work step : length (sw_data work) = 128%nat → length (sw_target work) = 32%nat →
  ∃ m found work', shscrypt work step = Some (0, work') ∧ mined work m found work' ∧ word m ∧
    scanned (sw_data work) (sw_target work) (u32 (sw_nonce work + 1)) (scan_last (u32 step) (sw_nonce work)) m found.
Proof.
  intros Hd Ht. unfold shscrypt, cpu_scanhash, scanhash_scrypt. cbn [sw_data sw_target sw_nonce sw_set_hash].
  destruct (nonce_loop_spec (sw_data work) (sw_target work) (u32 step) Hd Ht (word_u32 _) (scan_fuel (u32 step) (sw_nonce work)) (sw_nonce work) (le_n _)) as (found & m & E & Hs).
  rewrite E. assert (word m) as Hm.
  { destruct Hs as [Hr _ _ _]. pose proof (word_u32 (sw_nonce work + 1)). pose proof (word_u32 step). unfold scan_last, word in *. lia. }
  exists m, found. destruct found; cbn [mbind option_bind sw_data sw_set_data sw_set_hash sw_set_pool_diff sw_set_nonce]; eexists; (split; [reflexivity|]); (split; [|exact (conj Hm Hs)]);
    unfold mined; cbn [sw_data sw_nonce sw_hash_nonce sw_target sw_hash sw_set_data sw_set_hash sw_set_pool_diff sw_set_nonce sw_set_hash_nonce].
  - rewrite with_with by assumption. split_and!; [reflexivity|reflexivity|apply nonce_word; assumption|reflexivity|]. intros _. apply digest_mem; assumption.
  - split_and!; [reflexivity|reflexivity|apply nonce_word; assumption|reflexivity|discriminate].
Qed.
Lemma work_verify_spec work m found work' : length (sw_data work) = 128%nat → length (sw_target work) = 32%nat → word m → meets (sw_data work) (sw_target work) m = found →
  mined work m found work' → shscrypt_verify work' = (if found then 0 else SHERR_FBIG, work').
Proof.
  intros Hd Ht Hm Hf (E1 & E2 & _ & E4 & _). unfold shscrypt_verify. rewrite E2. rewrite test_nonce_spec; [|rewrite E1; by apply length_with|by rewrite E4|done].
  rewrite E4, E1, meets_with by done. assert (sw_set_data work' (with_nonce (with_nonce (sw_data work) m) m) = work') as ->.
  { unfold with_nonce. rewrite with_with by done. rewrite <-E1. by destruct work'. }
  rewrite Hf. by destruct found.
Qed.
End miner.

(** * The miner: the work unit

    What [shscrypt_work] writes when its texts are the hexadecimal of bytes, the
    sizes its buffers take, and the console miner. *)

#[local] Opaque P256 SHA256_Transform SHS scrypt scrypt_sp.

(** ** Hexadecimal *)
Lemma hex_of_byte b : ∃ c d, hex_fmt 2 (Z_of_byte b) = [c; d] ∧ _hex2bin_char c ≠ -1 ∧ _hex2bin_char d ≠ -1 ∧
  byte_of_Z (Z.lor (Z.shiftl (_hex2bin_char c) 4) (_hex2bin_char d)) = b.
Proof. destruct b; eexists _, _; (split; [vm_compute; reflexivity|]); split_and!; by vm_compute. Qed.
Lemma length_bin2hex l : length (bin2hex l) = (2 * length l)%nat.
Proof.
  unfold bin2hex. induction l as [|b l IH]; [done|]. cbn [fmap list_fmap concat length]. destruct (hex_of_byte b) as (c & d & -> & _). cbn [app length]. lia.
Qed.
Lemma hex2bin_back l rest : hex2bin (bin2hex l ++ rest) (length l) = (bool_decide (default x00 (head rest) = x00), l).
Proof.
  induction l as [|b l IH]; [done|]. unfold bin2hex in *. cbn [fmap list_fmap concat length hex2bin]. destruct (hex_of_byte b) as (c & d & -> & Hc & Hd & E).
  apply Z.eqb_neq in Hc, Hd. cbn [app head drop from_option id]. rewrite Hc. change (drop 0 ([d] ++ ?x)) with (d :: x). cbn [app head from_option id drop]. rewrite Hd, drop_0, IH. by rewrite E.
Qed.
Lemma hex2bin_full s n l : s = bin2hex l → n = length l → (hex2bin s n).2 = l.
Proof. intros -> ->. rewrite <-(app_nil_r (bin2hex l)), hex2bin_back. done. Qed.
Lemma length_hex2bin s n : (length (hex2bin s n).2 ≤ n)%nat.
Proof.
  revert s. induction n as [|n IH]; intros s; [done|]. cbn [hex2bin]. destruct (_ =? -1); [cbn; lia|]. destruct (_ =? -1); [cbn; lia|].
  specialize (IH (drop 2 s)). destruct (hex2bin (drop 2 s) n). cbn in *. lia.
Qed.
Lemma nibbles a b : 0 ≤ a < 16 → 0 ≤ b < 16 → Z.lor (Z.shiftl a 4) b = 16 * a + b.
Proof.
  intros Ha Hb. assert (a ∈ seqZ 0 16) as Hia by (apply elem_of_seqZ; lia). assert (b ∈ seqZ 0 16) as Hib by (apply elem_of_seqZ; lia).
  assert (forallb (λ a, forallb (λ b, Z.lor (Z.shiftl a 4) b =? 16 * a + b) (seqZ 0 16)) (seqZ 0 16) = true) as Hall by (by vm_compute).
  rewrite forallb_forall in Hall. specialize (Hall a (proj1 (list_elem_of_In _ _) Hia)). rewrite forallb_forall in Hall. by apply Z.eqb_eq, Hall, list_elem_of_In.
Qed.
Lemma char_hexval c d : hexval c = Some d → _hex2bin_char c = d ∧ 0 ≤ d < 16.
Proof. intros E. destruct c; try discriminate E; injection E as <-; vm_compute; split; (done || lia || (split; congruence)). Qed.
Lemma hex_fmt_bytes v : word v → (hex2bin (hex_fmt 8 v) 4).2 = be_enc 4 v.
Proof.
  intros Hv. unfold word in Hv.
  destruct (hex_digits_spec 16 v) as [Hh Hr]; [lia|]. pose proof (length_hex_digits 8 16 v ltac:(lia)) as Hl. specialize (Hr 0 []). rewrite app_nil_r in Hr. cbn [hex_read] in Hr. rewrite Z.add_0_l in Hr.
  assert (hex_read 0 (hex_fmt 8 v) = v) as Ev by (unfold hex_fmt; by rewrite hex_read_zeros).
  assert (Forall is_hex (hex_fmt 8 v)) as Hf by (apply Forall_app; split; [apply Forall_replicate; by exists 0|done]).
  assert (length (hex_fmt 8 v) = 8%nat) as H8 by (unfold hex_fmt; rewrite length_app, length_replicate; lia).
  clear Hh Hr Hl. revert Ev Hf H8. generalize (hex_fmt 8 v). intros s Ev Hf H8.
  destruct s as [|c0 [|c1 [|c2 [|c3 [|c4 [|c5 [|c6 [|c7 [|]]]]]]]]]; try discriminate H8. clear H8.
  rewrite !Forall_cons in Hf. destruct Hf as ([d0 E0] & [d1 E1] & [d2 E2] & [d3 E3] & [d4 E4] & [d5 E5] & [d6 E6] & [d7 E7] & _).
  cbn [hex_read] in Ev. rewrite E0, E1, E2, E3, E4, E5, E6, E7 in Ev.
  apply char_hexval in E0 as [E0 R0], E1 as [E1 R1], E2 as [E2 R2], E3 as [E3 R3], E4 as [E4 R4], E5 as [E5 R5], E6 as [E6 R6], E7 as [E7 R7].
  cbn [hex2bin head from_option id skipn]. rewrite E0, E1, E2, E3, E4, E5, E6, E7. repeat rewrite (proj2 (Z.eqb_neq _ _)) by lia. cbn [snd].
  rewrite !nibbles by done. unfold be_enc. cbn [le_enc]. rewrite <-Ev. cbn [reverse]. unfold reverse. cbn [rev_append].
  repeat (apply f_equal2; [apply byte_mod_eq; dlia|]). reflexivity.
Qed.
Lemma copy_nil p n : copy_at p n [] = p.
Proof. unfold copy_at. cbn [length app]. by rewrite Nat.add_0_r, take_drop. Qed.
Lemma hex_into_spec buf off hex len : (off + len ≤ length buf)%nat → hex_into buf off hex len = Some (copy_at buf off (hex2bin hex len).2).
Proof.
  intros Hb. unfold hex_into. pose proof (length_hex2bin hex len). destruct (Nat.eqb_spec (length (hex2bin hex len).2) 0) as [E|_].
  - apply nil_length_inv in E as ->. by rewrite copy_nil.
  - by rewrite (proj2 (Nat.leb_le _ _)) by lia.
Qed.
(** The text of [l], up to a NUL or longer. *)
Lemma hex_into_bytes buf off l rest : (off + length l ≤ length buf)%nat → hex_into buf off (bin2hex l ++ rest) (length l) = Some (copy_at buf off l).
Proof. intros Hb. rewrite hex_into_spec by done. by rewrite hex2bin_back. Qed.
Lemma hex_into_at a b l rest n : length a = n → (length l ≤ length b)%nat → hex_into (a ++ b) n (bin2hex l ++ rest) (length l) = Some (a ++ l ++ drop (length l) b).
Proof. intros Hn Hl. rewrite hex_into_bytes by (rewrite length_app; lia). by rewrite copy_behind. Qed.
Lemma hex_into_full a b l n k : length a = n → length l = k → (k ≤ length b)%nat → hex_into (a ++ b) n (bin2hex l) k = Some (a ++ l ++ drop k b).
Proof. intros Hn <- Hk. rewrite <-(app_nil_r (bin2hex l)). by apply hex_into_at. Qed.
Lemma hex_into_whole b l k : length l = k → length b = k → hex_into b 0 (bin2hex l) k = Some l.
Proof. intros Hl Hb. rewrite <-(app_nil_l b), hex_into_full by (done || lia). by rewrite drop_ge, app_nil_r by lia. Qed.

(** ** Coinbase and merkle root *)
Definition dsha (l : list byte) : list byte := SHS K256 (SHS K256 l).
(** The root of a branch: each entry joins on the right. *)
Definition merkle_of (leaf : list byte) (branch : list (list byte)) : list byte := foldl (λ r m, dsha (r ++ m)) leaf branch.
Lemma gen_hash_spec mem data : (64 ≤ length mem)%nat → zlen data < 2 ^ 32 → gen_hash mem data = Some (dsha data).
Proof.
  intros Hm Hl. unfold gen_hash. rewrite (sha256_take mem data (length data)) by lia. rewrite firstn_all. cbn [mbind option_bind].
  change 32 with (Z.of_nat 32). rewrite sha256_take by (rewrite ?length_SHS; (done || (cbn [kind_size]; lia))). rewrite take_ge by (rewrite length_SHS; cbn [kind_size]; lia). done.
Qed.
Lemma length_dsha l : length (dsha l) = 32%nat.
Proof. apply (length_SHS K256). Qed.
Lemma merkle_fold_spec mem root branch : (64 ≤ length mem)%nat → length root = 32%nat → Forall (λ m : list byte, length m = 32%nat) branch →
  merkle_fold mem root branch = Some (merkle_of root branch) ∧ length (merkle_of root branch) = 32%nat.
Proof.
  intros Hm Hr Hb. revert root Hr. induction Hb as [|m branch Hmb Hb IH]; intros root Hr; [done|]. cbn [merkle_fold]. unfold merkle_of in *. cbn [foldl].
  rewrite gen_hash_spec by (done || (rewrite length_app; lia)). cbn [mbind option_bind]. apply IH, length_dsha.
Qed.
Lemma merkle_entry_spec m : length m = 32%nat → merkle_entry (bin2hex m) = Some m.
Proof.
  intros Hm. unfold merkle_entry. rewrite length_bin2hex, Hm. change (256 <? 2 * 32)%nat with false. cbv iota.
  change (copy_at (replicate 64 x30 ++ replicate 192 x00) 0 (bin2hex m)) with (bin2hex m ++ drop (length (bin2hex m)) (replicate 64 x30 ++ replicate 192 x00)).
  rewrite <-(app_nil_l (replicate 32 x00)), <-Hm. rewrite hex_into_at by (rewrite ?length_replicate; done). rewrite drop_ge by (rewrite length_replicate; done). by rewrite app_nil_r.
Qed.
Lemma mapM_entries branch : Forall (λ m : list byte, length m = 32%nat) branch → mapM merkle_entry (bin2hex <$> branch) = Some branch.
Proof. intros Hb. apply mapM_Some. induction Hb as [|m b Hm Hb IH]; [constructor|]. cbn [fmap list_fmap]. constructor; [by apply merkle_entry_spec|done]. Qed.

Ltac in_buf Hl := rewrite ?length_replicate; first [lia | rewrite Hl; in_buf Hl].
Section unit.
Context `{Double}.
(** Each part of the coinbase at its offset. *)
Lemma coinbase_spec peer work c1 n1 n2 c2 r1 r2 : sp_nonce1 peer = bin2hex n1 ++ r1 → sp_n1_len peer = length n1 → sw_xnonce2 work = bin2hex n2 ++ r2 → sp_n2_len peer = length n2 →
  (length (c1 ++ n1 ++ n2 ++ c2) ≤ COINBASE_SIZE)%nat → coinbase_of peer work (bin2hex c1) (bin2hex c2) = Some (c1 ++ n1 ++ n2 ++ c2).
Proof.
  intros E1 L1 E2 L2 Hsz. rewrite !length_app in Hsz. unfold coinbase_of. rewrite !length_bin2hex, !(Nat.mul_comm 2), !Nat.div_mul by lia. rewrite E1, E2, L1, L2.
  assert (replicate COINBASE_SIZE x00 = [] ++ replicate COINBASE_SIZE x00) as -> by done. rewrite <-(app_nil_r (bin2hex c1)), <-(app_nil_r (bin2hex c2)).
  rewrite hex_into_at by (rewrite ?length_replicate; (done || lia)). rewrite app_nil_l. cbn [mbind option_bind]. rewrite hex_into_at by (rewrite ?length_drop, ?length_replicate; (done || lia)).
  cbn [mbind option_bind]. rewrite (assoc_L (++) c1). rewrite hex_into_at by (rewrite ?length_app, ?length_drop, ?length_replicate; (done || lia)). cbn [mbind option_bind]. rewrite (assoc_L (++) (c1 ++ n1)).
  rewrite hex_into_at by (rewrite ?length_app, ?length_drop, ?length_replicate; (done || lia)). cbn [mbind option_bind]. rewrite (proj2 (Nat.leb_le _ _)) by lia.
  f_equal. rewrite (assoc_L (++) ((c1 ++ n1) ++ n2)), <-!(assoc_L (++)). rewrite !(assoc_L (++)). apply take_app_length'. rewrite !length_app. lia.
Qed.
(** The coinbase fits its array exactly when its parts do. *)
Lemma coinbase_fits peer work cb1 cb2 :
  is_Some (coinbase_of peer work cb1 cb2) ↔ (length cb1 / 2 + sp_n1_len peer + sp_n2_len peer + length cb2 / 2 ≤ COINBASE_SIZE)%nat.
Proof.
  unfold coinbase_of. split.
  - intros [c Hc]. repeat (apply bind_Some in Hc as (? & _ & Hc)). destruct (Nat.leb_spec (length cb1 / 2 + sp_n1_len peer + sp_n2_len peer + length cb2 / 2) COINBASE_SIZE); [done|discriminate].
  - intros Hsz. rewrite hex_into_spec by (rewrite length_replicate; lia). cbn [mbind option_bind].
    assert (∀ b o h n, (o + n ≤ length b)%nat → length (copy_at b o (hex2bin h n).2) = length b) as Hl by (intros b o h n Hb; pose proof (length_hex2bin h n); apply length_copy_at; lia).
    do 3 (rewrite hex_into_spec by in_buf Hl; cbn [mbind option_bind]). rewrite (proj2 (Nat.leb_le _ _)) by lia. by eexists.
Qed.
End unit.

(** ** Words of the block *)
Lemma be_of_le l : length l = 4%nat → be_enc 4 (le_dec l) = reverse l.
Proof. intros Hl. unfold be_enc. f_equal. rewrite <-Hl. apply le_enc_dec. Qed.
Lemma header_field l rest : length l = 4%nat → words_be (mem_words 1 (l ++ rest)) = reverse l.
Proof. intros Hl. cbn [mem_words]. rewrite take_app_length' by done. change (words_be [le_dec l]) with (be_enc 4 (le_dec l) ++ []). by rewrite app_nil_r, be_of_le. Qed.
Lemma words_be_reverse ws : words_be (reverse ws) = reverse (words_mem ws).
Proof.
  unfold words_be, words_mem. induction ws as [|w ws IH]; [done|]. rewrite reverse_cons, fmap_app, concat_app, IH. cbn [fmap list_fmap concat]. rewrite reverse_app, app_nil_r. done.
Qed.
Lemma swap256_words l : length l = 32%nat → shscrypt_swap256 l = words_mem (reverse (mem_words 8 l)).
Proof.
  intros Hl. unfold shscrypt_swap256. destruct (mem_words_range 8 l) as [_ Hw]; [lia|]. destruct (mem_words 8 l) as [|a [|b [|c [|d [|e [|f [|g [|h [|]]]]]]]]]; done.
Qed.
Lemma words_reverse ws : words ws → words (reverse ws).
Proof. intros Hw. by apply Forall_reverse. Qed.
Lemma header_prev l rest : length l = 32%nat → words_be (mem_words 8 (shscrypt_swap256 l ++ rest)) = reverse l.
Proof.
  intros Hl. destruct (mem_words_range 8 l) as [Hw H8]; [lia|]. rewrite swap256_words by done. rewrite <-H8 at 1. rewrite <-length_reverse, mem_words_mem by (by apply words_reverse).
  rewrite words_be_reverse, words_mem_words by lia. by rewrite take_ge by lia.
Qed.
Lemma header_root l rest : length l = 32%nat → words_be (mem_words 8 (flip32 l ++ rest)) = l.
Proof.
  intros Hl. destruct (mem_words_range 8 l) as [Hw H8]; [lia|]. unfold flip32, swap32yes. change (swab32 <$> mem_words 8 l) with (be32enc_vect (mem_words 8 l)).
  assert (length (be32enc_vect (mem_words 8 l)) = 8%nat) as He by (unfold be32enc_vect; by rewrite length_fmap). rewrite <-He at 1.
  rewrite mem_words_mem by apply words_htobe. rewrite be_htobe, words_mem_words by (done || lia). by rewrite take_ge by lia.
Qed.
Lemma length_swap256 l : length (shscrypt_swap256 l) = 32%nat.
Proof. unfold shscrypt_swap256. by rewrite length_words_mem, length_fmap, length_seq. Qed.
Lemma length_flip l : length (flip32 l) = 32%nat.
Proof. unfold flip32, swap32yes. rewrite length_words_mem, length_fmap. done. Qed.
(** A block header of the coin: version 1, the fields in the order of the wire. *)
Definition coin_header (prev root time bits : list byte) (nonce : Z) : list byte :=
  le_enc 4 1 ++ reverse prev ++ root ++ reverse time ++ reverse bits ++ le_enc 4 nonce.
Definition work_data (prev root time bits : list byte) (nonce : Z) : list byte :=
  be_enc 4 1 ++ shscrypt_swap256 prev ++ flip32 root ++ time ++ bits ++ be_enc 4 nonce ++ workpadding_bin.
Lemma work_data_header prev root time bits nonce : length prev = 32%nat → length root = 32%nat → length time = 4%nat → length bits = 4%nat →
  block_header (work_data prev root time bits nonce) = coin_header prev root time bits nonce.
Proof.
  intros Hp Hr Ht Hb. unfold block_header, work_data, coin_header.
  assert (∀ n k l rest, length l = (4 * n)%nat → words_be (mem_words (n + k) (l ++ rest)) = words_be (mem_words n (l ++ rest)) ++ words_be (mem_words k rest)) as Hstep.
  { intros n k l rest Hl. rewrite mem_words_app, words_be_app. by rewrite (drop_app_length' l) by done. }
  change 20%nat with (1 + (8 + (8 + (1 + (1 + 1)))))%nat. rewrite Hstep by apply length_be_enc. rewrite Hstep by apply length_swap256. rewrite Hstep by apply length_flip. rewrite !Hstep by done.
  rewrite header_prev, header_root by done. rewrite !header_field by (done || apply length_be_enc). unfold be_enc. by rewrite !reverse_involutive.
Qed.
Lemma length_work_data prev root time bits nonce : length time = 4%nat → length bits = 4%nat → length (work_data prev root time bits nonce) = 128%nat.
Proof. intros Ht Hb. unfold work_data. rewrite !length_app, !length_be_enc, length_swap256, length_flip, Ht, Hb. done. Qed.

Section unit2.
Context `{Double}.
(** One block through a fresh context: the middle state of the header's digest. *)
Lemma midstate_spec mem work : (64 ≤ length mem)%nat → length (sw_data work) = 128%nat →
  sh_calc_midstate mem work = Some (sw_set_target work (words_mem (P256 SHA256_H0 (take 64 (block_header (sw_data work))))) (sw_target work)).
Proof.
  intros Hm Hd. unfold sh_calc_midstate. set (l := swap32yes (sw_data work) 16).
  assert (l = take 64 (block_header (sw_data work))) as El.
  { unfold l, swap32yes, block_header. change (swab32 <$> mem_words 16 (sw_data work)) with (be32enc_vect (mem_words 16 (sw_data work))). rewrite htobe_mem.
    change 20%nat with (16 + 4)%nat. rewrite mem_words_app, words_be_app. symmetry. apply take_app_length'. rewrite length_words_be. destruct (mem_words_range 16 (sw_data work)) as [_ ->]; lia. }
  rewrite <-El. assert (length l = 64%nat) as Hl by (unfold l, swap32yes; rewrite length_words_mem, length_fmap; destruct (mem_words_range 16 (sw_data work)) as [_ ->]; lia). clearbody l.
  destruct (shsha_init_spec K256 sha_zero mem Hm) as (s & E & Hs). change (shsha_init _ _ _) with (sh_sha256_init mem) in E. rewrite E. cbn [snd].
  destruct (shsha_write_spec K256 s [] l Hs) as (s1 & E1 & Hs1); [lia|rewrite app_nil_l; lia|]. destruct Hs as [Ha _]. rewrite (shsha_write_kind K256) in E1 by done.
  unfold sh_sha256_write. change fam_sha256 with (kind_fam K256). rewrite Hl in E1. change (Z.of_nat 64) with 64 in E1. rewrite E1. cbn [mbind option_bind].
  destruct Hs1 as [_ [Hh _ _ _ _ _ _ _ _]]. rewrite Hh, app_nil_l, Hl. change (64 / kind_block K256)%nat with 1%nat. cbn [absorb]. rewrite take_ge by (rewrite Hl; done).
  rewrite process256. reflexivity.
Qed.
End unit2.

(** ** The whole work unit *)
Section unit3.
Context `{Double64}.
Lemma fill_data data prev root time bits nonce : length data = 128%nat → length prev = 32%nat → length time = 4%nat → length bits = 4%nat → word nonce →
  (data ← hex_into data 0 version_hex 4;
   data ← hex_into (copy_at (copy_at data 4 (shscrypt_swap256 prev)) 36 (flip32 root)) 68 (bin2hex time) 4;
   data ← hex_into (copy_at data 72 bits) 76 (hex_fmt 8 nonce) 4;
   Some (copy_at data 80 workpadding_bin)) = Some (work_data prev root time bits nonce).
Proof.
  intros Hd Hp Ht Hb Hn. change version_hex with (bin2hex (be_enc 4 1)). rewrite <-(app_nil_l data), hex_into_full by (rewrite ?Hd; (done || lia)). rewrite app_nil_l. cbn [mbind option_bind]. rewrite (copy_behind (be_enc 4 1)) by apply length_be_enc.
  rewrite length_swap256, drop_drop, (assoc_L (++)). rewrite (copy_behind (be_enc 4 1 ++ _)) by (rewrite length_app, length_swap256; done). rewrite length_flip, drop_drop, (assoc_L (++)).
  set (a := (be_enc 4 1 ++ shscrypt_swap256 prev) ++ flip32 root). assert (length a = 68%nat) as Ha by (unfold a; rewrite !length_app, length_swap256, length_flip; done).
  rewrite (hex_into_full a) by (rewrite ?length_drop, ?Hd; (done || lia)). cbn [mbind option_bind]. rewrite drop_drop, (assoc_L (++)).
  rewrite (copy_behind (a ++ time)) by (rewrite length_app, Ha, Ht; done). rewrite Hb, drop_drop, (assoc_L (++)).
  rewrite hex_into_spec by (rewrite !length_app, length_drop, Ha, Hd, Ht, Hb; lia). cbn [mbind option_bind]. rewrite hex_fmt_bytes by done.
  rewrite (copy_behind ((a ++ time) ++ bits)) by (rewrite !length_app, Ha, Ht, Hb; done). rewrite length_be_enc, drop_drop, (assoc_L (++)).
  rewrite (copy_behind (((a ++ time) ++ bits) ++ be_enc 4 nonce)) by (rewrite !length_app, Ha, Ht, Hb, length_be_enc; done). rewrite drop_drop, drop_ge by (rewrite Hd; cbn; lia).
  rewrite app_nil_r. unfold work_data, a. by rewrite <-!(assoc_L (++)).
Qed.
Lemma or_zeros_hex l : l ≠ [] → or_zeros (Some (bin2hex l)) = bin2hex l.
Proof. intros Hl. destruct (bin2hex l) eqn:E; [|done]. apply (f_equal length) in E. rewrite length_bin2hex in E. destruct l; [done|]. cbn in E. lia. Qed.
(** What a peer and a work unit hold before the header is made. *)
Record unit_ready (mem hash_swap diffbits : list byte) (work : scrypt_work) : Prop := {
  ur_mem : (64 ≤ length mem)%nat;
  ur_swap : length hash_swap = 32%nat;
  ur_bits : length diffbits = 4%nat;
  ur_data : length (sw_data work) = 128%nat;
  ur_nonce : word (sw_nonce work);
}.
(** The texts of a job. *)
Record job_texts (peer : scrypt_peer) (work : scrypt_work) (c1 n1 n2 c2 prev bits time : list byte) (branch : list (list byte)) : Prop := {
  jt_n1 : ∃ r, sp_nonce1 peer = bin2hex n1 ++ r;
  jt_n1_len : sp_n1_len peer = length n1;
  jt_n2 : ∃ r, sw_xnonce2 work = bin2hex n2 ++ r;
  jt_n2_len : sp_n2_len peer = length n2;
  jt_fits : c1 ≠ [] ∧ c2 ≠ [] ∧ (length (c1 ++ n1 ++ n2 ++ c2) ≤ COINBASE_SIZE)%nat;
  jt_prev : length prev = 32%nat;
  jt_bits : length bits = 4%nat;
  jt_time : length time = 4%nat;
  jt_branch : Forall (λ m : list byte, length m = 32%nat) branch;
}.
Lemma shscrypt_work_spec mem hs db peer work c1 n1 n2 c2 prev bits time branch : unit_ready mem hs db work → job_texts peer work c1 n1 n2 c2 prev bits time branch →
  let root := merkle_of (dsha (c1 ++ n1 ++ n2 ++ c2)) branch in
  ∃ work', shscrypt_work mem hs db peer work (Some (bin2hex <$> branch)) (Some (bin2hex prev)) (Some (bin2hex c1)) (Some (bin2hex c2)) (bin2hex bits) (bin2hex time) = Some work' ∧
    sw_data work' = work_data prev root time bits (sw_nonce work) ∧ sw_nonce work' = sw_nonce work ∧
    sw_midstate work' = words_mem (P256 SHA256_H0 (take 64 (block_header (sw_data work')))) ∧ sw_target work' = scrypt_set_target (sp_diff peer).
Proof.
  intros [Hm Hs Hdb Hd Hn] [[r1 E1] L1 [r2 E2] L2 (N1 & N2 & Hf) Hp Hb Ht Hbr]. cbv zeta. set (root := merkle_of _ _). unfold shscrypt_work.
  assert (prev ≠ []) as Hpn by (intros ->; discriminate Hp). rewrite !or_zeros_hex by done. rewrite (coinbase_spec _ _ c1 n1 n2 c2 r1 r2) by done. cbn [mbind option_bind from_option id].
  rewrite mapM_entries by done. cbn [mbind option_bind]. rewrite gen_hash_spec by (done || (unfold COINBASE_SIZE in Hf; lia)). cbn [mbind option_bind].
  destruct (merkle_fold_spec mem (dsha (c1 ++ n1 ++ n2 ++ c2)) branch Hm (length_dsha _) Hbr) as [-> Hr]. fold root in Hr |- *. cbn [mbind option_bind].
  rewrite (hex_into_whole db bits 4) by done. cbn [mbind option_bind].
  cbn [mbind option_bind]. pose proof (fill_data (sw_data work) prev root time bits (sw_nonce work) Hd Hp Ht Hb Hn) as Ed.
  apply bind_Some in Ed as (d0 & -> & Ed). cbn [mbind option_bind]. rewrite (hex_into_whole hs prev 32) by done. cbn [mbind option_bind]. apply bind_Some in Ed as (d1 & -> & Ed). cbn [mbind option_bind]. apply bind_Some in Ed as (d2 & -> & Ed). cbn [mbind option_bind].
  injection Ed as ->. rewrite midstate_spec; [|done|by apply length_work_data]. cbn [mbind option_bind]. eexists. split; [reflexivity|].
  cbn [sw_data sw_nonce sw_midstate sw_target sw_sdiff sw_set_target]. done.
Qed.
End unit3.

(** ** Sizes *)
Section sizes.
Context `{Double64}.
Lemma merkle_entry_fits m : is_Some (merkle_entry m) ↔ (length m ≤ 256)%nat.
Proof.
  unfold merkle_entry. destruct (Nat.ltb_spec 256 (length m)) as [Hm|Hm]; [split; [by intros [? ?]|lia]|]. split; [done|]. intros _. rewrite hex_into_spec by (rewrite length_replicate; lia). eexists. reflexivity.
Qed.
Lemma merkle_entry_length m e : merkle_entry m = Some e → length e = 32%nat.
Proof.
  unfold merkle_entry. destruct (256 <? length m)%nat; [done|]. set (z := replicate 32 x00). assert (length z = 32%nat) as Hz by done. set (t := copy_at _ 0 m). clearbody z t. rewrite hex_into_spec by lia. intros E%(inj Some). subst e. pose proof (length_hex2bin t 32).
  rewrite length_copy_at; lia.
Qed.
Lemma fill_total (data hs root ntime diffbits nonce : list byte) : length data = 128%nat → length diffbits = 4%nat →
  ∃ d d' d'', hex_into data 0 version_hex 4 = Some d ∧ hex_into (copy_at (copy_at d 4 (shscrypt_swap256 hs)) 36 (flip32 root)) 68 ntime 4 = Some d' ∧
    hex_into (copy_at d' 72 diffbits) 76 nonce 4 = Some d'' ∧ length (copy_at d'' 80 workpadding_bin) = 128%nat.
Proof.
  intros Hd Hb. assert (∀ b o h n, (o + n ≤ length b)%nat → length (copy_at b o (hex2bin h n).2) = length b) as Hl by (intros b o h n Hb'; pose proof (length_hex2bin h n); apply length_copy_at; lia).
  set (d := copy_at data 0 (hex2bin version_hex 4).2). assert (length d = 128%nat) as H1 by (unfold d; rewrite Hl; lia).
  set (e := copy_at (copy_at d 4 (shscrypt_swap256 hs)) 36 (flip32 root)).
  assert (length e = 128%nat) as H2 by (unfold e; rewrite !length_copy_at; rewrite ?length_copy_at; rewrite ?length_flip, ?length_swap256; lia).
  set (f := copy_at e 68 (hex2bin ntime 4).2). assert (length f = 128%nat) as H3 by (unfold f; rewrite Hl; lia).
  assert (length (copy_at f 72 diffbits) = 128%nat) as H4 by (rewrite length_copy_at; lia).
  exists d, f, (copy_at (copy_at f 72 diffbits) 76 (hex2bin nonce 4).2). rewrite !hex_into_spec; fold d; fold e; try lia. split_and!; [done..|].
  rewrite length_copy_at; rewrite Hl; rewrite H4; cbn; lia.
Qed.
Lemma merkle_total mem root ms : (64 ≤ length mem)%nat → length root = 32%nat → Forall (λ m : list byte, length m = 32%nat) ms → ∃ r, merkle_fold mem root ms = Some r.
Proof. intros Hm Hr Hms. destruct (merkle_fold_spec mem root ms Hm Hr Hms) as [-> _]. by eexists. Qed.
Lemma work_total mem hs db peer work mlist prev cb1 cb2 nbit ntime : unit_ready mem hs db work →
  is_Some (shscrypt_work mem hs db peer work mlist prev cb1 cb2 nbit ntime) ↔
  is_Some (coinbase_of peer work (or_zeros cb1) (or_zeros cb2)) ∧ Forall (λ m, is_Some (merkle_entry m)) (default [] mlist).
Proof.
  intros [Hm Hs Hdb Hd Hn]. unfold shscrypt_work. split.
  - intros [w E]. apply bind_Some in E as (cb & E1 & E). apply bind_Some in E as (mb & E2 & _). split; [by eexists|]. apply mapM_Some in E2. clear -E2. induction E2; constructor; [by eexists|done].
  - intros [[cb E1] E2]. rewrite E1. cbn [mbind option_bind]. apply mapM_is_Some_2 in E2 as [mb E2]. rewrite E2. cbn [mbind option_bind].
    assert (length cb ≤ COINBASE_SIZE)%nat as Hcb.
    { unfold coinbase_of in E1. repeat (apply bind_Some in E1 as (? & _ & E1)). match type of E1 with (if ?b then _ else _) = _ => destruct b eqn:Eb; [|discriminate] end.
      apply Nat.leb_le in Eb. apply (inj Some) in E1. subst cb. rewrite length_take. lia. }
    rewrite gen_hash_spec by (done || (unfold COINBASE_SIZE in Hcb; lia)). cbn [mbind option_bind].
    assert (Forall (λ m : list byte, length m = 32%nat) mb) as Hmb.
    { apply mapM_Some in E2. clear -E2. induction E2; constructor; [by eapply merkle_entry_length|done]. }
    destruct (merkle_total mem _ mb Hm (length_dsha cb) Hmb) as [r ->]. cbn [mbind option_bind]. rewrite (hex_into_spec db) by lia. cbn [mbind option_bind].
    pose proof (length_hex2bin nbit 4) as Hb4. destruct (fill_total (sw_data work) (copy_at hs 0 (hex2bin (or_zeros prev) 32).2) r ntime (copy_at db 0 (hex2bin nbit 4).2) (hex_fmt 8 (sw_nonce work)) Hd) as (d & d' & d'' & -> & F2 & F3 & F4).
    { rewrite length_copy_at; lia. }
    cbn [mbind option_bind]. rewrite (hex_into_spec hs) by lia. cbn [mbind option_bind]. rewrite F2. cbn [mbind option_bind]. rewrite F3. cbn [mbind option_bind].
    rewrite midstate_spec by done. by eexists.
Qed.
End sizes.

(** ** The console miner *)
Section console.
Context `{Double}.
Lemma length_mine_block raw t : length (mine_block raw t) = 128%nat.
Proof.
  unfold mine_block. set (z := replicate 128 x00). assert (length z = 128%nat) as Hz by apply length_replicate. clearbody z. pose proof (length_hex2bin raw 128) as Hl.
  assert (length (copy_at z 0 (hex2bin raw 128).2) = 128%nat) as H1 by (rewrite length_copy_at; lia).
  assert (∀ o v, (o + 4 ≤ 128)%nat → ∀ b, length b = 128%nat → length (copy_at b o (le_enc 4 v)) = 128%nat) as H2 by (intros o v Ho b Hb; rewrite length_copy_at; rewrite ?length_le_enc; lia).
  apply H2; [lia|]. apply H2; [lia|]. exact H1.
Qed.
Lemma mine_target_spec : high_word mine_target = diff1targ ∧ length mine_target = 32%nat.
Proof. by vm_compute. Qed.
(** The scan sees the header of the block. *)
Lemma meets_block block rest target n : length block = 128%nat → length rest = 48%nat → word n → meets (take 80 block ++ rest) target n = meets block target n.
Proof.
  intros Hb Hr Hn. unfold meets. assert (block_header (with_nonce (take 80 block ++ rest) n) = block_header (with_nonce block n)) as ->; [|reflexivity].
  unfold block_header. rewrite !with_nonce_words by (rewrite ?length_app, ?length_take; (done || lia)). rewrite mem_words_prefix by (rewrite length_take; lia). by rewrite mem_words_take by lia.
Qed.
Lemma mine_work_spec mem block : (64 ≤ length mem)%nat → length block = 128%nat →
  ∃ work, mine_work mem block = Some work ∧ sw_data work = take 80 block ++ replicate 48 x00 ∧ sw_target work = mine_target ∧ sw_nonce work = 0.
Proof.
  intros Hm Hb. unfold mine_work. assert (length (take 80 block) = 80%nat) as H80 by (rewrite length_take; lia).
  assert (copy_at (sw_data work_zero) 0 (take 80 block) = take 80 block ++ replicate 48 x00) as ->.
  { unfold copy_at. rewrite H80. done. }
  rewrite midstate_spec; [|done|cbn [sw_data]; rewrite length_app, H80; done]. cbn [mbind option_bind]. eexists. split; [reflexivity|]. done.
Qed.
(** No nonce below [last] is good. *)
Definition none_before (block : list byte) (last : Z) : Prop := ∀ n, 0 < n < last → meets block mine_target n = false.
Lemma mine_run_eq mem st t0 t1 raw work work' e : length raw = 256%nat → mine_work mem (mine_block raw t0) = Some work → shscrypt work MAX_CYCLE_NONCE = Some (0, work') →
  shscrypt_verify work' = (e, work') →
  shcon_mine_run mem st t0 t1 raw =
    let st1 := ShareStats t1 (SHARE_COUNT st) (u64 (SHARE_ATTEMPT st + 1)) (SHARE_TOTAL st) (SHARE_MAX st) in
    let st2 := ShareStats t1 (u64 (SHARE_COUNT st + 1)) (u64 (SHARE_ATTEMPT st + 1)) (fadd (SHARE_TOTAL st) (sw_pool_diff work'))
      (if fltb (sw_pool_diff work') (SHARE_MAX st) then SHARE_MAX st else sw_pool_diff work') in
    if sw_nonce work' =? MAX_CYCLE_NONCE then Some (st1, ERR_AGAIN, None)
    else if e =? 0 then Some (st2, 0, Some (bin2hex (with_nonce (mine_block raw t0) (sw_nonce work')), sw_pool_diff work')) else Some (st2, ERR_AGAIN, None).
Proof.
  intros E1 E2 E3 E4. unfold shcon_mine_run. rewrite E1. rewrite E2. generalize (mine_block raw t0). intros block. revert E3. unfold mbind, option_bind.
  generalize (shscrypt work MAX_CYCLE_NONCE). intros o ->. rewrite E4. unfold with_nonce. destruct (sw_nonce work' =? MAX_CYCLE_NONCE); [reflexivity|]. destruct (e =? 0); reflexivity.
Qed.
Lemma mine_run_spec mem st t0 t1 raw : (64 ≤ length mem)%nat → length raw = 256%nat →
  let block := mine_block raw t0 in
  ∃ st' code out, shcon_mine_run mem st t0 t1 raw = Some (st', code, out) ∧ SHARE_ATTEMPT st' = u64 (SHARE_ATTEMPT st + 1) ∧ SHARE_LAST st' = t1 ∧
    (code = 0 ∧ SHARE_COUNT st' = u64 (SHARE_COUNT st + 1) ∧
       (∃ n d, 0 < n < MAX_CYCLE_NONCE ∧ out = Some (bin2hex (with_nonce block n), d) ∧ meets block mine_target n = true ∧ none_before block n)
     ∨ code = ERR_AGAIN ∧ SHARE_COUNT st' = SHARE_COUNT st ∧ out = None ∧ none_before block MAX_CYCLE_NONCE).
Proof.
  intros Hm Hr. cbv zeta. pose proof (length_mine_block raw t0) as Hb. destruct (mine_work_spec mem (mine_block raw t0) Hm Hb) as (work & Ew & Ed & Et & En).
  assert (length (sw_data work) = 128%nat) as Hd by (rewrite Ed, length_app, length_take, length_replicate; lia). assert (length (sw_target work) = 32%nat) as Ht by (rewrite Et; apply mine_target_spec).
  destruct (shscrypt_spec work MAX_CYCLE_NONCE Hd Ht) as (m & found & work' & E & Hmined & Hwm & [Hrange Hbefore Hfound Hlast]).
  pose proof (work_verify_spec work m found work' Hd Ht Hwm Hfound Hmined) as Ev. rewrite (mine_run_eq mem st t0 t1 raw work work' _ Hr Ew E Ev). destruct Hmined as (_ & Enon & _). rewrite Enon. clear E Ev Ew.
  revert Hb Ed. generalize (mine_block raw t0). intros block Hb Ed.
  rewrite En in *. change (scan_last (u32 MAX_CYCLE_NONCE) 0) with MAX_CYCLE_NONCE in *. change (u32 (0 + 1)) with 1 in *.
  assert (∀ k, 0 < k < MAX_CYCLE_NONCE + 1 → meets (sw_data work) (sw_target work) k = meets block mine_target k) as Hmb.
  { intros k Hk. rewrite Ed, Et. apply meets_block; [exact Hb|apply length_replicate|unfold word, MAX_CYCLE_NONCE in *; lia]. }
  assert (none_before block m) as Hnone by (intros k Hk; rewrite <-Hmb by lia; apply Hbefore; lia).
  destruct (Z.eqb_spec m MAX_CYCLE_NONCE) as [Em|Hne].
  { rewrite Em in Hnone. eexists _, _, _. split; [reflexivity|]. do 2 (split; [reflexivity|]). right. do 3 (split; [reflexivity|]). exact Hnone. }
  destruct found; [|exfalso; exact (Hne (Hlast eq_refl))]. eexists _, _, _. split; [reflexivity|]. do 2 (split; [reflexivity|]). left.
  do 2 (split; [reflexivity|]). exists m. eexists. split; [lia|]. split; [reflexivity|]. split; [|exact Hnone]. rewrite <-Hmb by lia. exact Hfound.
Qed.
End console.
