(* ===== verification/Color.v ===== *)
(** * Colors of the color alt-chain

    [server/ext/altchain_color.c]: a name is compared with the labels of a color
    table by edit distance, and the three closest labels give a color, a label and
    an abbreviation. Doubles are the class [Double]. *)

From S2P Require Import Prelude Hmac Key Opt Clients Services.

Record rgb_t := Rgb { rgb_r : Z; rgb_g : Z; rgb_b : Z; rgb_label : list byte }.
Definition _rgb_table : list rgb_t := [
  Rgb 255 250 250 (bytes "snow"); Rgb 248 248 255 (bytes "ghost white"); Rgb 245 245 245 (bytes "white smoke"); Rgb 220 220 220 (bytes "gainsboro");
  Rgb 255 250 240 (bytes "floral white"); Rgb 253 245 230 (bytes "old lace"); Rgb 250 240 230 (bytes "linen"); Rgb 250 235 215 (bytes "antique white");
  Rgb 255 239 213 (bytes "papaya whip"); Rgb 255 235 205 (bytes "blanched almond"); Rgb 255 228 196 (bytes "bisque"); Rgb 255 218 185 (bytes "peach puff");
  Rgb 255 222 173 (bytes "navajo white"); Rgb 255 228 181 (bytes "moccasin"); Rgb 255 248 220 (bytes "cornsilk"); Rgb 255 255 240 (bytes "ivory");
  Rgb 255 250 205 (bytes "lemon chiffon"); Rgb 255 245 238 (bytes "seashell"); Rgb 240 255 240 (bytes "honeydew"); Rgb 245 255 250 (bytes "mint cream");
  Rgb 240 255 255 (bytes "azure"); Rgb 240 248 255 (bytes "alice blue"); Rgb 230 230 250 (bytes "lavender"); Rgb 255 240 245 (bytes "lavender blush");
  Rgb 255 228 225 (bytes "mistyrose"); Rgb 255 255 255 (bytes "white"); Rgb 0 0 0 (bytes "black"); Rgb 47 79 79 (bytes "dark slate grey");
  Rgb 105 105 105 (bytes "dim grey"); Rgb 112 128 144 (bytes "slate grey"); Rgb 119 136 153 (bytes "light slate grey"); Rgb 190 190 190 (bytes "grey");
  Rgb 128 128 128 (bytes "grey"); Rgb 211 211 211 (bytes "light grey"); Rgb 25 25 112 (bytes "midnight blue"); Rgb 0 0 128 (bytes "navy");
  Rgb 0 0 128 (bytes "navy blue"); Rgb 100 149 237 (bytes "cornflower blue"); Rgb 72 61 139 (bytes "dark slate blue"); Rgb 106 90 205 (bytes "slate blue");
  Rgb 123 104 238 (bytes "medium slate blue"); Rgb 132 112 255 (bytes "light slate blue"); Rgb 0 0 205 (bytes "medium blue");
  Rgb 65 105 225 (bytes "royal blue"); Rgb 0 0 255 (bytes "blue"); Rgb 30 144 255 (bytes "dodger blue"); Rgb 0 191 255 (bytes "deep sky blue");
  Rgb 135 206 235 (bytes "sky blue"); Rgb 135 206 250 (bytes "light sky blue"); Rgb 70 130 180 (bytes "steel blue");
  Rgb 176 196 222 (bytes "light steel blue"); Rgb 173 216 230 (bytes "light blue"); Rgb 176 224 230 (bytes "powder blue");
  Rgb 175 238 238 (bytes "pale turquoise"); Rgb 0 206 209 (bytes "dark turquoise"); Rgb 72 209 204 (bytes "medium turquoise");
  Rgb 64 224 208 (bytes "turquoise"); Rgb 0 255 255 (bytes "cyan"); Rgb 0 255 255 (bytes "aqua"); Rgb 224 255 255 (bytes "light cyan");
  Rgb 95 158 160 (bytes "cadet blue"); Rgb 102 205 170 (bytes "medium aqua marine"); Rgb 127 255 212 (bytes "aqua marine"); Rgb 0 100 0 (bytes "dark green");
  Rgb 85 107 47 (bytes "dark olive green"); Rgb 143 188 143 (bytes "dark sea green"); Rgb 46 139 87 (bytes "seagreen");
  Rgb 60 179 113 (bytes "mediumseagreen"); Rgb 32 178 170 (bytes "lightseagreen"); Rgb 152 251 152 (bytes "palegreen"); Rgb 0 255 127 (bytes "springgreen");
  Rgb 124 252 0 (bytes "lawngreen"); Rgb 0 255 0 (bytes "green"); Rgb 0 255 0 (bytes "lime"); Rgb 0 255 0 (bytes "green"); Rgb 0 128 0 (bytes "green");
  Rgb 127 255 0 (bytes "chartreuse"); Rgb 0 250 154 (bytes "mediumspringgreen"); Rgb 173 255 47 (bytes "greenyellow"); Rgb 50 205 50 (bytes "limegreen");
  Rgb 154 205 50 (bytes "yellowgreen"); Rgb 34 139 34 (bytes "forestgreen"); Rgb 107 142 35 (bytes "olivedrab"); Rgb 189 183 107 (bytes "darkkhaki");
  Rgb 240 230 140 (bytes "khaki"); Rgb 238 232 170 (bytes "palegoldenrod"); Rgb 250 250 210 (bytes "lightgoldenrodyellow");
  Rgb 255 255 224 (bytes "lightyellow"); Rgb 255 255 0 (bytes "yellow"); Rgb 255 215 0 (bytes "gold"); Rgb 238 221 130 (bytes "lightgoldenrod");
  Rgb 218 165 32 (bytes "goldenrod"); Rgb 184 134 11 (bytes "darkgoldenrod"); Rgb 188 143 143 (bytes "rosybrown"); Rgb 205 92 92 (bytes "indianred");
  Rgb 139 69 19 (bytes "saddlebrown"); Rgb 160 82 45 (bytes "sienna"); Rgb 205 133 63 (bytes "peru"); Rgb 222 184 135 (bytes "burlywood");
  Rgb 245 245 220 (bytes "beige"); Rgb 245 222 179 (bytes "wheat"); Rgb 244 164 96 (bytes "sandybrown"); Rgb 210 180 140 (bytes "tan");
  Rgb 210 105 30 (bytes "chocolate"); Rgb 178 34 34 (bytes "firebrick"); Rgb 165 42 42 (bytes "brown"); Rgb 233 150 122 (bytes "darksalmon");
  Rgb 250 128 114 (bytes "salmon"); Rgb 255 160 122 (bytes "lightsalmon"); Rgb 255 165 0 (bytes "orange"); Rgb 255 140 0 (bytes "darkorange");
  Rgb 255 127 80 (bytes "coral"); Rgb 240 128 128 (bytes "lightcoral"); Rgb 255 99 71 (bytes "tomato"); Rgb 255 69 0 (bytes "orangered");
  Rgb 255 0 0 (bytes "red"); Rgb 255 105 180 (bytes "hotpink"); Rgb 255 20 147 (bytes "deeppink"); Rgb 255 192 203 (bytes "pink");
  Rgb 255 182 193 (bytes "lightpink"); Rgb 219 112 147 (bytes "palevioletred"); Rgb 176 48 96 (bytes "maroon"); Rgb 176 48 96 (bytes "maroon");
  Rgb 128 0 0 (bytes "maroon"); Rgb 199 21 133 (bytes "mediumvioletred"); Rgb 208 32 144 (bytes "violetred"); Rgb 255 0 255 (bytes "magenta");
  Rgb 255 0 255 (bytes "fuchsia"); Rgb 238 130 238 (bytes "violet"); Rgb 221 160 221 (bytes "plum"); Rgb 218 112 214 (bytes "orchid");
  Rgb 186 85 211 (bytes "mediumorchid"); Rgb 153 50 204 (bytes "darkorchid"); Rgb 148 0 211 (bytes "darkviolet"); Rgb 138 43 226 (bytes "blueviolet");
  Rgb 160 32 240 (bytes "purple"); Rgb 160 32 240 (bytes "purple"); Rgb 128 0 128 (bytes "purple"); Rgb 147 112 219 (bytes "mediumpurple");
  Rgb 216 191 216 (bytes "thistle"); Rgb 255 250 250 (bytes "snow"); Rgb 238 233 233 (bytes "snow"); Rgb 205 201 201 (bytes "snow");
  Rgb 139 137 137 (bytes "snow"); Rgb 255 245 238 (bytes "seashell"); Rgb 238 229 222 (bytes "seashell"); Rgb 205 197 191 (bytes "seashell");
  Rgb 139 134 130 (bytes "seashell"); Rgb 255 239 219 (bytes "antiquewhite"); Rgb 238 223 204 (bytes "antiquewhite"); Rgb 205 192 176 (bytes "antiquewhite");
  Rgb 139 131 120 (bytes "antiquewhite"); Rgb 255 228 196 (bytes "bisque"); Rgb 238 213 183 (bytes "bisque"); Rgb 205 183 158 (bytes "bisque");
  Rgb 139 125 107 (bytes "bisque"); Rgb 255 218 185 (bytes "peachpuff"); Rgb 238 203 173 (bytes "peachpuff"); Rgb 205 175 149 (bytes "peachpuff");
  Rgb 139 119 101 (bytes "peachpuff"); Rgb 255 222 173 (bytes "navajo white"); Rgb 238 207 161 (bytes "navajo white"); Rgb 205 179 139 (bytes "navajo white");
  Rgb 139 121 94 (bytes "navajo white"); Rgb 255 250 205 (bytes "lemon chiffon"); Rgb 238 233 191 (bytes "lemon chiffon");
  Rgb 205 201 165 (bytes "lemon chiffon"); Rgb 139 137 112 (bytes "lemon chiffon"); Rgb 255 248 220 (bytes "cornsilk"); Rgb 238 232 205 (bytes "cornsilk");
  Rgb 205 200 177 (bytes "cornsilk"); Rgb 139 136 120 (bytes "cornsilk"); Rgb 255 255 240 (bytes "ivory"); Rgb 238 238 224 (bytes "ivory");
  Rgb 205 205 193 (bytes "ivory"); Rgb 139 139 131 (bytes "ivory"); Rgb 240 255 240 (bytes "honeydew"); Rgb 224 238 224 (bytes "honeydew");
  Rgb 193 205 193 (bytes "honeydew"); Rgb 131 139 131 (bytes "honeydew"); Rgb 255 240 245 (bytes "lavender blush"); Rgb 238 224 229 (bytes "lavender blush");
  Rgb 205 193 197 (bytes "lavender blush"); Rgb 139 131 134 (bytes "lavender blush"); Rgb 255 228 225 (bytes "misty rose");
  Rgb 238 213 210 (bytes "misty rose"); Rgb 205 183 181 (bytes "misty rose"); Rgb 139 125 123 (bytes "misty rose"); Rgb 240 255 255 (bytes "azure");
  Rgb 224 238 238 (bytes "azure"); Rgb 193 205 205 (bytes "azure"); Rgb 131 139 139 (bytes "azure"); Rgb 131 111 255 (bytes "slate blue");
  Rgb 122 103 238 (bytes "slate blue"); Rgb 105 89 205 (bytes "slate blue"); Rgb 71 60 139 (bytes "slate blue"); Rgb 72 118 255 (bytes "royal blue");
  Rgb 67 110 238 (bytes "royal blue"); Rgb 58 95 205 (bytes "royal blue"); Rgb 39 64 139 (bytes "royal blue"); Rgb 0 0 255 (bytes "blue");
  Rgb 0 0 238 (bytes "blue"); Rgb 0 0 205 (bytes "blue"); Rgb 0 0 139 (bytes "blue"); Rgb 30 144 255 (bytes "dodger blue");
  Rgb 28 134 238 (bytes "dodger blue"); Rgb 24 116 205 (bytes "dodger blue"); Rgb 16 78 139 (bytes "dodger blue"); Rgb 99 184 255 (bytes "steel blue");
  Rgb 92 172 238 (bytes "steel blue"); Rgb 79 148 205 (bytes "steel blue"); Rgb 54 100 139 (bytes "steel blue"); Rgb 0 191 255 (bytes "deep sky blue");
  Rgb 0 178 238 (bytes "deep sky blue"); Rgb 0 154 205 (bytes "deep sky blue"); Rgb 0 104 139 (bytes "deep sky blue"); Rgb 135 206 255 (bytes "sky blue");
  Rgb 126 192 238 (bytes "sky blue"); Rgb 108 166 205 (bytes "sky blue"); Rgb 74 112 139 (bytes "sky blue"); Rgb 176 226 255 (bytes "light sky blue");
  Rgb 164 211 238 (bytes "light sky blue"); Rgb 141 182 205 (bytes "light sky blue"); Rgb 96 123 139 (bytes "light sky blue");
  Rgb 198 226 255 (bytes "slate gray"); Rgb 185 211 238 (bytes "slate gray"); Rgb 159 182 205 (bytes "slate gray"); Rgb 108 123 139 (bytes "slate gray");
  Rgb 202 225 255 (bytes "lightsteelblue"); Rgb 188 210 238 (bytes "lightsteelblue"); Rgb 162 181 205 (bytes "lightsteelblue");
  Rgb 110 123 139 (bytes "lightsteelblue"); Rgb 191 239 255 (bytes "lightblue"); Rgb 178 223 238 (bytes "lightblue"); Rgb 154 192 205 (bytes "lightblue");
  Rgb 104 131 139 (bytes "lightblue"); Rgb 224 255 255 (bytes "lightcyan"); Rgb 209 238 238 (bytes "lightcyan"); Rgb 180 205 205 (bytes "lightcyan");
  Rgb 122 139 139 (bytes "lightcyan"); Rgb 187 255 255 (bytes "paleturquoise"); Rgb 174 238 238 (bytes "paleturquoise");
  Rgb 150 205 205 (bytes "paleturquoise"); Rgb 102 139 139 (bytes "paleturquoise"); Rgb 152 245 255 (bytes "cadetblue"); Rgb 142 229 238 (bytes "cadetblue");
  Rgb 122 197 205 (bytes "cadetblue"); Rgb 83 134 139 (bytes "cadetblue"); Rgb 0 245 255 (bytes "turquoise"); Rgb 0 229 238 (bytes "turquoise");
  Rgb 0 197 205 (bytes "turquoise"); Rgb 0 134 139 (bytes "turquoise"); Rgb 0 255 255 (bytes "cyan"); Rgb 0 238 238 (bytes "cyan");
  Rgb 0 205 205 (bytes "cyan"); Rgb 0 139 139 (bytes "cyan"); Rgb 151 255 255 (bytes "darkslategray"); Rgb 141 238 238 (bytes "darkslategray");
  Rgb 121 205 205 (bytes "darkslategray"); Rgb 82 139 139 (bytes "darkslategray"); Rgb 127 255 212 (bytes "aquamarine"); Rgb 118 238 198 (bytes "aquamarine");
  Rgb 102 205 170 (bytes "aquamarine"); Rgb 69 139 116 (bytes "aquamarine"); Rgb 193 255 193 (bytes "darkseagreen"); Rgb 180 238 180 (bytes "darkseagreen");
  Rgb 155 205 155 (bytes "darkseagreen"); Rgb 105 139 105 (bytes "darkseagreen"); Rgb 84 255 159 (bytes "seagreen"); Rgb 78 238 148 (bytes "seagreen");
  Rgb 67 205 128 (bytes "seagreen"); Rgb 46 139 87 (bytes "seagreen"); Rgb 154 255 154 (bytes "palegreen"); Rgb 144 238 144 (bytes "palegreen");
  Rgb 124 205 124 (bytes "palegreen"); Rgb 84 139 84 (bytes "palegreen"); Rgb 0 255 127 (bytes "springgreen"); Rgb 0 238 118 (bytes "springgreen");
  Rgb 0 205 102 (bytes "springgreen"); Rgb 0 139 69 (bytes "springgreen"); Rgb 0 255 0 (bytes "green"); Rgb 0 238 0 (bytes "green");
  Rgb 0 205 0 (bytes "green"); Rgb 0 139 0 (bytes "green"); Rgb 127 255 0 (bytes "chartreuse"); Rgb 118 238 0 (bytes "chartreuse");
  Rgb 102 205 0 (bytes "chartreuse"); Rgb 69 139 0 (bytes "chartreuse"); Rgb 192 255 62 (bytes "olivedrab"); Rgb 179 238 58 (bytes "olivedrab");
  Rgb 154 205 50 (bytes "olivedrab"); Rgb 105 139 34 (bytes "olivedrab"); Rgb 202 255 112 (bytes "darkolivegreen"); Rgb 188 238 104 (bytes "darkolivegreen");
  Rgb 162 205 90 (bytes "darkolivegreen"); Rgb 110 139 61 (bytes "darkolivegreen"); Rgb 255 246 143 (bytes "khaki"); Rgb 238 230 133 (bytes "khaki");
  Rgb 205 198 115 (bytes "khaki"); Rgb 139 134 78 (bytes "khaki"); Rgb 255 236 139 (bytes "lightgoldenrod"); Rgb 238 220 130 (bytes "lightgoldenrod");
  Rgb 205 190 112 (bytes "lightgoldenrod"); Rgb 139 129 76 (bytes "lightgoldenrod"); Rgb 255 255 224 (bytes "lightyellow");
  Rgb 238 238 209 (bytes "lightyellow"); Rgb 205 205 180 (bytes "lightyellow"); Rgb 139 139 122 (bytes "lightyellow"); Rgb 255 255 0 (bytes "yellow");
  Rgb 238 238 0 (bytes "yellow"); Rgb 205 205 0 (bytes "yellow"); Rgb 139 139 0 (bytes "yellow"); Rgb 255 215 0 (bytes "gold"); Rgb 238 201 0 (bytes "gold");
  Rgb 205 173 0 (bytes "gold"); Rgb 139 117 0 (bytes "gold"); Rgb 255 193 37 (bytes "goldenrod"); Rgb 238 180 34 (bytes "goldenrod");
  Rgb 205 155 29 (bytes "goldenrod"); Rgb 139 105 20 (bytes "goldenrod"); Rgb 255 185 15 (bytes "darkgoldenrod"); Rgb 238 173 14 (bytes "darkgoldenrod");
  Rgb 205 149 12 (bytes "darkgoldenrod"); Rgb 139 101 8 (bytes "darkgoldenrod"); Rgb 255 193 193 (bytes "rosybrown"); Rgb 238 180 180 (bytes "rosybrown");
  Rgb 205 155 155 (bytes "rosybrown"); Rgb 139 105 105 (bytes "rosybrown"); Rgb 255 106 106 (bytes "indianred"); Rgb 238 99 99 (bytes "indianred");
  Rgb 205 85 85 (bytes "indianred"); Rgb 139 58 58 (bytes "indianred"); Rgb 255 130 71 (bytes "sienna"); Rgb 238 121 66 (bytes "sienna");
  Rgb 205 104 57 (bytes "sienna"); Rgb 139 71 38 (bytes "sienna"); Rgb 255 211 155 (bytes "burlywood"); Rgb 238 197 145 (bytes "burlywood");
  Rgb 205 170 125 (bytes "burlywood"); Rgb 139 115 85 (bytes "burlywood"); Rgb 255 231 186 (bytes "wheat"); Rgb 238 216 174 (bytes "wheat");
  Rgb 205 186 150 (bytes "wheat"); Rgb 139 126 102 (bytes "wheat"); Rgb 255 165 79 (bytes "tan"); Rgb 238 154 73 (bytes "tan"); Rgb 205 133 63 (bytes "tan");
  Rgb 139 90 43 (bytes "tan"); Rgb 255 127 36 (bytes "chocolate"); Rgb 238 118 33 (bytes "chocolate"); Rgb 205 102 29 (bytes "chocolate");
  Rgb 139 69 19 (bytes "chocolate"); Rgb 255 48 48 (bytes "firebrick"); Rgb 238 44 44 (bytes "firebrick"); Rgb 205 38 38 (bytes "firebrick");
  Rgb 139 26 26 (bytes "firebrick"); Rgb 255 64 64 (bytes "brown"); Rgb 238 59 59 (bytes "brown"); Rgb 205 51 51 (bytes "brown");
  Rgb 139 35 35 (bytes "brown"); Rgb 255 140 105 (bytes "salmon"); Rgb 238 130 98 (bytes "salmon"); Rgb 205 112 84 (bytes "salmon");
  Rgb 139 76 57 (bytes "salmon"); Rgb 255 160 122 (bytes "lightsalmon"); Rgb 238 149 114 (bytes "lightsalmon"); Rgb 205 129 98 (bytes "lightsalmon");
  Rgb 139 87 66 (bytes "lightsalmon"); Rgb 255 165 0 (bytes "orange"); Rgb 238 154 0 (bytes "orange"); Rgb 205 133 0 (bytes "orange");
  Rgb 139 90 0 (bytes "orange"); Rgb 255 127 0 (bytes "darkorange"); Rgb 238 118 0 (bytes "darkorange"); Rgb 205 102 0 (bytes "darkorange");
  Rgb 139 69 0 (bytes "darkorange"); Rgb 255 114 86 (bytes "coral"); Rgb 238 106 80 (bytes "coral"); Rgb 205 91 69 (bytes "coral");
  Rgb 139 62 47 (bytes "coral"); Rgb 255 99 71 (bytes "tomato"); Rgb 238 92 66 (bytes "tomato"); Rgb 205 79 57 (bytes "tomato");
  Rgb 139 54 38 (bytes "tomato"); Rgb 255 69 0 (bytes "orangered"); Rgb 238 64 0 (bytes "orangered"); Rgb 205 55 0 (bytes "orangered");
  Rgb 139 37 0 (bytes "orangered"); Rgb 255 0 0 (bytes "red"); Rgb 238 0 0 (bytes "red"); Rgb 205 0 0 (bytes "red"); Rgb 139 0 0 (bytes "red");
  Rgb 255 20 147 (bytes "deeppink"); Rgb 238 18 137 (bytes "deeppink"); Rgb 205 16 118 (bytes "deeppink"); Rgb 139 10 80 (bytes "deeppink");
  Rgb 255 110 180 (bytes "hotpink"); Rgb 238 106 167 (bytes "hotpink"); Rgb 205 96 144 (bytes "hotpink"); Rgb 139 58 98 (bytes "hotpink");
  Rgb 255 181 197 (bytes "pink"); Rgb 238 169 184 (bytes "pink"); Rgb 205 145 158 (bytes "pink"); Rgb 139 99 108 (bytes "pink");
  Rgb 255 174 185 (bytes "lightpink"); Rgb 238 162 173 (bytes "lightpink"); Rgb 205 140 149 (bytes "lightpink"); Rgb 139 95 101 (bytes "lightpink");
  Rgb 255 130 171 (bytes "palevioletred"); Rgb 238 121 159 (bytes "palevioletred"); Rgb 205 104 137 (bytes "palevioletred");
  Rgb 139 71 93 (bytes "palevioletred"); Rgb 255 52 179 (bytes "maroon"); Rgb 238 48 167 (bytes "maroon"); Rgb 205 41 144 (bytes "maroon");
  Rgb 139 28 98 (bytes "maroon"); Rgb 255 62 150 (bytes "violetred"); Rgb 238 58 140 (bytes "violetred"); Rgb 205 50 120 (bytes "violetred");
  Rgb 139 34 82 (bytes "violetred"); Rgb 255 0 255 (bytes "magenta"); Rgb 238 0 238 (bytes "magenta"); Rgb 205 0 205 (bytes "magenta");
  Rgb 139 0 139 (bytes "magenta"); Rgb 255 131 250 (bytes "orchid"); Rgb 238 122 233 (bytes "orchid"); Rgb 205 105 201 (bytes "orchid");
  Rgb 139 71 137 (bytes "orchid"); Rgb 255 187 255 (bytes "plum"); Rgb 238 174 238 (bytes "plum"); Rgb 205 150 205 (bytes "plum");
  Rgb 139 102 139 (bytes "plum"); Rgb 224 102 255 (bytes "mediumorchid"); Rgb 209 95 238 (bytes "mediumorchid"); Rgb 180 82 205 (bytes "mediumorchid");
  Rgb 122 55 139 (bytes "mediumorchid"); Rgb 191 62 255 (bytes "darkorchid"); Rgb 178 58 238 (bytes "darkorchid"); Rgb 154 50 205 (bytes "darkorchid");
  Rgb 104 34 139 (bytes "darkorchid"); Rgb 155 48 255 (bytes "purple"); Rgb 145 44 238 (bytes "purple"); Rgb 125 38 205 (bytes "purple");
  Rgb 85 26 139 (bytes "purple"); Rgb 171 130 255 (bytes "mediumpurple"); Rgb 159 121 238 (bytes "mediumpurple"); Rgb 137 104 205 (bytes "mediumpurple");
  Rgb 93 71 139 (bytes "mediumpurple"); Rgb 255 225 255 (bytes "thistle"); Rgb 238 210 238 (bytes "thistle"); Rgb 205 181 205 (bytes "thistle");
  Rgb 139 123 139 (bytes "thistle"); Rgb 169 169 169 (bytes "darkgrey"); Rgb 0 0 139 (bytes "darkblue"); Rgb 0 139 139 (bytes "darkcyan");
  Rgb 139 0 139 (bytes "darkmagenta"); Rgb 139 0 0 (bytes "darkred"); Rgb 144 238 144 (bytes "lightgreen"); Rgb 220 20 60 (bytes "crimson");
  Rgb 75 0 130 (bytes "indigo"); Rgb 128 128 0 (bytes "olive"); Rgb 102 51 153 (bytes "rebeccapurple"); Rgb 192 192 192 (bytes "silver");
  Rgb 0 128 128 (bytes "teal")].

(** ** Edit distance

    The matrix by rows: row [x] from row [x - 1], the character [s2[x - 1]] and
    [s1]. *)
Definition MIN3 (a b c : Z) : Z := if a <? b then (if a <? c then a else c) else if b <? c then b else c.
Fixpoint lev_cells (s1 : list byte) (c2 : byte) (prev : list Z) (left_ : Z) : list Z :=
  match s1, prev with
  | c1 :: s1, diag :: ((up :: _) as prev) =>
     let v := MIN3 (u32 (up + 1)) (u32 (left_ + 1)) (u32 (diag + if bool_decide (c1 = c2) then 0 else 1)) in
     v :: lev_cells s1 c2 prev v
  | _, _ => []
  end.
Definition lev_row (s1 : list byte) (prev : list Z) (c2 : byte) : list Z :=
  let first := u32 (hd 0 prev + 1) in first :: lev_cells s1 c2 prev first.
Definition lev_first (s1 : list byte) : list Z := (λ y : nat, u32 (Z.of_nat y)) <$> seq 0 (S (length s1)).
Definition levenshtein (s1 s2 : list byte) : Z := i32 (List.last (foldl (lev_row s1) (lev_first s1) s2) 0).

(** ** Words *)
Definition isalpha (c : byte) : bool := let z := Z_of_byte c in (65 <=? z) && (z <=? 90) || (97 <=? z) && (z <=? 122).
(** [before]: whether a letter precedes. *)
Fixpoint ucword (before : bool) (str : list byte) : list byte :=
  match str with [] => [] | c :: str => (if before then tolower c else toupper c) :: ucword (isalpha c) str end.
Definition _str_ucword (str : list byte) : list byte := ucword false (take 1024 str).
Fixpoint abrev (before : bool) (str : list byte) : list byte :=
  match str with
  | [] => []
  | c :: str => (if isalpha c && negb before then [toupper c] else []) ++ abrev (isalpha c) str
  end.
Definition _str_abrev (str : list byte) : list byte := abrev false (take 1024 str).

Section color.
Context `{Double}.
Definition _str_span (str1 str2 : list byte) : Z := fint (fdiv (f_of (zlen str1 * zlen str2)) (f_of (levenshtein str1 str2))).
(** The first entry with the highest positive score whose label is not among
    [skip]; equal literals are one object. *)
Definition pick_step (skip : list (list byte)) (best : Z * option rgb_t) (e : Z * rgb_t) : Z * option rgb_t :=
  let '(score, c) := e in
  if bool_decide (rgb_label c ∈ skip) then best else if best.1 <? score then (score, Some c) else best.
Definition pick_color (scored : list (Z * rgb_t)) (skip : list (list byte)) : option rgb_t := (foldl (pick_step skip) (0, None) scored).2.
Definition blend (p s t : Z) : Z := u64 (u32 (Z.shiftl p 24) * 4 + u32 (Z.shiftl s 24) * 3 + u32 (Z.shiftl t 24)).
Definition channel (v t : Z) : Z := u32 (v / 8 + t mod 65536).
Record color_t := Color { co_red : Z; co_green : Z; co_blue : Z; co_alpha : Z; co_label : list byte; co_abrev : list byte }.
Definition color_scores (name : list byte) : list (Z * rgb_t) :=
  let name_buf := tolower <$> take 127 name in (λ c, (_str_span name_buf (rgb_label c), c)) <$> _rgb_table.
(** The color of three entries. *)
Definition color_of (pri sec tri : rgb_t) : color_t :=
  let r := blend (rgb_r pri) (rgb_r sec) (rgb_r tri) in
  let g := blend (rgb_g pri) (rgb_g sec) (rgb_g tri) in
  let b := blend (rgb_b pri) (rgb_b sec) (rgb_b tri) in
  let alpha := u32 (u32 (u32 (2 ^ 32 - 1 - u32 (Z.shiftr r 8)) - u32 (Z.shiftr g 8)) - u32 (Z.shiftr b 8)) in
  let label := _str_ucword (rgb_label pri) ++ bytes " " ++ _str_ucword (rgb_label sec) ++ bytes " (" ++ _str_abrev (rgb_label tri) ++ bytes ")" in
  let ab := take 4 (_str_abrev label) in
  let ab := if (length ab <? 4)%nat
    then let sum := foldl (λ s c, i32 (s + Z_of_byte (tolower c))) 0 label in ab ++ [hexd (sum mod 10)] else ab in
  Color (channel r (rgb_r tri)) (channel g (rgb_g tri)) (channel b (rgb_b tri)) alpha label ab.
(** [None]: a score of no entry is positive, and the code goes through a null pointer. *)
Definition color_gen (name : option (list byte)) : option color_t :=
  match name with
  | None | Some [] => Some (Color (2 ^ 32 - 1) (2 ^ 32 - 1) (2 ^ 32 - 1) (2 ^ 32 - 1) [] [])
  | Some name =>
     let scored := color_scores name in
     pri ← pick_color scored [];
     sec ← pick_color scored [rgb_label pri];
     tri ← pick_color scored [rgb_label pri; rgb_label sec];
     Some (color_of pri sec tri)
  end.
End color.
