(* ===== verification/Task.v ===== *)
(** * Stratum tasks and rewards

    [stratum_task.c], [stratum_send_task] of [stratum_message.c] and the end of the
    timers of [stratum.c] and [stratum_sha256d.c]: blocks found by the pool are
    divided among the workers and paid out, and templates of the coin server become
    tasks, which are sent to the workers and tried by the built-in miner.

    The coin server is the classes [Server] and [Pool]; what it is asked to do is
    a log of events.  The static variables of the file are the record [pool_t], the
    clock is an argument, and so are the bytes of arrays that are not initialised. *)

From S2P Require Import Prelude Errors Shbuf Descriptor Crc Sha Hmac Key Opt Links Clients Services Json JsonTree Codec Stratum Scrypt Work.

Definition BLOCK_VERSION : Z := 1.
Definition MAX_SERVER_NONCE : Z := 8.
Definition MAX_ROUND_TIME : Z := 600.
Definition MAX_REWARD_WAIT_TIME : Z := 3600.
Definition TASKF_RESET : Z := 1.
Definition ALGO_SCRYPT : Z := 0.
Definition COIN : Z := 100000000.

Section task.
Context `{Real} `{Double} `{Heap} `{!Server} `{!Double64}.
Context (max_fd : Z) (shaddr : Z → option sockaddr) (mem : list byte).
Abbreviation C := (SM (cst user_t)).

(** ** The coin server *)

(** [add_stratum_miner_block], [addblockreward] with its result,
    [sendblockreward] and [stratum_miner_submitblock]. *)
Inductive event :=
  | MinerBlock (iface : nat) (hash : list byte)
  | Reward (iface : nat) (account : list byte) (amount : F) (err : Z)
  | SendReward (iface : nat)
  | SubmitBlock (task_id ntime nonce : Z) (xn_hex : list byte).
(** What the server answers to a call may depend on the calls before it. *)
Class Pool := {
  (** The literal [m * 10^-e], and operations of doubles. *)
  f_dec : Z → Z → F;
  ffloor : F → F;
  fsqrt : F → F;
  (** [(time_t)x] *)
  fi64 : F → Z;
  f_real : R → F;
  (** [printf] of [%-w.pf] *)
  f_fmt : Z → Z → F → list byte;
  (** [stratum_miner_lastminerblock] *)
  pl_lastblock : list event → nat → option shjson_t;
  (** [addblockreward] *)
  pl_reward : list event → nat → list byte → F → Z;
  (** [getaccountbalance(iface, "")] *)
  pl_balance : list event → nat → F;
  (** [stratum_miner_getblocktemplate] *)
  pl_template : list event → nat → Z → option shjson_t;
  (** [is_stratum_miner_algo] *)
  pl_algo : nat → Z → bool;
  (** [GetNextDifficulty] *)
  pl_difficulty : nat → F;
  (** [iface->net_valid] and [iface->min_tx_fee] *)
  pl_net_valid : nat → Z;
  pl_min_tx_fee : nat → Z;
}.
Context `{!Pool}.

(** [>=], and the macros [MAX] and [MIN]. *)
Definition fgeb (a b : F) : bool := fltb b a || feqb a b.
Definition fmax (a b : F) : F := if fltb b a then a else b.
Definition fmin (a b : F) : F := if fltb a b then a else b.

(** The static variables of the file. *)
Record pool_t := PoolT {
  po_log : list event;
  po_payout_hash : list (list byte);
  po_last_reset : Z;
  po_sys_user : Z;
  po_luck : Z;
  po_idx : Z;
  po_round_stamp : Z;
}.
Definition pool_init : pool_t := PoolT [] (replicate MAX_COIN_IFACE []) 0 0 2 0 0.
Definition po_event (e : event) (po : pool_t) : pool_t :=
  PoolT (po_log po ++ [e]) (po_payout_hash po) (po_last_reset po) (po_sys_user po) (po_luck po) (po_idx po) (po_round_stamp po).
Definition po_set_payout (i : nat) (hash : list byte) (po : pool_t) : pool_t :=
  PoolT (po_log po) (<[i := hash]> (po_payout_hash po)) (po_last_reset po) (po_sys_user po) (po_luck po) (po_idx po) (po_round_stamp po).
Definition po_set_last_reset (t : Z) (po : pool_t) : pool_t :=
  PoolT (po_log po) (po_payout_hash po) t (po_sys_user po) (po_luck po) (po_idx po) (po_round_stamp po).
Definition po_set_sys_user (p : Z) (po : pool_t) : pool_t :=
  PoolT (po_log po) (po_payout_hash po) (po_last_reset po) p (po_luck po) (po_idx po) (po_round_stamp po).
Definition po_set_luck (l : Z) (po : pool_t) : pool_t :=
  PoolT (po_log po) (po_payout_hash po) (po_last_reset po) (po_sys_user po) l (po_idx po) (po_round_stamp po).
Definition po_set_idx (i : Z) (po : pool_t) : pool_t :=
  PoolT (po_log po) (po_payout_hash po) (po_last_reset po) (po_sys_user po) (po_luck po) i (po_round_stamp po).
Definition po_set_round (t : Z) (po : pool_t) : pool_t :=
  PoolT (po_log po) (po_payout_hash po) (po_last_reset po) (po_sys_user po) (po_luck po) (po_idx po) t.

(** ** Rewards *)
Definition nth_F (l : list F) (i : nat) : F := default f0 (l !! i).
Definition is_system (u : user_t) : bool := bool_decide (take 7 (u_worker u) = bytes "system.").
Definition add_shares (tot : F) (u : user_t) : F := foldl fadd tot (u_block_avg u).
Definition reward_of (weight : F) (u : user_t) : F := foldl (λ reward a, fadd reward (fmul weight a)) f0 (u_block_avg u).
Definition u_set_balance (balance avg : list F) (reward_time reward_height : Z) (u : user_t) : user_t :=
  let x := u_sess u in
  User (u_worker u) (u_fd u) (u_flags u) (u_height u) (u_block_tot u) (u_block_cnt u) (u_block_avg u) (u_block_acc u) balance
    (u_round_stamp u) (u_work_stamp u) (u_ifaceIndex u) (u_netid u) (u_alg u) (u_next u)
    (Session (ss_cur_id x) (ss_cli_id x) (ss_cli_ver x) (ss_work_diff x) (ss_block_hash x) (ss_block_height x) (ss_block_tm x) (ss_block_freq x) (ss_speed x)
      reward_time reward_height avg).
(** The part of a worker in a block, and whether it gets one. *)
Definition credits (weight : F) (u : user_t) : bool :=
  negb (has_flag (u_flags u) USER_SYNC || has_flag (u_flags u) USER_RPC || bool_decide (u_worker u = []) || is_system u) &&
  fgeb (reward_of weight u) (f_dec 1 7).
Definition credit (i : nat) (weight : F) (u : user_t) : user_t :=
  let x := u_sess u in
  if credits weight u then
    let reward := reward_of weight u in
    u_set_balance (alter (λ b, fadd b reward) i (u_balance u)) (alter (λ a, fdiv (fadd a reward) (f_of 2)) i (ss_balance_avg x))
      (ss_reward_time x) (ss_reward_height x) u
  else u.
(** The line of the log, which is printed to [buf[256]]: [u] is the record
    before, and [name] that of the coin. *)
Definition payout_line (i : nat) (weight : F) (name : list byte) (u : user_t) : list byte :=
  let u' := credit i weight u in
  bytes "check_payout: worker '" ++ u_worker u' ++ bytes "' has pending balance of " ++ f_fmt 8 8 (nth_F (u_balance u') i) ++ bytes " " ++ name ++
  bytes " coins (+" ++ f_fmt 8 8 (reward_of weight u) ++ bytes ", avg " ++ f_fmt 4 4 (nth_F (ss_balance_avg (u_sess u')) i) ++ bytes ").".
(** [GetCoinByIndex] may be null. *)
Definition credit_log (i : nat) (weight : F) (u : user_t) : C unit :=
  if credits weight u then '(name, _) ← deref (sv_coin i); fits_array 256 (payout_line i weight name u) else mret tt.
Definition credit_one (i : nat) (weight : F) (p : Z) : C unit := u ← node_load p; _ ← node_store p (credit i weight u); credit_log i weight u.
Definition check_payout (po : pool_t) (iface : nat) : C pool_t :=
  match pl_lastblock (po_log po) iface with
  | None => mret po
  | Some block =>
     hash ← deref (shjson_astr (Some block) (Some (bytes "blockhash")) (Some []));
     let block_hash := take 511 hash in
     if bool_decide (block_hash = []) then mret po
     else
       last ← deref (po_payout_hash po !! iface);
       po ← (if bool_decide (last = []) then _ ← fits_array 256 block_hash; mret (po_set_payout iface block_hash po) else mret po);
       last ← deref (po_payout_hash po !! iface);
       if bool_decide (last = block_hash) then mret po
       else
         _ ← fits_array 256 block_hash;
         let po := po_event (MinerBlock iface block_hash) (po_set_payout iface block_hash po) in
         client_list ← sgets cs_list;
         if client_list =? 0 then mret po
         else
           let amount := f_real (shjson_num (Some block) (Some (bytes "amount")) (r_of 0)) in
           if fltb amount (f_of 1) then mret po
           else
             let fee := fmul amount (f_dec 1 3) in
             let amount := fsub amount fee in
             tot_shares ← on_list (λ fuel, fold_nodes fuel add_shares f0);
             let weight := fdiv amount (fmax (f_of 1) tot_shares) in
             _ ← on_list (λ fuel, each_node fuel (credit_one iface weight));
             mret po
  end.

(** [strtok(uname, ".")] on a copy of the name. *)
Fixpoint until_dot (l : list byte) : list byte := match l with [] => [] | c :: l => if bool_decide (c = x2e) then [] else c :: until_dot l end.
Fixpoint account_of (l : list byte) : list byte :=
  match l with [] => [] | c :: l => if bool_decide (c = x2e) then c :: account_of l else c :: until_dot l end.
Definition coin_val (i : nat) (u : user_t) : F := fdiv (ffloor (fmul (nth_F (u_balance u) i) (f_of 1000))) (f_of 1000).
(** The test that ends the first loop. *)
Definition reward_due (now : Z) (i : nat) (u : user_t) : bool :=
  negb (is_system u) && negb (fltb (nth_F (u_balance u) i) (f_dec 1 2)) && negb (bool_decide (account_of (u_worker u) = [])) &&
  ((ss_reward_time (u_sess u) <? now - MAX_REWARD_WAIT_TIME) || fltb (fmul (nth_F (ss_balance_avg (u_sess u)) i) (f_of 10)) (coin_val i u)).
(** A loop over the list with local variables. *)
Fixpoint scan_nodes {A} (fuel : nat) (body : A → Z → C A) (acc : A) (p : Z) : C A :=
  if p =? 0 then mret acc
  else match fuel with
       | O => sfault
       | S fuel => acc ← body acc p; n ← node_load p; scan_nodes fuel body acc (c_next n)
       end.
(** What the second loop does for a worker: the log, the balance of the pool that is left, and the record. *)
Definition pay (now : Z) (i : nat) (block_height : Z) (min_input : F) (acc : pool_t * F) (u : user_t) : (pool_t * F) * user_t :=
  let '(po, bal) := acc in
  let uname := account_of (u_worker u) in
  let v := coin_val i u in
  if is_system u || bool_decide (uname = []) || fgeb min_input v || fgeb v bal then (acc, u)
  else
    let err := pl_reward (po_log po) i uname v in
    let po := po_event (Reward i uname v err) po in
    if negb (err =? 0) then ((po, bal), u)
    else ((po, fsub bal v),
          u_set_balance (alter (λ b, fmax f0 (fsub b v)) i (u_balance u)) (ss_balance_avg (u_sess u)) now (u64 block_height) u).
Definition pay_one (now : Z) (i : nat) (block_height : Z) (min_input : F) (acc : pool_t * F) (p : Z) : C (pool_t * F) :=
  u ← node_load p; let '(acc, u) := pay now i block_height min_input acc u in _ ← node_store p u; mret acc.
Definition commit_payout (now : Z) (po : pool_t) (iface : nat) (block_height : Z) : C pool_t :=
  if negb (coin_enabled sv_coin (Z.of_nat iface)) then mret po
  else
    user ← on_list (λ fuel, find_node fuel (reward_due now iface));
    if user =? 0 then mret po
    else
      let bal := pl_balance (po_log po) iface in
      let min_input := fdiv (f_of (pl_min_tx_fee iface)) (f_of COIN) in
      '(po, _) ← on_list (λ fuel, scan_nodes fuel (pay_one now iface block_height min_input) (po, bal));
      mret (po_event (SendReward iface) po).

(** ** The choice of a coin *)
Record task_attr_t := TaskAttr {
  ta_weight : list F;
  ta_avg_diff : list F;
  ta_blk_stamp : list Z;
  ta_commit_stamp : list Z;
  ta_mine_stamp : list Z;
  ta_tnow : Z;
  ta_ifaceIndex : Z;
  ta_flags : Z;
  ta_alg : Z;
}.
Definition attr_zero (alg : Z) : task_attr_t :=
  let zs := replicate MAX_COIN_IFACE 0 in let fs := replicate MAX_COIN_IFACE f0 in TaskAttr fs fs zs zs zs 0 0 0 alg.
Definition ta_set_weight (w d : list F) (a : task_attr_t) : task_attr_t :=
  TaskAttr w d (ta_blk_stamp a) (ta_commit_stamp a) (ta_mine_stamp a) (ta_tnow a) (ta_ifaceIndex a) (ta_flags a) (ta_alg a).
Definition ta_set_mine (m : list Z) (iface : Z) (a : task_attr_t) : task_attr_t :=
  TaskAttr (ta_weight a) (ta_avg_diff a) (ta_blk_stamp a) (ta_commit_stamp a) m (ta_tnow a) iface (ta_flags a) (ta_alg a).
Definition ta_set_commit (c : list Z) (a : task_attr_t) : task_attr_t :=
  TaskAttr (ta_weight a) (ta_avg_diff a) (ta_blk_stamp a) c (ta_mine_stamp a) (ta_tnow a) (ta_ifaceIndex a) (ta_flags a) (ta_alg a).
Definition ta_set_blk (b : list Z) (a : task_attr_t) : task_attr_t :=
  TaskAttr (ta_weight a) (ta_avg_diff a) b (ta_commit_stamp a) (ta_mine_stamp a) (ta_tnow a) (ta_ifaceIndex a) (ta_flags a) (ta_alg a).
Definition ta_set_flags (f : Z) (a : task_attr_t) : task_attr_t :=
  TaskAttr (ta_weight a) (ta_avg_diff a) (ta_blk_stamp a) (ta_commit_stamp a) (ta_mine_stamp a) (ta_tnow a) (ta_ifaceIndex a) f (ta_alg a).
Definition ta_set_tnow (t : Z) (a : task_attr_t) : task_attr_t :=
  TaskAttr (ta_weight a) (ta_avg_diff a) (ta_blk_stamp a) (ta_commit_stamp a) (ta_mine_stamp a) t (ta_ifaceIndex a) (ta_flags a) (ta_alg a).
Definition nth_Z (l : list Z) (i : nat) : Z := default 0 (l !! i).
(** [for (ifaceIndex = 1; ifaceIndex < MAX_COIN_IFACE; ifaceIndex++)] *)
Definition ifaces : list nat := seq 1 (MAX_COIN_IFACE - 1).
Definition minable (alg : Z) (i : nat) : bool := pl_algo i alg && coin_enabled sv_coin (Z.of_nat i).
Definition weigh (now : Z) (attr : task_attr_t) (idx : nat) : task_attr_t :=
  if negb (minable (ta_alg attr) idx) then attr
  else
    let span (hi stamp : Z) := fmax (f_dec 1 2) (fmin (f_of hi) (f_of (now - stamp))) in
    let weight := f0 in
    let weight := if negb (ta_ifaceIndex attr =? Z.of_nat idx) then fadd weight (span 900 (nth_Z (ta_mine_stamp attr) idx)) else weight in
    let weight := fadd weight (span 600 (pl_net_valid idx)) in
    let avg := fdiv (fadd (pl_difficulty idx) (fmul (nth_F (ta_avg_diff attr) idx) (f_of 3))) (f_of 4) in
    let weight := fsub weight (fmax (f_dec 1 2) (fmin (f_of 300) (fsqrt avg))) in
    let weight := fmax (f_dec 1 3) weight in
    ta_set_weight (alter (λ w, fdiv (fadd w weight) (f_of 2)) idx (ta_weight attr)) (<[idx := avg]> (ta_avg_diff attr)) attr.
Definition stratum_task_weight (now : Z) (attr : task_attr_t) : task_attr_t := foldl (weigh now) attr ifaces.
(** The weightiest coin: its weight and its index, 0 for none. *)
Definition heavier (attr : task_attr_t) (best : F * nat) (i : nat) : F * nat :=
  if negb (minable (ta_alg attr) i) then best
  else if feqb best.1 f0 || fltb best.1 (nth_F (ta_weight attr) i) then (nth_F (ta_weight attr) i, i) else best.
Definition choose_iface (now : Z) (attr : task_attr_t) : task_attr_t :=
  let max_iface := (foldl (heavier attr) (f0, 0%nat) ifaces).2 in
  if negb (max_iface =? 0)%nat && coin_enabled sv_coin (Z.of_nat max_iface)
  then ta_set_mine (<[max_iface := now]> (ta_mine_stamp attr)) (Z.of_nat max_iface) attr else attr.
(** Coins with a new block since the last reset: their rewards, and the last of them. *)
Fixpoint reset_loop (now : Z) (idxs : list nat) (po : pool_t) (attr : task_attr_t) (reset_idx : Z) : C (pool_t * task_attr_t * Z) :=
  match idxs with
  | [] => mret (po, attr, reset_idx)
  | i :: idxs =>
     if negb (pl_algo i (ta_alg attr)) then reset_loop now idxs po attr reset_idx
     else if negb (nth_Z (ta_commit_stamp attr) i =? nth_Z (ta_blk_stamp attr) i) then
       po ← (if ta_alg attr =? ALGO_SCRYPT
             then po ← check_payout po i; commit_payout now po i (i32 (sv_height (Z.of_nat i) - 1)) else mret po);
       reset_loop now idxs po (ta_set_commit (<[i := nth_Z (ta_blk_stamp attr) i]> (ta_commit_stamp attr)) attr) (Z.of_nat i)
     else reset_loop now idxs po attr reset_idx
  end.

(** ** Tasks *)
Record task_t := Task {
  tk_task_id : Z;
  tk_version : Z;
  tk_cb1 : list byte;
  tk_cb2 : list byte;
  tk_prev_hash : list byte;
  tk_nbits : list byte;
  tk_curtime : Z;
  tk_height : Z;
  tk_work_reset : bool;
  tk_ifaceIndex : Z;
  tk_merkle : option (list (option (list byte)));
  tk_target : F;
  tk_work : scrypt_work;
}.
Definition tk_set_work (w : scrypt_work) (t : task_t) : task_t :=
  Task (tk_task_id t) (tk_version t) (tk_cb1 t) (tk_cb2 t) (tk_prev_hash t) (tk_nbits t) (tk_curtime t) (tk_height t) (tk_work_reset t) (tk_ifaceIndex t)
    (tk_merkle t) (tk_target t) w.
(** [strstr]: where the first occurrence starts. *)
Fixpoint strstr (s needle : list byte) : option nat :=
  if bool_decide (take (length needle) s = needle) then Some 0%nat
  else match s with [] => None | _ :: s => S <$> strstr s needle end.
(** The halves of the coinbase around the nonces, which are the 16 digits before
    the script; [strncpy] gets a huge length when there are less than 16. *)
Definition CB_SIZE : Z := 1024.
Definition task_cb (coinbase sig : list byte) : C (option (list byte * list byte)) :=
  match strstr coinbase sig with
  | None => mret None
  | Some k =>
     if (k <? 16)%nat then sfault
     else
       let ptr := drop k coinbase in
       if CB_SIZE <=? zlen ptr then mret None else mret (Some (take (k - 16) coinbase, take 1023 ptr))
  end.
Definition PTR_SIZE : Z := 8.
(** The array of the merkle branch and a null pointer. *)
Definition task_merkle (block : shjson_t) : C (option (list (option (list byte)))) :=
  let merkle_len := shjson_array_count block (Some (bytes "transactions")) in
  if heap_ok ((merkle_len + 1) * PTR_SIZE) then
    mret (Some ((λ i : nat, shjson_array_str block (Some (bytes "transactions")) (Z.of_nat i)) <$> seq 0 (Z.to_nat merkle_len)))
  else if merkle_len =? 0 then mret None else sfault.
(** [crc] is the checksum of the record. *)
Definition task_of (crc now : Z) (iface : nat) (work_reset : bool) (block : shjson_t) : C (option task_t) :=
  let str name def := deref (shjson_astr (Some block) (Some (bytes name)) (Some def)) in
  let num name def := shjson_num (Some block) (Some (bytes name)) def in
  target ← str "target" (bytes "ffff");
  coinbase ← str "coinbase" [];
  sig ← str "coinbaseflags" [];
  cb ← task_cb (take 1023 coinbase) (take 255 sig);
  match cb with
  | None => mret None
  | Some (cb1, cb2) =>
     merkle ← task_merkle block;
     prev_hash ← str "previousblockhash" (replicate 64 x30);
     nbits ← str "bits" (replicate 8 x30);
     let target_num := Z.max (- 2 ^ 63) (Z.min (2 ^ 63 - 1) (strtoll16 (take 12 target))) in
     mret (Some (Task (ru32 (num "task" (r_of crc))) (rint (num "version" (r_of BLOCK_VERSION))) cb1 cb2 (take 255 prev_hash) (take 31 nbits)
       (fi64 (f_real (num "curtime" (r_of now)))) (sv_height (Z.of_nat iface)) work_reset (Z.of_nat iface) merkle
       (fdiv (f_of 0xffff) (f_of (Z.land target_num 0x00ffffff))) work_zero))
  end.
(** [size] is [sizeof(task_t)]. *)
Definition task_init (size crc now : Z) (po : pool_t) (attr : task_attr_t) : C (pool_t * task_attr_t * option task_t) :=
  '(po, attr, reset_idx) ←
    (if has_flag (ta_flags attr) TASKF_RESET
     then reset_loop now ifaces po (choose_iface now (stratum_task_weight now attr)) 0
     else mret (po, attr, 0));
  let ifaceIndex := ta_ifaceIndex attr in
  if negb (coin_enabled sv_coin ifaceIndex) then mret (po, attr, None)
  else
    let i := Z.to_nat ifaceIndex in
    match pl_template (po_log po) i (ta_alg attr) with
    | None => mret (po, attr, None)
    | Some tree =>
       match shjson_obj (Some tree) (Some (bytes "result")) with
       | None => mret (po, attr, None)
       | Some block =>
          if negb (heap_ok size) then mret (po, attr, None)
          else
            let stamp := nth_Z (ta_blk_stamp attr) i in
            let fresh := negb (reset_idx =? ifaceIndex) || negb (stamp =? po_last_reset po) in
            let po := if fresh then po_set_last_reset stamp po else po in
            task ← task_of crc now i (fresh && negb (reset_idx =? 0)) block;
            mret (po, attr, task)
       end
    end.

(** ** Notices *)
Fixpoint merkle_texts (hash_swap : list byte) (merkle : list (option (list byte))) : C (list (list byte)) :=
  match merkle with
  | [] => mret []
  | m :: merkle =>
     m ← deref m;
     hash_swap ← deref (hex_into hash_swap 0 m 32);
     l ← merkle_texts hash_swap merkle;
     mret (bin2hex (swab256 hash_swap) :: l)
  end.
Definition add_texts (l : list (list byte)) (a : shjson_t) : shjson_t := foldl (λ a s, shjson_str_add a None (Some s)) a l.
Definition stratum_send_task (hash_swap : list byte) (task : task_t) (p : Z) (clean : bool) : C Z :=
  u ← node_load p;
  if negb (has_flag (u_flags u) USER_SUBSCRIBE) then mret 0
  else
    hash_swap ← deref (hex_into hash_swap 0 (tk_prev_hash task) 32);
    let prev_hash := bin2hex (shscrypt_swap256 hash_swap) in
    _ ← sess_mod p (set_cur_id []);
    reply ← new_reply;
    let reply := shjson_str_add reply (Some (bytes "method")) (Some (bytes "mining.notify")) in
    texts ← merkle_texts hash_swap (default [] (tk_merkle task));
    merk_ar ← (match shjson_CreateArray with None => sfault | Some a => mret (add_texts texts a) end);
    reply ← array_with reply (Some (bytes "params")) (λ param,
      let param := add_texts [hex_fmt 8 (tk_task_id task); prev_hash; tk_cb1 task; tk_cb2 task] param in
      let param := add_name param None (Some merk_ar) in
      let param := add_texts [hex_fmt 8 (u32 (tk_version task)); tk_nbits task; hex_fmt 8 (u32 (tk_curtime task))] param in
      shjson_bool_add param None (tk_work_reset task));
    stratum_send_message max_fd p reply.

(** ** The built-in miner *)
Definition u_set_iface (i : Z) (u : user_t) : user_t :=
  User (u_worker u) (u_fd u) (u_flags u) (u_height u) (u_block_tot u) (u_block_cnt u) (u_block_avg u) (u_block_acc u) (u_balance u)
    (u_round_stamp u) (u_work_stamp u) i (u_netid u) (u_alg u) (u_next u) (u_sess u).
(** [stratum_user_init] gives the record a peer with the nonce of the site. *)
Definition sys_peer : scrypt_peer := shscrypt_peer (ScryptPeer (replicate 16 x00) 0 0 f0) sv_nonce (fdiv (f_of 1) (f_of 8)).
(** The branch up to its null pointer. *)
Fixpoint until_null (l : list (option (list byte))) : list (list byte) :=
  match l with Some m :: l => m :: until_null l | _ => [] end.
Definition xnonce2_zero (w : scrypt_work) : scrypt_work :=
  ScryptWork (sw_data w) (sw_midstate w) (sw_target w) (sw_hash w) (sw_ntime w) (sw_hash_nonce w) (sw_restart w) (sw_nonce w)
    (copy_at (sw_xnonce2 w) 0 (hex_fmt 8 0 ++ [x00])) (sw_sdiff w) (sw_merkle_root w) (sw_pool_diff w).
(** What the miner tries for a task: the work unit, and the result of the scan. *)
Definition task_scan (hash_swap diffbits : list byte) (task : task_t) : option (Z * scrypt_work) :=
  work ← shscrypt_work mem hash_swap diffbits sys_peer (xnonce2_zero (tk_work task)) (until_null <$> tk_merkle task)
    (Some (tk_prev_hash task)) (Some (tk_cb1 task)) (Some (tk_cb2 task)) (tk_nbits task) (hex_fmt 8 (u32 (tk_curtime task)));
  shscrypt work MAX_SERVER_NONCE.
Definition stratum_task_work (hash_swap diffbits : list byte) (now : Z) (cur_t : F) (po : pool_t) (attr : task_attr_t) (task : task_t) : C pool_t :=
  if negb (ta_alg attr =? ALGO_SCRYPT) then mret po
  else
    let po := po_set_idx (i32 (po_idx po + 1)) po in
    if negb (Z.rem (po_idx po) (po_luck po) =? 0) then mret po
    else
      po ← (if po_sys_user po =? 0 then p ← system_user shaddr mem now; mret (po_set_sys_user p po) else mret po);
      po ← (if po_round_stamp po <? now - MAX_ROUND_TIME then _ ← stratum_round_reset now; mret (po_set_round now po) else mret po);
      u ← node_load (po_sys_user po);
      _ ← node_store (po_sys_user po) (u_set_iface (ta_ifaceIndex attr) u);
      '(err, work) ← deref (task_scan hash_swap diffbits task);
      if (err =? 0) && negb (sw_nonce work =? MAX_SERVER_NONCE) then
        let po := po_set_luck (Z.max 2 (po_luck po / 2)) po in
        let '(err, work) := shscrypt_verify work in
        if err =? 0 then
          _ ← stratum_user_block max_fd cur_t (po_sys_user po) (sw_pool_diff work);
          mret (if fgeb (sw_pool_diff work) (tk_target task)
                then po_event (SubmitBlock (tk_task_id task) (u32 (tk_curtime task)) (sw_nonce work) (cstring (sw_xnonce2 work))) po else po)
        else mret po
      else mret (po_set_luck (Z.rem (po_luck po) 100 + 2) po).

(** ** Generation of work *)
Definition stratum_task_gen (size crc : Z) (hash_swap diffbits : list byte) (now : Z) (cur_t : F) (po : pool_t) (attr : task_attr_t) : C (pool_t * task_attr_t) :=
  '(po, attr, task) ← task_init size crc now po attr;
  match task with
  | None => mret (po, attr)
  | Some task =>
     _ ← stratum_user_broadcast_task (stratum_send_task hash_swap task) now (tk_height task) (ta_alg attr) (ta_ifaceIndex attr);
     po ← (if ta_alg attr =? ALGO_SCRYPT then stratum_task_work hash_swap diffbits now cur_t po attr task else mret po);
     mret (po, attr)
  end.
(** The counters of each port: the heights seen, and the calls since the last report. *)
Record pend_t := Pend { pd_height : list Z; pd_usec : Z }.
Definition pend_init : pend_t := Pend (replicate MAX_COIN_IFACE 0) 0.
Definition WORK_CYCLE_TIME : Z := 720.
(** What the coin server says of the chains at the time of a call:
    [getblockheight] and [stratum_isinitialdownload]. *)
Record chain_t := Chain { ch_height : nat → Z; ch_download : nat → bool }.
Definition is_pending (alg : Z) (ch : chain_t) (trigger : bool) (pd : pend_t) (i : nat) : bool :=
  pl_algo i alg && coin_enabled sv_coin (Z.of_nat i) && negb (ch_download ch i) && (trigger || negb (u64 (ch_height ch i) =? nth_Z (pd_height pd) i)).
Definition is_stratum_task_pending (alg : Z) (ch : chain_t) (pd : pend_t) : pend_t * option nat :=
  let usec := u32 (pd_usec pd + 1) in
  match List.find (is_pending alg ch (usec mod WORK_CYCLE_TIME =? 0) pd) ifaces with
  | Some i => (Pend (<[i := u64 (ch_height ch i)]> (pd_height pd)) 1, Some i)
  | None => (Pend (pd_height pd) usec, None)
  end.
(** The end of the timers; [stratum_sync], which the port of
    scrypt also calls, is disabled. *)
Definition stratum_work_timer (size crc : Z) (hash_swap diffbits : list byte) (now : Z) (cur_t : F) (work_cycle : Z)
    (ch : chain_t) (pd : pend_t) (po : pool_t) (attr : task_attr_t) : C (pend_t * pool_t * task_attr_t) :=
  let tnow := now / work_cycle in
  let '(pd, blk_iface) := is_stratum_task_pending (ta_alg attr) ch pd in
  if (match blk_iface with None => true | Some _ => false end) && (ta_tnow attr =? tnow) then mret (pd, po, attr)
  else
    let attr := ta_set_tnow tnow attr in
    let attr :=
      if ta_ifaceIndex attr =? 0 then ta_set_flags (Z.lor (ta_flags attr) TASKF_RESET) attr
      else match blk_iface with
           | None => attr
           | Some i =>
              let attr := ta_set_blk (<[i := now]> (ta_blk_stamp attr)) attr in
              if Z.of_nat i =? ta_ifaceIndex attr then ta_set_flags (Z.lor (ta_flags attr) TASKF_RESET) attr else attr
           end in
    '(po, attr) ← stratum_task_gen size crc hash_swap diffbits now cur_t po attr;
    mret (pd, po, ta_set_flags (Z.land (ta_flags attr) (Z.lnot TASKF_RESET)) attr).
End task.
