(* ===== verification/TaskSpec.v ===== *)
(** * Stratum tasks: specifications

    The loops over the workers as functions on their list, the exact reading of
    the arithmetic of rewards, the halves of the coinbase and the reports of new
    blocks. *)

From Stdlib Require Import QArith Qround Qminmax Lqa.
From S2P Require Import Prelude Errors Shbuf Descriptor Crc Sha ShaSpec Hmac Key KeyThm Opt Links Clients Services ClientsSpec ServSpec Json JsonTree Codec CodecSpec Stratum Scrypt ScryptSpec Work WorkSpec Task.
#[local] Open Scope Z_scope.

(** ** Loops that rewrite the records *)
Section loops.
Context `{Double}.
Implicit Types (s : cst user_t) (cl : list (Z * user_t)).
Fixpoint map_accum {A} (f : A → user_t → A * user_t) (acc : A) cl : A * list (Z * user_t) :=
  match cl with
  | [] => (acc, [])
  | (p, u) :: cl => let '(acc, u) := f acc u in let '(acc, cl) := map_accum f acc cl in (acc, (p, u) :: cl)
  end.
(** A step that neither reads nor changes the link. *)
Definition linkless {A} (f : A → user_t → A * user_t) : Prop := ∀ a u z, f a (u_set_next z u) = ((f a u).1, u_set_next z (f a u).2).
Lemma linkless_next {A} (f : A → user_t → A * user_t) a u : linkless f → u_next (f a u).2 = u_next u.
Proof.
  intros Hf. specialize (Hf a u (u_next u)). assert (u_set_next (u_next u) u = u) as E by (by destruct u). rewrite E in Hf.
  rewrite Hf at 1. done.
Qed.
(** [log] is what is done with the record after the store. *)
Definition step_of {A} (f : A → user_t → A * user_t) (log : user_t → SM (cst user_t) unit) (acc : A) (p : Z) : SM (cst user_t) A :=
  u ← node_load p; let '(acc, u') := f acc u in _ ← node_store p u'; _ ← log u; mret acc.
Definition logs (log : user_t → SM (cst user_t) unit) cl : Prop := Forall (λ x : Z * user_t, ∀ z s, log (u_set_next z x.2) s = Some (tt, s)) cl.
Lemma put_mid p (u b : user_t) (l1 l2 : list (Z * user_t)) : NoDup (l1 ++ (p, b) :: l2).*1 → put_body p u <$> (l1 ++ (p, b) :: l2) = l1 ++ (p, u) :: l2.
Proof.
  intros Hn. rewrite fmap_app in Hn. apply NoDup_app in Hn as (_ & Hn1 & [Hn2 _]%NoDup_cons).
  assert (p ∉ l1.*1) as Hp by (intros Hin; apply (Hn1 p Hin); left).
  rewrite fmap_app, (put_other p u l1 Hp), fmap_cons, (put_other p u l2 Hn2). unfold put_body. cbn. by rewrite decide_True.
Qed.
Lemma scan_at {A} (f : A → user_t → A * user_t) log : linkless f → ∀ fuel s l1 rest acc, rep s (l1 ++ rest) → logs log rest → (length rest ≤ fuel)%nat →
  swp (scan_nodes fuel (step_of f log) acc (first rest)) s
    (λ a s', a = (map_accum f acc rest).1 ∧ rep s' (l1 ++ (map_accum f acc rest).2) ∧ cs_desc s' = cs_desc s).
Proof.
  intros Hf. induction fuel as [|fuel IH]; intros s l1 [|[p b] rest] acc Hr Hlog Hl; try (by simpl in Hl; lia).
  1,2: by apply swp_ret.
  cbn [first scan_nodes]. destruct (rep_at _ _ _ _ _ Hr) as (n & Hn & -> & Hp0 & Hnx). rewrite (proj2 (Z.eqb_neq p 0) Hp0).
  apply swp_bind. unfold step_of at 1. apply swp_bind. eapply swp_load; [exact Hn|].
  destruct (f acc n) as [acc' n'] eqn:Ef. apply swp_bind. eapply swp_store; [exact Hn|].
  apply Forall_cons in Hlog as [Hlg Hlog]. cbn [snd] in Hlg. specialize (Hlg (u_next n)).
  assert (u_set_next (u_next n) (body n) = n) as En by (by destruct n). rewrite En in Hlg. apply swp_bind. unfold swp at 1. rewrite Hlg. apply swp_ret.
  pose proof (linkless_next f acc n Hf) as Hnn. rewrite Ef in Hnn. cbn [snd] in Hnn.
  assert (rep (set_users (<[p := n']> (cs_users s)) s) (l1 ++ (p, body n') :: rest)) as Hr'.
  { rewrite <-(put_mid p (body n') (body n) l1 rest) by (by eapply rep_nodup). eapply rep_store; [exact Hr|exact Hn|exact Hnn]. }
  apply swp_bind. eapply swp_load; [apply lookup_insert_eq|].
  change (c_next n') with (u_next n'). rewrite Hnn. change (u_next n) with (c_next n). rewrite Hnx.
  eapply swp_mono. { apply (IH _ (l1 ++ [(p, body n')])); [by rewrite <-(assoc_L (++))|exact Hlog|cbn in Hl; lia]. }
  cbn beta. intros a s' (-> & Hr2 & Hd). assert (map_accum f acc ((p, body n) :: rest) = ((map_accum f acc' rest).1, (p, body n') :: (map_accum f acc' rest).2)) as ->.
  { cbn [map_accum]. change (body n) with (u_set_next 0 n). rewrite (Hf acc n 0), Ef. cbn [fst snd]. by destruct (map_accum f acc' rest). }
  split; [done|]. split; [|done]. cbn [snd]. by rewrite <-(assoc_L (++)) in Hr2.
Qed.
Lemma scan_list {A} (f : A → user_t → A * user_t) log acc s cl : linkless f → logs log cl → rep s cl →
  swp (on_list (λ fuel, scan_nodes fuel (step_of f log) acc)) s
    (λ a s', a = (map_accum f acc cl).1 ∧ rep s' (map_accum f acc cl).2 ∧ cs_desc s' = cs_desc s).
Proof.
  intros Hf Hlog Hr. eapply swp_on_list; [exact Hr|]. intros fuel Hl. rewrite (rep_first s cl Hr). exact (scan_at f log Hf fuel s [] cl acc Hr Hlog Hl).
Qed.
(** A loop without local variables. *)
Lemma each_scan fuel (g : Z → SM (cst user_t) unit) p s : each_node fuel g p s = scan_nodes fuel (λ _ : unit, g) tt p s.
Proof.
  revert p s. induction fuel as [|fuel IH]; intros p s; cbn [each_node scan_nodes]; [done|]. destruct (p =? 0); [done|].
  unfold mbind, SM_bind. destruct (g p s) as [[[] s1]|]; [|done]. destruct (node_load p s1) as [[n s2]|]; [|done]. apply IH.
Qed.
Lemma scan_ext {A} fuel (g h : A → Z → SM (cst user_t) A) : (∀ a p s, g a p s = h a p s) → ∀ a p s, scan_nodes fuel g a p s = scan_nodes fuel h a p s.
Proof.
  intros E. induction fuel as [|fuel IH]; intros a p s; cbn [scan_nodes]; [done|]. destruct (p =? 0); [done|].
  unfold mbind, SM_bind. rewrite E. destruct (h a p s) as [[a' s1]|]; [|done]. destruct (node_load p s1) as [[n s2]|]; [|done]. apply IH.
Qed.
(** A loop without a log. *)
Lemma scan_plain {A} (f : A → user_t → A * user_t) (body : A → Z → SM (cst user_t) A) acc s cl :
  (∀ a p, body a p = (u ← node_load p; let '(a, u) := f a u in _ ← node_store p u; mret a)) → linkless f → rep s cl →
  swp (on_list (λ fuel, scan_nodes fuel body acc)) s (λ a s', a = (map_accum f acc cl).1 ∧ rep s' (map_accum f acc cl).2 ∧ cs_desc s' = cs_desc s).
Proof.
  intros Hb Hf Hr. assert (logs (λ _, mret tt) cl) as Hlog by (by apply Forall_forall).
  pose proof (scan_list f (λ _, mret tt) acc s cl Hf Hlog Hr) as Hs. unfold swp, on_list, mbind, SM_bind, sget in Hs |- *.
  rewrite (scan_ext _ _ (step_of f (λ _, mret tt))); [exact Hs|]. intros a p s0. rewrite Hb. unfold step_of, mbind, SM_bind.
  destruct (node_load p s0) as [[u s1]|]; [|done]. destruct (f a u) as [a' u']. by destruct (node_store p u' s1) as [[[] s2]|].
Qed.
Lemma map_list (f : user_t → user_t) log s cl : (∀ u z, f (u_set_next z u) = u_set_next z (f u)) → logs log cl → rep s cl →
  swp (on_list (λ fuel, each_node fuel (λ p, u ← node_load p; _ ← node_store p (f u); log u))) s
    (λ _ s', rep s' (prod_map id f <$> cl) ∧ cs_desc s' = cs_desc s).
Proof.
  intros Hf Hlog Hr. set (g := λ (_ : unit) u, (tt, f u)). pose proof (scan_list g log tt s cl) as Hs. unfold swp, on_list, mbind, SM_bind, sget in Hs |- *.
  rewrite each_scan, (scan_ext _ _ (step_of g log)).
  2: { intros [] p s0. unfold g, step_of, mbind, SM_bind. destruct (node_load p s0) as [[u s1]|]; [|done]. destruct (node_store p (f u) s1) as [[[] s2]|]; [|done].
       by destruct (log u s2) as [[[] s3]|]. }
  assert ((map_accum g tt cl).2 = prod_map id f <$> cl) as E.
  { clear. induction cl as [|[p u] cl IH]; [done|]. unfold g in *. cbn. destruct (map_accum _ tt cl). cbn in *. by rewrite IH. }
  rewrite E in Hs. destruct (scan_nodes _ _ _ _ _) as [[a s']|]; apply Hs; try done; intros a0 u z; unfold g; cbn; by rewrite Hf.
Qed.
End loops.

(** ** Exact arithmetic

    What the code computes on doubles, read without rounding. *)
Class Exact `{Real, Double, !Pool} := {
  val : F → Q;
  val_0 : (val f0 == 0)%Q;
  val_of z : (val (f_of z) == inject_Z z)%Q;
  val_dec m e : (val (f_dec m e) == inject_Z m / inject_Z (10 ^ e))%Q;
  val_add a b : (val (fadd a b) == val a + val b)%Q;
  val_sub a b : (val (fsub a b) == val a - val b)%Q;
  val_mul a b : (val (fmul a b) == val a * val b)%Q;
  val_div a b : (val (fdiv a b) == val a / val b)%Q;
  val_floor a : (val (ffloor a) == inject_Z (Qfloor (val a)))%Q;
  val_lt a b : fltb a b = true ↔ (val a < val b)%Q;
  val_eq a b : feqb a b = true ↔ (val a == val b)%Q;
}.

Section rewards.
Context `{Real} `{Double} `{Heap} `{!Server} `{!Pool} `{!Exact}.
Implicit Types (s : cst user_t) (cl : list (Z * user_t)) (u : user_t).
#[local] Open Scope Q_scope.
Lemma fltb_false a b : fltb a b = false → val b <= val a.
Proof. intros E. apply Qnot_lt_le. intros Hl. apply val_lt in Hl. congruence. Qed.
Lemma fgeb_true a b : fgeb a b = true ↔ val b <= val a.
Proof.
  unfold fgeb. rewrite orb_true_iff, val_lt, val_eq. split; [intros [Hl|He]; [by apply Qlt_le_weak|by rewrite He; apply Qle_refl]|].
  intros [Hl|He]%Qle_lteq; [by left|right; by symmetry].
Qed.
Lemma val_max a b : val (fmax a b) == Qmax (val a) (val b).
Proof.
  unfold fmax. destruct (fltb b a) eqn:E.
  - apply val_lt in E. symmetry. apply Q.max_l. by apply Qlt_le_weak.
  - apply fltb_false in E. symmetry. by apply Q.max_r.
Qed.

(** Sums over the list. *)
Fixpoint sumQ {A} (f : A → Q) (l : list A) : Q := match l with [] => 0 | x :: l => f x + sumQ f l end.
Lemma sumQ_le {A} (f g : A → Q) l : (∀ x, x ∈ l → f x <= g x) → sumQ f l <= sumQ g l.
Proof.
  intros Hl. induction l as [|x l IH]; [apply Qle_refl|]. cbn. apply Qplus_le_compat; [apply Hl; left|]. apply IH. intros y Hy. apply Hl. by right.
Qed.
Lemma sumQ_ext {A} (f g : A → Q) l : (∀ x, x ∈ l → f x == g x) → sumQ f l == sumQ g l.
Proof. intros Hl. apply Qle_antisym; apply sumQ_le; intros x Hx; rewrite (Hl x Hx); apply Qle_refl. Qed.
Lemma sumQ_add {A} (f g : A → Q) l : sumQ (λ x, f x + g x) l == sumQ f l + sumQ g l.
Proof. induction l as [|x l IH]; cbn [sumQ]; [reflexivity|]. rewrite IH. ring. Qed.
Lemma sumQ_scale {A} (c : Q) (f : A → Q) l : sumQ (λ x, c * f x) l == c * sumQ f l.
Proof. induction l as [|x l IH]; cbn [sumQ]; [ring|]. rewrite IH. ring. Qed.
Lemma sumQ_nonneg {A} (f : A → Q) l : (∀ x, x ∈ l → 0 <= f x) → 0 <= sumQ f l.
Proof.
  intros Hl. induction l as [|x l IH]; cbn; [apply Qle_refl|]. assert (0 <= f x) by (apply Hl; left).
  assert (0 <= sumQ f l) by (apply IH; intros y Hy; apply Hl; by right). lra.
Qed.
Lemma sumQ_fmap {A B} (f : B → Q) (g : A → B) l : sumQ f (g <$> l) = sumQ (λ x, f (g x)) l.
Proof. induction l as [|x l IH]; cbn; [done|]. by rewrite <-IH. Qed.

(** The shares of a worker in the rounds of the hour, and its balance. *)
Definition shares (u : user_t) : Q := sumQ val (u_block_avg u).
Definition balance (i : nat) (u : user_t) : Q := val (nth_F (u_balance u) i).
Definition all_shares cl : Q := sumQ (λ x, shares x.2) cl.
Definition all_balances (i : nat) cl : Q := sumQ (λ x, balance i x.2) cl.
Lemma val_add_shares t u : val (add_shares t u) == val t + shares u.
Proof.
  unfold add_shares, shares. revert t. induction (u_block_avg u) as [|a l IH]; intros t; cbn; [ring|]. rewrite IH, val_add. ring.
Qed.
Lemma val_tot_shares t cl : val (foldl add_shares t cl.*2) == val t + all_shares cl.
Proof.
  revert t. induction cl as [|[p u] cl IH]; intros t; cbn; [ring|]. rewrite IH, val_add_shares. unfold all_shares. cbn. ring.
Qed.
Lemma val_reward w u : val (reward_of w u) == val w * shares u.
Proof.
  unfold reward_of, shares. assert (∀ r l, val (foldl (λ reward a, fadd reward (fmul w a)) r l) == val r + val w * sumQ val l) as ->.
  { intros r l. revert r. induction l as [|a l IH]; intros r; cbn; [ring|]. rewrite IH, val_add, val_mul. ring. }
  rewrite val_0. ring.
Qed.
Definition has_shares (u : user_t) : Prop := Forall (λ a, 0 <= val a) (u_block_avg u).
Lemma shares_nonneg u : has_shares u → 0 <= shares u.
Proof. intros Hs. apply sumQ_nonneg. intros a Ha. unfold has_shares in Hs. rewrite Forall_forall in Hs. by apply Hs. Qed.
Lemma nth_alter (g : F → F) (l : list F) i : (i < length l)%nat → nth_F (alter g i l) i = g (nth_F l i).
Proof. intros Hi. unfold nth_F. rewrite list_lookup_alter_eq. apply lookup_lt_is_Some in Hi as [x ->]. done. Qed.
(** What a worker gets is nothing or its part. *)
Lemma credit_balance i w u : (i < length (u_balance u))%nat → has_shares u → 0 <= val w →
  balance i (credit i w u) == balance i u ∨ balance i (credit i w u) == balance i u + val w * shares u.
Proof.
  intros Hi Hs Hw. unfold credit. destruct (credits w u); [right|by left].
  unfold balance. cbn. rewrite nth_alter by done. by rewrite val_add, val_reward.
Qed.
Lemma credited_total i w cl : Forall (λ x, (i < length (u_balance x.2))%nat ∧ has_shares x.2) cl → 0 <= val w →
  all_balances i cl <= all_balances i (prod_map id (credit i w) <$> cl) <= all_balances i cl + val w * all_shares cl.
Proof.
  intros Hcl Hw. rewrite Forall_forall in Hcl. unfold all_balances, all_shares. rewrite sumQ_fmap. cbn [prod_map snd].
  assert (∀ x, x ∈ cl → balance i x.2 <= balance i (credit i w x.2) <= balance i x.2 + val w * shares x.2) as Hx.
  { intros [p u] Hin. destruct (Hcl _ Hin) as [Hi Hs]. cbn in Hi, Hs |- *. assert (0 <= val w * shares u) by (apply Qmult_le_0_compat; [done|by apply shares_nonneg]).
    destruct (credit_balance i w u Hi Hs Hw) as [->| ->]; lra. }
  split.
  - apply sumQ_le. intros x Hin. by apply Hx.
  - rewrite <-sumQ_scale, <-sumQ_add. apply sumQ_le. intros x Hin. by apply Hx.
Qed.

(** ** A block is divided *)
Lemma credit_next i w u z : credit i w (u_set_next z u) = u_set_next z (credit i w u).
Proof. unfold credit, credits, is_system, reward_of. cbn. by destruct (_ && _). Qed.
Definition block_amount (block : shjson_t) : F := f_real (shjson_num (Some block) (Some (bytes "amount")) (r_of 0)).
Definition block_hash_of (block : shjson_t) : option (list byte) := shjson_astr (Some block) (Some (bytes "blockhash")) (Some []).
(** What is divided, and by what. *)
Definition block_weight (block : shjson_t) cl : F :=
  let amount := block_amount block in fdiv (fsub amount (fmul amount (f_dec 1 3))) (fmax (f_of 1) (foldl add_shares f0 cl.*2)).
(** The coin has a name, and the lines of the log fit into their array. *)
Definition lines_fit (i : nat) (w : F) cl : Prop := ∃ name en, sv_coin i = Some (name, en) ∧
  Forall (λ x, credits w x.2 = true → zlen (payout_line i w name x.2) < 256)%Z cl.
Lemma credit_logs i w cl : lines_fit i w cl → logs (credit_log i w) cl.
Proof.
  intros (name & en & Hc & Hl). unfold logs. eapply Forall_impl; [exact Hl|]. intros [p u] Hu z s. cbn [snd] in *. unfold credit_log.
  change (credits w (u_set_next z u)) with (credits w u). destruct (credits w u) eqn:Ec; [|done]. specialize (Hu eq_refl). rewrite Hc.
  unfold mbind, SM_bind, deref. cbn [mret SM_ret]. unfold fits_array.
  assert (payout_line i w name (u_set_next z u) = payout_line i w name u) as -> by (unfold payout_line; rewrite credit_next; done).
  by rewrite (proj2 (Z.ltb_lt _ _) Hu).
Qed.
Lemma check_new po i s cl block hash last : rep s cl → cl ≠ [] → lines_fit i (block_weight block cl) cl →
  pl_lastblock (po_log po) i = Some block → block_hash_of block = Some hash → hash ≠ [] → (length hash < 256)%nat →
  po_payout_hash po !! i = Some last → last ≠ [] → last ≠ hash → fltb (block_amount block) (f_of 1) = false →
  swp (check_payout po i) s (λ po' s', po' = po_event (MinerBlock i hash) (po_set_payout i hash po) ∧
    rep s' (prod_map id (credit i (block_weight block cl)) <$> cl) ∧ cs_desc s' = cs_desc s).
Proof.
  intros Hr Hcl Hfit Hb Hh Hn Hlen Hl Hl0 Hne Ha. unfold check_payout. rewrite Hb. apply swp_bind. fold (block_hash_of block). rewrite Hh. apply swp_ret.
  rewrite take_ge by lia. rewrite bool_decide_false by done. apply swp_bind. rewrite Hl. apply swp_ret. rewrite bool_decide_false by done.
  apply swp_bind, swp_ret, swp_bind. rewrite Hl. apply swp_ret. rewrite bool_decide_false by done. apply swp_bind. unfold fits_array.
  rewrite (proj2 (Z.ltb_lt _ _)) by lia. apply swp_ret, swp_bind, swp_gets. rewrite (rep_first s cl Hr).
  assert (first cl ≠ 0%Z) as Hf. { destruct cl as [|[p b] cl]; [done|]. by destruct (rep_at s [] p b cl Hr) as (n & _ & _ & Hp & _). }
  rewrite (proj2 (Z.eqb_neq _ _) Hf). fold (block_amount block). rewrite Ha. apply swp_bind. eapply swp_mono; [apply (fold_list_spec add_shares); [done|]|].
  { intros a u z. reflexivity. }
  cbn beta. intros tot s' [-> ->]. apply swp_bind. eapply swp_mono; [apply (map_list (credit i (block_weight block cl)) (credit_log i (block_weight block cl))); [intros u z; apply credit_next|by apply credit_logs|done]|].
  intros _ s' [Hr' Hd]. apply swp_ret. done.
Qed.
(** A new block that nobody gets a part of. *)
Lemma check_idle po i s cl block hash last : rep s cl → cl = [] ∨ fltb (block_amount block) (f_of 1) = true →
  pl_lastblock (po_log po) i = Some block → block_hash_of block = Some hash → hash ≠ [] → (length hash < 256)%nat →
  po_payout_hash po !! i = Some last → last ≠ [] → last ≠ hash →
  swp (check_payout po i) s (λ po' s', po' = po_event (MinerBlock i hash) (po_set_payout i hash po) ∧ s' = s).
Proof.
  intros Hr Hidle Hb Hh Hn Hlen Hl Hl0 Hne. unfold check_payout. rewrite Hb. apply swp_bind. fold (block_hash_of block). rewrite Hh. apply swp_ret.
  rewrite take_ge by lia. rewrite bool_decide_false by done. apply swp_bind. rewrite Hl. apply swp_ret. rewrite bool_decide_false by done.
  apply swp_bind, swp_ret, swp_bind. rewrite Hl. apply swp_ret. rewrite bool_decide_false by done. apply swp_bind. unfold fits_array.
  rewrite (proj2 (Z.ltb_lt _ _)) by lia. apply swp_ret, swp_bind, swp_gets. rewrite (rep_first s cl Hr). destruct Hidle as [->|Ha]; [by apply swp_ret|].
  destruct (_ =? 0)%Z; [by apply swp_ret|]. fold (block_amount block). rewrite Ha. by apply swp_ret.
Qed.
(** The first block that is seen, and a block that was seen. *)
Lemma check_first po i s block hash : pl_lastblock (po_log po) i = Some block → block_hash_of block = Some hash → hash ≠ [] → (length hash < 256)%nat →
  po_payout_hash po !! i = Some [] → swp (check_payout po i) s (λ po' s', po' = po_set_payout i hash po ∧ s' = s).
Proof.
  intros Hb Hh Hn Hlen Hl. unfold check_payout. rewrite Hb. apply swp_bind. fold (block_hash_of block). rewrite Hh. apply swp_ret. rewrite take_ge by lia.
  rewrite bool_decide_false by done. apply swp_bind. rewrite Hl. apply swp_ret. rewrite bool_decide_true by done. apply swp_bind, swp_bind. unfold fits_array.
  rewrite (proj2 (Z.ltb_lt _ _)) by lia. apply swp_ret, swp_ret, swp_bind.
  assert (po_payout_hash (po_set_payout i hash po) !! i = Some hash) as -> by (cbn; apply list_lookup_insert_eq; by eapply lookup_lt_Some).
  apply swp_ret. rewrite bool_decide_true by done. by apply swp_ret.
Qed.
Lemma check_seen po i s block hash last : pl_lastblock (po_log po) i = Some block → block_hash_of block = Some hash → (length hash < 256)%nat →
  po_payout_hash po !! i = Some last → last = hash → swp (check_payout po i) s (λ po' s', po' = po ∧ s' = s).
Proof.
  intros Hb Hh Hlen Hl ->. unfold check_payout. rewrite Hb. apply swp_bind. fold (block_hash_of block). rewrite Hh. apply swp_ret. rewrite take_ge by lia.
  case_bool_decide as Hn; [by apply swp_ret|]. apply swp_bind. rewrite Hl. apply swp_ret. rewrite bool_decide_false by done. apply swp_bind, swp_ret, swp_bind.
  rewrite Hl. apply swp_ret. rewrite bool_decide_true by done. by apply swp_ret.
Qed.
Lemma weight_bound block cl : Forall (λ x, has_shares x.2) cl → 1 <= val (block_amount block) →
  0 <= val (block_weight block cl) ∧ val (block_weight block cl) * all_shares cl <= (999 # 1000) * val (block_amount block).
Proof.
  intros Hcl Ha. unfold block_weight. set (a := block_amount block) in *. cbv zeta. rewrite val_div, val_sub, val_mul, val_dec, val_max, val_tot_shares, val_0, val_of.
  assert (0 <= all_shares cl) as Hs by (apply sumQ_nonneg; intros x Hx; rewrite Forall_forall in Hcl; apply shares_nonneg; by apply Hcl).
  set (S := all_shares cl) in *. assert (Qmax (inject_Z 1) (0 + S) == Qmax 1 S) as -> by (apply Q.max_compat; [reflexivity|ring]).
  assert (1 <= Qmax 1 S) as HM1 by apply Q.le_max_l. assert (S <= Qmax 1 S) as HM2 by apply Q.le_max_r. set (M := Qmax 1 S) in *.
  assert (val a - val a * (inject_Z 1 / inject_Z (10 ^ 3)) == (999 # 1000) * val a) as -> by (change (inject_Z 1 / inject_Z (10 ^ 3)) with (1 # 1000); ring).
  assert (0 <= (999 # 1000) * val a) as Hp by lra. set (v := (999 # 1000) * val a) in *. split.
  - unfold Qdiv. apply Qmult_le_0_compat; [done|]. apply Qlt_le_weak, Qinv_lt_0_compat. lra.
  - assert (v / M * S == v * S / M) as -> by (field; lra). apply Qle_shift_div_r; [lra|]. rewrite (Qmult_comm v S), (Qmult_comm v M). by apply Qmult_le_compat_r.
Qed.

(** ** Rewards are paid *)
Lemma coin_val_le i u : 0 <= balance i u → 0 <= val (coin_val i u) <= balance i u.
Proof.
  intros Hb. set (b := balance i u) in *. assert (val (coin_val i u) == inject_Z (Qfloor (b * 1000)) / 1000) as ->.
  { unfold coin_val. rewrite val_div, val_of, val_floor. rewrite (Qfloor_comp _ (b * 1000)); [reflexivity|]. by rewrite val_mul, val_of. }
  pose proof (Qfloor_le (b * 1000)) as Hle. assert (0 <= inject_Z (Qfloor (b * 1000))) as Hfl.
  { change 0 with (inject_Z 0). rewrite <-Zle_Qle. change 0%Z with (Qfloor 0). apply Qfloor_resp_le. lra. }
  split; [apply Qle_shift_div_l; [reflexivity|lra]|apply Qle_shift_div_r; [reflexivity|done]].
Qed.
(** What the accepted rewards of a log come to, and whose they are. *)
Definition paid (e : event) : Q := match e with Reward _ _ v err => if (err =? 0)%Z then val v else 0 | _ => 0 end.
Definition paid_to (e : event) : list byte := match e with Reward _ a _ _ => a | _ => [] end.
Definition accounts cl : list (list byte) := (λ x, account_of (u_worker x.2)) <$> cl.
(** The record of a worker before and after: nothing happened, or its reward was taken from its balance. *)
Definition paid_or_not (now : Z) (i : nat) (x y : Z * user_t) : Prop :=
  x.1 = y.1 ∧ (y.2 = x.2 ∨ balance i y.2 == balance i x.2 - val (coin_val i x.2) ∧ ss_reward_time (u_sess y.2) = now) ∧ 0 <= balance i y.2.
Definition same_statics (po po' : pool_t) : Prop :=
  po_payout_hash po' = po_payout_hash po ∧ po_last_reset po' = po_last_reset po ∧ po_sys_user po' = po_sys_user po ∧ po_luck po' = po_luck po ∧
  po_idx po' = po_idx po ∧ po_round_stamp po' = po_round_stamp po.
Lemma pay_next now i h m a u z : pay now i h m a (u_set_next z u) = ((pay now i h m a u).1, u_set_next z (pay now i h m a u).2).
Proof. unfold pay, is_system, coin_val. destruct a as [po bal]. cbn. destruct (_ || _ || _ || _); [done|]. by destruct (negb _). Qed.
Lemma pay_step now i h m po bal u po' bal' u' : (i < length (u_balance u))%nat → 0 <= balance i u → 0 <= val m →
  pay now i h m (po, bal) u = ((po', bal'), u') →
  paid_or_not now i (0%Z, u) (0%Z, u') ∧ same_statics po po' ∧
  ∃ evs, po_log po' = po_log po ++ evs ∧ (evs = [] ∨ evs = [Reward i (account_of (u_worker u)) (coin_val i u) (pl_reward (po_log po) i (account_of (u_worker u)) (coin_val i u))]) ∧
    val bal' == val bal - sumQ paid evs ∧ balance i u' + sumQ paid evs == balance i u ∧ 0 <= sumQ paid evs ∧ (0 < sumQ paid evs → 0 < val bal').
Proof.
  intros Hi Hb Hm. unfold pay. set (v := coin_val i u). pose proof (coin_val_le i u Hb) as [Hv0 Hvb]. fold v in Hv0, Hvb.
  assert (∀ w, same_statics po (po_event w po)) as Hst by (intros w; done).
  destruct (_ || _) eqn:E; [intros [= <- <- <-]; split; [split_and!; [done|by left|done]|]; split; [done|]; exists []; rewrite app_nil_r; cbn; split_and!; [done|by left|ring|ring|lra|lra]|].
  apply orb_false_iff in E as [[_ Emin]%orb_false_iff Ebal].
  assert (val v < val bal) as Hlt. { apply Qnot_le_lt. intros Hle. apply fgeb_true in Hle. congruence. }
  assert (val m < val v) as Hmin. { apply Qnot_le_lt. intros Hle. apply fgeb_true in Hle. congruence. }
  set (err := pl_reward _ _ _ _). destruct (err =? 0)%Z eqn:Eerr; cbn [negb].
  - assert (balance i (u_set_balance (alter (λ b, fmax f0 (fsub b v)) i (u_balance u)) (ss_balance_avg (u_sess u)) now (u64 h) u) == balance i u - val v) as Hnew.
    { unfold balance at 1. cbn. rewrite nth_alter by done. rewrite val_max, val_sub, val_0. fold (balance i u). apply Q.max_r. lra. }
    intros [= <- <- <-]. split; [split_and!; [done|right; by split|cbn [snd]; rewrite Hnew; lra]|]. split; [done|].
    exists [Reward i (account_of (u_worker u)) v err]. cbn [sumQ paid]. rewrite Eerr. split_and!; [done|by right|rewrite val_sub; ring|rewrite Hnew; ring|lra|intros _; rewrite val_sub; lra].
  - intros [= <- <- <-]. split; [split_and!; [done|by left|done]|]. split; [done|].
    exists [Reward i (account_of (u_worker u)) v err]. cbn [sumQ paid]. rewrite Eerr. split_and!; [done|by right|ring|ring|lra|lra].
Qed.
Lemma sumQ_app {A} (f : A → Q) l l' : sumQ f (l ++ l') == sumQ f l + sumQ f l'.
Proof. induction l as [|x l IH]; cbn [sumQ app]; [ring|]. rewrite IH. ring. Qed.
Lemma pay_all now i h m cl po bal : Forall (λ x, (i < length (u_balance x.2))%nat ∧ 0 <= balance i x.2) cl → 0 <= val m →
  let '((po', bal'), cl') := map_accum (pay now i h m) (po, bal) cl in
  Forall2 (paid_or_not now i) cl cl' ∧ same_statics po po' ∧
  ∃ evs, po_log po' = po_log po ++ evs ∧ paid_to <$> evs `sublist_of` accounts cl ∧
    val bal' == val bal - sumQ paid evs ∧ all_balances i cl' + sumQ paid evs == all_balances i cl ∧ 0 <= sumQ paid evs ∧ (0 < sumQ paid evs → 0 < val bal').
Proof.
  intros Hcl Hm. revert po bal. induction Hcl as [|[p u] cl [Hi Hb] _ IH]; intros po bal; [|cbn [snd] in Hi, Hb].
  { cbn. split; [constructor|]. split; [done|]. exists []. rewrite app_nil_r. cbn. split_and!; [done|constructor|ring|reflexivity|lra|lra]. }
  cbn [map_accum]. destruct (pay now i h m (po, bal) u) as [[po1 bal1] u1] eqn:E1.
  destruct (pay_step _ _ _ _ _ _ _ _ _ _ Hi Hb Hm E1) as (Hu & Hs1 & evs1 & Hl1 & Hev1 & Hb1 & Hc1 & Hp1 & Hpos1).
  specialize (IH po1 bal1). destruct (map_accum (pay now i h m) (po1, bal1) cl) as [[po2 bal2] cl2].
  destruct IH as (Hcl2 & Hs2 & evs2 & Hl2 & Hev2 & Hb2 & Hc2 & Hp2 & Hpos2).
  split; [constructor; [|done]; destruct Hu as (_ & Hu & Hn); by split|]. split; [destruct Hs1 as (? & ? & ? & ? & ? & ?), Hs2 as (? & ? & ? & ? & ? & ?); split_and!; congruence|].
  exists (evs1 ++ evs2). rewrite (assoc_L (++)), <-Hl1. unfold all_balances in *. cbn [sumQ snd]. rewrite !sumQ_app. split_and!; [done| |lra|lra|lra|].
  - rewrite fmap_app. unfold accounts. cbn [fmap list_fmap snd]. destruct Hev1 as [->| ->]; cbn; [by constructor|by constructor].
  - intros Hpos. destruct (Qlt_le_dec 0 (sumQ paid evs2)) as [Hlt|Hle]; [by apply Hpos2|]. assert (0 < val bal1) by (apply Hpos1; lra). lra.
Qed.
Lemma find_client_due (test : user_t → bool) s cl : rep s cl → (find_client test cl =? 0)%Z = negb (existsb (λ x, test x.2) cl).
Proof.
  intros Hr. destruct (existsb (λ x, test x.2) cl) eqn:E; cbn [negb].
  - apply Z.eqb_neq. unfold find_client. apply existsb_exists in E as (x & Hx & Ht). destruct (List.find _ cl) as [[p u]|] eqn:Ef.
    + apply List.find_some in Ef as [Hin _]. destruct (rep_elem s cl p Hr) as (_ & _ & _ & Hp); [|exact Hp].
      apply list_elem_of_In in Hin. exact (list_elem_of_fmap_2 fst _ _ Hin).
    + pose proof (List.find_none _ _ Ef x Hx). cbn in *. congruence.
  - apply Z.eqb_eq. unfold find_client. destruct (List.find _ cl) as [[p u]|] eqn:Ef; [|done]. apply List.find_some in Ef as [Hin Ht].
    assert (existsb (λ x, test x.2) cl = true) as E' by (apply existsb_exists; eauto). congruence.
Qed.
Definition min_input (i : nat) : F := fdiv (f_of (pl_min_tx_fee i)) (f_of COIN).
Definition due now i cl : bool := coin_enabled sv_coin (Z.of_nat i) && existsb (λ x, reward_due now i x.2) cl.
Lemma commit_quiet now po i h s cl : rep s cl → due now i cl = false → commit_payout now po i h s = Some (po, s).
Proof.
  intros Hr. unfold due, commit_payout. destruct (coin_enabled sv_coin (Z.of_nat i)); [|done]. cbn [negb andb]. intros E.
  destruct (swp_run _ _ _ (client_find_spec (reward_due now i) s cl Hr ltac:(done))) as (r & s' & Er & -> & ->).
  unfold mbind, SM_bind. rewrite Er, (find_client_due _ s) by done. by rewrite E.
Qed.
Lemma commit_due now po i h s cl : rep s cl → due now i cl = true →
  swp (commit_payout now po i h) s (λ po' s', let '((po1, _), cl') := map_accum (pay now i h (min_input i)) (po, pl_balance (po_log po) i) cl in
    po' = po_event (SendReward i) po1 ∧ rep s' cl').
Proof.
  intros Hr. unfold due, commit_payout. destruct (coin_enabled sv_coin (Z.of_nat i)); [|done]. cbn [negb andb]. intros E.
  apply swp_bind. eapply swp_mono; [by apply client_find_spec|]. cbn beta. intros r s' [-> ->]. rewrite (find_client_due _ s), E by done. cbn [negb].
  apply swp_bind. eapply swp_mono; [apply (scan_plain (pay now i h (min_input i)) _ (po, pl_balance (po_log po) i) s cl); [done|intros a u z; apply pay_next|exact Hr]|].
  cbn beta. intros [po1 bal] s' (Ea & Hr' & _). destruct (map_accum _ _ cl) as [[po2 bal2] cl']. cbn [fst snd] in *. injection Ea as -> ->. by apply swp_ret.
Qed.
Lemma commit_run now po i h s cl : rep s cl → Forall (λ x, (i < length (u_balance x.2))%nat ∧ 0 <= balance i x.2) cl → (0 ≤ pl_min_tx_fee i)%Z → due now i cl = true →
  ∃ po' s' cl' rewards, commit_payout now po i h s = Some (po', s') ∧ rep s' cl' ∧ same_statics po po' ∧ po_log po' = po_log po ++ rewards ++ [SendReward i] ∧
    Forall2 (paid_or_not now i) cl cl' ∧ all_balances i cl' + sumQ paid rewards == all_balances i cl ∧
    0 <= sumQ paid rewards <= Qmax 0 (val (pl_balance (po_log po) i)) ∧ paid_to <$> rewards `sublist_of` accounts cl.
Proof.
  intros Hr Hcl Hfee Hd. destruct (swp_run _ _ _ (commit_due now po i h s cl Hr Hd)) as (po' & s' & E & Hq).
  assert (0 <= val (min_input i)) as Hm.
  { unfold min_input. rewrite val_div, !val_of. apply Qle_shift_div_l; [reflexivity|]. rewrite Qmult_0_l. change 0 with (inject_Z 0). by rewrite <-Zle_Qle. }
  pose proof (pay_all now i h (min_input i) cl po (pl_balance (po_log po) i) Hcl Hm) as Hp.
  destruct (map_accum _ _ cl) as [[po1 bal1] cl']. destruct Hq as [-> Hr']. destruct Hp as (Hu & Hst & evs & Hl & Hacc & Hbal & Hcons & Hpos & Hlt).
  exists (po_event (SendReward i) po1), s', cl', evs. split; [exact E|]. split; [exact Hr'|]. split; [exact Hst|]. split; [cbn; by rewrite Hl, (assoc_L (++))|].
  split; [exact Hu|]. split; [exact Hcons|]. split; [|exact Hacc]. split; [exact Hpos|].
  destruct (Qlt_le_dec 0 (sumQ paid evs)) as [Hlt0|Hle]; [|eapply Qle_trans; [exact Hle|apply Q.le_max_l]]. specialize (Hlt Hlt0).
  eapply Qle_trans; [|apply Q.le_max_r]. lra.
Qed.
End rewards.

(** ** The halves of the coinbase *)
Lemma strstr_spec s needle k : strstr s needle = Some k → (k ≤ length s)%nat ∧ take (length needle) (drop k s) = needle.
Proof.
  revert k. induction s as [|c s IH]; intros k; cbn [strstr]; (case_bool_decide as E; [intros [= <-]; split; [cbn; lia|done]|]); [done|].
  intros (j & Hj & ->)%fmap_Some. apply IH in Hj as [Hk Hj]. split; [cbn; lia|done].
Qed.
Lemma hex_digits_fuel f k v : 0 ≤ v < 16 ^ Z.of_nat f → hex_digits (f + k) v = hex_digits f v.
Proof.
  revert v. induction f as [|f IH]; intros v Hv.
  { cbn [Nat.add hex_digits]. change (16 ^ Z.of_nat 0) with 1 in Hv. assert (v = 0) as -> by lia. by destruct k. }
  cbn [Nat.add hex_digits]. destruct (v =? 0); [done|]. rewrite Nat2Z.inj_succ, Z.pow_succ_r in Hv by lia. rewrite IH; [done|].
  split; [dlia|]. apply Z.div_lt_upper_bound; lia.
Qed.
Lemma hex_fmt_snoc n v : (n < 16)%nat → 0 ≤ v < 16 ^ Z.of_nat (S n) → hex_fmt (S n) v = hex_fmt n (v / 16) ++ [hexd (v mod 16)].
Proof.
  intros Hn Hv. rewrite Nat2Z.inj_succ, Z.pow_succ_r in Hv by lia. unfold hex_fmt. destruct (Z.eqb_spec v 0) as [->|Hv0].
  { change (hex_digits 16 0) with (@nil byte). change (hex_digits 16 (0 / 16)) with (@nil byte). cbn [length]. rewrite !Nat.sub_0_r, !app_nil_r, replicate_S_end. done. }
  assert (hex_digits 16 v = hex_digits 16 (v / 16) ++ [hexd (v mod 16)]) as ->.
  { change 16%nat with (15 + 1)%nat at 2. rewrite hex_digits_fuel; [change 16%nat with (S 15); cbn [hex_digits]; by rewrite (proj2 (Z.eqb_neq v 0) Hv0)|].
    split; [dlia|]. apply Z.div_lt_upper_bound; [lia|]. assert (16 ^ Z.of_nat n ≤ 16 ^ 15) by (apply Z.pow_le_mono_r; lia). change (Z.of_nat 15) with 15. lia. }
  rewrite length_app. cbn [length]. rewrite (assoc_L (++)). f_equal. f_equal. f_equal. lia.
Qed.
Lemma hex_fmt_0 v : 0 ≤ v < 1 → hex_fmt 0 v = [].
Proof. intros Hv. by replace v with 0 by lia. Qed.
Lemma hex_fmt_byte b : hex_fmt 2 (Z_of_byte b) = [hexd (Z_of_byte b / 16 mod 16); hexd (Z_of_byte b mod 16)].
Proof. destruct b; vm_compute; reflexivity. Qed.
Lemma hex8 v : word v → hex_fmt 8 v = bin2hex (be_enc 4 v).
Proof.
  intros Hv. unfold word in Hv. rewrite !hex_fmt_snoc, hex_fmt_0 by (first [lia | split; [dlia|cbn; dlia]]). cbn [app].
  unfold bin2hex, be_enc, reverse. cbn [le_enc rev_append fmap list_fmap concat]. rewrite !hex_fmt_byte, !Z_of_byte_of_Z. cbn [app].
  repeat (apply f_equal2; [f_equal; dlia|]). reflexivity.
Qed.

#[local] Opaque P256 SHA256_Transform SHS scrypt scrypt_sp.
Section tasks.
Context `{Real} `{Double} `{Heap} `{!Server} `{!Double64} `{!Pool}.
Context (mem : list byte).
Implicit Types (s : cst user_t).
Definition block_str (block : shjson_t) (name : string) (def : list byte) : option (list byte) := shjson_astr (Some block) (Some (bytes name)) (Some def).
(** A template whose coinbase has eight bytes for the nonces, right before the script. *)
Record template (block : shjson_t) (c1 nonces c2 sig prev bits : list byte) (branch : list (list byte)) : Prop := {
  tp_target : is_Some (block_str block "target" (bytes "ffff"));
  tp_coinbase : block_str block "coinbase" [] = Some (bin2hex (c1 ++ nonces ++ c2));
  tp_sig : block_str block "coinbaseflags" [] = Some sig ∧ (length sig ≤ 255)%nat;
  tp_at : strstr (bin2hex (c1 ++ nonces ++ c2)) sig = Some (2 * length (c1 ++ nonces))%nat;
  tp_size : length nonces = 8%nat ∧ c1 ≠ [] ∧ c2 ≠ [] ∧ (length (c1 ++ nonces ++ c2) ≤ COINBASE_SIZE)%nat;
  tp_prev : block_str block "previousblockhash" (replicate 64 x30) = Some (bin2hex prev) ∧ length prev = 32%nat;
  tp_bits : block_str block "bits" (replicate 8 x30) = Some (bin2hex bits) ∧ length bits = 4%nat;
  tp_count : shjson_array_count block (Some (bytes "transactions")) = zlen branch;
  tp_branch : ∀ i m, branch !! i = Some m → length m = 32%nat ∧ shjson_array_str block (Some (bytes "transactions")) (Z.of_nat i) = Some (bin2hex m);
}.
Lemma bin2hex_app a b : bin2hex (a ++ b) = bin2hex a ++ bin2hex b.
Proof. unfold bin2hex. by rewrite fmap_app, concat_app. Qed.
Lemma task_cb_spec c1 nonces c2 sig s : length nonces = 8%nat → (length (c1 ++ nonces ++ c2) ≤ COINBASE_SIZE)%nat →
  strstr (bin2hex (c1 ++ nonces ++ c2)) sig = Some (2 * length (c1 ++ nonces))%nat →
  swp (task_cb (bin2hex (c1 ++ nonces ++ c2)) sig) s (λ r s', s' = s ∧ r = Some (bin2hex c1, bin2hex c2)).
Proof.
  intros Hn Hs Hat. unfold task_cb. rewrite Hat. rewrite !length_app in *. unfold COINBASE_SIZE in Hs. rewrite (proj2 (Nat.ltb_ge _ _)) by lia.
  rewrite (assoc_L (++)), bin2hex_app. rewrite drop_app_length' by (rewrite length_bin2hex, length_app; lia). rewrite (proj2 (Z.leb_gt _ _)) by (rewrite length_bin2hex; unfold CB_SIZE; lia).
  apply swp_ret. split; [done|]. do 2 f_equal.
  - rewrite bin2hex_app, <-(assoc_L (++)). apply take_app_length'. rewrite length_bin2hex. lia.
  - rewrite take_ge by (rewrite length_bin2hex; lia). done.
Qed.
Lemma task_merkle_spec block branch s : heap_ok ((zlen branch + 1) * PTR_SIZE) = true → shjson_array_count block (Some (bytes "transactions")) = zlen branch →
  (∀ i m, branch !! i = Some m → length m = 32%nat ∧ shjson_array_str block (Some (bytes "transactions")) (Z.of_nat i) = Some (bin2hex m)) →
  swp (task_merkle block) s (λ r s', s' = s ∧ r = Some ((Some ∘ bin2hex) <$> branch)).
Proof.
  intros Hh Hc Hb. unfold task_merkle. rewrite Hc, Hh. apply swp_ret. split; [done|]. f_equal. rewrite Nat2Z.id. apply list_eq. intros i. rewrite !list_lookup_fmap.
  destruct (branch !! i) as [m|] eqn:E.
  - rewrite lookup_seq_lt by (by eapply lookup_lt_Some). cbn [fmap option_fmap option_map Nat.add]. by rewrite (proj2 (Hb i m E)).
  - rewrite lookup_seq_ge; [done|]. by apply lookup_ge_None.
Qed.
Lemma until_null_all {A} (f : A → list byte) (l : list A) : until_null ((Some ∘ f) <$> l) = f <$> l.
Proof. induction l as [|x l IH]; [done|]. cbn. by f_equal. Qed.
(** The time and the version of a template. *)
Definition template_time (now : Z) (block : shjson_t) : Z := fi64 (f_real (shjson_num (Some block) (Some (bytes "curtime")) (r_of now))).
Definition template_version (block : shjson_t) : Z := rint (shjson_num (Some block) (Some (bytes "version")) (r_of BLOCK_VERSION)).
Definition template_id (crc : Z) (block : shjson_t) : Z := ru32 (shjson_num (Some block) (Some (bytes "task")) (r_of crc)).
(** What a task keeps of its template. *)
Record task_fits (task : task_t) (c1 c2 prev bits : list byte) (branch : list (list byte)) : Prop := {
  tf_cb1 : tk_cb1 task = bin2hex c1;
  tf_cb2 : tk_cb2 task = bin2hex c2;
  tf_prev : tk_prev_hash task = bin2hex prev;
  tf_bits : tk_nbits task = bin2hex bits;
  tf_merkle : tk_merkle task = Some ((Some ∘ bin2hex) <$> branch);
  tf_work : tk_work task = work_zero;
}.
Lemma task_of_spec crc now i reset block c1 nonces c2 sig prev bits branch s : heap_ok ((zlen branch + 1) * PTR_SIZE) = true →
  template block c1 nonces c2 sig prev bits branch →
  swp (task_of crc now i reset block) s (λ t s', s' = s ∧ ∃ task, t = Some task ∧ task_fits task c1 c2 prev bits branch ∧
    tk_curtime task = template_time now block ∧ tk_version task = template_version block ∧ tk_task_id task = template_id crc block).
Proof.
  intros Hh [[t Ht] Hc [Hsig Hsl] Hat (Hn & _ & _ & Hs) [Hp Hpl] [Hb Hbl] Hcnt Hbr]. unfold task_of. unfold block_str in *.
  apply swp_bind. rewrite Ht. apply swp_ret, swp_bind. rewrite Hc. apply swp_ret, swp_bind. rewrite Hsig. apply swp_ret, swp_bind.
  rewrite (take_ge (bin2hex _)) by (rewrite length_bin2hex; unfold COINBASE_SIZE in Hs; lia). rewrite (take_ge sig) by lia.
  eapply swp_mono; [by apply task_cb_spec|]. cbn beta. intros r s' [-> ->]. apply swp_bind. eapply swp_mono; [by apply task_merkle_spec|]. cbn beta. intros r s' [-> ->].
  apply swp_bind. rewrite Hp. apply swp_ret, swp_bind. rewrite Hb. apply swp_ret, swp_ret. split; [done|]. eexists. split; [reflexivity|].
  split; [|done]. split; cbn; try done; apply take_ge; rewrite length_bin2hex; lia.
Qed.

(** ** The header of the built-in miner *)
Lemma length_set_target d : length (scrypt_set_target d) = 32%nat.
Proof. unfold scrypt_set_target, swab256. rewrite length_words_mem, length_fmap, length_seq. done. Qed.
(** The version of the header is 1, whatever that of the template. *)
Definition task_header (c1 n1 c2 prev bits : list byte) (branch : list (list byte)) (curtime n : Z) : list byte :=
  le_enc 4 1 ++ reverse prev ++ merkle_of (dsha (c1 ++ n1 ++ replicate 4 x00 ++ c2)) branch ++ le_enc 4 (u32 curtime) ++ reverse bits ++ be_enc 4 n.
Lemma header_nonce prev root time bits n : length prev = 32%nat → length root = 32%nat → length time = 4%nat → length bits = 4%nat → word n →
  block_header (with_nonce (work_data prev root time bits 0) n) = le_enc 4 1 ++ reverse prev ++ root ++ reverse time ++ reverse bits ++ be_enc 4 n.
Proof.
  intros Hp Hr Ht Hb Hn. pose proof (length_work_data prev root time bits 0 Ht Hb) as Hl. pose proof (work_data_header prev root time bits 0 Hp Hr Ht Hb) as Eh.
  unfold block_header in *. rewrite (with_nonce_words _ _ Hl Hn). change 20%nat with (19 + 1)%nat in Eh. rewrite mem_words_app in Eh.
  rewrite words_be_app in Eh |- *. assert (words_be [n] = be_enc 4 n) as -> by apply app_nil_r.
  unfold coin_header in Eh. rewrite !(assoc_L (++)) in Eh |- *. f_equal. apply app_inj_2 in Eh as [-> _]; [done|].
  rewrite length_words_be. done.
Qed.
Definition task_good (c1 n1 c2 prev bits : list byte) (branch : list (list byte)) (curtime n : Z) : bool :=
  high_word (pow_hash (task_header c1 n1 c2 prev bits branch curtime n)) <=? high_word (scrypt_set_target (fdiv (f_of 1) (f_of 8))).
Lemma task_scan_spec hs db task c1 n1 c2 prev bits branch : (64 ≤ length mem)%nat → length hs = 32%nat → length db = 4%nat →
  sv_nonce = bin2hex n1 → length n1 = 4%nat → task_fits task c1 c2 prev bits branch →
  c1 ≠ [] → c2 ≠ [] → (length c1 + 8 + length c2 ≤ COINBASE_SIZE)%nat → length prev = 32%nat → length bits = 4%nat → Forall (λ m : list byte, length m = 32%nat) branch →
  ∃ work, task_scan mem hs db task = Some (0, work) ∧ 1 ≤ sw_nonce work ≤ MAX_SERVER_NONCE ∧
    let good := task_good c1 n1 c2 prev bits branch (tk_curtime task) in
    (∀ k, 1 ≤ k < sw_nonce work → good k = false) ∧
    (good (sw_nonce work) = true ∧ shscrypt_verify work = (0, work) ∨ good (sw_nonce work) = false ∧ shscrypt_verify work = (SHERR_FBIG, work)).
Proof.
  intros Hm Hhs Hdb Hsv Hn1 [E1 E2 Ep Eb Em Ew] N1 N2 Hsz Hp Hb Hbr. unfold task_scan. rewrite E1, E2, Ep, Eb, Em, Ew. cbn [fmap option_fmap option_map]. rewrite until_null_all.
  pose proof (word_u32 (tk_curtime task)) as Hw. rewrite (hex8 _ Hw). set (time := be_enc 4 (u32 (tk_curtime task))).
  assert (unit_ready mem hs db (xnonce2_zero work_zero)) as Hu by (split; [done|done|done|apply length_replicate|unfold word; cbn; lia]).
  assert (job_texts sys_peer (xnonce2_zero work_zero) c1 n1 (replicate 4 x00) c2 prev bits time branch) as Hj.
  { split; [|done| |done| |done|done|apply length_be_enc|done].
    - exists (replicate 8 x00). unfold sys_peer, shscrypt_peer. cbn [sp_nonce1]. rewrite Hsv. unfold strncpy_at. assert (length (bin2hex n1) = 8%nat) as H8 by (rewrite length_bin2hex; lia).
      rewrite take_ge, H8, app_nil_r by lia. unfold copy_at. rewrite H8. done.
    - exists (replicate 8 x00). vm_compute. reflexivity.
    - split; [done|]. split; [done|]. rewrite !length_app, length_replicate, Hn1. lia. }
  destruct (shscrypt_work_spec mem hs db sys_peer _ c1 n1 (replicate 4 x00) c2 prev bits time branch Hu Hj) as (w & E & Ed & En & _ & Et). rewrite E. cbn [mbind option_bind]. clear E.
  assert (length (sw_data w) = 128%nat) as Hld by (rewrite Ed; apply length_work_data; [apply length_be_enc|done]).
  assert (length (sw_target w) = 32%nat) as Hlt by (rewrite Et; apply length_set_target).
  destruct (shscrypt_spec w MAX_SERVER_NONCE Hld Hlt) as (m & found & work' & E & Hmd & Hwm & [Hr Hbf Hf Hl]). exists work'. split; [exact E|]. clear E.
  pose proof (work_verify_spec w m found work' Hld Hlt Hwm Hf Hmd) as Ev. destruct Hmd as (_ & E2' & _). rewrite E2'. rewrite En in Hr, Hbf. unfold scan_last in Hr.
  change (u32 (sw_nonce (xnonce2_zero work_zero) + 1)) with 1 in *. change (Z.max 1 (u32 MAX_SERVER_NONCE)) with MAX_SERVER_NONCE in Hr. split; [exact Hr|].
  destruct (merkle_fold_spec mem (dsha (c1 ++ n1 ++ replicate 4 x00 ++ c2)) branch Hm (length_dsha _) Hbr) as [_ Hroot].
  assert (∀ k, word k → meets (sw_data w) (sw_target w) k = task_good c1 n1 c2 prev bits branch (tk_curtime task) k) as Hg.
  { intros k Hk. unfold meets, task_good. rewrite Ed, Et. change (sw_nonce (xnonce2_zero work_zero)) with 0. rewrite header_nonce by (done || apply length_be_enc).
    unfold task_header, time. unfold be_enc at 1. rewrite reverse_involutive. reflexivity. }
  cbv zeta. split.
  - intros k Hk. rewrite <-Hg by (unfold word, MAX_SERVER_NONCE in *; lia). by apply Hbf.
  - rewrite <-Hg by done. rewrite Hf. destruct found; [left|right]; exact (conj eq_refl Ev).
Qed.
(** What the built-in miner reports. *)
Lemma task_work_log max_fd shaddr hs db now cur_t po attr task s po' s' work : task_scan mem hs db task = Some (0, work) →
  stratum_task_work max_fd shaddr mem hs db now cur_t po attr task s = Some (po', s') →
  po_log po' = po_log po ∨ sw_nonce work ≠ MAX_SERVER_NONCE ∧ (shscrypt_verify work).1 = 0 ∧
    po_log po' = po_log po ++ [SubmitBlock (tk_task_id task) (u32 (tk_curtime task)) (sw_nonce (shscrypt_verify work).2) (cstring (sw_xnonce2 (shscrypt_verify work).2))].
Proof.
  intros Es. unfold stratum_task_work. destruct (negb (ta_alg attr =? ALGO_SCRYPT)); [intros E; injection E as <- <-; by left|].
  destruct (negb _); [intros E; injection E as <- <-; by left|]. intros E.
  assert (∀ {A B} (m : SM (cst user_t) A) (k : A → SM (cst user_t) B) s b, (m ≫= k) s = Some b → ∃ a s1, m s = Some (a, s1) ∧ k a s1 = Some b) as Hinv.
  { intros A B m k s0 b. unfold mbind, SM_bind. destruct (m s0) as [[a s1]|]; [eauto|done]. }
  apply Hinv in E as (po1 & s1 & E1 & E). assert (po_log po1 = po_log po) as H1'.
  { destruct (_ =? 0) in E1; [apply Hinv in E1 as (p & s1' & _ & E1)|]; by injection E1 as <- <-. }
  apply Hinv in E as (po2 & s2 & E2 & E). assert (po_log po2 = po_log po) as H2'.
  { destruct (_ <? _) in E2; [apply Hinv in E2 as (p & s2' & _ & E2)|]; injection E2 as <- <-; exact H1'. }
  apply Hinv in E as (u & s3 & _ & E). apply Hinv in E as ([] & s4 & _ & E). apply Hinv in E as ([err w] & s5 & E5 & E). rewrite Es in E5. injection E5 as <- <- <-.
  rewrite Z.eqb_refl in E. cbn [andb] in E. destruct (Z.eqb_spec (sw_nonce work) MAX_SERVER_NONCE) as [En|En]; cbn [negb] in E.
  { injection E as <- <-. left. exact H2'. }
  destruct (shscrypt_verify work) as [err w]. cbn [fst snd]. destruct (Z.eqb_spec err 0) as [->|Herr]; [|injection E as <- <-; left; exact H2'].
  apply Hinv in E as ([] & s6 & _ & E). injection E as <- <-. destruct (fgeb _ _); [|left; exact H2']. right. split; [exact En|]. split; [reflexivity|].
  cbn [po_log po_event po_set_luck]. by rewrite H2'.
Qed.
End tasks.
