(* ===== verification/Model.v ===== *)
(** * Concrete systems

    Operating systems and directories to evaluate the model on: one whose calls
    all succeed, one that cannot map memory, and an empty directory. *)

From S2P Require Import Prelude Errors Descriptor Vfs BcState Fmap FmapInv Db Table Crc Index IndexInv Arch Block BlockSpec Store Lifecycle.

Definition coin_table : list (option string) :=
  [None; Some "shc"; None; Some "emc2"; Some "ltc"; Some "testnet"; Some "color"]%string.

Definition env_ok : Env.
Proof. refine (Build_Env (λ _ _, None) _ "/db" 1024 coin_table). by intros. Defined.

(** [mmap] always fails with [ENOMEM]. *)
Definition env_nomap : Env.
Proof.
  refine (Build_Env (λ op _, match op with SysMmap _ _ => Some 12 | _ => None end) _ "/db" 1024 coin_table).
  intros [] w e; by intros [= <-].
Defined.

Lemma env_ok_ok : @os_ok env_ok.
Proof. done. Qed.

(** An empty directory, at times 100 and 200. *)
Definition w_empty : world := World ∅ ∅ dtab_init 100 200.
Definition chain : string := "shc_block".
Definition s_new : st := detached w_empty chain.

(** Two hashes in one slot of the table, and a third in another. *)
Definition h_a : bc_hash_t := [1; 0; 0; 0; 0; 0; 0; 7].
Definition h_b : bc_hash_t := [7; 0; 0; 0; 0; 0; 0; 1].
Definition h_c : bc_hash_t := [9; 9; 9; 9; 9; 9; 9; 9].

Lemma s_new_refines : @refines env_ok s_new empty_store.
Proof. by apply (@fresh_refines env_ok w_empty chain). Qed.

Lemma s_new_db : @db_inv env_ok s_new.
Proof. apply s_new_refines. Qed.

(** The same with the extension of the index map set, ready to be opened. *)
Definition s_idx : st := s_map s_new MIdx (map_set_ext null_map (cext MIdx)).

Lemma s_idx_ok : @db_inv env_ok s_idx ∧ named s_idx MIdx (map_set_ext null_map (cext MIdx)) ∧
  @mfile env_ok s_idx MIdx = @mfile env_ok s_new MIdx.
Proof.
  destruct (@db_set_ext env_ok s_new MIdx null_map s_new_db) as (? & _ & ? & ?); [done|done|]. done.
Qed.

Lemma room_new len : 0 ≤ len ≤ CAP → room (@mfile env_ok s_idx MIdx) len.
Proof. intros. apply (@db_room env_ok); [apply s_idx_ok|done]. Qed.

(** A database with one record. *)
Definition d_one : list byte := [x01; x02; x03].
Definition s_one : st :=
  match @bc_append env_ok h_a d_one s_new with Some (_, s) => s | None => s_new end.
Definition a_one : store := so_put empty_store 0 (Some (h_a, d_one)) 3.

Lemma admissible_by q a : bool_decide (admissible q a) = true → admissible q a.
Proof. apply bool_decide_eq_true. Qed.

Lemma s_one_refines : @refines env_ok s_one a_one.
Proof.
  pose proof (@exec_append env_ok env_ok_ok s_new empty_store h_a d_one 0 s_new_refines
    ltac:(apply admissible_by; vm_compute; done)) as Hw.
  unfold s_one. unfold wp in Hw. cbn [exec] in Hw. unfold mmap, bind in Hw.
  destruct (bc_append h_a d_one s_new) as [[[u|e] s1]|]; [|by destruct Hw as (_ & ? & _)|done].
  by destruct Hw as (_ & _ & Hr).
Qed.

(** The state an operation leaves. *)
Definition after {A} (op : M A) (s : st) : st :=
  match op s with Some (_, s') => s' | None => s end.

Lemma after_wp {A} (op : M A) s (Q : result A → st → Prop) : wp op s Q → ∃ r, Q r (after op s).
Proof. unfold wp, after. destruct (op s) as [[r s']|]; [eauto|done]. Qed.

(** Two more records. *)
Definition s_three : st := after (@bc_append env_ok h_c d_one) (after (@bc_append env_ok h_b d_one) s_one).
Definition a_three : store := so_put (so_put a_one 1 (Some (h_b, d_one)) 3) 2 (Some (h_c, d_one)) 3.

Lemma after_append s a h d :
  @refines env_ok s a → admissible (RAppend h d) a →
  @refines env_ok (after (@bc_append env_ok h d) s) (so_put a (zlen (so_recs a)) (mk_cell h d) (zlen d)).
Proof.
  intros Hr Ha. pose proof (@exec_append env_ok env_ok_ok s a h d 0 Hr Ha) as Hw.
  unfold after. unfold wp in Hw. cbn [exec] in Hw. unfold mmap, bind in Hw.
  destruct (bc_append h d s) as [[[u|e] s1]|]; [|by destruct Hw as (_ & ? & _)|done].
  by destruct Hw as (_ & _ & Hr1).
Qed.

Lemma s_three_refines : @refines env_ok s_three a_three.
Proof.
  apply (after_append _ (so_put a_one 1 (Some (h_b, d_one)) 3)); [|apply admissible_by; vm_compute; done].
  apply (after_append s_one a_one); [apply s_one_refines|apply admissible_by; vm_compute; done].
Qed.

(** The record of [s_one] archived. *)
Definition s_arch : st := after (@bc_clear env_ok 0) s_one.

Lemma s_arch_refines : @refines env_ok s_arch (so_clear a_one 0).2.
Proof.
  destruct (@after_wp unit (@bc_clear env_ok 0) s_one _
    (@wp_clear_any env_ok env_ok_ok s_one a_one 0 s_one_refines
      ltac:(apply (admissible_by (RClear 0)); vm_compute; done))) as (r & _ & _ & Hr). exact Hr.
Qed.

(** One byte of the journal of [s_one] overwritten behind the index's back. *)
Definition s_bad : st := after (@bc_map_write env_ok (MData 1) 1 [xff]) s_one.

Lemma after_write_db `{Env} s m mp off bs :
  os_ok → db_inv s → named s m mp → m ≠ MTab → 0 ≤ off → off + zlen bs ≤ zlen (payload s m) →
  db_inv (after (bc_map_write m off bs) s).
Proof.
  intros Hok Hd Hn Hne H0 H1. pose proof (db_cap _ Hd m) as Hc. rewrite <-payload_len in Hc.
  destruct (after_wp (bc_map_write m off bs) s _
    (su_write Hok s m mp off bs Hd Hn Hne ltac:(lia) ltac:(lia) ltac:(lia))) as ([[]|e] & Hr); [|done].
  apply Hr.
Qed.

Lemma s_bad_db : @db_inv env_ok s_bad.
Proof.
  apply (@after_write_db env_ok s_one (MData 1) (default null_map (data_map (st_bc s_one) !! 1%nat)) 1 [xff]);
    [done|apply (@si_db env_ok), (@rf_inv env_ok _ _ s_one_refines)|vm_compute; done|done|done|vm_compute; done].
Qed.

(** [mmap] of the archive fails with [ENOMEM]. *)
Definition env_noarch : Env.
Proof.
  refine (Build_Env (λ op _, match op with
    | SysMmap p _ => if String.eqb p "/db/shc_block.arch" then Some 12 else None
    | _ => None end) _ "/db" 1024 coin_table).
  intros op w e. destruct op; try done. by case_match; intros [= <-].
Defined.
