(* ===== verification/BufThm.v ===== *)
(** * Properties of the error codes, the buffers and the descriptor table *)

From S2P Require Import Prelude Errors Shbuf Descriptor.

(** the conversions between [errno] values and share error codes are
    inverse on the table: a positive [errno] the table knows comes back
    unchanged, and every positive [errno] becomes a negative code. *)
Theorem errno_round_trip n :
  0 < n → stderr2sherr n < 0 ∧
  (stderr2sherr n ≠ SHERR_UNKNOWN → sherr2stderr (stderr2sherr n) = n).
Proof.
  intros Hn. split; [by apply stderr2sherr_neg|]. unfold stderr2sherr.
  destruct (Z.leb_spec n 0); [lia|].
  destruct (table_find _ _) as [e|] eqn:E; [|done]. intros _.
  apply table_find_Some in E as [He En]. apply Z.eqb_eq in En. subst n.
  revert He. apply (Forall_forall (λ e, sherr2stderr e.2 = e.1)). repeat constructor.
Qed.

Lemma errno_round_trip_witness :
  0 < 28 ∧ stderr2sherr 28 < 0 ∧ (stderr2sherr 28 ≠ SHERR_UNKNOWN → sherr2stderr (stderr2sherr 28) = 28).
Proof. split; [lia|]. apply (errno_round_trip 28). lia. Defined.

Section buffers.
Context `{Heap}.

(** The operations that change a buffer. *)
Inductive shbuf_op :=
  | OCat (bs : list byte) | OTrim (n : Z) | OTruncate (n : Z) | OPosSet (n : Z) | OPosIncr (n : Z).
Definition shbuf_do (o : shbuf_op) (b : shbuf_t) : shbuf_t :=
  match o with
  | OCat bs => shbuf_cat b bs
  | OTrim n => shbuf_trim b n
  | OTruncate n => shbuf_truncate b n
  | OPosSet n => shbuf_pos_set b n
  | OPosIncr n => shbuf_pos_incr b n
  end.

(** every operation keeps a buffer well formed: its contents stay
    strictly inside the allocation, also when the heap is exhausted, as long
    as the contents stay below 2 GiB less two blocks. *)
Theorem shbuf_ops_wf o b :
  shbuf_wf b → (∀ bs, o = OCat bs → data_of b + zlen bs + 1 < 2 ^ 31 - 32768) →
  shbuf_wf (shbuf_do o b).
Proof.
  intros Hwf Hcat. destruct o as [bs|n|n|n|n]; simpl.
  - by apply shbuf_cat_wf, Hcat.
  - by apply shbuf_trim_wf.
  - destruct Hwf as [Hf Hd]. unfold shbuf_truncate.
    destruct (data b) as [l|] eqn:E; [|split; [done|by rewrite E]].
    repeat case_match; (split; [done|]); simpl; rewrite ?E; rewrite ?length_take; simpl; lia.
  - done.
  - done.
Qed.

(** a buffer is a queue: bytes appended behind the contents come out after
    them, and trimming takes them from the front. *)
Theorem shbuf_fifo b bs n :
  shbuf_wf b → data_of b + zlen bs + 1 < 2 ^ 31 - 32768 → (∀ k, heap_ok k = true) →
  0 ≤ n ≤ MAX_SHBUF_SIZE →
  data (shbuf_trim (shbuf_cat b bs) n) = Some (drop (Z.to_nat n) (default [] (data b) ++ bs)).
Proof. intros Hwf Hlen Hh Hn. apply shbuf_trim_data; [by apply shbuf_cat_data|done]. Qed.

(** When the heap refuses the larger block the contents are lost: the
    buffer is left unallocated and empty. *)
Theorem shbuf_cat_nomem b bs :
  shbuf_wf b → data_of b + zlen bs + 1 < 2 ^ 31 - 32768 →
  data_max b ≤ data_of b + zlen bs + 1 → (∀ k, heap_ok k = false) →
  data (shbuf_cat b bs) = None ∧ data_max (shbuf_cat b bs) = 0.
Proof.
  intros [Hf Hd] Hlen Hmax Hh. unfold shbuf_cat, shbuf_grow.
  set (n := data_of b + zlen bs + 1) in *. assert (0 ≤ n) by (unfold n, data_of; lia).
  assert (0 ≤ (n + 1) / 16384 < 131071).
  { split; [apply Z.div_pos; lia|]. apply Z.div_lt_upper_bound; lia. }
  pose proof (Z.mul_succ_div_gt (n + 1) 16384 ltac:(lia)).
  rewrite (u64_small (n + 1)), (i32_small (_ + 1)), u64_i32_nonneg by lia.
  destruct (Z.leb_spec (((n + 1) / 16384 + 1) * 16384) (data_max b)); [lia|].
  by rewrite Hf, Hh.
Qed.

(** the queue of a claimed descriptor.  Bytes added to the read queue of
    a descriptor in use are appended to that queue; no other descriptor
    changes. *)
Theorem descriptor_rbuff_add_spec max_fd fd bs dt t :
  dt_table dt = Some t → 0 ≤ fd < max_fd → d_flag (dt_slot t fd) ≠ 0 → bs ≠ [] →
  let b := default shbuf_init (d_rbuff (dt_slot t fd)) in
  shbuf_wf b → data_of b + zlen bs + 1 < 2 ^ 31 - 32768 → (∀ k, heap_ok k = true) →
  ∃ t' b', descriptor_rbuff_add max_fd fd bs dt = Some (DTab (Some t') (dt_claim dt) (dt_mark dt) (dt_release dt)) ∧
    d_rbuff (dt_slot t' fd) = Some b' ∧ data b' = Some (default [] (data b) ++ bs) ∧
    ∀ fd', fd' ≠ fd → dt_slot t' fd' = dt_slot t fd'.
Proof.
  intros Ht Hfd Hfl Hbs b Hwf Hlen Hh. unfold descriptor_rbuff_add.
  destruct (Z.leb_spec max_fd fd); [lia|].
  destruct (Z.leb_spec (zlen bs) 0); [destruct bs; [done|cbn [length] in *; lia]|].
  destruct (Z.ltb_spec fd 0); [lia|]. rewrite Ht.
  destruct (Z.eqb_spec (d_flag (dt_slot t fd)) 0); [done|]. fold b.
  eexists _, (shbuf_cat b bs). split; [unfold dt_put, dt_alloc; rewrite Ht; done|].
  split; [by rewrite dt_slot_insert, decide_True|]. split; [by apply shbuf_cat_data|].
  intros fd' Hne. by rewrite dt_slot_insert, decide_False.
Qed.
End buffers.

Lemma shbuf_ops_wf_witness :
  shbuf_wf (@shbuf_do (λ _, true) (OCat [x61]) shbuf_init).
Proof.
  apply (@shbuf_ops_wf (λ _, true) (OCat [x61]) shbuf_init); [apply shbuf_init_wf|].
  intros bs [= <-]. vm_compute. done.
Defined.

Lemma shbuf_fifo_witness :
  data (shbuf_trim (@shbuf_cat (λ _, true) shbuf_init [x61; x62]) 1) = Some [x62].
Proof.
  apply (@shbuf_fifo (λ _, true) shbuf_init [x61; x62] 1); [apply shbuf_init_wf|vm_compute; done|done|].
  unfold MAX_SHBUF_SIZE. lia.
Defined.


(** A table with descriptor 5 claimed for service mode 1. *)
Definition dtab_one : dtab := default dtab_init (snd <$> descriptor_claim 1024 77 KReg 5 1 0 dtab_init).

Lemma descriptor_rbuff_add_spec_witness :
  ∃ t' b', @descriptor_rbuff_add 1024 (λ _, true) 5 [x61] dtab_one =
      Some (DTab (Some t') (dt_claim dtab_one) (dt_mark dtab_one) (dt_release dtab_one)) ∧
    d_rbuff (dt_slot t' 5) = Some b' ∧ data b' = Some [x61] ∧
    ∀ fd', fd' ≠ 5 → dt_slot t' fd' = dt_slot (dt_alloc dtab_one) fd'.
Proof.
  apply (@descriptor_rbuff_add_spec (λ _, true) 1024 5 [x61] dtab_one (dt_alloc dtab_one));
    [done|lia|vm_compute; done|done|apply shbuf_init_wf|vm_compute; done|done].
Defined.

(** the life of a slot.  After a claim the slot is in use with the given
    mode and flags (and the kind the system reports), after a release it is
    not, and neither touches another slot. *)
Theorem descriptor_claim_release max_fd now kind fd mode flag dt :
  0 ≤ fd < max_fd → flag ≠ 0 →
  ∃ d dt1 dt2 closed, descriptor_claim max_fd now kind fd mode flag dt = Some (d, dt1) ∧
    descriptor_release max_fd kind fd dt1 = Some (dt2, closed) ∧
  (∃ d', d = Some d' ∧ descriptor_get max_fd fd dt1 = Some (Some d') ∧ d_mode d' = mode ∧
     Z.land (d_flag d') flag = flag ∧ d_cstamp d' = now) ∧
  descriptor_get max_fd fd dt2 = Some None ∧
  closed = match kind with KNone => false | _ => true end ∧
  (∀ fd', fd' ≠ fd → dt_slot (dt_alloc dt2) fd' = dt_slot (dt_alloc dt) fd').
Proof.
  intros Hfd Hfl. unfold descriptor_claim, descriptor_release, descriptor_get.
  destruct (Z.leb_spec max_fd fd); [lia|]. destruct (Z.ltb_spec fd 0); [lia|].
  destruct (if d_flag (dt_slot (dt_alloc dt) fd) =? 0 then _ else _) as [rb wb].
  set (fl := match kind with KSock _ => Z.lor flag DF_SOCK | KReg => Z.lor flag DF_FILE | _ => flag end).
  assert (Hl : Z.land fl flag = flag).
  { unfold fl. destruct kind; rewrite ?Z.land_diag; try done.
    all: apply Z.bits_inj'; intros k Hk; rewrite Z.land_spec, Z.lor_spec;
      destruct (Z.testbit flag k); [done|apply andb_false_r]. }
  do 4 eexists. split; [reflexivity|]. split; [reflexivity|].
  simpl. rewrite !dt_slot_insert, !decide_True by done. cbn [d_flag].
  destruct (Z.eqb_spec fl 0) as [E|_]; [by rewrite E, Z.land_0_l in Hl; symmetry in Hl|].
  split; [eexists; done|]. split; [done|]. split; [done|].
  intros fd' Hne. unfold dt_slot, dt_alloc; simpl. by rewrite !lookup_insert_ne.
Qed.

Lemma descriptor_claim_release_witness :
  ∃ d dt1 dt2 closed, descriptor_claim 1024 77 KReg 5 1 DF_MAP dtab_init = Some (d, dt1) ∧
   descriptor_release 1024 KReg 5 dt1 = Some (dt2, closed) ∧
   (∃ d', d = Some d' ∧ descriptor_get 1024 5 dt1 = Some (Some d') ∧ d_mode d' = 1 ∧
      Z.land (d_flag d') DF_MAP = DF_MAP ∧ d_cstamp d' = 77) ∧
   descriptor_get 1024 5 dt2 = Some None ∧ closed = true ∧
   (∀ fd', fd' ≠ 5 → dt_slot (dt_alloc dt2) fd' = dt_slot (dt_alloc dtab_init) fd').
Proof. apply (descriptor_claim_release 1024 77 KReg 5 1 DF_MAP dtab_init); [lia|done]. Defined.

(** The flag printer never reads past its ten labels when only the
    declared descriptor flags are set. *)
Theorem descriptor_flag_str_ok flag :
  0 ≤ flag < 1024 → is_Some (descriptor_flag_str flag).
Proof.
  intros Hf. apply flag_str_loop_ok. intros k Hk. destruct (decide (flag = 0)) as [->|]; [apply Z.bits_0|].
  apply Z.bits_above_log2; [lia|]. apply Z.log2_lt_pow2; [lia|].
  pose proof (Z.pow_le_mono_r 2 10 (Z.of_nat k) ltac:(lia) ltac:(lia)). lia.
Qed.

