(* ===== verification/MapThm.v ===== *)
(** * Properties of the file maps

    What [bc_fmap.c] guarantees to the components above it, for an arbitrary
    pattern of failing system calls. *)

From S2P Require Import Prelude Errors Descriptor Vfs BcState Fmap FmapInv Db Table Crc Index IndexInv Arch Block BlockSpec Store Lifecycle Model.

Section maps.
Context `{Env}.

(** [bc_map_alloc].  On a database that satisfies the map invariant the
    allocation does not fault, releases the lock, touches no other map and
    keeps every stored byte; on success the whole file is mapped with room for
    [len] more bytes, and it fails (with a negative code) only if a system
    call failed. *)
Theorem map_alloc_spec s m mp len :
  inv s → named s m mp → room (mfile s m) len →
  wp (bc_map_alloc m len) s (λ r s', only m s s' ∧ inv s' ∧ payload s' m = payload s m ∧
    match r with
    | Done _ => ready m len tt s'
    | Error e => ¬ os_ok ∧ e < 0
    end).
Proof.
  intros Hi Hn Hr. eapply wp_mono; [by eapply wp_map_alloc|].
  intros [[]|e] s' (Ho & Hi' & Hg & Hr'); (split; [done|]); (split; [done|]);
    (split; [by eapply grown_payload|done]).
Qed.

(** [bc_map_write] at an offset inside the payload overwrites those bytes
    (extending the payload at its end) or, if a system call failed, reports an
    error and leaves the payload as it was. *)
Theorem map_write_spec s m mp off bs :
  inv s → named s m mp → room (mfile s m) (zlen bs) → 0 ≤ off ≤ zlen (payload s m) →
  wp (bc_map_write m off bs) s (λ r s', only m s s' ∧ inv s' ∧
    match r with
    | Done _ => payload s' m = splice (payload s m) off bs
    | Error e => payload s' m = payload s m ∧ ¬ os_ok ∧ e < 0
    end).
Proof.
  intros Hi Hn Hr Hoff. rewrite payload_len in Hoff.
  eapply wp_mono; [by eapply wp_map_write|].
  intros [[]|e] s' (Ho & Hi' & _ & Hr'); (split; [done|]); (split; [done|]); apply Hr'.
Qed.

(** [bc_map_append] adds the bytes behind the payload, all or nothing. *)
Theorem map_append_spec s m mp bs :
  inv s → named s m mp → room (mfile s m) (zlen bs) →
  wp (bc_map_append m bs) s (λ r s', only m s s' ∧ inv s' ∧
    match r with
    | Done _ => payload s' m = payload s m ++ bs
    | Error e => payload s' m = payload s m ∧ ¬ os_ok ∧ e < 0
    end).
Proof.
  intros Hi Hn Hr. eapply wp_mono; [by eapply wp_map_append|].
  intros [[]|e] s' (Ho & Hi' & _ & Hr'); (split; [done|]); (split; [done|]); [|apply Hr'].
  rewrite <-(splice_end (payload s m) bs). apply Hr'.
Qed.

(** [bc_map_trunc] drops the payload from [len] on. *)
Theorem map_trunc_spec s m mp len :
  inv s → named s m mp → room (mfile s m) 0 → 0 ≤ len →
  wp (bc_map_trunc m len) s (λ r s', only m s s' ∧ inv s' ∧
    match r with
    | Done _ => payload s' m = take (Z.to_nat len) (payload s m)
    | Error e => payload s' m = payload s m ∧ ¬ os_ok ∧ e < 0
    end).
Proof. apply wp_map_trunc. Qed.

(** A read keeps the database. *)
Lemma read_db s m mp off len :
  os_ok → db_inv s → isopen s m → named s m mp → 0 ≤ off → 0 ≤ len → off + len < 2 ^ 32 →
  wp (bc_map_read m off len) s (λ r s', only m s s' ∧ db_inv s' ∧ isopen s' m ∧
    payload s' m = payload s m ∧
    r = if decide (off + len < zlen (payload s m))
        then Done (take (Z.to_nat len) (drop (Z.to_nat off) (payload s m))) else Error ERR_INVAL).
Proof.
  intros Hok Hd (mp' & Hn' & Hfd & Hh) Hn H0 H1 H2.
  eapply wp_mono; [eapply wp_map_read; [apply Hd|exact Hn'|done..]|].
  intros r s' (Ho & Hi & Hm & Hop & Hr). split; [done|].
  assert (Hd' : db_inv s').
  { eapply db_only; try done; rewrite Hm; [apply Hd|apply Hd|].
    intros ->. apply (db_tab _ Hd). destruct Hn' as [Hg _]. simpl in Hg. congruence. }
  split; [done|]. split; [done|]. split; [unfold payload; by rewrite Hm|].
  destruct r as [bs|e].
  - destruct Hr as [Hlt ->]. by rewrite decide_True.
  - destruct Hr as [[-> Hge]|[_ Hno]]; [|done]. by rewrite decide_False by lia.
Qed.

(** [bc_map_read] and the end of the payload.  The bytes just appended are
    refused with [ERR_INVAL], because a read may not end at the end of the
    payload; once another byte is stored behind them the same read returns
    them. *)
Theorem map_append_read s m mp bs b :
  os_ok → db_inv s → named s m mp → m ≠ MTab → zlen (payload s m) + zlen bs + 1 ≤ CAP →
  let off := zlen (payload s m) in
  wp (bc_map_append m bs ;;;
      r1 <- try (bc_map_read m off (zlen bs)) ;;
      bc_map_append m [b] ;;;
      r2 <- bc_map_read m off (zlen bs) ;;
      ret (r1, r2)) s
    (λ r s', r = Done (Error ERR_INVAL, bs) ∧ payload s' m = payload s m ++ bs ++ [b]).
Proof.
  intros Hok Hd Hn Hne Hcap off. unfold CAP in *. unfold off in *.
  apply wp_bind_su. eapply su_mono; [eapply su_append; [done|done|exact Hn|done|unfold CAP; lia]|].
  intros _ s1 (Ho1 & Hd1 & Hop1 & Hp1). pose proof Hop1 as (mp1 & Hn1 & _).
  apply wp_bind, wp_try. eapply wp_mono; [eapply (read_db s1); [done..|lia|lia|lia]|].
  intros r s2 (Ho2 & Hd2 & Hop2 & Hp2 & ->). rewrite Hp1, length_app.
  rewrite decide_False by lia. pose proof Hop2 as (mp2 & Hn2 & _).
  apply wp_bind_su. eapply su_mono.
  { eapply su_append; [done|done|exact Hn2|done|]. rewrite Hp2, Hp1, length_app. unfold CAP. simpl. lia. }
  intros _ s3 (Ho3 & Hd3 & Hop3 & Hp3). pose proof Hop3 as (mp3 & Hn3 & _).
  rewrite Hp2, Hp1, <-app_assoc in Hp3.
  apply wp_bind. eapply wp_mono; [eapply (read_db s3); [done..|lia|lia|lia]|].
  intros r s4 (Ho4 & Hd4 & Hop4 & Hp4 & ->). rewrite Hp3, !length_app.
  rewrite decide_True by (simpl; lia). apply wp_ret. split; [|by rewrite Hp4].
  do 2 f_equal. rewrite !Nat2Z.id, drop_app_length. apply take_app_length.
Qed.

(** [bc_map_close] unmaps and closes the descriptor, keeps the file and
    always succeeds. *)
Theorem map_close_spec s m mp :
  inv s → bc_get_map (st_bc s) m = Some mp →
  wp (bc_map_close m) s (λ r s', r = Done tt ∧ only m s s' ∧ inv s' ∧ payload s' m = payload s m ∧
    ∃ mp', bc_get_map (st_bc s') m = Some mp' ∧ map_fd mp' = 0 ∧ map_hdr mp' = false).
Proof.
  intros Hi Hg. eapply wp_mono; [by eapply wp_map_close|].
  intros r s' (Ho & Hi' & Hm & -> & mp' & ? & ? & ? & _). do 3 (split; [done|]).
  split; [unfold payload; by rewrite Hm|]. by exists mp'.
Qed.
End maps.

(** ** Concrete inputs *)
Lemma map_alloc_spec_witness :
  wp (@bc_map_alloc env_ok MIdx 100) s_idx (λ r s', @only env_ok MIdx s_idx s' ∧ @inv env_ok s' ∧
    @payload env_ok s' MIdx = @payload env_ok s_idx MIdx ∧
    match r with Done _ => @ready env_ok MIdx 100 tt s' | Error e => ¬ @os_ok env_ok ∧ e < 0 end).
Proof.
  destruct s_idx_ok as (Hd & Hn & _).
  apply (@map_alloc_spec env_ok s_idx MIdx _ 100 (@db_base env_ok _ Hd) Hn). apply room_new. unfold CAP. lia.
Defined.

Lemma map_write_spec_witness :
  wp (@bc_map_write env_ok MIdx 0 [x01; x02]) s_idx (λ r s', @only env_ok MIdx s_idx s' ∧ @inv env_ok s' ∧
    match r with
    | Done _ => @payload env_ok s' MIdx = splice (@payload env_ok s_idx MIdx) 0 [x01; x02]
    | Error e => @payload env_ok s' MIdx = @payload env_ok s_idx MIdx ∧ ¬ @os_ok env_ok ∧ e < 0
    end).
Proof.
  destruct s_idx_ok as (Hd & Hn & _).
  apply (@map_write_spec env_ok s_idx MIdx _ 0 [x01; x02] (@db_base env_ok _ Hd) Hn);
    [apply room_new; unfold CAP; simpl; lia|lia].
Defined.

Lemma map_append_spec_witness :
  wp (@bc_map_append env_ok MIdx [x01; x02]) s_idx (λ r s', @only env_ok MIdx s_idx s' ∧ @inv env_ok s' ∧
    match r with
    | Done _ => @payload env_ok s' MIdx = @payload env_ok s_idx MIdx ++ [x01; x02]
    | Error e => @payload env_ok s' MIdx = @payload env_ok s_idx MIdx ∧ ¬ @os_ok env_ok ∧ e < 0
    end).
Proof.
  destruct s_idx_ok as (Hd & Hn & _).
  apply (@map_append_spec env_ok s_idx MIdx _ [x01; x02] (@db_base env_ok _ Hd) Hn).
  apply room_new. unfold CAP. simpl. lia.
Defined.

Lemma map_trunc_spec_witness :
  wp (@bc_map_trunc env_ok MIdx 5) s_idx (λ r s', @only env_ok MIdx s_idx s' ∧ @inv env_ok s' ∧
    match r with
    | Done _ => @payload env_ok s' MIdx = take 5 (@payload env_ok s_idx MIdx)
    | Error e => @payload env_ok s' MIdx = @payload env_ok s_idx MIdx ∧ ¬ @os_ok env_ok ∧ e < 0
    end).
Proof.
  destruct s_idx_ok as (Hd & Hn & _).
  apply (@map_trunc_spec env_ok s_idx MIdx _ 5 (@db_base env_ok _ Hd) Hn); [|lia].
  apply room_new. unfold CAP. lia.
Defined.

Lemma map_append_read_witness :
  wp (@bc_map_append env_ok MIdx [x01; x02] ;;;
      r1 <- try (@bc_map_read env_ok MIdx 0 2) ;;
      @bc_map_append env_ok MIdx [x03] ;;;
      r2 <- @bc_map_read env_ok MIdx 0 2 ;;
      ret (r1, r2)) s_idx
    (λ r s', r = Done (Error ERR_INVAL, [x01; x02]) ∧
      @payload env_ok s' MIdx = @payload env_ok s_idx MIdx ++ [x01; x02] ++ [x03]).
Proof.
  destruct s_idx_ok as (Hd & Hn & _).
  apply (@map_append_read env_ok s_idx MIdx _ [x01; x02] x03 env_ok_ok Hd Hn); [done|].
  vm_compute. done.
Defined.

Lemma map_close_spec_witness :
  wp (@bc_map_close env_ok MIdx) s_idx (λ r s', r = Done tt ∧ @only env_ok MIdx s_idx s' ∧
    @inv env_ok s' ∧ @payload env_ok s' MIdx = @payload env_ok s_idx MIdx ∧
    ∃ mp', bc_get_map (st_bc s') MIdx = Some mp' ∧ map_fd mp' = 0 ∧ map_hdr mp' = false).
Proof.
  destruct s_idx_ok as (Hd & Hn & _).
  apply (@map_close_spec env_ok s_idx MIdx (map_set_ext null_map (cext MIdx)) (@db_base env_ok _ Hd)).
  apply Hn.
Defined.

(** ** The 32-bit growth computation *)

(** A map file of 3.9 GB whose payload fills it up to 64 bytes. *)
Definition BIG : Z := 238336 * BC_MAP_BLOCK_SIZE.
Definition big_file : file :=
  fwrite (File true BIG ∅) 0 (hdr_bytes 0 SHMEM32_MAGIC (BIG - 64)).
Definition s_big : st :=
  St (World {[@map_path env_ok chain "idx" := big_file]} ∅ dtab_init 100 200)
     (bc_set_map (null_bc chain) MIdx (map_set_ext null_map "idx")) 0.

(** the growth of a large map destroys it.  For a valid file of
    3,904,897,024 bytes the new size is computed in 32 bits and wraps:
    [bc_map_alloc] reports success and has truncated the file to 425,984 bytes,
    below the offset its header records. *)
Theorem map_alloc_wraps :
  @file_ok big_file ∧
  match @bc_map_alloc env_ok MIdx 64 s_big with
  | Some (r, s') => r = Done tt ∧ f_size (@mfile env_ok s' MIdx) = 425984 ∧
                    hdr_of (@mfile env_ok s' MIdx) = BIG - 64
  | None => False
  end.
Proof.
  split; [|vm_compute; done].
  assert (Hl : zlen (hdr_bytes 0 SHMEM32_MAGIC (BIG - 64)) = 16) by done.
  split; [done|]. split; [done|]. split.
  { apply fwrite_tight; [intros a [b Hb]; simpl in Hb; by rewrite lookup_empty in Hb|done|].
    rewrite Hl. done. }
  split; [done|]. split; [by exists 238336|]. vm_compute. done.
Qed.
