(* ===== verification/ChainThm.v ===== *)
(** * Properties of the block database

    The properties of the index, the table, the archive and the block records,
    each followed by an instance at a concrete input. *)

From S2P Require Import Prelude Errors Descriptor Vfs BcState Fmap FmapInv Db Table Crc Index IndexInv Arch Block BlockSpec Store Lifecycle Model.

(** ** The store *)
Section store.
Context `{Env} (Hok : os_ok).

(** C1: refinement.  A database opened in a directory that holds no file of it
    answers any admissible sequence of requests exactly as the abstract store
    does, starting from the empty store, and ends in a state that again
    represents the abstract one. *)
Theorem open_run_correct w name bc d fuel qs :
  (String.length name < 136)%nat →
  (∀ m, w_files w !! map_path name (cext m) = None) →
  all_admissible fuel qs empty_store →
  wp (bc_open name ;;; run fuel qs) (St w bc d) (λ r s',
    r = Done (so_run qs empty_store).1 ∧ refines s' (so_run qs empty_store).2).
Proof.
  intros Hn Hf Hq. apply wp_bind. eapply wp_mono; [by eapply wp_bc_open, fresh_refines|].
  intros r s1 (-> & Hr & _). eapply su_wp; [by apply (run_refines Hok)|].
  intros rs s2 (_ & -> & ?). done.
Qed.

(** C2: simulation.  Every admissible request (one that does not purge from
    record 0, which does not end, nor write past the end, which faults, and
    whose positions and sizes fit) on a database in any state that represents a
    store is answered as the store answers it when the fuel is at least the
    number of records: the same result or the same error code, no fault, the
    lock released, and the new state represents the new store. *)
Theorem request_refines s a q fuel :
  refines s a → admissible q a → zlen (so_recs a) ≤ Z.of_nat fuel →
  wp (exec fuel q) s (λ r s', r = (so_exec q a).1 ∧ refines s' (so_exec q a).2 ∧ st_lk s' = st_lk s).
Proof.
  intros Hr Hq Hf. eapply wp_mono; [by apply (exec_refines Hok)|].
  intros r s' (Hfr & -> & ?). split; [done|]. split; [done|apply Hfr].
Qed.

(** C12: persistence.  Closing a database and opening it again by name, in a new
    process state, finds the same records and the same archive. *)
Theorem close_open_keeps s a :
  refines s a → (String.length (bc_name (st_bc s)) < 136)%nat →
  wp (bc_close ;;; bc_open (bc_name (st_bc s))) s (λ r s', r = Done tt ∧ refines s' a).
Proof.
  intros Hr Hn. apply wp_bind. eapply wp_mono; [apply (wp_bc_close Hok), Hr|].
  intros r s1 (-> & (Hf1 & Hd1 & Hm1) & _). destruct s1 as [w1 bc1 d1].
  assert (Hname : bc_name bc1 = bc_name (st_bc s)) by apply (fr_name _ _ Hf1).
  assert (Hpay : ∀ m, payload (St w1 bc1 d1) m = payload s m) by (intros m; unfold payload; by rewrite Hm1).
  assert (Hr1 : refines (St w1 bc1 d1) a).
  { apply (refines_same s); [by intros m _| |done].
    apply (store_same s); [by intros m _|done| |apply Hr].
    apply (cache_ok_eq s); [done| |apply Hr]. intros k. unfold tabval. by rewrite Hm1. }
  eapply wp_mono.
  { apply (wp_bc_open Hok w1 _ bc1 d1 a Hn). rewrite <-Hname.
    apply (detach_refines (St w1 bc1 d1) a 0 Hr1). }
  intros r s2 (-> & ? & _). done.
Qed.

(** round trip.  What is appended under a hash is found under that hash and
    read back byte for byte, whatever was stored before. *)
Theorem append_find_get s a h d :
  refines s a → admissible (RAppend h d) a → d ≠ [] →
  wp (bc_append h d ;;; pos <- bc_find h ;; bc_get pos) s (λ r s', r = Done d).
Proof.
  intros Hr Ha Hd. pose proof Ha as (_ & Hh & _).
  set (a1 := so_put a (zlen (so_recs a)) (mk_cell h d) (zlen d)).
  assert (Hrecs : so_recs a1 = so_recs a ++ [Some (h, d)]).
  { unfold a1, so_put, rec_put. simpl. rewrite decide_False by lia. by destruct d. }
  assert (Hfind : so_find h (so_recs a1) = Done (zlen (so_recs a))).
  { unfold so_find. rewrite Hrecs, length_app, Nat.add_1_r. cbn [last_idx].
    rewrite lookup_app_r, Nat.sub_diag by done. cbn [lookup list_lookup so_matches].
    unfold bc_hash_cmp. by rewrite bool_decide_true by done. }
  assert (Hget : so_get (so_recs a1) (zlen (so_recs a)) = Done (h, d)).
  { unfold so_get. rewrite Hrecs, Nat2Z.id, lookup_app_r, Nat.sub_diag by done. done. }
  apply wp_bind. eapply wp_mono.
  { apply (wp_unmap (λ _ : unit, AUnit) _ s (Done tt) (λ s', refines s' a1)).
    eapply wp_mono; [apply (exec_append Hok s a h d 0 Hr Ha)|]. by intros r s' (_ & -> & ?). }
  intros r s1 [-> Hr1]. apply wp_bind. eapply wp_mono.
  { apply (wp_unmap APos _ s1 (Done (zlen (so_recs a))) (λ s', refines s' a1)).
    eapply wp_mono; [apply (exec_find Hok s1 a1 h 0 Hr1)|]. intros r s' (_ & -> & ?).
    cbn [so_exec fst snd] in *. by rewrite Hfind. }
  intros r s2 [-> Hr2]. eapply wp_mono.
  { apply (wp_unmap ABytes _ s2 (Done d) (λ _, True)).
    eapply wp_mono; [apply (exec_get Hok s2 a1 (zlen (so_recs a)) 0 Hr2); lia|].
    intros r s' (_ & -> & _). cbn [so_exec fst]. by rewrite Hget. }
  by intros r s3 [-> _].
Qed.

(** [bc_write] on a position in use does not store the hash it is given:
    the record keeps the old hash, so a search for the new hash misses the new
    data. *)
Theorem write_keeps_hash s a pos h h0 d d0 :
  refines s a → admissible (RWrite pos h d) a →
  so_get (so_recs a) pos = Done (h0, d0) → zlen d ≤ zlen d0 → d ≠ [] →
  wp (bc_write pos h d ;;; bc_get_hash pos) s (λ r s', r = Done h0).
Proof.
  intros Hr Ha Hg Hlen Hd. pose proof Ha as (Hp & _).
  set (a1 := so_put a pos (mk_cell h0 d) (zlen d)).
  assert (Hget : so_get (so_recs a1) pos = Done (h0, d)).
  { unfold so_get, a1, so_put. cbn [so_recs]. rewrite rec_put_lookup by done.
    rewrite decide_True by done. by destruct d. }
  apply wp_bind. eapply wp_mono.
  { apply (wp_unmap (λ _ : unit, AUnit) _ s (Done tt) (λ s', refines s' a1)).
    eapply wp_mono; [apply (exec_write Hok s a pos h d 0 Hr Ha)|]. intros r s' (_ & -> & Hr').
    revert Hr'. cbn [so_exec]. unfold so_write. rewrite Hg.
    by destruct (Z.ltb_spec (zlen d0) (zlen d)); [lia|]. }
  intros r s1 [-> Hr1]. eapply wp_mono.
  { apply (wp_unmap AHash _ s1 (Done h0) (λ _, True)).
    eapply wp_mono; [apply (exec_hash Hok s1 a1 pos 0 Hr1); lia|].
    intros r s' (_ & -> & _). cbn [so_exec fst]. by rewrite Hget. }
  by intros r s2 [-> _].
Qed.
End store.

Definition sample : list request :=
  [RAppend h_a [x01; x02; x03]; RAppend h_b [x04]; RFind h_a; RGet 0; RWrite 0 h_c [x05]; RFind h_c;
   RClear 1; RFind h_b; RArch 0; RPurge 1; RIdle].

Lemma sample_admissible : all_admissible 8 sample empty_store.
Proof. apply (bool_decide_unpack _). vm_compute. exact I. Qed.

Lemma open_run_correct_witness :
  wp (@bc_open env_ok chain ;;; @run env_ok 8 sample) (St w_empty (null_bc "") 0) (λ r s',
    r = Done [Done AUnit; Done AUnit; Done (APos 0); Done (ABytes [x01; x02; x03]); Done AUnit;
              Error ERR_NOENT; Done AUnit; Error ERR_NOENT; Done (ABytes [x04]); Error ERR_NOENT;
              Done AUnit] ∧
    @refines env_ok s' (so_run sample empty_store).2).
Proof.
  apply (@open_run_correct env_ok env_ok_ok w_empty chain (null_bc "") 0 8 sample);
    [vm_compute; lia|done|apply sample_admissible].
Defined.

Lemma request_refines_witness :
  wp (@exec env_ok 5 (RFind h_a)) s_one (λ r s', r = Done (APos 0) ∧ @refines env_ok s' a_one ∧
    st_lk s' = st_lk s_one).
Proof.
  apply (@request_refines env_ok env_ok_ok s_one a_one (RFind h_a) 5 s_one_refines);
    [apply admissible_by; vm_compute; done|vm_compute; done].
Defined.

Lemma close_open_keeps_witness :
  wp (@bc_close env_ok ;;; @bc_open env_ok (bc_name (st_bc s_one))) s_one (λ r s', r = Done tt ∧
    @refines env_ok s' a_one).
Proof. apply (@close_open_keeps env_ok env_ok_ok s_one a_one s_one_refines). vm_compute. lia. Defined.

Lemma append_find_get_witness :
  wp (@bc_append env_ok h_b [x09] ;;; pos <- @bc_find env_ok h_b ;; @bc_get env_ok pos) s_one
    (λ r s', r = Done [x09]).
Proof.
  apply (@append_find_get env_ok env_ok_ok s_one a_one h_b [x09] s_one_refines);
    [apply admissible_by; vm_compute; done|done].
Defined.

Lemma write_keeps_hash_witness :
  wp (@bc_write env_ok 0 h_c [x09] ;;; @bc_get_hash env_ok 0) s_one (λ r s', r = Done h_a).
Proof.
  apply (@write_keeps_hash env_ok env_ok_ok s_one a_one 0 h_c h_a [x09] d_one s_one_refines);
    [apply admissible_by; vm_compute; done|done|simpl; lia|done].
Defined.

(** ** The index and its cache *)

(** storing an index record and reading it back loses nothing: the 64 bytes
    of a record with fields in range decode to that record, and whatever the
    bytes, the decoded fields are in range. *)
Theorem idx_round_trip x l : (idx_wf x → idx_dec (idx_enc x) = x) ∧ idx_wf (idx_dec l).
Proof. split; [apply idx_dec_enc|apply idx_dec_wf]. Qed.

Section index.
Context `{Env} (Hok : os_ok).

(** search by hash.  With a sound cache [bc_idx_find] returns the highest
    record in use with the hash, or [ERR_NOENT] when there is none, exactly as
    a scan of the whole index would; it changes no record and leaves the cache
    sound. *)
Theorem idx_find_spec s h :
  db_inv s → cache_ok s →
  wp (bc_idx_find h) s (λ r s', frame s s' ∧ db_inv s' ∧ cache_ok s' ∧
    mrecs s' MIdx = mrecs s MIdx ∧
    match r with
    | Done (x, i) => 0 ≤ i ∧ mrecs s MIdx !! Z.to_nat i = Some x ∧ matches h x = true ∧
                     ∀ j y, (Z.to_nat i < j)%nat → mrecs s MIdx !! j = Some y → matches h y = false
    | Error e => e = ERR_NOENT ∧ ∀ j y, mrecs s MIdx !! j = Some y → matches h y = false
    end).
Proof.
  intros Hd Hc. eapply wp_mono; [by apply (wp_idx_find Hok)|].
  intros r s' (Hf & Hd' & -> & Hc' & Hm). do 3 (split; [done|]).
  split; [unfold mrecs; by rewrite (proj1 (Hm MIdx ltac:(done)))|]. unfold find_result.
  destruct (last_idx _ _ _) as [i|] eqn:E.
  - apply last_idx_Some in E as (Hi & (x & Hx & Hmx) & Hlast). rewrite Hx.
    split; [lia|]. rewrite Nat2Z.id. do 2 (split; [done|]). intros j y Hj Hy.
    apply (Hlast j y); [|done]. split; [lia|]. by eapply lookup_lt_Some.
  - split; [done|]. intros j y Hy. apply (proj1 (last_idx_None _ _ _) E j); [|done].
    by eapply lookup_lt_Some.
Qed.

(** [bc_idx_set] at an unused position up to the end of the index stores the
    record there, keeps all others, and keeps the cache sound by resetting the
    slot of the new hash. *)
Theorem idx_set_spec s pos x :
  db_inv s → whole s MIdx → cache_ok s → idx_wf x → 0 ≤ pos ≤ zlen (mrecs s MIdx) → pos < 2 ^ 22 →
  rec_result (mrecs s MIdx) pos = Error ERR_NOENT →
  wp (bc_idx_set pos x) s (λ r s', r = Done tt ∧ frame s s' ∧ db_inv s' ∧ whole s' MIdx ∧ cache_ok s' ∧
    mrecs s' MIdx = rec_put (mrecs s MIdx) pos x).
Proof.
  intros. eapply wp_mono; [by apply (su_idx_set Hok)|]. by intros r s' (? & ? & -> & ? & ? & ? & _).
Qed.

(** [bc_idx_clear] blanks the record and never shortens the index, not even
    when the record is the last one. *)
Theorem idx_clear_spec s pos :
  db_inv s → whole s MIdx → 0 ≤ pos < zlen (mrecs s MIdx) → pos < 2 ^ 22 →
  wp (bc_idx_clear pos ;;; bc_idx_next) s (λ r s', r = Done (zlen (mrecs s MIdx)) ∧ db_inv s' ∧
    mrecs s' MIdx = <[Z.to_nat pos := blank_idx]> (mrecs s MIdx) ∧ (cache_ok s → cache_ok s')).
Proof.
  intros Hd Hw Hp Hc. apply wp_bind. eapply wp_mono; [by apply (wp_idx_clear Hok)|].
  intros r s1 (Ho1 & Hd1 & Hop1 & -> & Hw1 & Hr1 & Hc1).
  eapply su_wp; [by apply (su_idx_next Hok)|]. intros n s2 (Ho2 & Hd2 & Hop2 & Hp2 & ->).
  assert (Hr : mrecs s1 MIdx = <[Z.to_nat pos := blank_idx]> (mrecs s MIdx)).
  { rewrite Hr1. unfold rec_put. by rewrite decide_True by lia. }
  split; [by rewrite Hr, length_insert|]. split; [done|].
  split; [unfold mrecs at 1; by rewrite Hp2|]. intros Hco.
  apply (cache_ok_eq s1); [done|intros; by eapply tabval_only|by apply Hc1].
Qed.

(** the table keeps the highest position: after [bc_table_set] of a
    position the slot answers the larger of the old position and the new one,
    and no other slot changes. *)
Theorem table_set_get s h pos :
  db_inv s → 0 < pos < BC_TABLE_POS_MASK → tabval s (bc_table_hash h) < BC_TABLE_POS_MASK →
  wp (bc_table_set h pos ;;; bc_table_get h 0) s (λ r s',
    r = Done (0, Z.max (tabval s (bc_table_hash h)) pos) ∧ db_inv s' ∧
    ∀ k, k ≠ bc_table_hash h → tabval s' k = tabval s k).
Proof.
  intros Hd Hp Hv. apply wp_bind. eapply su_wp; [apply (su_table_set Hok); [done|lia]|].
  intros _ s1 (Ho1 & Hd1 & _ & Ht1). eapply su_wp; [by apply (su_table_get Hok)|].
  intros r s2 (Ho2 & Hd2 & _ & Ht2 & ->). split; [|split; [done|]].
  - rewrite Ht1, decide_True by done. unfold tab_raise.
    pose proof (tabval_range s (bc_table_hash h)) as Hr. set (v := tabval s _) in *.
    destruct (Z.leb_spec BC_TABLE_POS_MASK v); [lia|]. rewrite orb_false_r.
    unfold tab_answer, BC_TABLE_SEARCH_POS, BC_TABLE_NULL_POS, BC_TABLE_POS_MASK in *.
    destruct (Z.ltb_spec v pos); [rewrite Z.max_r by lia|rewrite Z.max_l by lia].
    + destruct (Z.eqb_spec pos 0); [lia|]. by destruct (Z.eqb_spec pos 0xFFFFFFF1); [lia|].
    + destruct (Z.eqb_spec v 0); [lia|]. by destruct (Z.eqb_spec v 0xFFFFFFF1); [lia|].
  - intros k Hk. rewrite Ht2, Ht1. by rewrite decide_False.
Qed.

(** the archive is append-only, and a search by hash returns its newest
    record with that hash. *)
Theorem arch_add_find s x :
  db_inv s → whole s MArch → idx_wf x → idx_size x ≠ 0 → zlen (mrecs s MArch) < 2 ^ 22 →
  wp (bc_arch_add x ;;; bc_arch_find (idx_hash x)) s (λ r s',
    r = Done (x, zlen (mrecs s MArch)) ∧ mrecs s' MArch = mrecs s MArch ++ [x]).
Proof.
  intros Hd Hw Hx Hs Hc. apply wp_bind. eapply su_wp; [by apply (su_arch_add Hok)|].
  intros _ s1 (Ho1 & Hd1 & _ & Hw1 & Hr1). eapply wp_mono; [by apply (wp_arch_find Hok)|].
  intros r s2 ((Ho2 & Hd2 & _ & Hp2) & ->). split; [|unfold mrecs at 1; by rewrite Hp2].
  rewrite Hr1. unfold find_result. rewrite length_app, Nat.add_1_r. cbn [last_idx].
  rewrite lookup_app_r, Nat.sub_diag by done. cbn [lookup list_lookup].
  assert (matches (idx_hash x) x = true) as ->.
  { unfold matches, bc_hash_cmp. destruct (Z.eqb_spec (idx_size x) 0); [done|].
    by rewrite bool_decide_true. }
  rewrite lookup_app_r, Nat.sub_diag by done. done.
Qed.
End index.

Lemma s_one_store : @store_inv env_ok s_one.
Proof. apply s_one_refines. Qed.
Lemma s_new_store : @store_inv env_ok s_new.
Proof. apply s_new_refines. Qed.

Lemma idx_find_spec_witness :
  wp (@bc_idx_find env_ok h_a) s_one (λ r s', frame s_one s' ∧ @db_inv env_ok s' ∧ @cache_ok env_ok s' ∧
    @mrecs env_ok s' MIdx = @mrecs env_ok s_one MIdx ∧
    match r with
    | Done (x, i) => 0 ≤ i ∧ @mrecs env_ok s_one MIdx !! Z.to_nat i = Some x ∧ matches h_a x = true ∧
        ∀ j y, (Z.to_nat i < j)%nat → @mrecs env_ok s_one MIdx !! j = Some y → matches h_a y = false
    | Error e => e = ERR_NOENT ∧ ∀ j y, @mrecs env_ok s_one MIdx !! j = Some y → matches h_a y = false
    end).
Proof.
  apply (@idx_find_spec env_ok env_ok_ok s_one h_a (@si_db env_ok _ s_one_store) (@si_cache env_ok _ s_one_store)).
Defined.

Definition x_new : bc_idx_t := BcIdx 1 0 5 77 0 0 h_b.

Lemma idx_set_spec_witness :
  wp (@bc_idx_set env_ok 1 x_new) s_one (λ r s', r = Done tt ∧ frame s_one s' ∧ @db_inv env_ok s' ∧
    @whole env_ok s' MIdx ∧ @cache_ok env_ok s' ∧
    @mrecs env_ok s' MIdx = rec_put (@mrecs env_ok s_one MIdx) 1 x_new).
Proof.
  apply (@idx_set_spec env_ok env_ok_ok s_one 1 x_new (@si_db env_ok _ s_one_store)
    (@si_idx env_ok _ s_one_store) (@si_cache env_ok _ s_one_store)).
  - apply (bool_decide_unpack _). vm_compute. exact I.
  - vm_compute. done.
  - lia.
  - vm_compute. done.
Defined.

Lemma idx_clear_spec_witness :
  wp (@bc_idx_clear env_ok 0 ;;; @bc_idx_next env_ok) s_one (λ r s',
    r = Done (zlen (@mrecs env_ok s_one MIdx)) ∧ @db_inv env_ok s' ∧
    @mrecs env_ok s' MIdx = <[Z.to_nat 0 := blank_idx]> (@mrecs env_ok s_one MIdx) ∧
    (@cache_ok env_ok s_one → @cache_ok env_ok s')).
Proof.
  apply (@idx_clear_spec env_ok env_ok_ok s_one 0 (@si_db env_ok _ s_one_store) (@si_idx env_ok _ s_one_store));
    [vm_compute; done|lia].
Defined.

Lemma table_set_get_witness :
  wp (@bc_table_set env_ok h_a 5 ;;; @bc_table_get env_ok h_a 0) s_one (λ r s',
    r = Done (0, Z.max (@tabval env_ok s_one (bc_table_hash h_a)) 5) ∧ @db_inv env_ok s' ∧
    ∀ k, k ≠ bc_table_hash h_a → @tabval env_ok s' k = @tabval env_ok s_one k).
Proof.
  apply (@table_set_get env_ok env_ok_ok s_one h_a 5 (@si_db env_ok _ s_one_store));
    [unfold BC_TABLE_POS_MASK; lia|vm_compute; done].
Defined.

Lemma arch_add_find_witness :
  wp (@bc_arch_add env_ok x_new ;;; @bc_arch_find env_ok h_b) s_one (λ r s',
    r = Done (x_new, zlen (@mrecs env_ok s_one MArch)) ∧
    @mrecs env_ok s' MArch = @mrecs env_ok s_one MArch ++ [x_new]).
Proof.
  apply (@arch_add_find env_ok env_ok_ok s_one x_new (@si_db env_ok _ s_one_store) (@si_arch env_ok _ s_one_store));
    [apply (bool_decide_unpack _); vm_compute; exact I|done|vm_compute; done].
Defined.

(** ** Block records *)
Section records.
Context `{Env} (Hok : os_ok).

(** A record whose bytes do not match its checksum. *)
Lemma wp_fetch_bad s x :
  db_inv s → isopen s (jmap (idx_jrnl x)) → 0 ≤ idx_of x → 0 ≤ idx_size x →
  idx_of x + idx_size x ≤ zlen (payload s (jmap (idx_jrnl x))) →
  shcrc32 (rdata s x) ≠ idx_crc x →
  wp (bc_fetch x) s (λ r s', s' = s ∧ r = Error ERR_ILSEQ).
Proof.
  intros Hd (mp & Hn & Hfd & Hh) H0 H1 Hl Hc. unfold bc_fetch.
  pose proof (local_file_ok _ _ (db_base _ Hd (jmap (idx_jrnl x)))) as (_ & _ & _ & _ & _ & Hf).
  rewrite payload_len in Hl. apply wp_bind.
  eapply wp_raw_read; [apply Hd|done..|lia|]. cbv beta iota.
  assert (fread (mfile s (jmap (idx_jrnl x))) (HDR + idx_of x) (Z.to_nat (idx_size x)) = rdata s x) as ->.
  { unfold rdata, payload, fpayload. rewrite fread_drop, fread_take by lia. f_equal. lia. }
  destruct (Z.eqb_spec (shcrc32 (rdata s x)) (idx_crc x)); [done|]. by apply wp_throw.
Qed.

(** C39: integrity.  When the bytes of a record in its journal no longer match
    the checksum in the index, [bc_get] returns [ERR_ILSEQ] and never the
    corrupted bytes. *)
Theorem get_corrupt s pos x :
  db_inv s → 0 ≤ pos → rec_result (mrecs s MIdx) pos = Done x → 1 ≤ idx_jrnl x ≤ 64 →
  idx_of x + idx_size x ≤ zlen (payload s (jmap (idx_jrnl x))) →
  shcrc32 (rdata s x) ≠ idx_crc x →
  wp (bc_get pos) s (λ r s', r = Error ERR_ILSEQ ∧ ∀ m, payload s' m = payload s m).
Proof.
  intros Hd Hp Hr Hj Hl Hc. apply rec_result_Done in Hr as Hx. destruct Hx as [Hx Hs].
  pose proof (mrecs_wf _ _ _ _ Hx) as (_ & Ho & Hz & _).
  eapply wp_mono with (Q := λ r s', quiet s s' ∧ r = Error ERR_ILSEQ).
  2: { intros r s' [Hq ->]. split; [done|apply Hq]. }
  apply wp_locked_quiet; [done|]. set (s0 := set_lk s _).
  unfold bc_get_. eapply wp_bind_rec; [apply (wp_get_rec Hok); [by apply db_inv_lk|done]|..].
  { intros s' _ E. change (mrecs s0 MIdx) with (mrecs s MIdx) in E. congruence. }
  intros s1 x1 Hq1 E. change (mrecs s0 MIdx) with (mrecs s MIdx) in E.
  assert (x1 = x) as -> by congruence. clear E.
  eapply wp_mono with (Q := λ r s', quiet s1 s' ∧ r = Error ERR_ILSEQ).
  2: { intros r s' [Hq ->]. split; [by etrans|done]. }
  apply wp_locked_quiet; [done|]. set (s2 := set_lk s1 _). unfold bc_read_.
  assert (Hp2 : ∀ m, payload s2 m = payload s m) by apply (qu_pay _ _ Hq1).
  eapply wp_bind_rec; [apply (wp_get_rec Hok); [apply db_inv_lk, Hq1|done]|..].
  { intros s' _ E. unfold mrecs in E. rewrite Hp2 in E. unfold mrecs in Hr. congruence. }
  intros s3 x3 Hq3 E. assert (x3 = x) as ->.
  { unfold mrecs in E, Hr. rewrite Hp2 in E. congruence. }
  eapply wp_bind_quiet; [apply (su_bc_alloc Hok); [apply Hq3|lia]|]. intros ? s4 Hq4 Hop4. cbn beta in Hop4.
  assert (Hp4 : ∀ m, payload s4 m = payload s m).
  { intros m. by rewrite (qu_pay _ _ Hq4), (qu_pay _ _ Hq3). }
  pose proof Hop4 as (mp & Hn & Hfd & Hh). apply wp_bind. eapply wp_get_map; [apply Hn|].
  destruct (inv_open_file _ _ _ (db_base _ (qu_db _ _ Hq4)) Hn Hfd) as (_ & _ & Hsz). rewrite Hsz by done.
  pose proof (local_file_ok _ _ (db_base _ (qu_db _ _ Hq4) (jmap (idx_jrnl x)))) as (_ & _ & _ & _ & _ & Hf).
  rewrite <-Hp4 in Hl. pose proof Hl as Hl'. rewrite payload_len in Hl'. unfold HDR in Hf.
  destruct (Z.leb_spec (f_size (mfile s4 (jmap (idx_jrnl x)))) (idx_of x)); [lia|].
  apply wp_bind. eapply wp_mono.
  { apply (wp_fetch_bad s4 x); [apply Hq4|done|lia|lia|done|]. unfold rdata. rewrite Hp4. exact Hc. }
  intros r s5 [-> ->]. split; [by etrans|done].
Qed.

(** an empty record is lost: [bc_append] of no bytes succeeds and uses up a
    position, but the position then answers [ERR_NOENT]. *)
Theorem append_empty_lost s a h :
  refines s a → admissible (RAppend h []) a →
  wp (bc_append h [] ;;; bc_get (zlen (so_recs a))) s (λ r s', r = Error ERR_NOENT).
Proof.
  intros Hr Ha. set (a1 := so_put a (zlen (so_recs a)) None 0).
  apply wp_bind. eapply wp_mono.
  { apply (wp_unmap (λ _ : unit, AUnit) _ s (Done tt) (λ s', refines s' a1)).
    eapply wp_mono; [apply (exec_append Hok s a h [] 0 Hr Ha)|]. by intros r s' (_ & -> & ?). }
  intros r s1 [-> Hr1]. eapply wp_mono.
  { apply (wp_unmap ABytes _ s1 (Error ERR_NOENT) (λ _, True)).
    eapply wp_mono; [apply (exec_get Hok s1 a1 (zlen (so_recs a)) 0 Hr1); lia|].
    intros r s' (_ & -> & _). cbn [so_exec fst]. unfold so_get, a1, so_put. cbn [so_recs].
    rewrite rec_put_lookup by (split; [apply Nat2Z.is_nonneg|apply Z.le_refl]). by rewrite decide_True. }
  by intros r s2 [-> _].
Qed.

(** [bc_idle] closes at most one data map; the map was open and unused for
    240 seconds, every record stays readable, and the lock is released. *)
Theorem idle_spec s :
  store_inv s →
  wp bc_idle s (λ r s', r = Done tt ∧ store_inv s' ∧ st_lk s' = st_lk s ∧
    (∀ m, payload s' m = payload s m) ∧
    (s' = s ∨ ∃ i mp, data_map (st_bc s) !! i = Some mp ∧ map_fd mp ≠ 0 ∧
      map_stamp mp + BCMAP_IDLE_TIME ≤ w_time (st_w s) ∧
      ∀ k, k ≠ i → data_map (st_bc s') !! k = data_map (st_bc s) !! k)).
Proof.
  intros Hi. eapply wp_mono; [by apply (wp_bc_idle Hok)|].
  intros r s' (-> & Hf & Hi' & Hp & Hor). split; [done|]. split; [done|]. split; [apply Hf|].
  split; [done|]. destruct Hor as [->|(i & mp & mp' & ? & ? & ? & _ & _ & ?)]; [by left|right].
  by exists i, mp.
Qed.

(** [bc_close] does not close the archive: if its map is open, the
    descriptor is still open afterwards, although the database structure that
    names it is released. *)
Theorem close_leaks_archive s :
  db_inv s → map_fd (arch_map (st_bc s)) ≠ 0 →
  wp bc_close s (λ r s', r = Done tt ∧ map_fd (idx_map (st_bc s')) = 0 ∧
    map_fd (tab_map (st_bc s')) = 0 ∧ data_map (st_bc s') = [] ∧
    w_fds (st_w s') !! map_fd (arch_map (st_bc s)) = Some (map_path (bc_name (st_bc s)) "arch")).
Proof.
  intros Hd Hfd. eapply wp_mono; [by apply (wp_bc_close Hok)|].
  intros r s' (-> & (Hf & Hd' & _) & (mp1 & [= <-] & Hc1) & (mp2 & [= <-] & Hc2) & Hdm & Ha).
  do 4 (split; [done|]). rewrite <-Ha in *.
  assert (Hn : named s' MArch (arch_map (st_bc s'))).
  { split; [done|]. destruct (db_base _ Hd' MArch) as [_ Hm].
    destruct (Hm _ eq_refl) as ([?|[_ ?]] & _); done. }
  destruct (inv_open_file _ _ _ (db_base _ Hd') Hn Hfd) as (_ & Hw & _).
  rewrite Hw. unfold cpath. by rewrite (fr_name _ _ Hf).
Qed.
End records.

(** What a purge does to the records. *)
Lemma so_clear_eq a i :
  (i < length (so_recs a))%nat →
  so_recs (so_clear a (Z.of_nat i)).2 = <[i := None]> (so_recs a) ∧
  so_arch (so_clear a (Z.of_nat i)).2 =
    so_arch a ++ match so_recs a !! i with Some (Some c) => [Some c] | _ => [] end.
Proof.
  intros Hi. unfold so_clear, so_get. rewrite Nat2Z.id.
  destruct (so_recs a !! i) as [[c|]|] eqn:E; cbn [snd so_recs so_arch]; rewrite ?app_nil_r.
  - unfold rec_put. rewrite decide_True by (unfold cell in *; lia). by rewrite Nat2Z.id.
  - split; [|done]. symmetry. by apply list_insert_id.
  - apply lookup_ge_None in E. unfold cell in *. lia.
Qed.

Lemma so_clear_down_eq n i a :
  (i + n ≤ length (so_recs a))%nat →
  so_recs (so_clear_down a (Z.of_nat i) n) =
    take i (so_recs a) ++ replicate n None ++ drop (i + n) (so_recs a) ∧
  so_arch (so_clear_down a (Z.of_nat i) n) =
    so_arch a ++ reverse (filter is_Some (take n (drop i (so_recs a)))).
Proof.
  revert a. induction n as [|n IH]; intros a Hn; cbn [so_clear_down].
  { rewrite Nat.add_0_r. simpl. by rewrite take_drop, app_nil_r. }
  rewrite <-Nat2Z.inj_add. destruct (so_clear_eq a (i + n)) as [Hr Ha]; [lia|].
  destruct (IH (so_clear a (Z.of_nat (i + n))).2) as [-> ->].
  { rewrite Hr, length_insert. lia. }
  rewrite Hr, Ha. destruct (lookup_lt_is_Some_2 (so_recs a) (i + n)) as [c Hc]; [lia|].
  rewrite take_insert_ge by lia. split.
  - f_equal. rewrite replicate_S_end, <-app_assoc. f_equal.
    rewrite (drop_S _ (None : cell) (i + n)) by (apply list_lookup_insert_eq; lia).
    rewrite drop_insert_lt by lia. simpl. do 2 f_equal. lia.
  - rewrite <-app_assoc. f_equal. rewrite drop_insert_ge by lia.
    replace (i + n - i)%nat with n by lia. rewrite take_insert_ge by lia.
    rewrite (take_S_r _ _ c) by (by rewrite lookup_drop).
    rewrite filter_app, reverse_app. f_equal. unfold cell in *. rewrite Hc.
    by destruct c as [c|].
Qed.

Section purge.
Context `{Env} (Hok : os_ok).

(** [bc_purge] from a used position above 0 ends within as many iterations
    as there are records, keeps the records below the position, clears every
    other one, and moves the cleared ones to the archive, last first. *)
Theorem purge_keeps_prefix s a pos c fuel :
  refines s a → admissible (RPurge pos) a → so_get (so_recs a) pos = Done c →
  zlen (so_recs a) ≤ Z.of_nat fuel →
  wp (bc_purge fuel pos) s (λ r s', r = Done true ∧ ∃ a', refines s' a' ∧
    so_recs a' = take (Z.to_nat pos) (so_recs a) ++ replicate (length (so_recs a) - Z.to_nat pos) None ∧
    so_arch a' = so_arch a ++ reverse (filter is_Some (drop (Z.to_nat pos) (so_recs a)))).
Proof.
  intros Hr Ha Hg Hf. pose proof (exec_purge Hok s a pos fuel Hr Ha Hf) as He.
  destruct Ha as (Hp & Hc & Hca). cbn [exec] in He. unfold wp, bind in He |- *.
  assert (Hlt : (Z.to_nat pos < length (so_recs a))%nat).
  { unfold so_get in Hg. destruct (so_recs a !! Z.to_nat pos) eqn:E; [by eapply lookup_lt_Some|done]. }
  destruct (bc_purge fuel pos s) as [[[[]|e] s']|]; [|done| |done].
  - destruct He as (_ & _ & Hr'). split; [done|]. cbn [so_exec] in Hr'. unfold so_purge in Hr'.
    rewrite Hg in Hr'. cbn [snd] in Hr'. eexists. split; [exact Hr'|].
    rewrite <-(Z2Nat.id pos) by lia. rewrite Nat2Z.id.
    destruct (so_clear_down_eq (Z.to_nat (zlen (so_recs a) - Z.of_nat (Z.to_nat pos))) (Z.to_nat pos) a)
      as [-> ->]; [lia|].
    split.
    + rewrite drop_ge by lia. rewrite app_nil_r. do 2 f_equal. lia.
    + rewrite take_ge; [done|]. rewrite length_drop. lia.
  - destruct He as (_ & Hx & _). cbn [so_exec] in Hx. unfold so_purge in Hx. by rewrite Hg in Hx.
Qed.
End purge.

Lemma purge_keeps_prefix_witness :
  ∃ s a, so_recs a = [Some (h_a, d_one); Some (h_b, d_one); Some (h_c, d_one)] ∧
    wp (@bc_purge env_ok 3 1) s (λ r s', r = Done true ∧ ∃ a', @refines env_ok s' a' ∧
      so_recs a' = [Some (h_a, d_one); None; None] ∧
      so_arch a' = so_arch a ++ [Some (h_c, d_one); Some (h_b, d_one)]).
Proof.
  exists s_three, a_three. split; [vm_compute; done|].
  apply (@purge_keeps_prefix env_ok env_ok_ok s_three a_three 1 (h_b, d_one) 3 s_three_refines);
    [apply (admissible_by (RPurge 1)); vm_compute; done|vm_compute; done|vm_compute; done].
Defined.

(** the purge of a whole chain never ends: the loop of [bc_purge] from
    position 0 runs on unsigned positions, its test [t_pos >= 0] always holds,
    and no number of iterations is enough. *)
Theorem purge_zero_diverges `{Env} fuel t s s' :
  0 ≤ t → purge_loop fuel 0 t s ≠ Some (Done true, s').
Proof.
  revert t s. induction fuel as [|fuel IH]; intros t s Ht; cbn [purge_loop];
    (destruct (Z.leb_spec 0 t); [|lia]); cbn [negb]; [done|].
  unfold bind at 1, try at 1. destruct (bc_clear t s) as [[r1 s1]|]; [|done].
  unfold bind at 1, try at 1. destruct (bc_idx_get t s1) as [[r2 s2]|]; [|done].
  unfold bind at 1. destruct r2 as [x|e].
  - unfold bind at 1, try at 1. destruct (bc_table_reset (idx_hash x) s2) as [[r3 s3]|]; [|done].
    apply IH. apply u32_range.
  - apply IH. apply u32_range.
Qed.

(** a failed mapping is not noticed.  When [mmap] of the archive fails once,
    the descriptor stays recorded as open; the next use of the archive takes it
    for mapped and reads its header through a null pointer. *)
Theorem arch_null_header :
  ∃ s1 s2, @bc_open env_noarch chain s_new = Some (Done tt, s1) ∧
    @bc_arch_next env_noarch s1 = Some (Error ERR_NOMEM, s2) ∧
    @bc_arch_next env_noarch s2 = None.
Proof.
  eexists (after (@bc_open env_noarch chain) s_new),
    (after (@bc_arch_next env_noarch) (after (@bc_open env_noarch chain) s_new)).
  split; [vm_compute; done|]. split; vm_compute; done.
Qed.

(** a store past the end of the mapped index is not refused: [bc_write] at
    position 300 of a new database runs out of the 16 KiB mapping. *)
Theorem write_past_end :
  ∃ s1, @bc_open env_ok chain s_new = Some (Done tt, s1) ∧
    @bc_write env_ok 300 h_a d_one s1 = None.
Proof.
  exists (after (@bc_open env_ok chain) s_new). split; vm_compute; done.
Qed.

(** *** Instances *)
Lemma get_corrupt_witness :
  wp (@bc_get env_ok 0) s_bad (λ r s', r = Error ERR_ILSEQ ∧ ∀ m, @payload env_ok s' m = @payload env_ok s_bad m).
Proof.
  apply (@get_corrupt env_ok env_ok_ok s_bad 0 (default blank_idx (@mrecs env_ok s_bad MIdx !! 0%nat)) s_bad_db);
    try (vm_compute; done).
Defined.

Lemma append_empty_lost_witness :
  wp (@bc_append env_ok h_b [] ;;; @bc_get env_ok (zlen (so_recs a_one))) s_one (λ r s', r = Error ERR_NOENT).
Proof.
  apply (@append_empty_lost env_ok env_ok_ok s_one a_one h_b s_one_refines).
  apply (admissible_by (RAppend h_b [])). vm_compute. done.
Defined.

Lemma idle_spec_witness :
  wp (@bc_idle env_ok) s_one (λ r s', r = Done tt ∧ @store_inv env_ok s' ∧ st_lk s' = st_lk s_one ∧
    (∀ m, @payload env_ok s' m = @payload env_ok s_one m) ∧
    (s' = s_one ∨ ∃ i mp, data_map (st_bc s_one) !! i = Some mp ∧ map_fd mp ≠ 0 ∧
      map_stamp mp + BCMAP_IDLE_TIME ≤ w_time (st_w s_one) ∧
      ∀ k, k ≠ i → data_map (st_bc s') !! k = data_map (st_bc s_one) !! k)).
Proof. apply (@idle_spec env_ok env_ok_ok s_one s_one_store). Defined.

Lemma close_leaks_archive_witness :
  wp (@bc_close env_ok) s_arch (λ r s', r = Done tt ∧ map_fd (idx_map (st_bc s')) = 0 ∧
    map_fd (tab_map (st_bc s')) = 0 ∧ data_map (st_bc s') = [] ∧
    w_fds (st_w s') !! map_fd (arch_map (st_bc s_arch)) = Some (@map_path env_ok (bc_name (st_bc s_arch)) "arch")).
Proof.
  apply (@close_leaks_archive env_ok env_ok_ok s_arch (@si_db env_ok _ (@rf_inv env_ok _ _ s_arch_refines))).
  vm_compute. done.
Defined.

Lemma purge_zero_diverges_witness : @purge_loop env_ok 1000 0 0 s_one ≠ Some (Done true, s_one).
Proof. apply (@purge_zero_diverges env_ok 1000 0 s_one s_one). lia. Defined.
