(* ===== verification/PeerThm.v ===== *)
(** * Properties of the peer database *)

From stdpp Require Import sorting.
From S2P Require Import Prelude Errors Descriptor Vfs BcState Fmap FmapInv Db Table Crc Index IndexInv Arch Block BlockSpec Store Lifecycle Model PeerDb PeerDbSpec.

(** ** Sorting by trust *)
Definition trust_ge (p q : peerdb_t) : Prop := pd_trust q ≤ pd_trust p.

#[global] Instance sort_cmp_total : Total (by_cmp peerdb_sort_cmp).
Proof.
  intros p q. unfold by_cmp, peerdb_sort_cmp, i32.
  set (x := pd_trust q - pd_trust p). replace (pd_trust p - pd_trust q) with (- x) by lia.
  pose proof (Z.mod_pos_bound (x + 2 ^ 31) (2 ^ 32)). pose proof (Z.mod_pos_bound (- x + 2 ^ 31) (2 ^ 32)).
  pose proof (Z.div_mod (x + 2 ^ 31) (2 ^ 32)). pose proof (Z.div_mod (- x + 2 ^ 31) (2 ^ 32)).
  set (q1 := (x + 2 ^ 31) / 2 ^ 32) in *. set (q2 := (- x + 2 ^ 31) / 2 ^ 32) in *. lia.
Qed.

Lemma Sorted_cmp l :
  Forall (λ p, Z.abs (pd_trust p) < 2 ^ 30) l → Sorted (by_cmp peerdb_sort_cmp) l → Sorted trust_ge l.
Proof.
  intros Hl Hs. induction Hs as [|p l Hs IH Hh]; [constructor|]. apply Forall_cons in Hl as [Hp Hl].
  constructor; [by apply IH|]. destruct Hh as [|q l Hq]; constructor. apply Forall_cons in Hl as [Hq' _].
  unfold by_cmp, peerdb_sort_cmp in Hq. unfold trust_ge. rewrite i32_small in Hq by lia. lia.
Qed.

Section peers.
Context `{Env} {Hok : os_ok}.

(** C13: refinement.  On a new database the peer operations (add or raise the
    trust of a peer, lower it, remove it) are, for any sequence of them, the
    updates of a finite map from key hashes to peers: the records of the final
    database are exactly the entries of that map. *)
Theorem peer_db_correct w bc d flag mode os :
  (∀ m, w_files w !! map_path (peerdb_mode_label mode) (cext m) = None) →
  (String.length (peerdb_mode_label mode) < 136)%nat →
  Forall (λ o, length (op_peer o) = 136%nat) os → zlen os ≤ 2 ^ 21 →
  bad_mode mode = false → has_flag flag DF_PEER_SCAN = true →
  wp (peerdb_open false mode ;;; peer_run flag mode os) (St w bc d) (λ r s', r = Done tt ∧
    ∃ a, refines s' a ∧ peer_map a (foldl (peer_spec (w_time w)) ∅ os)).
Proof.
  intros Hw Hn Hos Hlen Hb Hfl. apply wp_bind. unfold peerdb_open. rewrite Hb.
  apply wp_bind, wp_try. eapply wp_mono; [by eapply (wp_bc_open Hok), fresh_refines|].
  intros r s1 (-> & Hr & _ & _ & _ & Ht). cbn beta iota. apply wp_ret.
  eapply wp_mono.
  { eapply (wp_peer_run refines flag mode os s1 empty_store ∅ Hr peer_map_empty Hos Hb Hfl).
    unfold roomy, PEERDB, CAP. cbn [empty_store so_recs so_arch so_used length]. lia. }
  intros r s2 (-> & _ & a & Hr2 & Hm & _). split; [done|]. exists a. split; [done|].
  by rewrite <-Ht.
Qed.

(** the list of peers.  On a database of at most 1000 records and as many
    requested, [unet_peer_track_list] returns every peer once, in order of
    decreasing trust, wherever the previous scan stopped. *)
Theorem peer_track_sorted s a m mode k max :
  refines s a → peer_map a m → bad_mode mode = false →
  zlen (so_recs a) ≤ max → max ≤ 1000 → 0 ≤ k < 2 ^ 31 →
  (∀ h p, m !! h = Some p → Z.abs (pd_trust p) < 2 ^ 30) →
  wp (unet_peer_track_list true mode k max) s (λ r s', refines s' a ∧ ∃ l k',
    r = Done (Some (pd_peer <$> l), k') ∧ l ≡ₚ (map_to_list m).*2 ∧ Sorted trust_ge l).
Proof.
  intros Hr Hm Hb Hn Hmax Hk Ht. unfold unet_peer_track_list, peerdb_track_list.
  apply wp_bind, wp_bind. apply wp_opened; [done|]. cbn [negb].
  apply wp_bind, wp_try. eapply wp_mono; [by apply rd_next|]. intros r s1 (-> & Hr1 & _). cbn beta iota.
  rewrite (u32_small (Z.max 0 max)) by lia. rewrite i32_small by lia.
  apply wp_bind. eapply wp_mono.
  { apply (wp_track_scan refines s1 a m k); [done|done|lia..]. }
  intros r s2 (_ & Hr2 & k' & ->). cbn beta iota. apply wp_ret. apply wp_ret. cbn [fst snd].
  split; [done|]. set (l := peerdb_sort _ 1).
  assert (Hl : l ≡ₚ (map_to_list m).*2).
  { unfold l, peerdb_sort. cbn [Z.ltb Z.compare]. rewrite merge_sort_Permutation.
    rewrite take_ge.
    - destruct (decide (so_recs a = [])) as [He|He].
      + rewrite He. simpl. destruct (map_to_list m) as [|[h p] l'] eqn:E; [done|].
        assert (Hp : m !! h = Some p) by (apply elem_of_map_to_list; rewrite E; left).
        destruct (pm_all _ _ Hm _ _ Hp) as (_ & _ & i & Hi). by rewrite He in Hi.
      + f_equiv. apply ring_peers; [done|]. destruct (so_recs a); [done|simpl; lia].
    - unfold MAX_PEERDB_TRACK_LIST_SIZE. rewrite length_fmap.
      pose proof (length_ring_live a (length (so_recs a)) k (zlen (so_recs a))). lia. }
  exists l, k'. split; [|split; [done|]].
  - do 3 f_equal. rewrite take_ge; [done|]. rewrite Hl, length_fmap.
    pose proof (peer_map_size _ _ Hm). lia.
  - apply Sorted_cmp; [|apply (Sorted_merge_sort (by_cmp peerdb_sort_cmp))].
    apply Forall_forall. intros p Hp. rewrite Hl in Hp.
    apply list_elem_of_fmap in Hp as ([h q] & -> & Hq%elem_of_map_to_list). by apply (Ht h).
Qed.
End peers.

(** *** Instances *)
Definition peer_a : list byte := replicate 135 x00 ++ [x01].
Definition peer_b : list byte := replicate 135 x00 ++ [x02].
Definition peer_ops : list peer_op := [PIncr peer_a; PIncr peer_b; PIncr peer_a; PDecr peer_b; PRemove peer_a].

Lemma peer_db_correct_witness :
  wp (@peerdb_open env_ok false 1 ;;; @peer_run env_ok 16 1 peer_ops) (St w_empty (null_bc "") 0)
    (λ r s', r = Done tt ∧ ∃ a, @refines env_ok s' a ∧
      peer_map a (foldl (peer_spec (w_time w_empty)) ∅ peer_ops)).
Proof.
  apply (@peer_db_correct env_ok env_ok_ok w_empty (null_bc "") 0 16 1 peer_ops);
    [done|vm_compute; lia| |vm_compute; done|done|done].
  by repeat constructor.
Defined.

(** A database with two peers of trust 1 and 2. *)
Definition p_a : peerdb_t := pd_add (new_peer 100 peer_a) 1.
Definition p_b : peerdb_t := pd_add (new_peer 100 peer_b) 2.
Definition s_peers : st :=
  after (@bc_append env_ok (pd_hash p_b) (peerdb_bytes p_b))
    (after (@bc_append env_ok (pd_hash p_a) (peerdb_bytes p_a)) s_new).
Definition a_peers : store :=
  so_put (so_put empty_store 0 (Some (pd_hash p_a, peerdb_bytes p_a)) 152)
    1 (Some (pd_hash p_b, peerdb_bytes p_b)) 152.

Lemma s_peers_refines : @refines env_ok s_peers a_peers.
Proof.
  apply (after_append _ (so_put empty_store 0 (Some (pd_hash p_a, peerdb_bytes p_a)) 152));
    [|apply admissible_by; vm_compute; done].
  apply (after_append s_new empty_store); [apply s_new_refines|apply admissible_by; vm_compute; done].
Qed.

Lemma a_peers_map : peer_map a_peers (<[pd_hash p_b := p_b]> (<[pd_hash p_a := p_a]> ∅)).
Proof.
  apply (pm_put _ _ 1).
  - apply (pm_put empty_store ∅ 0); [apply peer_map_empty|apply pd_add_wf, new_peer_wf; done|done|done|done|done].
  - by apply pd_add_wf, new_peer_wf.
  - done.
  - intros [|j] bs; [vm_compute; done|]. by destruct j.
  - done.
  - done.
Qed.

Lemma peer_track_sorted_witness :
  wp (@unet_peer_track_list env_ok true 1 7 10) s_peers (λ r s', @refines env_ok s' a_peers ∧ ∃ l k',
    r = Done (Some (pd_peer <$> l), k') ∧
    l ≡ₚ (map_to_list (<[pd_hash p_b := p_b]> (<[pd_hash p_a := p_a]> (∅ : gmap bc_hash_t peerdb_t)))).*2 ∧
    Sorted trust_ge l).
Proof.
  apply (@peer_track_sorted env_ok env_ok_ok s_peers a_peers _ 1 7 10 s_peers_refines a_peers_map);
    [done|vm_compute; done|vm_compute; done|vm_compute; done|].
  intros h p. rewrite !lookup_insert_Some. intros [[_ <-]|[_ [[_ <-]|[_ ?]]]]; [vm_compute; done..|].
  by rewrite lookup_empty in *.
Defined.
