(* ===== verification/UnetThm.v ===== *)
(** * Properties of the network layer *)

From S2P Require Import Prelude Errors Shbuf Descriptor PeerDb Net Unet UnetCycle UnetInv.

Section slots.
Context `{Net}.

(** The slot of a descriptor. *)
Definition slot (u : net_st) (fd : Z) : desc_t := dt_slot (dt_alloc (u_desc u)) fd.

Lemma slot_put u fd d k : slot (set_desc (dt_put (u_desc u) fd d) u) k = if decide (fd = k) then d else slot u k.
Proof. unfold slot, dt_put, dt_alloc at 1. simpl. by rewrite dt_slot_insert. Qed.

Lemma get_table_eq u fd :
  net_inv u → 0 ≤ fd < n_max_fd →
  get_unet_table fd u = Some (if d_flag (slot u fd) =? 0 then None else Some (slot u fd), u).
Proof.
  intros Hu Hfd. unfold get_unet_table, descriptor_get, slot, dt_alloc. destruct (ni_table _ Hu) as [t ->].
  destruct (Z.leb_spec n_max_fd fd); [lia|]. destruct (Z.ltb_spec fd 0); [lia|]. done.
Qed.

(** What a callback may do: it may queue data, but neither claim nor release a
    descriptor nor change a service. *)
Record calm (u u' : net_st) : Prop := {
  ca_slot fd : d_flag (slot u' fd) = d_flag (slot u fd) ∧ d_mode (slot u' fd) = d_mode (slot u fd);
  ca_bind : u_bind u' = u_bind u;
}.
#[global] Instance calm_preorder : PreOrder calm.
Proof.
  split; [by split|]. intros u1 u2 u3 [H1 B1] [H2 B2]. split; [|congruence].
  intros fd. destruct (H1 fd), (H2 fd). split; congruence.
Qed.

Class CallbacksCalm : Prop := {
  cb_accept_calm mode fd addr u : calm u (n_cb_accept mode fd addr u);
  cb_close_calm mode fd addr u : calm u (n_cb_close mode fd addr u);
}.

(** A service connection of a mode. *)
Definition serves (mode : Z) (u : net_st) (fd : Z) : Prop :=
  d_flag (slot u fd) ≠ 0 ∧ d_mode (slot u fd) = mode ∧ has_flag (d_flag (slot u fd)) DF_SERVICE = true.

Lemma serves_calm mode u u' fd : calm u u' → serves mode u' fd ↔ serves mode u fd.
Proof. intros [Hc _]. unfold serves. by destruct (Hc fd) as [-> ->]. Qed.
End slots.

(** ** Events *)
Section events.
Context `{Net}.

Lemma find_slot_None n off i tab :
  find_slot n off i tab = None → length tab = Z.to_nat UNET_MAX_EVENTS →
  0 ≤ i → i + off + Z.of_nat n < 2 ^ 32 → 0 ≤ off →
  ∀ k, 0 ≤ k < Z.of_nat n →
  ∃ e, tab !! Z.to_nat ((i + off + k) mod UNET_MAX_EVENTS) = Some e ∧ e_type e ≠ 0.
Proof.
  intros Hs Hl Hi. revert off Hs. induction n as [|n IH]; intros off Hs Hlt Hoff k Hk; [lia|].
  cbn [find_slot] in Hs. cbv zeta in Hs. rewrite u32_small in Hs by lia.
  destruct (lookup_lt_is_Some_2 tab (Z.to_nat ((i + off) mod UNET_MAX_EVENTS))) as [e He].
  { rewrite Hl. apply Z2Nat.inj_lt; [apply Z.mod_pos_bound|..]; unfold UNET_MAX_EVENTS; try lia.
    apply Z.mod_pos_bound. lia. }
  rewrite He in Hs. destruct (Z.eqb_spec (e_type e) 0) as [|Hne]; [done|].
  destruct (decide (k = 0)) as [->|Hk0]; [rewrite Z.add_0_r; eauto|].
  destruct (IH (off + 1) Hs ltac:(lia) ltac:(lia) (k - 1) ltac:(lia)) as (e' & He' & ?).
  exists e'. split; [|done]. rewrite <-He'. do 3 f_equal. lia.
Qed.

(** Every slot is found from any start. *)
Lemma ring_full i tab :
  0 ≤ i < UNET_MAX_EVENTS → length tab = Z.to_nat UNET_MAX_EVENTS →
  find_slot (Z.to_nat UNET_MAX_EVENTS) 1 i tab = None → Forall (λ e, e_type e ≠ 0) tab.
Proof.
  intros Hi Hl Hs. apply Forall_lookup. intros j e He. pose proof (lookup_lt_Some _ _ _ He) as Hj.
  rewrite Hl in Hj. unfold UNET_MAX_EVENTS in *.
  destruct (find_slot_None _ _ _ _ Hs Hl ltac:(lia) ltac:(lia) ltac:(lia) ((Z.of_nat j - i - 1) mod 20480))
    as (e' & He' & Ht).
  { pose proof (Z.mod_pos_bound (Z.of_nat j - i - 1) 20480). lia. }
  unfold UNET_MAX_EVENTS in He'. rewrite Zplus_mod_idemp_r in He'.
  replace (i + 1 + (Z.of_nat j - i - 1)) with (Z.of_nat j) in He' by lia.
  rewrite Z.mod_small, Nat2Z.id in He' by lia. congruence.
Qed.

Lemma count_insert (l : list uevent_t) i e e' type :
  l !! i = Some e → e_type e ≠ type → e_type e' = type →
  length (filter (λ x, e_type x = type) (<[i := e']> l)) = S (length (filter (λ x, e_type x = type) l)).
Proof.
  intros Hi Hne He'. rewrite (insert_take_drop _ _ _ (lookup_lt_Some _ _ _ Hi)).
  rewrite <-(take_drop_middle _ _ _ Hi) at 3.
  rewrite !filter_app, !length_app, !filter_cons. rewrite decide_True, decide_False by done. simpl. lia.
Qed.

(** the event table.  [uevent_new] fills a free slot, keeps every other
    event, and raises the count of its type by one; it fails only when all
    20480 slots are in use. *)
Theorem uevent_new_spec u mode type peer :
  net_inv u → type ≠ 0 →
  uwp (uevent_new mode type (Some peer)) u (λ r u',
    match r with
    | Some idx => ∃ e, u_events u !! Z.to_nat idx = Some e ∧ e_type e = 0 ∧
        u_events u' = <[Z.to_nat idx := Uevent mode (e_flag e) type (e_fd e) (Some peer)]> (u_events u) ∧
        uevent_type_count type u' = uevent_type_count type u + 1 ∧ u_desc u' = u_desc u ∧ u_bind u' = u_bind u
    | None => Forall (λ e, e_type e ≠ 0) (u_events u) ∧ u' = u
    end).
Proof.
  intros Hu Ht. unfold uevent_new. destruct (Z.eqb_spec type 0); [done|].
  apply uwp_bind, uwp_get. destruct (find_slot _ _ _ _) as [idx|] eqn:E.
  - apply find_slot_Some in E as (Hi & e & He & He0).
    apply uwp_bind, uwp_umod, uwp_bind, uwp_umod, uwp_ret. cbn [u_events set_new_idx]. rewrite He.
    exists e. split; [done|]. split; [done|]. split; [done|]. split; [|done].
    unfold uevent_type_count. cbn [u_events set_events]. rewrite (count_insert _ _ e) by (done || congruence). lia.
  - apply uwp_ret. split; [|done]. exact (ring_full _ _ (ni_new _ Hu) (ni_events _ Hu) E).
Qed.

(** the event loop ends: [uevent_cycle] comes to its end within one turn of
    the event table, whatever the handlers do, and keeps the invariant. *)
Theorem uevent_cycle_ends `{!CallbacksSafe} u :
  net_inv u → uwp uevent_cycle u (λ b u', b = true ∧ net_inv u').
Proof. apply wp_uevent_cycle. Qed.

(** from cursor 0 the loop stops at slot 4095: the unsigned [event_idx - 1]
    wraps to 2^32 - 1, whose remainder by 20480 is 4095, so the other 16384
    slots are not visited in that call; from any other cursor the loop covers
    all slots but the one before the cursor. *)
Theorem uevent_cycle_range i :
  0 ≤ i < UNET_MAX_EVENTS →
  cycle_end 0 = 4095 ∧ (i ≠ 0 → cycle_end i = i - 1).
Proof.
  intros Hi. split; [done|]. intros Hne. unfold cycle_end. unfold UNET_MAX_EVENTS in *.
  rewrite u32_small by lia. apply Z.mod_small. lia.
Qed.
End events.

(** ** The cycle *)
Section cycle.
Context `{Net}.

(** C14: memory safety.  When the callbacks of the services keep the tables and
    the limit of descriptors is at most the 1024 of an [fd_set], the main I/O
    cycle (events, idle sockets, reading, writing, accepting), from a state
    whose tables have their shape and whose listening sockets are not below
    zero, never goes through a null table, an entry before or behind a table or
    behind a descriptor set, for any replies of the system, and ends in such a
    state. *)
Theorem unet_cycle_safe `{!CallbacksSafe} u : n_max_fd ≤ FD_SETSIZE →
  net_inv u → uwp unet_cycle u (λ _ u', net_inv u').
Proof. apply wp_unet_cycle. Qed.

(** The limit is needed: a service connection on a descriptor that a set does
    not hold, and that is not about to be closed, makes the cycle write behind
    the sets. *)
Lemma fd_set_overflow u fd l r w : net_inv u → FD_SETSIZE ≤ fd < n_max_fd → has_flag (d_flag (slot u fd)) DF_SERVICE = true →
  has_flag (d_flag (slot u fd)) DF_SHUTDOWN = false → mark_loop (fd :: l) r w u = None.
Proof.
  intros Hu Hfd Hs Hsh. unfold FD_SETSIZE in Hfd. cbn [mark_loop]. unfold mbind, U_bind. rewrite get_table_eq by (done || lia).
  destruct (Z.eqb_spec (d_flag (slot u fd)) 0) as [E|E]; [by rewrite E in Hs|]. rewrite Hsh, andb_false_r, Hs. cbn [andb negb].
  by rewrite (proj2 (Z.leb_le FD_SETSIZE fd)) by (unfold FD_SETSIZE; lia).
Qed.

(** The bytes waiting in the write queue of a descriptor. *)
Definition queued (u : net_st) (fd : Z) : list byte :=
  default [] (data (default shbuf_init (d_wbuff (slot u fd)))).

Lemma mark_wbuff max now fd dt d dt' k : descriptor_mark max now fd dt = Some (d, dt') →
  d_wbuff (dt_slot (dt_alloc dt') k) = d_wbuff (dt_slot (dt_alloc dt) k).
Proof.
  unfold descriptor_mark. destruct (max <=? fd); [by intros [= _ <-]|]. destruct (fd <? 0); [done|]. cbv zeta.
  destruct (d_flag _ =? 0); intros [= _ <-]; [done|]. unfold dt_put, dt_alloc. cbn [dt_table default from_option id].
  rewrite dt_slot_insert. by case_decide; subst.
Qed.

Lemma desc_mark_slots u fd : net_inv u → 0 ≤ fd →
  uwp (desc_mark fd) u (λ _ u', ∀ k, d_wbuff (slot u' k) = d_wbuff (slot u k)).
Proof.
  intros Hu Hfd. unfold desc_mark. destruct (n_max_fd <=? fd); [by apply uwp_ret|].
  apply uwp_bind, uwp_ask, uwp_bind, uwp_get. cbn [u_desc log_act].
  destruct (mark_table n_max_fd (n_int (u_hist u) ATime) fd _ Hfd (ni_table _ Hu)) as (d & dt & E & _). rewrite E.
  apply uwp_umod. intros k. by eapply mark_wbuff.
Qed.

(** C15: no byte is lost or sent twice.  After [unet_write] of [new] bytes to a
    service socket and a turn of output, the bytes the socket took followed by
    the bytes still queued are the old queue followed by [new]; no other
    queue changes. *)
Theorem write_stream u fd new :
  net_inv u → 0 ≤ fd < n_max_fd → has_flag (d_flag (slot u fd)) DF_SERVICE = true → new ≠ [] →
  shbuf_wf (default shbuf_init (d_wbuff (slot u fd))) →
  zlen (queued u fd) + zlen new + 1 < 2 ^ 31 - 32768 → (∀ n, heap_ok n = true) →
  let all := queued u fd ++ new in
  let w_len := n_int (u_hist u) (AWrite fd all) in
  0 ≤ w_len ≤ zlen all →
  uwp (_ ← unet_write fd new; io_write fd) u (λ _ u',
    take (Z.to_nat w_len) all ++ queued u' fd = all ∧ ∀ k, k ≠ fd → queued u' k = queued u k).
Proof.
  intros Hu Hfd Hfl Hnew Hwf Hlen Hh all w_len Hw.
  assert (Hf0 : d_flag (slot u fd) ≠ 0) by by intros E; rewrite E in Hfl.
  unfold unet_write. destruct (Z.eqb_spec (zlen new) 0); [by destruct new|].
  apply uwp_bind, uwp_bind. unfold uwp at 1. rewrite get_table_eq by done.
  destruct (Z.eqb_spec (d_flag (slot u fd)) 0); [done|]. rewrite Hfl. cbn [negb].
  set (wb := shbuf_cat (default shbuf_init (d_wbuff (slot u fd))) new).
  assert (Hwb : data wb = Some all) by (apply shbuf_cat_data; done).
  apply uwp_bind. unfold uwp at 1, desc_lift, descriptor_wbuff_add.
  destruct (Z.leb_spec n_max_fd fd); [lia|]. destruct (Z.leb_spec (zlen new) 0); [lia|].
  destruct (Z.ltb_spec fd 0); [lia|]. destruct (ni_table _ Hu) as [t Ht]. rewrite Ht. assert (Hst : dt_slot t fd = slot u fd).
  { unfold slot, dt_alloc. by rewrite Ht. }
  rewrite Hst. destruct (Z.eqb_spec (d_flag (slot u fd)) 0); [done|]. fold wb. apply uwp_ret.
  set (d1 := Desc _ _ _ _ _ _ (Some wb) _). set (u1 := set_desc (dt_put (u_desc u) fd d1) u).
  assert (Hs1 : ∀ k, slot u1 k = if decide (fd = k) then d1 else slot u k) by apply slot_put.
  unfold io_write. apply uwp_bind, uwp_get. rewrite (proj2 (Z.ltb_ge fd 0)) by lia. cbv zeta. fold (slot u1 fd). rewrite Hs1, decide_True by done.
  cbn [d_wbuff d1]. unfold shbuf_size, data_of. rewrite Hwb. cbn [default from_option id].
  assert (Hall : zlen all ≠ 0) by (unfold all; rewrite length_app; lia).
  destruct (Z.eqb_spec (zlen all) 0); [done|]. apply uwp_bind, uwp_ask. fold w_len. cbn [u_hist u1 set_desc].
  fold w_len. destruct (Z.ltb_spec w_len 0); [lia|].
  assert (Hq1 : queued u1 fd = all).
  { unfold queued. rewrite Hs1, decide_True by done. change (default shbuf_init (d_wbuff d1)) with wb. by rewrite Hwb. }
  assert (Hqk : ∀ k, k ≠ fd → queued u1 k = queued u k).
  { intros k Hk. unfold queued. by rewrite Hs1, decide_False by congruence. }
  destruct (Z.ltb_spec 0 w_len).
  - apply uwp_bind. unfold desc_put. rewrite (proj2 (Z.ltb_ge fd 0)) by lia. apply uwp_umod.
    eapply uwp_mono; [apply desc_mark_slots; [by destruct Hu|lia]|]. intros ? u2 Hs2. cbn beta in Hs2.
    assert (Hq2 : ∀ k, queued u2 k = default [] (data (default shbuf_init (d_wbuff
      (if decide (fd = k) then with_wbuff d1 (shbuf_trim wb w_len) else slot u1 k))))).
    { intros k. unfold queued. by rewrite Hs2, slot_put. }
    rewrite Hq2, decide_True by done. split.
    + change (default shbuf_init (Some ?b)) with b. cbn [d_wbuff with_wbuff default from_option id].
      rewrite (shbuf_trim_data wb w_len all Hwb).
      * cbn [default]. apply take_drop.
      * unfold MAX_SHBUF_SIZE, queued in *. unfold all in Hw. rewrite length_app in Hw. unfold queued in Hw. lia.
    + intros k Hk. rewrite Hq2, decide_False by congruence. apply Hqk, Hk.
  - apply uwp_ret. replace (Z.to_nat w_len) with 0%nat by lia. split; [exact Hq1|]. apply Hqk.
Qed.
End cycle.

(** ** Accepting *)
Section accept.
Context `{Net} `{!CallbacksSafe} `{!CallbacksCalm}.

(** Only the history grew. *)
Record same (u u' : net_st) : Prop := {
  sa_desc : u_desc u' = u_desc u;
  sa_bind : u_bind u' = u_bind u;
  sa_events : u_events u' = u_events u;
  sa_local : u_local u' = u_local u;
}.
#[global] Instance same_preorder : PreOrder same.
Proof. split; [by split|]. intros u1 u2 u3 [] []. split; congruence. Qed.



Lemma elem_of_all_fds sk : sk ∈ all_fds ↔ 0 < sk < n_max_fd.
Proof. unfold all_fds. rewrite elem_of_seqZ. lia. Qed.






End accept.

(** ** Closing a service *)
Section unbind.
Context `{Net} `{!CallbacksSafe} `{!CallbacksCalm}.

(** No new service connection, and the services as they were. *)
Record shrinks (mode : Z) (u u' : net_st) : Prop := {
  sh_inv : net_inv u';
  sh_serves k : serves mode u' k → serves mode u k;
  sh_bind : u_bind u' = u_bind u;
}.

Lemma wp_release_slots fd u :
  net_inv u → 0 ≤ fd → uwp (desc_release fd) u (λ _ u', net_inv u' ∧ u_bind u' = u_bind u ∧
    ∀ k, slot u' k = if decide (fd = k ∧ fd < n_max_fd) then null_desc else slot u k).
Proof.
  intros Hu Hfd. pose proof (safe_desc_release fd Hfd u Hu) as Hs. unfold desc_release in *.
  destruct (Z.leb_spec n_max_fd fd) as [Hle|Hlt].
  { apply uwp_ret. split; [done|]. split; [done|]. intros k. rewrite decide_False by lia. done. }
  assert (Hslot : ∀ u1 dt b, u_desc u1 = u_desc u → descriptor_release n_max_fd b fd (u_desc u) = Some (dt, true) ∨
    descriptor_release n_max_fd b fd (u_desc u) = Some (dt, false) →
    ∀ k, slot (set_desc dt u1) k = if decide (fd = k ∧ fd < n_max_fd) then null_desc else slot u k).
  { intros u1 dt b E Hd k. unfold descriptor_release in Hd. destruct (Z.leb_spec n_max_fd fd); [lia|]. rewrite (proj2 (Z.ltb_ge fd 0) Hfd) in Hd.
    assert (dt = DTab (dt_table (dt_put (u_desc u) fd null_desc)) (dt_claim (u_desc u)) (dt_mark (u_desc u))
      (u64 (dt_release (u_desc u) + 1))) as -> by (destruct Hd as [[= <- _]|[= <- _]]; done).
    unfold slot, dt_put, dt_alloc. cbn [u_desc set_desc dt_table default from_option id].
    rewrite dt_slot_insert. repeat case_decide; (done || lia). }
  apply uwp_bind, uwp_ask, uwp_bind, uwp_get. unfold uwp, mbind, U_bind, ask, uget in Hs. cbn [u_desc log_act] in *.
  set (kind := n_stat _ fd) in *. destruct (descriptor_release n_max_fd kind fd (u_desc u)) as [[dt []]|] eqn:E; [| |done].
  - apply uwp_bind, uwp_umod, uwp_umod. destruct Hs as (Hu' & _). split; [exact Hu'|]. split; [done|].
    intros k. apply (Hslot (log_act (AStat fd) u) dt kind); [done|by left].
  - apply uwp_bind, uwp_umod, uwp_ret. destruct Hs as (Hu' & _). split; [exact Hu'|]. split; [done|].
    intros k. apply (Hslot (log_act (AStat fd) u) dt kind); [done|by right].
Qed.

Lemma null_serves mode : ¬ (d_flag null_desc ≠ 0 ∧ d_mode null_desc = mode ∧ has_flag (d_flag null_desc) DF_SERVICE = true).
Proof. by intros [? _]. Qed.

Lemma wp_close_shrinks mode sk u :
  net_inv u → 0 ≤ sk < n_max_fd →
  uwp (unet_close sk) u (λ _ u', shrinks mode u u' ∧ (d_flag (slot u sk) ≠ 0 → ¬ serves mode u' sk)).
Proof.
  intros Hu Hsk. unfold unet_close. apply uwp_bind. unfold uwp at 1. rewrite get_table_eq by done.
  destruct (Z.eqb_spec (d_flag (slot u sk)) 0); [by apply uwp_ret|]. set (d := slot u sk).
  apply uwp_bind. eapply uwp_mono with (Q := λ _ u', u' = u).
  { unfold unet_bind_table. destruct (bad_mode _); [by apply uwp_ret|]. done. }
  intros ob u0 ->. apply uwp_bind. eapply uwp_mono with (Q := λ _ u', net_inv u' ∧ calm u u').
  { destruct ob as [b|]; [|by apply uwp_ret]. destruct (b_op_close b); [|by apply uwp_ret].
    pose proof (safe_call_close (d_mode d) sk (d_net_addr d) u Hu) as Hs. unfold call_close, act in *.
    apply uwp_bind, uwp_umod, uwp_umod. destruct Hs as (Hu' & _). split; [exact Hu'|].
    etrans; [|exact (cb_close_calm (d_mode d) sk (d_net_addr d) (log_act (ACallClose (d_mode d) sk (d_net_addr d)) u))]. by split. }
  intros _ u1 [Hu1 Hc1]. apply uwp_bind, uwp_ask. apply uwp_bind.
  eapply uwp_mono; [apply wp_release_slots; [by apply net_inv_log|lia]|]. intros _ u2 (Hu2 & Hb2 & Hs2). apply uwp_ret.
  assert (Hsv : ∀ k, serves mode u2 k → k ≠ sk ∧ serves mode u k).
  { intros k Hk. unfold serves in Hk. rewrite Hs2 in Hk. case_decide as Hd; [by apply null_serves in Hk|].
    split; [lia|]. by apply (serves_calm _ _ _ _ Hc1). }
  split; [split; [done|intros k Hk; by apply Hsv|]|intros _ Hk; by apply Hsv in Hk as [? _]].
  rewrite Hb2. apply (ca_bind _ _ Hc1).
Qed.

Lemma wp_close_mode mode sk u :
  net_inv u → 0 ≤ sk < n_max_fd →
  uwp (close_mode mode sk) u (λ _ u', shrinks mode u u' ∧ ¬ serves mode u' sk).
Proof.
  intros Hu Hsk. unfold close_mode. apply uwp_bind. unfold uwp at 1. rewrite get_table_eq by done.
  destruct (Z.eqb_spec (d_flag (slot u sk)) 0); [apply uwp_ret; split; [done|by intros [? _]]|].
  destruct (Z.eqb_spec (d_mode (slot u sk)) mode); cbn [negb];
    [|apply uwp_ret; split; [done|by intros (_ & ? & _)]].
  destruct (has_flag (d_flag (slot u sk)) DF_SERVICE) eqn:E; cbn [negb];
    [|apply uwp_ret; split; [done|intros (_ & _ & ?); congruence]].
  apply uwp_bind. eapply uwp_mono; [by apply (wp_close_shrinks mode)|]. intros r u1 [Hs Hn]. apply uwp_ret. auto.
Qed.

Lemma wp_close_all mode l u :
  net_inv u → Forall (λ sk, 0 ≤ sk < n_max_fd) l →
  uwp (for_each l (close_mode mode)) u (λ _ u', shrinks mode u u' ∧ ∀ sk, sk ∈ l → ¬ serves mode u' sk).
Proof.
  intros Hu Hl. revert u Hu. induction Hl as [|sk l Hsk Hl IH]; intros u Hu; cbn [for_each].
  { apply uwp_ret. split; [done|]. intros sk Hsk. by apply elem_of_nil in Hsk. }
  apply uwp_bind. eapply uwp_mono; [by apply wp_close_mode|]. intros _ u1 [Hs1 Hn1].
  eapply uwp_mono; [apply IH, Hs1|]. intros _ u2 [Hs2 Hn2]. split.
  - split; [apply Hs2|intros k Hk; by apply (sh_serves _ _ _ Hs1), (sh_serves _ _ _ Hs2)|].
    rewrite (sh_bind _ _ _ Hs2). apply (sh_bind _ _ _ Hs1).
  - intros k [->|Hk]%elem_of_cons; [|by apply Hn2]. intros Hk. by apply Hn1, (sh_serves _ _ _ Hs2).
Qed.

(** closing a service.  After [unet_unbind] no connection of the service is
    left in the descriptor table, its listening socket is released, and the
    service is unbound with its peer database closed. *)
Theorem unbind_closes u mode b :
  net_inv u → bad_mode mode = false → u_bind u !! Z.to_nat mode = Some b → b_fd b ≠ UNDEFINED_SOCKET →
  uwp (unet_unbind mode) u (λ _ u', (∀ sk, 0 < sk < n_max_fd → ¬ serves mode u' sk) ∧
    (b_fd b < n_max_fd → slot u' (b_fd b) = null_desc) ∧
    ∃ b', u_bind u' !! Z.to_nat mode = Some b' ∧ b_fd b' = UNDEFINED_SOCKET ∧ b_peer_db b' = false).
Proof.
  intros Hu Hb Hbm Hfd. pose proof (Forall_lookup_1 _ _ _ _ (ni_fds _ Hu) Hbm) as Hbf; cbn beta in Hbf. unfold unet_unbind.
  assert (Hat : ∀ u1 b1, u_bind u1 !! Z.to_nat mode = Some b1 → bind_at mode u1 = Some (b1, u1)).
  { intros u1 b1 E. unfold bind_at. by rewrite Hb, E. }
  apply uwp_bind. unfold uwp at 1. rewrite (Hat u b Hbm). destruct (Z.eqb_spec (b_fd b) UNDEFINED_SOCKET); [done|].
  assert (Hlt : (Z.to_nat mode < length (u_bind u))%nat) by by eapply lookup_lt_Some.
  apply uwp_bind. eapply uwp_mono with (Q := λ _ u', net_inv u' ∧ u_desc u' = u_desc u ∧
    ∃ b', u_bind u' !! Z.to_nat mode = Some b' ∧ b_fd b' = b_fd b).
  { pose proof (safe_thread_free mode u Hu) as Hs. unfold unet_thread_free, unet_bind_table in *. rewrite Hb in *.
    unfold uwp, mbind, U_bind in *. rewrite Hbm in *. destruct (negb _); [split; [done|]; split; [done|]; by exists b|].
    destruct Hs as (Hu' & _). split; [exact Hu'|]. split; [done|]. exists (bind_timer b 0).
    cbn [u_bind log_act set_bind]. by rewrite list_lookup_insert_eq. }
  intros _ u1 (Hu1 & _ & b1 & Hb1 & Hfd1). unfold unet_close_all. apply uwp_bind, uwp_bind.
  eapply uwp_mono; [apply (wp_close_all mode all_fds u1 Hu1)|].
  { apply Forall_forall. intros sk Hsk%elem_of_all_fds. lia. }
  intros _ u2 [Hs2 Hn2]. apply uwp_ret. apply uwp_bind. unfold uwp at 1.
  rewrite <-(sh_bind _ _ _ Hs2) in Hb1. rewrite (Hat u2 b1 Hb1), Hfd1.
  apply uwp_bind. eapply uwp_mono; [by apply wp_release_slots; [apply Hs2|]|]. intros _ u3 (Hu3 & Hbd3 & Hs3).
  apply uwp_bind. eapply uwp_mono with (Q := λ _ u', u_bind u' = u_bind u3 ∧ u_desc u' = u_desc u3).
  { destruct (b_peer_db b1); [by apply uwp_umod|by apply uwp_ret]. }
  intros _ u4 [Hb4 Hd4]. apply uwp_bind. unfold uwp at 1.
  rewrite <-Hbd3, <-Hb4 in Hb1. rewrite (Hat u4 b1 Hb1). apply uwp_bind, uwp_umod, uwp_ret.
  assert (Hslot : ∀ k, slot (set_bind (<[Z.to_nat mode := UBind _ UNDEFINED_SOCKET (b_flag b1) (b_port b1) (b_scan_freq b1)
    (b_timer_stamp b1) (b_scan_stamp b1) false (b_fl_timer b1) (b_op_timer b1) (b_op_accept b1) (b_op_close b1)]> (u_bind u4)) u4) k = slot u3 k).
  { intros k. unfold slot. cbn [u_desc set_bind]. by rewrite Hd4. }
  split; [|split].
  - intros sk Hsk Hsv. unfold serves in Hsv. rewrite Hslot, Hs3 in Hsv.
    case_decide; [by apply null_serves in Hsv|]. apply (Hn2 sk); [by apply elem_of_all_fds|done].
  - intros Hm. rewrite Hslot, Hs3. by rewrite decide_True.
  - eexists. cbn [u_bind set_bind]. rewrite list_lookup_insert_eq; [done|]. by eapply lookup_lt_Some.
Qed.
End unbind.

(** ** Instances

    A system on which every call succeeds: sockets are numbered 3 and 4, a
    write takes two bytes. *)
Definition net_demo : Net := {|
  n_max_fd := 1024; n_heap := λ _, true;
  n_freq := unit; n_freq_zero := tt; n_freq_init := tt; n_freq_up := id; n_freq_down := id;
  n_peer_wait := λ _ _ _, false;
  n_time_after := λ t base ms, base + ms <? t; n_time_before := λ base ms t, base + ms <? t;
  n_int := λ _ a, match a with ASocket => 3 | AAccept _ => 4 | AWrite _ _ => 2 | ATime | AClock => 100 | _ => 0 end;
  n_stat := λ _ _, KSock (Some null_addr);
  n_addr := λ _ fd, le_enc 4 fd;
  n_read := λ _ _, inr [];
  n_select := λ _, (1, λ _, true, λ _, false);
  n_junk := λ _, 0;
  n_shpeer_addr := λ p, take 4 p;
  n_shpeer_init := λ _ a, a;
  n_netaddr_str := λ a, pretty (Z.to_N (le_dec a));
  n_hostname_str := λ a, pretty (Z.to_N (le_dec a));
  n_verify_fd := λ _, 6;
  n_db_open := λ _ _, true;
  n_peer_scan := λ _ _, Some []; n_peer_list := λ _ _, Some [];
  n_seeds := λ _ _, []; n_opt_seed := true;
  n_cb_accept := λ _ _ _ u, u; n_cb_close := λ _ _ _ u, u; n_cb_timer := λ _ u, u;
|}.

#[global] Instance demo_safe : @CallbacksSafe net_demo.
Proof. split; intros; intros u Hu; by apply uwp_umod. Qed.
#[global] Instance demo_calm : @CallbacksCalm net_demo.
Proof. by split. Qed.

(** The start-up state with an allocated descriptor table, in which service 1
    listens on socket 3 and has a connection on socket 5. *)
Definition demo_desc : dtab :=
  DTab (Some (<[5 := Desc 1 6 0 100 0 None None null_addr]> (<[3 := Desc 1 66 0 100 0 None None null_addr]> ∅))) 2 0 0.
Definition demo_bind : @unet_bind_t unit := UBind _ 3 16 7000 tt 0 100 true 3 false true true.
Definition u_demo : @ust unit :=
  UST _ demo_desc (<[1%nat := demo_bind]> (replicate 32 (@null_bind net_demo)))
    (replicate (Z.to_nat UNET_MAX_EVENTS) null_event) 0 0 0 0 ["127.0.0.1"%string] [].

Lemma u_demo_inv : @net_inv net_demo u_demo.
Proof.
  split; cbn [u_demo u_bind u_events u_cur_idx u_new_idx u_desc].
  - done.
  - apply length_replicate.
  - by apply Forall_replicate.
  - done.
  - done.
  - done.
  - apply Forall_insert; [by apply Forall_replicate|done].
Qed.

Lemma uevent_new_spec_witness :
  @uwp net_demo _ (@uevent_new net_demo 1 UEVENT_PEER_VERIFY (Some [x01])) u_demo (λ r u',
    match r with
    | Some idx => ∃ e, u_events u_demo !! Z.to_nat idx = Some e ∧ e_type e = 0 ∧
        u_events u' = <[Z.to_nat idx := Uevent 1 (e_flag e) UEVENT_PEER_VERIFY (e_fd e) (Some [x01])]> (u_events u_demo) ∧
        @uevent_type_count net_demo UEVENT_PEER_VERIFY u' = @uevent_type_count net_demo UEVENT_PEER_VERIFY u_demo + 1 ∧
        u_desc u' = u_desc u_demo ∧ u_bind u' = u_bind u_demo
    | None => Forall (λ e, e_type e ≠ 0) (u_events u_demo) ∧ u' = u_demo
    end).
Proof. apply (@uevent_new_spec net_demo u_demo 1 UEVENT_PEER_VERIFY [x01] u_demo_inv). done. Defined.

Lemma uevent_cycle_ends_witness :
  @uwp net_demo _ (@uevent_cycle net_demo) u_demo (λ b u', b = true ∧ @net_inv net_demo u').
Proof. apply (@uevent_cycle_ends net_demo demo_safe u_demo u_demo_inv). Defined.

Lemma uevent_cycle_range_witness : cycle_end 0 = 4095 ∧ (7 ≠ 0 → cycle_end 7 = 7 - 1).
Proof. apply (uevent_cycle_range 7). done. Defined.

Lemma unet_cycle_safe_witness :
  @uwp net_demo _ (@unet_cycle net_demo) u_demo (λ _ u', @net_inv net_demo u').
Proof. apply (@unet_cycle_safe net_demo demo_safe u_demo); [done|exact u_demo_inv]. Defined.

Lemma write_stream_witness :
  @uwp net_demo _ (_ ← @unet_write net_demo 5 [x01; x02; x03]; @io_write net_demo 5) u_demo (λ _ u',
    take (Z.to_nat 2) [x01; x02; x03] ++ @queued net_demo u' 5 = [x01; x02; x03] ∧
    ∀ k, k ≠ 5 → @queued net_demo u' k = @queued net_demo u_demo k).
Proof.
  apply (@write_stream net_demo u_demo 5 [x01; x02; x03] u_demo_inv); try done; vm_compute; done.
Defined.


Lemma unbind_closes_witness :
  @uwp net_demo _ (@unet_unbind net_demo 1) u_demo (λ _ u',
    (∀ sk, 0 < sk < 1024 → ¬ @serves net_demo 1 u' sk) ∧ (3 < 1024 → @slot net_demo u' 3 = null_desc) ∧
    ∃ b', u_bind u' !! Z.to_nat 1 = Some b' ∧ b_fd b' = UNDEFINED_SOCKET ∧ b_peer_db b' = false).
Proof.
  apply (@unbind_closes net_demo demo_safe demo_calm u_demo 1 demo_bind u_demo_inv); done.
Defined.
