(* ===== verification/ShmapThm.v ===== *)
(** * Theorems on the hash map *)

From S2P Require Import Prelude Errors Shbuf Crc Links Shmap ShmapInv ShmapOps ShmapSpec ShmapFree.

(** ** Requests and the finite map that answers them *)
Inductive mreq :=
  | MSet (key : list byte) (map_flag val : Z) (src : list byte) (val_size : Z)
  | MGet (key : list byte)
  | MCount.
Inductive mres :=
  | RErr (e : Z)
  | RNone
  | RWord (flag w : Z)
  | RBlock (flag : Z) (l : list byte)
  | RNum (n : Z).

Section run.
Context `{Heap}.

(** A caller that reads a copied value goes through the pointer it is given. *)
Definition run_req (r : mreq) : H mres :=
  match r with
  | MSet k f v src sz => e ← shmap_set_ent (Some k) f v src sz; mret (RErr e)
  | MGet k =>
     r ← shmap_get_ent (Some k);
     if r.1 =? 0 then mret RNone
     else if Z.testbit r.2 0 then l ← sopt (λ s, hs_blks s !! r.1); mret (RBlock r.2 l)
     else mret (RWord r.2 r.1)
  | MCount => n ← shmap_count; mret (RNum n)
  end.
Fixpoint run_reqs (l : list mreq) : H (list mres) :=
  match l with [] => mret [] | r :: l => x ← run_req r; xs ← run_reqs l; mret (x :: xs) end.
End run.

Definition map_req (r : mreq) (m : gmap (list byte) aval) : mres * gmap (list byte) aval :=
  match r with
  | MSet k f v src sz => (RErr 0, set_map k f v src sz m)
  | MGet k =>
     (match m !! k with
      | None => RNone
      | Some (AVal f _ (inl w)) => RWord f w
      | Some (AVal f _ (inr b)) => RBlock f b
      end, m)
  | MCount => (RNum (u32 (Z.of_nat (size m))), m)
  end.
Fixpoint map_reqs (l : list mreq) (m : gmap (list byte) aval) : list mres * gmap (list byte) aval :=
  match l with
  | [] => ([], m)
  | r :: l => let '(x, m) := map_req r m in let '(xs, m) := map_reqs l m in (x :: xs, m)
  end.

(** The bytes to copy are there. *)
Definition req_ok (r : mreq) : Prop :=
  match r with
  | MSet _ f _ src sz => Z.testbit f 0 = true → 0 ≤ sz ≤ zlen src ∧ sz < 2 ^ 64
  | _ => True
  end.

Definition mem0 : hst := HSt ∅ ∅ 1 None.

Section thm.
Context `{HeapOk}.

Lemma run_req_spec r s ext m : shmap_ok s ext m → req_ok r →
  swp (run_req r) s (λ x s', x = (map_req r m).1 ∧ shmap_ok s' ext (map_req r m).2).
Proof.
  intros Hok Hr. destruct r as [k f v src sz|k|]; cbn [run_req map_req fst snd].
  - apply swp_bind. eapply swp_mono; [apply set_ent_spec; [exact Hok|intros Hf; apply Hr; by apply Is_true_eq_true]|].
    intros e s' [-> Hok']. by apply swp_ret.
  - destruct Hok as (t & chs & fr & Ht & Hsh & Hco & Hcnt). apply swp_bind.
    eapply swp_mono; [by eapply get_ent_spec|]. intros [p f] s' [-> Hp].
    assert (shmap_ok s ext m) as Hok by (by exists t, chs, fr).
    destruct (m !! k) as [[fl sz [w|b]]|] eqn:Em; cbn [fst snd a_flag a_data] in *.
    + destruct Hp as (-> & Hp0 & -> & Hf). rewrite (proj2 (Z.eqb_neq _ 0) Hp0), Hf. by apply swp_ret.
    + destruct Hp as (-> & Hp0 & Hb & Hf). rewrite (proj2 (Z.eqb_neq _ 0) Hp0), Hf. apply swp_bind.
      eapply swp_opt; [done|]. by apply swp_ret.
    + injection Hp as -> ->. by apply swp_ret.
  - pose proof Hok as (t & chs & fr & Ht & Hsh & Hco & Hcnt). apply swp_bind, swp_gets, swp_ret.
    split; [|done]. rewrite Ht, Hcnt. do 3 f_equal. by eapply nodes_size.
Qed.

Lemma run_reqs_spec l s ext m : shmap_ok s ext m → Forall req_ok l →
  swp (run_reqs l) s (λ xs s', xs = (map_reqs l m).1 ∧ shmap_ok s' ext (map_reqs l m).2).
Proof.
  intros Hok Hl. revert s m Hok. induction Hl as [|r l Hr Hl IH]; intros s m Hok; cbn [run_reqs map_reqs].
  - by apply swp_ret.
  - apply swp_bind. eapply swp_mono; [by apply run_req_spec|]. intros x s1 [-> Hok1].
    destruct (map_req r m) as [x m1]. cbn [fst snd] in *. apply swp_bind. eapply swp_mono; [by apply IH|].
    intros xs s2 [-> Hok2]. apply swp_ret. by destruct (map_reqs l m1).
Qed.

Lemma init_ok : swp shmap_init mem0 (λ _ s', shmap_ok s' ∅ ∅).
Proof.
  apply init_spec; try done. intros p [? Hp]. by rewrite lookup_empty in Hp.
Qed.

Lemma new_map_run l : Forall req_ok l →
  ∃ s', (_ ← shmap_init; run_reqs l) mem0 = Some ((map_reqs l ∅).1, s') ∧ shmap_ok s' ∅ (map_reqs l ∅).2.
Proof.
  intros Hl. assert (swp (_ ← shmap_init; run_reqs l) mem0
    (λ xs s', xs = (map_reqs l ∅).1 ∧ shmap_ok s' ∅ (map_reqs l ∅).2)) as Hrun.
  { apply swp_bind. eapply swp_mono; [apply init_ok|]. intros ? s Hok. by apply run_reqs_spec. }
  apply swp_run in Hrun as (xs & s' & E & -> & Hok). eauto.
Qed.

(** C3: A new hash map answers every sequence of sets, removals, searches and
    counts exactly as a finite map from keys to values does, through collisions,
    recycled entries and expansions of the array, without a fault. *)
Theorem shmap_refines l : Forall req_ok l →
  ∃ s', (_ ← shmap_init; run_reqs l) mem0 = Some ((map_reqs l ∅).1, s') ∧ shmap_ok s' ∅ (map_reqs l ∅).2.
Proof. apply new_map_run. Qed.

(** C28: Releasing a map that was filled by any sequence of requests frees every
    entry, every recycled entry and every copied value exactly once, and leaves
    the blocks of other owners alone. *)
Theorem shmap_free_all s ext m : shmap_ok s ext m →
  ∃ s', shmap_free s = Some (tt, s') ∧ hs_map s' = None ∧ hs_ents s' = ∅ ∧ hs_blks s' = ext.
Proof.
  intros Hok. destruct (swp_run _ _ _ (free_spec s ext m Hok)) as ([] & s' & E & ? & ? & ? & _). eauto 10.
Qed.

(** A map that is written to a buffer, released and read into a new map is
    the same map, less the values that are not copies or are empty: keys, flags,
    sizes and bytes all survive. *)
Theorem shmap_print_load now p s ext m : shmap_ok s ext m → printable now m → 0 < p →
  ∃ s', (buff ← shmap_print now shbuf_init; _ ← shmap_free; _ ← shmap_init; shmap_load p (Some buff)) s = Some (tt, s') ∧
    shmap_ok s' ext (filter storable m).
Proof.
  intros Hok Hpr Hp.
  assert (swp (buff ← shmap_print now shbuf_init; _ ← shmap_free; _ ← shmap_init; shmap_load p (Some buff)) s
    (λ _ s', shmap_ok s' ext (filter storable m))) as Hrun.
  { apply swp_bind. eapply swp_mono; [by apply print_spec|]. intros b s1 (Hok1 & L & HL & Hd).
    apply swp_bind. eapply swp_mono; [by eapply free_spec|]. intros ? s2 (_ & He & Hb & Hbrk & Hext).
    apply swp_bind. eapply swp_mono; [by eapply init_spec|]. intros ? s3 Hok3. destruct Hpr as [Hv Hlen].
    eapply load_spec; [done..|]. rewrite (concat_Permutation_len _ _ _ HL). lia. }
  apply swp_run in Hrun as ([] & s' & E & Hok'). eauto.
Qed.
End thm.

(** ** The array's buckets *)
Lemma land_shifted h k : 0 ≤ h < 2 ^ 32 → 0 ≤ k →
  ∃ j, 0 ≤ j < 16 ∧ Z.land h (u32 (15 * 2 ^ k)) = u32 (j * 2 ^ k).
Proof.
  intros Hh Hk. exists (Z.land (Z.shiftr h k) 15). split.
  - split; [apply Z.land_nonneg; right; done|]. change 15 with (Z.ones 4). rewrite Z.land_ones by done.
    by apply Z.mod_pos_bound.
  - unfold u32. rewrite <-!Z.land_ones, <-!Z.shiftl_mul_pow2 by lia. apply Z.bits_inj'. intros n Hn.
    rewrite !Z.land_spec, !Z.shiftl_spec, Z.land_spec by lia. destruct (Z.ltb_spec n k) as [Hnk|Hnk].
    + rewrite !(Z.testbit_neg_r _ (n - k)) by lia. by rewrite !andb_false_l, andb_false_r.
    + rewrite Z.shiftr_spec by lia. replace (n - k + k) with n by lia. by rewrite <-andb_assoc.
Qed.

(** The indices of the entries in use. *)
Lemma used_indices (used : list nat) (l : list Z) (n : nat) :
  (∀ i p, l !! i = Some p → p ≠ 0 → (n + i)%nat ∈ used) →
  ∃ ix, length ix = length (filter (λ p : Z, p ≠ 0%Z) l) ∧ NoDup ix ∧ (∀ i, i ∈ ix → (n ≤ i)%nat ∧ i ∈ used).
Proof.
  revert n. induction l as [|p l IH]; intros n Hl.
  - exists []. split; [done|]. split; [constructor|]. intros i Hi. by apply elem_of_nil in Hi.
  - destruct (IH (S n)) as (ix & Hlen & Hnd & Hix).
    { intros i q Hi Hq. replace (S n + i)%nat with (n + S i)%nat by lia. by apply (Hl (S i) q). }
    rewrite filter_cons. destruct (decide (p ≠ 0)) as [Hp|Hp].
    + exists (n :: ix). simpl. split; [by rewrite Hlen|]. split.
      * constructor; [|done]. intros [? _]%Hix. lia.
      * intros i [->|Hi]%elem_of_cons; [|destruct (Hix i Hi); split; [lia|done]].
        split; [done|]. rewrite <-(Nat.add_0_r n). by apply (Hl 0%nat p).
    + exists ix. split_and!; [done..|]. intros i Hi. destruct (Hix i Hi). split; [lia|done].
Qed.

(** However often a map is expanded, at most 16 entries of its array are in
    use: the new size [max * 2] is not one less than a power of two, so the mask
    keeps four bits of the hash and the lists grow with the map. *)
Theorem shmap_buckets s ext m t : shmap_ok s ext m → hs_map s = Some t →
  (length (filter (λ p : Z, p ≠ 0%Z) (ht_array t)) ≤ 16)%nat.
Proof.
  intros (t' & chs & fr & Ht & Hsh & Hco & _) Et. rewrite Et in Ht. injection Ht as <-.
  destruct (sh_form _ _ _ _ Hsh) as (k & Hk & Emax).
  set (used := (λ j, Z.to_nat (u32 (Z.of_nat j * 2 ^ k))) <$> seq 0 16).
  assert (∀ i p, ht_array t !! i = Some p → p ≠ 0 → i ∈ used) as Hin.
  { intros i p Hi Hp. destruct (Forall2_lookup_l _ _ _ _ _ (sh_chains _ _ _ _ Hsh) Hi) as (l & Hl & Hc).
    destruct (chain_cons _ _ _ _ Hp Hc) as (e & l' & -> & He & _).
    destruct (bucket_node s t chs fr ext m Hsh Hco p e i _ Hl) as (key & _ & _ & _ & _ & _ & _ & ->); [left|done|].
    unfold bucket. rewrite Emax. destruct (land_shifted (shmap_hash_num key) k (hash_range key) Hk) as (j & Hj & ->).
    apply list_elem_of_fmap. exists (Z.to_nat j). split; [by rewrite Z2Nat.id by lia|]. apply elem_of_seq. lia. }
  destruct (used_indices used (ht_array t) 0) as (ix & <- & Hnd & Hix); [exact Hin|].
  assert (length used = 16%nat) as <- by (unfold used; by rewrite length_fmap, length_seq).
  apply submseteq_length, NoDup_submseteq; [done|]. intros i Hi. by apply Hix.
Qed.

(** A copy that cannot be allocated is reported, and nothing changes. *)
Lemma shmap_set_nomem `{Heap} s t key map_flag val src size :
  hs_map s = Some t → val ≠ 0 → Z.testbit map_flag 0 = true → heap_ok (u64 size) = false →
  shmap_set_ent (Some key) map_flag val src size s = Some (ERR_NOMEM, s).
Proof.
  intros Ht Hv Hf Hh. unfold shmap_set_ent, mbind, SM_bind, sget. rewrite Ht.
  rewrite ent_flag_alloc, Hf by done. unfold blk_alloc, ent_size. rewrite (proj2 (Z.eqb_neq _ 0) Hv), Hh. done.
Qed.

(** ** Instances *)
#[local] Instance heap_all : Heap := λ _, true.
#[local] Instance heap_all_ok : HeapOk.
Proof. done. Defined.

Definition demo_key (i : Z) : list byte := le_enc 32 i.
Definition demo_reqs : list mreq :=
  ((λ i, MSet (demo_key (Z.of_nat i)) SHMAP_ALLOC 7 (le_enc 3 (Z.of_nat i)) 3) <$> seq 0 40) ++
  [MSet (demo_key 3) 0 0 [] 0; MGet (demo_key 3); MGet (demo_key 20); MCount].

Lemma demo_reqs_ok : Forall req_ok demo_reqs.
Proof.
  unfold demo_reqs. apply Forall_app. split; [apply Forall_fmap, Forall_true|].
  - intros i _. cbn [req_ok]. rewrite length_le_enc. lia.
  - repeat constructor; try done.
Qed.

Lemma shmap_refines_witness : ∃ s', (_ ← shmap_init; run_reqs demo_reqs) mem0 = Some ((map_reqs demo_reqs ∅).1, s') ∧
  shmap_ok s' ∅ (map_reqs demo_reqs ∅).2.
Proof. apply (shmap_refines demo_reqs). apply demo_reqs_ok. Defined.

(** The memory after these requests. *)
Definition demo_map : gmap (list byte) aval := (map_reqs demo_reqs ∅).2.
Definition demo_st : hst :=
  match (_ ← shmap_init; run_reqs demo_reqs) mem0 with Some (_, s) => s | None => mem0 end.
Lemma demo_st_ok : shmap_ok demo_st ∅ demo_map.
Proof.
  destruct (new_map_run demo_reqs demo_reqs_ok) as (s' & E & Hok). unfold demo_st. by rewrite E.
Qed.

Lemma shmap_free_all_witness : ∃ s', shmap_free demo_st = Some (tt, s') ∧ hs_map s' = None ∧ hs_ents s' = ∅ ∧ hs_blks s' = ∅.
Proof. apply (shmap_free_all demo_st ∅ demo_map). apply demo_st_ok. Defined.

Lemma shmap_print_load_witness : ∃ s',
  (buff ← shmap_print 5 shbuf_init; _ ← shmap_free; _ ← shmap_init; shmap_load 4096 (Some buff)) demo_st = Some (tt, s') ∧
  shmap_ok s' ∅ (filter storable demo_map).
Proof.
  apply (shmap_print_load 5 4096 demo_st ∅ demo_map); [apply demo_st_ok| |done].
  apply (bool_decide_unpack _). by vm_compute.
Defined.

Lemma shmap_buckets_witness : ∃ t, hs_map demo_st = Some t ∧ ht_max t = 60 ∧ ht_count t = 39 ∧
  (length (filter (λ p : Z, p ≠ 0%Z) (ht_array t)) ≤ 16)%nat.
Proof.
  destruct (hs_map demo_st) as [t|] eqn:E; [|by vm_compute in E].
  exists t. split; [done|]. split; [|split].
  - vm_compute in E. by injection E as <-.
  - vm_compute in E. by injection E as <-.
  - apply (shmap_buckets demo_st ∅ demo_map t); [apply demo_st_ok|exact E].
Defined.
