(* ===== verification/ShaThm.v ===== *)
(** * Theorems on digests, keyed hashes and pins *)

From S2P Require Import Prelude Errors Crc Sha ShaSpec Hmac HmacSpec.

(** ** The standard

    The definition of the standard takes its constants and functions from the
    code. They are checked against what the standard says of them: the words are
    the first bits of the fractional parts of roots of the first primes, and the
    digests of the messages of its examples are those it gives. *)
Definition divides (d n : nat) : bool := (n mod d =? 0)%nat.
Definition primes (bound : nat) : list Z := Z.of_nat <$> List.filter (λ n, forallb (λ d, negb (divides d n)) (seq 2 (n - 2))) (seq 2 (bound - 2)).
(** The largest [r] of [b] bits more than [acc] with [r ^ k <= n]. *)
Fixpoint iroot (k n : Z) (b : nat) (acc : Z) : Z :=
  match b with
  | O => acc
  | S b => let r := acc + 2 ^ Z.of_nat b in iroot k n b (if r ^ k <=? n then r else acc)
  end.
(** The first [w] bits of the fractional part of the [k]th root of [p]. *)
Definition frac_root (k w p : Z) : Z := iroot k (p * 2 ^ (k * w)) (Z.to_nat w + 5) 0 mod 2 ^ w.
Example sha_constants : SHA256_K = frac_root 3 32 <$> take 64 (primes 420) ∧ SHA512_K = frac_root 3 64 <$> take 80 (primes 420) ∧
  SHA256_H0 = frac_root 2 32 <$> take 8 (primes 60) ∧ SHA512_H0 = frac_root 2 64 <$> take 8 (primes 60) ∧
  SHA384_H0 = frac_root 2 64 <$> take 8 (drop 8 (primes 60)) ∧ SHA224_H0 = (λ p, frac_root 2 64 p mod 2 ^ 32) <$> take 8 (drop 8 (primes 60)) ∧
  SHA1_K = (λ n, iroot 2 (n * 2 ^ 60) 32 0) <$> [2; 3; 5; 10].
Proof. split_and!; vm_compute; reflexivity. Qed.
Definition letters (n : nat) : list byte := (λ i, byte_of_Z (97 + Z.of_nat i)) <$> seq 0 n.
(** The message of two blocks: eight letters from each of the first fourteen. *)
Definition msg_two : list byte := concat ((λ i, take 8 (drop i (letters 21))) <$> seq 0 14).
Lemma SHS_computed k msg d : zlen msg < 2 ^ 32 → shsha (Sha 0 (CtxReset [] [])) (garbage 128) (kind_alg k) (Some msg) (zlen msg) = Some (0, d) → SHS k msg = d.
Proof. intros Hl E. rewrite shsha_spec in E by (done || (unfold garbage; rewrite length_replicate; destruct k; cbn; lia)). by injection E. Qed.
Example sha_vectors : Forall (λ x, SHS x.1.1 x.1.2 = be_enc (kind_size x.1.1) x.2) [
  (K1, letters 3, 0xa9993e364706816aba3e25717850c26c9cd0d89d); (K224, letters 3, 0x23097d223405d8228642a477bda255b32aadbce4bda0b3f7e36c9da7); (K256, letters 3, 0xba7816bf8f01cfea414140de5dae2223b00361a396177a9cb410ff61f20015ad); (K384, letters 3, 0xcb00753f45a35e8bb5a03d699ac65007272c32ab0eded1631a8b605a43ff5bed8086072ba1e7cc2358baeca134c825a7); (K512, letters 3, 0xddaf35a193617abacc417349ae20413112e6fa4e89a97ea20a9eeee64b55d39a2192992a274fc1a836ba3c23a3feebbd454d4423643ce80e2a9ac94fa54ca49f);
  (K1, msg_two, 0xa49b2446a02c645bf419f995b67091253a04a259); (K224, msg_two, 0xc97ca9a559850ce97a04a96def6d99a9e0e0e2ab14e6b8df265fc0b3); (K256, msg_two, 0xcf5b16a778af8380036ce59e7b0492370b249b11e8f07a51afac45037afee9d1); (K384, msg_two, 0x09330c33f71147e83d192fc782cd1b4753111b173b3b05d22fa08086e3b0f712fcc7c71a557e2db966c3e9fa91746039); (K512, msg_two, 0x8e959b75dae313da8cf4f72814fc143f8f7779c6eb9f7fa17299aeadb6889018501d289e4900f7e4331b99dec4b5433ac7d329eeb6dd26545e96e55b874be909)].
Proof. repeat (apply Forall_cons; split; [apply SHS_computed; [vm_compute; reflexivity|vm_compute; reflexivity]|]). by apply Forall_nil. Qed.

(** ** Digests *)

(** Writes of the pieces of a message, in order, stopping at an error. *)
Fixpoint write_all (sha : sh_sha_t) (pieces : list (list byte)) : option (Z * sh_sha_t) :=
  match pieces with
  | [] => Some (0, sha)
  | p :: pieces =>
     '(e, sha) ← shsha_write sha (Some p) (zlen p);
     if negb (e =? 0) then Some (e, sha) else write_all sha pieces
  end.

Lemma write_all_spec k sha msg pieces : sha_holds k sha msg → Forall (λ p : list byte, zlen p < 2 ^ 32) pieces →
  zlen (msg ++ concat pieces) < 2 ^ 61 →
  ∃ sha', write_all sha pieces = Some (0, sha') ∧ sha_holds k sha' (msg ++ concat pieces).
Proof.
  intros Hs Hp. revert sha msg Hs. induction Hp as [|p pieces Hp Hps IH]; intros sha msg Hs Hfit; cbn [write_all concat] in *.
  - exists sha. by rewrite app_nil_r.
  - rewrite (assoc_L (++)) in *.
    destruct (shsha_write_spec k sha msg p Hs) as (s1 & -> & Hs1); [done|rewrite length_app in Hfit; lia|].
    cbn [mbind option_bind negb Z.eqb]. by apply IH.
Qed.

(** C4: For each of the five algorithms, whatever the context's memory held
    before and however a message of less than 2^61 bytes is cut into writes of
    less than 2^32 bytes each (the code cuts longer ones), the result is the
    digest of the whole message by the Secure Hash Standard, and a
    second call of the result function returns it again. *)
Theorem sha_stream k ctx mem pieces : (kind_block k ≤ length mem)%nat →
  Forall (λ p : list byte, zlen p < 2 ^ 32) pieces → zlen (concat pieces) < 2 ^ 61 →
  ∃ s1 s2 s3, shsha_init ctx mem (kind_alg k) = (0, s1) ∧ write_all s1 pieces = Some (0, s2) ∧
    shsha_result s2 = Some (0, SHS k (concat pieces), s3) ∧ shsha_result s3 = Some (0, SHS k (concat pieces), s3).
Proof.
  intros Hm Hp Hfit. destruct (shsha_init_spec k ctx mem Hm) as (s1 & E1 & H1).
  destruct (write_all_spec k s1 [] pieces H1 Hp) as (s2 & E2 & H2); [by rewrite app_nil_l|]. rewrite app_nil_l in H2.
  destruct (shsha_result_spec k s2 _ H2) as (s3 & E3 & E4 & _). eauto 10.
Qed.

(** ** Keyed hashes *)

(** C7: [shhmac] is HMAC (RFC 2104) over the digest of the standard for each
    algorithm, keys longer than a block included. *)
Theorem hmac_correct k mem key text : (128 ≤ length mem)%nat → zlen key < 2 ^ 31 → zlen text < 2 ^ 31 →
  shhmac mem (kind_alg k) key (zlen key) (Some text) (zlen text) = Some (0, HMAC k key text).
Proof. intros. by apply shhmac_spec. Qed.

(** [shhkdf_expand] is HKDF-Expand (RFC 5869) up to its limit of 255 blocks,
    and refuses a longer key. *)
Theorem hkdf_expand_correct k mem prk info L : (128 ≤ length mem)%nat → zlen prk < 2 ^ 31 → zlen info < 2 ^ 31 →
  (kind_size k ≤ length prk)%nat → (0 < L)%nat →
  shhkdf_expand mem (kind_alg k) prk (zlen prk) (Some info) (zlen info) (Z.of_nat L) =
  Some (if decide (L ≤ 255 * kind_size k)%nat then (0, HKDF_Expand k prk info L) else (ERR_INVAL, [])).
Proof.
  intros Hm Hp Hi Hk HL. destruct (decide _) as [Hle|Hgt]; [by apply hkdf_expand_spec|].
  unfold shhkdf_expand. rewrite (proj2 (Z.ltb_ge (zlen info) 0)), (proj2 (Z.leb_gt (Z.of_nat L) 0)) by lia. cbn [orb].
  pose proof (kind_size_pos k). rewrite size_kind, (proj2 (Z.ltb_ge _ _)), (proj2 (Z.eqb_neq _ 0)) by lia.
  set (s := Z.of_nat (kind_size k)). pose proof (Z.div_mod (Z.of_nat L) s ltac:(lia)).
  pose proof (Z.mod_pos_bound (Z.of_nat L) s ltac:(lia)).
  assert (255 * s < Z.of_nat L) by lia.
  rewrite (proj2 (Z.ltb_lt 255 _)); [done|]. destruct (Z.eqb_spec (Z.of_nat L mod s) 0); nia.
Qed.

(** A derivation through [shhkdf_init], [shhkdf_write] and [shhkdf_result]. *)
Definition hkdf_steps (context : sh_hkdf_t) (mem : list byte) (alg : Z) (salt ikm info : list byte) (L : Z) : option (Z * list byte) :=
  '(e, c) ← shhkdf_init context mem alg (Some salt) (zlen salt);
  if negb (e =? 0) then Some (e, [])
  else
    '(e, c) ← shhkdf_write c (Some ikm) (zlen ikm);
    if negb (e =? 0) then Some (e, [])
    else '(e, okm, _) ← shhkdf_result c mem (Some info) (zlen info) L; Some (e, okm).

(** The incremental derivation on a cleared context is HKDF (RFC 5869),
    while the one-shot [shhkdf] exchanges the salt and the keying material. *)
Theorem hkdf_swapped k mem salt ikm info L : (128 ≤ length mem)%nat →
  zlen salt < 2 ^ 31 → zlen ikm < 2 ^ 31 → zlen info < 2 ^ 31 → (0 < L ≤ 255 * kind_size k)%nat →
  (∀ context, hk_Computed context = 0 → hk_Corrupted context = 0 →
    hkdf_steps context mem (kind_alg k) salt ikm info (Z.of_nat L) =
    Some (0, HKDF_Expand k (HKDF_Extract k salt ikm) info L)) ∧
  shhkdf mem (kind_alg k) (Some salt) (zlen salt) ikm (zlen ikm) (Some info) (zlen info) (Z.of_nat L) =
  Some (0, HKDF_Expand k (HKDF_Extract k ikm salt) info L).
Proof.
  intros Hm Hs Hk Hi HL. pose proof (kind_size_pos k) as Hsz.
  assert (∀ a b, shhkdf_expand mem (kind_alg k) (HMAC k a b) (Z.of_nat (kind_size k)) (Some info) (zlen info) (Z.of_nat L) =
    Some (0, HKDF_Expand k (HMAC k a b) info L)) as Hexp.
  { intros a b. rewrite <-(length_HMAC k a b) at 1. apply hkdf_expand_spec; rewrite ?length_HMAC; try done; lia. }
  split.
  - intros context Hc He. unfold hkdf_steps, shhkdf_init.
    destruct (shhmac_init_spec k mem salt Hm Hs) as (h & -> & Hh). cbn [mbind option_bind negb Z.eqb].
    unfold shhkdf_write. cbn [hk_Corrupted hk_Computed hk_hmac hk_alg hk_hashSize]. rewrite Hc, He. cbn [negb Z.eqb].
    destruct (shhmac_write_spec k salt h [] ikm Hh) as (h1 & -> & Hh1); [lia|rewrite app_nil_l; lia|]. cbn [mbind option_bind negb Z.eqb].
    unfold shhkdf_result. cbn [hk_Corrupted hk_Computed hk_hmac hk_alg hk_hashSize negb Z.eqb].
    destruct (shhmac_result_spec k salt h1 _ Hh1) as (h2 & ->). cbn [mbind option_bind negb Z.eqb].
    rewrite app_nil_l, size_kind, Hexp. done.
  - unfold shhkdf, shhkdf_extract. rewrite (proj2 (Z.ltb_ge _ 0)), u64_small by lia.
    rewrite shhmac_spec by done. cbn [mbind option_bind negb Z.eqb]. rewrite size_kind, Hexp. done.
Qed.

(** ** Pins *)

(** C17: The RPC pin of a key is a function of the key and the five-minute
    period, and the check accepts exactly the pins of the current period, the one
    before and the one after: a pin handed out is accepted for five
    minutes, and any other value is refused with an access error. *)
Theorem rpc_pin_window mem hash key now now' pin : (128 ≤ length mem)%nat → length key = 32%nat →
  clock_ok now FIVE_MINUTES → clock_ok now' FIVE_MINUTES →
  get_rpc_pin mem hash now (Some key) = Some (PIN K224 (drop 4 key) (now / 300)) ∧
  verify_rpc_pin mem hash now' (Some key) pin =
    Some (if bool_decide (pin ∈ (λ i, PIN K224 (drop 4 key) (now' / 300 + i)) <$> [-1; 0; 1]) then 0 else ERR_ACCESS) ∧
  (now ≤ now' ≤ now + 300 → verify_rpc_pin mem hash now' (Some key) (PIN K224 (drop 4 key) (now / 300)) = Some 0).
Proof.
  intros Hm Hk Hn Hn'. assert (length (drop 4 key) = 28%nat) as Hl by (rewrite length_drop; lia).
  unfold get_rpc_pin, verify_rpc_pin. change CRED_SECRET_LEN with (Z.of_nat 28). rewrite <-Hl. change SHALG_SHA224 with (kind_alg K224).
  assert (∀ p, shsha_2fa_bin_verify mem hash now' (kind_alg K224) (Some (drop 4 key)) (zlen (drop 4 key)) FIVE_MINUTES p =
    Some (if bool_decide (p ∈ (λ i, PIN K224 (drop 4 key) (now' / 300 + i)) <$> [-1; 0; 1]) then 0 else ERR_ACCESS)) as Hv
    by (intros p; apply verify_spec; rewrite ?Hl; try done; right; lia).
  split; [apply get_pin_spec; rewrite ?Hl; try done; right; lia|]. split; [apply Hv|]. intros Hnn. rewrite Hv, bool_decide_true; [done|].
  apply list_elem_of_fmap. exists (now / 300 - now' / 300). split; [f_equal; lia|].
  pose proof (Z.div_le_mono now now' 300 ltac:(lia) ltac:(lia)). pose proof (Z.div_le_mono now' (now + 1 * 300) 300 ltac:(lia) ltac:(lia)) as Hd.
  rewrite Z.div_add in Hd by lia. rewrite !elem_of_cons. lia.
Qed.

(** Of the ten bytes of a generated two-factor secret only the first is
    random: the length is divided by eight before it bounds the copy. *)
Theorem secret_one_byte rand : shsha_2fa_secret_bin rand 10 = byte_of_Z (rand 0%nat) :: zeros 9.
Proof. done. Qed.

(** ** Instances *)
Definition msg1 : list byte := byte_of_Z <$> [104; 101; 108; 108; 111].
Definition msg2 : list byte := replicate 130 x61.

Lemma sha_stream_witness : ∃ s1 s2 s3,
  shsha_init sha_zero (garbage 64) (kind_alg K256) = (0, s1) ∧ write_all s1 [msg1; []; msg2] = Some (0, s2) ∧
  shsha_result s2 = Some (0, SHS K256 (concat [msg1; []; msg2]), s3) ∧
  shsha_result s3 = Some (0, SHS K256 (concat [msg1; []; msg2]), s3).
Proof. apply (sha_stream K256 sha_zero (garbage 64) [msg1; []; msg2]); [done|repeat constructor; done|done]. Defined.

Lemma hmac_correct_witness : shhmac (garbage 128) (kind_alg K512) msg2 130 (Some msg1) 5 = Some (0, HMAC K512 msg2 msg1).
Proof. apply (hmac_correct K512 (garbage 128) msg2 msg1); [done..|]. done. Defined.

Lemma hkdf_expand_correct_witness :
  shhkdf_expand (garbage 128) (kind_alg K1) msg2 130 (Some msg1) 5 42 = Some (0, HKDF_Expand K1 msg2 msg1 42).
Proof.
  exact (hkdf_expand_correct K1 (garbage 128) msg2 msg1 42 (le_n _) ltac:(done) ltac:(done) ltac:(simpl; lia) ltac:(lia)).
Defined.

Lemma hkdf_swapped_witness :
  hkdf_steps (Hkdf 0 (Hmac 0 0 0 sha_zero [] 0 0) 0 0 0) (garbage 128) (kind_alg K256) msg1 msg2 [] 40 =
    Some (0, HKDF_Expand K256 (HKDF_Extract K256 msg1 msg2) [] 40) ∧
  shhkdf (garbage 128) (kind_alg K256) (Some msg1) 5 msg2 130 (Some []) 0 40 =
    Some (0, HKDF_Expand K256 (HKDF_Extract K256 msg2 msg1) [] 40).
Proof.
  destruct (hkdf_swapped K256 (garbage 128) msg1 msg2 [] 40) as [Hi Ho]; [done|done|done|done|simpl; lia|].
  split; [by apply Hi|exact Ho].
Defined.

Lemma rpc_pin_window_witness :
  get_rpc_pin (garbage 128) (garbage 256) 600 (Some (garbage 32)) = Some (PIN K224 (garbage 28) 2) ∧
  verify_rpc_pin (garbage 128) (garbage 256) 899 (Some (garbage 32)) 7 =
    Some (if bool_decide (7 ∈ (λ i, PIN K224 (garbage 28) (899 / 300 + i)) <$> [-1; 0; 1]) then 0 else ERR_ACCESS) ∧
  verify_rpc_pin (garbage 128) (garbage 256) 899 (Some (garbage 32)) (PIN K224 (garbage 28) 2) = Some 0.
Proof.
  destruct (rpc_pin_window (garbage 128) (garbage 256) (garbage 32) 600 899 7) as (E1 & E2 & E3); [done..|].
  exact (conj E1 (conj E2 (E3 ltac:(lia)))).
Defined.
