(* ===== verification/OptThm.v ===== *)
(** * Theorems on the options *)

From stdpp Require Import functions.
From S2P Require Import Prelude Errors Shbuf Links Shmap ShmapInv ShmapOps ShmapSpec Sha ShaSpec Hmac Key KeyThm Opt OptSpec.

(** ** Inputs *)
Record inputs_ok (pref : list byte → list byte) (key : shkey_t) (conf home : option (list byte))
    (getenv : list byte → option (list byte)) : Prop := {
  in_pref : ∀ n, x00 ∉ pref n;
  in_key : key_wf key;
  in_conf : file_ok conf;
  in_home : file_ok home;
  in_env : ∀ n e, getenv n = Some e → text_ok e;
}.

Lemma hex_fmt_ok p v : (p ≤ 8)%nat → 0 ≤ v < 2 ^ 32 → Forall is_hex (hex_fmt p v) ∧ (length (hex_fmt p v) ≤ 8)%nat.
Proof.
  intros Hp Hv. unfold hex_fmt. destruct (hex_digits_spec 16 v) as [Hh _]; [change (16 ^ Z.of_nat 16) with (2 ^ 64); lia|].
  assert (length (hex_digits 16 v) ≤ 8)%nat by (apply length_hex_digits; change (16 ^ Z.of_nat 8) with (2 ^ 32); lia). split.
  - apply Forall_app. split; [|done]. apply Forall_replicate. by exists 0.
  - rewrite length_app, length_replicate. lia.
Qed.
Lemma hex_word_ok alg key i : key_wf key → Forall is_hex (hex_word alg key i) ∧ (length (hex_word alg key i) ≤ 8)%nat.
Proof.
  intros Hk. pose proof (key_word_range key i Hk) as Hr. unfold hex_word.
  destruct (alg =? SHALG_ECDSA160R); [destruct (i =? 6)%nat; [split; [constructor|simpl; lia]|]|]; [|by apply hex_fmt_ok].
  apply hex_fmt_ok; [destruct (i =? 5)%nat; lia|done].
Qed.
Lemma hex_key_ok key : key_wf key → Forall is_hex (shkey_hex (Some key)) ∧ (length (shkey_hex (Some key)) ≤ 56)%nat.
Proof.
  intros Hk. unfold shkey_hex. split.
  - apply Forall_concat, Forall_fmap, Forall_true. intros i. by apply hex_word_ok.
  - unfold SHKEY_WORDS. cbn [seq fmap list_fmap concat]. rewrite !length_app. cbn [length].
    pose proof (λ i, proj2 (hex_word_ok (shkey_alg (Some key)) key i Hk)) as Hl.
    pose proof (Hl 0%nat). pose proof (Hl 1%nat). pose proof (Hl 2%nat). pose proof (Hl 3%nat). pose proof (Hl 4%nat).
    pose proof (Hl 5%nat). pose proof (Hl 6%nat). lia.
Qed.
Lemma is_hex_clean l : Forall is_hex l → clean l.
Proof. intros Hl. eapply Forall_impl; [exact Hl|]. intros c [v Hc]. by destruct c; try discriminate Hc. Qed.
Lemma hex_text_ok key : key_wf key → text_ok (shkey_hex (Some key)).
Proof.
  intros Hk. destruct (hex_key_ok key Hk) as [Hh Hl]. split; [|lia]. intros Hin. apply is_hex_clean in Hh.
  unfold clean in Hh. rewrite Forall_forall in Hh. by destruct (Hh _ Hin).
Qed.

(** ** Values have the type of the option *)
Definition typed (o : opt_t) (v : sval) : Prop :=
  match opt_type o, v with
  | OPT_TYPE_STR, SStr _ => True
  | OPT_TYPE_STR, SNum _ | _, SStr _ => False
  | _, SNum w => - 2 ^ 31 ≤ w < 2 ^ 31
  end.
Lemma val_typed o b n s : typed o (val_of o b n s).
Proof. unfold typed, val_of. destruct (opt_type o); [destruct (b =? 0); lia|apply i32_range|done]. Qed.
Lemma pref_typed pref o v : typed o v → typed o (pref_val pref o v).
Proof.
  intros Hv. unfold pref_val. destruct (take 255 _) as [|c l]; [done|]. pose proof (val_typed o 0 (atoi (c :: l)) (c :: l)) as Hn.
  destruct (opt_type o) eqn:Et; try done. destruct (decide _); [|done]. unfold typed. rewrite Et. lia.
Qed.
Lemma env_typed getenv o v : typed o v → typed o (env_val getenv o v).
Proof. intros Hv. unfold env_val. destruct (getenv _); [apply val_typed|done]. Qed.
Lemma line_typed o v l : typed o v → typed o (line_val o v l).
Proof. intros Hv. unfold line_val. destruct (parse_line l) as [[t x]|]; [|done]. destruct (strcasecmp _ _); [apply val_typed|done]. Qed.
Lemma file_typed o v d : typed o v → typed o (file_val o v d).
Proof.
  unfold file_val. destruct d as [d|]; [|done]. generalize (strtok_lines d) as ls. intros ls. revert v.
  induction ls as [|l ls IH]; intros v Hv; [done|]. cbn [foldl]. apply IH. by apply line_typed.
Qed.
Lemma rpc_typed key o v : typed o v → typed o (rpc_val key o v).
Proof.
  intros Hv. unfold rpc_val. destruct (decide _); [|done]. destruct v as [|[|c l]]; [done| |done].
  unfold typed in *. by destruct (opt_type o).
Qed.
Lemma arg_typed o v a : typed o v → typed o (arg_val o v a).
Proof. intros Hv. unfold arg_val. destruct (arg_split a) as [[[no t] x]|]; [|done]. destruct (strcasecmp _ _); [apply val_typed|done]. Qed.
Lemma args_typed o v l : typed o v → typed o (foldl (arg_val o) v l).
Proof. revert v. induction l as [|a l IH]; intros v Hv; [done|]. cbn [foldl]. apply IH. by apply arg_typed. Qed.
Hint Resolve val_typed pref_typed env_typed file_typed rpc_typed arg_typed args_typed : bc.
Lemma resolve_typed pref key conf home getenv o : typed o (resolve pref key conf home getenv o).
Proof. unfold resolve, default_val. auto 10 with bc. Qed.

(** ** Start-up *)
Definition rpc_opt : opt_t :=
  Opt OPT_RPC_KEY OPT_TYPE_STR 0 (Some []) (bytes "A 28-byte hex key for authenticating RPC service requests.").
Lemma rpc_in b : RPC_SERVICE b = true → rpc_opt ∈ _option_table b.
Proof.
  intros Hb. unfold _option_table. rewrite Hb. do 3 (apply elem_of_app; right). apply elem_of_app. left. unfold when. do 3 right. left.
Qed.
Lemma rpc_key_val pref o l : typed o (pref_val pref o l) → opt_type o = OPT_TYPE_STR → ∃ t, pref_val pref o l = SStr t.
Proof. unfold typed. intros Ht Et. rewrite Et in Ht. destruct (pref_val pref o l); [done|eauto]. Qed.

(** The values when the configuration file is read. *)
Definition early pref key (o : opt_t) : sval := rpc_val key o (pref_val pref o (default_val o)).
Definition conf_text (b : build) pref key : list byte :=
  unlines (concat ((λ o, entry_lines o (str_of (early pref key o))) <$> _option_table b)).

Section start.
Context {S : Type} `{OptStoreOk S}.
Variables (mem : list byte) (b : build).
Hypothesis Hmem : (64 ≤ length mem)%nat.
Hypothesis Hrpc : RPC_SERVICE b = true.
Abbreviation tab := (_option_table b).

Lemma set_defaults_spec pref key conf home getenv s m : inputs_ok pref key conf home getenv → orep tab s m →
  swp (opt_set_defaults mem tab pref key conf home getenv) s (λ txt s',
    txt = (match conf with Some _ => None | None => Some (conf_text b pref key) end) ∧
    ∃ m', orep tab s' m' ∧ ∀ o, o ∈ tab → m' (opt_name o) = resolve pref key conf home getenv o).
Proof.
  intros [Hp Hk Hc Hh He] Hm. pose proof (table_ok b) as Htab. unfold opt_set_defaults.
  apply swp_bind. eapply swp_mono; [by apply (defaults_spec mem tab Hmem Htab s m)|]. intros ? s1 (m1 & Hm1 & Hv1).
  apply swp_bind. eapply swp_mono; [by apply (pref_spec mem tab Hmem Htab pref s1 m1 default_val)|]. intros ? s2 (m2 & Hm2 & Hv2).
  apply swp_bind. eapply swp_mono.
  { apply (rpc_spec mem tab Hmem Htab key s2 m2 (λ o, pref_val pref o (default_val o)) rpc_opt); try done.
    - by apply rpc_in.
    - apply rpc_key_val; [|done]. apply pref_typed, val_typed.
    - by apply hex_text_ok. }
  intros ? s3 (m3 & Hm3 & Hv3). apply swp_bind.
  eapply swp_mono; [by apply (datfile_spec mem tab Hmem Htab conf s3 m3 (early pref key))|]. intros e s4 [-> (m4 & Hm4 & Hv4)].
  apply swp_bind. apply swp_mono with (Q := λ txt s', s' = s4 ∧ txt = (match conf with Some _ => None | None => Some (conf_text b pref key) end)).
  { destruct conf as [c|]; [by apply swp_ret|]. cbn [Z.eqb]. change (ERR_NOENT =? 0) with false. cbn iota. apply swp_bind.
    eapply swp_mono; [apply (conf_print_spec mem tab Hmem Htab s4 m4); [done|]|].
    - intros o Ho Ht. rewrite Hv4 by done. cbn [file_val]. unfold early.
      assert (typed o (rpc_val key o (pref_val pref o (default_val o)))) as Hty by (unfold default_val; auto 10 with bc).
      unfold typed in Hty. rewrite Ht in Hty. destruct (rpc_val _ _ _); [done|eauto].
    - intros t s' [-> ->]. apply swp_ret. split; [done|]. f_equal. unfold conf_text. f_equal. f_equal.
      apply list_fmap_ext. intros i o Ho. rewrite Hv4 by (by eapply list_elem_of_lookup_2). done. }
  intros txt s' [-> ->]. apply swp_bind.
  eapply swp_mono; [by apply (datfile_spec mem tab Hmem Htab home s4 m4 (λ o, file_val o (early pref key o) conf))|].
  intros e s5 [-> (m5 & Hm5 & Hv5)]. apply swp_bind.
  eapply swp_mono; [by apply (env_spec mem tab Hmem Htab getenv s5 m5 (λ o, file_val o (file_val o (early pref key o) conf) home))|].
  intros ? s6 (m6 & Hm6 & Hv6). apply swp_ret. split; [done|]. by exists m6.
Qed.

(** Reading an option by its type. *)
Definition read_opt (o : opt_t) : SM S sval :=
  match opt_type o with
  | OPT_TYPE_STR => s ← opt_str mem (opt_name o); mret (match s with Some l => SStr l | None => SNum 0 end)
  | _ => n ← opt_num mem (opt_name o); mret (SNum n)
  end.
Lemma read_spec o s m : orep tab s m → o ∈ tab → typed o (m (opt_name o)) → read_opt o s = Some (m (opt_name o), s).
Proof.
  intros Hm Ho Ht. pose proof (table_ok b) as Htab.
  assert (swp (read_opt o) s (λ r s', s' = s ∧ r = m (opt_name o))) as Hr.
  { unfold read_opt, typed in *. destruct (opt_type o), (m (opt_name o)) as [w|l] eqn:Ev; try done; apply swp_bind.
    1,2: eapply swp_mono; [by apply (num_get_spec mem tab Hmem Htab o s m w)|]; intros r s' [-> ->]; by apply swp_ret.
    eapply swp_mono; [by apply (str_get_spec mem tab Hmem Htab o s m l)|]. intros r s' [-> ->]. by apply swp_ret. }
  apply swp_run in Hr as (r & s' & E & -> & ->). done.
Qed.
End start.

(** ** The text of the configuration file *)
Lemma full_conf : forallb (λ o,
    bool_decide (name_ok (opt_name o)) && bool_decide (clean (opt_name o)) && bool_decide (clean (opt_desc o)) &&
    bool_decide (clean (default [] (opt_strdef o))) && bool_decide (clean (dec (opt_def o))) &&
    (length (opt_desc o) <? 256)%nat && (length (dec (opt_def o)) <? 256)%nat) full = true ∧ (length full <=? 64)%nat = true.
Proof. by vm_compute. Qed.
Lemma table_facts b o : o ∈ _option_table b →
  (name_ok (opt_name o) ∧ clean (opt_name o)) ∧ clean (opt_desc o) ∧ (clean (default [] (opt_strdef o)) ∧ clean (dec (opt_def o))) ∧
  (length (opt_desc o) < 256)%nat ∧ (length (dec (opt_def o)) < 256)%nat.
Proof.
  intros Ho. assert (o ∈ full) as Hf by (eapply elem_of_sublist; [done|apply table_sublist]).
  destruct full_conf as [Hall _]. rewrite forallb_forall in Hall. apply list_elem_of_In, Hall in Hf.
  rewrite !andb_true_iff, !Nat.ltb_lt, !bool_decide_eq_true in Hf.
  destruct Hf as [[[[[[H1 H2] H3] H4] H5] H6] H7]. exact (conj (conj H1 H2) (conj H3 (conj (conj H4 H5) (conj H6 H7)))).
Qed.
Lemma table_conf b : conf_ok (_option_table b).
Proof. constructor; apply Forall_forall; intros o Ho; apply (table_facts b o Ho). Qed.

Lemma early_clean b pref key o : (∀ n, clean (pref n)) → key_wf key → o ∈ _option_table b →
  clean (str_of (early pref key o)) ∧ (length (str_of (early pref key o)) ≤ 255)%nat.
Proof.
  intros Hp Hk Ho. destruct (table_facts b o Ho) as (_ & _ & [Hd _] & _).
  pose proof (tk_def _ (table_ok b)) as Hl. rewrite Forall_forall in Hl. destruct (Hl o Ho) as [_ Hdl].
  destruct (hex_key_ok key Hk) as [Hh Hhl]. apply is_hex_clean in Hh.
  assert (∀ v, clean (str_of v) ∧ (length (str_of v) ≤ 255)%nat →
    clean (str_of (pref_val pref o v)) ∧ (length (str_of (pref_val pref o v)) ≤ 255)%nat) as Hpref.
  { intros v Hv. unfold pref_val.
    assert (clean (take 255 (pref (pref_name o)))) as Hc by (apply Forall_take, Hp).
    assert (length (take 255 (pref (pref_name o))) ≤ 255)%nat as Hlen by (rewrite length_take; lia).
    destruct (take 255 _) as [|c l]; [done|]. unfold val_of.
    destruct (opt_type o); [destruct (decide _); [split; [constructor|simpl; lia]|done]|split; [constructor|simpl; lia]|done]. }
  unfold early, rpc_val. destruct (Hpref (default_val o)) as [H1 H2].
  { unfold default_val, val_of. destruct (opt_type o); [split; [constructor|simpl; lia]..|]. split; [done|]. cbn [str_of]. lia. }
  destruct (decide _); [|done]. destruct (pref_val pref o (default_val o)) as [|[|c l]]; [done| |done]. split; [done|]. cbn [str_of]. lia.
Qed.

Lemma length_unlines ls n : Forall (λ l : list byte, (length l ≤ n)%nat) ls → (length (unlines ls) ≤ length ls * (n + 1))%nat.
Proof.
  induction 1 as [|l ls Hl Hls IH]; [done|]. unfold unlines. cbn [fmap list_fmap concat]. fold (unlines ls).
  rewrite !length_app. cbn [length nl]. lia.
Qed.
Lemma length_conf_text b pref key : (∀ n, clean (pref n)) → key_wf key → zlen (conf_text b pref key) < 2 ^ 63.
Proof.
  intros Hp Hk. unfold conf_text. rewrite unlines_concat.
  assert (∀ o, o ∈ _option_table b → (length (unlines (entry_lines o (str_of (early pref key o)))) ≤ 4600)%nat) as He.
  { intros o Ho. destruct (table_facts b o Ho) as (_ & _ & _ & Hd & Hz). destruct (early_clean b pref key o Hp Hk Ho) as [_ Hv].
    pose proof (tk_def _ (table_ok b)) as Hl. rewrite Forall_forall in Hl. destruct (Hl o Ho) as [_ Hs].
    pose proof (tk_len _ (table_ok b)) as Hn. rewrite Forall_forall in Hn. specialize (Hn o Ho). cbn beta in Hn.
    assert (length (entry_lines o (str_of (early pref key o))) ≤ 5)%nat as H5.
    { unfold entry_lines, head_lines. rewrite length_app. cbn [length]. destruct (opt_type o); cbv zeta.
      - destruct (opt_def o =? 0); simpl; lia.
      - simpl; lia.
      - destruct (decide (default [] (opt_strdef o) = [])); simpl; lia. }
    etrans; [apply (length_unlines _ 900)|etrans; [apply Nat.mul_le_mono_r, H5|lia]].
    unfold entry_lines, head_lines. apply Forall_app.
    destruct (opt_type o); cbv zeta; [destruct (opt_def o =? 0)| |destruct (decide (default [] (opt_strdef o) = [])), (decide (default [] (opt_strdef o) = str_of (early pref key o)))];
      cbn [app]; rewrite !Forall_cons, ?length_app, ?length_cons, ?length_nil; split_and!; try apply Forall_nil_2; cbn [length];
      change (length (bytes "## Name: ")) with 9%nat; change (length (bytes "## ")) with 3%nat; change (length (bytes "#")) with 1%nat;
      change (length (bytes "=")) with 1%nat; change (length (bytes "## Default: ")) with 12%nat;
      change (length (bytes "=0")) with 2%nat; change (length (bytes "=1")) with 2%nat;
      change (length (bytes "## Default: 0 (false)")) with 21%nat; change (length (bytes "## Default: 1 (true)")) with 20%nat; rewrite ?length_app; cbn [length]; lia. }
  assert (∀ l, (∀ o, o ∈ l → o ∈ _option_table b) →
    (length (concat ((λ o, unlines (entry_lines o (str_of (early pref key o)))) <$> l)) ≤ length l * 4600)%nat) as Hsum.
  { induction l as [|o l IH]; intros Hin; [done|]. cbn [fmap list_fmap concat length]. rewrite length_app.
    specialize (He o ltac:(apply Hin; left)). specialize (IH ltac:(intros; apply Hin; by right)). lia. }
  specialize (Hsum (_option_table b) (λ o Ho, Ho)). pose proof (sublist_length _ _ (table_sublist b)) as Hlen.
  destruct full_conf as [_ H64]. apply Nat.leb_le in H64. lia.
Qed.

(** [opt_init] and [opt_arg_interp], as the daemon calls them, on fresh memory. *)
Definition start `{Heap} (mem : list byte) (b : build) (pref : list byte → list byte) (key : shkey_t) (conf home : option (list byte))
    (getenv : list byte → option (list byte)) (args : list (list byte)) : SM hst (option (list byte)) :=
  txt ← opt_init mem (_option_table b) pref key conf home getenv;
  _ ← opt_arg_interp mem (_option_table b) args;
  mret txt.

Section thm.
Context `{HeapOk}.

Lemma start_spec mem b pref key conf home getenv args : (64 ≤ length mem)%nat → RPC_SERVICE b = true →
  inputs_ok pref key conf home getenv → Forall text_ok args →
  ∃ s', start mem b pref key conf home getenv args (HSt ∅ ∅ 1 None) =
    Some (match conf with Some _ => None | None => Some (conf_text b pref key) end, s') ∧
  (∀ o, o ∈ _option_table b → read_opt mem o s' = Some (foldl (arg_val o) (resolve pref key conf home getenv o) args, s')) ∧
  ∃ s2, opt_term s' = Some (tt, s2) ∧ hs_map s2 = None ∧ hs_ents s2 = ∅ ∧ hs_blks s2 = ∅.
Proof.
  intros Hmem Hrpc Hin Hargs. pose proof (table_ok b) as Htab.
  assert (swp (start mem b pref key conf home getenv args) (HSt ∅ ∅ 1 None) (λ txt s',
    txt = (match conf with Some _ => None | None => Some (conf_text b pref key) end) ∧
    ∃ m', orep (_option_table b) s' m' ∧ ∀ o, o ∈ _option_table b → m' (opt_name o) = foldl (arg_val o) (resolve pref key conf home getenv o) args)) as Hrun.
  { unfold start, opt_init. apply swp_bind, swp_bind. eapply swp_mono.
    { apply (init_spec _ ∅); try done. intros p [? Hp]. by rewrite lookup_empty in Hp. }
    intros ? s0 Hok. eapply swp_mono.
    { apply (set_defaults_spec mem b Hmem Hrpc pref key conf home getenv s0 (λ _, SNum 0)); [done|].
      exists ∅. split; [|intros o Ho; by rewrite lookup_empty]. split; [apply map_Forall_empty|]. by rewrite fmap_empty. }
    intros txt s1 [-> (m1 & Hm1 & Hv1)]. apply swp_bind.
    eapply swp_mono; [by apply (args_spec mem (_option_table b) Hmem Htab args s1 m1 (resolve pref key conf home getenv))|].
    intros ? s2 (m2 & Hm2 & Hv2). apply swp_ret. eauto. }
  apply swp_run in Hrun as (txt & s' & E & -> & m' & Hm' & Hv'). exists s'. split; [done|].
  split; [|destruct Hm' as (g & Hg & _); destruct (swp_run _ _ _ (term_spec s' g Hg)) as ([] & s2 & E2 & Hs2); by exists s2]. intros o Ho.
  rewrite <-Hv' by done. apply (read_spec mem b Hmem o s' m'); [done|done|]. rewrite Hv' by done. apply args_typed, resolve_typed.
Qed.
End thm.

(** ** Properties *)

(** C5: After start-up and the command line every option has the value that the
    last source to mention it gives: arguments over the environment, over
    [~/.shc/shc.conf], over the data directory's [shc.conf], over a generated RPC
    key, over the system preferences, over the built-in default; the
    configuration file is written exactly when it was missing.  [opt_term] then
    releases all the memory of the options. *)
Theorem opt_precedence `{HeapOk} mem b pref key conf home getenv args : (64 ≤ length mem)%nat → RPC_SERVICE b = true →
  inputs_ok pref key conf home getenv → Forall text_ok args →
  ∃ s', start mem b pref key conf home getenv args (HSt ∅ ∅ 1 None) =
    Some (match conf with Some _ => None | None => Some (conf_text b pref key) end, s') ∧
  (∀ o, o ∈ _option_table b → read_opt mem o s' = Some (foldl (arg_val o) (resolve pref key conf home getenv o) args, s')) ∧
  ∃ s2, opt_term s' = Some (tt, s2) ∧ hs_map s2 = None ∧ hs_ents s2 = ∅ ∧ hs_blks s2 = ∅.
Proof. apply start_spec. Qed.

(** C6: The RPC key that is generated on the first start is written to the
    configuration file and found again on the next start, which generates
    another one, and its hexadecimal text gives the words of the key. *)
Theorem rpc_key_persists `{HeapOk} mem b pref key key2 getenv : (64 ≤ length mem)%nat → RPC_SERVICE b = true →
  key_wf key → key_wf key2 → shkey_alg (Some key) ≠ SHALG_ECDSA160R → (∀ n, clean (pref n)) → pref (pref_name rpc_opt) = [] →
  (∀ n e, getenv n = Some e → text_ok e) → getenv (opt_set_environment_name rpc_opt) = None →
  ∃ txt s1 s2,
    start mem b pref key None None getenv [] (HSt ∅ ∅ 1 None) = Some (Some txt, s1) ∧
    start mem b pref key2 (Some txt) None getenv [] (HSt ∅ ∅ 1 None) = Some (None, s2) ∧
    read_opt mem rpc_opt s1 = Some (SStr (shkey_hex (Some key)), s1) ∧
    read_opt mem rpc_opt s2 = Some (SStr (shkey_hex (Some key)), s2) ∧
    shkey_hexgen (Some (shkey_hex (Some key))) = Some (Key 0 0 (k_code key)).
Proof.
  intros Hmem Hrpc Hk Hk2 Ha Hp Hpr He Her. pose proof (rpc_in b Hrpc) as Hin.
  assert (∀ n, x00 ∉ pref n) as Hp0.
  { intros n Hn. specialize (Hp n). unfold clean in Hp. rewrite Forall_forall in Hp. by destruct (Hp _ Hn). }
  assert (file_ok (Some (conf_text b pref key))) as Hf.
  { split; [|by apply length_conf_text]. unfold conf_text, _option_table. cbn [app fmap list_fmap concat].
    unfold entry_lines at 1, head_lines at 1. cbn [app]. unfold unlines. cbn [fmap list_fmap concat app nl]. done. }
  destruct (start_spec mem b pref key None None getenv [] Hmem Hrpc) as (s1 & E1 & R1 & _); [by constructor|constructor|].
  destruct (start_spec mem b pref key2 (Some (conf_text b pref key)) None getenv [] Hmem Hrpc) as (s2 & E2 & R2 & _); [by constructor|constructor|].
  assert (∀ k, early pref k rpc_opt = SStr (shkey_hex (Some k))) as Hearly.
  { intros k. unfold early, pref_val. rewrite Hpr. rewrite take_nil. unfold rpc_val. by rewrite decide_True. }
  exists (conf_text b pref key), s1, s2. split_and!; [done|done| | |by apply hex_gen].
  - rewrite (R1 rpc_opt Hin). cbn [foldl]. unfold resolve, env_val. rewrite Her. cbn [file_val]. fold (early pref key rpc_opt).
    by rewrite Hearly.
  - rewrite (R2 rpc_opt Hin). cbn [foldl]. unfold resolve, env_val. rewrite Her. cbn [file_val]. fold (early pref key2 rpc_opt).
    change (foldl (line_val rpc_opt) ?v (strtok_lines ?d)) with (file_val rpc_opt v (Some d)).
    rewrite Hearly. unfold conf_text.
    rewrite (conf_text_val (_option_table b) (early pref key) (table_ok b) (table_conf b)); [|intros o Ho; by apply (early_clean b)|done].
    rewrite Hearly. unfold kept. cbn [opt_type rpc_opt opt_strdef default str_of].
    rewrite decide_False; [done|]. intros E. pose proof (hex_gen key Hk Ha) as Hg. by rewrite <-E in Hg.
Qed.

(** ** Instances *)
#[local] Instance heap_all : Heap := λ _, true.
#[local] Instance heap_all_ok : HeapOk.
Proof. done. Qed.
Definition no_pref : list byte → list byte := λ _, [].
Definition no_env : list byte → option (list byte) := λ _, None.
Definition max_conn : opt_t := Opt OPT_MAX_CONN OPT_TYPE_NUM 300 None (bytes "The maximum number of socket connections allowed for all services.").
Definition demo_conf : list byte := unlines [bytes "# limits"; OPT_MAX_CONN ++ bytes "=40"].
Definition demo_home : list byte := unlines [OPT_MAX_CONN ++ bytes "=50"].
Definition demo_arg : list byte := bytes "--" ++ OPT_MAX_CONN ++ bytes "=60".

Lemma demo_inputs conf home : file_ok conf → file_ok home → inputs_ok no_pref demo_sk conf home no_env.
Proof. intros Hc Hh. constructor; [intros n; apply not_elem_of_nil|apply demo_sk_ok|done|done|intros n e E; discriminate E]. Qed.
Lemma demo_inputs_ok : inputs_ok no_pref demo_sk (Some demo_conf) (Some demo_home) no_env.
Proof. by apply demo_inputs. Qed.
Lemma mem_ok : (64 ≤ length (garbage 64))%nat.
Proof. simpl. lia. Qed.
Lemma demo_args_ok : Forall text_ok [demo_arg].
Proof.
  apply Forall_singleton. split; [|apply Z.ltb_lt; vm_compute; reflexivity].
  apply (bool_decide_unpack (x00 ∉ demo_arg)). vm_compute. exact I.
Qed.

Lemma opt_precedence_witness : ∃ s1 s2,
  start (garbage 64) all_services no_pref demo_sk (Some demo_conf) (Some demo_home) no_env [] (HSt ∅ ∅ 1 None) = Some (None, s1) ∧
  start (garbage 64) all_services no_pref demo_sk (Some demo_conf) (Some demo_home) no_env [demo_arg] (HSt ∅ ∅ 1 None) = Some (None, s2) ∧
  read_opt (garbage 64) max_conn s1 = Some (SNum 50, s1) ∧ read_opt (garbage 64) max_conn s2 = Some (SNum 60, s2).
Proof.
  assert (max_conn ∈ _option_table all_services) as Hin by (do 2 right; left).
  destruct (opt_precedence (garbage 64) all_services no_pref demo_sk (Some demo_conf) (Some demo_home) no_env []) as (s1 & E1 & R1 & _);
    [apply mem_ok|reflexivity|apply demo_inputs_ok|constructor|].
  destruct (opt_precedence (garbage 64) all_services no_pref demo_sk (Some demo_conf) (Some demo_home) no_env [demo_arg]) as (s2 & E2 & R2 & _);
    [apply mem_ok|reflexivity|apply demo_inputs_ok|apply demo_args_ok|].
  exists s1, s2. split; [exact E1|]. split; [exact E2|]. rewrite (R1 max_conn Hin), (R2 max_conn Hin). split; vm_compute; reflexivity.
Defined.

Lemma rpc_key_persists_witness : ∃ txt s1 s2,
  start (garbage 64) all_services no_pref demo_sk None None no_env [] (HSt ∅ ∅ 1 None) = Some (Some txt, s1) ∧
  start (garbage 64) all_services no_pref _shkey_blank (Some txt) None no_env [] (HSt ∅ ∅ 1 None) = Some (None, s2) ∧
  read_opt (garbage 64) rpc_opt s1 = Some (SStr (shkey_hex (Some demo_sk)), s1) ∧
  read_opt (garbage 64) rpc_opt s2 = Some (SStr (shkey_hex (Some demo_sk)), s2) ∧
  shkey_hexgen (Some (shkey_hex (Some demo_sk))) = Some (Key 0 0 (k_code demo_sk)).
Proof.
  apply (rpc_key_persists (garbage 64) all_services no_pref demo_sk _shkey_blank no_env);
    [simpl; lia|reflexivity|apply demo_sk_ok|split; [done|by repeat constructor]|done|intros n; constructor|reflexivity|intros n e E; discriminate E|reflexivity].
Defined.
