(* ===== verification/ServThm.v ===== *)
(** * The services: properties

    Lines reach their handlers, connections live from accept to sweep, shares
    of idle workers are kept, and the cases in which a client is lost or
    starved. *)

From stdpp Require Import functions.
From S2P Require Import Prelude Errors Shbuf Descriptor Hmac Key Opt Links Clients Services ClientsSpec ClientsServe ServSpec.

Section stratum.
Context `{Double} `{Heap}.
Implicit Types (s : cst user_t) (cl : list (Z * user_t)).
Abbreviation C := (SM (cst user_t)).

(** A connected miner, the only client on its descriptor. *)
Definition mining cl (p : Z) (u : user_t) : Prop :=
  (p, u) ∈ cl ∧ has_flag (u_flags u) USER_CLIENT = true ∧ has_flag (u_flags u) USER_SYNC = false ∧ has_flag (u_flags u) USER_RPC = false ∧
  u_fd u ≠ -1 ∧ ∀ q m, (q, m) ∈ cl → u_fd m = u_fd u → q = p.
Lemma mining_held cl p u : mining cl p u → held (λ u, has_flag (u_flags u) USER_RPC) stratum_judge cl p (u_fd u).
Proof. intros (Hp & Hc & Hs & Hr & Hf & Hu). split; [|done]. exists u. split_and!; [done..|]. by apply live_judge. Qed.


(** A stratum connection lives from its accept to the sweep after its
    close: accepting it puts a client record with the key of the address at the
    head of the list, where it is found by its descriptor; closing it marks the
    record, which is then not found; and the next sweep frees it, since it never
    received work. *)
Theorem stratum_connection (shaddr : Z → option sockaddr) mem now now' fd a key s cl :
  rep s cl → heap_ok (@c_size user_t _) = true → 0 < fd → shkey_bin mem (shaddr fd) = Some key →
  (∀ q u, (q, u) ∈ cl → u_fd u ≠ fd) → 3000 < now' →
  ∃ p s1 s2 s3,
    stratum_accept shaddr mem now fd (Some a) s = Some (tt, s1) ∧ rep s1 ((p, new_user now fd key) :: cl) ∧
    stratum_user_get fd s1 = Some (p, s1) ∧
    stratum_close fd s1 = Some (tt, s2) ∧ rep s2 ((p, u_set_fd (-1) (new_user now fd key)) :: cl) ∧ stratum_user_get fd s2 = Some (0, s2) ∧
    stratum_close_free now' s2 = Some (tt, s3) ∧ rep s3 (sweep (stratum_judge now') [] cl) ∧ cs_users s3 !! p = None.
Proof.
  intros Hr Hh Hf Hk Hfree Hnow. unfold stratum_accept. rewrite (proj2 (Z.ltb_ge fd 1)) by lia.
  assert (swp (stratum_register_client shaddr mem now fd) s (λ p s1, rep s1 ((p, new_user now fd key) :: cl))) as Hreg
    by (by eapply register_spec).
  apply swp_run in Hreg as (p & s1 & E1 & Hr1). pose proof (rep_nodup _ _ Hr1) as Hnd. apply NoDup_cons in Hnd as [Hp _].
  destruct (swp_run _ _ _ (get_spec fd s1 _ Hr1 ltac:(lia))) as (? & ? & G1 & -> & ->).
  destruct (swp_run _ _ _ (close_spec fd s1 _ Hr1)) as ([] & s2 & E2 & Hr2 & _).
  rewrite (closed_head fd p (new_user now fd key) cl ltac:(lia) eq_refl Hp) in Hr2.
  destruct (swp_run _ _ _ (get_spec fd s2 _ Hr2 ltac:(lia))) as (? & ? & G2 & -> & ->).
  destruct (swp_run _ _ _ (close_free_spec (stratum_judge now') ltac:(done) s2 _ Hr2)) as ([] & s3 & E3 & Hr3 & Hk3 & _).
  assert (stratum_judge now' (u_set_fd (-1) (new_user now fd key)) = VFree) as Hj by (by apply due_judge).
  exists p, s1, s2, s3. split; [unfold mbind, SM_bind; by rewrite E1|]. split; [done|]. split.
  { rewrite G1. unfold find_client. cbn [List.find snd new_user u_fd u_set_netid u_set_flags u_set_freq u_set_sess u_set_round u_set_fd]. by rewrite Z.eqb_refl. }
  split; [exact E2|]. split; [done|]. split.
  { rewrite G2. rewrite find_absent; [done|]. intros q u [[= -> ->]|Hin]%elem_of_cons; [cbn; lia|by eapply Hfree]. }
  split; [exact E3|]. split; [cbn [sweep snd] in Hr3; by rewrite Hj in Hr3|].
  specialize (Hk3 p). rewrite decide_True in Hk3.
  - destruct (cs_users s3 !! p) as [n|] eqn:En; [|done]. by rewrite (bodies_lookup _ _ _ En) in Hk3.
  - unfold freed. rewrite filter_cons_True by done. left.
Qed.

(** C22: Naming a worker refuses a name with an at sign and the clients of an
    address that already holds the 32 connections it may have, changing
    nothing; otherwise the shares and rewards of the idle records of that worker
    go to the new connection: the number of shares is the same, and the idle
    records are left empty and due for the next sweep. *)
Theorem stratum_user_merges (shaddr : Z → option sockaddr) p u name a s cl : rep s cl → (p, u) ∈ cl → shaddr (u_fd u) = Some a →
  if bool_decide (chr 64 ∈ name) || (MAX_STRATUM_USERS <=? users_from shaddr a cl)
  then stratum_user shaddr p name s = Some (0, s)
  else ∃ s', stratum_user shaddr p name s = Some (p, s') ∧ rep s' (renamed p u name cl) ∧
    u64 (shares (renamed p u name cl)) = u64 (shares cl) ∧
    ∀ q m now, (q, m) ∈ cl → idle p (take 127 name) (q, m) = true → has_flag (u_flags m) USER_SYNC = false → 3000 < now →
      (q, emptied m) ∈ renamed p u name cl ∧ stratum_judge now (emptied m) = VFree.
Proof.
  intros Hr Hp Ha. pose proof (stratum_user_spec shaddr p u name a s cl Hr Hp Ha) as Hs. apply swp_run in Hs as (r & s' & E & Hs).
  destruct (bool_decide _ || _); [destruct Hs as [-> ->]; done|]. destruct Hs as (-> & Hr' & _). exists s'. split; [done|]. split; [done|].
  split; [apply renamed_shares; [by eapply rep_nodup|done]|]. intros q m now Hq Hi Hsync Hnow.
  unfold idle in Hi. cbn [fst snd] in Hi. apply andb_prop in Hi as [[[Hqp Hc]%andb_prop Hf]%andb_prop Hw].
  apply negb_true_iff, Z.eqb_neq in Hqp. split.
  - unfold renamed, merged. cbv zeta. set (u' := u_set_worker _ u). set (g := gain _ _ _ _). apply list_elem_of_fmap.
    exists (q, emptied m). split; [by rewrite put_ne|]. apply list_elem_of_fmap. exists (q, m). split.
    + unfold drain, idle. cbn [fst snd]. change (u_worker u') with (take 127 name). rewrite Hc, Hf, Hw, (proj2 (Z.eqb_neq q p) Hqp). done.
    + apply list_elem_of_fmap. exists (q, m). split; [by rewrite put_ne|done].
  - apply due_judge; [done|done|by apply Z.eqb_eq|done].
Qed.

(** Clients that the stratum sweep passes over (disconnected for less than
    50 minutes, or kept for good) and that stand on the list before one it
    frees, with no connected client in between, fall off the list with it: they
    are never found again, and their records are never freed. *)
Theorem stratum_sweep_loses now s pend x rest : rep s (pend ++ x :: rest) →
  Forall (λ y, stratum_judge now y.2 = VSkip) pend → stratum_judge now x.2 = VFree →
  ∃ s' cl', stratum_close_free now s = Some (tt, s') ∧ rep s' cl' ∧
    ∀ y, y ∈ pend → y.1 ∉ cl'.*1 ∧ bodies s' !! y.1 = Some y.2.
Proof.
  intros Hr Hpend Hx. destruct (swp_run _ _ _ (close_free_spec (stratum_judge now) ltac:(done) s _ Hr)) as ([] & s' & E & Hr' & Hk & _).
  exists s', (sweep (stratum_judge now) [] (pend ++ x :: rest)). split; [done|]. split; [done|]. intros [q m] Hy. cbn [fst snd].
  pose proof (rep_nodup _ _ Hr) as Hnd. rewrite fmap_app in Hnd. apply NoDup_app in Hnd as (_ & Hd & _).
  specialize (Hd q (list_elem_of_fmap_2 fst _ _ Hy)). rewrite fmap_cons, not_elem_of_cons in Hd. destruct Hd as [Hqx Hq].
  assert (∀ pd, sweep (stratum_judge now) pd (pend ++ x :: rest) = sweep (stratum_judge now) [] rest) as ->.
  { clear Hr Hr' Hk Hy. induction Hpend as [|y pend Hj Hpend IH]; intros pd; cbn [app sweep]; [by rewrite Hx|]. by rewrite Hj. }
  split; [intros ([q' m'] & -> & Hin)%list_elem_of_fmap; apply sweep_sub in Hin; apply Hq; by apply (list_elem_of_fmap_2 fst _ (q', m'))|].
  rewrite Hk. rewrite decide_False; [apply (rep_body _ _ Hr); set_solver|]. unfold freed. rewrite filter_app, fmap_app, elem_of_app.
  rewrite Forall_forall in Hpend. intros [([q' m'] & -> & [Hj Hin]%list_elem_of_filter)%list_elem_of_fmap|([q' m'] & -> & [Hj Hin]%list_elem_of_filter)%list_elem_of_fmap].
  - apply Hpend in Hin. congruence.
  - apply elem_of_cons in Hin as [<-|Hin]; [done|]. apply Hq. by apply (list_elem_of_fmap_2 fst _ (q', m')).
Qed.

(** A line of a miner with a zero byte in it is found by the search for its
    end and not by the second search, which stops at the zero byte: no request of
    that connection is ever handed over again, however much arrives. *)
Theorem zero_byte_blocks max_fd {J} (json : list byte → option J) (request : Z → J → C Z) (http : Z → list byte → C Z)
    (Hreq : ∀ p t, Keeps max_fd user_rel p (request p t)) (Hhttp : ∀ p fd l, Keeps max_fd user_rel p (http fd l))
    evs s cl p u line rest k :
  (∀ z, heap_ok z = true) → rep s cl → fds_ok cl → evs_ok evs → desc_ok (cs_desc s) → mining cl p u →
  queue max_fd (cs_desc s) (u_fd u) = Some (line ++ x0a :: rest) → bounded max_fd (cs_desc s) k → k + traffic evs + 1 < 2 ^ 31 - 32768 →
  x0a ∉ line → x00 ∈ line → zlen line ≤ MAX_MESSAGE_SIZE →
  ∃ ls s', run max_fd (stratum_timer max_fd json request http) evs s = Some (ls, s') ∧ requests p ls = [] ∧
    queue max_fd (cs_desc s') (u_fd u) = Some ((line ++ x0a :: rest) ++ arrived (view (u_fd u) evs)).
Proof.
  intros Hh Hr Hfds Hevs Hok Hm Hq Hb Hk Hnl Hz Hl.
  destruct (swp_run _ _ _ (run_spec max_fd Hh MAX_MESSAGE_SIZE (λ u, has_flag (u_flags u) USER_RPC) stratum_judge ltac:(done) ltac:(done) ltac:(done)
    user_rel user_rel_refl user_rel_trans user_rel_skip user_rel_judge _ (stratum_handle_ok max_fd json request http (Hreq := Hreq) (Hhttp := Hhttp))
    evs s cl p (u_fd u) _ k Hr Hfds Hevs Hok (mining_held _ _ _ Hm) Hq Hb Hk)) as (ls & s' & E & Hls & Hq' & _).
  rewrite line_run_stuck in Hls, Hq' by done. by exists ls, s'.
Qed.

(** A stratum user that is granted RPC access is not served any more: the
    grant sets the flag by which the stratum timer passes the connection over,
    so the elevated request, which would take the flag back, is never read. *)
Theorem elevated_starves max_fd {J} (json : list byte → option J) (request : Z → J → C Z) (http : Z → list byte → C Z)
    (Hreq : ∀ p t, Keeps max_fd user_rel p (request p t)) (Hhttp : ∀ p fd l, Keeps max_fd user_rel p (http fd l))
    evs s cl p k :
  (∀ z, heap_ok z = true) → rep s cl → fds_ok cl → evs_ok evs → desc_ok (cs_desc s) → p ∈ cl.*1 → bounded max_fd (cs_desc s) k → k + traffic evs + 1 < 2 ^ 31 - 32768 →
  ∃ s1 ls s2, grant_rpc p s = Some (tt, s1) ∧ run max_fd (stratum_timer max_fd json request http) evs s1 = Some (ls, s2) ∧ requests p ls = [].
Proof.
  intros Hh Hr Hfds Hevs Hok Hp Hb Hk.
  destruct (swp_run _ _ _ (grant_spec p s cl Hr Hp)) as ([] & s1 & E1 & (cl1 & Hr1 & Hfds1 & Hfl) & Ed).
  destruct (swp_run _ _ _ (run_skipped max_fd Hh MAX_MESSAGE_SIZE (λ u, has_flag (u_flags u) USER_RPC) stratum_judge ltac:(done) ltac:(done) ltac:(done)
    user_rel user_rel_refl user_rel_trans user_rel_skip _ (stratum_handle_ok max_fd json request http (Hreq := Hreq) (Hhttp := Hhttp))
    evs s1 cl1 p k Hr1 (Hfds1 Hfds) Hevs ltac:(by rewrite Ed) Hfl ltac:(by rewrite Ed) Hk)) as (ls & s2 & E2 & Hls).
  by exists s1, ls, s2.
Qed.

(** A request that is not valid JSON ends the round of the RPC timer: no
    client behind the one that sent it is served in that round, their queues
    keep what arrived, and the closed clients stay on the list. *)
Theorem rpc_round_stops max_fd {J} (json : list byte → option J) (iface_of : J → list byte) (coins : nat → option (list byte)) (task : Z → Z → J → C Z)
    (Htask : ∀ i p t, Keeps max_fd user_rel p (task i p t)) s p u cl q line rest :
  rep s ((p, u) :: cl) → fds_ok ((p, u) :: cl) → desc_ok (cs_desc s) → u_fd u ≠ -1 → has_flag (u_flags u) USER_RPC = true →
  queue max_fd (cs_desc s) (u_fd u) = Some q → take_line MAX_MESSAGE_SIZE q = (Some line, rest) → malformed json line = true →
  ∃ s' cl', rpc_timer max_fd json iface_of coins task s = Some ([(p, line)], s') ∧ rep s' cl' ∧ cl'.*1 = ((p, u) :: cl).*1 ∧
    ∀ fd, fd ≠ u_fd u → queue max_fd (cs_desc s') fd = queue max_fd (cs_desc s) fd.
Proof.
  intros Hr Hfds Hok Hf Hrpc Hq Ht Hm. set (skip := λ u : user_t, negb (has_flag (u_flags u) USER_RPC)).
  destruct (swp_run _ _ _ (serve_spec max_fd MAX_MESSAGE_SIZE skip ltac:(done) ltac:(done) user_rel user_rel_refl user_rel_trans
    ltac:(intros n n' HR; unfold skip; destruct (user_rel_skip n n' HR) as [? ->]; done) _ _
    (rpc_handle_ok max_fd json iface_of coins task (Htask := Htask)) s _ Hr Hfds Hok)) as ([ls go] & s' & E & Els & (cl' & Hr' & Hrel) & _ & Hq').
  assert (conn skip <$> ((p, u) :: cl) = (p, Some (u_fd u)) :: (conn skip <$> cl)) as Ec.
  { cbn [fmap list_fmap]. f_equal. unfold conn, skip. cbn [fst snd]. rewrite Hrpc. change (c_fd u) with (u_fd u).
    by rewrite (proj2 (Z.eqb_neq _ _) Hf). }
  rewrite Ec in Els, Hq'. cbn [serve_q take_q] in Els, Hq'. rewrite Hq, Ht in Els, Hq'. cbn [fst snd] in Els, Hq'.
  rewrite Hm in Els, Hq'. cbn [fst snd] in Els, Hq'. injection Els as -> ->. exists s', cl'. split; [|split; [done|split]].
  - unfold rpc_timer. fold skip. unfold mbind, SM_bind. by rewrite E.
  - by apply (related_fst user_rel).
  - intros fd Hfd. rewrite Hq'. by apply fn_lookup_insert_ne.
Qed.
End stratum.

(** ** The API and RPC services *)
Section shapi.
Context `{Heap}.

(** The same of the API service: every line of a connection's stream is
    handed over in order and once. *)
Theorem shapi_lines max_fd {J} (json : list byte → option J) (request : Z → J → SM (cst shapi_t) Z)
    (Hreq : ∀ p t, Keeps max_fd shapi_rel p (request p t)) evs n now s cl p a q k :
  (∀ z, heap_ok z = true) → rep s cl → fds_ok cl → evs_ok evs → desc_ok (cs_desc s) → (p, a) ∈ cl → a_fd a ≠ -1 → (∀ q m, (q, m) ∈ cl → a_fd m = a_fd a → q = p) →
  queue max_fd (cs_desc s) (a_fd a) = Some q → bounded max_fd (cs_desc s) k → k + traffic evs + 1 < 2 ^ 31 - 32768 →
  let stream := q ++ arrived (view (a_fd a) evs) in
  x00 ∉ stream → zlen stream ≤ MAX_MESSAGE_SIZE → (newlines stream ≤ n)%nat →
  ∃ ls s' rest, run max_fd (λ _, shapi_timer max_fd json request) (evs ++ replicate n (ETick now)) s = Some (ls, s') ∧
    stream = lines_text (requests p ls) ++ rest ∧ Forall (λ l, x0a ∉ l) (requests p ls) ∧ x0a ∉ rest ∧
    queue max_fd (cs_desc s') (a_fd a) = Some rest.
Proof.
  intros Hh Hr Hfds Hevs Hok Hp Hf Hu Hq Hb Hk stream Hz Hl Hn. set (judge := λ (_ : Z) (u : shapi_t), if a_fd u =? -1 then VFree else VKeep).
  assert (held (λ _, false) judge cl p (a_fd a)) as Hheld.
  { split; [|done]. exists a. split_and!; [done..|]. intros ?. unfold judge. by rewrite (proj2 (Z.eqb_neq _ _) Hf). }
  destruct (service_delivers max_fd Hh MAX_MESSAGE_SIZE (λ _, false) judge ltac:(done) ltac:(done) ltac:(done)
    shapi_rel ltac:(done) shapi_rel_trans ltac:(done) ltac:(intros n1 n2 E Hj t; specialize (Hj t); unfold judge in *; by rewrite E) _
    (shapi_handle_ok max_fd json request (Hreq := Hreq)) evs n now s cl p (a_fd a) q k Hr Hfds Hevs Hok Hheld Hq Hb Hk Hz Hl Hn)
    as (ls & s' & rest & E & H1 & H2 & H3 & H4 & _).
  by exists ls, s', rest.
Qed.
End shapi.

(** C23: The sweeps of the API and RPC services remove the closed connections
    and nothing else: the list keeps the others in their order, and exactly the
    removed records are freed. *)
Theorem sweeps_exact `{Double} (s : cst shapi_t) cl (t : cst user_t) ul :
  rep s cl → rep t ul → (∀ p u, (p, u) ∈ ul → has_flag (u_flags u) USER_RPC = true) →
  (∃ s', shapi_close_free s = Some (tt, s') ∧ rep s' (filter (λ x, a_fd x.2 ≠ -1) cl) ∧
    keeps_bodies s s' (filter (λ x, a_fd x.2 = -1) cl).*1) ∧
  ∃ t', rpc_close_free t = Some (tt, t') ∧ rep t' (filter (λ x, u_fd x.2 ≠ -1) ul) ∧
    keeps_bodies t t' (filter (λ x, u_fd x.2 = -1) ul).*1.
Proof.
  intros Hr Hu Hrpc. split.
  - destruct (swp_run _ _ _ (close_free_spec (λ u : shapi_t, if a_fd u =? -1 then VFree else VKeep) ltac:(done) s cl Hr)) as ([] & s' & E & Hr' & Hk & _).
    exists s'. split; [done|]. destruct (sweep_by_fd (λ u : shapi_t, if a_fd u =? -1 then VFree else VKeep) cl) as [E1 E2]; [done|].
    rewrite E1 in Hr'. rewrite E2 in Hk. done.
  - set (judge := λ u : user_t, if negb (has_flag (u_flags u) USER_RPC) then VSkip else if u_fd u =? -1 then VFree else VKeep).
    destruct (swp_run _ _ _ (close_free_spec judge ltac:(done) t ul Hu)) as ([] & t' & E & Hr' & Hk & _).
    exists t'. split; [done|]. destruct (sweep_by_fd judge ul) as [E1 E2].
    { intros p u Hin. unfold judge. by rewrite (Hrpc p u Hin). }
    rewrite E1 in Hr'. rewrite E2 in Hk. done.
Qed.

(** ** Instances

    Shares counted in integers, a heap that is never full, and two clients with
    the worker names of three connections. *)
#[local] Instance heap_all : Heap := λ _, true.
#[local] Instance shares_Z : Double := {| F := Z; f0 := 0; fadd := Z.add; fmul := Z.mul; fdiv := Z.div; f_of := id;
  fsub := Z.sub; fltb := Z.ltb; feqb := Z.eqb; f_inf := -1; fint := id |}.
Definition demo_addr : sockaddr := [x02; x00; x1f; x90; x7f; x00; x00; x01] ++ zeros 8.
Definition demo_shaddr (fd : Z) : option sockaddr := Some demo_addr.
Definition miner (fd flags cnt stamp : Z) (w : list byte) : user_t :=
  User w fd flags 0 0 cnt (replicate 6 0) 0 (replicate 7 0) 0 stamp 0 _shkey_blank 0 0 session_zero.
Definition desc_of (b : list byte) : desc_t := Desc 1 DF_SOCK 0 0 0 (Some (shbuf_cat shbuf_init b)) None null_addr.
Definition demo_desc (b5 b6 : list byte) : dtab := DTab (Some {[5 := desc_of b5; 6 := desc_of b6]}) 0 0 0.
Definition demo_clients : list (Z * user_t) :=
  [(1, miner 5 USER_CLIENT 7 0 (bytes "rig")); (2, miner (-1) USER_CLIENT 4 0 (bytes "bob")); (3, miner 6 USER_CLIENT 9 0 (bytes "eve"))].
(** A request names the worker of its connection. *)
Definition demo_json (l : list byte) : option (list byte) := if bool_decide (last l = Some (chr 125)) then Some (drop 1 (take (length l - 1) l)) else None.
Definition demo_request (p : Z) (name : list byte) : SM (cst user_t) Z := stratum_user demo_shaddr p name.
Definition demo_http (fd : Z) (l : list byte) : SM (cst user_t) Z := mret 0.

Lemma demo_request_keeps p t : Keeps 1024 user_rel p (demo_request p t).
Proof. apply stratum_user_keeps. intros fd. by eexists. Qed.
Lemma demo_http_keeps p fd l : Keeps 1024 user_rel p (demo_http fd l).
Proof. apply keeps_ret, user_rel_refl. Qed.
Lemma demo_rep dt : rep (of_list demo_clients 4 dt) demo_clients.
Proof. apply of_list_rep; [done|vm_compute; repeat constructor; set_solver|]. by repeat constructor. Qed.
Lemma demo_slot b5 b6 fd : dt_slot (dt_alloc (demo_desc b5 b6)) fd = if decide (fd = 5) then desc_of b5 else if decide (fd = 6) then desc_of b6 else null_desc.
Proof.
  change (default null_desc ((<[5 := desc_of b5]> {[6 := desc_of b6]} : gmap Z desc_t) !! fd) = if decide (fd = 5) then desc_of b5 else if decide (fd = 6) then desc_of b6 else null_desc).
  destruct (decide (fd = 5)) as [->|]; [by rewrite lookup_insert_eq|]. rewrite lookup_insert_ne by done.
  destruct (decide (fd = 6)) as [->|]; [by rewrite lookup_singleton_eq|by rewrite lookup_singleton_ne].
Qed.
Lemma desc_of_ok b : zlen b < 1000 → shbuf_wf (shbuf_cat shbuf_init b) ∧ rdata (desc_of b) = b.
Proof.
  intros Hb. assert (data_of shbuf_init + zlen b + 1 < 2 ^ 31 - 32768) as Hl by (change (data_of shbuf_init) with 0; lia).
  split; [by apply shbuf_cat_wf|]. change (default [] (data (shbuf_cat shbuf_init b)) = b). by rewrite shbuf_cat_data.
Qed.
Lemma demo_desc_ok b5 b6 : zlen b5 < 1000 → zlen b6 < 1000 → desc_ok (demo_desc b5 b6).
Proof.
  intros H5 H6. split; [by eexists|]. intros fd b. rewrite demo_slot.
  destruct (decide (fd = 5)); [intros [= <-]; by apply desc_of_ok|]. destruct (decide (fd = 6)); [intros [= <-]; by apply desc_of_ok|done].
Qed.
Lemma demo_bounded b5 b6 : zlen b5 < 1000 → zlen b6 < 1000 → bounded 1024 (demo_desc b5 b6) 1000.
Proof.
  intros H5 H6 fd l. unfold queue. destruct (1024 <=? fd); [done|]. rewrite demo_slot. cbv zeta.
  destruct (decide (fd = 5)); [|destruct (decide (fd = 6)); [|done]];
    change (d_flag (desc_of _) =? 0) with false; intros [= <-]; (rewrite (proj2 (desc_of_ok b5 H5)) || rewrite (proj2 (desc_of_ok b6 H6))); lia.
Qed.
Lemma demo_queue b5 b6 : zlen b5 < 1000 → queue 1024 (demo_desc b5 b6) 5 = Some b5.
Proof.
  intros H5. unfold queue. rewrite demo_slot. change (1024 <=? 5) with false. rewrite decide_True by done. cbv zeta.
  change (d_flag (desc_of _) =? 0) with false. by rewrite (proj2 (desc_of_ok b5 H5)).
Qed.
Lemma demo_mining : mining demo_clients 1 (miner 5 USER_CLIENT 7 0 (bytes "rig")).
Proof.
  split; [left|]. do 4 (split; [done|]). intros q m Hin E. unfold demo_clients in Hin.
  repeat (apply elem_of_cons in Hin as [[= -> ->]|Hin]; [done || (cbv in E; lia)|]). by apply not_elem_of_nil in Hin.
Qed.

(** Two requests and the start of a third, cut across arrivals and rounds. *)
Definition demo_evs : list event :=
  [EData 5 (bytes "ob}" ++ [x0a] ++ bytes "{r"); ETick 4000; EData 6 (bytes "GET / " ++ [x0a]); ETick 4001; EData 5 (bytes "ig}" ++ [x0a] ++ bytes "{")].

Definition demo_key : shkey_t := default _shkey_blank (shkey_bin (zeros 64) (demo_shaddr 7)).
Lemma stratum_connection_witness : ∃ p s1 s2 s3, let s := of_list demo_clients 4 dtab_init in
  stratum_accept demo_shaddr (zeros 64) 100 7 (Some demo_addr) s = Some (tt, s1) ∧ rep s1 ((p, new_user 100 7 demo_key) :: demo_clients) ∧
  stratum_user_get 7 s1 = Some (p, s1) ∧
  stratum_close 7 s1 = Some (tt, s2) ∧ rep s2 ((p, u_set_fd (-1) (new_user 100 7 demo_key)) :: demo_clients) ∧ stratum_user_get 7 s2 = Some (0, s2) ∧
  stratum_close_free 5000 s2 = Some (tt, s3) ∧ rep s3 (sweep (stratum_judge 5000) [] demo_clients) ∧ cs_users s3 !! p = None.
Proof.
  apply (stratum_connection demo_shaddr (zeros 64) 100 5000 7 demo_addr demo_key (of_list demo_clients 4 dtab_init) demo_clients);
    [apply demo_rep|reflexivity|reflexivity|vm_compute; reflexivity| |reflexivity].
  intros q u Hin E. unfold demo_clients in Hin.
  repeat (apply elem_of_cons in Hin as [[= -> ->]|Hin]; [cbv in E; lia|]). by apply not_elem_of_nil in Hin.
Defined.

Lemma stratum_user_merges_witness : ∃ s',
  stratum_user demo_shaddr 1 (bytes "bob") (of_list demo_clients 4 dtab_init) = Some (1, s') ∧
  rep s' (renamed 1 (miner 5 USER_CLIENT 7 0 (bytes "rig")) (bytes "bob") demo_clients) ∧
  renamed 1 (miner 5 USER_CLIENT 7 0 (bytes "rig")) (bytes "bob") demo_clients =
    [(1, miner 5 USER_CLIENT 11 0 (bytes "bob")); (2, miner (-1) USER_CLIENT 0 0 (bytes "bob")); (3, miner 6 USER_CLIENT 9 0 (bytes "eve"))].
Proof.
  pose proof (stratum_user_merges demo_shaddr 1 (miner 5 USER_CLIENT 7 0 (bytes "rig")) (bytes "bob") demo_addr _ demo_clients
    (demo_rep dtab_init) ltac:(left) eq_refl) as Hm.
  destruct Hm as (s' & E & Hr & _). exists s'. split; [exact E|]. split; [exact Hr|]. vm_compute. reflexivity.
Defined.

(** One client in its grace period before one that is due. *)
Definition demo_grace : Z * user_t := (1, miner (-1) USER_CLIENT 7 4000 (bytes "rig")).
Definition demo_due : Z * user_t := (2, miner (-1) USER_CLIENT 4 0 (bytes "bob")).
Lemma stratum_sweep_loses_witness : ∃ s' cl', stratum_close_free 5000 (of_list [demo_grace; demo_due] 3 dtab_init) = Some (tt, s') ∧ rep s' cl' ∧
  ∀ y, y ∈ [demo_grace] → y.1 ∉ cl'.*1 ∧ bodies s' !! y.1 = Some y.2.
Proof.
  apply (stratum_sweep_loses 5000 _ [demo_grace] demo_due []); [|repeat constructor|reflexivity].
  apply of_list_rep; [reflexivity|vm_compute; repeat constructor; set_solver|]. by repeat constructor.
Defined.

Definition zero_line : list byte := bytes "{" ++ [x00] ++ bytes "}".
Lemma zero_byte_blocks_witness : ∃ ls s',
  run 1024 (stratum_timer 1024 demo_json demo_request demo_http) demo_evs (of_list demo_clients 4 (demo_desc (zero_line ++ [x0a]) [])) = Some (ls, s') ∧
  requests 1 ls = [] ∧ queue 1024 (cs_desc s') 5 = Some ((zero_line ++ [x0a]) ++ arrived (view 5 demo_evs)).
Proof.
  apply (zero_byte_blocks 1024 demo_json demo_request demo_http demo_request_keeps demo_http_keeps demo_evs _ demo_clients 1
    (miner 5 USER_CLIENT 7 0 (bytes "rig")) zero_line [] 1000);
    [done|apply demo_rep|by repeat constructor|by repeat constructor|by apply demo_desc_ok|apply demo_mining|by apply demo_queue|by apply demo_bounded|vm_compute; reflexivity| | |vm_compute; discriminate];
    apply (bool_decide_eq_true_1 _); vm_compute; reflexivity.
Defined.

Lemma elevated_starves_witness : ∃ s1 ls s2, grant_rpc 1 (of_list demo_clients 4 (demo_desc (bytes "{b") [])) = Some (tt, s1) ∧
  run 1024 (stratum_timer 1024 demo_json demo_request demo_http) demo_evs s1 = Some (ls, s2) ∧ requests 1 ls = [].
Proof.
  apply (elevated_starves 1024 demo_json demo_request demo_http demo_request_keeps demo_http_keeps demo_evs _ demo_clients 1 1000);
    [done|apply demo_rep|by repeat constructor|by repeat constructor|by apply demo_desc_ok|left|by apply demo_bounded|vm_compute; reflexivity].
Defined.

(** RPC clients: the first sends a line that is not JSON, the second is closed. *)
Definition rpc_clients : list (Z * user_t) :=
  [(1, miner 5 80 0 0 []); (2, miner (-1) 80 0 0 []); (3, miner 6 80 0 0 [])].
Definition demo_task (i p : Z) (name : list byte) : SM (cst user_t) Z := demo_request p name.
Lemma rpc_rep dt : rep (of_list rpc_clients 4 dt) rpc_clients.
Proof. apply of_list_rep; [done|vm_compute; repeat constructor; set_solver|]. by repeat constructor. Qed.
Lemma rpc_round_stops_witness : ∃ s' cl',
  rpc_timer 1024 demo_json id (λ _, None) demo_task (of_list rpc_clients 4 (demo_desc (bytes "{b" ++ [x0a]) (bytes "{a}" ++ [x0a]))) = Some ([(1, bytes "{b")], s') ∧
  rep s' cl' ∧ cl'.*1 = [1; 2; 3] ∧
  ∀ fd, fd ≠ 5 → queue 1024 (cs_desc s') fd = queue 1024 (demo_desc (bytes "{b" ++ [x0a]) (bytes "{a}" ++ [x0a])) fd.
Proof.
  apply (rpc_round_stops 1024 demo_json id (λ _, None) demo_task (λ i p t, demo_request_keeps p t)
    (of_list rpc_clients 4 (demo_desc (bytes "{b" ++ [x0a]) (bytes "{a}" ++ [x0a]))) 1 (miner 5 80 0 0 [])
    [(2, miner (-1) 80 0 0 []); (3, miner 6 80 0 0 [])] (bytes "{b" ++ [x0a]) (bytes "{b") []);
    [apply rpc_rep|by repeat constructor|by apply demo_desc_ok|done|reflexivity|by apply demo_queue|vm_compute; reflexivity|vm_compute; reflexivity].
Defined.

(** Two API clients. *)
Definition api_clients : list (Z * shapi_t) := [(1, Shapi 5 0 []); (2, Shapi (-1) 0 [])].
Definition api_request (p : Z) (t : list byte) : SM (cst shapi_t) Z := mret 0.
Lemma api_rep dt : rep (of_list api_clients 4 dt) api_clients.
Proof. apply of_list_rep; [done|vm_compute; repeat constructor; set_solver|]. by repeat constructor. Qed.
Lemma shapi_lines_witness : ∃ ls s' rest,
  run 1024 (λ _, shapi_timer 1024 demo_json api_request) (demo_evs ++ replicate 2 (ETick 4002)) (of_list api_clients 4 (demo_desc (bytes "{b") [])) = Some (ls, s') ∧
  bytes "{bob}" ++ [x0a] ++ bytes "{rig}" ++ [x0a] ++ bytes "{" = lines_text (requests 1 ls) ++ rest ∧
  Forall (λ l, x0a ∉ l) (requests 1 ls) ∧ x0a ∉ rest ∧ queue 1024 (cs_desc s') 5 = Some rest.
Proof.
  apply (shapi_lines 1024 demo_json api_request (λ p t, keeps_ret 1024 shapi_rel (λ n, eq_refl) p 0) demo_evs 2 4002 _ api_clients 1 (Shapi 5 0 []) (bytes "{b") 1000);
    [done|apply api_rep|by repeat constructor|by repeat constructor|by apply demo_desc_ok|left|done| |by apply demo_queue|by apply demo_bounded|vm_compute; reflexivity|
     apply (bool_decide_eq_true_1 _); vm_compute; reflexivity|vm_compute; discriminate|vm_compute; lia].
  intros q m Hin E. unfold api_clients in Hin.
  repeat (apply elem_of_cons in Hin as [[= -> ->]|Hin]; [done || (cbv in E; lia)|]). by apply not_elem_of_nil in Hin.
Defined.

Lemma sweeps_exact_witness :
  (∃ s', shapi_close_free (of_list api_clients 4 dtab_init) = Some (tt, s') ∧ rep s' [(1, Shapi 5 0 [])] ∧ keeps_bodies (of_list api_clients 4 dtab_init) s' [2]) ∧
  ∃ t', rpc_close_free (of_list rpc_clients 4 dtab_init) = Some (tt, t') ∧ rep t' [(1, miner 5 80 0 0 []); (3, miner 6 80 0 0 [])] ∧
    keeps_bodies (of_list rpc_clients 4 dtab_init) t' [2].
Proof.
  apply (sweeps_exact _ api_clients _ rpc_clients (api_rep dtab_init) (rpc_rep dtab_init)).
  intros p u Hin. unfold rpc_clients in Hin.
  repeat (apply elem_of_cons in Hin as [[= -> ->]|Hin]; [reflexivity|]). by apply not_elem_of_nil in Hin.
Defined.
