(* ===== verification/JsonThm.v ===== *)
(** * Theorems on JSON

    Printing and parsing are inverse on values, minifying turns one form into
    the other, the parser ends on every text and stays in its memory on texts
    with complete escapes, objects are maps from names without case. *)

From S2P Require Import Prelude Errors Shbuf Crc Hmac Key Opt ShmapSpec ShmapInv Json JsonTree JsonSafe JsonSpec JsonPrint JsonMap.

(** ** A concrete arithmetic: the integers *)
#[local] Instance int_real : Real := {|
  R := Z; r_of := id; radd := Z.add; rmul := Z.mul; rpow10 := λ x, 10 ^ x; rint := id; ru32 := u32; 
  rnear n d := (n =? d) && (- 2 ^ 31 <=? d) && (d <? 2 ^ 31); rbytes := le_enc 8; rfmt d := take 63 (dec d) |}.
#[local] Instance int_real_ok : RealOk.
Proof.
  split; cbn; intros; unfold id in *; try lia; [unfold u32; by apply Z.mod_small|]. rewrite length_take. lia.
Qed.
#[local] Instance json_heap : Heap := λ _, true.
#[local] Instance json_heap_ok : HeapOk.
Proof. done. Qed.

Definition ex_val : jval :=
  VObj [(bytes "id", VNum (-7)); (bytes "Method", VStr [x61; c_quote; x0a; x01]); (bytes "params", VArr [VNull; VBool true; VObj []])].
Lemma ex_val_wf : jwf ex_val.
Proof. cbn. repeat split; try lia; vm_compute; set_solver. Qed.
Lemma ex_val_unique : junique ex_val.
Proof. cbn. repeat split; vm_compute; repeat constructor; set_solver. Qed.

(** C24: an item whose numbers are 32-bit integers and whose strings have no
    zero bytes, printed with or without formatting, is parsed back to an item
    of the same value. *)
Theorem json_round_trip `{RealOk} `{HeapOk} t v (print : shjson_t → res (list byte)) :
  print = shjson_Print ∨ print = shjson_print → value_of t = Some v → jwf v →
  ∃ s t', print t = Ok s ∧ shjson_Parse s = Ok t' ∧ value_of t' = Some v.
Proof.
  intros Hp Hv Hwf. assert (∃ fmt, print t = print_value fmt 0 t) as [fmt ->] by (destruct Hp as [->| ->]; eauto).
  exists (jtext fmt 0 v), (tree None v). split; [by apply value_prints|]. split; [by apply print_parse|by apply value_tree].
Qed.
Lemma json_round_trip_witness : ∃ s t', shjson_Print (tree None ex_val) = Ok s ∧ shjson_Parse s = Ok t' ∧ value_of t' = Some ex_val.
Proof. apply (json_round_trip (tree None ex_val) ex_val shjson_Print); [by left|reflexivity|apply ex_val_wf]. Defined.

(** minifying the formatted text of an item gives its unformatted text. *)
Theorem json_minify `{RealOk} `{HeapOk} t v : value_of t = Some v → jwf v →
  ∃ s s', shjson_Print t = Ok s ∧ shjson_PrintUnformatted t = Ok s' ∧ shjson_Minify s = Ok s'.
Proof.
  intros Hv Hwf. exists (jtext true 0 v), (jtext false 0 v). split; [by apply value_prints|]. split; [by apply value_prints|by apply minify_text].
Qed.
Lemma json_minify_witness : ∃ s s', shjson_Print (tree None ex_val) = Ok s ∧ shjson_PrintUnformatted (tree None ex_val) = Ok s' ∧ shjson_Minify s = Ok s'.
Proof. apply (json_minify (tree None ex_val) ex_val); [reflexivity|apply ex_val_wf]. Defined.

(** C26: whatever bytes the memory holds, and whatever allocations fail, the
    parser ends; the position it reports is not before the text. *)
Theorem json_parse_ends `{Real} `{Heap} mem term :
  match shjson_ParseWithOpts mem term with Ok (_, rest) => (length rest ≤ length mem)%nat | NoFuel => False | _ => True end.
Proof.
  pose proof (parse_opts_spec true mem term ltac:(done)) as Hp. destruct (shjson_ParseWithOpts mem term) as [[t rest]| | |]; [|done..].
  by destruct Hp as [Hs _].
Qed.

(** C27: on a text with complete escapes, a backslash being followed by a
    character and, after a [u], by four hexadecimal digits, the parser reads no
    byte behind the terminator and writes none behind an allocation. *)
Theorem json_parse_safe `{Real} `{Heap} text : escapes_ok (text ++ [x00]) → shjson_Parse text ≠ Fault ∧ shjson_Parse text ≠ NoFuel.
Proof.
  intros Ht. unfold shjson_Parse. pose proof (parse_opts_spec false (text ++ [x00]) false (λ _, Ht)) as Hp.
  by destruct (shjson_ParseWithOpts (text ++ [x00]) false) as [[t rest]| | |].
Qed.
Definition ex_text : list byte := [x5b; c_quote; c_back; x75; x30; x30; x65; x39; c_quote].
Lemma ex_text_ok : escapes_ok (ex_text ++ [x00]).
Proof.
  split; [done|]. intros l1 l2 E. assert (length l1 = 2%nat) as Hl.
  { assert (∀ i, (ex_text ++ [x00]) !! i = Some c_back → i = 2%nat) as Hi.
    { intros i. do 10 (destruct i as [|i]; [vm_compute; congruence|]). done. }
    apply Hi. rewrite E. by apply list_lookup_middle. }
  destruct l1 as [|a [|b [|c l1]]]; try done. injection E as <- <- <-. exists x75, [x30; x30; x65; x39; c_quote; x00]. split; [done|]. split; [done|].
  intros _. exists x30, x30, x65, x39, [c_quote; x00]. split; [done|]. by repeat (constructor; [by eexists|]).
Qed.
Lemma json_parse_safe_witness : shjson_Parse ex_text ≠ Fault ∧ shjson_Parse ex_text ≠ NoFuel.
Proof. apply json_parse_safe, ex_text_ok. Defined.

(** a string that starts with an escape of a code point whose digits are
    missing is given an allocation of two bytes; the parser goes on behind the
    closing quote and writes what follows, up to the next quote, into it. *)
Theorem json_unicode_overflow `{Real} `{HeapOk} s rest : Forall (λ c, inert c = true) s → (5 ≤ length s)%nat →
  shjson_Parse (c_quote :: c_back :: chr 117 :: c_quote :: s ++ c_quote :: rest) = Fault.
Proof.
  intros Hs Hl. do 3 (destruct s as [|? s]; [cbn in Hl; lia|]). apply Forall_cons in Hs as [_ Hs]. apply Forall_cons in Hs as [_ Hs].
  apply Forall_cons in Hs as [_ Hs].
  cbn [length app] in *. unfold shjson_Parse, shjson_ParseWithOpts. rewrite alloc_ok, bind_ok. cbn [app]. rewrite skip_none by done. rewrite bind_ok.
  unfold parse_fuel. cbn [length Nat.mul Nat.add]. rewrite <-(assoc_L (++)). cbn [app].
  match goal with |- context [parse_value ?f] => destruct f as [|f'] eqn:Ef; [lia|] end. rewrite parse_value_S.
  match goal with |- context [strn_eq _ (c_quote :: ?l)] => destruct (no_literal c_quote l) as [[-> ->] ->]; [done..|] end. run.
  change (is_c 34 c_quote) with true. cbn iota. by rewrite unicode_string by (done || lia).
Qed.
Lemma json_unicode_overflow_witness :
  shjson_Parse (c_quote :: c_back :: chr 117 :: c_quote :: bytes "overflow" ++ c_quote :: []) = Fault.
Proof. apply json_unicode_overflow; [by repeat constructor|cbn; lia]. Defined.

(** C25: an object whose names differ represents a map from names without case:
    look-up, adding under a name, detaching and deleting are those of the map;
    but an object or array that is added under a name in use is not found. *)
Theorem json_object_map `{Real} `{HeapOk} t m n n' : represents t m →
  shjson_GetObjectItem t n = m !! fold_name n ∧
  (∀ v, represents (shjson_str_add t (Some n) (Some v)) (<[fold_name n := Json SHJSON_STRING (Some v) 0 (r_of 0) (Some n) []]> m)) ∧
  (∀ x, represents (shjson_num_add t (Some n) x) (<[fold_name n := Json SHJSON_NUMBER None (rint x) x (Some n) []]> m)) ∧
  (∀ b, represents (shjson_bool_add t (Some n) b) (<[fold_name n := item (Some n) (if b then SHJSON_TRUE else SHJSON_FALSE)]> m)) ∧
  represents (shjson_null_add t (Some n)) (<[fold_name n := item (Some n) SHJSON_NULL]> m) ∧
  shjson_DetachItemFromObject t n = (m !! fold_name n, shjson_DeleteItemFromObject t n) ∧
  represents (shjson_DeleteItemFromObject t n) (delete (fold_name n) m) ∧
  (m !! fold_name n = None → represents (shjson_obj_add t (Some n)) (<[fold_name n := item (Some n) SHJSON_OBJECT]> m)) ∧
  (is_Some (m !! fold_name n) → shjson_GetObjectItem (shjson_obj_add t (Some n)) n' = shjson_GetObjectItem t n').
Proof.
  intros Hr. destruct (detach_represents t m n Hr) as [Hd Hm].
  assert (∀ i o, o = Some i → represents (add_name (del_name t (Some n)) (Some n) o) (<[fold_name n := set_name (Some n) i]> m)) as Hadd.
  { intros i o ->. by apply add_represents. }
  assert (shjson_GetObjectItem t n = m !! fold_name n) as Hget by (destruct Hr as [_ <-]; apply lookup_entry).
  split; [done|]. split_and!.
  - intros v. apply (Hadd (tree None (VStr v))). unfold shjson_CreateString. by rewrite new_item_ok, strdup_ok.
  - intros x. apply (Hadd (Json SHJSON_NUMBER None (rint x) x None [])). unfold shjson_CreateNumber. by rewrite new_item_ok.
  - intros b. apply (Hadd (item None (if b then SHJSON_TRUE else SHJSON_FALSE))). unfold shjson_CreateBool, create. by rewrite new_item_ok.
  - apply (Hadd (item None SHJSON_NULL)). unfold shjson_CreateNull, create. by rewrite new_item_ok.
  - rewrite <-Hd. unfold shjson_DeleteItemFromObject. by destruct (shjson_DetachItemFromObject t n).
  - done.
  - intros Hn. unfold shjson_obj_add, shjson_CreateObject, create. rewrite new_item_ok. by apply (add_fresh t m n (item None SHJSON_OBJECT)).
  - intros [c Hc]. unfold shjson_obj_add, shjson_CreateObject, create. rewrite new_item_ok. apply (add_shadowed _ _ _ _ c). by rewrite Hget.
Qed.
Definition ex_obj : shjson_t := tree None ex_val.
Lemma json_object_map_witness : represents (shjson_str_add ex_obj (Some (bytes "METHOD")) (Some (bytes "x")))
  (<[fold_name (bytes "METHOD") := Json SHJSON_STRING (Some (bytes "x")) 0 (r_of 0) (Some (bytes "METHOD")) []]> (obj_map ex_obj)).
Proof.
  apply (json_object_map ex_obj (obj_map ex_obj) (bytes "METHOD") []). split; [|done]. vm_compute. repeat constructor; set_solver.
Defined.

(** a parsed object in which no object has a name twice, appended to a new
    object, is copied: what is printed then is its text. *)
Theorem json_append_copies `{RealOk} `{HeapOk} fmt l : jwf (VObj l) → junique (VObj l) →
  ∃ p o t, shjson_Parse (jtext fmt 0 (VObj l)) = Ok p ∧ shjson_init None = Ok o ∧ shjson_obj_append p o = Ok t ∧
    shjson_print t = Ok (jtext false 0 (VObj l)).
Proof.
  intros Hwf Hu. destruct (append_copy l None Hwf Hu) as (t & Ht & Hv). exists (tree None (VObj l)), (item None SHJSON_OBJECT), t.
  split; [by apply print_parse|]. split; [unfold shjson_init; by rewrite heap_always|]. split; [done|]. by apply value_prints.
Qed.
Lemma json_append_copies_witness : ∃ p o t, shjson_Parse (jtext true 0 ex_val) = Ok p ∧ shjson_init None = Ok o ∧ shjson_obj_append p o = Ok t ∧
    shjson_print t = Ok (jtext false 0 ex_val).
Proof. apply (json_append_copies true); [apply ex_val_wf|apply ex_val_unique]. Defined.
