(* ===== verification/StratumThm.v ===== *)
(** * Theorems on the stratum protocol

    Well-formed requests keep the service going, replies carry the identifier
    of their request, RPC access is granted to exactly the clients that know
    the key and the pin, and the requests that make the code use a null
    pointer. *)

From S2P Require Import Prelude Errors Shbuf Descriptor Crc Sha ShaSpec Hmac HmacSpec Key KeyThm Opt OptSpec Links ShmapSpec Clients Services ClientsSpec ClientsServe ServSpec Json JsonTree JsonSafe JsonSpec JsonPrint JsonMap JsonThm ServThm Codec Stratum StratumSpec StratumReply.

Section thm.
Context `{RealOk} `{Double} `{HeapOk} `{!Server} (max_fd : Z) (shaddr : Z → option sockaddr) (q : req_env).
Implicit Types (s : cst user_t) (cl : list (Z * user_t)).


(** C20: A ping, the resumption of a session and an authorization that names
    nobody, as they arrive in a line, are answered by one line at the end of the
    write queue: the result or error, and what the code makes of the identifier
    of the request: a number from 1 to 2^31 - 1 and a string of up to 255 bytes
    that does not start with a number other than 0 come back as they are, a
    string that starts with a positive number comes back as that number, and
    null, 0, the empty string and no identifier come back as null. The request
    has no result member, and the client no RPC access and an open connection
    with room for the line. *)
Theorem stratum_replies fmt l a v p s u w : jwf (VObj l) → answers (q_session q) l a → echoes (member (bytes "id") l) v →
  member (bytes "result") l = None → desc_ok (cs_desc s) → cs_users s !! p = Some u → talks u →
  let text := jtext false 0 (VObj (a ++ [(bytes "id", v)])) ++ [x0a] in
  open_conn max_fd (cs_desc s) (u_fd u) w (zlen text) →
  ∃ json s', shjson_init (Some (jtext fmt 0 (VObj l))) = Ok json ∧ stratum_request_message max_fd shaddr q p json s = Some (0, s') ∧
    wdata (dt_slot (dt_alloc (cs_desc s')) (u_fd u)) = w ++ text ∧ others (cs_desc s) (cs_desc s') (u_fd u) ∧
    cs_users s' = <[p := u_set_sess (set_cur_id (request_id json) (u_sess u)) u]> (cs_users s).
Proof.
  intros Hl Ha He Hres Hok Hu Ht text Hoc. set (json := tree None (VObj l)). set (u1 := u_set_sess (set_cur_id (request_id json) (u_sess u)) u).
  set (s1 := set_users (<[p := u1]> (cs_users s)) s). assert (cs_users s1 !! p = Some u1) as Hu1 by apply lookup_insert_eq.
  assert (swp (stratum_request_message max_fd shaddr q p json) s (λ r s', r = 0 ∧ wrote max_fd (u_fd u) w (zlen text) text s1 s')) as Hs.
  { unfold stratum_request_message. apply swp_bind. unfold sess_mod. apply swp_bind. eapply swp_load; [done|]. eapply swp_store; [done|].
    apply swp_bind. eapply swp_load; [exact Hu1|]. unfold shjson_strlen, json. rewrite !astr_member, Hres. cbn [length Z.of_nat Z.eqb negb]. rewrite andb_false_r.
    assert (∃ m, member (bytes "method") l = Some (VStr m)) as [m Em] by (destruct Ha; eauto). rewrite Em. cbv zeta.
    change (u_flags u1) with (u_flags u). rewrite (ta_rpc _ Ht). destruct (answer_wf _ _ _ Ha) as [Haw Haf].
    eapply answer_run; [done|done|]. intros msg Hmsg. eapply (send_holds max_fd s1 p u1 w l v msg a); try done; [by destruct Ht|]. by apply (echo_wf l). }
  apply swp_run in Hs as (r & s' & E & -> & (Hus & _ & _ & _ & Hoc' & Hot)). exists json, s'.
  split; [by apply text_parses|]. split; [done|]. split; [by apply oc_data in Hoc'|]. done.
Qed.

(** ** RPC access *)
Lemma send_any p msg s u : -1 ≤ u_fd u → desc_ok (cs_desc s) → cs_users s !! p = Some u →
  swp (stratum_send_message max_fd p msg) s (λ _ s', cs_users s' = cs_users s ∧ desc_ok (cs_desc s')).
Proof.
  intros Hfd Hok Hu. unfold stratum_send_message. apply swp_bind. eapply swp_load; [done|]. destruct (has_flag _ _); [by apply swp_ret|].
  destruct (Z.eqb_spec (u_fd u) (-1)); [by apply swp_ret|]. assert (0 ≤ u_fd u) as Hf0 by lia. unfold send_line.
  assert (∀ fd bs t, 0 ≤ fd → desc_ok (cs_desc t) → swp (write_fd max_fd fd bs) t (λ _ s', cs_users s' = cs_users t ∧ desc_ok (cs_desc s'))) as Hw.
  { intros fd bs t Hf Ht. unfold write_fd. destruct (_ =? 0); [by apply swp_ret|]. destruct (get_some max_fd fd (cs_desc t) Hf Ht) as [d Hd].
    apply swp_bind. eapply swp_opt; [exact Hd|]. destruct d as [d|]; [|by apply swp_ret]. destruct (negb _); [by apply swp_ret|].
    destruct (wbuff_add_ok max_fd fd bs (cs_desc t) Hf Ht) as (dt & Hdt & Hok' & _). apply swp_bind. eapply swp_opt; [exact Hdt|]. by apply swp_mod. }
  pose proof (print_safe false (reply_id (ss_cur_id (u_sess u)) msg) 0) as Hp. unfold shjson_print, shjson_PrintUnformatted.
  apply swp_bind. destruct (print_value _ _ _) as [text| | |]; try done; cbn [lift_res]; apply swp_ret; cbv beta iota.
  apply swp_bind, swp_bind. eapply swp_mono; [by apply Hw|]. intros ? t1 [E1 O1]. eapply swp_mono; [by apply Hw|]. intros ? t2 [E2 O2]. apply swp_ret. split; [congruence|done].
Qed.
Definition elevate_auth (key : shkey_t) : list byte := hex_string (SHS K256 (key_bytes key)).
Definition elevate_pin (key : shkey_t) : Z := PIN K256 (key_bytes key) (q_now q / RPC_AUTH_FREQ).
(** The client goes by the address of its connection, which is not local. *)
Definition named_by_address (u : user_t) : Prop :=
  u_worker u ≠ localhost ∧ u_worker u ≠ bytes "::1" ∧ u_worker u ≠ [] ∧ ∃ a, shaddr (u_fd u) = Some a ∧ take 255 (q_ntoa q (sin_addr a)) = u_worker u.
(** The request holds the digest of the key of that host and the pin of the period. *)
Definition authentic (worker : list byte) (json : shjson_t) : Prop := ∃ key, get_rpc_dat_password (q_rpc_key q) (q_dat q) (q_is_local q) (Some worker) = Some key ∧
  strcasecmp (elevate_auth key) (take 255 (default [] (shjson_array_astr json (Some (bytes "params")) 0))) = true ∧
  ru32 (shjson_array_num json (Some (bytes "params")) 1) = elevate_pin key.
Lemma dat_key_words is_local host toks key : dat_loop is_local host toks = Some key → length (k_code key) = SHKEY_WORDS.
Proof.
  assert (∀ t k, shkey_gen (Some t) = Some k → length (k_code k) = SHKEY_WORDS) as Hg.
  { intros t k. unfold shkey_gen. destruct (_ =? _)%nat; [|done]. intros [= <-]. done. }
  induction toks as [|tok toks IH]; [done|]. cbn [dat_loop]. destruct (cut_space [] tok) as [[n k]|]; [|done].
  destruct (_ && _); [apply Hg|]. destruct (strcasecmp host n); [apply Hg|done].
Qed.
Lemma rpc_key_bytes rpc_key dat is_local host key : get_rpc_dat_password rpc_key dat is_local host = Some key → length (key_bytes key) = 32%nat.
Proof.
  intros Hk. assert (length (k_code key) = SHKEY_WORDS) as Hl.
  { unfold get_rpc_dat_password in Hk. assert (∀ o, match dat with None => None | Some raw => dat_loop is_local o (strtok [x0d; x0a] [] (cstring raw)) end = Some key → length (k_code key) = SHKEY_WORDS) as Hd.
    { intros o. destruct dat; [apply dat_key_words|done]. }
    cbv zeta in Hk. destruct (bool_decide _); [|by eapply Hd]. destruct (shkey_hexgen rpc_key) as [k|] eqn:Eh; [|by eapply Hd]. injection Hk as ->.
    unfold shkey_hexgen in Eh. destruct rpc_key; [|done]. destruct (_ =? _)%nat; [|done]. by injection Eh as <-. }
  unfold key_bytes. rewrite !length_app, !length_le_enc, (length_concat_same 4), length_fmap, Hl; [done|].
  apply Forall_fmap, Forall_forall. intros x _. apply length_le_enc.
Qed.
Lemma elevate_ok_spec worker json s : small_mem (q_mem q) → clock_ok (q_now q) RPC_AUTH_FREQ → worker ≠ [] →
  ∃ b, elevate_ok q worker json s = Some (b, s) ∧ (b = true ↔ authentic worker json).
Proof.
  intros Hm Hc Hw. unfold elevate_ok, elevate_key. destruct worker as [|c w]; [done|]. set (host := c :: w) in *. unfold authentic.
  destruct (get_rpc_dat_password _ _ _ _) as [key|] eqn:Ek; [|exists false; split; [done|split; [done|by intros (? & ? & _)]]].
  pose proof (rpc_key_bytes _ _ _ _ _ Ek) as Hl. unfold shsha_hex. change SHALG_SHA256 with (kind_alg K256).
  unfold small_mem in Hm. rewrite shsha_spec by (lia || (etrans; [|exact Hm]; apply (bool_decide_unpack _); by vm_compute)). cbn [mbind option_bind negb Z.eqb].
  replace 32 with (zlen (key_bytes key)) by lia. rewrite get_pin_spec by (try done; try lia; unfold secret_ok; lia).
  eexists. split; [done|]. rewrite andb_true_iff, Z.eqb_eq. split.
  - intros [Ha Hp]. exists key. done.
  - intros (k & [= <-] & Ha & Hp). done.
Qed.

(** What becomes of the record. *)
Definition elevation (u : user_t) (json : shjson_t) (u' : user_t) (r : Z) : Prop :=
  named_by_address u ∧ authentic (u_worker u) json ∧ u' = u_set_flags (Z.lor (Z.lor (u_flags u) USER_RPC) USER_ELEVATE) u ∧ r = 0 ∨
  ¬ (named_by_address u ∧ authentic (u_worker u) json) ∧ u' = u.
Lemma own_address u : let ipaddr := match shaddr (u_fd u) with Some a => take 255 (q_ntoa q (sin_addr a)) | None => [] end in
  ((bool_decide (u_worker u = localhost) || bool_decide (u_worker u = bytes "::1")) || (bool_decide (ipaddr = []) || negb (bool_decide (ipaddr = u_worker u)))) = false ↔ named_by_address u.
Proof.
  cbv zeta. unfold named_by_address. rewrite !orb_false_iff, negb_false_iff, !bool_decide_eq_false, bool_decide_eq_true.
  destruct (shaddr (u_fd u)) as [a|].
  - split; [intros ((Hl & H1') & Hne & Hi); rewrite Hi in Hne; split_and!; eauto|]. intros (Hl & H1' & Hne & a' & [= <-] & Hi). by rewrite Hi.
  - split; [by intros (_ & [] & _)|]. by intros (_ & _ & _ & ? & ? & _).
Qed.

(** C21: A request for RPC access grants it exactly to a client that goes by the
    address of its connection, that is not the local host, and sends the digest
    of the key that the daemon has for that address with the pin of the current
    five minutes; nothing else of the record changes. *)
Theorem stratum_elevate_exact p json s u : small_mem (q_mem q) → clock_ok (q_now q) RPC_AUTH_FREQ → desc_ok (cs_desc s) → cs_users s !! p = Some u → -1 ≤ u_fd u →
  ∃ r s' u', req_elevate max_fd shaddr q p json s = Some (r, s') ∧ cs_users s' = <[p := u']> (cs_users s) ∧ elevation u json u' r.
Proof.
  intros Hm Hc Hok Hu Hf. assert (<[p := u]> (cs_users s) = cs_users s) as Eid by (by apply insert_id). pose proof (own_address u) as Hown. cbv zeta in Hown.
  assert (swp (req_elevate max_fd shaddr q p json) s (λ r s', ∃ u', cs_users s' = <[p := u']> (cs_users s) ∧ elevation u json u' r)) as Hs.
  { unfold req_elevate. apply swp_bind. eapply swp_load; [done|]. cbv zeta.
    destruct (bool_decide (u_worker u = localhost) || _); [apply swp_ret; exists u; split; [done|right; split; [by intros [?%Hown _]|done]]|].
    destruct (bool_decide (_ = []) || _); [apply swp_ret; exists u; split; [done|right; split; [by intros [?%Hown _]|done]]|].
    assert (named_by_address u) as Hn by (by apply Hown). destruct (elevate_ok_spec (u_worker u) json s Hm Hc) as (b & Eb & Hb); [apply Hn|].
    apply swp_bind. unfold swp at 1. rewrite Eb. destruct b; cbn [negb].
    - apply swp_bind. unfold set_flag. apply swp_bind. eapply swp_load; [done|]. eapply swp_store; [done|]. apply swp_bind, swp_bind.
      eapply swp_load; [apply lookup_insert_eq|]. eapply swp_store; [apply lookup_insert_eq|]. rewrite new_reply_eq. apply swp_bind, swp_ret.
      apply swp_bind. eapply swp_mono; [eapply send_any; [|done|apply lookup_insert_eq]; done|]. intros ? s' [E _]. apply swp_ret. eexists.
      split; [rewrite E; cbn [cs_users set_users]; by rewrite insert_insert_eq|]. left. split; [done|]. split; [by apply Hb|]. done.
    - unfold error_reply, set_stratum_error. rewrite new_reply_eq. apply swp_bind, swp_bind, swp_ret. apply swp_bind. rewrite array_with_eq. apply swp_ret, swp_ret.
      eapply swp_mono; [by eapply send_any|]. intros ? s' [E _]. exists u. split; [congruence|]. right. split; [|done]. intros [_ Ha]. by apply Hb in Ha. }
  apply swp_run in Hs as (r & s' & E & u' & Hu' & He). by exists r, s', u'.
Qed.

(** ** Requests that fault *)
Lemma deref_some {A B} (a : A) (k : A → SM (cst user_t) B) s : (deref (Some a) ≫= k) s = k a s.
Proof. done. Qed.
Lemma bind_none {A B} (m : SM (cst user_t) A) (k : A → SM (cst user_t) B) s : (∀ a s', k a s' = None) → (m ≫= k) s = None.
Proof. intros Hk. unfold mbind, SM_bind. destruct (m s) as [[a s']|]; [apply Hk|done]. Qed.
Lemma bind_fault {A B} (m : SM (cst user_t) A) (k : A → SM (cst user_t) B) s : m s = None → (m ≫= k) s = None.
Proof. intros Hm. unfold mbind, SM_bind. by rewrite Hm. Qed.
Lemma validate_faults t p json s : ¬ submit_ok json → stratum_validate_submit max_fd shaddr t p json s = None.
Proof.
  intros Hn. unfold stratum_validate_submit. unfold submit_ok in Hn. cbv zeta in *. destruct (shjson_array_astr json _ 1) as [j|]; [|by destruct Hn; left].
  destruct (shjson_array_astr json _ 3) as [a|]; [|done]. rewrite deref_some. destruct (shjson_array_astr json _ 4) as [b|]; [|done]. rewrite deref_some.
  destruct (shjson_array_astr json _ 0) as [c|]; [|done]. rewrite deref_some. apply bind_none. intros r s1.
  destruct (shjson_array_astr json _ 2) as [xn|]; [|done]. rewrite deref_some. apply bind_fault. unfold fits_array.
  destruct (Z.ltb_spec (zlen xn) 256); [|done]. destruct Hn. right. eauto 10.
Qed.
(** C40: The converse: a request of a client without RPC access, with no result
    string, that resumes a session without naming it, or that submits a share
    with a job and without one of the other four strings or with an extra nonce
    of 256 bytes or more, makes the server use a null pointer or write behind an
    array, whatever the rest of the state. (A share without a job is refused
    with an error, and is not one of these.) *)
Theorem stratum_request_faults p json s m : shjson_astr (Some json) (Some (bytes "method")) None = Some m → m ≠ bytes "stratum.elevate" →
  shjson_strlen (Some json) (Some (bytes "result")) = 0 → ¬ request_ok json →
  (∀ u, cs_users s !! p = Some u → has_flag (u_flags u) USER_RPC = false) → stratum_request_message max_fd shaddr q p json s = None.
Proof.
  intros Em He Hr Hn Hu. unfold stratum_request_message. destruct (cs_users s !! p) as [u|] eqn:Eu.
  2: { apply bind_fault. unfold sess_mod. apply bind_fault. unfold node_load, sopt. by rewrite Eu. }
  set (u1 := u_set_sess (set_cur_id (request_id json) (u_sess u)) u). set (s1 := set_users (<[p := u1]> (cs_users s)) s).
  assert (sess_mod p (set_cur_id (request_id json)) s = Some (tt, s1)) as E1.
  { unfold sess_mod, node_store, node_load, sopt, mbind, SM_bind. rewrite Eu. cbv beta iota. rewrite Eu. done. }
  assert (node_load p s1 = Some (u1, s1)) as E2 by (unfold node_load, sopt; cbn [s1 set_users cs_users]; by rewrite lookup_insert_eq).
  unfold mbind at 1, SM_bind at 1. rewrite E1. unfold mbind at 1, SM_bind at 1. rewrite E2. rewrite Hr. cbn [Z.eqb negb]. rewrite andb_false_r. cbv zeta. rewrite Em.
  change (u_flags u1) with (u_flags u). rewrite (Hu u eq_refl).
  destruct (decide (m = bytes "mining.resume")) as [->|Hres].
  - rewrite (method_find max_fd shaddr q _ p json _ (req_resume max_fd q p json) (methods_differ _ _ _ _ _ _)) by (by apply (list_elem_of_lookup_2 _ 4)).
    unfold req_resume. destruct (shjson_array_astr json _ 0) eqn:E0; [|done]. destruct Hn. intros m' Em'. rewrite Em in Em'. injection Em' as <-. by rewrite E0.
  - destruct (decide (m = bytes "mining.submit")) as [->|Hsub].
    + rewrite (method_find max_fd shaddr q _ p json _ (req_submit max_fd shaddr q p json) (methods_differ _ _ _ _ _ _)) by (by apply (list_elem_of_lookup_2 _ 5)).
      unfold req_submit. apply bind_fault, validate_faults. intros Hs. destruct Hn. intros m' Em'. rewrite Em in Em'. by injection Em' as <-.
    + destruct Hn. intros m' Em'. rewrite Em in Em'. by injection Em' as <-.
Qed.
End thm.

(** ** Rounds *)
Section rounds.
Context `{RealOk} `{Double} `{HeapOk} `{!Server}.
Implicit Types (s : cst user_t) (cl : list (Z * user_t)).
(** The slot of [block_avg] that the round of an hour is added to by
    [stratum_round_reset]. *)
Definition hour_slot (hour : Z) : nat := Z.to_nat (hour mod Z.of_nat MAX_ROUNDS_PER_HOUR).
Definition hour_avg (slot : nat) (u : user_t) : F := default f0 (u_block_avg u !! slot).
Definition counts (slot : nat) (u : user_t) : bool := negb (fltb (hour_avg slot u) (fdiv (f_of 1) (f_of 1000000))).
Definition slot_shares (slot : nat) (us : list user_t) (a : F) : F := foldl (λ a u, if counts slot u then fadd a (hour_avg slot u) else a) a us.
Definition slot_workers (slot : nat) (us : list user_t) : Z := foldr (λ u n, if counts slot u then n + 1 else n) 0 us.

Lemma alter_twice {A} (f g : A → A) i (l : list A) : alter f i (alter g i l) = alter (f ∘ g) i l.
Proof. revert i. induction l as [|x l IH]; intros [|i]; [done..|]. cbn. f_equal. apply IH. Qed.
Lemma round_fold idx r us acc : foldl (round_add idx r) acc us = (alter (slot_shares idx us) r acc.1, alter (λ n, n + slot_workers idx us) r acc.2).
Proof.
  revert acc. induction us as [|u us IH]; intros acc.
  - cbn [foldl slot_shares slot_workers foldr]. rewrite !list_alter_id by (intros; cbn; lia || done). by destruct acc.
  - cbn [foldl]. rewrite IH. assert (∀ a, slot_shares idx (u :: us) a = slot_shares idx us (if counts idx u then fadd a (hour_avg idx u) else a)) as Es by done.
    assert (slot_workers idx (u :: us) = if counts idx u then slot_workers idx us + 1 else slot_workers idx us) as Ew by done.
    unfold round_add. fold (hour_avg idx u). unfold counts in Es, Ew. destruct (fltb _ _); cbn [negb fst snd] in *; rewrite ?alter_twice;
      (f_equal; (apply list_alter_ext; [intros x _; unfold compose; first [by rewrite Es|rewrite Ew; lia]|done])).
Qed.
Lemma rounds_loop_spec hour idxs acc s cl : rep s cl →
  rounds_loop hour idxs acc s = Some (foldl (λ acc idx, (alter (slot_shares idx cl.*2) (round_index hour idx) acc.1,
    alter (λ n, n + slot_workers idx cl.*2) (round_index hour idx) acc.2)) acc idxs, s).
Proof.
  intros Hr. revert acc. induction idxs as [|idx idxs IH]; intros acc; [done|]. cbn [rounds_loop foldl].
  destruct (swp_run _ _ _ (fold_list_spec (round_add idx (round_index hour idx)) acc s cl Hr ltac:(done))) as (r & s' & E & -> & ->).
  unfold mbind, SM_bind. rewrite E. rewrite round_fold. apply IH.
Qed.
Lemma rounds_result now s cl : 0 ≤ now → rep s cl →
  rounds_loop (round_hour now) (seq 0 MAX_ROUNDS_PER_HOUR) (replicate MAX_ROUNDS_PER_HOUR f0, replicate MAX_ROUNDS_PER_HOUR 0) s =
  Some (((λ i, slot_shares (hour_slot (now / 3600 - Z.of_nat i)) cl.*2 f0) <$> seq 0 MAX_ROUNDS_PER_HOUR,
         (λ i, slot_workers (hour_slot (now / 3600 - Z.of_nat i)) cl.*2) <$> seq 0 MAX_ROUNDS_PER_HOUR), s).
Proof.
  intros Hn Hr. rewrite (rounds_loop_spec _ _ _ s cl Hr). do 2 f_equal. unfold round_hour, hour_slot, MAX_ROUNDS_PER_HOUR.
  assert (0 ≤ now / 3600) by (apply Z.div_pos; lia). rewrite Z.quot_div_nonneg, Z.rem_mod_nonneg by lia. change (Z.of_nat 6) with 6.
  set (h := now / 3600) in *. pose proof (Z.mod_pos_bound h 6 ltac:(lia)) as Hb.
  assert (∀ i, (h - i) mod 6 = (h mod 6 - i) mod 6) as Em by (intros i; by rewrite Zminus_mod_idemp_l).
  cbn [seq fmap list_fmap]. rewrite !Em. assert (h mod 6 = 0 ∨ h mod 6 = 1 ∨ h mod 6 = 2 ∨ h mod 6 = 3 ∨ h mod 6 = 4 ∨ h mod 6 = 5) as Hc by lia.
  destruct_or! Hc; rewrite Hc; reflexivity.
Qed.

(** The report of the mining rounds gives for each of the last six hours
    the shares and the number of the workers of the slot that the round reset of
    that hour writes, the current hour first: that the code swaps the index it
    adds to with the one it reads makes no difference. *)
Theorem stratum_rounds now s cl : 0 ≤ now → rep s cl →
  let slot i := hour_slot (now / 3600 - Z.of_nat i) in
  ∃ data, round_nodes now ((λ i, slot_shares (slot i) cl.*2 f0) <$> seq 0 6) ((λ i, slot_workers (slot i) cl.*2) <$> seq 0 6)
      (foldl (λ speed u, fadd speed (stratum_user_speed u)) f0 cl.*2) = Some data ∧
    getminingroundsinfo now s = Some (add_name (shjson_null_add (item None SHJSON_OBJECT) (Some (bytes "error"))) (Some (bytes "result")) (Some data), s).
Proof.
  intros Hn Hr slot. match goal with |- ∃ data, round_nodes _ ?a ?b ?c = _ ∧ _ => destruct (nodes_some now a b c) as [data Hd] end. exists data. split; [done|].
  unfold getminingroundsinfo. rewrite new_reply_eq. unfold mbind at 1, SM_bind at 1. cbn [mret SM_ret]. unfold mbind at 1, SM_bind at 1.
  rewrite (rounds_result now s cl Hn Hr).
  destruct (swp_run _ _ _ (fold_list_spec (λ speed u, fadd speed (stratum_user_speed u)) f0 s cl Hr ltac:(done))) as (r & s' & E & -> & ->).
  unfold mbind at 1, SM_bind at 1. rewrite E. cbv beta iota. match goal with |- (deref ?o ≫= _) _ = _ => change o with (round_nodes now ((λ i, slot_shares (slot i) cl.*2 f0) <$> seq 0 6) ((λ i, slot_workers (slot i) cl.*2) <$> seq 0 6) (foldl (λ speed u, fadd speed (stratum_user_speed u)) f0 cl.*2)) end. by rewrite Hd.
Qed.
End rounds.

(** ** The API service *)
(** A request of the API service whose method is not one of the API is
    answered by the error of unknown methods and the identifier of the request,
    in one line at the end of the write queue. *)
Theorem shapi_unknown_method `{RealOk} `{Double} `{HeapOk} `{!Server} max_fd fmt l m v p (s : cst shapi_t) a w : jwf (VObj l) →
  member (bytes "method") l = Some (VStr m) → take 4 m ≠ bytes "api." → echoes (member (bytes "id") l) v →
  desc_ok (cs_desc s) → cs_users s !! p = Some a → a_fd a ≠ -1 →
  let text := jtext false 0 (VObj [(bytes "error", VArr [VNum ERR_NOMETHOD; VStr (bytes "invalid command"); VNull]); (bytes "result", VNull); (bytes "id", v)]) ++ [x0a] in
  open_conn max_fd (cs_desc s) (a_fd a) w (zlen text) →
  ∃ json s', shjson_init (Some (jtext fmt 0 (VObj l))) = Ok json ∧ shapi_request_message max_fd p json s = Some (0, s') ∧
    wdata (dt_slot (dt_alloc (cs_desc s')) (a_fd a)) = w ++ text ∧ others (cs_desc s) (cs_desc s') (a_fd a).
Proof.
  intros Hl Em Hm He Hok Ha Hfd text Hoc. set (json := tree None (VObj l)). set (a1 := a_set_cur_id (request_id json) a).
  set (s1 := set_users (<[p := a1]> (cs_users s)) s). assert (cs_users s1 !! p = Some a1) as Ha1 by apply lookup_insert_eq.
  assert (swp (shapi_request_message max_fd p json) s (λ r s', r = 0 ∧ wrote max_fd (a_fd a) w (zlen text) text s1 s')) as Hs.
  { unfold shapi_request_message. apply swp_bind. eapply swp_load; [done|]. apply swp_bind. eapply swp_store; [done|]. cbv zeta. unfold json.
    rewrite (astr_member l (bytes "method")), Em. rewrite bool_decide_false by done. rewrite new_reply_eq. apply swp_bind, swp_ret.
    apply (error_holds _ []); [apply holds_new|done|]. intros t Ht. unfold shapi_send_message. apply swp_bind. eapply swp_load; [exact Ha1|].
    change (a_fd a1) with (a_fd a). rewrite (proj2 (Z.eqb_neq _ _) Hfd). eapply send_spec; [done| | |done|done].
    - apply holds_value, (echo_reply l v _ [_; _]); [done| |unfold fresh; compute_dec]. apply (holds_null _ [_]); [done|]. unfold fresh; compute_dec.
    - apply (echo_wf l v [_; _]); [done..|]. cbn. repeat split; first [lia|compute_dec]. }
  apply swp_run in Hs as (r & s' & E & -> & (_ & _ & _ & _ & Hoc' & Hot)). exists json, s'.
  split; [by apply text_parses|]. split; [done|]. split; [by apply oc_data in Hoc'|]. done.
Qed.

(** ** The file of RPC keys *)
Definition dat_text (l : list (list byte * list byte)) : list byte := concat ((λ e, e.1 ++ x20 :: e.2 ++ [x0a]) <$> l).
Definition entry_ok (e : list byte * list byte) : Prop := (x20 ∉ e.1) ∧ Forall (λ c, c ∉ [x00; x0d; x0a]) (e.1 ++ e.2).
Definition applies (is_local : list byte → bool) (host : list byte) (e : list byte * list byte) : bool :=
  bool_decide (host = localhost) && is_local e.1 || strcasecmp host e.1.
Lemma strtok_line cur t r : Forall (λ c, c ∉ [x0d; x0a]) t → cur ++ t ≠ [] →
  strtok [x0d; x0a] cur (t ++ x0a :: r) = (cur ++ t) :: strtok [x0d; x0a] [] r.
Proof.
  revert cur. induction t as [|c t IH]; intros cur Ht Hn.
  - rewrite app_nil_r in *. cbn [app strtok]. rewrite bool_decide_true by set_solver. by destruct cur.
  - apply Forall_cons in Ht as [Hc Ht]. cbn [app strtok]. rewrite bool_decide_false by done. rewrite IH; [|done|by destruct cur]. by rewrite <-(assoc_L (++)).
Qed.
Lemma cut_name acc n k : x20 ∉ n → cut_space acc (n ++ x20 :: k) = Some (acc ++ n, k).
Proof.
  revert acc. induction n as [|c n IH]; intros acc Hn; cbn [app cut_space].
  - by rewrite bool_decide_true, app_nil_r.
  - apply not_elem_of_cons in Hn as [Hc Hn]. rewrite bool_decide_false by done. rewrite IH by done. by rewrite <-(assoc_L (++)).
Qed.
Lemma dat_tokens l : Forall entry_ok l → strtok [x0d; x0a] [] (dat_text l) = (λ e, e.1 ++ x20 :: e.2) <$> l.
Proof.
  induction 1 as [|e l [Hs He] Hl IH]; [done|]. unfold dat_text. cbn [fmap list_fmap concat]. fold (dat_text l).
  replace ((e.1 ++ x20 :: e.2 ++ [x0a]) ++ dat_text l) with ((e.1 ++ x20 :: e.2) ++ x0a :: dat_text l) by (rewrite <-!(assoc_L (++)); cbn; by rewrite <-(assoc_L (++))).
  rewrite strtok_line; [by rewrite IH| |by destruct e.1].
  apply Forall_app in He as [H1 H2]. apply Forall_app. split; [|constructor; [compute_dec|]]; (eapply Forall_impl; [eassumption|set_solver]).
Qed.
Lemma dat_nul l : Forall entry_ok l → x00 ∉ dat_text l.
Proof.
  induction 1 as [|e l [Hs He] Hl IH]; [by apply not_elem_of_nil|]. unfold dat_text. cbn [fmap list_fmap concat]. fold (dat_text l).
  apply Forall_app in He as [H1 H2]. rewrite Forall_forall in H1, H2. rewrite !elem_of_app, elem_of_cons, elem_of_app, list_elem_of_singleton.
  intros [[Hx|[Hx|[Hx|Hx]]]|Hx]; [by apply (H1 _ Hx); left|done|by apply (H2 _ Hx); left|done|done].
Qed.

(** The key of an RPC host is that of the first line of rpc.dat that names
    it, without case; the local host takes the option when that is a key, and
    else the first line of any local name. *)
Theorem rpc_dat_lookup rpc_key l is_local host : Forall entry_ok l →
  let file := List.find (applies is_local host) l ≫= λ e, shkey_gen (Some e.2) in
  get_rpc_dat_password rpc_key (Some (dat_text l)) is_local (Some host) =
    if bool_decide (host = localhost) then match shkey_hexgen rpc_key with Some key => Some key | None => file end else file.
Proof.
  intros Hl file. unfold get_rpc_dat_password. change (default localhost (Some host)) with host. rewrite cstring_id by (by apply dat_nul). rewrite dat_tokens by done.
  assert (dat_loop is_local host ((λ e, e.1 ++ x20 :: e.2) <$> l) = file) as Ef; [|by rewrite Ef].
  subst file. induction Hl as [|e l [Hs He] Hl IH]; [done|]. cbn [fmap list_fmap dat_loop List.find]. rewrite cut_name by done. cbn [app]. unfold applies at 1.
  destruct (_ && _); [done|]. by destruct (strcasecmp host e.1).
Qed.

(** ** Instances *)
#[local] Existing Instance int_real.
#[local] Existing Instance int_real_ok.
#[local] Existing Instance json_heap.
#[local] Existing Instance json_heap_ok.
#[local] Existing Instance shares_Z.
#[local] Instance demo_server : Server := {|
  sv_coin i := if (i =? 1)%nat then Some (bytes "shc", true) else None; sv_text _ := Some result_null;
  sv_submit _ _ _ _ := (0, bytes "00ff", 5); sv_height _ := 10; sv_factor _ := 1; sv_nonce := bytes "08000002"; sv_api _ _ _ _ := None; sv_shapi _ _ _ _ := None;
  sv_transactions _ := (0, None); sv_errstr _ := bytes "error"; sv_rpc _ _ _ := (0, Some result_null);
  sv_addr_crc i _ := Z.of_nat i; sv_ext_addr_crc i _ := Z.of_nat i; sv_real := id |}.
#[local] Instance demo_server_ok : ServerOk.
Proof.
  assert (shjson_init (Some result_null) = Ok (tree None (VObj [(bytes "result", VNull); (bytes "error", VNull)]))) as E
    by (rewrite result_null_text; apply text_parses, result_wf).
  split; [intros c t [= <-]; eexists; exact E|by eexists|intros b i j; change (sv_rpc b i j).2 with (Some result_null); by rewrite E|done].
Qed.
Definition demo_host : list byte := bytes "10.0.0.9".
Definition demo_dat : list (list byte * list byte) := [(bytes "backup", bytes "none"); (demo_host, shkey_print (Some demo_sk))].
Definition demo_env : req_env :=
  ReqEnv 90000 90000 7 (bytes "a1b2") (bytes "key") (λ _, demo_host) None (Some (dat_text demo_dat)) (λ _, false) sha_zero (zeros 128) [].
Definition demo_user : user_t := miner 5 USER_CLIENT 7 0 demo_host.
Definition demo_conns : dtab := DTab (Some {[5 := Desc 1 (Z.lor DF_SOCK DF_SERVICE) 0 0 0 None None null_addr]}) 0 0 0.
Definition demo_state : cst user_t := of_list [(1, demo_user)] 2 demo_conns.
Lemma demo_conns_ok : desc_ok demo_conns.
Proof.
  split; [by eexists|]. intros fd b. change (dt_slot (dt_alloc demo_conns) fd) with (default null_desc (({[5 := Desc 1 (Z.lor DF_SOCK DF_SERVICE) 0 0 0 None None null_addr]} : gmap Z desc_t) !! fd)).
  destruct (decide (fd = 5)) as [->|]; [by rewrite lookup_singleton_eq|by rewrite lookup_singleton_ne].
Qed.
Lemma demo_open n : 0 ≤ n < 2 ^ 20 → open_conn 1024 demo_conns 5 [] n.
Proof. intros Hn. split; [done|vm_compute; discriminate|reflexivity|intros b E; vm_compute in E; discriminate E|reflexivity|]. cbn [length]. lia. Qed.
Lemma demo_entries : Forall entry_ok demo_dat.
Proof. repeat constructor; compute_dec. Qed.


Definition demo_resume : list (list byte * jval) :=
  [(bytes "ID", VStr (bytes "12-a")); (bytes "method", VStr (bytes "mining.resume")); (bytes "params", VArr [VStr (bytes "ffff")])].
Lemma stratum_replies_witness : ∃ json s', shjson_init (Some (jtext true 0 (VObj demo_resume))) = Ok json ∧
  stratum_request_message 1024 demo_shaddr demo_env 1 json demo_state = Some (0, s') ∧
  wdata (dt_slot (dt_alloc (cs_desc s')) 5) =
    [] ++ jtext false 0 (VObj ([(bytes "error", VArr [VNum 61; VStr (bytes "Bad session id"); VNull]); (bytes "result", VBool false)] ++ [(bytes "id", VNum 12)])) ++ [x0a] ∧
  others demo_conns (cs_desc s') 5 ∧
  cs_users s' = <[1 := u_set_sess (set_cur_id (request_id json) (u_sess demo_user)) demo_user]> (cs_users demo_state).
Proof.
  apply (stratum_replies 1024 demo_shaddr demo_env true demo_resume _ (VNum 12) 1 demo_state demo_user []);
    [cbn; repeat split; compute_dec|by apply (ans_session _ _ (bytes "ffff") [])|by apply echo_digits|reflexivity|apply demo_conns_ok|reflexivity|done|].
  apply demo_open. vm_compute. by split.
Defined.

Lemma same_result {A B} (f : A → B) `{!Inj (=) (=) f} (o : option B) x y : o = Some (f x) → o = Some (f y) → x = y.
Proof. intros -> [= E]. by apply (inj f). Qed.
(** The digest of the key of the host and its pin. *)
Definition demo_auth : list byte := bytes "04d2e27244b871f1956f8b2860a660c795ad915ad6faf8ffb0926c160208ed10".
Lemma demo_auth_eq : elevate_auth demo_sk = demo_auth.
Proof.
  assert (shsha_hex sha_zero (zeros 128) SHALG_SHA256 (key_bytes demo_sk) = Some (0, elevate_auth demo_sk)) as E.
  { unfold shsha_hex. change SHALG_SHA256 with (kind_alg K256). rewrite shsha_spec; [|compute_dec|vm_compute; reflexivity]. cbn [mbind option_bind negb Z.eqb]. unfold elevate_auth. reflexivity. }
  assert (shsha_hex sha_zero (zeros 128) SHALG_SHA256 (key_bytes demo_sk) = Some (0, demo_auth)) as E' by (vm_compute; reflexivity).
  exact (same_result (pair 0) _ _ _ E E').
Qed.
Lemma demo_pin_eq : elevate_pin demo_env demo_sk = 206006661.
Proof.
  assert (shsha_2fa_bin (zeros 128) [] 90000 (kind_alg K256) (Some (key_bytes demo_sk)) (zlen (key_bytes demo_sk)) RPC_AUTH_FREQ = Some (elevate_pin demo_env demo_sk)) as E.
  { apply get_pin_spec; [compute_dec|right; compute_dec|vm_compute; reflexivity|split; vm_compute; [reflexivity|by split]]. }
  assert (shsha_2fa_bin (zeros 128) [] 90000 (kind_alg K256) (Some (key_bytes demo_sk)) (zlen (key_bytes demo_sk)) RPC_AUTH_FREQ = Some 206006661) as E'
    by (vm_compute; reflexivity).
  exact (same_result id _ _ _ E E').
Qed.
Definition demo_elevate : shjson_t := tree None (VObj [(bytes "method", VStr (bytes "stratum.elevate"));
  (bytes "params", VArr [VStr demo_auth; VNum 206006661])]).
Lemma stratum_elevate_exact_witness : ∃ s' u', req_elevate 1024 demo_shaddr demo_env 1 demo_elevate demo_state = Some (0, s') ∧
  cs_users s' !! 1 = Some u' ∧ has_flag (u_flags u') USER_RPC = true.
Proof.
  destruct (stratum_elevate_exact 1024 demo_shaddr demo_env 1 demo_elevate demo_state demo_user) as (r & s' & u' & E & Eu & He);
    [compute_dec|split; vm_compute; [reflexivity|by split]|apply demo_conns_ok|reflexivity|done|].
  destruct He as [(_ & _ & -> & ->)|[[] _]].
  - exists s'. eexists. split; [exact E|]. split; [by rewrite Eu, lookup_insert_eq|reflexivity].
  - split; [split_and!; [by vm_compute..|eexists; split; reflexivity]|]. exists demo_sk. rewrite demo_auth_eq, demo_pin_eq. split_and!; vm_compute; reflexivity.
Defined.

Definition demo_null : shjson_t := tree None (VObj [(bytes "method", VStr (bytes "mining.resume")); (bytes "params", VArr [VNum 5])]).
Lemma stratum_request_faults_witness : stratum_request_message 1024 demo_shaddr demo_env 1 demo_null demo_state = None.
Proof.
  apply (stratum_request_faults 1024 demo_shaddr demo_env 1 demo_null demo_state (bytes "mining.resume"));
    [reflexivity|by vm_compute|reflexivity| |by intros u [= <-]].
  intros Hn. destruct (Hn (bytes "mining.resume") eq_refl) as (_ & Hr & _). destruct (Hr eq_refl) as [x Hx]. vm_compute in Hx. discriminate Hx.
Defined.

Definition demo_worker : user_t := User (bytes "rig") 5 USER_CLIENT 0 0 0 [1; 2; 3; 4; 5; 6] 0 (replicate 7 0) 0 0 1 _shkey_blank 0 0 session_zero.
Definition demo_workers : cst user_t := of_list [(1, demo_worker)] 2 demo_conns.
Lemma stratum_rounds_witness : ∃ data, round_nodes 90000 [2; 1; 6; 5; 4; 3] [1; 1; 1; 1; 1; 1] 0 = Some data ∧
  getminingroundsinfo 90000 demo_workers =
    Some (add_name (shjson_null_add (item None SHJSON_OBJECT) (Some (bytes "error"))) (Some (bytes "result")) (Some data), demo_workers).
Proof.
  destruct (stratum_rounds 90000 demo_workers [(1, demo_worker)]) as (data & E1 & E2); [done| |].
  - apply of_list_rep; [done|repeat constructor; by apply not_elem_of_nil|by repeat constructor].
  - exists data. split; [exact E1|exact E2].
Defined.

Definition demo_api : cst shapi_t := of_list [(1, Shapi 5 0 [])] 2 demo_conns.
Definition demo_call : list (list byte * jval) := [(bytes "method", VStr (bytes "getinfo"))].
Lemma shapi_unknown_method_witness : ∃ json s', shjson_init (Some (jtext false 0 (VObj demo_call))) = Ok json ∧ shapi_request_message 1024 1 json demo_api = Some (0, s') ∧
  wdata (dt_slot (dt_alloc (cs_desc s')) 5) =
    [] ++ jtext false 0 (VObj [(bytes "error", VArr [VNum ERR_NOMETHOD; VStr (bytes "invalid command"); VNull]); (bytes "result", VNull); (bytes "id", VNull)]) ++ [x0a] ∧
  others demo_conns (cs_desc s') 5.
Proof.
  apply (shapi_unknown_method 1024 false demo_call (bytes "getinfo") VNull 1 demo_api (Shapi 5 0 []) []);
    [cbn; repeat split; compute_dec|reflexivity|by vm_compute|by apply echo_null; left|apply demo_conns_ok|reflexivity|done|].
  apply demo_open. vm_compute. by split.
Defined.

Lemma rpc_dat_lookup_witness : get_rpc_dat_password None (Some (dat_text demo_dat)) (λ _, false) (Some demo_host) = Some demo_sk.
Proof.
  rewrite (rpc_dat_lookup None demo_dat (λ _, false) demo_host demo_entries). vm_compute. reflexivity.
Defined.

(** ** A round of the timer

    A line that arrived is parsed and answered in the same round. *)
Definition demo_parse (line : list byte) : option shjson_t := match shjson_init (Some line) with Ok json => Some json | _ => None end.
Definition demo_in (line : list byte) : dtab :=
  DTab (Some {[5 := Desc 1 (Z.lor DF_SOCK DF_SERVICE) 0 0 0 (Some (shbuf_cat shbuf_init line)) None null_addr]}) 0 0 0.
Example stratum_round : let ping := jtext false 0 (VObj [(bytes "id", VNum 7); (bytes "method", VStr (bytes "mining.ping"))]) ++ [x0a] in
  let pong := jtext false 0 (VObj [(bytes "error", VNull); (bytes "result", VNull); (bytes "id", VNum 7)]) ++ [x0a] in
  (λ r, wdata (dt_slot (dt_alloc (cs_desc r.2)) 5)) <$>
    stratum_timer 1024 demo_parse (stratum_request_message 1024 demo_shaddr demo_env) demo_http 90000 (of_list [(1, demo_user)] 2 (demo_in ping)) = Some pong.
Proof. vm_compute. reflexivity. Qed.
