(* ===== verification/CodecThm.v ===== *)
(** * Text forms of binary data: theorems

    Every form gives back the bytes that were encoded, base 58 with a checksum
    gives out only bytes that carry it, and the inputs at which the forms leave
    their buffers. *)

From S2P Require Import Prelude Errors Shbuf Crc Sha ShaSpec Hmac HmacSpec Key KeyThm Opt OptSpec Shmap ShmapSpec ShmapInv Json JsonSpec Codec CodecSpec StratumReply.

#[local] Instance codec_heap : Heap := λ _, true.
#[local] Instance codec_heap_ok : HeapOk.
Proof. done. Qed.

(** ** Each form *)
Definition reads_back `{Heap} (val0 fmt : Z) (data : list byte) (data_max : Z) : Prop :=
  ∃ text, shalg_encode val0 fmt data = Ok text ∧ (x00 ∉ text) ∧ zlen text < RET_BUF ∧ shalg_decode fmt text data_max = Ok (0, data).
Lemma terminated_ok size text : zlen text < size → terminated size text = Ok text.
Proof. intros Hl. unfold terminated. by rewrite (proj2 (Z.ltb_lt _ _)). Qed.
Lemma div_bound a b c : (0 < b)%nat → (a ≤ b * c)%nat → (a / b ≤ c)%nat.
Proof. intros Hb Ha. apply Nat.Div0.div_le_upper_bound. lia. Qed.
Section forms.
Context `{HeapOk} (val0 : Z) (data : list byte) (data_max : Z).
Hypothesis Hlen : (1 ≤ length data ≤ 2047)%nat.
Hypothesis Hmax : zlen data ≤ data_max < 2 ^ 63.
Lemma hex_back : reads_back val0 SHFMT_HEX data data_max.
Proof.
  destruct (hex_read_back data) as (E1 & E2 & E3). exists (hex_string data). split_and!; [|done|unfold RET_BUF; lia|].
  - change (shalg_encode val0 SHFMT_HEX data) with (_shalg_encode_hex RET_BUF data). unfold _shalg_encode_hex, RET_BUF. rewrite (proj2 (Z.leb_gt _ _)) by lia. apply terminated_ok. lia.
  - unfold shalg_decode, _shalg_decode_hex. cbn [Z.eqb SHFMT_HEX]. rewrite E1, (proj2 (Z.leb_le _ _)) by lia. done.
Qed.
Lemma b32_back : reads_back val0 SHFMT_BASE32 data data_max.
Proof.
  destruct (text32_chars data) as [E1 E2]. pose proof (div_bound (length data + 4) 5 411 ltac:(lia) ltac:(lia)). exists (b32_text data). split_and!; [|done|unfold RET_BUF; lia|].
  - change (shalg_encode val0 SHFMT_BASE32 data) with (_shalg_encode_b32 RET_BUF data). unfold _shalg_encode_b32, shbase32_encode, RET_BUF. rewrite take_ge by lia.
    rewrite (proj2 (Nat.ltb_lt _ _)) by lia. rewrite cstring_app by done. apply terminated_ok. lia.
  - unfold shalg_decode, _shalg_decode_b32. cbn [Z.eqb SHFMT_BASE32 SHFMT_HEX Pos.eqb]. by rewrite decode32_spec by lia.
Qed.
Lemma b58_back : reads_back val0 SHFMT_BASE58 data data_max.
Proof.
  pose proof (div_bound (length data * 138) 100 2826 ltac:(lia) ltac:(lia)). destruct (encode58_spec RET_BUF data) as (text & z & bin & ds & Et & Ht); [unfold RET_BUF; lia|].
  assert (length data = z + length bin)%nat as El by (rewrite (t_data _ _ _ _ _ Ht), length_app; unfold zeros; by rewrite length_replicate).
  exists text. split; [exact Et|]. split; [|split].
  - rewrite (t_text _ _ _ _ _ Ht), elem_of_app. intros [Hx|Hx]; [by apply elem_of_replicate in Hx as [Hx _]|]. apply list_elem_of_fmap in Hx as (d & Hx & Hd).
    pose proof (t_digits _ _ _ _ _ Ht) as Hds. unfold digits_in in Hds. rewrite Forall_forall in Hds. destruct (d58_entry d) as [_ Hn]; [auto|]. by symmetry in Hx.
  - pose proof (t_size _ _ _ _ _ Ht). unfold RET_BUF. lia.
  - change (shalg_decode SHFMT_BASE58 text data_max) with (_shalg_decode_b58 text data_max). unfold _shalg_decode_b58, shbase58_decode_size.
    rewrite (read58 _ _ _ _ _ data_max Ht) by lia. cbn [mbind res_bind]. rewrite u64_small by lia. rewrite (read58 _ _ _ _ _ (zlen data) Ht) by lia.
    rewrite (proj2 (Z.ltb_ge _ _)) by lia. rewrite Nat2Z.id. replace (length data - length bin)%nat with z by lia. rewrite <-(t_data _ _ _ _ _ Ht). by rewrite take_ge by lia.
Qed.
Lemma b64_back : (2 ≤ length data)%nat → reads_back val0 SHFMT_BASE64 data data_max.
Proof.
  intros H2. destruct (text64_chars data) as [E1 E2]. pose proof (div_bound (length data + 2) 3 683 ltac:(lia) ltac:(lia)). exists (b64_text data). split_and!; [|done|unfold RET_BUF; lia|].
  - change (shalg_encode val0 SHFMT_BASE64 data) with (_shalg_encode_b64 RET_BUF data). unfold _shalg_encode_b64, RET_BUF. rewrite encode64_spec by lia. cbn [mbind res_bind]. rewrite take_ge by lia. apply terminated_ok. lia.
  - change (shalg_decode SHFMT_BASE64 (b64_text data) data_max) with (_shalg_decode_b64 (b64_text data) data_max). unfold _shalg_decode_b64. rewrite decode64_spec.
    rewrite (proj2 (Z.ltb_ge _ _)) by lia. by rewrite take_ge by lia.
Qed.
Lemma shr56_back : reads_back val0 SHFMT_SHR56 data data_max.
Proof.
  destruct (text56_chars data val0) as [E1 E2]. pose proof (div_bound (length data + 3) 4 513 ltac:(lia) ltac:(lia)).
  set (r := (length data mod 4)%nat). set (pad := if (r =? 0)%nat then [] else replicate (4 - r) (chr 46)). set (q := ((length data + 3) / 4)%nat) in *.
  assert (length data + length pad = 4 * q ∧ length pad < 4)%nat as [Hp Hp4].
  { unfold pad, q, r. pose proof (Nat.div_mod_eq (length data) 4). pose proof (Nat.mod_upper_bound (length data) 4 ltac:(lia)).
    pose proof (Nat.div_mod_eq (length data + 3) 4). pose proof (Nat.mod_upper_bound (length data + 3) 4 ltac:(lia)). destruct (Nat.eqb_spec (length data mod 4) 0); [cbn [length]|rewrite length_replicate]; lia. }
  assert (zlen (dots (shr56_words val0 data) ++ pad) = 6 * Z.of_nat q + zlen pad) as El by (rewrite length_app, E1; lia).
  exists (dots (shr56_words val0 data) ++ pad). split_and!; [| |unfold RET_BUF; lia|].
  - change (shalg_encode val0 SHFMT_SHR56 data) with (_shalg_encode_shr56 val0 RET_BUF data). apply terminated_ok. fold r. fold pad. unfold RET_BUF. lia.
  - rewrite elem_of_app. intros [Hx|Hx]; [done|]. unfold pad in Hx. destruct (r =? 0)%nat; [by apply elem_of_nil in Hx|]. by apply elem_of_replicate in Hx as [Hx _].
  - change (shalg_decode SHFMT_SHR56 ?t data_max) with (_shalg_decode_shr56 t data_max). unfold _shalg_decode_shr56. rewrite El.
    assert ((6 * Z.of_nat q + zlen pad) mod 6 = zlen pad ∧ (6 * Z.of_nat q + zlen pad) / 6 = Z.of_nat q) as [-> ->] by dlia.
    replace (Z.of_nat q * 4 - zlen pad) with (zlen data) by lia. rewrite (proj2 (Z.ltb_ge (zlen data) 0)), (proj2 (Z.ltb_ge data_max _)) by lia. cbn [orb].
    rewrite !Nat2Z.id. unfold q. rewrite (blocks56 data val0 (zlen data) data_max 0 pad) by lia. cbn [mbind res_bind]. by rewrite take_ge by lia.
Qed.
End forms.

(** C29: Whatever the form, 1 to 2047 bytes (for base 64 at least 2) are
    encoded as a text without zero bytes that fits the static buffer, and
    decoding the text into a buffer that holds the bytes gives them back. *)
Theorem codec_round_trip `{HeapOk} val0 fmt data data_max : SHFMT_HEX ≤ fmt ≤ SHFMT_SHR56 → (1 ≤ length data ≤ 2047)%nat → zlen data ≤ data_max < 2 ^ 63 →
  (fmt = SHFMT_BASE64 → (2 ≤ length data)%nat) →
  ∃ text, shalg_encode val0 fmt data = Ok text ∧ (x00 ∉ text) ∧ zlen text < RET_BUF ∧ shalg_decode fmt text data_max = Ok (0, data).
Proof.
  unfold SHFMT_HEX, SHFMT_SHR56. intros Hf Hl Hm H2. assert (fmt = 0 ∨ fmt = 1 ∨ fmt = 2 ∨ fmt = 3 ∨ fmt = 4) as Hc by lia.
  destruct Hc as [-> | [-> | [-> | [-> | ->]]]]; [by apply hex_back|by apply b32_back|by apply b58_back|apply b64_back; auto|by apply shr56_back].
Qed.
Lemma codec_round_trip_witness : ∃ text, shalg_encode 7 SHFMT_BASE58 [x00; x01; xff] = Ok text ∧ (x00 ∉ text) ∧ zlen text < RET_BUF ∧
  shalg_decode SHFMT_BASE58 text 3 = Ok (0, [x00; x01; xff]).
Proof. apply (codec_round_trip 7 SHFMT_BASE58 [x00; x01; xff] 3); (compute_dec || (split; compute_dec) || done). Defined.
Example hello_texts : (λ fmt, shalg_encode 0 fmt (bytes "hello")) <$> [SHFMT_HEX; SHFMT_BASE32; SHFMT_BASE58; SHFMT_BASE64] =
  [Ok (bytes "68656c6c6f"); Ok (bytes "NBSWY3DP"); Ok (bytes "Cn8eVZg"); Ok (bytes "aGVsbG8=")].
Proof. vm_compute. reflexivity. Qed.

(** ** Leaving the buffers *)
Lemma decode_ones m (n : nat) : 0 < m < 2 ^ 63 → shbase58_decode m (ones n) = Ok (zeros (Z.to_nat m), Z.of_nat n).
Proof.
  intros Hm. pose proof (decode58_spec m n [] ltac:(lia) ltac:(constructor) I) as D. cbv zeta in D. rewrite app_nil_r in D. rewrite D.
  2:{ apply Z.pow_pos_nonneg; lia. }
  change (horner 58 []) with (be_dec []). rewrite be_enc_pad by (cbn; lia). rewrite Nat.sub_0_r, app_nil_r. rewrite <-(app_nil_r (zeros (Z.to_nat m))) at 2. by rewrite strip_zeros.
Qed.
(** Where the text forms leave their buffers: base 64 of fewer than two
    bytes, where the bound of the loop wraps; hexadecimal of 2048 to 8191 bytes,
    since the test of the length lets four times the buffer pass; decoding
    hexadecimal of more than twice the room; decoding base 58 of more ones than
    the room; and base 58 of a text that begins with a byte from 128 on, which
    indexes the table of 128 digits. *)
Theorem codec_overruns `{HeapOk} val0 data text data_max :
  ((length data < 2)%nat → shalg_encode val0 SHFMT_BASE64 data = Fault) ∧
  (2048 ≤ zlen data < 8192 → shalg_encode val0 SHFMT_HEX data = Fault) ∧
  (2 * data_max < zlen text → shalg_decode SHFMT_HEX text data_max = Fault) ∧
  (∀ n, 0 < data_max < Z.of_nat n → Z.of_nat n < 2 ^ 63 → shalg_decode SHFMT_BASE58 (ones n) data_max = Fault) ∧
  (∀ c, 128 ≤ Z_of_byte c → shalg_decode SHFMT_BASE58 (c :: text) data_max = Fault).
Proof.
  split_and!.
  - intros Hl. change (shalg_encode val0 SHFMT_BASE64 data) with (_shalg_encode_b64 RET_BUF data). unfold _shalg_encode_b64, shbase64_encode. rewrite alloc_ok. by destruct data as [|a [|b data]]; [..|cbn in Hl; lia].
  - intros Hl. change (shalg_encode val0 SHFMT_HEX data) with (_shalg_encode_hex RET_BUF data). unfold _shalg_encode_hex, RET_BUF, terminated. rewrite (proj2 (Z.leb_gt _ _)) by lia.
    destruct (hex_read_back data) as (_ & E & _). by rewrite (proj2 (Z.ltb_ge _ _)) by lia.
  - intros Hl. unfold shalg_decode, _shalg_decode_hex. cbn [Z.eqb SHFMT_HEX]. rewrite (proj2 (Z.leb_gt _ _)); [done|].
    assert (∀ t, zlen t ≤ 2 * zlen (hex_bytes t)) as Hb; [|specialize (Hb text); lia].
    intros t. pattern t. apply (chunk_ind 2); clear t; [lia|intros [|a [|b t]] Ht; cbn in *; lia|]. intros h t Hh IH. destruct h as [|a [|b [|]]]; try done. cbn [app hex_bytes length]. lia.
  - intros n Hd Hn. change (shalg_decode SHFMT_BASE58 (ones n) data_max) with (_shalg_decode_b58 (ones n) data_max). unfold _shalg_decode_b58, shbase58_decode_size.
    rewrite decode_ones by lia. cbn [mbind res_bind]. rewrite u64_small, decode_ones by lia. by rewrite (proj2 (Z.ltb_lt _ _)) by lia.
  - intros c Hc. change (shalg_decode SHFMT_BASE58 ?t data_max) with (_shalg_decode_b58 t data_max). unfold _shalg_decode_b58, shbase58_decode_size, shbase58_decode. cbn [b58_ones].
    assert (d58 c = None) as ->; [|done]. apply lookup_ge_None. change (length b58digits_map) with 128%nat. lia.
Qed.
Lemma codec_overruns_witness : shalg_encode 0 SHFMT_BASE64 (bytes "a") = Fault ∧ shalg_decode SHFMT_BASE58 (bytes "11111") 4 = Fault.
Proof.
  destruct (codec_overruns 0 (bytes "a") [] 4) as (H1 & _ & _ & H4 & _). split; [apply H1; compute_dec|]. apply (H4 5%nat); [split; reflexivity|reflexivity].
Defined.

(** ** Base 58 with a checksum *)
Definition SUM (data : list byte) : list byte := take 4 (SHS K256 (SHS K256 data)).
Lemma sha256_eq mem data : (64 ≤ length mem)%nat → zlen data < 2 ^ 32 → sha256 mem data = Ok (SHS K256 data).
Proof. intros Hm Hd. unfold sha256. rewrite sha256_take by (done || lia). by rewrite take_ge. Qed.
Lemma checksum_eq mem data : (64 ≤ length mem)%nat → zlen data < 2 ^ 32 → checksum mem data = Ok (SUM data).
Proof.
  intros Hm Hd. unfold checksum. rewrite sha256_eq by done. cbn [mbind res_bind]. rewrite sha256_eq; [done|done|]. rewrite length_SHS. cbn. lia.
Qed.
Lemma length_SUM data : length (SUM data) = 4%nat.
Proof. unfold SUM. rewrite length_take, length_SHS. cbn. lia. Qed.
Lemma zeros_match data text z bin ds : text58 data text z bin ds → bin ≠ [] → b58_zeros data text = Ok false.
Proof.
  intros [-> -> Hh Hf Hds Hv _] Hb. destruct bin as [|b bin]; [done|]. induction z as [|z IH].
  - cbn [zeros ones replicate app b58_zeros]. rewrite Hh. destruct ds as [|d ds]; [done|]. apply Forall_cons in Hds as [Hd _]. cbn [letters58 fmap list_fmap].
    rewrite bool_decide_false; [done|]. intros E. destruct (d58_entry d Hd) as [E2 _]. rewrite E in E2. change (d58 (chr 49)) with (Some 0) in E2. injection E2 as <-. done.
  - unfold zeros, ones in *. cbn [replicate app b58_zeros tail]. exact IH.
Qed.
Lemma digit_length c outi : length (b58_digit c outi).1 = length outi.
Proof.
  revert c. induction outi as [|w outi IH]; intros c; [done|]. cbn [b58_digit]. specialize (IH (Z.shiftr (Z.land (w * 58 + c) 0x3f00000000) 32)).
  destruct (b58_digit _ outi) as [o' c']. cbn in *. lia.
Qed.
Lemma digits_length mask text : ∀ outi o', b58_digits mask text outi = Ok o' → length o' = length outi.
Proof.
  induction text as [|c text IH]; intros outi o' E; cbn [b58_digits] in E; [by simplify_eq|]. destruct (d58 c) as [d|]; [|done]. destruct (d =? -1); [done|].
  pose proof (digit_length d outi) as Hl. destruct (b58_digit d outi) as [o2 c2]. cbn in Hl. destruct (negb (c2 =? 0)); [done|]. destruct (last o2) as [w|]; [|done].
  destruct (negb _); [done|]. rewrite (IH _ _ E). done.
Qed.
Lemma decode_length m text data len : 0 < m < 2 ^ 63 → shbase58_decode m text = Ok (data, len) → zlen data = m.
Proof.
  intros Hm. unfold shbase58_decode. destruct (b58_ones text) as [[z r]| | |]; try done. cbn [mbind res_bind]. destruct (b58_digits _ _ _) as [o| | |] eqn:E; try done.
  cbn [mbind res_bind]. intros [= <- _]. apply digits_length in E. rewrite length_replicate, u64_small in E by lia.
  rewrite length_drop. rewrite (length_concat_same 4) by (apply Forall_fmap, Forall_true; intros; apply length_be_enc). rewrite length_fmap, length_reverse, E. dlia.
Qed.
Lemma check_inv mem bin text r : (64 ≤ length mem)%nat → zlen bin < 2 ^ 32 → b58check mem bin text = Ok r → 0 ≤ r →
  bin = take (length bin - 4) bin ++ SUM (take (length bin - 4) bin).
Proof.
  intros Hm Hb. unfold b58check. destruct (zlen bin <? 4); [intros [= <-]; lia|]. rewrite checksum_eq; [|done|rewrite length_take; lia]. cbn [mbind res_bind].
  destruct (bool_decide_reflect (drop (length bin - 4) bin = SUM (take (length bin - 4) bin))) as [E|E]; cbn [negb]; [|intros [= <-]; lia].
  intros _ _. rewrite <-E. by rewrite take_drop.
Qed.
(** C30: Up to 128 bytes that are not all zero, encoded in base 58 with the
    first four bytes of the double SHA-256 digest, are decoded back when their
    length is asked for; and what is ever decoded with a non-zero result has that
    length, and is followed in the text by the first four bytes of its digest. *)
Theorem base58_check mem data strsize : (64 ≤ length mem)%nat → (length data ≤ 128)%nat → Exists (λ b, b ≠ x00) data → 2 * (zlen data + 4) < strsize →
  (∃ text, shbase58_encode_check mem data strsize = Ok (zlen text + 1, text) ∧ shbase58_decode_check mem text (zlen data) = Ok (zlen data, data)) ∧
  (∀ text n n' d, 0 ≤ n → shbase58_decode_check mem text n = Ok (n', d) → n' ≠ 0 →
     n' = n ∧ zlen d = n ∧ shbase58_decode (n + 4) text = Ok (d ++ SUM d, n + 4)).
Proof.
  intros Hm Hl Hx Hs. split.
  - pose proof (length_SUM data) as H4. assert (length (data ++ SUM data) = length data + 4)%nat as El by (rewrite length_app; lia).
    destruct (encode58_spec strsize (data ++ SUM data)) as (text & z & bin & ds & Et & Ht).
    { rewrite El. pose proof (div_bound ((length data + 4) * 138) 100 (2 * (length data + 4) - 1) ltac:(lia) ltac:(lia)). lia. }
    exists text. unfold shbase58_encode_check, shbase58_decode_check. rewrite (proj2 (Z.ltb_ge 128 _)), checksum_eq by (done || lia). cbn [mbind res_bind]. rewrite Et.
    split; [done|]. rewrite (read58 _ _ _ _ _ (zlen data + 4) Ht) by lia. rewrite (proj2 (Z.eqb_eq _ _)) by lia. cbn [negb].
    assert (length (data ++ SUM data) = z + length bin)%nat as Ez by (rewrite (t_data _ _ _ _ _ Ht) at 1; rewrite length_app; unfold zeros; by rewrite length_replicate).
    replace (Z.to_nat (zlen data + 4) - length bin)%nat with z by lia. rewrite <-(t_data _ _ _ _ _ Ht).
    assert (bin ≠ []) as Hb. { intros ->. pose proof (t_data _ _ _ _ _ Ht) as Ed. rewrite app_nil_r in Ed. apply Exists_exists in Hx as (b & Hb & Hn).
      assert (b ∈ zeros z) as Hz by (rewrite <-Ed; apply elem_of_app; auto). by apply elem_of_replicate in Hz as [Hz _]. }
    unfold b58check. rewrite (proj2 (Z.ltb_ge _ 4)) by lia. rewrite El. replace (length data + 4 - 4)%nat with (length data) by lia. rewrite take_app_length, drop_app_length.
    rewrite checksum_eq by (done || lia). cbn [mbind res_bind]. rewrite bool_decide_true by done. cbn [negb]. rewrite (zeros_match _ _ _ _ _ Ht Hb). cbn [mbind res_bind].
    rewrite (proj2 (Z.ltb_ge _ 0)) by apply Z_of_byte_range. by rewrite Nat2Z.id, take_app_length.
  - intros text n n' d Hn. unfold shbase58_decode_check. destruct (Z.ltb_spec 128 n) as [Hg|Hg]; [intros [= <- _]; done|].
    destruct (shbase58_decode (n + 4) text) as [[bin len]| | |] eqn:E; try done; [|intros [= <- _]; done].
    destruct (Z.eqb_spec len (n + 4)) as [->|]; cbn [negb]; [|intros [= <- _]; done]. apply decode_length in E as Eb; [|lia].
    destruct (b58check mem bin text) as [r| | |] eqn:Ec; try done. cbn [mbind res_bind]. destruct (Z.ltb_spec r 0); [intros [= <- _]; done|]. intros [= <- <-] _.
    apply check_inv in Ec; [|done|lia|lia]. replace (Z.to_nat n) with (length bin - 4)%nat by lia. split; [done|]. split; [rewrite length_take; lia|]. by rewrite <-Ec.
Qed.
Lemma base58_check_witness : ∃ text, shbase58_encode_check (zeros 64) (bytes "hello") 64 = Ok (zlen text + 1, text) ∧ shbase58_decode_check (zeros 64) text 5 = Ok (5, bytes "hello").
Proof. apply (base58_check (zeros 64) (bytes "hello") 64); [compute_dec|compute_dec|by constructor|reflexivity]. Defined.

(** ** Two-factor secrets as text *)
Lemma strlen_stop l r : x00 ∉ l → strlen (l ++ x00 :: r) = length l.
Proof. induction l as [|c l IH]; intros Hl; [done|]. apply not_elem_of_cons in Hl as [Hc Hl]. cbn [app strlen length]. rewrite decide_False by done. by rewrite IH. Qed.
Lemma secret_read smem secret rest : length secret = 10%nat → take (Z.to_nat SECRET_2FA_SIZE) (read_secret smem (b32_text secret ++ rest)) = secret.
Proof.
  intros Hl. destruct (text32_chars secret) as [_ E]. rewrite Hl in E. unfold read_secret. cbv zeta. rewrite (take_app_length' (b32_text secret)) by (by rewrite E). rewrite decode32_spec by (rewrite Hl; vm_compute; lia).
  cbn [snd]. change (Z.to_nat SECRET_2FA_SIZE) with 10%nat. rewrite <-Hl. apply take_app_length.
Qed.
(** The pin of the base 32 text of a ten-byte secret is the pin of the
    secret at the half minute, and the check of the text accepts exactly the pins
    of that half minute, the one before and the one after.  A generated text has
    the sixteen letters that are asked for, and is that of a secret whose last
    nine bytes are zero. *)
Theorem secret_text_pin mem hash smem secret now pin rand : (128 ≤ length mem)%nat → length secret = 10%nat → clock_ok now 30 →
  shsha_2fa mem hash smem now (Some (b32_text secret)) = Some (PIN K1 secret (now / 30)) ∧
  shsha_2fa_verify mem hash smem now (b32_text secret) pin =
    Some (if bool_decide (pin ∈ (λ i, PIN K1 secret (now / 30 + i)) <$> [-1; 0; 1]) then 0 else ERR_ACCESS) ∧
  shsha_2fa_secret rand = b32_text (byte_of_Z (rand 0%nat) :: zeros 9).
Proof.
  intros Hm Hl Hc. assert (secret_ok (length secret)) as Hs by (left; lia). assert (zlen secret < 2 ^ 31) as Hb by (rewrite Hl; reflexivity).
  destruct (text32_chars secret) as [_ E]. rewrite Hl in E. change SHALG_SHA1 with (kind_alg K1). split_and!.
  - unfold shsha_2fa. rewrite E. change (8 * ((10 + 4) / 5) =? 16)%nat with true. cbn [negb]. rewrite <-(app_nil_r (b32_text secret)), secret_read by done. change SECRET_2FA_SIZE with (Z.of_nat 10). rewrite <-Hl. by apply (get_pin_spec K1).
  - unfold shsha_2fa_verify. rewrite secret_read by done. change SECRET_2FA_SIZE with (Z.of_nat 10). rewrite <-Hl. by rewrite (verify_spec K1).
  - unfold shsha_2fa_secret. change (shsha_2fa_secret_bin rand SECRET_2FA_SIZE) with (byte_of_Z (rand 0%nat) :: zeros 9). set (s := _ :: zeros 9). destruct (text32_chars s) as [Hx Ex].
    unfold shbase32_encode. rewrite take_ge by (rewrite Ex; cbn; lia). rewrite Ex. cbn [length zeros replicate Nat.ltb Nat.leb app]. rewrite app_nil_r.
    unfold zeros. cbn [replicate]. unfold cstring. rewrite strlen_stop by done. apply take_app_length.
Qed.
Lemma secret_text_pin_witness : shsha_2fa_verify (zeros 128) [] [] 90000 (b32_text (zeros 10)) (PIN K1 (zeros 10) 3000) = Some 0.
Proof.
  destruct (secret_text_pin (zeros 128) [] [] (zeros 10) 90000 (PIN K1 (zeros 10) 3000) (λ _, 0)) as (_ & -> & _); [compute_dec|done|split; [reflexivity|split; [discriminate|reflexivity]]|].
  rewrite bool_decide_true; [done|]. apply list_elem_of_fmap. exists 0. split; [reflexivity|]. right. left.
Defined.
