(* ===== verification/WorkThm.v ===== *)
(** * Proof of work: theorems

    The two scrypt functions and the two SHA-256 of the program, the scan for a
    nonce, the console miner, and the header of a work unit. *)

From S2P Require Import Prelude Errors Crc Sha ShaSpec Hmac HmacSpec Key KeyThm Clients Services Scrypt ScryptSpec Ossl OsslSpec Work WorkSpec.

#[local] Opaque P256 SHA256_Transform SHS scrypt scrypt_sp scrypt_1024_1_1_256_sp.

(** ** Digests *)
Lemma updates_hold `{SHA256ok} chunks c m : ctx_holds c m → zlen (m ++ concat chunks) < 2 ^ 61 → ctx_holds (foldl SHA256_Update c chunks) (m ++ concat chunks).
Proof.
  revert c m. induction chunks as [|l chunks IH]; intros c m Hc Hl; cbn [foldl concat] in *; [by rewrite app_nil_r|]. rewrite (assoc_L (++)) in *. apply IH; [|done].
  apply Update_holds; [done|]. rewrite length_app in Hl. lia.
Qed.

(** C11: The two SHA-256 implementations of the program agree with each other and with the standard: however a message is
    cut into pieces, OpenSSL's context fed the pieces and libshare's one-shot digest of the whole give the digest of FIPS 180-4. *)
Theorem sha256_agree mem chunks : (64 ≤ length mem)%nat → zlen (concat chunks) < 2 ^ 32 →
  SHA256_Final (foldl SHA256_Update SHA256_Init chunks) = SHS K256 (concat chunks) ∧
  sh_sha256 mem (Some (concat chunks)) (zlen (concat chunks)) = Some (SHA256_Final (foldl SHA256_Update SHA256_Init chunks)).
Proof.
  intros Hm Hl. assert (SHA256_Final (foldl SHA256_Update SHA256_Init chunks) = SHS K256 (concat chunks)) as E.
  { apply Final_digest. apply (updates_hold chunks _ []); [apply Init_holds|]. rewrite app_nil_l. lia. }
  rewrite E. split; [done|]. rewrite sha256_take by lia. by rewrite firstn_all.
Qed.
Lemma sha256_agree_witness : sh_sha256 (replicate 64 xff) (Some abc) 3 = Some (SHA256_Final (foldl SHA256_Update SHA256_Init [take 1 abc; drop 1 abc])).
Proof. refine (proj2 (sha256_agree (replicate 64 xff) [take 1 abc; drop 1 abc] _ _)); [rewrite length_replicate; lia|vm_compute; reflexivity]. Defined.

(** C8: Both scrypt implementations of the program compute scrypt of RFC 7914 with N = 1024, r = 1, p = 1 on a header of 80
    bytes: the miner's, specialised and unrolled, and the coin server's on OpenSSL's SHA-256. So the server recomputes exactly
    the hash a miner found. *)
Theorem scrypt_both input : length input = 80%nat →
  scrypt_1024_1_1_256_sp input = scrypt input input 1024 32 ∧
  words_be (scrypt_sp (mem_words 20 input)) = scrypt input input 1024 32.
Proof.
  intros Hl. destruct (mem_words_range 20 input) as [Hw Hn]; [lia|]. split.
  - rewrite algo_scrypt by lia. by rewrite take_ge by lia.
  - destruct (scrypt_sp_spec (mem_words 20 input) Hn Hw) as [-> _]. rewrite words_mem_words by lia. by rewrite take_ge by lia.
Qed.
Lemma scrypt_both_witness : words_be (scrypt_sp (mem_words 20 (replicate 80 x00))) = scrypt (replicate 80 x00) (replicate 80 x00) 1024 32.
Proof. refine (proj2 (scrypt_both (replicate 80 x00) _)). apply length_replicate. Defined.

(** ** Mining *)
Lemma length_header data n : length (block_header (with_nonce data n)) = 80%nat.
Proof. unfold block_header. rewrite length_words_be. assert (∀ k l, length (mem_words k l) = k) as ->; [|done]. induction k as [|k IH]; intros l; [done|]. cbn. by rewrite IH. Qed.
Lemma pow_algo hdr : length hdr = 80%nat → scrypt_1024_1_1_256_sp hdr = pow_hash hdr.
Proof. intros Hl. rewrite algo_scrypt by lia. rewrite take_ge by lia. reflexivity. Qed.
Section mining.
Context `{Double}.
(** C9: A scan always ends, on the first nonce from the one behind the work unit's on whose hash has a high word not above the
    target's, or on the last one it may try. The first case leaves the nonce in the header and in the work unit and the hash
    the coin server computes of that header, and the verification accepts it; in the second the verification answers
    SHERR_FBIG. *)
Theorem mined_verifies work step : length (sw_data work) = 128%nat → length (sw_target work) = 32%nat →
  ∃ work', shscrypt work step = Some (0, work') ∧
    let n := sw_nonce work' in
    let first := u32 (sw_nonce work + 1) in
    let hash k := scrypt_1024_1_1_256_sp (block_header (with_nonce (sw_data work) k)) in
    sw_data work' = with_nonce (sw_data work) n ∧ sw_target work' = sw_target work ∧ first ≤ n ≤ Z.max first (u32 step) ∧
    (∀ k, first ≤ k < n → high_word (sw_target work) < high_word (hash k)) ∧
    (high_word (hash n) ≤ high_word (sw_target work) ∧ sw_hash work' = hash n ∧ shscrypt_verify work' = (0, work') ∨
     high_word (sw_target work) < high_word (hash n) ∧ n = Z.max first (u32 step) ∧ shscrypt_verify work' = (SHERR_FBIG, work')).
Proof.
  intros Hd Ht. destruct (shscrypt_spec work step Hd Ht) as (m & found & work' & E & Hm & Hw & [Hr Hb Hf Hl]). exists work'. split; [exact E|].
  pose proof (work_verify_spec work m found work' Hd Ht Hw Hf Hm) as Ev. destruct Hm as (E1 & E2 & _ & E4 & E5). rewrite E2. unfold scan_last in *. cbv zeta.
  assert (∀ k, scrypt_1024_1_1_256_sp (block_header (with_nonce (sw_data work) k)) = pow_hash (block_header (with_nonce (sw_data work) k))) as Hh by (intros k; apply pow_algo, length_header).
  split; [exact E1|]. split; [exact E4|]. split; [exact Hr|]. split.
  - intros k Hk. rewrite Hh. apply Z.leb_gt. exact (Hb k Hk).
  - rewrite Hh. destruct found; [left|right].
    + split; [apply Z.leb_le; exact Hf|]. split; [|exact Ev]. rewrite (E5 eq_refl), E1. reflexivity.
    + split; [apply Z.leb_gt; exact Hf|]. split; [exact (Hl eq_refl)|exact Ev].
Qed.

(** The console miner answers a block of 256 hexadecimal digits with success exactly when one of the nonces 1 to 3608 gives
    a header whose scrypt hash, as the coin server computes it, has a high word of at most 0xffff; the text returned is the
    block, its time and the first such nonce set. Otherwise it asks to be called again. (Nonce 3609 is tried too, but a hash
    found there is taken for none.) *)
Theorem console_miner mem st t0 t1 raw : (64 ≤ length mem)%nat → length raw = 256%nat →
  let block := mine_block raw t0 in
  let good n := high_word (scrypt_1024_1_1_256_sp (block_header (with_nonce block n))) <= 0xffff in
  ∃ st' code out, shcon_mine_run mem st t0 t1 raw = Some (st', code, out) ∧
    (code = 0 ∧ (∃ n d, 0 < n < MAX_CYCLE_NONCE ∧ good n ∧ (∀ k, 0 < k < n → ~ good k) ∧ out = Some (bin2hex (with_nonce block n), d) ∧
       hex2bin (bin2hex (with_nonce block n)) 128 = (true, with_nonce block n)) ∨
     code = ERR_AGAIN ∧ out = None ∧ ∀ k, 0 < k < MAX_CYCLE_NONCE → ~ good k).
Proof.
  intros Hm Hr. cbv zeta. destruct (mine_run_spec mem st t0 t1 raw Hm Hr) as (st' & code & out & E & _ & _ & Hc). exists st', code, out. split; [exact E|]. clear E.
  pose proof (length_mine_block raw t0) as Hb. cbv zeta in Hc. revert Hb Hc. generalize (mine_block raw t0). intros block Hb Hc.
  assert (∀ k, meets block mine_target k = (high_word (scrypt_1024_1_1_256_sp (block_header (with_nonce block k))) <=? 0xffff)) as Hg.
  { intros k. rewrite pow_algo by apply length_header. unfold meets. destruct mine_target_spec as [-> _]. reflexivity. }
  assert (∀ l, none_before block l → ∀ k, 0 < k < l → ~ high_word (scrypt_1024_1_1_256_sp (block_header (with_nonce block k))) <= 65535) as Hnb.
  { intros l Hl k Hk. specialize (Hl k Hk). rewrite Hg in Hl. apply Z.leb_gt in Hl. lia. }
  destruct Hc as [(-> & _ & n & d & Hn & -> & Hmeet & Hnone)|(-> & _ & -> & Hnone)]; [left|right].
  - split; [reflexivity|]. exists n, d. split; [exact Hn|]. split; [rewrite Hg in Hmeet; apply Z.leb_le; exact Hmeet|]. split; [exact (Hnb n Hnone)|]. split; [reflexivity|].
    assert (length (with_nonce block n) = 128%nat) as Hl by (apply length_with; exact Hb). revert Hl. generalize (with_nonce block n). intros b Hl.
    rewrite <-(app_nil_r (bin2hex b)), <-Hl. apply hex2bin_back.
  - split; [reflexivity|]. split; [reflexivity|]. exact (Hnb _ Hnone).
Qed.
End mining.

(** ** Work units *)
Section units.
Context `{Double64}.
(** C10: From the hexadecimal texts of a job the header [shscrypt_work] makes is the coin's: version 1, the previous hash in
    wire order, the merkle root (the double SHA-256 of coinbase, extra nonces and tail, joined with each entry of the branch in
    turn), the time, the bits and the nonce, little-endian; and the middle state is SHA-256's after the header's first 64 bytes. *)
Theorem work_header mem hash_swap diffbits peer work c1 n1 n2 c2 prev bits time branch :
  unit_ready mem hash_swap diffbits work → job_texts peer work c1 n1 n2 c2 prev bits time branch →
  ∃ work', shscrypt_work mem hash_swap diffbits peer work (Some (bin2hex <$> branch)) (Some (bin2hex prev)) (Some (bin2hex c1)) (Some (bin2hex c2))
      (bin2hex bits) (bin2hex time) = Some work' ∧
    let root := foldl (λ r m, SHS K256 (SHS K256 (r ++ m))) (SHS K256 (SHS K256 (c1 ++ n1 ++ n2 ++ c2))) branch in
    block_header (sw_data work') = le_enc 4 1 ++ reverse prev ++ root ++ reverse time ++ reverse bits ++ le_enc 4 (sw_nonce work) ∧
    sw_midstate work' = words_mem (P256 SHA256_H0 (take 64 (block_header (sw_data work')))) ∧ sw_target work' = scrypt_set_target (sp_diff peer) ∧
    length (sw_data work') = 128%nat ∧ sw_nonce work' = sw_nonce work.
Proof.
  intros Hu Hj. destruct (shscrypt_work_spec mem hash_swap diffbits peer work c1 n1 n2 c2 prev bits time branch Hu Hj) as (work' & E & E1 & E2 & E3 & E4).
  exists work'. split; [exact E|]. clear E. destruct Hu as [Hm _ _ _ _]. destruct Hj as [_ _ _ _ _ Hp Hb Ht Hbr].
  destruct (merkle_fold_spec mem (dsha (c1 ++ n1 ++ n2 ++ c2)) branch Hm (length_dsha _) Hbr) as [_ Hr]. cbv zeta. split; [|split; [exact E3|split; [exact E4|split; [|exact E2]]]].
  - rewrite E1, work_data_header by assumption. reflexivity.
  - rewrite E1. apply length_work_data; assumption.
Qed.

(** C38: Making a work unit stays inside its arrays exactly when the coinbase (both texts, halved, with the two extra nonces) is at
    most 256 bytes and no text of the merkle branch is longer than 256 characters; the code checks neither. *)
Theorem work_fits mem hash_swap diffbits peer work merkle prev cb1 cb2 nbit ntime : unit_ready mem hash_swap diffbits work →
  is_Some (shscrypt_work mem hash_swap diffbits peer work merkle prev cb1 cb2 nbit ntime) ↔
  (length (or_zeros cb1) / 2 + sp_n1_len peer + sp_n2_len peer + length (or_zeros cb2) / 2 ≤ 256)%nat ∧ Forall (λ m : list byte, (length m ≤ 256)%nat) (default [] merkle).
Proof.
  intros Hu. rewrite (work_total mem hash_swap diffbits peer work merkle prev cb1 cb2 nbit ntime Hu), coinbase_fits.
  assert (Forall (λ m, is_Some (merkle_entry m)) (default [] merkle) ↔ Forall (λ m : list byte, (length m ≤ 256)%nat) (default [] merkle)) as ->; [|reflexivity].
  rewrite !Forall_forall. split; intros Hx m Hin; apply merkle_entry_fits, Hx, Hin.
Qed.
End units.

(** ** Instances *)
#[local] Instance coins_Z : Double := {| F := Z; f0 := 0; fadd := Z.add; fmul := Z.mul; fdiv := Z.div; f_of := id;
  fsub := Z.sub; fltb := Z.ltb; feqb := Z.eqb; f_inf := -1; fint := id |}.
#[local] Instance coins_Z64 : Double64 := {| fceil := id; fu64 := id; fu32 := id |}.
Definition demo_work : scrypt_work := ScryptWork (replicate 128 x00) (replicate 32 x00) mine_target (replicate 32 x00) (replicate 16 x00) 0 0 7
  (bin2hex (replicate 4 x01) ++ [x00]) (f_of 1) (replicate 256 x00) f0.
Definition demo_peer : scrypt_peer := shscrypt_peer (ScryptPeer (replicate 16 x00) 0 0 f0) (bin2hex (replicate 4 x02)) (f_of 1).
Definition demo_mem : list byte := garbage 64.
Lemma demo_ready : unit_ready demo_mem (garbage 32) (garbage 4) demo_work.
Proof. split; vm_compute; (done || lia || (split; congruence)). Qed.
Lemma demo_texts : job_texts demo_peer demo_work (replicate 46 x03) (replicate 4 x02) (replicate 4 x01) (replicate 80 x04) (replicate 32 x05) (replicate 4 x06) (replicate 4 x07) [replicate 32 x08].
Proof.
  split; try done; [exists (replicate 8 x00); by vm_compute|exists [x00]; by vm_compute| |by repeat constructor].
  split; [done|]. split; [done|]. vm_compute. lia.
Qed.
Lemma mined_verifies_witness : ∃ work', shscrypt demo_work 20480 = Some (0, work').
Proof. destruct (mined_verifies demo_work 20480) as (w & E & _); [apply length_replicate|apply mine_target_spec|]. exact (ex_intro _ w E). Defined.
Lemma console_miner_witness : ∃ st code out, shcon_mine_run demo_mem (ShareStats 0 0 0 f0 f0) 1 1 (replicate 256 x30) = Some (st, code, out).
Proof.
  destruct (console_miner demo_mem (ShareStats 0 0 0 f0 f0) 1 1 (replicate 256 x30)) as (st & code & out & E & _); [vm_compute; lia|apply length_replicate|].
  exact (ex_intro _ st (ex_intro _ code (ex_intro _ out E))).
Defined.
Lemma work_header_witness : ∃ work', shscrypt_work demo_mem (garbage 32) (garbage 4) demo_peer demo_work (Some (bin2hex <$> [replicate 32 x08])) (Some (bin2hex (replicate 32 x05)))
  (Some (bin2hex (replicate 46 x03))) (Some (bin2hex (replicate 80 x04))) (bin2hex (replicate 4 x06)) (bin2hex (replicate 4 x07)) = Some work'.
Proof. destruct (work_header _ _ _ _ _ _ _ _ _ _ _ _ _ demo_ready demo_texts) as (w & E & _). exact (ex_intro _ w E). Defined.
Lemma work_fits_witness : ¬ is_Some (shscrypt_work demo_mem (garbage 32) (garbage 4) demo_peer demo_work None None (Some (replicate 600 x30)) None [] []).
Proof. rewrite (work_fits demo_mem (garbage 32) (garbage 4) demo_peer demo_work None None (Some (replicate 600 x30)) None [] [] demo_ready). vm_compute. lia. Defined.
