(* ===== verification/ColorThm.v ===== *)
(** * Colors: theorems

    The matrix computes the edit distance, and the three labels of a color are
    the closest ones. *)

From S2P Require Import Prelude Hmac Key Opt Clients Services Color.

(** ** Edit distance *)

(** One edit: a character is inserted, removed or replaced. *)
Inductive edit : list byte → list byte → Prop :=
  | edit_insert u c v : edit (u ++ v) (u ++ c :: v)
  | edit_remove u c v : edit (u ++ c :: v) (u ++ v)
  | edit_replace u c d v : edit (u ++ c :: v) (u ++ d :: v).
(** Alignments of two strings, by their last characters, and what they cost. *)
Inductive align : list byte → list byte → nat → Prop :=
  | align_nil : align [] [] 0
  | align_both a b c d n : align a b n → align (a ++ [c]) (b ++ [d]) (n + if bool_decide (c = d) then 0 else 1)
  | align_left a b c n : align a b n → align (a ++ [c]) b (S n)
  | align_right a b d n : align a b n → align a (b ++ [d]) (S n).
(** The distance by recursion on the reversed strings. *)
Fixpoint dist_r (a : list byte) : list byte → nat :=
  match a with
  | [] => λ b, length b
  | c :: a' => fix inner (b : list byte) : nat :=
      match b with
      | [] => length a
      | d :: b' => Nat.min (S (inner b')) (Nat.min (S (dist_r a' b)) (dist_r a' b' + if bool_decide (c = d) then 0 else 1))
      end
  end.
Definition dist (a b : list byte) : nat := dist_r (reverse a) (reverse b).
Lemma dist_nil_l b : dist [] b = length b.
Proof. unfold dist. cbn. apply length_reverse. Qed.
Lemma dist_nil_r a : dist a [] = length a.
Proof. unfold dist. change (reverse (@nil byte)) with (@nil byte). rewrite <-(length_reverse a). by destruct (reverse a). Qed.
Lemma dist_snoc a b c d : dist (a ++ [c]) (b ++ [d]) =
  Nat.min (S (dist (a ++ [c]) b)) (Nat.min (S (dist a (b ++ [d]))) (dist a b + if bool_decide (c = d) then 0 else 1)).
Proof. unfold dist. rewrite !reverse_app. reflexivity. Qed.
Lemma dist_bound a b : (dist a b ≤ length a + length b)%nat.
Proof.
  revert b. induction a as [|c a IHa] using rev_ind; intros b; [rewrite dist_nil_l; lia|]. induction b as [|d b IHb] using rev_ind; [rewrite dist_nil_r; lia|].
  rewrite dist_snoc, (length_app b). cbn [length]. lia.
Qed.
Lemma dist_align a b : align a b (dist a b).
Proof.
  assert (∀ b, align [] b (length b)) as Hr.
  { intros x. induction x as [|d x IH] using rev_ind; [constructor|]. rewrite length_app, Nat.add_1_r. by constructor. }
  assert (∀ a, align a [] (length a)) as Hl.
  { intros x. induction x as [|d x IH] using rev_ind; [constructor|]. rewrite length_app, Nat.add_1_r. by constructor. }
  revert b. induction a as [|c a IHa] using rev_ind; intros b; [rewrite dist_nil_l; apply Hr|]. induction b as [|d b IHb] using rev_ind; [rewrite dist_nil_r; apply Hl|].
  rewrite dist_snoc. set (x := S (dist (a ++ [c]) b)). set (y := S (dist a (b ++ [d]))). set (z := (dist a b + _)%nat).
  destruct (Nat.min_dec x (Nat.min y z)) as [-> | ->]; [by constructor|]. destruct (Nat.min_dec y z) as [-> | ->]; by constructor.
Qed.
Lemma align_dist a b n : align a b n → (dist a b ≤ n)%nat.
Proof.
  induction 1 as [|a b c d n H IH|a b c n H IH|a b d n H IH]; [done|..].
  - rewrite dist_snoc. lia.
  - destruct b as [|d b _] using rev_ind; [rewrite dist_nil_r in *; rewrite length_app; simpl; lia|]. rewrite dist_snoc. lia.
  - destruct a as [|c a _] using rev_ind; [rewrite dist_nil_l in *; rewrite length_app; simpl; lia|]. rewrite dist_snoc. lia.
Qed.

(** Alignments compose: the triangle inequality. *)
Definition align_le (a b : list byte) (n : nat) : Prop := ∃ k, (k ≤ n)%nat ∧ align a b k.
Lemma align_trans a b c n m : align a b n → align b c m → align_le a c (n + m).
Proof.
  intros H1. revert c m. induction H1 as [|a b x y n H1 IH|a b x n H1 IH|a b y n H1 IH]; intros c m H2.
  - exists m. split; [lia|done].
  - remember (b ++ [y]) as s eqn:Es. revert Es. induction H2 as [|s' c' y' z m H2 _|s' c' y' m H2 _|s' c' z m H2 IH2]; intros Es; [by destruct b|..].
    + apply app_inj_tail in Es as [-> ->]. destruct (IH _ _ H2) as (k & Hk & Ha). eexists. split; [|by apply align_both]. repeat case_bool_decide; try lia; congruence.
    + apply app_inj_tail in Es as [-> ->]. destruct (IH _ _ H2) as (k & Hk & Ha). eexists. split; [|by apply align_left]. lia.
    + destruct (IH2 Es) as (k & Hk & Ha). eexists. split; [|by apply align_right]. lia.
  - destruct (IH _ _ H2) as (k & Hk & Ha). eexists. split; [|by apply align_left]. lia.
  - remember (b ++ [y]) as s eqn:Es. revert Es. induction H2 as [|s' c' y' z m H2 _|s' c' y' m H2 _|s' c' z m H2 IH2]; intros Es; [by destruct b|..].
    + apply app_inj_tail in Es as [-> ->]. destruct (IH _ _ H2) as (k & Hk & Ha). eexists. split; [|by apply align_right]. lia.
    + apply app_inj_tail in Es as [-> ->]. destruct (IH _ _ H2) as (k & Hk & Ha). exists k. split; [lia|done].
    + destruct (IH2 Es) as (k & Hk & Ha). eexists. split; [|by apply align_right]. lia.
Qed.
Lemma align_suffix a b n v : align a b n → align (a ++ v) (b ++ v) n.
Proof.
  intros H. induction v as [|c v IH] using rev_ind; [by rewrite !app_nil_r|]. rewrite !(assoc_L (++)). pose proof (align_both _ _ c c _ IH) as Hb. rewrite bool_decide_eq_true_2, Nat.add_0_r in Hb by done. done.
Qed.
Lemma align_refl a : align a a 0.
Proof. apply (align_suffix [] [] 0 a). constructor. Qed.
Lemma edit_align a b : edit a b → align_le a b 1.
Proof.
  intros [u c v|u c v|u c d v]; rewrite ?(app_assoc u [c] v : u ++ c :: v = _), ?(app_assoc u [d] v : u ++ d :: v = _).
  - exists 1%nat. split; [done|]. apply align_suffix, align_right, align_refl.
  - exists 1%nat. split; [done|]. apply align_suffix, align_left, align_refl.
  - eexists. split; [|apply align_suffix, align_both, align_refl]. case_bool_decide; lia.
Qed.
Lemma edits_dist n a b : nsteps edit n a b → (dist a b ≤ n)%nat.
Proof.
  intros H. enough (align_le a b n) as (k & Hk & Ha) by (apply align_dist in Ha; lia). induction H as [a|n a b c He _ (k & Hk & Ha)].
  - exists 0%nat. split; [done|apply align_refl].
  - apply edit_align in He as (j & Hj & He). destruct (align_trans _ _ _ _ _ He Ha) as (i & Hi & Hr). exists i. split; [lia|done].
Qed.
Lemma edit_suffix a b v : edit a b → edit (a ++ v) (b ++ v).
Proof. intros [u c w|u c w|u c d w]; rewrite <-!(assoc_L (++)); cbn [app]; constructor. Qed.
Lemma nsteps_suffix n a b v : nsteps edit n a b → nsteps edit n (a ++ v) (b ++ v).
Proof. induction 1 as [a|n a b c He _ IH]; [constructor|]. eapply nsteps_l; [by apply edit_suffix|done]. Qed.
Lemma align_edits a b n : align a b n → ∃ k, (k ≤ n)%nat ∧ nsteps edit k a b.
Proof.
  induction 1 as [|a b c d n H (k & Hk & IH)|a b c n H (k & Hk & IH)|a b d n H (k & Hk & IH)].
  - exists 0%nat. split; [done|constructor].
  - case_bool_decide as E.
    + subst d. exists k. split; [lia|]. by apply nsteps_suffix.
    + exists (S k). split; [lia|]. eapply nsteps_r; [by apply nsteps_suffix|]. apply (edit_replace b c d []).
  - exists (S k). split; [lia|]. eapply nsteps_l; [|done]. pose proof (edit_remove a c []) as He. by rewrite app_nil_r in He.
  - exists (S k). split; [lia|]. eapply nsteps_r; [done|]. pose proof (edit_insert b d []) as He. by rewrite app_nil_r in He.
Qed.
Lemma dist_edits a b : nsteps edit (dist a b) a b.
Proof. destruct (align_edits a b _ (dist_align a b)) as (k & Hk & Hs). pose proof (edits_dist _ _ _ Hs). by replace (dist a b) with k by lia. Qed.

(** ** The matrix *)

(** The row of the string [p2]: its distances to the prefixes of [s1]. *)
Fixpoint row_of (p2 pre rest : list byte) : list Z :=
  Z.of_nat (dist pre p2) :: match rest with [] => [] | c :: rest => row_of p2 (pre ++ [c]) rest end.
Lemma MIN3_min a b c : MIN3 a b c = Z.min a (Z.min b c).
Proof. unfold MIN3. repeat case_match; lia. Qed.
Lemma cells_row p2 c2 pre rest : zlen (pre ++ rest) + zlen p2 < 2 ^ 31 →
  lev_cells rest c2 (row_of p2 pre rest) (Z.of_nat (dist pre (p2 ++ [c2]))) = tail (row_of (p2 ++ [c2]) pre rest).
Proof.
  revert pre. induction rest as [|c rest IH]; intros pre Hl; [done|].
  assert (zlen ((pre ++ [c]) ++ rest) + zlen p2 < 2 ^ 31) as Hl' by (rewrite <-(assoc_L (++)); exact Hl). specialize (IH (pre ++ [c]) Hl').
  rewrite !length_app in Hl, Hl'. cbn [length] in Hl, Hl'.
  assert (∀ x y : list byte, zlen x + zlen y < 2 ^ 31 + 1 → u32 (Z.of_nat (dist x y) + 1) = Z.of_nat (dist x y) + 1) as Hu.
  { intros x y Hxy. pose proof (dist_bound x y). apply u32_small. lia. }
  assert (∀ l : list Z, row_of p2 (pre ++ [c]) rest = Z.of_nat (dist (pre ++ [c]) p2) :: tail (row_of p2 (pre ++ [c]) rest)) as Hrow by (intros _; by destruct rest).
  cbn [row_of tail]. rewrite (Hrow []). cbn [lev_cells]. rewrite <-(Hrow []).
  rewrite MIN3_min, !Hu by (rewrite ?length_app; cbn [length]; lia).
  assert (u32 (Z.of_nat (dist pre p2) + (if bool_decide (c = c2) then 0 else 1)) = Z.of_nat (dist pre p2) + (if bool_decide (c = c2) then 0 else 1)) as ->.
  { pose proof (dist_bound pre p2). apply u32_small. case_bool_decide; lia. }
  assert (Z.min (Z.of_nat (dist (pre ++ [c]) p2) + 1) (Z.min (Z.of_nat (dist pre (p2 ++ [c2])) + 1) (Z.of_nat (dist pre p2) + (if bool_decide (c = c2) then 0 else 1)))
    = Z.of_nat (dist (pre ++ [c]) (p2 ++ [c2]))) as ->.
  { rewrite dist_snoc. case_bool_decide; lia. }
  rewrite IH. destruct rest; done.
Qed.
Lemma first_row pre rest : zlen (pre ++ rest) < 2 ^ 31 → (λ y : nat, u32 (Z.of_nat y)) <$> seq (length pre) (S (length rest)) = row_of [] pre rest.
Proof.
  revert pre. induction rest as [|c rest IH]; intros pre Hl.
  - cbn. rewrite app_nil_r in Hl. rewrite dist_nil_r, u32_small by lia. done.
  - change (S (length (c :: rest))) with (S (S (length rest))). cbn [seq fmap list_fmap row_of]. rewrite dist_nil_r, u32_small by (rewrite length_app in Hl; lia). f_equal.
    rewrite <-IH by (rewrite <-(assoc_L (++)); exact Hl). rewrite length_app, Nat.add_1_r. done.
Qed.
Lemma lev_rows s1 s2 p2 : zlen s1 + zlen (p2 ++ s2) < 2 ^ 31 → foldl (lev_row s1) (row_of p2 [] s1) s2 = row_of (p2 ++ s2) [] s1.
Proof.
  revert p2. induction s2 as [|c s2 IH]; intros p2 Hl; [by rewrite app_nil_r|]. cbn [foldl].
  assert (lev_row s1 (row_of p2 [] s1) c = row_of (p2 ++ [c]) [] s1) as ->; [|rewrite (IH (p2 ++ [c])); rewrite <-(assoc_L (++)); done].
  rewrite !length_app in Hl. cbn [length] in Hl. unfold lev_row. assert (hd 0 (row_of p2 [] s1) = zlen p2) as -> by (destruct s1; cbn [row_of hd]; by rewrite dist_nil_l).
  rewrite u32_small by lia. assert (zlen p2 + 1 = Z.of_nat (dist [] (p2 ++ [c]))) as -> by (rewrite dist_nil_l, length_app; simpl; lia).
  rewrite cells_row by (rewrite app_nil_l; lia). by destruct s1.
Qed.
Lemma last_row p2 pre rest : List.last (row_of p2 pre rest) 0 = Z.of_nat (dist (pre ++ rest) p2).
Proof.
  revert pre. induction rest as [|c rest IH]; intros pre; [cbn; by rewrite app_nil_r|]. cbn [row_of]. specialize (IH (pre ++ [c])). rewrite <-(assoc_L (++)) in IH.
  destruct rest; exact IH.
Qed.
Lemma levenshtein_dist s1 s2 : zlen s1 + zlen s2 < 2 ^ 31 → levenshtein s1 s2 = Z.of_nat (dist s1 s2).
Proof.
  intros Hl. unfold levenshtein, lev_first. change 0%nat with (length (@nil byte)) at 1. rewrite first_row by (rewrite app_nil_l; lia). rewrite (lev_rows s1 s2 []) by (rewrite app_nil_l; lia).
  rewrite last_row, !app_nil_l. pose proof (dist_bound s1 s2). apply i32_small. lia.
Qed.

(** C31: The distance of two strings that the matrix computes is the least number of characters to insert, remove or replace to
    turn one into the other: that many edits do it, and no fewer. *)
Theorem levenshtein_correct s1 s2 : zlen s1 + zlen s2 < 2 ^ 31 →
  ∃ n : nat, levenshtein s1 s2 = Z.of_nat n ∧ nsteps edit n s1 s2 ∧ ∀ m, nsteps edit m s1 s2 → (n ≤ m)%nat.
Proof.
  intros Hl. exists (dist s1 s2). split; [by apply levenshtein_dist|]. split; [apply dist_edits|]. intros m Hm. by apply edits_dist.
Qed.
Lemma levenshtein_correct_witness : ∃ n : nat, levenshtein (bytes "salmon") (bytes "seagreen") = Z.of_nat n ∧ nsteps edit n (bytes "salmon") (bytes "seagreen").
Proof. destruct (levenshtein_correct (bytes "salmon") (bytes "seagreen")) as (n & E & Hs & _); [vm_compute; reflexivity|]. exact (ex_intro _ n (conj E Hs)). Defined.

(** ** The closest labels *)
Section closest.
Context `{Double}.
(** [c] has the highest positive score outside [skip], the first of equals. *)
Definition is_best (scored : list (Z * rgb_t)) (skip : list (list byte)) (c : rgb_t) : Prop :=
  (rgb_label c ∉ skip) ∧ ∃ i s, scored !! i = Some (s, c) ∧ 0 < s ∧
    ∀ j s' c', scored !! j = Some (s', c') → rgb_label c' ∉ skip → s' ≤ s ∧ ((j < i)%nat → s' < s).
Lemma pick_fold scored skip :
  match foldl (pick_step skip) (0, None) scored with
  | (s, Some c) => (rgb_label c ∉ skip) ∧ 0 < s ∧ ∃ i, scored !! i = Some (s, c) ∧
      ∀ j s' c', scored !! j = Some (s', c') → rgb_label c' ∉ skip → s' ≤ s ∧ ((j < i)%nat → s' < s)
  | (s, None) => s = 0 ∧ ∀ j s' c', scored !! j = Some (s', c') → rgb_label c' ∉ skip → s' ≤ 0
  end.
Proof.
  induction scored as [|[s c] scored IH] using rev_ind; [split; [done|]; intros j s' c' Hj; by rewrite lookup_nil in Hj|]. rewrite foldl_app. cbn [foldl].
  assert (∀ (j : nat) (e : Z * rgb_t), (scored ++ [(s, c)]) !! j = Some e → scored !! j = Some e ∨ j = length scored ∧ e = (s, c)) as Hsplit.
  { intros j e Hj. apply lookup_app_Some in Hj as [Hj|[Hge Hj]]; [by left|]. apply list_lookup_singleton_Some in Hj as [Hj <-]. right. split; [lia|done]. }
  unfold pick_step at 1. case_bool_decide as Hin.
  - destruct (foldl (pick_step skip) (0, None) scored) as [b [d|]].
    + destruct IH as (Hd & Hb & i & Hi & Hmax). split; [done|]. split; [done|]. exists i. split; [by apply lookup_app_l_Some|].
      intros j s' c' Hj Hc'. destruct (Hsplit j _ Hj) as [Hj'|[-> [= -> ->]]]; [by eapply Hmax|done].
    + destruct IH as [-> Hmax]. split; [done|]. intros j s' c' Hj Hc'. destruct (Hsplit j _ Hj) as [Hj'|[-> [= -> ->]]]; [by eapply Hmax|done].
  - destruct (foldl (pick_step skip) (0, None) scored) as [b o]. cbn [fst]. destruct (Z.ltb_spec b s) as [Hlt|Hge].
    + assert (0 < s ∧ ∀ j s' c', scored !! j = Some (s', c') → rgb_label c' ∉ skip → s' < s) as [Hs Hall].
      { destruct o as [d|]; [destruct IH as (Hd & Hb & i & Hi & Hmax)|destruct IH as [-> Hmax]]; (split; [lia|]); intros j s' c' Hj Hc'; specialize (Hmax j s' c' Hj Hc'); lia. }
      split; [done|]. split; [done|]. exists (length scored). split; [by rewrite lookup_app_r, Nat.sub_diag by lia|].
      intros j s' c' Hj Hc'. destruct (Hsplit j _ Hj) as [Hj'|[-> [= -> ->]]]; [specialize (Hall j s' c' Hj' Hc'); lia|lia].
    + destruct o as [d|].
      * destruct IH as (Hd & Hb & i & Hi & Hmax). split; [done|]. split; [done|]. exists i. split; [by apply lookup_app_l_Some|].
        intros j s' c' Hj Hc'. destruct (Hsplit j _ Hj) as [Hj'|[-> [= -> ->]]]; [by eapply Hmax|]. apply lookup_lt_Some in Hi. lia.
      * destruct IH as [-> Hmax]. split; [done|]. intros j s' c' Hj Hc'. destruct (Hsplit j _ Hj) as [Hj'|[-> [= -> ->]]]; [by eapply Hmax|lia].
Qed.
Lemma pick_color_best scored skip c : pick_color scored skip = Some c → is_best scored skip c.
Proof.
  unfold pick_color. pose proof (pick_fold scored skip) as Hf. destruct (foldl _ _ _) as [s [d|]]; cbn; [|done]. intros [= <-]. destruct Hf as (Hd & Hs & i & Hi & Hmax).
  split; [done|]. exists i, s. done.
Qed.
Lemma pick_color_none scored skip : pick_color scored skip = None → ∀ s c, (s, c) ∈ scored → rgb_label c ∉ skip → s ≤ 0.
Proof.
  unfold pick_color. pose proof (pick_fold scored skip) as Hf. destruct (foldl _ _ _) as [s [d|]]; cbn; [done|]. intros _ s' c' Hin Hc. destruct Hf as [-> Hf].
  apply list_elem_of_lookup in Hin as [j Hj]. by eapply Hf.
Qed.
Lemma lev_self s : zlen s < 2 ^ 30 → levenshtein s s = 0.
Proof. intros Hs. rewrite levenshtein_dist by lia. pose proof (edits_dist 0 s s (nsteps_O _ _)). lia. Qed.
Lemma best_not_exact name skip c : is_best (color_scores name) skip c → (∀ k, fint (fdiv (f_of k) (f_of 0)) ≤ 0) → rgb_label c ≠ (tolower <$> take 127 name).
Proof.
  intros (_ & i & s & Hi & Hs & _) Hz E. unfold color_scores in Hi. rewrite list_lookup_fmap in Hi. destruct (_rgb_table !! i) as [c'|]; [|done]. cbn in Hi. injection Hi as Hsc ->.
  unfold _str_span in Hsc. rewrite E, lev_self in Hsc; [specialize (Hz (zlen (tolower <$> take 127 name) * zlen (tolower <$> take 127 name))); lia|].
  rewrite length_fmap, length_take. lia.
Qed.

Lemma color_gen_eq name : name ≠ [] → color_gen (Some name) =
  (pri ← pick_color (color_scores name) []; sec ← pick_color (color_scores name) [rgb_label pri];
   tri ← pick_color (color_scores name) [rgb_label pri; rgb_label sec]; Some (color_of pri sec tri)).
Proof. intros Hn. destruct name as [|c name]; [by destruct Hn|]. unfold color_gen. reflexivity. Qed.

(** A color is made of the three entries of the table with the highest scores, each the first of its equals and with a
    label of its own; it fails only when there are no three labels with a positive score. Where a division by zero converts
    to a number that is not positive, the label that equals the name is never among them. *)
Theorem color_gen_closest name : name ≠ [] →
  match color_gen (Some name) with
  | Some co => ∃ pri sec tri, co = color_of pri sec tri ∧ is_best (color_scores name) [] pri ∧ is_best (color_scores name) [rgb_label pri] sec ∧
      is_best (color_scores name) [rgb_label pri; rgb_label sec] tri ∧
      ((∀ k, fint (fdiv (f_of k) (f_of 0)) <= 0) → (tolower <$> take 127 name) ∉ [rgb_label pri; rgb_label sec; rgb_label tri])
  | None => ∃ a b, ∀ s c, (s, c) ∈ color_scores name → rgb_label c ∉ [a; b] → s ≤ 0
  end.
Proof.
  intros Hn. rewrite (color_gen_eq name Hn). pose proof (best_not_exact name) as Hne. revert Hne. generalize (color_scores name). intros scored Hne.
  destruct (pick_color scored []) as [pri|] eqn:E1; cbn [mbind option_bind]; [|exists [], []; intros s c Hin _; exact (pick_color_none scored [] E1 s c Hin (not_elem_of_nil _))].
  destruct (pick_color scored [rgb_label pri]) as [sec|] eqn:E2; cbn [mbind option_bind].
  2: { exists (rgb_label pri), (rgb_label pri). intros s c Hin Hc. apply (pick_color_none scored _ E2 s c Hin). rewrite list_elem_of_singleton. intros Ec. apply Hc. rewrite Ec. constructor. }
  destruct (pick_color scored [rgb_label pri; rgb_label sec]) as [tri|] eqn:E3; cbn [mbind option_bind].
  2: { exists (rgb_label pri), (rgb_label sec). intros s c Hin Hc. exact (pick_color_none scored _ E3 s c Hin Hc). }
  apply pick_color_best in E1, E2, E3. exists pri, sec, tri. split; [reflexivity|]. split; [exact E1|]. split; [exact E2|]. split; [exact E3|]. intros Hz.
  pose proof (Hne _ _ E1 Hz). pose proof (Hne _ _ E2 Hz). pose proof (Hne _ _ E3 Hz). rewrite !not_elem_of_cons. split_and!; [congruence..|apply not_elem_of_nil].
Qed.
End closest.
#[local] Instance spans_Z : Double := {| F := Z; f0 := 0; fadd := Z.add; fmul := Z.mul; fdiv := Z.div; f_of := id;
  fsub := Z.sub; fltb := Z.ltb; feqb := Z.eqb; f_inf := -1; fint := id |}.
Lemma color_gen_closest_witness : ∃ pri sec tri, color_gen (Some (bytes "sunset")) = Some (color_of pri sec tri) ∧ is_best (color_scores (bytes "sunset")) [] pri.
Proof.
  pose proof (color_gen_closest (bytes "sunset") ltac:(done)) as Hc. destruct (color_gen (Some (bytes "sunset"))) as [co|] eqn:E; [|exfalso; vm_compute in E; discriminate E].
  destruct Hc as (pri & sec & tri & -> & Hp & _). exact (ex_intro _ pri (ex_intro _ sec (ex_intro _ tri (conj eq_refl Hp)))).
Defined.
