(* ===== verification/TaskThm.v ===== *)
(** * Stratum tasks: properties

    Rewards of the pool and their payment, the built-in miner on a template, and
    the reports of new blocks. *)

From Stdlib Require Import QArith Qround Qminmax Lqa.
From S2P Require Import Prelude Errors Shbuf Descriptor Crc Sha ShaSpec Hmac HmacSpec Key Opt Links Clients Services ClientsSpec ServSpec Json JsonTree Codec Stratum Scrypt ScryptSpec Ossl OsslSpec Work WorkSpec Task TaskSpec.
#[local] Open Scope Z_scope.
#[local] Opaque P256 SHA256_Transform SHS scrypt scrypt_sp scrypt_1024_1_1_256_sp.

(** ** Rewards *)
Section rewards.
Context `{Real} `{Double} `{Heap} `{!Server} `{!Pool} `{!Exact}.
Implicit Types (s : cst user_t) (cl : list (Z * user_t)).

(** C33: Checking for a block of the pool, for a block whose hash is below 256 bytes: the first block that is seen after the start is
    only noted, and one that was noted before changes nothing; any other is noted and recorded, and then nothing more happens when
    there are no clients or it is worth less than one coin. Otherwise each worker that is not a server, an RPC user, anonymous or of
    the system gets its part of 99.9% of the amount by its shares of the hour (or nothing, when that is below 1e-7), and the parts
    together are at most 99.9% of the amount, computed exactly. In every case checking the same block again changes nothing.
    The coin is one of the server's, and the lines that are logged fit into their array of 256 bytes. *)
Theorem payout_divides po i s cl block hash last : rep s cl →
  Forall (λ x, (i < length (u_balance x.2))%nat ∧ has_shares x.2) cl → lines_fit i (block_weight block cl) cl →
  pl_lastblock (po_log po) i = Some block → block_hash_of block = Some hash → hash ≠ [] → (length hash < 256)%nat → po_payout_hash po !! i = Some last →
  ∃ po' s' cl', check_payout po i s = Some (po', s') ∧ rep s' cl' ∧ po_payout_hash po' = <[i := hash]> (po_payout_hash po) ∧
    (if bool_decide (last = [] ∨ last = hash) then po_log po' = po_log po ∧ cl' = cl
     else po_log po' = po_log po ++ [MinerBlock i hash] ∧
       if bool_decide (cl = []) || fltb (block_amount block) (f_of 1) then cl' = cl
       else cl' = (prod_map id (credit i (block_weight block cl)) <$> cl) ∧
         (all_balances i cl <= all_balances i cl' <= all_balances i cl + (999 # 1000) * val (block_amount block))%Q) ∧
    (pl_lastblock (po_log po') i = Some block → check_payout po' i s' = Some (po', s')).
Proof.
  intros Hr Hcl Hfit Hb Hh Hn Hl Hp.
  assert (∀ po1 s1, po_payout_hash po1 = <[i := hash]> (po_payout_hash po) → pl_lastblock (po_log po1) i = Some block → check_payout po1 i s1 = Some (po1, s1)) as Hagain.
  { intros po1 s1 E Hb1. assert (po_payout_hash po1 !! i = Some hash) as Hp1 by (rewrite E; apply list_lookup_insert_eq; by eapply lookup_lt_Some).
    destruct (swp_run _ _ _ (check_seen po1 i s1 block hash hash Hb1 Hh Hl Hp1 eq_refl)) as (a & b & Eq & -> & ->). exact Eq. }
  case_bool_decide as Hseen.
  - destruct Hseen as [->| ->].
    + destruct (swp_run _ _ _ (check_first po i s block hash Hb Hh Hn Hl Hp)) as (po' & s' & E & -> & ->).
      exists (po_set_payout i hash po), s, cl. split_and!; try done. by apply Hagain.
    + destruct (swp_run _ _ _ (check_seen po i s block hash hash Hb Hh Hl Hp eq_refl)) as (po' & s' & E & -> & ->).
      exists po, s, cl. split_and!; try done. by rewrite list_insert_id.
  - assert (last ≠ [] ∧ last ≠ hash) as [Hl0 Hlh] by tauto. destruct (bool_decide (cl = []) || fltb (block_amount block) (f_of 1)) eqn:Ei.
    + assert (cl = [] ∨ fltb (block_amount block) (f_of 1) = true) as Hidle by (apply orb_true_iff in Ei as [Ei%bool_decide_eq_true|Ei]; auto).
      destruct (swp_run _ _ _ (check_idle po i s cl block hash last Hr Hidle Hb Hh Hn Hl Hp Hl0 Hlh)) as (po' & s' & E & -> & ->).
      exists (po_event (MinerBlock i hash) (po_set_payout i hash po)), s, cl. split_and!; try done. by apply Hagain.
    + apply orb_false_iff in Ei as [Hne%bool_decide_eq_false Ha].
      destruct (swp_run _ _ _ (check_new po i s cl block hash last Hr Hne Hfit Hb Hh Hn Hl Hp Hl0 Hlh Ha)) as (po' & s' & E & -> & Hr' & _).
      assert (1 <= val (block_amount block))%Q as Ha' by (pose proof (fltb_false _ _ Ha) as Hf; by rewrite val_of in Hf).
      assert (Forall (λ x, has_shares x.2) cl) as Hsh by (eapply Forall_impl; [exact Hcl|]; by intros x [_ Hx]).
      destruct (weight_bound block cl Hsh Ha') as [Hw0 Hw]. destruct (credited_total i (block_weight block cl) cl Hcl Hw0) as [H1' H2'].
      exists (po_event (MinerBlock i hash) (po_set_payout i hash po)), s', (prod_map id (credit i (block_weight block cl)) <$> cl).
      split; [exact E|]. split; [exact Hr'|]. split; [done|]. split; [split; [done|]; split; [done|]; split; [exact H1'|lra]|]. by apply Hagain.
Qed.

(** C32: Paying the workers neither makes nor loses coins: when no worker is due nothing happens; otherwise each account is paid
    at most once per worker, in the order of the list, what the server accepted is taken from the balances of the workers,
    which stay at least zero, and together it is at most the balance of the pool (exactly computed). *)
Theorem rewards_conserved now po i h s cl : rep s cl → Forall (λ x, (i < length (u_balance x.2))%nat ∧ (0 <= balance i x.2)%Q) cl → 0 ≤ pl_min_tx_fee i →
  ∃ po' s' cl' evs, commit_payout now po i h s = Some (po', s') ∧ rep s' cl' ∧ same_statics po po' ∧ po_log po' = po_log po ++ evs ∧
    Forall2 (paid_or_not now i) cl cl' ∧ (all_balances i cl' + sumQ paid evs == all_balances i cl)%Q ∧
    (0 <= sumQ paid evs <= Qmax 0 (val (pl_balance (po_log po) i)))%Q ∧
    if due now i cl
    then ∃ rewards, evs = rewards ++ [SendReward i] ∧ paid_to <$> rewards `sublist_of` accounts cl
    else evs = [] ∧ cl' = cl.
Proof.
  intros Hr Hcl Hfee. destruct (due now i cl) eqn:Ed.
  - destruct (commit_run now po i h s cl Hr Hcl Hfee Ed) as (po' & s' & cl' & rewards & E & Hr' & Hst & Hl & Hu & Hc & Hb & Ha).
    assert (sumQ paid (rewards ++ [SendReward i]) == sumQ paid rewards)%Q as Es by (rewrite sumQ_app; cbn; ring).
    exists po', s', cl', (rewards ++ [SendReward i]). rewrite Es. split_and!; try done; [apply Hb|apply Hb|]. by exists rewards.
  - exists po, s, cl, []. rewrite (commit_quiet now po i h s cl Hr Ed), app_nil_r. cbn [sumQ]. split_and!; try done; [|ring|apply Q.le_max_l].
    apply Forall_Forall2_diag. eapply Forall_impl; [exact Hcl|]. intros x [_ Hx]. split; [done|]. split; [by left|exact Hx].
Qed.
End rewards.

(** ** Tasks *)
Section tasks.
Context `{Real} `{Double} `{Heap} `{!Server} `{!Double64} `{!Pool}.
Context (mem : list byte).
Implicit Types (s : cst user_t).


(** ** New blocks

    [ch n] is what the server says of the chains at call [n]. *)
Definition watched (alg : Z) (ch : chain_t) (i : nat) : bool := pl_algo i alg && coin_enabled sv_coin (Z.of_nat i) && negb (ch_download ch i).
Definition changed (ch : chain_t) (pd : pend_t) (i : nat) : bool := negb (u64 (ch_height ch i) =? nth_Z (pd_height pd) i).
Definition forced (pd : pend_t) : bool := u32 (pd_usec pd + 1) mod WORK_CYCLE_TIME =? 0.
(** The counters before call [n], and what it reports. *)
Fixpoint calls (alg : Z) (ch : nat → chain_t) (n : nat) (pd : pend_t) : pend_t :=
  match n with O => pd | S n => (is_stratum_task_pending alg (ch n) (calls alg ch n pd)).1 end.
Definition report (alg : Z) (ch : nat → chain_t) (n : nat) (pd : pend_t) : option nat := (is_stratum_task_pending alg (ch n) (calls alg ch n pd)).2.

Lemma pending_eq alg ch pd i : is_pending alg ch (forced pd) pd i = watched alg ch i && (forced pd || changed ch pd i).
Proof. reflexivity. Qed.
Lemma elem_ifaces i : i ∈ ifaces ↔ (1 ≤ i < MAX_COIN_IFACE)%nat.
Proof. unfold ifaces, MAX_COIN_IFACE. rewrite elem_of_seq. lia. Qed.
Lemma find_seq (f : nat → bool) a n i : List.find f (seq a n) = Some i ↔ (a ≤ i < a + n)%nat ∧ f i = true ∧ ∀ k, (a ≤ k < i)%nat → f k = false.
Proof.
  revert a. induction n as [|n IH]; intros a; cbn [seq List.find]; [split; [done|lia]|]. destruct (f a) eqn:E.
  - split; [intros [= <-]; split_and!; [lia|lia|done|lia]|]. intros (Hr & Hi & Hk). f_equal. destruct (decide (a = i)); [done|]. rewrite Hk in E by lia. done.
  - rewrite IH. split; intros (Hr & Hi & Hk); (split; [|split; [done|]]).
    + lia.
    + intros k Hka. destruct (decide (k = a)) as [->|]; [done|]. apply Hk. lia.
    + destruct (decide (a = i)) as [->|]; [congruence|]. lia.
    + intros k Hka. apply Hk. lia.
Qed.
(** A call reports the first coin that is pending. *)
Lemma report_first alg ch pd i : (is_stratum_task_pending alg ch pd).2 = Some i ↔
  i ∈ ifaces ∧ is_pending alg ch (forced pd) pd i = true ∧ ∀ j, j ∈ ifaces → (j < i)%nat → is_pending alg ch (forced pd) pd j = false.
Proof.
  assert ((is_stratum_task_pending alg ch pd).2 = List.find (is_pending alg ch (forced pd) pd) ifaces) as ->.
  { unfold is_stratum_task_pending. cbv zeta. fold (forced pd). by destruct (List.find _ _). }
  unfold ifaces at 1. rewrite find_seq, elem_ifaces. unfold MAX_COIN_IFACE. split; intros (Hr & Hi & Hk); (split; [lia|]; split; [done|]).
  - intros j Hj Hji. apply elem_ifaces in Hj. apply Hk. lia.
  - intros k Hk'. apply Hk; [apply elem_ifaces; unfold MAX_COIN_IFACE; lia|lia].
Qed.
Lemma report_pend alg ch pd i : (is_stratum_task_pending alg ch pd).2 = Some i →
  is_stratum_task_pending alg ch pd = (Pend (<[i := u64 (ch_height ch i)]> (pd_height pd)) 1, Some i).
Proof. unfold is_stratum_task_pending. cbv zeta. destruct (List.find _ _); cbn [snd]; [by intros [= ->]|done]. Qed.
(** When some coin is pending, one that is not above it is reported. *)
Lemma report_below alg ch pd i : i ∈ ifaces → is_pending alg ch (forced pd) pd i = true → ∃ j, (j ≤ i)%nat ∧ (is_stratum_task_pending alg ch pd).2 = Some j.
Proof.
  intros Hi Hp. destruct ((is_stratum_task_pending alg ch pd).2) as [j|] eqn:E.
  - exists j. split; [|done]. apply report_first in E as (_ & _ & Hlow). destruct (decide (j ≤ i)%nat) as [|Hlt]; [done|]. rewrite Hlow in Hp by (done || lia). done.
  - exfalso. unfold is_stratum_task_pending in E. cbv zeta in E. fold (forced pd) in E. destruct (List.find _ _) eqn:Ef; [done|].
    pose proof (List.find_none _ _ Ef i (proj1 (list_elem_of_In _ _) Hi)). congruence.
Qed.
Lemma calls_S alg ch n pd : calls alg ch (S n) pd = calls alg (λ k, ch (S k)) n (is_stratum_task_pending alg (ch 0%nat) pd).1.
Proof. induction n as [|n IH]; [done|]. cbn [calls] in *. by rewrite IH. Qed.
Lemma report_S alg ch n pd : report alg ch (S n) pd = report alg (λ k, ch (S k)) n (is_stratum_task_pending alg (ch 0%nat) pd).1.
Proof. unfold report. by rewrite calls_S. Qed.
(** The height of a coin that was not reported is as it was. *)
Lemma nth_other (l : list Z) i j v : i ≠ j → nth_Z (<[j := v]> l) i = nth_Z l i.
Proof. intros Hij. unfold nth_Z. by rewrite list_lookup_insert_ne. Qed.
Lemma nth_same (l : list Z) j v : (j < length l)%nat → nth_Z (<[j := v]> l) j = v.
Proof. intros Hj. unfold nth_Z. by rewrite list_lookup_insert_eq. Qed.
Lemma filter_drop_one {A} (f g : A → bool) l j : (∀ k, k ∈ l → g k = true → f k = true) → j ∈ l → f j = true → g j = false → (length (List.filter g l) < length (List.filter f l))%nat.
Proof.
  intros Hgf Hj Hfj Hgj. induction l as [|x l IH]; [by apply not_elem_of_nil in Hj|]. cbn.
  assert (length (List.filter g l) ≤ length (List.filter f l))%nat as Hle.
  { clear -Hgf. assert (∀ k, k ∈ l → g k = true → f k = true) as Hl by (intros k Hk; apply Hgf; by right). clear Hgf.
    induction l as [|y l IHl]; cbn; [lia|]. pose proof (Hl y ltac:(left)) as Hy. assert (length (List.filter g l) ≤ length (List.filter f l))%nat by (apply IHl; intros k Hk; apply Hl; by right).
    destruct (g y); [rewrite Hy by done|destruct (f y)]; cbn; lia. }
  pose proof (Hgf x ltac:(left)) as Hx. apply elem_of_cons in Hj as [<-|Hj]; [rewrite Hfj, Hgj; cbn; lia|].
  assert (length (List.filter g l) < length (List.filter f l))%nat by (apply IH; [intros k Hk; apply Hgf; by right|done]).
  destruct (g x); [rewrite Hx by done|destruct (f x)]; cbn; lia.
Qed.

Section soon.
Context (alg : Z) (i : nat) (Hi : i ∈ ifaces).
Definition below : list nat := seq 1 (i - 1).
Lemma elem_below j : j ∈ below ↔ j ∈ ifaces ∧ (j < i)%nat.
Proof. pose proof Hi as Hi'. apply elem_ifaces in Hi'. unfold below. rewrite elem_of_seq, elem_ifaces. lia. Qed.
(** Coin [i] is watched and has a new block at the first [m] calls, during which the coins below it stay as they are. *)
Definition stays (ch : nat → chain_t) (pd : pend_t) (m : nat) : Prop :=
  (∀ n, (n < m)%nat → watched alg (ch n) i = true ∧ changed (ch n) pd i = true) ∧
  ∀ n j, (n < m)%nat → j ∈ below → ch_height (ch n) j = ch_height (ch 0%nat) j ∧ ch_download (ch n) j = ch_download (ch 0%nat) j.
Definition new_below (ch : chain_t) (pd : pend_t) : list nat := List.filter (λ j, watched alg ch j && changed ch pd j) below.
Lemma stays_next ch pd m j : stays ch pd (S m) → j ∈ below → stays (λ k, ch (S k)) (Pend (<[j := u64 (ch_height (ch 0%nat) j)]> (pd_height pd)) 1) m.
Proof.
  intros [Hn Hb] Hj. apply elem_below in Hj as [_ Hji]. split.
  - intros n Hnm. destruct (Hn (S n) ltac:(lia)) as [Hw Hc]. split; [done|]. unfold changed in *. cbn [pd_height]. by rewrite nth_other by lia.
  - intros n k Hnm Hk. destruct (Hb (S n) k ltac:(lia) Hk) as [E1 E2]. destruct (Hb 1%nat k ltac:(lia) Hk) as [E3 E4]. by rewrite E1, E2, E3, E4.
Qed.
(** What is new below [i] after coin [j] was reported. *)
Lemma new_next ch pd m j k : stays ch pd (S (S m)) → length (pd_height pd) = MAX_COIN_IFACE → j ∈ below → k ∈ below →
  watched alg (ch 1%nat) k && changed (ch 1%nat) (Pend (<[j := u64 (ch_height (ch 0%nat) j)]> (pd_height pd)) 1) k =
  watched alg (ch 0%nat) k && changed (ch 0%nat) pd k && negb (k =? j)%nat.
Proof.
  intros [_ Hb] Hl Hj Hk. destruct (Hb 1%nat k ltac:(lia) Hk) as [E1 E2]. unfold watched, changed. cbn [pd_height]. rewrite E1, E2.
  destruct (Nat.eqb_spec k j) as [->|Hkj]; cbn [negb].
  - apply elem_below in Hj as [Hj%elem_ifaces _]. rewrite nth_same by lia. rewrite Z.eqb_refl. cbn [negb]. by rewrite !andb_false_r.
  - rewrite nth_other by done. by rewrite andb_true_r.
Qed.
Lemma reported_soon m : ∀ ch pd, length (pd_height pd) = MAX_COIN_IFACE → pd_usec pd = 1 → stays ch pd (S m) → (length (new_below (ch 0%nat) pd) ≤ m)%nat →
  ∃ n, (n ≤ m)%nat ∧ report alg ch n pd = Some i.
Proof.
  induction m as [|m IH]; intros ch pd Hl Hu Hs Hm; pose proof Hs as [Hn _]; destruct (Hn 0%nat ltac:(lia)) as [Hw Hc].
  all: assert (forced pd = false) as Hf by (unfold forced; by rewrite Hu).
  all: destruct (report_below alg (ch 0%nat) pd i Hi) as (j & Hji & Ej); [by rewrite pending_eq, Hw, Hc, orb_true_r|].
  all: destruct (decide (j = i)) as [->|Hne]; [by exists 0%nat; split; [lia|]|].
  all: pose proof Ej as (Hj & Hp & _)%report_first; rewrite pending_eq, Hf in Hp; cbn [orb] in Hp; assert (j ∈ below) as Hjb by (apply elem_below; split; [done|lia]).
  all: assert (j ∈ new_below (ch 0%nat) pd) as Hjn by (apply list_elem_of_In, List.filter_In; split; [by apply list_elem_of_In|done]).
  - destruct (new_below _ _); [by apply not_elem_of_nil in Hjn|cbn in Hm; lia].
  - set (pd' := Pend (<[j := u64 (ch_height (ch 0%nat) j)]> (pd_height pd)) 1).
    destruct (IH (λ k, ch (S k)) pd') as (n & Hnm & En); [by cbn; rewrite length_insert|done|by apply stays_next| |].
    + enough (length (new_below (ch 1%nat) pd') < length (new_below (ch 0%nat) pd))%nat by lia. apply (filter_drop_one _ _ _ j); [|done|done|].
      * intros k Hk. unfold pd'. rewrite (new_next ch pd m j k Hs Hl Hjb Hk). by intros [? _]%andb_true_iff.
      * unfold pd'. rewrite (new_next ch pd m j j Hs Hl Hjb Hjb), Nat.eqb_refl. apply andb_false_r.
    + exists (S n). split; [lia|]. rewrite report_S, (report_pend _ _ _ _ Ej). exact En.
Qed.
(** From any state: one call may go to a report that is due without a new block. *)
Lemma reported_in_time ch pd : length (pd_height pd) = MAX_COIN_IFACE → stays ch pd i → ∃ n, (n < i)%nat ∧ report alg ch n pd = Some i.
Proof.
  intros Hl Hs. pose proof Hi as Hi'. apply elem_ifaces in Hi'. pose proof Hs as [Hn _]. destruct (Hn 0%nat ltac:(lia)) as [Hw Hc].
  destruct (report_below alg (ch 0%nat) pd i Hi) as (j & Hji & Ej); [by rewrite pending_eq, Hw, Hc, orb_true_r|].
  destruct (decide (j = i)) as [->|Hne]; [exists 0%nat; split; [lia|done]|]. pose proof Ej as (Hj & _)%report_first. pose proof Hj as Hj'. apply elem_ifaces in Hj'.
  assert (j ∈ below) as Hjb by (apply elem_below; split; [done|lia]).
  assert (∃ m, i = S (S m)) as [m Em] by (exists (i - 2)%nat; lia). assert (stays ch pd (S (S m))) as Hs2 by (rewrite <-Em; exact Hs). set (pd' := Pend (<[j := u64 (ch_height (ch 0%nat) j)]> (pd_height pd)) 1).
  destruct (reported_soon m (λ k, ch (S k)) pd') as (n & Hnm & En); [by cbn; rewrite length_insert|done|by apply stays_next| |].
  - assert (length (new_below (ch 1%nat) pd') < length (List.filter (λ _, true) below))%nat as Hlt.
    { apply (filter_drop_one _ _ _ j); [done|done|done|]. unfold pd'. rewrite (new_next ch pd m j j Hs2 Hl Hjb Hjb), Nat.eqb_refl. apply andb_false_r. }
    assert (length (List.filter (λ _, true) below) ≤ length below)%nat as Hle by apply List.filter_length_le. unfold below in Hle at 2. rewrite length_seq in Hle. lia.
  - exists (S n). split; [lia|]. rewrite report_S, (report_pend _ _ _ _ Ej). exact En.
Qed.
End soon.

(** Nothing is new: the counter goes up. *)
Lemma quiet_call alg ch pd : (∀ i, i ∈ ifaces → watched alg ch i = true → changed ch pd i = false) → 0 ≤ pd_usec pd < WORK_CYCLE_TIME - 1 →
  is_stratum_task_pending alg ch pd = (Pend (pd_height pd) (pd_usec pd + 1), None).
Proof.
  intros Hq Hu. unfold WORK_CYCLE_TIME in Hu. assert (u32 (pd_usec pd + 1) = pd_usec pd + 1) as Eu by (apply u32_small; lia).
  assert (forced pd = false) as Hf by (unfold forced, WORK_CYCLE_TIME; rewrite Eu, Z.mod_small by lia; apply Z.eqb_neq; lia).
  unfold is_stratum_task_pending. cbv zeta. fold (forced pd). rewrite Hf, Eu. destruct (List.find _ _) as [j|] eqn:Ef; [|done].
  apply List.find_some in Ef as [Hj Hp]. apply list_elem_of_In in Hj. change (watched alg ch j && (false || changed ch pd j) = true) in Hp.
  apply andb_true_iff in Hp as [Hw Hc]. cbn [orb] in Hc. rewrite (Hq j Hj Hw) in Hc. done.
Qed.
Lemma quiet_calls alg ch n pd : (∀ k i, (k < n)%nat → i ∈ ifaces → watched alg (ch k) i = true → changed (ch k) pd i = false) → 0 ≤ pd_usec pd →
  pd_usec pd + Z.of_nat n ≤ WORK_CYCLE_TIME - 1 → calls alg ch n pd = Pend (pd_height pd) (pd_usec pd + Z.of_nat n).
Proof.
  induction n as [|n IH]; intros Hq Hu Hn; [cbn; rewrite Z.add_0_r; by destruct pd|]. cbn [calls]. rewrite IH by (try lia; intros k i Hk; apply Hq; lia).
  rewrite quiet_call; [cbn; f_equal; lia| |cbn; lia]. intros i Hi Hw. exact (Hq n i ltac:(lia) Hi Hw).
Qed.
(** A coin whose height grows from call to call is always pending. *)
Lemma growing_pending alg ch pd j n : j ∈ ifaces → length (pd_height pd) = MAX_COIN_IFACE → nth_Z (pd_height pd) j < u64 (ch_height (ch 0%nat) j) →
  (∀ n, u64 (ch_height (ch n) j) < u64 (ch_height (ch (S n)) j)) →
  nth_Z (pd_height (calls alg ch n pd)) j < u64 (ch_height (ch n) j) ∧ length (pd_height (calls alg ch n pd)) = MAX_COIN_IFACE.
Proof.
  intros Hj Hl Hz Hg. pose proof Hj as Hj'. apply elem_ifaces in Hj'. induction n as [|n [IH IHl]]; [done|]. cbn [calls]. specialize (Hg n).
  destruct ((is_stratum_task_pending alg (ch n) (calls alg ch n pd)).2) as [k|] eqn:E.
  - rewrite (report_pend _ _ _ _ E). cbn [fst pd_height]. rewrite length_insert. split; [|done].
    destruct (decide (j = k)) as [->|]; [rewrite nth_same by lia; lia|rewrite nth_other by done; lia].
  - assert (pd_height (is_stratum_task_pending alg (ch n) (calls alg ch n pd)).1 = pd_height (calls alg ch n pd)) as ->; [|split; [lia|done]].
    unfold is_stratum_task_pending in *. cbv zeta in *. by destruct (List.find _ _).
Qed.

(** C35: What the server says of the chains may change at every call. A call reports the first coin, in the order of the table, that is
    mined and not downloading and has another height than when it was last reported, or just the first that is mined and not
    downloading when the call is forced. A coin that has a new block is reported within as many calls as its place in the table
    (at most seven) while the coins before it stay as they are; but a coin before it that has a new block at every call, or one
    before that, is always reported in its stead. While no coin has a new block nothing is reported until the counter comes to 720, which after a
    report is the 719th call, and that call is forced. *)
Theorem pending_reports alg (ch : nat → chain_t) pd : length (pd_height pd) = MAX_COIN_IFACE →
  (∀ i, report alg ch 0 pd = Some i ↔
     i ∈ ifaces ∧ watched alg (ch 0%nat) i && (forced pd || changed (ch 0%nat) pd i) = true ∧
     ∀ j, j ∈ ifaces → (j < i)%nat → watched alg (ch 0%nat) j && (forced pd || changed (ch 0%nat) pd j) = false) ∧
  (∀ i, i ∈ ifaces → (∀ n, (n < i)%nat → watched alg (ch n) i = true ∧ changed (ch n) pd i = true) →
     (∀ n j, (n < i)%nat → j ∈ ifaces → (j < i)%nat → ch_height (ch n) j = ch_height (ch 0%nat) j ∧ ch_download (ch n) j = ch_download (ch 0%nat) j) →
     ∃ n, (n < i)%nat ∧ report alg ch n pd = Some i) ∧
  (∀ j, j ∈ ifaces → (∀ n, watched alg (ch n) j = true) → nth_Z (pd_height pd) j < u64 (ch_height (ch 0%nat) j) →
     (∀ n, u64 (ch_height (ch n) j) < u64 (ch_height (ch (S n)) j)) → ∀ n, ∃ i, report alg ch n pd = Some i ∧ (i ≤ j)%nat) ∧
  (∀ m, 0 ≤ pd_usec pd → pd_usec pd + Z.of_nat m = WORK_CYCLE_TIME - 1 →
     (∀ n i, (n < m)%nat → i ∈ ifaces → watched alg (ch n) i = true → changed (ch n) pd i = false) →
     (∀ n, (n < m)%nat → report alg ch n pd = None) ∧ report alg ch m pd = List.find (watched alg (ch m)) ifaces).
Proof.
  intros Hl. split; [|split; [|split]].
  - intros i. exact (report_first alg (ch 0%nat) pd i).
  - intros i Hi Hn Hb. apply (reported_in_time alg i Hi ch pd Hl). split; [exact Hn|]. intros n j Hnm Hj. apply (elem_below i Hi) in Hj as [Hj Hji]. by apply Hb.
  - intros j Hj Hw Hz Hg n. destruct (growing_pending alg ch pd j n Hj Hl Hz Hg) as [Hlt _]. set (pn := calls alg ch n pd) in *.
    destruct (report_below alg (ch n) pn j Hj) as (i & Hij & E); [|by exists i].
    assert (changed (ch n) pn j = true) as Hc by (apply negb_true_iff, Z.eqb_neq; lia). by rewrite pending_eq, Hw, Hc, orb_true_r.
  - intros m Hu Hm Hq. assert (∀ n, (n ≤ m)%nat → calls alg ch n pd = Pend (pd_height pd) (pd_usec pd + Z.of_nat n)) as Hc.
    { intros n Hnm. apply quiet_calls; [intros k i Hk; apply Hq; lia|done|lia]. }
    split.
    + intros n Hnm. unfold report. rewrite Hc by lia. rewrite quiet_call; [done| |cbn; lia]. intros i Hi Hw. exact (Hq n i Hnm Hi Hw).
    + unfold report. rewrite Hc by lia. unfold is_stratum_task_pending. cbn [pd_usec pd_height]. rewrite Hm. change (u32 (WORK_CYCLE_TIME - 1 + 1) mod WORK_CYCLE_TIME =? 0) with true.
      assert (∀ l, List.find (is_pending alg (ch m) true (Pend (pd_height pd) (WORK_CYCLE_TIME - 1))) l = List.find (watched alg (ch m)) l) as ->.
      { assert (∀ x, is_pending alg (ch m) true (Pend (pd_height pd) (WORK_CYCLE_TIME - 1)) x = watched alg (ch m) x) as Hx by (intros x; apply andb_true_r).
        induction l as [|x l IH]; [done|]. cbn [List.find]. by rewrite Hx, IH. }
      by destruct (List.find _ _).
Qed.
End tasks.

(** ** Instances *)
#[local] Instance task_heap : Heap := λ _, true.
#[local] Instance task_real : Real := {|
  R := Z; r_of := id; radd := Z.add; rmul := Z.mul; rpow10 := λ x, 10 ^ x; rint := id; ru32 := u32;
  rnear n d := n =? d; rbytes := le_enc 8; rfmt d := take 63 (dec d) |}.
#[local] Instance task_Q : Double := {| F := Q; f0 := 0%Q; fadd := Qplus; fmul := Qmult; fdiv := Qdiv; f_of := inject_Z;
  fsub := Qminus; fltb a b := negb (Qle_bool b a); feqb := Qeq_bool; f_inf := (-1)%Q; fint := Qfloor |}.
#[local] Instance task_Q64 : Double64 := {| fceil q := inject_Z (Qceiling q); fu64 := Qfloor; fu32 := Qfloor |}.
#[local] Instance task_server : Server := {|
  sv_coin i := if (i =? 1)%nat then Some (bytes "shc", true) else None; sv_text _ := None;
  sv_submit _ _ _ _ := (0, [], 0%Q); sv_height _ := 10; sv_factor _ := 1; sv_nonce := bytes "08000002"; sv_api _ _ _ _ := None; sv_shapi _ _ _ _ := None;
  sv_transactions _ := (0, None); sv_errstr _ := bytes "error"; sv_rpc _ _ _ := (0, None);
  sv_addr_crc i _ := Z.of_nat i; sv_ext_addr_crc i _ := Z.of_nat i; sv_real := Qfloor |}.
Definition demo_fields (l : list (string * list byte)) : shjson_t :=
  foldl (λ t x, shjson_str_add t (Some (bytes x.1)) (Some x.2)) (item None SHJSON_OBJECT) l.
(** A block of 50 coins. *)
Definition demo_block : shjson_t := shjson_num_add (demo_fields [("blockhash", bytes "00ff")]) (Some (bytes "amount")) 50.
#[local] Instance task_pool : Pool := {|
  f_dec m e := (inject_Z m / inject_Z (10 ^ e))%Q; ffloor q := inject_Z (Qfloor q); fsqrt := id; fi64 := Qfloor; f_real := inject_Z; f_fmt _ _ q := dec (Qfloor q);
  pl_lastblock _ _ := Some demo_block; pl_reward _ _ _ _ := 0; pl_balance _ _ := 1000%Q; pl_template _ _ _ := None; pl_algo _ _ := true;
  pl_difficulty _ := 1%Q; pl_net_valid _ := 0; pl_min_tx_fee _ := 1000 |}.
#[local] Instance task_exact : Exact.
Proof.
  refine {| val := λ q : F, q |}; try reflexivity; cbn.
  - intros a b. rewrite negb_true_iff, <-not_true_iff_false, Qle_bool_iff. split; [apply Qnot_le_lt|apply Qlt_not_le].
  - intros a b. apply Qeq_bool_iff.
Defined.
(** Two workers: one with 3 shares in each round, one with 1 and a balance. *)
Definition demo_worker (w : list byte) (avg bal : Q) : user_t :=
  User w (-1) USER_CLIENT 0 0%Q 0 (replicate 6 avg) 0 (<[1%nat := bal]> (replicate MAX_COIN_IFACE 0%Q)) 0 0 1 _shkey_blank 0 0 session_zero.
Definition demo_workers : list (Z * user_t) := [(1, demo_worker (bytes "alice.rig") 3 0); (2, demo_worker (bytes "bob") 1 (25 # 10))].
Definition demo_pool : cst user_t := of_list demo_workers 3 (DTab None 0 0 0).
Lemma demo_pool_rep : rep demo_pool demo_workers.
Proof. apply of_list_rep; [done|vm_compute; repeat constructor; set_solver|]. by repeat constructor. Qed.
Definition demo_statics : pool_t := po_set_payout 1 (bytes "00aa") pool_init.

Lemma demo_lines : lines_fit 1 (block_weight demo_block demo_workers) demo_workers.
Proof. exists (bytes "shc"), true. split; [reflexivity|]. repeat constructor; vm_compute; reflexivity. Qed.
Lemma payout_divides_witness : ∃ po' s' cl', check_payout demo_statics 1 demo_pool = Some (po', s') ∧ rep s' cl' ∧
  (all_balances 1 demo_workers <= all_balances 1 cl' <= all_balances 1 demo_workers + (999 # 1000) * 50)%Q ∧ check_payout po' 1 s' = Some (po', s').
Proof.
  destruct (payout_divides demo_statics 1 demo_pool demo_workers demo_block (bytes "00ff") (bytes "00aa")) as (po' & s' & cl' & E & Hr & _ & Hd & Hagain).
  - exact demo_pool_rep.
  - repeat constructor; vm_compute; discriminate.
  - exact demo_lines.
  - reflexivity.
  - vm_compute; reflexivity.
  - discriminate.
  - vm_compute. repeat constructor.
  - reflexivity.
  - exists po', s', cl'. split; [exact E|]. split; [exact Hr|]. split; [|apply Hagain; reflexivity].
    assert (bool_decide (bytes "00aa" = [] ∨ bytes "00aa" = bytes "00ff") = false) as Eb by (vm_compute; reflexivity). rewrite Eb in Hd. destruct Hd as [_ Hd].
    assert (bool_decide (demo_workers = []) || fltb (block_amount demo_block) (f_of 1) = false) as Ei by (vm_compute; reflexivity). rewrite Ei in Hd.
    destruct Hd as [_ Hd]. change (val (block_amount demo_block)) with (inject_Z 50) in Hd. exact Hd.
Defined.
Lemma rewards_conserved_witness : ∃ po' s' cl', commit_payout 10000 demo_statics 1 9 demo_pool = Some (po', s') ∧ rep s' cl' ∧ Forall2 (paid_or_not 10000 1) demo_workers cl'.
Proof.
  destruct (rewards_conserved 10000 demo_statics 1 9 demo_pool demo_workers) as (po' & s' & cl' & evs & E & Hr & _ & _ & Hu & _).
  - exact demo_pool_rep.
  - repeat constructor; vm_compute; discriminate.
  - discriminate.
  - exists po', s', cl'. split; [exact E|]. split; [exact Hr|exact Hu].
Defined.
Example rewards_demo : (commit_payout 10000 demo_statics 1 9 demo_pool ≫= λ r, Some (length (po_log r.1))) = Some 2%nat.
Proof. vm_compute. reflexivity. Qed.
(** Coin 1 gets a block at the second call. *)
Definition demo_chains (n : nat) : chain_t := Chain (λ _, if (n =? 0)%nat then 0 else 10) (λ _, false).
Lemma pending_reports_witness : report 0 demo_chains 0 pend_init = None ∧ ∃ n, (n < 1)%nat ∧ report 0 (λ k, demo_chains (S k)) n pend_init = Some 1%nat.
Proof.
  split; [vm_compute; reflexivity|].
  apply (proj1 (proj2 (pending_reports 0 (λ k, demo_chains (S k)) pend_init eq_refl)) 1%nat).
  - apply elem_ifaces. vm_compute. repeat constructor.
  - intros n _. split; vm_compute; reflexivity.
  - intros n j _ _ _. split; reflexivity.
Defined.
