(* ===== verification/Spring.v ===== *)
(** * The spring matrix

    [server/spring.c]: a matrix of 256 by 256 cells holds which geodetic locations
    can still be claimed; a location is four bits of a cell, two of each half,
    chosen by SHA-1 digests of its fractions.  A cell outside the matrix is [None].
    Doubles and long doubles are classes, and the memory of the digest context is
    an argument. *)

From S2P Require Import Prelude Errors Shbuf Descriptor Crc Sha ShaSpec Hmac HmacSpec Key KeyThm Opt Clients Services CodecSpec Scrypt ScryptSpec.

Section spring.
Context `{Double}.
Class LongDouble := {
  L : Type;
  l_of : F → L;
  l_ofZ : Z → L;
  (** The literal [m * 10^-e]. *)
  l_dec : Z → Z → L;
  lsub : L → L → L;
  lmul : L → L → L;
  lltb : L → L → bool;
  (** [(int)x], [(uint32_t)x] and [(uint64_t)x] *)
  lint : L → Z;
  lu32 : L → Z;
  lu64 : L → Z;
  (** The literal of a double. *)
  d_dec : Z → Z → F;
}.
Context `{!LongDouble} (mem : list byte).
Implicit Types m : list (list Z).

(** ** Bits of a location *)
Definition spring_matrix_bit (seed : Z) : option Z :=
  let seed := htonll seed in
  '(_, s) ← sh_sha1_write (sh_sha1_init mem).2 (Some (le_enc 8 seed)) 8;
  '(_, result, _) ← sh_sha1_result s;
  let val := foldl (λ v w, u32 (v + w)) 0 (mem_words 5 result) in
  Some (val mod 32).
Record spring_bits := SpringBits { sb_x : Z; sb_y : Z; sb_lat1 : Z; sb_lat2 : Z; sb_lon1 : Z; sb_lon2 : Z }.
Definition SPRING_OFFSET_LATITUDE : L := l_dec 300 1.
Definition SPRING_OFFSET_LONGITUDE : L := l_dec 700 1.
Definition SPRING_Y_FACTOR : L := l_dec 134 1.
Definition SPRING_X_FACTOR : L := l_dec 52 1.
Definition l_abs (v : L) : L := if lltb v (l_ofZ 0) then lmul v (l_ofZ (-1)) else v.
(** A row or column; [%] keeps the sign and the member is unsigned. *)
Definition spring_index (v offset factor : L) : Z := u32 (Z.rem (lint (lmul (lsub v offset) factor)) 256).
Definition spring_fraction (v : L) : Z := lu64 (lmul (lsub v (l_ofZ (lu32 v))) (l_dec 10000 1)).
Definition spring_loc_bits (lat lon : F) : option spring_bits :=
  let lat := l_abs (l_of lat) in
  let lon := l_abs (l_of lon) in
  let y := spring_index lat SPRING_OFFSET_LATITUDE SPRING_Y_FACTOR in
  let x := spring_index lon SPRING_OFFSET_LONGITUDE SPRING_X_FACTOR in
  let b_lat := spring_fraction lat in
  lat1 ← spring_matrix_bit b_lat;
  lat2 ← spring_matrix_bit (b_lat / 8);
  let b_lon := spring_fraction lon in
  lon1 ← spring_matrix_bit b_lon;
  lon2 ← spring_matrix_bit (b_lon / 8);
  Some (SpringBits x y (lat1 mod 32) (lat2 mod 32) (lon1 mod 32) (lon2 mod 32)).

(** ** The matrix *)
Definition spring_cell m (b : spring_bits) : option Z := m !! Z.to_nat (sb_y b) ≫= λ row, row !! Z.to_nat (sb_x b).
Definition set_cell m (b : spring_bits) (w : Z) : list (list Z) := alter (λ row, <[Z.to_nat (sb_x b) := w]> row) (Z.to_nat (sb_y b)) m.
(** [i_ar[0]] and [i_ar[1]], and a bit of them. *)
Definition half (w : Z) (i : bool) : Z := if i then Z.shiftr w 32 else u32 w.
Definition join (lo hi : Z) : Z := Z.lor lo (Z.shiftl hi 32).
Definition bit32 (k : Z) : Z := u32 (Z.shiftl 1 k).
Definition has_bits (w : Z) (b : spring_bits) : bool :=
  has_flag (half w false) (bit32 (sb_lat1 b)) && has_flag (half w false) (bit32 (sb_lat2 b)) &&
  has_flag (half w true) (bit32 (sb_lon1 b)) && has_flag (half w true) (bit32 (sb_lon2 b)).
Definition same_bit (b : spring_bits) : bool := (sb_lat1 b =? sb_lat2 b) || (sb_lon1 b =? sb_lon2 b).
Definition spring_loc_set m (lat lon : F) : option (list (list Z)) :=
  b ← spring_loc_bits lat lon;
  w ← spring_cell m b;
  let lo := Z.lor (Z.lor (half w false) (bit32 (sb_lat1 b))) (bit32 (sb_lat2 b)) in
  let hi := Z.lor (Z.lor (half w true) (bit32 (sb_lon1 b))) (bit32 (sb_lon2 b)) in
  Some (set_cell m b (join lo hi)).
Definition is_spring_loc m (lat lon : F) : option bool :=
  b ← spring_loc_bits lat lon;
  if same_bit b then Some false else w ← spring_cell m b; Some (has_bits w b).
Definition spring_loc_claim m (lat lon : F) : option (list (list Z)) :=
  b ← spring_loc_bits lat lon;
  if same_bit b then Some m
  else
    w ← spring_cell m b;
    if has_bits w b
    then Some (set_cell m b (join (Z.land (half w false) (u32 (Z.lnot (bit32 (sb_lat1 b))))) (Z.land (half w true) (u32 (Z.lnot (bit32 (sb_lon1 b)))))))
    else Some m.

(** ** Searching: [None] also when [fuel] is too small *)
Definition fleb (a b : F) : bool := fltb a b || feqb a b.
Fixpoint search_lon (fuel : nat) m (lat lon e_lon : F) : option (option (F * F)) :=
  if negb (fleb lon e_lon) then Some None
  else match fuel with
       | O => None
       | S fuel =>
          found ← is_spring_loc m lat lon;
          if found : bool then Some (Some (lat, lon)) else search_lon fuel m lat (fadd lon (d_dec 1 3)) e_lon
       end.
Fixpoint search_lat (fuel : nat) m (lat e_lat s_lon e_lon : F) (lon_fuel : nat) : option (option (F * F)) :=
  if negb (fleb lat e_lat) then Some None
  else match fuel with
       | O => None
       | S fuel =>
          r ← search_lon lon_fuel m lat s_lon e_lon;
          match r with
          | Some loc => Some (Some loc)
          | None => search_lat fuel m (fadd lat (d_dec 1 3)) e_lat s_lon e_lon lon_fuel
          end
       end.
(** The result and the location found. *)
Definition spring_loc_search (fuel : nat) m (cur_lat cur_lon : F) : option (Z * option (F * F)) :=
  let q := d_dec 25 2 in
  r ← search_lat fuel m (fsub cur_lat q) (fadd cur_lat q) (fsub cur_lon q) (fadd cur_lon q) fuel;
  Some (match r with Some loc => (0, Some loc) | None => (ERR_NOENT, None) end).

(** ** The compressed matrix *)
Definition block_of (i : nat) : nat := (i / 85) mod 3.
Definition compress_cell m (row col : nat) : Z :=
  foldl (λ acc y, foldl (λ acc x, if (block_of y =? row)%nat && (block_of x =? col)%nat
    then u32 (acc + u32 (default 0 (m !! y ≫= λ r, r !! x))) else acc) acc (seq 0 256)) 0 (seq 0 256).
Definition spring_matrix_compress m : list (list Z) := (λ row, compress_cell m row <$> seq 0 3) <$> seq 0 3.
End spring.

(** ** Bits *)
Lemma bit32_pow k : 0 ≤ k < 32 → bit32 k = 2 ^ k.
Proof. intros Hk. unfold bit32. rewrite Z.shiftl_1_l. apply u32_small. split; [lia|]. apply Z.pow_lt_mono_r; lia. Qed.
Lemma has_bit w k : 0 ≤ k < 32 → has_flag w (bit32 k) = Z.testbit w k.
Proof.
  intros Hk. rewrite bit32_pow by done. unfold has_flag. destruct (Z.testbit w k) eqn:E.
  - apply negb_true_iff, Z.eqb_neq. intros Hz. apply (f_equal (λ z, Z.testbit z k)) in Hz. rewrite Z.land_spec, E, Z.pow2_bits_true, Z.bits_0 in Hz by lia. done.
  - apply negb_false_iff, Z.eqb_eq. apply Z.bits_inj'. intros n Hn. rewrite Z.land_spec, Z.bits_0. destruct (decide (n = k)) as [->|Hne]; [by rewrite E|].
    rewrite Z.pow2_bits_false by done. apply andb_false_r.
Qed.
Lemma testbit_word lo n : word lo → 32 ≤ n → Z.testbit lo n = false.
Proof.
  intros Hw Hn. destruct (decide (lo = 0)) as [->|Hz]; [apply Z.bits_0|]. apply Z.bits_above_log2; [unfold word in Hw; lia|].
  apply Z.lt_le_trans with 32; [|done]. apply Z.log2_lt_pow2; unfold word in Hw; lia.
Qed.
Lemma u32_bits w n : 0 ≤ n < 32 → Z.testbit (u32 w) n = Z.testbit w n.
Proof. intros Hn. unfold u32. change (2 ^ 32) with (2 ^ 32). apply Z.mod_pow2_bits_low. lia. Qed.
(** The bits of the halves of a cell. *)
Lemma half_join_lo lo hi n : word lo → 0 ≤ n < 32 → Z.testbit (half (join lo hi) false) n = Z.testbit lo n.
Proof. intros Hlo Hn. unfold half, join. rewrite u32_bits, Z.lor_spec, (Z.shiftl_spec_low hi 32 n), orb_false_r by lia. done. Qed.
Lemma half_join_hi lo hi n : word lo → 0 ≤ n → Z.testbit (half (join lo hi) true) n = Z.testbit hi n.
Proof.
  intros Hlo Hn. unfold half, join. rewrite Z.shiftr_spec, Z.lor_spec, (testbit_word lo) by (done || lia). cbn [orb]. rewrite Z.shiftl_spec by lia. f_equal. lia.
Qed.
Lemma word_lor a b : word a → word b → word (Z.lor a b).
Proof.
  intros Ha Hb. unfold word in *. assert (0 ≤ Z.lor a b) by (apply Z.lor_nonneg; lia). split; [done|]. destruct (decide (Z.lor a b = 0)) as [->|Hz]; [lia|].
  apply Z.log2_lt_pow2; [lia|]. rewrite Z.log2_lor by lia. apply Z.max_lub_lt; [destruct (decide (a = 0)) as [->|]|destruct (decide (b = 0)) as [->|]]; try (cbn; lia); apply Z.log2_lt_pow2; lia.
Qed.
Lemma word_land a b : word a → word (Z.land a b).
Proof.
  intros Ha. unfold word in *. assert (0 ≤ Z.land a b) by (apply Z.land_nonneg; lia). split; [done|].
  assert (Z.land a b ≤ a); [|lia]. destruct (decide (0 ≤ a)) as [Hp|]; [|lia]. clear -Hp H. apply Z.ldiff_le; [done|]. apply Z.bits_inj'. intros n Hn.
  rewrite Z.ldiff_spec, Z.land_spec, Z.bits_0. by destruct (Z.testbit a n), (Z.testbit b n).
Qed.
Lemma word_bit k : 0 ≤ k < 32 → word (bit32 k).
Proof. intros Hk. unfold bit32. apply word_u32. Qed.

#[local] Opaque SHS.
Section claims.
Context `{Double} `{!LongDouble} (mem : list byte).
Implicit Types m : list (list Z).
Hypothesis Hmem : (64 ≤ length mem)%nat.
(** The bit of a number is that of its SHA-1 digest, the words added up. *)
Definition digest_bit (seed : Z) : Z := foldl (λ v w, u32 (v + w)) 0 (mem_words 5 (SHS K1 (le_enc 8 (htonll seed)))) mod 32.
Lemma matrix_bit_spec seed : spring_matrix_bit mem seed = Some (digest_bit seed).
Proof.
  unfold spring_matrix_bit. destruct (shsha_init_spec K1 sha_zero mem Hmem) as (s & E & Hs). change (shsha_init _ _ _) with (sh_sha1_init mem) in E.
  rewrite E. cbn [snd]. set (l := le_enc 8 (htonll seed)). assert (zlen l = 8) as Hl by (unfold l; by rewrite length_le_enc).
  rewrite <-Hl. destruct (shsha_write_spec K1 s [] l Hs) as (s1 & E1 & Hs1); [lia|rewrite app_nil_l; lia|]. destruct Hs as [Ha _].
  rewrite (shsha_write_kind K1) in E1 by done. unfold sh_sha1_write. change fam_sha1 with (kind_fam K1). rewrite E1. cbn [mbind option_bind].
  destruct (shsha_result_spec K1 s1 _ Hs1) as (s2 & E2 & _). destruct Hs1 as [Ha1 _]. rewrite (shsha_result_kind K1) in E2 by done.
  unfold sh_sha1_result. change fam_sha1 with (kind_fam K1). change 20%nat with (kind_size K1). rewrite E2. cbn [mbind option_bind]. rewrite app_nil_l. unfold digest_bit. fold l. reflexivity.
Qed.
Record bits_ok (b : spring_bits) : Prop := {
  bo_lat1 : 0 ≤ sb_lat1 b < 32; bo_lat2 : 0 ≤ sb_lat2 b < 32; bo_lon1 : 0 ≤ sb_lon1 b < 32; bo_lon2 : 0 ≤ sb_lon2 b < 32;
  bo_x : 0 ≤ sb_x b; bo_y : 0 ≤ sb_y b;
}.
Lemma loc_bits_total lat lon : ∃ b, spring_loc_bits mem lat lon = Some b ∧ bits_ok b ∧
  sb_y b = spring_index (l_abs (l_of lat)) SPRING_OFFSET_LATITUDE SPRING_Y_FACTOR ∧ sb_x b = spring_index (l_abs (l_of lon)) SPRING_OFFSET_LONGITUDE SPRING_X_FACTOR.
Proof.
  unfold spring_loc_bits. rewrite !matrix_bit_spec. cbn [mbind option_bind]. eexists. split; [reflexivity|]. split; [|done].
  split; cbn; try (apply Z.mod_pos_bound; lia); apply word_u32.
Qed.
(** 256 rows of 256 cells of 64 bits. *)
Definition matrix_ok m : Prop := length m = 256%nat ∧ Forall (λ row, length row = 256%nat ∧ Forall (λ w, 0 ≤ w < 2 ^ 64) row) m.
Definition inside (b : spring_bits) : Prop := sb_y b < 256 ∧ sb_x b < 256.
Lemma cell_inside m b : matrix_ok m → bits_ok b → inside b → ∃ w, spring_cell m b = Some w ∧ 0 ≤ w < 2 ^ 64.
Proof.
  intros [Hl Hm] Hb [Hy Hx]. destruct (lookup_lt_is_Some_2 m (Z.to_nat (sb_y b))) as [row Hrow]; [destruct Hb; lia|].
  destruct (Forall_lookup_1 _ _ _ _ Hm Hrow) as [Hlr Hr]. destruct (lookup_lt_is_Some_2 row (Z.to_nat (sb_x b))) as [w Hw]; [destruct Hb; lia|].
  exists w. unfold spring_cell. rewrite Hrow. cbn [mbind option_bind]. split; [exact Hw|]. exact (Forall_lookup_1 _ _ _ _ Hr Hw).
Qed.
Lemma cell_outside m b : matrix_ok m → ~ inside b → bits_ok b → spring_cell m b = None.
Proof.
  intros [Hl Hm] Hn Hb. unfold spring_cell. destruct (m !! Z.to_nat (sb_y b)) as [row|] eqn:E; [|done]. cbn [mbind option_bind]. apply lookup_ge_None.
  destruct (Forall_lookup_1 _ _ _ _ Hm E) as [-> _]. apply lookup_lt_Some in E. destruct Hb as [_ _ _ _ Hx Hy]. unfold inside in Hn. lia.
Qed.
Lemma set_cell_get m b w w0 : spring_cell m b = Some w0 → spring_cell (set_cell m b w) b = Some w.
Proof.
  unfold spring_cell, set_cell. intros (row & Hrow & Hx)%bind_Some. rewrite list_lookup_alter_eq, Hrow. cbn. rewrite list_lookup_insert_eq; [done|]. by eapply lookup_lt_Some.
Qed.
Lemma set_cell_other m b w y x : (y, x) ≠ (Z.to_nat (sb_y b), Z.to_nat (sb_x b)) → (set_cell m b w !! y ≫= λ r, r !! x) = (m !! y ≫= λ r, r !! x).
Proof.
  intros Hne. unfold set_cell. destruct (decide (y = Z.to_nat (sb_y b))) as [->|Hy]; [|by rewrite list_lookup_alter_ne].
  rewrite list_lookup_alter_eq. destruct (m !! Z.to_nat (sb_y b)) as [row|]; [|done]. cbn. apply list_lookup_insert_ne. congruence.
Qed.
Lemma set_cell_ok m b w : matrix_ok m → 0 ≤ w < 2 ^ 64 → matrix_ok (set_cell m b w).
Proof.
  intros [Hl Hm] Hw. split; [unfold set_cell; by rewrite length_alter|]. unfold set_cell. apply Forall_alter; [done|]. intros row Hrow.
  destruct (Forall_lookup_1 _ _ _ _ Hm Hrow) as [Hlr Hr]. intros _. split; [by rewrite length_insert|]. by apply Forall_insert.
Qed.
Lemma half_word w i : 0 ≤ w < 2 ^ 64 → word (half w i).
Proof.
  intros Hw. unfold half. destruct i; [|apply word_u32]. unfold word. rewrite Z.shiftr_div_pow2 by lia. split; [apply Z.div_pos; lia|]. apply Z.div_lt_upper_bound; lia.
Qed.
Lemma join_range lo hi : word lo → word hi → 0 ≤ join lo hi < 2 ^ 64.
Proof.
  intros Hlo Hhi. unfold word in *. unfold join. assert (Z.lor lo (Z.shiftl hi 32) = lo + hi * 2 ^ 32) as ->; [|lia].
  assert (Z.land lo (Z.shiftl hi 32) = 0) as Hz.
  { apply Z.bits_inj'. intros n Hn. rewrite Z.land_spec, Z.bits_0.
    destruct (decide (n < 32)); [rewrite (Z.shiftl_spec_low hi 32 n) by lia; apply andb_false_r|rewrite (testbit_word lo) by (unfold word; lia); done]. }
  rewrite <-Z.shiftl_mul_pow2 by lia. by rewrite Z.add_nocarry_lxor, Z.lxor_lor.
Qed.

(** A cell whose bits of [b] are set has them, and loses them with the first bits. *)
Definition with_bits (w : Z) (b : spring_bits) : Z :=
  join (Z.lor (Z.lor (half w false) (bit32 (sb_lat1 b))) (bit32 (sb_lat2 b))) (Z.lor (Z.lor (half w true) (bit32 (sb_lon1 b))) (bit32 (sb_lon2 b))).
Definition without_bits (w : Z) (b : spring_bits) : Z :=
  join (Z.land (half w false) (u32 (Z.lnot (bit32 (sb_lat1 b))))) (Z.land (half w true) (u32 (Z.lnot (bit32 (sb_lon1 b))))).
Lemma bit_true k : 0 ≤ k < 32 → Z.testbit (bit32 k) k = true.
Proof. intros Hk. rewrite bit32_pow by done. apply Z.pow2_bits_true. lia. Qed.
Lemma with_bits_ok w b : 0 ≤ w < 2 ^ 64 → bits_ok b → 0 ≤ with_bits w b < 2 ^ 64 ∧ has_bits (with_bits w b) b = true.
Proof.
  intros Hw [H1 H2 H3 H4 _ _]. assert (word (Z.lor (Z.lor (half w false) (bit32 (sb_lat1 b))) (bit32 (sb_lat2 b)))) as Hlo by (auto using word_lor, word_bit, half_word).
  split; [apply join_range; auto using word_lor, word_bit, half_word|]. unfold has_bits, with_bits. rewrite !has_bit by done.
  rewrite !half_join_lo, !half_join_hi, !Z.lor_spec, !bit_true by (done || lia). by rewrite !orb_true_r.
Qed.
Lemma without_bits_ok w b : 0 ≤ w < 2 ^ 64 → bits_ok b → 0 ≤ without_bits w b < 2 ^ 64 ∧ has_bits (without_bits w b) b = false.
Proof.
  intros Hw [H1 H2 H3 H4 _ _]. assert (word (Z.land (half w false) (u32 (Z.lnot (bit32 (sb_lat1 b)))))) as Hlo by (apply word_land; by apply half_word).
  split; [apply join_range; [done|]; apply word_land; by apply half_word|]. unfold has_bits, without_bits. rewrite !has_bit by done.
  rewrite (half_join_lo _ _ (sb_lat1 b)), Z.land_spec, u32_bits, Z.lnot_spec, bit_true by (done || lia). cbn [negb]. by rewrite andb_false_r.
Qed.

(** ** Searching

    A search finds only locations that are there, and as many turns as it takes to
    step over the end are enough fuel. *)
Lemma search_lon_sound fuel m lat lon e r : search_lon mem fuel m lat lon e = Some (Some r) → r.1 = lat ∧ is_spring_loc mem m r.1 r.2 = Some true.
Proof.
  revert lon. induction fuel as [|fuel IH]; intros lon; cbn [search_lon]; destruct (negb _); try discriminate.
  destruct (is_spring_loc mem m lat lon) as [[]|] eqn:E; cbn [mbind option_bind]; [intros [= <-]; done|apply IH|discriminate].
Qed.
Lemma search_sound fuel m lat lon r : spring_loc_search mem fuel m lat lon = Some (0, Some r) → is_spring_loc mem m r.1 r.2 = Some true.
Proof.
  unfold spring_loc_search. intros (o & E & Er)%bind_Some. assert (o = Some r) as -> by (destruct o; [by injection Er as ->|discriminate Er]). clear Er. revert E.
  generalize (fsub lat (d_dec 25 2)) (fadd lat (d_dec 25 2)) (fsub lon (d_dec 25 2)) (fadd lon (d_dec 25 2)). intros s_lat e_lat s_lon e_lon. generalize fuel at 2.
  revert s_lat. induction fuel as [|fuel IH]; intros s_lat lf; cbn [search_lat]; destruct (negb _); try discriminate.
  intros (o & E & Er)%bind_Some. destruct o as [loc|]; [|by eapply IH]. injection Er as ->. by apply search_lon_sound in E as [_ E].
Qed.
Lemma search_lon_ends fuel m lat lon e : (∀ l, is_Some (is_spring_loc mem m lat l)) → fleb (Nat.iter fuel (λ x, fadd x (d_dec 1 3)) lon) e = false →
  is_Some (search_lon mem fuel m lat lon e).
Proof.
  intros Hl. revert lon. induction fuel as [|fuel IH]; intros lon Hf; cbn [search_lon]; [cbn in Hf; by rewrite Hf|].
  destruct (negb _); [done|]. destruct (Hl lon) as [[] ->]; cbn [mbind option_bind]; [done|]. apply IH. rewrite Nat.iter_succ_r in Hf. exact Hf.
Qed.

(** C36: A location that lies inside the matrix can be set and claimed: after setting it is there (unless two of its bits are
    the same, when it never is), claiming it takes it away, and claiming it again changes nothing. Every other cell of the
    matrix is as before, and the matrix stays one of 256 by 256 cells of 64 bits. *)
Theorem spring_claims m lat lon b : matrix_ok m → spring_loc_bits mem lat lon = Some b → inside b →
  ∃ m1 m2, spring_loc_set mem m lat lon = Some m1 ∧ is_spring_loc mem m1 lat lon = Some (negb (same_bit b)) ∧
    spring_loc_claim mem m1 lat lon = Some m2 ∧ is_spring_loc mem m2 lat lon = Some false ∧ spring_loc_claim mem m2 lat lon = Some m2 ∧
    matrix_ok m2 ∧ ∀ y x, (y, x) ≠ (Z.to_nat (sb_y b), Z.to_nat (sb_x b)) → (m2 !! y ≫= λ r, r !! x) = (m !! y ≫= λ r, r !! x).
Proof.
  intros Hm Eb Hin. destruct (loc_bits_total lat lon) as (b' & Eb' & Hb & _). rewrite Eb in Eb'. injection Eb' as <-.
  destruct (cell_inside m b Hm Hb Hin) as (w & Hc & Hw). destruct (with_bits_ok w b Hw Hb) as [Hr1 Hhas]. destruct (without_bits_ok (with_bits w b) b Hr1 Hb) as [Hr2 Hnot].
  set (m1 := set_cell m b (with_bits w b)). assert (matrix_ok m1) as Hm1 by (by apply set_cell_ok). assert (spring_cell m1 b = Some (with_bits w b)) as Hc1 by (by eapply set_cell_get).
  set (m2 := set_cell m1 b (without_bits (with_bits w b) b)). assert (spring_cell m2 b = Some (without_bits (with_bits w b) b)) as Hc2 by (by eapply set_cell_get).
  assert (spring_loc_set mem m lat lon = Some m1) as E1 by (unfold spring_loc_set; rewrite Eb; cbn [mbind option_bind]; by rewrite Hc).
  exists m1, (if same_bit b then m1 else m2). unfold is_spring_loc, spring_loc_claim. rewrite Eb, E1. cbn [mbind option_bind].
  destruct (same_bit b); cbn [negb]; [split_and!; try done; intros y x Hne; by apply set_cell_other|].
  rewrite Hc1, Hc2. cbn [mbind option_bind]. rewrite Hhas, Hnot. split_and!; try done; [by apply set_cell_ok|].
  intros y x Hne. unfold m2. rewrite set_cell_other by done. by apply set_cell_other.
Qed.

(** C37: Setting a location writes outside the matrix exactly when its latitude or longitude is so far below the offset of the
    matrix that the remainder of its row or column is negative. *)
Theorem spring_bounds m lat lon : matrix_ok m →
  spring_loc_set mem m lat lon = None ↔
  Z.rem (lint (lmul (lsub (l_abs (l_of lat)) SPRING_OFFSET_LATITUDE) SPRING_Y_FACTOR)) 256 < 0 ∨
  Z.rem (lint (lmul (lsub (l_abs (l_of lon)) SPRING_OFFSET_LONGITUDE) SPRING_X_FACTOR)) 256 < 0.
Proof.
  intros Hm. destruct (loc_bits_total lat lon) as (b & Eb & Hb & Ey & Ex). unfold spring_loc_set. rewrite Eb. cbn [mbind option_bind].
  assert (∀ z, u32 (Z.rem z 256) < 256 ↔ 0 ≤ Z.rem z 256) as Hu.
  { intros z. pose proof (Z.rem_bound_abs z 256 ltac:(lia)) as Hr. unfold u32. split; intros Hx.
    - destruct (Z.ltb_spec (Z.rem z 256) 0) as [Hn|]; [|done]. rewrite <-(Z.mod_add _ 1) in Hx by lia. rewrite Z.mod_small in Hx by lia. lia.
    - rewrite Z.mod_small by lia. lia. }
  assert (inside b ↔ 0 ≤ Z.rem (lint (lmul (lsub (l_abs (l_of lat)) SPRING_OFFSET_LATITUDE) SPRING_Y_FACTOR)) 256 ∧
    0 ≤ Z.rem (lint (lmul (lsub (l_abs (l_of lon)) SPRING_OFFSET_LONGITUDE) SPRING_X_FACTOR)) 256) as Hi.
  { unfold inside. rewrite Ey, Ex. unfold spring_index. by rewrite !Hu. }
  destruct (decide (inside b)) as [Hin|Hout].
  - destruct (cell_inside m b Hm Hb Hin) as (w & -> & _). cbn. split; [discriminate|]. apply Hi in Hin. lia.
  - rewrite (cell_outside m b Hm Hout Hb). split; [|done]. intros _. apply dec_stable. intros Hn. apply Hout, Hi. lia.
Qed.
End claims.

(** ** Instances: thousandths of a degree *)
#[local] Instance milli : Double := {| F := Z; f0 := 0; fadd := Z.add; fmul a b := a * b / 1000; fdiv a b := a * 1000 / b; f_of z := z * 1000;
  fsub := Z.sub; fltb := Z.ltb; feqb := Z.eqb; f_inf := -1; fint v := Z.quot v 1000 |}.
#[local] Instance milli_long : LongDouble := {| L := Z; l_of := id; l_ofZ z := z * 1000; l_dec n e := n * 1000 / 10 ^ e; lsub := Z.sub; lmul a b := a * b / 1000;
  lltb := Z.ltb; lint v := Z.quot v 1000; lu32 v := v / 1000; lu64 v := v / 1000; d_dec n e := n * 1000 / 10 ^ e |}.
Definition empty_matrix : list (list Z) := replicate 256 (replicate 256 0).
Lemma empty_matrix_ok : matrix_ok empty_matrix.
Proof. split; [done|]. apply Forall_replicate. split; [done|]. apply Forall_replicate. lia. Qed.
Definition demo_mem : list byte := replicate 64 xff.
(** A location in Montana. *)
Definition demo_loc : spring_bits := Eval vm_compute in default (SpringBits 0 0 0 0 0 0) (spring_loc_bits demo_mem 46589 (-112036)).
Lemma spring_claims_witness : ∃ m1 m2, spring_loc_set demo_mem empty_matrix 46589 (-112036) = Some m1 ∧ is_spring_loc demo_mem m1 46589 (-112036) = Some true ∧
  spring_loc_claim demo_mem m1 46589 (-112036) = Some m2 ∧ is_spring_loc demo_mem m2 46589 (-112036) = Some false.
Proof.
  destruct (@spring_claims milli milli_long demo_mem (Nat.le_refl 64) empty_matrix 46589 (-112036) demo_loc) as (m1 & m2 & E1 & E2 & E3 & E4 & _).
  - exact empty_matrix_ok.
  - vm_compute. reflexivity.
  - split; reflexivity.
  - exact (ex_intro _ m1 (ex_intro _ m2 (conj E1 (conj E2 (conj E3 E4))))).
Defined.
(** Miami lies outside the matrix. *)
Lemma spring_bounds_witness : spring_loc_set demo_mem empty_matrix 25761 (-80191) = None.
Proof. apply (@spring_bounds milli milli_long demo_mem (Nat.le_refl 64)); [exact empty_matrix_ok|]. left. reflexivity. Defined.
